(* ===== verification/_CoqProject ===== *)
-Q . S2P
Prelude.v
Blocks.v
Mem.v
Base64.v
DerSpec.v
CBS.v
CBB.v
Oid.v
Modes.v
CtrMode.v
CbcMode.v
KeyWrap.v
Lhash.v
Collector.v
Md32.v
Schedule.v
Fips197.v
Aes.v
Linear.v
Clmul.v
AesSlice.v
AesBlock.v
AesKey.v
AesCorrect.v
AesModes.v
Ghash.v
Gcm.v
GcmCorrect.v
Polyval.v
Sha256.v
Sha512.v
Quad.v
Md4.v
Md5.v
Sha1.v
Digest.v
Hmac.v
Kdf.v
PQueue.v
Heap.v
Timer.v
TimerHeap.v
PbMem.v
PbStream.v
PbWire.v
PbIter.v
PbMessage.v
PbEncode.v
PbDecode.v
PbReads.v
PbSafe.v
PbContents.v
PbDefaults.v
PbValue.v
PbFind.v
PbMember.v
PbRound.v
Unicode.v
Asn1String.v
