(* ===== verification/Prelude.v ===== *)
(** * The native code of the Clubzey application: a verification library

    Clubzey is a Flutter application. Its Dart code (src/lib) draws screens and
    calls Firebase; the code of this repository that computes is the native code
    under src/macos/Pods, on which the Firebase plugins stand. This library
    models the C of that stack: the parts of BoringSSL that read and write bytes
    and the symmetric primitives above them, the event-loop timers of libuv, and
    nanopb, with which Firestore and the data transport talk protocol buffers.

    ** The parts and their files

    Paths are relative to src/macos/Pods. [crypto/] stands for
    BoringSSL-GRPC/src/crypto.

    - Shared: this file (machine integers with their wrap-around, byte lists,
      the state-and-failure monad [M], its total-correctness triple [wp]) and
      Blocks.v (cutting a stream into blocks).
    - Memory and words: Mem.v is crypto/internal.h (constant-time words, loads,
      stores, rotations) and crypto/mem.c (comparison, hashing, strings,
      allocation arithmetic; the allocator is a parameter).
    - DER: DerSpec.v is the specification (X.690: base-128 numbers, identifiers,
      lengths, elements, INTEGER contents). CBS.v is the reader
      crypto/bytestring/cbs.c; its state is the bytes left to read. CBB.v is the
      writer crypto/bytestring/cbb.c; its state is a store with the shared
      buffer and the tree of CBB objects named by their addresses. Oid.v is the
      dotted text of object identifiers in both files. Unicode.v is
      crypto/bytestring/unicode.c over CBS and CBB; Asn1String.v is
      crypto/asn1/a_mbstr.c and the string objects of asn1_lib.c over the four
      codecs of Unicode.v, behind class [TextCodec].
    - Base64.v is crypto/base64/base64.c, in one call and as a stream.
    - Hash tables: Lhash.v is crypto/lhash/lhash.c on a memory of linked items;
      the hash and comparison functions of the user satisfy [LhashFunctions].
    - Block ciphers: Modes.v (with CtrMode.v and CbcMode.v for two proofs) is
      crypto/fipsmodule/modes/{ofb,ctr,cfb,cbc}.c and KeyWrap.v is
      crypto/fipsmodule/aes/key_wrap.c, over any block cipher (class
      [BlockCipher]).
    - AES: Fips197.v is the standard. Aes.v is
      crypto/fipsmodule/aes/{aes_nohw,aes,mode_wrappers}.c, the constant-time
      implementation that works on four blocks in bitsliced form. Linear.v decides
      which bits a word of shifts, masks and xors is made of; AesSlice.v uses it
      to show that each step of the code is a step of the standard on every block
      of a batch, AesBlock.v moves blocks in and out of that form, AesKey.v is the
      key schedule, AesCorrect.v puts them together and AesModes.v does the code's
      own CBC and counter mode, and the instance of [BlockCipher].
    - Authenticated modes: Clmul.v is carry-less multiplication. Ghash.v is
      crypto/fipsmodule/modes/gcm_nohw.c, with the multiplication of SP 800-38D,
      and Gcm.v is gcm.c over any block cipher, with the standard's encryption;
      GcmCorrect.v proves it by two machines that take a byte at a time, one for
      the hash and one for the counter. Polyval.v is modes/polyval.c and RFC 8452.
    - Digests: Collector.v is the theory of block collectors, Md32.v the code of
      crypto/fipsmodule/digest/md32_common.h, Schedule.v the theory of message
      schedules; Sha1.v, Sha256.v and Sha512.v are crypto/fipsmodule/sha/*.c,
      each with the standard's own definition in a Module ([Fips1], [Fips],
      [Fips512]); Quad.v is what MD4 and MD5 share, and Md4.v and Md5.v are
      crypto/fipsmodule/{md4,md5}/*.c with RFC 1320 and RFC 1321. Digest.v is digest/digest.c and digests.c: contexts that drive
      a digest through a table of functions, which satisfies [DigestLaws].
      Hmac.v is fipsmodule/hmac/hmac.c and Kdf.v is hkdf/hkdf.c and
      evp/pbkdf.c; both are proved against [DigestLaws] only.
    - Timers: PQueue.v is the interface of a priority queue (class [PQueue]);
      Heap.v is Libuv-gRPC/src/heap-inl.h and implements it on a memory of
      linked nodes; Timer.v is src/timer.c with the handle macros of
      uv-common.h and closing as in unix/core.c, proved against the interface;
      TimerHeap.v puts the two together.
    - nanopb: PbMem.v is the byte memory that message structs live in.
      PbStream.v is the streams, the wire values and the scalar field codecs of
      nanopb/pb_encode.c and pb_decode.c, PbWire.v their theorems.
      PbIter.v is the iterator over a table of fields (pb_common.c); the tables
      are generated code, a parameter. PbMessage.v is the rest of pb_encode.c,
      PbEncode.v the list of records that a struct stands for and the proof that
      the encoder writes it. PbDecode.v is the rest of pb_decode.c, with the heap
      it allocates from; PbReads.v says how much of a stream each part of it
      reads, and PbSafe.v that it stays inside the struct. PbContents.v reads the
      value of a message out of a struct; PbDefaults.v (defaults), PbValue.v (one
      value), PbFind.v (the iterator), PbMember.v (one field) and PbRound.v (a
      message) are the steps of the round trip through encoder and decoder.

    ** How the code is modelled

    Integers are [Z], with [u8], [u16], [u32], [u64] (and the signed [s32],
    [s64]) written where the C type wraps. Bytes are [Z] in lists; pointers into
    a buffer are the rest of the list, or offsets where the code writes back.
    A call is a function from a state to an optional result and a state: [None]
    is the code's failure return, and the state that it leaves is part of the
    model. Heap data ([Lhash], [Heap], the tree of CBBs) is a map from addresses,
    and a dereference of an address that is not there also gives [None]; the
    theorems about these components are total, so that it does not happen.

    Loops that are not structural take fuel, enough of it by a lemma where a
    theorem depends on it: the number of CBB objects for [CBB_flush]
    ([CBB.flush_terminates]: more changes nothing), the size of the heap for its
    walks, the number of allocated items for the chains of a hash table, the
    number of bytes left for parsers and for the modes, 10 bytes for a varint.
    The encoder and the decoder of nanopb take the depth to which messages nest:
    [PbEncode.pb_encode_writes] holds for any fuel at which the records of the
    struct are defined, [PbSafe.pb_decode_safe] for any fuel above the depth that
    [PbSafe.fits] computes from the tables, and [PbRound.pb_message_roundtrip]
    for any fuel at which the tables fit and the struct has a value. In PbDecode.v a C function that
    returns [bool] has a [bool] as its result, and [None] is only undefined
    behaviour or lack of fuel.
    [uv__run_timers] takes the number of timers it may run: with callbacks that
    keep restarting a timer at the current time the C loop does not end either,
    and [Timer.uv__run_timers_returns] gives the condition under which it does.

    ** What the theorems show

    - Parsers against their grammar, in both directions
      ([CBS.get_any_asn1_element_iff], [CBS.get_asn1_int64_iff],
      [Unicode.get_utf8_iff], [KeyWrap.unwrap_padded_accepts]): exactly the
      valid encodings are accepted.
    - Writers against a specification of their output: [CBB.build_encodes] runs
      any program of nested writes and obtains the DER of the described value,
      in a growing or a fixed buffer; errors latch and fixed buffers hold.
    - Round trips: OIDs, base64 (streamed, chunked and in one call), nanopb
      messages, the cipher modes and key wrap.
    - Messages: [PbEncode.pb_encode_writes] (the encoder writes the records of the
      struct, in every kind of stream, and computes their size),
      [PbSafe.pb_decode_safe] (on every input the decoder of static messages
      returns, inside the struct and the stream) and
      [PbRound.pb_message_roundtrip] (every static message is encoded, and what
      the decoder makes of the result has the same contents).
    - Data structures as refinements of mathematical objects:
      [Lhash.lhash_refines_map] (a finite map, whatever the resizes),
      [Heap.heap_refines_set] (a set with its minimum),
      [Timer.timer_api_safe] (the invariant of a loop and its handles).
    - Order: [Timer.uv__run_timers_order] (callbacks run by due time and then by
      start order), [Lhash.doall_visits_each].
    - The SHA functions equal FIPS 180-4, with round constants and initial values
      derived from roots of primes, for every way of cutting the message into
      updates, and MD4 and MD5 equal their RFCs in the same way; HMAC, HKDF and PBKDF2 equal RFC 2104, 5869 and 8018 over any
      digest that satisfies the interface, and RFC test vectors evaluate.
    - [AesCorrect.aes_correct]: the bitsliced code is the cipher of FIPS 197 and
      its inverse for keys of 128, 192 and 256 bits, with the S-box defined in the
      field of 256 elements.
    - [GcmCorrect.gcm_correct]: any session of GCM calls, with any cuts of the data,
      computes the ciphertext and the tag of SP 800-38D, and the tag is checked;
      [Polyval.POLYVAL_correct] is the same for the hash of RFC 8452. The field
      multiplication, made of integer products of words with holes, is shown to be
      the standard's through its additivity in both arguments.
    - Optimised code against plain: counter mode in batches of 32-bit counters,
      AES-CBC and AES-CTR four blocks at a time ([AesModes.aes_modes_equivalent]),
      streaming modes a byte at a time, constant-time words.

    ** What is not modelled

    - The Dart code, the runners (windows, linux, macos, ios, android) and the
      plugins: user interface and calls to services, no C of their own.
    - Generated code: upb-generated, upbdefs-generated, the nanopb field tables,
      obj_dat.h, certificates, curve tables, all *.grpc_back copies.
    - C++ and Objective-C: gRPC, abseil, re2, leveldb, Firestore, libssl, the
      Firebase SDKs. They are outside the language of this library.
    - Big numbers, elliptic curves, RSA, X.509: the next layers above the
      modelled ones. Of aes_nohw.c the variants of the word operations for SSE2
      and for 32-bit machines; they are other branches of the same #if, as are
      those of gcm_nohw.c without 128-bit integers and the assembly of gcm.c.
    - Siphash, the ASN.1 templates, BIO and the error queue; of libuv
      everything that talks to the kernel (streams, files, threads, signals) and
      the address printers. nanopb's pointer fields, callbacks and extensions are
      modelled; of the decoder's theorems only static fields are in the scope.

    A later extension would take, in this order: the heap that nanopb's pointer
    fields own, the CCM and GCM-SIV modes, the address printers and IDNA of libuv, BER conversion (bytestring/ber.c). *)

From stdpp Require Export base tactics option list numbers gmap.
From Stdlib Require Export ZArith Lia.

#[global] Open Scope Z_scope.

(** ** Machine words: an [n]-bit unsigned integer is a [Z] in [0, 2^n). *)

Definition u8 (x : Z) : Z := x mod 256.
Definition u16 (x : Z) : Z := x mod 2 ^ 16.
Definition u32 (x : Z) : Z := x mod 2 ^ 32.
Definition u64 (x : Z) : Z := x mod 2 ^ 64.
(** [size_t] is 64 bits wide on the targets of the application. *)
Definition size_t (x : Z) : Z := u64 x.

(** Conversion of an unsigned word to the signed type of the same width. *)
Definition signed (w x : Z) : Z :=
  if x mod 2 ^ w <? 2 ^ (w - 1) then x mod 2 ^ w else x mod 2 ^ w - 2 ^ w.
Definition s32 (x : Z) : Z := signed 32 x.
Definition s64 (x : Z) : Z := signed 64 x.

Definition SIZE_MAX : Z := 2 ^ 64 - 1.
Definition UINT64_MAX : Z := 2 ^ 64 - 1.
Definition INT_MAX : Z := 2 ^ 31 - 1.

Definition is_byte (b : Z) : Prop := 0 <= b < 256.
Abbreviation bytes_ok l := (Forall is_byte l).

(** ** Lists indexed by [Z], as C arrays are *)

Definition zlen {A} (l : list A) : Z := Z.of_nat (length l).
Definition ztake {A} (n : Z) (l : list A) : list A := take (Z.to_nat n) l.
Definition zdrop {A} (n : Z) (l : list A) : list A := drop (Z.to_nat n) l.
(** [l[i]] of an array of integers; out of bounds reads are given 0 and are
    excluded by the bounds theorems. *)
Definition znth (l : list Z) (i : Z) : Z := nth (Z.to_nat i) l 0.
Definition zseq (n : Z) : list Z := Z.of_nat <$> seq 0 (Z.to_nat n).
(** [memcpy (l + off) src (length src)]. *)
Definition zwrite {A} (off : Z) (src l : list A) : list A :=
  ztake off l ++ src ++ zdrop (off + zlen src) l.

(** ** C functions that return 1/0 and mutate an object

    [M S A]: a call mutates an object of type [S] and either succeeds with the
    values of its output parameters ([Some]) or returns 0 ([None]); the object
    keeps the mutations made before the failure. *)

Definition M (S A : Type) : Type := S -> option A * S.

Section monad.
Context {S : Type}.
Definition ret {A} (a : A) : M S A := fun s => (Some a, s).
Definition fail {A} : M S A := fun s => (None, s).
Definition bind {A B} (m : M S A) (k : A -> M S B) : M S B := fun s =>
  match m s with
  | (Some a, s') => k a s'
  | (None, s') => (None, s')
  end.
Definition getst : M S S := fun s => (Some s, s).
Definition putst (s : S) : M S unit := fun _ => (Some tt, s).
Definition require (b : bool) : M S unit := if b then ret tt else fail.
Definition lift {A} (o : option A) : M S A := fun s => (o, s).
(** A call on another object, typically a local variable. *)
Definition on {T A} (t : T) (m : M T A) : M S (A * T) := fun s =>
  match m t with
  | (Some a, t') => (Some (a, t'), s)
  | (None, _) => (None, s)
  end.
(** A loop over a list that stops at the first failure. *)
Section loop.
Context {A : Type} (f : A -> M S unit).
Fixpoint mfor (l : list A) : M S unit :=
  match l with
  | [] => ret tt
  | x :: l' => bind (f x) (fun _ => mfor l')
  end.
End loop.
End monad.

Lemma bind_ok {S A B} (m : M S A) (k : A -> M S B) s a s' : m s = (Some a, s') -> bind m k s = k a s'.
Proof. unfold bind. intros ->. done. Qed.

(** [wp m Q s]: from [s] the call succeeds, with a result and a state that satisfy [Q]. *)
Definition wp {S A} (m : M S A) (Q : A -> S -> Prop) (s : S) : Prop := exists a s', m s = (Some a, s') /\ Q a s'.
Lemma wp_ret {S A} (a : A) (Q : A -> S -> Prop) s : Q a s -> wp (ret a) Q s.
Proof. intros H. exists a, s. done. Qed.
Lemma wp_bind {S A B} (m : M S A) (k : A -> M S B) Q s : wp m (fun a s' => wp (k a) Q s') s -> wp (bind m k) Q s.
Proof. intros (a & s1 & E1 & b & s2 & E2 & H). exists b, s2. unfold bind. rewrite E1. done. Qed.
Lemma wp_mono {S A} (m : M S A) (P Q : A -> S -> Prop) s : wp m P s -> (forall a s', P a s' -> Q a s') -> wp m Q s.
Proof. intros (a & s' & E & H) HPQ. exists a, s'. auto. Qed.
Lemma wp_seq {S A B} (m : M S A) (k : A -> M S B) P Q s :
  wp m P s -> (forall a s', P a s' -> wp (k a) Q s') -> wp (bind m k) Q s.
Proof. intros Hm Hk. apply wp_bind. apply (wp_mono _ _ _ _ Hm Hk). Qed.

Declare Scope c_scope.
Delimit Scope c_scope with c.
Notation "'let*' x := m 'in' k" := (bind m (fun x => k))
  (at level 10, x name, m at level 100, k at level 200) : c_scope.
Notation "'let*' ' p := m 'in' k" := (bind m (fun x => match x with p => k end))
  (at level 10, p pattern, m at level 100, k at level 200) : c_scope.
Notation "m ;; k" := (bind m (fun _ => k))
  (at level 100, k at level 200, right associativity) : c_scope.
#[global] Open Scope c_scope.

(** ** Big- and little-endian byte strings *)

(** The value of a big-endian byte string. *)
Definition be_val (l : list Z) : Z := fold_left (fun r b => r * 256 + b) l 0.
(** The [n] low bytes of [v], most significant first. *)
Fixpoint be_bytes (n : nat) (v : Z) : list Z :=
  match n with
  | O => []
  | S n' => be_bytes n' (v / 256) ++ [v mod 256]
  end.
(** The value of a little-endian byte string. *)
Fixpoint le_val (l : list Z) : Z :=
  match l with [] => 0 | b :: l' => b + 256 * le_val l' end.
Fixpoint le_bytes (n : nat) (v : Z) : list Z :=
  match n with
  | O => []
  | S n' => v mod 256 :: le_bytes n' (v / 256)
  end.

(** ** Proof automation *)

(** [zarith]: linear arithmetic with [/] and [mod] by constants. *)
Ltac zarith := Z.div_mod_to_equations; lia.

(** [simp_eq]: injections, contradictions and substitution after a case split. *)
Ltac simp_eq := simplify_eq/=.

(** [mcase]: split on the scrutinee of the innermost [match] of the goal. *)
Ltac mcase :=
  match goal with
  | |- context [match ?x with _ => _ end] =>
      lazymatch x with
      | context [match _ with _ => _ end] => fail
      | _ => let E := fresh "E" in destruct x eqn:E
      end
  end.

(** [mcase_in H]: the same in a hypothesis. *)
Ltac mcase_in H :=
  match type of H with
  | context [match ?x with _ => _ end] =>
      lazymatch x with
      | context [match _ with _ => _ end] => fail
      | _ => let E := fresh "E" in destruct x eqn:E
      end
  end.

(** [bool_hyps]: turn boolean comparisons in the context into propositions. *)
Ltac bool_hyps := repeat
  match goal with
  | H : (_ && _)%bool = true |- _ => apply andb_prop in H; destruct H
  | H : (_ || _)%bool = false |- _ => apply orb_false_elim in H; destruct H
  | H : (_ || _)%bool = true |- _ => apply orb_prop in H
  | H : (_ && _)%bool = false |- _ => apply andb_false_iff in H
  | H : negb _ = true |- _ => apply negb_true_iff in H
  | H : negb _ = false |- _ => apply negb_false_iff in H
  | H : (_ =? _) = true |- _ => apply Z.eqb_eq in H
  | H : (_ =? _) = false |- _ => apply Z.eqb_neq in H
  | H : (_ <? _) = true |- _ => apply Z.ltb_lt in H
  | H : (_ <? _) = false |- _ => apply Z.ltb_ge in H
  | H : (_ <=? _) = true |- _ => apply Z.leb_le in H
  | H : (_ <=? _) = false |- _ => apply Z.leb_gt in H
  end.

(** [decide_cmp]: split the comparisons of the goal that arithmetic decides. *)
Ltac decide_cmp := repeat match goal with
  | |- context [?a <=? ?b] => destruct (Z.leb_spec a b); try lia
  | |- context [?a <? ?b] => destruct (Z.ltb_spec a b); try lia
  | |- context [?a =? ?b] => destruct (Z.eqb_spec a b); try lia
  end.

Create HintDb bytes.

(** ** Lemmas on words and bits *)

Lemma u8_small x : 0 <= x < 256 -> u8 x = x.
Proof. apply Z.mod_small. Qed.
Lemma u16_small x : 0 <= x < 2 ^ 16 -> u16 x = x.
Proof. apply Z.mod_small. Qed.
Lemma u32_small x : 0 <= x < 2 ^ 32 -> u32 x = x.
Proof. apply Z.mod_small. Qed.
Lemma u64_small x : 0 <= x < 2 ^ 64 -> u64 x = x.
Proof. apply Z.mod_small. Qed.
Lemma size_t_small x : 0 <= x < 2 ^ 64 -> size_t x = x.
Proof. apply Z.mod_small. Qed.
Lemma u32_add_l x y : u32 (u32 x + y) = u32 (x + y).
Proof. apply Zplus_mod_idemp_l. Qed.
Lemma u32_add_r x y : u32 (x + u32 y) = u32 (x + y).
Proof. unfold u32. apply Zplus_mod_idemp_r. Qed.
Lemma u64_add_l x y : u64 (u64 x + y) = u64 (x + y).
Proof. unfold u64. apply Zplus_mod_idemp_l. Qed.
Lemma u64_add_r x y : u64 (x + u64 y) = u64 (x + y).
Proof. unfold u64. apply Zplus_mod_idemp_r. Qed.
Lemma u8_range x : is_byte (u8 x).
Proof. apply Z.mod_pos_bound. lia. Qed.
Lemma u32_range x : 0 <= u32 x < 2 ^ 32.
Proof. apply Z.mod_pos_bound. lia. Qed.
Lemma u64_range x : 0 <= u64 x < 2 ^ 64.
Proof. apply Z.mod_pos_bound. lia. Qed.
#[export] Hint Resolve u8_range : bytes.

Lemma land_mask k x : 0 <= k -> Z.land x (2 ^ k - 1) = x mod 2 ^ k.
Proof. intros. rewrite <- Z.land_ones, Z.ones_equiv by lia. done. Qed.

(** [x] in the high bits and [y < 2^n] in the low bits do not interact. *)
Lemma land_shiftl_small n x y : 0 <= n -> 0 <= y < 2 ^ n -> Z.land (Z.shiftl x n) y = 0.
Proof.
  intros Hn Hy. apply Z.bits_inj'; intros i Hi. rewrite Z.land_spec, Z.bits_0, Z.shiftl_spec by lia.
  destruct (Z.ltb_spec i n); [rewrite Z.testbit_neg_r by lia; done|].
  rewrite <- (Z.mod_small y (2 ^ n)) by lia.
  rewrite Z.mod_pow2_bits_high by lia. apply andb_false_r.
Qed.

Lemma lor_nocarry x y : Z.land x y = 0 -> Z.lor x y = x + y.
Proof. intros H. rewrite Z.add_nocarry_lxor by done. symmetry. apply Z.lxor_lor. done. Qed.

Lemma lor_add n x y : 0 <= n -> 0 <= y < 2 ^ n ->
  Z.lor (Z.shiftl x n) y = x * 2 ^ n + y.
Proof.
  intros Hn Hy. rewrite lor_nocarry by (apply land_shiftl_small; lia).
  rewrite Z.shiftl_mul_pow2; lia.
Qed.

Lemma lor_add_mul n m x y : 0 <= n -> m = 2 ^ n -> 0 <= y < m ->
  Z.lor (x * m) y = x * m + y.
Proof. intros ? -> ?. rewrite <- (Z.shiftl_mul_pow2 x n) by lia. rewrite lor_add by lia.
  rewrite Z.shiftl_mul_pow2; lia. Qed.

Lemma testbit_high x n : 0 <= n -> 0 <= x < 2 ^ (n + 1) -> Z.testbit x n = (2 ^ n <=? x).
Proof.
  intros Hn Hx. rewrite Z.pow_add_r in Hx by lia. change (2 ^ 1) with 2 in Hx.
  assert (Hp : 0 < 2 ^ n) by (apply Z.pow_pos_nonneg; lia).
  destruct (Z.leb_spec (2 ^ n) x) as [H|H].
  - apply Z.testbit_true; [lia|].
    rewrite <- (Z.div_unique x (2 ^ n) 1 (x - 2 ^ n)) by lia. done.
  - apply Z.testbit_false; [lia|]. rewrite Z.div_small by lia. done.
Qed.

Lemma lor_range n x y : 0 <= n -> 0 <= x < 2 ^ n -> 0 <= y < 2 ^ n -> 0 <= Z.lor x y < 2 ^ n.
Proof.
  intros Hn Hx Hy. split; [apply Z.lor_nonneg; lia|].
  destruct (Z.eq_dec (Z.lor x y) 0) as [->|Hne]; [lia|].
  assert (0 <= Z.lor x y) by (apply Z.lor_nonneg; lia).
  apply Z.log2_lt_pow2; [lia|]. rewrite Z.log2_lor by lia.
  destruct (Z.eq_dec n 0) as [->|]; [assert (x = 0) by lia; assert (y = 0) by lia; subst; done|].
  apply Z.max_lub_lt; [destruct (Z.eq_dec x 0) as [->|]; [simpl; lia|]|
                       destruct (Z.eq_dec y 0) as [->|]; [simpl; lia|]];
    apply Z.log2_lt_pow2; lia.
Qed.

Lemma lxor_range n x y : 0 <= n -> 0 <= x < 2 ^ n -> 0 <= y < 2 ^ n -> 0 <= Z.lxor x y < 2 ^ n.
Proof.
  intros Hn Hx Hy. split; [apply Z.lxor_nonneg; lia|].
  assert (E : Z.lxor x y = Z.land (Z.lxor x y) (Z.ones n)).
  { apply Z.bits_inj'. intros i Hi. rewrite Z.land_spec, Z.lxor_spec.
    destruct (Z.ltb_spec i n); [rewrite Z.ones_spec_low, andb_true_r by lia; done|].
    rewrite <- (Z.mod_small x (2 ^ n)), <- (Z.mod_small y (2 ^ n)) by lia.
    rewrite !Z.mod_pow2_bits_high by lia. done. }
  rewrite E, Z.land_ones by lia. apply Z.mod_pos_bound. apply Z.pow_pos_nonneg; lia.
Qed.

Lemma land_range_l x y : 0 <= x -> 0 <= Z.land x y <= x.
Proof.
  intros Hx. split; [apply Z.land_nonneg; lia|].
  assert (Z.ldiff x y + Z.land x y = x) as H.
  { rewrite <- lor_nocarry by (apply Z.bits_inj'; intros i Hi;
      rewrite !Z.land_spec, Z.ldiff_spec, Z.bits_0; destruct (Z.testbit x i), (Z.testbit y i); done).
    apply Z.bits_inj'; intros i Hi. rewrite Z.lor_spec, Z.ldiff_spec, Z.land_spec.
    destruct (Z.testbit x i), (Z.testbit y i); done. }
  assert (0 <= Z.ldiff x y) by (apply Z.ldiff_nonneg; lia). lia.
Qed.

(** *** Two's complement *)

Lemma signed_mod w x y : x mod 2 ^ w = y mod 2 ^ w -> signed w x = signed w y.
Proof. unfold signed. intros ->. done. Qed.

Lemma signed_congr w x : 0 < w -> signed w x mod 2 ^ w = x mod 2 ^ w.
Proof.
  intros Hw. assert (0 < 2 ^ w) by (apply Z.pow_pos_nonneg; lia). unfold signed.
  destruct (_ <? _); [apply Z.mod_mod; lia|].
  rewrite <- (Z.mod_add _ 1) by lia. rewrite Z.mul_1_l, Z.sub_add. apply Z.mod_mod. lia.
Qed.

Lemma signed_range w x : 0 < w -> - 2 ^ (w - 1) <= signed w x < 2 ^ (w - 1).
Proof.
  intros Hw. assert (Hp : 2 ^ w = 2 * 2 ^ (w - 1)) by (rewrite <- Z.pow_succ_r by lia; f_equal; lia).
  assert (0 < 2 ^ (w - 1)) by (apply Z.pow_pos_nonneg; lia).
  pose proof (Z.mod_pos_bound x (2 ^ w) ltac:(lia)). unfold signed.
  destruct (Z.ltb_spec (x mod 2 ^ w) (2 ^ (w - 1))); lia.
Qed.

Lemma signed_small w y : 0 < w -> - 2 ^ (w - 1) <= y < 2 ^ (w - 1) -> signed w y = y.
Proof.
  intros Hw Hy. assert (Hp : 2 ^ w = 2 * 2 ^ (w - 1)) by (rewrite <- Z.pow_succ_r by lia; f_equal; lia).
  unfold signed. destruct (Z.le_gt_cases 0 y).
  - rewrite Z.mod_small by lia. destruct (Z.ltb_spec y (2 ^ (w - 1))); lia.
  - rewrite <- (Z.mod_add y 1), Z.mul_1_l, Z.mod_small by lia.
    destruct (Z.ltb_spec (y + 2 ^ w) (2 ^ (w - 1))); lia.
Qed.

(** Truncating to more bits does not change the signed value. *)
Lemma signed_wide w v x : 0 < w <= v -> signed w (x mod 2 ^ v) = signed w x.
Proof.
  intros Hw. apply signed_mod. assert (Hp : 2 ^ v = 2 ^ w * 2 ^ (v - w)) by (rewrite <- Z.pow_add_r by lia; f_equal; lia).
  assert (0 < 2 ^ w /\ 0 < 2 ^ (v - w)) as [? ?] by (split; apply Z.pow_pos_nonneg; lia).
  rewrite Hp, Z.rem_mul_r by lia.
  rewrite Z.mul_comm, Z.mod_add by lia. apply Z.mod_mod. lia.
Qed.

(** A decidable property of all bytes is checked by evaluation. *)
Lemma byte_forall (P : Z -> bool) b : is_byte b -> forallb P (zseq 256) = true -> P b = true.
Proof.
  intros Hb HP. rewrite forallb_forall in HP. apply HP. unfold zseq.
  apply list_elem_of_In, list_elem_of_fmap. exists (Z.to_nat b). unfold is_byte in Hb.
  split; [lia|]. apply elem_of_seq. lia.
Qed.

Lemma znth_byte l i : bytes_ok l -> is_byte (znth l i).
Proof.
  intros Hl. unfold znth. destruct (nth_in_or_default (Z.to_nat i) l 0) as [Hi|E]; [|rewrite E; unfold is_byte; lia].
  rewrite Forall_forall in Hl. apply Hl. apply list_elem_of_In. done.
Qed.
#[export] Hint Resolve znth_byte : bytes.

(** ** Lemmas on lists indexed by [Z] *)

Section zlist.
Context {A : Type}.
Implicit Types l : list A.

Lemma zlen_nil : zlen ([] : list A) = 0.
Proof. done. Qed.
Lemma zlen_cons (x : A) l : zlen (x :: l) = 1 + zlen l.
Proof. unfold zlen. simpl. lia. Qed.
Lemma zlen_app l1 l2 : zlen (l1 ++ l2) = zlen l1 + zlen l2.
Proof. unfold zlen. rewrite length_app. lia. Qed.
Lemma zlen_nonneg l : 0 <= zlen l.
Proof. unfold zlen. lia. Qed.
Lemma zlen_zero l : zlen l = 0 -> l = [].
Proof. unfold zlen. destruct l; simpl; [done|lia]. Qed.
Lemma zlen_ztake n l : zlen (ztake n l) = Z.max 0 (Z.min n (zlen l)).
Proof. unfold zlen, ztake. rewrite length_take. lia. Qed.
Lemma zlen_zdrop n l : zlen (zdrop n l) = zlen l - Z.max 0 (Z.min n (zlen l)).
Proof. unfold zlen, zdrop. rewrite length_drop. lia. Qed.
Lemma zlen_replicate n (x : A) : zlen (replicate n x) = Z.of_nat n.
Proof. unfold zlen. rewrite length_replicate. done. Qed.
Lemma zlen_map {B} (f : A -> B) l : zlen (f <$> l) = zlen l.
Proof. unfold zlen. rewrite length_fmap. done. Qed.

Lemma ztake_zdrop n l : ztake n l ++ zdrop n l = l.
Proof. apply take_drop. Qed.
Lemma ztake_app n l1 l2 : n = zlen l1 -> ztake n (l1 ++ l2) = l1.
Proof. intros ->. unfold ztake, zlen. rewrite Nat2Z.id. apply take_app_length. Qed.
Lemma zdrop_app n l1 l2 : n = zlen l1 -> zdrop n (l1 ++ l2) = l2.
Proof. intros ->. unfold zdrop, zlen. rewrite Nat2Z.id. apply drop_app_length. Qed.
Lemma ztake_all n l : zlen l <= n -> ztake n l = l.
Proof. unfold ztake, zlen. intros. apply take_ge. lia. Qed.
Lemma zdrop_all n l : zlen l <= n -> zdrop n l = [].
Proof. unfold zdrop, zlen. intros. apply drop_ge. lia. Qed.
Lemma ztake_0 l : ztake 0 l = [].
Proof. done. Qed.
Lemma zdrop_0 l : zdrop 0 l = l.
Proof. done. Qed.
Lemma ztake_ztake n m l : n <= m -> ztake n (ztake m l) = ztake n l.
Proof. intros. unfold ztake. rewrite take_take. f_equal. lia. Qed.
Lemma zdrop_zdrop n m l : 0 <= n -> 0 <= m -> zdrop n (zdrop m l) = zdrop (m + n) l.
Proof. intros. unfold zdrop. rewrite drop_drop. f_equal. lia. Qed.
Lemma ztake_app_le n l1 l2 : n <= zlen l1 -> ztake n (l1 ++ l2) = ztake n l1.
Proof. unfold zlen, ztake. intros. apply take_app_le. lia. Qed.
Lemma ztake_app_ge n l1 l2 : zlen l1 <= n -> ztake n (l1 ++ l2) = l1 ++ ztake (n - zlen l1) l2.
Proof. unfold zlen, ztake. intros. rewrite take_app_ge by lia. do 2 f_equal. lia. Qed.
Lemma zdrop_app_le n l1 l2 : n <= zlen l1 -> zdrop n (l1 ++ l2) = zdrop n l1 ++ l2.
Proof. unfold zlen, zdrop. intros. apply drop_app_le. lia. Qed.
Lemma zdrop_app_ge n l1 l2 : zlen l1 <= n -> zdrop n (l1 ++ l2) = zdrop (n - zlen l1) l2.
Proof. unfold zlen, zdrop. intros. rewrite drop_app_ge by lia. f_equal. lia. Qed.
Lemma Forall_ztake (P : A -> Prop) n l : Forall P l -> Forall P (ztake n l).
Proof. apply Forall_take. Qed.
Lemma Forall_zdrop (P : A -> Prop) n l : Forall P l -> Forall P (zdrop n l).
Proof. apply Forall_drop. Qed.
Lemma zlen_zwrite off src l : 0 <= off -> off + zlen src <= zlen l ->
  zlen (zwrite off src l) = zlen l.
Proof.
  intros. pose proof (zlen_nonneg src). unfold zwrite.
  rewrite !zlen_app, zlen_ztake, zlen_zdrop. lia.
Qed.
End zlist.

Create Rewrite HintDb zlen.
#[export] Hint Rewrite @zlen_nil @zlen_cons @zlen_app @zlen_ztake @zlen_zdrop
  @zlen_replicate @zlen_map : zlen.
(** [zlia]: lengths of compound lists, then [lia]. *)
Ltac zlia := autorewrite with zlen in *; try lia.

(** ** Lemmas on byte strings *)

Lemma be_val_app l1 l2 : be_val (l1 ++ l2) = be_val l1 * 256 ^ zlen l2 + be_val l2.
Proof.
  unfold be_val. rewrite fold_left_app. generalize (fold_left (fun r b => r * 256 + b) l1 0).
  induction l2 as [|x l IH] using rev_ind; intros r; [rewrite zlen_nil; simpl; lia|].
  rewrite !fold_left_app. simpl. rewrite IH, zlen_app, Z.pow_add_r by (pose proof (zlen_nonneg l); change (zlen [x]) with 1; lia).
  change (256 ^ zlen [x]) with 256. ring.
Qed.
Lemma be_val_snoc l x : be_val (l ++ [x]) = be_val l * 256 + x.
Proof. rewrite be_val_app. change (zlen [x]) with 1. unfold be_val at 2. simpl. lia. Qed.
Lemma be_val_cons x l : be_val (x :: l) = x * 256 ^ zlen l + be_val l.
Proof. change (x :: l) with ([x] ++ l). rewrite be_val_app. done. Qed.
Lemma be_val_range l : bytes_ok l -> 0 <= be_val l < 256 ^ zlen l.
Proof.
  induction l as [|x l IH]; intros H; [done|].
  rewrite be_val_cons, zlen_cons, Z.pow_add_r by (pose proof (zlen_nonneg l); lia).
  apply Forall_cons in H as [Hx Hl]. unfold is_byte in Hx. specialize (IH Hl).
  change (256 ^ 1) with 256. nia.
Qed.
Lemma length_be_bytes n v : length (be_bytes n v) = n.
Proof. revert v. induction n as [|n IH]; intros v; [done|]. cbn [be_bytes].
  rewrite length_app, IH. simpl. lia. Qed.
Lemma zlen_be_bytes n v : zlen (be_bytes n v) = Z.of_nat n.
Proof. unfold zlen. rewrite length_be_bytes. done. Qed.
#[export] Hint Rewrite zlen_be_bytes : zlen.
Lemma be_bytes_ok n v : bytes_ok (be_bytes n v).
Proof.
  revert v. induction n as [|n IH]; intros v; [constructor|]. cbn [be_bytes].
  apply Forall_app; split; [apply IH|]. constructor; [apply u8_range|constructor].
Qed.
#[export] Hint Resolve be_bytes_ok : bytes.
Lemma be_val_be_bytes n v : be_val (be_bytes n v) = v mod 256 ^ Z.of_nat n.
Proof.
  revert v. induction n as [|n IH]; intros v; [rewrite Z.mod_1_r; done|]. cbn [be_bytes].
  rewrite be_val_snoc, IH, Nat2Z.inj_succ, Z.pow_succ_r by lia.
  rewrite (Z.rem_mul_r v 256) by (pose proof (Z.pow_pos_nonneg 256 (Z.of_nat n)); lia). lia.
Qed.
Lemma be_bytes_be_val l n : bytes_ok l -> n = length l -> be_bytes n (be_val l) = l.
Proof.
  revert n. induction l as [|x l IH] using rev_ind; intros n H ->; [done|].
  rewrite length_app, Nat.add_1_r. cbn [be_bytes]. rewrite be_val_snoc.
  apply Forall_app in H as [Hl Hx]. apply Forall_cons_1 in Hx as [Hx _]. unfold is_byte in Hx.
  replace ((be_val l * 256 + x) / 256) with (be_val l) by zarith.
  replace ((be_val l * 256 + x) mod 256) with x by zarith. rewrite IH by done. done.
Qed.

Lemma le_val_app l1 l2 : le_val (l1 ++ l2) = le_val l1 + 256 ^ zlen l1 * le_val l2.
Proof.
  induction l1 as [|x l1 IH]; cbn [app le_val].
  - change (256 ^ zlen []) with 1. lia.
  - pose proof (zlen_nonneg l1). rewrite IH, zlen_cons, (Z.pow_add_r 256 1) by lia. lia.
Qed.
Lemma le_val_range l : bytes_ok l -> 0 <= le_val l < 256 ^ zlen l.
Proof.
  induction l as [|x l IH]; intros H; [done|]. cbn [le_val].
  rewrite zlen_cons, Z.pow_add_r by (pose proof (zlen_nonneg l); lia).
  apply Forall_cons in H as [Hx Hl]. unfold is_byte in Hx. specialize (IH Hl).
  change (256 ^ 1) with 256. lia.
Qed.
Lemma length_le_bytes n v : length (le_bytes n v) = n.
Proof. revert v. induction n as [|n IH]; intros v; [done|]. simpl. rewrite IH. done. Qed.
Lemma zlen_le_bytes n v : zlen (le_bytes n v) = Z.of_nat n.
Proof. unfold zlen. rewrite length_le_bytes. done. Qed.
#[export] Hint Rewrite zlen_le_bytes : zlen.
Lemma le_bytes_ok n v : bytes_ok (le_bytes n v).
Proof. revert v. induction n as [|n IH]; intros v; constructor; [apply u8_range|apply IH]. Qed.
#[export] Hint Resolve le_bytes_ok : bytes.
Lemma le_val_le_bytes n v : le_val (le_bytes n v) = v mod 256 ^ Z.of_nat n.
Proof.
  revert v. induction n as [|n IH]; intros v; [rewrite Z.mod_1_r; done|]. cbn [le_bytes le_val].
  rewrite IH, Nat2Z.inj_succ, Z.pow_succ_r by lia.
  rewrite (Z.rem_mul_r v 256) by (pose proof (Z.pow_pos_nonneg 256 (Z.of_nat n)); lia). lia.
Qed.
Lemma le_bytes_le_val l n : bytes_ok l -> n = length l -> le_bytes n (le_val l) = l.
Proof.
  revert n. induction l as [|x l IH]; intros n H ->; [done|]. cbn [length le_bytes le_val].
  apply Forall_cons in H as [Hx Hl]. unfold is_byte in Hx. f_equal; [zarith|].
  replace ((x + 256 * le_val l) / 256) with (le_val l) by zarith. apply IH; done.
Qed.

Lemma le_bytes_mod n v : le_bytes n (v mod 256 ^ Z.of_nat n) = le_bytes n v.
Proof.
  revert v. induction n as [|n IH]; intros v; [done|]. cbn [le_bytes].
  rewrite Nat2Z.inj_succ, Z.pow_succ_r by lia.
  assert (0 < 256 ^ Z.of_nat n) by (apply Z.pow_pos_nonneg; lia).
  rewrite Z.rem_mul_r by lia. f_equal; [zarith|]. rewrite <- (IH (v / 256)). f_equal. zarith.
Qed.

(** [byte_check P b as H]: [H : P b = true] for a byte [b] in the context,
    [P] being checked on all 256 values. *)
Tactic Notation "byte_check" constr(P) constr(b) "as" ident(H) :=
  assert (H : P b = true) by (apply (byte_forall P b); [unfold is_byte; lia | vm_compute; reflexivity]);
  cbv beta in H.

(** Overwriting the middle part of a list. *)
Lemma zwrite_mid {A} off (src a x z : list A) : off = zlen a -> zlen x = zlen src ->
  zwrite off src (a ++ x ++ z) = a ++ src ++ z.
Proof.
  intros -> Hx. unfold zwrite. rewrite ztake_app by done. do 2 f_equal.
  rewrite app_assoc, zdrop_app; [done|]. rewrite zlen_app. lia.
Qed.

(** Both orders of the bytes of a number, and its high and low parts. *)
Lemma be_bytes_rev n v : be_bytes n v = rev (le_bytes n v).
Proof. revert v. induction n as [|n IH]; intros v; [done|]. cbn [be_bytes le_bytes rev]. rewrite IH. done. Qed.
Lemma be_val_rev l : be_val (rev l) = le_val l.
Proof. induction l as [|x l IH]; [done|]. cbn [rev le_val]. rewrite be_val_snoc, IH. lia. Qed.
Lemma be_bytes_mod n v : be_bytes n (v mod 256 ^ Z.of_nat n) = be_bytes n v.
Proof. rewrite !be_bytes_rev, le_bytes_mod. done. Qed.
Lemma be_bytes_add n m v : be_bytes (n + m) v = be_bytes n (v / 256 ^ Z.of_nat m) ++ be_bytes m v.
Proof.
  revert v. induction m as [|m IH]; intros v.
  - rewrite Nat.add_0_r, app_nil_r, Z.div_1_r. done.
  - rewrite Nat.add_succ_r. cbn [be_bytes]. rewrite IH, app_assoc, Z.div_div by lia.
    rewrite Nat2Z.inj_succ, Z.pow_succ_r by lia. done.
Qed.

(** Overwriting part of an array. *)
Lemma zdrop_zwrite {A} k off (src l : list A) : 0 <= k <= off -> off <= zlen l ->
  zdrop k (zwrite off src l) = zwrite (off - k) src (zdrop k l).
Proof.
  intros Hk Hl. unfold zwrite. pose proof (zlen_nonneg src). rewrite zdrop_app_le by (rewrite zlen_ztake; lia).
  rewrite zdrop_zdrop by lia. replace (k + (off - k + zlen src)) with (off + zlen src) by lia.
  unfold zdrop, ztake. rewrite (take_drop_commute l (Z.to_nat (off - k)) (Z.to_nat k)).
  replace (Z.to_nat k + Z.to_nat (off - k))%nat with (Z.to_nat off) by lia. done.
Qed.
Lemma zdrop_zwrite_at {A} off (src l : list A) : 0 <= off <= zlen l ->
  zdrop off (zwrite off src l) = src ++ zdrop (off + zlen src) l.
Proof. intros H. unfold zwrite. apply zdrop_app. rewrite zlen_ztake. lia. Qed.
Lemma ztake_zwrite {A} off (src l : list A) : 0 <= off <= zlen l -> ztake off (zwrite off src l) = ztake off l.
Proof. intros H. unfold zwrite. apply ztake_app. rewrite zlen_ztake. lia. Qed.
Lemma zwrite_zwrite {A} off (src1 src2 l : list A) : 0 <= off -> off + zlen src1 <= zlen l -> zlen src1 = zlen src2 ->
  zwrite off src2 (zwrite off src1 l) = zwrite off src2 l.
Proof.
  intros Ho Hl E. pose proof (zlen_nonneg src1). unfold zwrite at 1. rewrite ztake_zwrite by lia.
  rewrite <- zdrop_zdrop by lia. rewrite zdrop_zwrite_at, zdrop_app by lia. unfold zwrite. rewrite E. done.
Qed.
Lemma zwrite_same {A} off n (l : list A) : 0 <= off -> 0 <= n -> off + n <= zlen l -> zwrite off (ztake n (zdrop off l)) l = l.
Proof.
  intros Ho Hn Hl. unfold zwrite. rewrite zlen_ztake, zlen_zdrop.
  replace (off + Z.max 0 (Z.min n (zlen l - Z.max 0 (Z.min off (zlen l))))) with (off + n) by lia.
  rewrite <- zdrop_zdrop, !ztake_zdrop by lia. done.
Qed.

Lemma le_bytes_add n m v : le_bytes (n + m) v = le_bytes n v ++ le_bytes m (v / 256 ^ Z.of_nat n).
Proof.
  revert v. induction n as [|n IH]; intros v; [rewrite Z.div_1_r; done|]. cbn [Nat.add le_bytes app]. f_equal.
  rewrite IH, Z.div_div by lia. rewrite Nat2Z.inj_succ, Z.pow_succ_r by lia. done.
Qed.
Lemma zwrite_after {A} off (p src l : list A) : ztake off l = p ->
  zwrite off src l = p ++ src ++ zdrop (off + zlen src) l.
Proof. intros <-. done. Qed.
