(* ===== verification/Blocks.v ===== *)
(** * Cutting a byte stream into blocks.

    Streaming code (base64 lines, message digests) buffers an incomplete block
    between calls. [chunks n l] are the complete [n]-byte blocks of [l] and
    [leftover n l] the bytes after them; the lemmas say how they change when
    bytes are appended, which is what such code is verified against. *)

From S2P Require Import Prelude.

Section blocks.
Context {A : Type} (n : Z) (Hn : 0 < n).
Implicit Types l p x b : list A.

Fixpoint chunks_fuel (k : nat) l : list (list A) :=
  match k with
  | O => []
  | S k' => ztake n l :: chunks_fuel k' (zdrop n l)
  end.
Definition chunks l : list (list A) := chunks_fuel (Z.to_nat (zlen l / n)) l.
Definition leftover l : list A := zdrop (n * (zlen l / n)) l.

Lemma chunks_short l : zlen l < n -> chunks l = [].
Proof using Hn. intros H. unfold chunks. pose proof (zlen_nonneg l). rewrite Z.div_small by lia. done. Qed.
Lemma leftover_short l : zlen l < n -> leftover l = l.
Proof using Hn. intros H. unfold leftover. pose proof (zlen_nonneg l). rewrite Z.div_small, Z.mul_0_r by lia. done. Qed.

Lemma zlen_block_div b l : zlen b = n -> zlen (b ++ l) / n = 1 + zlen l / n.
Proof using Hn.
  intros Hb. rewrite zlen_app, Hb. replace (n + zlen l) with (zlen l + 1 * n) by lia.
  rewrite Z.div_add by lia. lia.
Qed.

Lemma chunks_block b l : zlen b = n -> chunks (b ++ l) = b :: chunks l.
Proof using Hn.
  intros Hb. unfold chunks. rewrite zlen_block_div by done.
  assert (0 <= zlen l / n) by (apply Z.div_pos; [apply zlen_nonneg|lia]).
  replace (Z.to_nat (1 + zlen l / n)) with (S (Z.to_nat (zlen l / n))) by lia.
  cbn [chunks_fuel]. rewrite ztake_app, zdrop_app by lia. done.
Qed.
Lemma leftover_block b l : zlen b = n -> leftover (b ++ l) = leftover l.
Proof using Hn.
  intros Hb. unfold leftover. rewrite zlen_block_div by done.
  assert (0 <= zlen l / n) by (apply Z.div_pos; [apply zlen_nonneg|lia]).
  rewrite zdrop_app_ge by nia. f_equal. nia.
Qed.

Lemma zlen_leftover l : 0 <= zlen (leftover l) < n.
Proof using Hn.
  unfold leftover. rewrite zlen_zdrop. pose proof (zlen_nonneg l).
  pose proof (Z.mul_div_le (zlen l) n Hn). pose proof (Z.mul_succ_div_gt (zlen l) n Hn).
  assert (0 <= zlen l / n) by (apply Z.div_pos; lia). nia.
Qed.

Lemma zlen_leftover_mod l : zlen (leftover l) = zlen l mod n.
Proof using Hn.
  unfold leftover. rewrite zlen_zdrop. pose proof (zlen_nonneg l).
  pose proof (Z.mul_div_le (zlen l) n Hn). assert (0 <= zlen l / n) by (apply Z.div_pos; lia).
  rewrite Z.mod_eq by lia. nia.
Qed.

(** Induction that removes a block at a time. *)
Lemma block_ind (P : list A -> Prop) :
  (forall l, zlen l < n -> P l) -> (forall b l, zlen b = n -> P l -> P (b ++ l)) -> forall l, P l.
Proof using Hn.
  intros Hs Hb l. remember (length l) as k eqn:Hk. revert l Hk.
  induction k as [k IH] using (well_founded_induction Nat.lt_wf_0). intros l ->.
  destruct (Z.ltb_spec (zlen l) n) as [H|H]; [by apply Hs|].
  rewrite <- (ztake_zdrop n l). apply Hb; [rewrite zlen_ztake; lia|].
  apply (IH (length (zdrop n l))); [|done].
  pose proof (zlen_zdrop n l) as E. unfold zlen in *. lia.
Qed.

Lemma chunks_app p x : chunks (p ++ x) = chunks p ++ chunks (leftover p ++ x).
Proof using Hn.
  induction p as [p Hp|b p Hb IH] using block_ind.
  - rewrite (chunks_short p), (leftover_short p) by done. done.
  - rewrite <- app_assoc, !(chunks_block b), (leftover_block b), IH by done. done.
Qed.
Lemma leftover_app p x : leftover (p ++ x) = leftover (leftover p ++ x).
Proof using Hn.
  induction p as [p Hp|b p Hb IH] using block_ind.
  - rewrite (leftover_short p) by done. done.
  - rewrite <- app_assoc, !(leftover_block b), IH by done. done.
Qed.

Lemma chunks_leftover l : concat (chunks l) ++ leftover l = l.
Proof using Hn.
  induction l as [l Hl|b l Hb IH] using block_ind.
  - rewrite chunks_short, leftover_short by done. done.
  - rewrite chunks_block, leftover_block by done. cbn [concat]. rewrite <- app_assoc, IH. done.
Qed.

Lemma chunks_all l : Forall (fun b => zlen b = n) (chunks l).
Proof using Hn.
  induction l as [l Hl|b l Hb IH] using block_ind; [rewrite chunks_short by done; constructor|].
  rewrite chunks_block by done. by constructor.
Qed.

(** The leftover bytes do not matter to the blocks. *)
Lemma chunks_aligned l : chunks (ztake (n * (zlen l / n)) l) = chunks l.
Proof using Hn.
  induction l as [l Hl|b l Hb IH] using block_ind.
  - rewrite Z.div_small by (pose proof (zlen_nonneg l); lia). rewrite Z.mul_0_r, ztake_0, !chunks_short; [done|lia|].
    rewrite zlen_nil. lia.
  - rewrite zlen_block_div, chunks_block by done. assert (0 <= zlen l / n) by (apply Z.div_pos; [apply zlen_nonneg|lia]).
    rewrite ztake_app_ge by nia. replace (n * (1 + zlen l / n) - zlen b) with (n * (zlen l / n)) by lia.
    rewrite chunks_block, IH by done. done.
Qed.

(** Filling the buffer [b] of a partial block with the first bytes of [x]. *)
Lemma fill_block b x : zlen b <= n -> n - zlen b <= zlen x ->
  chunks (b ++ x) = (b ++ ztake (n - zlen b) x) :: chunks (zdrop (n - zlen b) x) /\
  leftover (b ++ x) = leftover (zdrop (n - zlen b) x).
Proof using Hn.
  intros Hb Hx.
  assert (E : zlen (b ++ ztake (n - zlen b) x) = n) by (rewrite zlen_app, zlen_ztake; lia).
  replace (b ++ x) with ((b ++ ztake (n - zlen b) x) ++ zdrop (n - zlen b) x)
    by (rewrite <- app_assoc, ztake_zdrop; done).
  rewrite chunks_block, leftover_block by done. done.
Qed.
End blocks.
