(* ===== verification/Mem.v ===== *)
(** * crypto/internal.h and crypto/mem.c: constant-time words, byte order,
    memory and string primitives shared by the BoringSSL components. *)

From S2P Require Import Prelude.

(** ** Constant-time comparisons on 64-bit words (crypto/internal.h) *)

Definition CONSTTIME_TRUE_W : Z := 2 ^ 64 - 1.
Definition CONSTTIME_FALSE_W : Z := 0.

(** [~a] on [crypto_word_t]. *)
Definition not_w (a : Z) : Z := u64 (Z.lnot a).

Definition value_barrier_w (a : Z) : Z := a.

Definition constant_time_msb_w (a : Z) : Z := u64 (0 - Z.shiftr a 63).

Definition constant_time_lt_w (a b : Z) : Z :=
  constant_time_msb_w (Z.lxor a (Z.lor (Z.lxor a b) (Z.lxor (u64 (a - b)) a))).

Definition constant_time_lt_8 (a b : Z) : Z := u8 (constant_time_lt_w a b).

Definition constant_time_ge_w (a b : Z) : Z := not_w (constant_time_lt_w a b).

Definition constant_time_ge_8 (a b : Z) : Z := u8 (constant_time_ge_w a b).

Definition constant_time_is_zero_w (a : Z) : Z :=
  constant_time_msb_w (Z.land (not_w a) (u64 (a - 1))).

Definition constant_time_is_zero_8 (a : Z) : Z := u8 (constant_time_is_zero_w a).

Definition constant_time_eq_w (a b : Z) : Z := constant_time_is_zero_w (Z.lxor a b).

Definition constant_time_eq_8 (a b : Z) : Z := u8 (constant_time_eq_w a b).

(** [int] arguments are converted to [crypto_word_t] by reduction mod 2^64. *)
Definition constant_time_eq_int (a b : Z) : Z := constant_time_eq_w (u64 a) (u64 b).

Definition constant_time_eq_int_8 (a b : Z) : Z := constant_time_eq_8 (u64 a) (u64 b).

Definition constant_time_select_w (mask a b : Z) : Z :=
  Z.lor (Z.land (value_barrier_w mask) a) (Z.land (value_barrier_w (not_w mask)) b).

Definition constant_time_select_8 (mask a b : Z) : Z :=
  u8 (constant_time_select_w mask a b).

Definition constant_time_select_int (mask a b : Z) : Z :=
  s32 (constant_time_select_w mask (u64 a) (u64 b)).

(** ** Byte order (crypto/internal.h, the portable definitions) *)

Definition CRYPTO_bswap2 (x : Z) : Z := u16 (Z.lor (Z.shiftr x 8) (Z.shiftl x 8)).

Definition CRYPTO_bswap4 (x : Z) : Z :=
  let x := Z.lor (Z.shiftr x 16) (u32 (Z.shiftl x 16)) in
  Z.lor (Z.shiftr (Z.land x 0xff00ff00) 8) (u32 (Z.shiftl (Z.land x 0x00ff00ff) 8)).

Definition CRYPTO_bswap8 (x : Z) : Z :=
  Z.lor (CRYPTO_bswap4 (Z.shiftr x 32)) (u64 (Z.shiftl (CRYPTO_bswap4 (u32 x)) 32)).

(** Little-endian host: [memcpy] of an integer writes its bytes low first. *)
Definition CRYPTO_load_u32_le (l : list Z) : Z := le_val (take 4 l).
Definition CRYPTO_store_u32_le (v : Z) : list Z := le_bytes 4 v.
Definition CRYPTO_load_u32_be (l : list Z) : Z := CRYPTO_bswap4 (le_val (take 4 l)).
Definition CRYPTO_store_u32_be (v : Z) : list Z := le_bytes 4 (CRYPTO_bswap4 v).
Definition CRYPTO_load_u64_be (l : list Z) : Z := CRYPTO_bswap8 (le_val (take 8 l)).
Definition CRYPTO_store_u64_be (v : Z) : list Z := le_bytes 8 (CRYPTO_bswap8 v).

Definition CRYPTO_rotl_u32 (value shift : Z) : Z :=
  Z.lor (u32 (Z.shiftl value shift)) (Z.shiftr value (Z.land (- shift) 31)).
Definition CRYPTO_rotl_u64 (value shift : Z) : Z :=
  Z.lor (u64 (Z.shiftl value shift)) (Z.shiftr value (Z.land (- shift) 63)).

Definition CRYPTO_rotr_u64 (value shift : Z) : Z :=
  Z.lor (Z.shiftr value shift) (u64 (Z.shiftl value (Z.land (- shift) 63))).
Definition CRYPTO_rotr_u32 (value shift : Z) : Z :=
  Z.lor (Z.shiftr value shift) (u32 (Z.shiftl value (Z.land (- shift) 31))).

(** ** Memory and strings (crypto/mem.c) *)

(** [OPENSSL_memchr]: the index of the first [c] among the bytes of [s]. *)
Fixpoint OPENSSL_memchr (s : list Z) (c : Z) : option Z :=
  match s with
  | [] => None
  | b :: s' => if b =? c then Some 0 else Z.succ <$> OPENSSL_memchr s' c
  end.

(** [OPENSSL_memcmp] on two buffers of the same length: the sign of the first
    difference. *)
Fixpoint OPENSSL_memcmp (a b : list Z) : Z :=
  match a, b with
  | x :: a', y :: b' => if x =? y then OPENSSL_memcmp a' b' else if x <? y then -1 else 1
  | _, _ => 0
  end.

Fixpoint CRYPTO_memcmp_loop (x : Z) (a b : list Z) : Z :=
  match a, b with
  | p :: a', q :: b' => CRYPTO_memcmp_loop (u8 (Z.lor x (Z.lxor p q))) a' b'
  | _, _ => x
  end.
(** Both buffers have [len] bytes. *)
Definition CRYPTO_memcmp (a b : list Z) : Z := CRYPTO_memcmp_loop 0 a b.

Definition OPENSSL_hash32 (l : list Z) : Z :=
  fold_left (fun h b => u32 (Z.lxor h b * 16777619)) l 2166136261.

(** C strings are the bytes before the first NUL. *)
Fixpoint OPENSSL_strnlen (s : list Z) : Z :=
  match s with
  | [] => 0
  | b :: s' => if b =? 0 then 0 else 1 + OPENSSL_strnlen s'
  end.

Definition OPENSSL_tolower (c : Z) : Z := if (65 <=? c) && (c <=? 90) then c + (97 - 65) else c.

(** [OPENSSL_strncasecmp]: at most [n] iterations; reading past the end of a
    list reads its terminating NUL. *)
Fixpoint OPENSSL_strncasecmp (a b : list Z) (n : nat) : Z :=
  match n with
  | O => 0
  | S n' =>
      let aa := OPENSSL_tolower (nth 0 a 0) in
      let bb := OPENSSL_tolower (nth 0 b 0) in
      if aa <? bb then -1 else if bb <? aa then 1 else if aa =? 0 then 0
      else OPENSSL_strncasecmp (tail a) (tail b) n'
  end.

(** [OPENSSL_strlcpy dst src dst_size]: the bytes written to [dst] (the
    terminator included) and the returned length. [src] is without its NUL. *)
Fixpoint strlcpy_loop (src : list Z) (dst_size : nat) : list Z * list Z * nat :=
  match src, dst_size with
  | c :: src', S (S _ as d) =>
      let '(out, rest, d') := strlcpy_loop src' d in (c :: out, rest, d')
  | _, _ => ([], src, dst_size)
  end.
Definition OPENSSL_strlcpy (src : list Z) (dst_size : nat) : list Z * Z :=
  let '(out, rest, d) := strlcpy_loop src dst_size in
  (if (0 <? d)%nat then out ++ [0] else out, zlen out + zlen rest).

Section alloc.
(** [malloc_ok n]: the C library's [malloc(n)] does not return NULL. *)
Context (malloc_ok : Z -> bool).

Definition OPENSSL_MALLOC_PREFIX : Z := 8.

Definition OPENSSL_malloc_ok (size : Z) : bool :=
  if size_t (size + OPENSSL_MALLOC_PREFIX) <? size then false
  else malloc_ok (size_t (size + OPENSSL_MALLOC_PREFIX)).

(** Contents of the returned block; [None] is NULL. *)
Definition OPENSSL_memdup (data : list Z) : option (list Z) :=
  if zlen data =? 0 then None
  else if OPENSSL_malloc_ok (zlen data) then Some data else None.

Definition OPENSSL_strndup (str : list Z) : option (list Z) :=
  let size := OPENSSL_strnlen str in
  let alloc_size := size_t (size + 1) in
  if alloc_size <? size then None
  else if OPENSSL_malloc_ok alloc_size then Some (ztake size str ++ [0]) else None.

(** [OPENSSL_realloc] of a block with contents [old] to [new_size] bytes,
    where [fresh] is what the new block holds before the copy. *)
Definition OPENSSL_realloc (old : list Z) (new_size : Z) (fresh : list Z) : option (list Z) :=
  if OPENSSL_malloc_ok new_size then
    let to_copy := if zlen old <? new_size then zlen old else new_size in
    Some (ztake to_copy old ++ zdrop to_copy fresh)
  else None.
End alloc.

(** With memory left, requests of any realistic size are served. *)
Lemma malloc_ok_small malloc_ok n : (forall k, 0 <= k < 2 ^ 63 -> malloc_ok k = true) -> 0 <= n < 2 ^ 62 ->
  OPENSSL_malloc_ok malloc_ok n = true.
Proof.
  intros Hm Hn. unfold OPENSSL_malloc_ok, OPENSSL_MALLOC_PREFIX. rewrite size_t_small by lia.
  destruct (Z.ltb_spec (n + 8) n); [lia|]. apply Hm. lia.
Qed.

(** ** The comparisons are masks *)

(** The mask of a condition. *)
Definition mask_w (b : bool) : Z := if b then CONSTTIME_TRUE_W else CONSTTIME_FALSE_W.
Definition is_word (x : Z) : Prop := 0 <= x < 2 ^ 64.

Lemma msb_w_mask a : is_word a -> constant_time_msb_w a = mask_w (Z.testbit a 63).
Proof.
  unfold is_word, constant_time_msb_w, mask_w, CONSTTIME_TRUE_W, CONSTTIME_FALSE_W. intros Ha.
  rewrite testbit_high by (change (63 + 1) with 64; lia). rewrite Z.shiftr_div_pow2 by lia.
  destruct (Z.leb_spec (2 ^ 63) a).
  - assert (a / 2 ^ 63 = 1) as -> by (symmetry; apply (Z.div_unique _ _ _ (a - 2 ^ 63)); lia). done.
  - rewrite Z.div_small by lia. done.
Qed.
Lemma not_w_word a : is_word (not_w a).
Proof. apply u64_range. Qed.
Lemma not_w_eq a : is_word a -> not_w a = 2 ^ 64 - 1 - a.
Proof.
  unfold is_word, not_w, u64. intros Ha. rewrite <- (Z.mod_unique (Z.lnot a) (2 ^ 64) (-1) (2 ^ 64 - 1 - a)); [done|lia|].
  unfold Z.lnot. lia.
Qed.
Lemma not_w_mask b : not_w (mask_w b) = mask_w (negb b).
Proof. destruct b; done. Qed.
Lemma mask_w_word b : is_word (mask_w b).
Proof. destruct b; done. Qed.

Lemma is_zero_w_mask a : is_word a -> constant_time_is_zero_w a = mask_w (a =? 0).
Proof.
  unfold is_word. intros Ha. unfold constant_time_is_zero_w.
  pose proof (not_w_word a) as Hn. pose proof (not_w_eq a Ha) as En. pose proof (u64_range (a - 1)) as H1.
  rewrite msb_w_mask by (unfold is_word; pose proof (land_range_l (not_w a) (u64 (a - 1))); unfold is_word in *; lia).
  f_equal. rewrite Z.land_spec. rewrite !testbit_high by (unfold is_word in *; change (63 + 1) with 64; lia).
  rewrite En. destruct (Z.eqb_spec a 0) as [->|].
  - done.
  - rewrite u64_small by lia. decide_cmp; try done; lia.
Qed.

Lemma eq_w_mask a b : is_word a -> is_word b -> constant_time_eq_w a b = mask_w (a =? b).
Proof.
  intros Ha Hb. unfold constant_time_eq_w. rewrite is_zero_w_mask by (apply lxor_range; [lia|done..]).
  f_equal. destruct (Z.eqb_spec a b) as [->|Hne]; [rewrite Z.lxor_nilpotent; done|].
  apply Z.eqb_neq. intros E%Z.lxor_eq. done.
Qed.

Lemma lt_w_mask a b : is_word a -> is_word b -> constant_time_lt_w a b = mask_w (a <? b).
Proof.
  intros Ha Hb. unfold constant_time_lt_w. pose proof (u64_range (a - b)) as Hs.
  rewrite msb_w_mask by (repeat first [apply lxor_range | apply lor_range | lia | done]).
  f_equal. rewrite Z.lxor_spec, Z.lor_spec, !Z.lxor_spec.
  unfold is_word in *. rewrite !testbit_high by (change (63 + 1) with 64; lia).
  unfold u64 in *. destruct (Z.ltb_spec a b).
  - rewrite <- (Z.mod_unique (a - b) (2 ^ 64) (-1) (a - b + 2 ^ 64)) by lia. decide_cmp; try done; lia.
  - rewrite Z.mod_small by lia. decide_cmp; try done; lia.
Qed.

Lemma ge_w_mask a b : is_word a -> is_word b -> constant_time_ge_w a b = mask_w (b <=? a).
Proof.
  intros Ha Hb. unfold constant_time_ge_w. rewrite lt_w_mask, not_w_mask by done. f_equal.
  rewrite Z.leb_antisym. done.
Qed.

Lemma land_true a : is_word a -> Z.land CONSTTIME_TRUE_W a = a.
Proof. intros Ha. unfold CONSTTIME_TRUE_W. rewrite Z.land_comm, land_mask by lia. apply Z.mod_small. done. Qed.

Lemma select_w_mask c a b : is_word a -> is_word b -> constant_time_select_w (mask_w c) a b = if c then a else b.
Proof.
  intros Ha Hb. unfold constant_time_select_w, value_barrier_w. rewrite not_w_mask.
  destruct c; unfold mask_w; cbn [negb]; rewrite land_true by done;
    unfold CONSTTIME_FALSE_W; rewrite Z.land_0_l, ?Z.lor_0_r, ?Z.lor_0_l; done.
Qed.

Lemma mask_w_and a b : Z.land (mask_w a) (mask_w b) = mask_w (a && b).
Proof. destruct a, b; done. Qed.

(** C40. The constant-time primitives compute what their names say: on 64-bit words
    the comparisons give the all-ones word when the comparison holds and 0
    otherwise, the 8-bit versions the low byte of it, and selection by such a
    mask is an [if]. *)
Theorem constant_time_correct a b c : is_word a -> is_word b ->
  constant_time_lt_w a b = (if a <? b then 2 ^ 64 - 1 else 0) /\
  constant_time_ge_w a b = (if b <=? a then 2 ^ 64 - 1 else 0) /\
  constant_time_is_zero_w a = (if a =? 0 then 2 ^ 64 - 1 else 0) /\
  constant_time_eq_w a b = (if a =? b then 2 ^ 64 - 1 else 0) /\
  constant_time_lt_8 a b = (if a <? b then 255 else 0) /\
  constant_time_ge_8 a b = (if b <=? a then 255 else 0) /\
  constant_time_is_zero_8 a = (if a =? 0 then 255 else 0) /\
  constant_time_eq_8 a b = (if a =? b then 255 else 0) /\
  constant_time_select_w (if (c : bool) then 2 ^ 64 - 1 else 0) a b = (if c then a else b).
Proof.
  intros Ha Hb. unfold constant_time_lt_8, constant_time_ge_8, constant_time_is_zero_8, constant_time_eq_8.
  rewrite lt_w_mask, ge_w_mask, is_zero_w_mask, eq_w_mask by done.
  split_and!; [done..| | | | |apply select_w_mask; done].
  - destruct (a <? b); done.
  - destruct (b <=? a); done.
  - destruct (a =? 0); done.
  - destruct (a =? b); done.
Qed.
Lemma constant_time_correct_witness : constant_time_lt_w 5 (2 ^ 63) = 2 ^ 64 - 1.
Proof. apply (constant_time_correct 5 (2 ^ 63) true); unfold is_word; lia. Defined.

(** ** Byte order *)

Lemma land_split k x1 x0 y1 y0 : 0 <= k -> 0 <= x0 < 2 ^ k -> 0 <= y0 < 2 ^ k ->
  Z.land (x1 * 2 ^ k + x0) (y1 * 2 ^ k + y0) = Z.land x1 y1 * 2 ^ k + Z.land x0 y0.
Proof.
  intros Hk Hx Hy. rewrite <- !(lor_add k) by (done || (pose proof (land_range_l x0 y0); lia)).
  rewrite Z.land_lor_distr_l, !Z.land_lor_distr_r, <- Z.shiftl_land.
  rewrite (land_shiftl_small k x1 y0), (Z.land_comm x0 (Z.shiftl y1 k)), (land_shiftl_small k y1 x0) by done.
  rewrite Z.lor_0_r, Z.lor_0_l. done.
Qed.

Lemma lor_split k x1 x0 y1 y0 : 0 <= k -> 0 <= x0 < 2 ^ k -> 0 <= y0 < 2 ^ k ->
  Z.lor (x1 * 2 ^ k + x0) (y1 * 2 ^ k + y0) = Z.lor x1 y1 * 2 ^ k + Z.lor x0 y0.
Proof.
  intros Hk Hx Hy. rewrite <- !(lor_add k) by (done || (apply lor_range; lia)).
  rewrite Z.shiftl_lor. rewrite <- !Z.lor_assoc. f_equal. rewrite !Z.lor_assoc. f_equal. apply Z.lor_comm.
Qed.

(** Swapping the bytes of a little-endian word. *)
Lemma bswap4_bytes a b c d : is_byte a -> is_byte b -> is_byte c -> is_byte d ->
  CRYPTO_bswap4 (a + 256 * b + 65536 * c + 16777216 * d) = d + 256 * c + 65536 * b + 16777216 * a.
Proof.
  unfold is_byte, CRYPTO_bswap4. intros Ha Hb Hc Hd.
  set (x := a + 256 * b + 65536 * c + 16777216 * d).
  assert (Z.shiftr x 16 = c + 256 * d) as -> by (unfold x; rewrite Z.shiftr_div_pow2 by lia; change (2 ^ 16) with 65536; zarith).
  assert (u32 (Z.shiftl x 16) = (a + 256 * b) * 2 ^ 16) as ->.
  { unfold x, u32. rewrite Z.shiftl_mul_pow2 by lia. change (2 ^ 16) with 65536. change (2 ^ 32) with 4294967296. zarith. }
  rewrite (Z.lor_comm (c + 256 * d)), (lor_add_mul 16 (2 ^ 16)) by lia. clear x.
  set (y := (a + 256 * b) * 2 ^ 16 + (c + 256 * d)).
  assert (Hff : forall z, 0 <= z < 256 -> Z.land z 255 = z).
  { intros z Hz. change 255 with (2 ^ 8 - 1). rewrite land_mask by lia. apply Z.mod_small. lia. }
  assert (Z.land y 0xff00ff00 = b * 2 ^ 24 + d * 2 ^ 8) as ->.
  { replace y with (((b * 2 ^ 8 + a) * 2 ^ 8 + d) * 2 ^ 8 + c) by (unfold y; lia).
    change 0xff00ff00 with (((255 * 2 ^ 8 + 0) * 2 ^ 8 + 255) * 2 ^ 8 + 0).
    rewrite !land_split, !Z.land_0_r, !Hff by lia. lia. }
  assert (Z.land y 0x00ff00ff = a * 2 ^ 16 + c) as ->.
  { replace y with (((b * 2 ^ 8 + a) * 2 ^ 8 + d) * 2 ^ 8 + c) by (unfold y; lia).
    change 0x00ff00ff with (((0 * 2 ^ 8 + 255) * 2 ^ 8 + 0) * 2 ^ 8 + 255).
    rewrite !land_split, !Z.land_0_r, !Hff by lia. lia. }
  rewrite Z.shiftr_div_pow2, Z.shiftl_mul_pow2 by lia.
  replace ((b * 2 ^ 24 + d * 2 ^ 8) / 2 ^ 8) with (b * 2 ^ 16 + d) by (change (2 ^ 24) with 16777216; change (2 ^ 16) with 65536; change (2 ^ 8) with 256; zarith).
  rewrite u32_small by lia.
  replace ((a * 2 ^ 16 + c) * 2 ^ 8) with (((a * 2 ^ 8 + 0) * 2 ^ 8 + c) * 2 ^ 8 + 0) by lia.
  replace (b * 2 ^ 16 + d) with (((0 * 2 ^ 8 + b) * 2 ^ 8 + 0) * 2 ^ 8 + d) by lia.
  rewrite !lor_split, !Z.lor_0_r, !Z.lor_0_l by lia. lia.
Qed.

Lemma load_u32_be_val l : bytes_ok l -> 4 <= zlen l -> CRYPTO_load_u32_be l = be_val (take 4 l).
Proof.
  intros Hl Hn. destruct l as [|a [|b [|c [|d l]]]]; unfold zlen in Hn; cbn [length] in Hn; try lia.
  apply Forall_cons in Hl as [Ha Hl]. apply Forall_cons in Hl as [Hb Hl].
  apply Forall_cons in Hl as [Hc Hl]. apply Forall_cons in Hl as [Hd Hl].
  unfold CRYPTO_load_u32_be. rewrite !firstn_cons, take_0. cbn [le_val].
  replace (a + 256 * (b + 256 * (c + 256 * (d + 256 * 0)))) with (a + 256 * b + 65536 * c + 16777216 * d) by lia.
  rewrite bswap4_bytes by done. unfold be_val. cbn [fold_left]. lia.
Qed.

Lemma store_u32_be_bytes v : 0 <= v < 2 ^ 32 -> CRYPTO_store_u32_be v = be_bytes 4 v.
Proof.
  intros Hv. unfold CRYPTO_store_u32_be.
  set (a := v mod 256). set (b := v / 256 mod 256). set (c := v / 65536 mod 256). set (d := v / 16777216 mod 256).
  assert (v = a + 256 * b + 65536 * c + 16777216 * d) as E by (unfold a, b, c, d; zarith).
  assert (is_byte a /\ is_byte b /\ is_byte c /\ is_byte d) as (Ha & Hb & Hc & Hd) by (repeat split; apply Z.mod_pos_bound; lia).
  rewrite E at 1. rewrite bswap4_bytes by done.
  assert (be_bytes 4 v = [d; c; b; a]) as ->.
  { unfold a, b, c, d. cbn [be_bytes app]. rewrite !Z.div_div by lia. done. }
  clear E. unfold is_byte in *. cbn [le_bytes]. rewrite !Z.div_div by lia. clearbody a b c d.
  do 4 (apply (f_equal2 cons); [zarith|]). done.
Qed.

Lemma bswap4_range v : 0 <= v < 2 ^ 32 -> 0 <= CRYPTO_bswap4 v < 2 ^ 32.
Proof.
  intros Hv. pose proof (load_u32_be_val (le_bytes 4 v) (le_bytes_ok 4 v) ltac:(rewrite zlen_le_bytes; lia)) as E.
  unfold CRYPTO_load_u32_be in E. rewrite firstn_all2 in E by (rewrite length_le_bytes; lia).
  rewrite le_val_le_bytes, Z.mod_small in E by (change (256 ^ Z.of_nat 4) with (2 ^ 32); lia). rewrite E.
  pose proof (be_val_range (le_bytes 4 v) (le_bytes_ok 4 v)) as Hr. rewrite zlen_le_bytes in Hr. exact Hr.
Qed.

Lemma bswap8_halves hi lo : 0 <= hi < 2 ^ 32 -> 0 <= lo < 2 ^ 32 ->
  CRYPTO_bswap8 (hi * 2 ^ 32 + lo) = CRYPTO_bswap4 lo * 2 ^ 32 + CRYPTO_bswap4 hi.
Proof.
  intros Hh Hl. unfold CRYPTO_bswap8. pose proof (bswap4_range hi Hh) as Bh. pose proof (bswap4_range lo Hl) as Bl.
  rewrite Z.shiftr_div_pow2, Z.div_add_l, Z.div_small, Z.add_0_r by lia.
  assert (E : u32 (hi * 2 ^ 32 + lo) = lo) by (unfold u32; symmetry; apply (Z.mod_unique _ _ hi); lia).
  rewrite E, Z.shiftl_mul_pow2 by lia. rewrite u64_small by lia. rewrite Z.lor_comm, (lor_add_mul 32) by lia. done.
Qed.

Lemma load_u64_be_val l : bytes_ok l -> 8 <= zlen l -> CRYPTO_load_u64_be l = be_val (take 8 l).
Proof.
  intros Hl Hn. unfold CRYPTO_load_u64_be.
  assert (E : take 8 l = take 4 l ++ take 4 (drop 4 l)) by (rewrite <- (take_drop 4 (take 8 l)), take_take, skipn_firstn_comm; done).
  assert (Hb1 : bytes_ok (take 4 l)) by (apply Forall_take; done).
  assert (Hb2 : bytes_ok (take 4 (drop 4 l))) by (apply Forall_take, Forall_drop; done).
  assert (L1 : zlen (take 4 l) = 4) by (unfold zlen in *; rewrite length_take; lia).
  assert (L2 : zlen (take 4 (drop 4 l)) = 4) by (unfold zlen in *; rewrite length_take, length_drop; lia).
  rewrite E, be_val_app, le_val_app, L1, L2. change (256 ^ 4) with (2 ^ 32).
  pose proof (le_val_range _ Hb1) as R1. pose proof (le_val_range _ Hb2) as R2. rewrite L1 in R1. rewrite L2 in R2.
  change (256 ^ 4) with (2 ^ 32) in R1, R2.
  rewrite (Z.add_comm (le_val (take 4 l))), (Z.mul_comm (2 ^ 32)), bswap8_halves by done.
  pose proof (load_u32_be_val (take 4 l) Hb1 ltac:(lia)) as V1. pose proof (load_u32_be_val (take 4 (drop 4 l)) Hb2 ltac:(lia)) as V2.
  unfold CRYPTO_load_u32_be in V1, V2. rewrite !take_take in V1, V2. cbn [Nat.min] in V1, V2. rewrite V1, V2. done.
Qed.

Lemma store_u64_be_bytes v : 0 <= v < 2 ^ 64 -> CRYPTO_store_u64_be v = be_bytes 8 v.
Proof.
  intros Hv. unfold CRYPTO_store_u64_be.
  assert (E : v = v / 2 ^ 32 * 2 ^ 32 + v mod 2 ^ 32) by (rewrite Z.mul_comm; apply Z.div_mod; lia).
  assert (Hh : 0 <= v / 2 ^ 32 < 2 ^ 32) by (split; [apply Z.div_pos; lia|apply Z.div_lt_upper_bound; lia]).
  pose proof (Z.mod_pos_bound v (2 ^ 32) ltac:(lia)) as Hl.
  rewrite E at 1. rewrite bswap8_halves by done. pose proof (bswap4_range _ Hh) as Bh.
  rewrite (le_bytes_add 4 4), (be_bytes_add 4 4). change (256 ^ Z.of_nat 4) with (2 ^ 32).
  rewrite Z.div_add_l, (Z.div_small (CRYPTO_bswap4 (v / 2 ^ 32))), Z.add_0_r by lia.
  rewrite <- (le_bytes_mod 4 (_ + _)). change (256 ^ Z.of_nat 4) with (2 ^ 32).
  rewrite Z.add_comm, Z.mod_add, Z.mod_small by lia.
  pose proof (store_u32_be_bytes _ Hh) as S1. pose proof (store_u32_be_bytes _ Hl) as S2. unfold CRYPTO_store_u32_be in S1, S2.
  rewrite S1, S2. f_equal. apply (be_bytes_mod 4).
Qed.

(** *** memcmp *)

Lemma memcmp_loop_zero a : forall b x, bytes_ok a -> bytes_ok b -> is_byte x -> length a = length b ->
  CRYPTO_memcmp_loop x a b = 0 <-> x = 0 /\ a = b.
Proof.
  induction a as [|p a IH]; intros [|q b] x Ha Hb Hx Hl; try done; cbn [CRYPTO_memcmp_loop]; [tauto|].
  apply Forall_cons in Ha as [Hp Ha]. apply Forall_cons in Hb as [Hq Hb]. injection Hl as Hl.
  unfold is_byte in *. assert (0 <= Z.lor x (Z.lxor p q) < 2 ^ 8) as Hr.
  { apply lor_range; [lia..|]. apply lxor_range; lia. }
  rewrite u8_small by lia. rewrite IH; [|done|done|unfold is_byte; lia|done].
  rewrite Z.lor_eq_0_iff. split.
  - intros [[-> E%Z.lxor_eq] ->]. subst. done.
  - intros [-> [= -> ->]]. rewrite Z.lxor_nilpotent. done.
Qed.

(** [CRYPTO_memcmp] is zero exactly on equal buffers. *)
Lemma memcmp_zero a b : bytes_ok a -> bytes_ok b -> length a = length b -> CRYPTO_memcmp a b = 0 <-> a = b.
Proof.
  intros Ha Hb Hl. unfold CRYPTO_memcmp. rewrite memcmp_loop_zero; [tauto|done|done| |done].
  unfold is_byte. lia.
Qed.

Lemma memcmp_byte a b : bytes_ok a -> bytes_ok b -> is_byte (CRYPTO_memcmp a b).
Proof.
  unfold CRYPTO_memcmp. intros Ha. assert (Hx : is_byte 0) by (unfold is_byte; lia). revert b Hx. generalize 0.
  induction Ha as [|p a Hp Ha IH]; intros x b Hx Hb; destruct Hb as [|q b Hq Hb]; try done.
  cbn [CRYPTO_memcmp_loop]. apply IH; [apply u8_range|done].
Qed.
