(* ===== verification/Base64.v ===== *)
(** * crypto/base64/base64.c: base64 in one call and as a stream. *)

From S2P Require Import Prelude Mem Blocks.

(** ** Characters, in constant time *)

Definition constant_time_lt_args_8 (a b : Z) : Z := u8 (constant_time_msb_w (u64 (a - b))).

Definition constant_time_in_range_8 (a mn mx : Z) : Z :=
  constant_time_lt_args_8 (u8 (a - mn)) (u8 (mx - mn + 1)).

Definition conv_bin2ascii (a : Z) : Z :=
  let a := Z.land a 0x3f in
  let ret := constant_time_select_8 (constant_time_eq_8 a 62) 43 47 in
  let ret := constant_time_select_8 (constant_time_lt_args_8 a 62) (u8 (a - 52 + 48)) ret in
  let ret := constant_time_select_8 (constant_time_lt_args_8 a 52) (u8 (a - 26 + 97)) ret in
  constant_time_select_8 (constant_time_lt_args_8 a 26) (u8 (a + 65)) ret.

Definition base64_ascii_to_bin (a : Z) : Z :=
  let is_upper := constant_time_in_range_8 a 65 90 in
  let is_lower := constant_time_in_range_8 a 97 122 in
  let is_digit := constant_time_in_range_8 a 48 57 in
  let is_plus := constant_time_eq_8 a 43 in
  let is_slash := constant_time_eq_8 a 47 in
  let is_equals := constant_time_eq_8 a 61 in
  let ret := Z.land is_upper (a - 65) in
  let ret := Z.lor ret (Z.land is_lower (a - 97 + 26)) in
  let ret := Z.lor ret (Z.land is_digit (a - 48 + 52)) in
  let ret := Z.lor ret (Z.land is_plus 62) in
  let ret := Z.lor ret (Z.land is_slash 63) in
  let is_valid :=
    Z.lor (Z.lor (Z.lor (Z.lor (Z.lor is_upper is_lower) is_digit) is_plus) is_slash) is_equals in
  u8 (Z.lor ret (Z.lnot is_valid)).

(** ** Encoding *)

(** [*out_len], [None] when the computation overflows. *)
Definition EVP_EncodedLength (len : Z) : option Z :=
  if size_t (len + 2) <? len then None
  else
    let len := size_t (len + 2) / 3 in
    if negb (Z.shiftr (size_t (Z.shiftl len 2)) 2 =? len) then None
    else
      let len := size_t (Z.shiftl len 2) in
      if size_t (len + 1) <? len then None else Some (size_t (len + 1)).

(** The characters written before the NUL; their number is the result. *)
Fixpoint EVP_EncodeBlock (src : list Z) : list Z :=
  match src with
  | [] => []
  | s0 :: s1 :: s2 :: src' =>
      let l := Z.lor (Z.lor (Z.shiftl s0 16) (Z.shiftl s1 8)) s2 in
      conv_bin2ascii (u8 (Z.shiftr l 18)) :: conv_bin2ascii (u8 (Z.shiftr l 12)) ::
      conv_bin2ascii (u8 (Z.shiftr l 6)) :: conv_bin2ascii (u8 l) :: EVP_EncodeBlock src'
  | s0 :: rest =>
      let l := Z.shiftl s0 16 in
      let l := match rest with s1 :: _ => Z.lor l (Z.shiftl s1 8) | [] => l end in
      [conv_bin2ascii (u8 (Z.shiftr l 18)); conv_bin2ascii (u8 (Z.shiftr l 12));
       match rest with [] => 61 | _ => conv_bin2ascii (u8 (Z.shiftr l 6)) end; 61]
  end.

(** [struct evp_encode_ctx_st]; [data] has 48 bytes. *)
Record evp_encode_ctx := EncodeCtx {
  data_used : Z; data : list Z; eof_seen : bool; error_encountered : bool }.

Definition zero_ctx : evp_encode_ctx := EncodeCtx 0 (replicate 48 0) false false.

(** [memset(ctx, 0, sizeof(EVP_ENCODE_CTX))]. *)
Definition EVP_EncodeInit (ctx : evp_encode_ctx) : evp_encode_ctx := zero_ctx.

Definition EVP_DecodeInit (ctx : evp_encode_ctx) : evp_encode_ctx := zero_ctx.

Definition EVP_ENCODE_CTX_new (malloc_ok : Z -> bool) : option evp_encode_ctx :=
  if OPENSSL_malloc_ok malloc_ok 56 then Some zero_ctx else None.

(** The [while] loop: [n] bounds its iterations. It returns what was written,
    [total] and the input that is left, or [None] when [total] overflows. *)
Fixpoint encode_lines_loop (n : nat) (out : list Z) (total : Z) (inn : list Z) :
    list Z * option (Z * list Z) :=
  if zlen inn <? 48 then (out, Some (total, inn))
  else
    match n with
    | O => (out, None)
    | S n' =>
        let block := EVP_EncodeBlock (ztake 48 inn) in
        let encoded := zlen block in
        let out := out ++ block ++ [10] in
        if size_t (total + encoded + 1) <? total then (out, None)
        else encode_lines_loop n' out (size_t (total + (encoded + 1))) (zdrop 48 inn)
    end.

(** The new context, the characters written to [out] (the NUL after them left
    out) and [*out_len]. *)
Definition EVP_EncodeUpdate (ctx : evp_encode_ctx) (inn : list Z) : evp_encode_ctx * list Z * Z :=
  if zlen inn =? 0 then (ctx, [], 0)
  else if 48 - data_used ctx >? zlen inn then
    (EncodeCtx (data_used ctx + zlen inn) (zwrite (data_used ctx) inn (data ctx))
       (eof_seen ctx) (error_encountered ctx), [], 0)
  else
    let '(ctx, out, total, inn) :=
      if negb (data_used ctx =? 0) then
        let todo := 48 - data_used ctx in
        let data := zwrite (data_used ctx) (ztake todo inn) (data ctx) in
        let block := EVP_EncodeBlock data in
        (EncodeCtx 0 data (eof_seen ctx) (error_encountered ctx), block ++ [10], zlen block + 1,
         zdrop todo inn)
      else (ctx, [], 0, inn) in
    match encode_lines_loop (length inn) out total inn with
    | (out, None) => (ctx, out, 0)
    | (out, Some (total, inn)) =>
        let data := if negb (zlen inn =? 0) then zwrite 0 inn (data ctx) else data ctx in
        let total := if total >? INT_MAX then 0 else total in
        (EncodeCtx (zlen inn) data (eof_seen ctx) (error_encountered ctx), out, total)
    end.

Definition EVP_EncodeFinal (ctx : evp_encode_ctx) : evp_encode_ctx * list Z * Z :=
  if data_used ctx =? 0 then (ctx, [], 0)
  else
    let block := EVP_EncodeBlock (ztake (data_used ctx) (data ctx)) in
    (EncodeCtx 0 (data ctx) (eof_seen ctx) (error_encountered ctx), block ++ [10], zlen block + 1).

(** ** Decoding *)

Definition EVP_DecodedLength (len : Z) : option Z :=
  if negb (len mod 4 =? 0) then None else Some (len / 4 * 3).

(** The bytes written. *)
Definition base64_decode_quad (in0 in1 in2 in3 : Z) : option (list Z) :=
  let a := base64_ascii_to_bin in0 in
  let b := base64_ascii_to_bin in1 in
  let c := base64_ascii_to_bin in2 in
  let d := base64_ascii_to_bin in3 in
  if (a =? 0xff) || (b =? 0xff) || (c =? 0xff) || (d =? 0xff) then None
  else
    let v := Z.lor (Z.lor (Z.lor (Z.shiftl a 18) (Z.shiftl b 12)) (Z.shiftl c 6)) d in
    let bit (x : Z) := if x =? 61 then 1 else 0 in
    let padding_pattern := Z.lor (Z.lor (Z.lor (Z.shiftl (bit in0) 3) (Z.shiftl (bit in1) 2))
                                    (Z.shiftl (bit in2) 1)) (bit in3) in
    if padding_pattern =? 0 then Some [u8 (Z.shiftr v 16); u8 (Z.shiftr v 8); u8 v]
    else if padding_pattern =? 1 then Some [u8 (Z.shiftr v 16); u8 (Z.shiftr v 8)]
    else if padding_pattern =? 3 then Some [u8 (Z.shiftr v 16)]
    else None.

(** [' '], ['\t'], ['\r'] and ['\n']. *)
Definition is_space (c : Z) : bool := (c =? 32) || (c =? 9) || (c =? 13) || (c =? 10).

Definition ctx_error (ctx : evp_encode_ctx) : evp_encode_ctx :=
  EncodeCtx (data_used ctx) (data ctx) (eof_seen ctx) true.

(** The loop over the input; [out] is what was written so far. [None] is the
    return of -1. *)
Fixpoint decode_loop (ctx : evp_encode_ctx) (out inn : list Z) : evp_encode_ctx * list Z * option unit :=
  match inn with
  | [] => (ctx, out, Some tt)
  | c :: inn' =>
      if is_space c then decode_loop ctx out inn'
      else if eof_seen ctx then (ctx_error ctx, out, None)
      else
        let d := zwrite (data_used ctx) [c] (data ctx) in
        let used := data_used ctx + 1 in
        let ctx := EncodeCtx used d (eof_seen ctx) (error_encountered ctx) in
        if used =? 4 then
          match base64_decode_quad (znth d 0) (znth d 1) (znth d 2) (znth d 3) with
          | None => (ctx_error ctx, out, None)
          | Some bytes =>
              decode_loop (EncodeCtx 0 d (if zlen bytes <? 3 then true else eof_seen ctx)
                             (error_encountered ctx)) (out ++ bytes) inn'
          end
        else decode_loop ctx out inn'
  end.

(** The new context, the bytes written, [*out_len] and the result. *)
Definition EVP_DecodeUpdate (ctx : evp_encode_ctx) (inn : list Z) : evp_encode_ctx * list Z * Z * Z :=
  if error_encountered ctx then (ctx, [], 0, -1)
  else
    match decode_loop ctx [] inn with
    | (ctx, out, None) => (ctx, out, 0, -1)
    | (ctx, out, Some _) =>
        if zlen out >? INT_MAX then (ctx_error ctx, out, 0, -1)
        else (ctx, out, zlen out, if eof_seen ctx then 0 else 1)
    end.

Definition EVP_DecodeFinal (ctx : evp_encode_ctx) : Z :=
  if error_encountered ctx || negb (data_used ctx =? 0) then -1 else 1.

(** The loop over the quads of the input. *)
Fixpoint decode_quads (inn : list Z) : option (list Z) :=
  match inn with
  | a :: b :: c :: d :: inn' =>
      match base64_decode_quad a b c d with
      | None => None
      | Some bytes =>
          if negb (zlen bytes =? 3) && negb (zlen inn' =? 0) then None
          else option_map (app bytes) (decode_quads inn')
      end
  | _ => Some []
  end.

(** The bytes written and [*out_len], when the result is 1. *)
Definition EVP_DecodeBase64 (max_out : Z) (inn : list Z) : option (list Z) :=
  if negb (zlen inn mod 4 =? 0) then None
  else match EVP_DecodedLength (zlen inn) with
       | None => None
       | Some max_len => if max_out <? max_len then None else decode_quads inn
       end.

Fixpoint trim_left (src : list Z) : list Z :=
  match src with
  | c :: src' => if negb (c =? 32) && negb (c =? 9) then src else trim_left src'
  | [] => []
  end.

(** The loop removes spaces from the end. *)
Fixpoint trim_rev (rsrc : list Z) : list Z :=
  match rsrc with
  | c :: rsrc' => if is_space c then trim_rev rsrc' else rsrc
  | [] => []
  end.

(** [while (dst_len % 3 != 0) dst[dst_len++] = 0;] *)
Fixpoint pad_to_3 (n : nat) (dst : list Z) : list Z :=
  match n with
  | O => dst
  | S n' => if negb (zlen dst mod 3 =? 0) then pad_to_3 n' (dst ++ [0]) else dst
  end.

(** [None] is the result -1. *)
Definition EVP_DecodeBlock (src : list Z) : option (list Z) :=
  let src := rev (trim_rev (rev (trim_left src))) in
  match EVP_DecodedLength (zlen src) with
  | None => None
  | Some dst_len =>
      if dst_len >? INT_MAX then None
      else option_map (pad_to_3 2) (EVP_DecodeBase64 dst_len src)
  end.

Example encode_man : EVP_EncodeBlock [77; 97; 110; 77] = [84; 87; 70; 117; 84; 81; 61; 61].
Proof. reflexivity. Qed.
Example decode_man : EVP_DecodeBlock [32; 84; 87; 70; 117; 84; 81; 61; 61; 10] = Some [77; 97; 110; 77; 0; 0].
Proof. reflexivity. Qed.

(** ** Characters *)

(** The alphabet of RFC 4648. *)
Definition b64_char (v : Z) : Z :=
  if v <? 26 then 65 + v else if v <? 52 then 97 + (v - 26) else if v <? 62 then 48 + (v - 52)
  else if v =? 62 then 43 else 47.

Lemma conv_bin2ascii_spec a : is_byte a -> conv_bin2ascii a = b64_char (a mod 64).
Proof. unfold is_byte. intros Ha. byte_check (fun a => conv_bin2ascii a =? b64_char (a mod 64)) a as H. by bool_hyps. Qed.

Lemma ascii_to_bin_char v : 0 <= v < 64 ->
  base64_ascii_to_bin (b64_char v) = v /\ b64_char v <> 61 /\ is_space (b64_char v) = false /\
  is_byte (b64_char v).
Proof.
  intros Hv. byte_check (fun v => (64 <=? v) || ((base64_ascii_to_bin (b64_char v) =? v) &&
    negb (b64_char v =? 61) && negb (is_space (b64_char v)) && (0 <=? b64_char v) && (b64_char v <? 256))) v as H.
  apply orb_prop in H as [H|H]; [bool_hyps; lia|]. bool_hyps. done.
Qed.

Lemma ascii_to_bin_pad : base64_ascii_to_bin 61 = 0.
Proof. reflexivity. Qed.

(** The characters of three bytes. *)
Lemma quad_bits s0 s1 s2 : is_byte s0 -> is_byte s1 -> is_byte s2 ->
  let l := Z.lor (Z.lor (Z.shiftl s0 16) (Z.shiftl s1 8)) s2 in
  let v := s0 * 65536 + s1 * 256 + s2 in
  conv_bin2ascii (u8 (Z.shiftr l 18)) = b64_char (v / 262144) /\
  conv_bin2ascii (u8 (Z.shiftr l 12)) = b64_char (v / 4096 mod 64) /\
  conv_bin2ascii (u8 (Z.shiftr l 6)) = b64_char (v / 64 mod 64) /\
  conv_bin2ascii (u8 l) = b64_char (v mod 64).
Proof.
  intros H0 H1 H2 l v. unfold is_byte in *.
  assert (El : l = v).
  { unfold l, v. change 16 with (8 + 8). rewrite <- Z.shiftl_shiftl, <- Z.shiftl_lor by lia.
    rewrite !lor_add by lia. lia. }
  rewrite El, !Z.shiftr_div_pow2 by lia.
  rewrite !conv_bin2ascii_spec by apply u8_range. unfold u8.
  change (2 ^ 18) with 262144. change (2 ^ 12) with 4096. change (2 ^ 6) with 64.
  split_and!; f_equal; zarith.
Qed.

(** ** Blocks *)

(** The bytes of the 24-bit value of four characters. *)
Definition quad_val (a b c d : Z) : Z := a * 262144 + b * 4096 + c * 64 + d.

Lemma quad_or a b c d : 0 <= a < 64 -> 0 <= b < 64 -> 0 <= c < 64 -> 0 <= d < 64 ->
  Z.lor (Z.lor (Z.lor (Z.shiftl a 18) (Z.shiftl b 12)) (Z.shiftl c 6)) d = quad_val a b c d.
Proof.
  intros. change 18 with (6 + 6 + 6). change 12 with (6 + 6).
  rewrite <- !Z.shiftl_shiftl, <- !Z.shiftl_lor by lia.
  rewrite !lor_add by lia. unfold quad_val. lia.
Qed.

Lemma decode_quad_chars a b c d : 0 <= a < 64 -> 0 <= b < 64 -> 0 <= c < 64 -> 0 <= d < 64 ->
  let v := quad_val a b c d in
  base64_decode_quad (b64_char a) (b64_char b) (b64_char c) (b64_char d) =
    Some [v / 65536; v / 256 mod 256; v mod 256] /\
  (d = 0 -> base64_decode_quad (b64_char a) (b64_char b) (b64_char c) 61 =
    Some [v / 65536; v / 256 mod 256]) /\
  (c = 0 -> d = 0 -> base64_decode_quad (b64_char a) (b64_char b) 61 61 = Some [v / 65536]).
Proof.
  intros Ha Hb Hc Hd v. unfold base64_decode_quad. rewrite ascii_to_bin_pad.
  destruct (ascii_to_bin_char a Ha) as (-> & Na & _), (ascii_to_bin_char b Hb) as (-> & Nb & _),
    (ascii_to_bin_char c Hc) as (-> & Nc & _), (ascii_to_bin_char d Hd) as (-> & Nd & _).
  apply Z.eqb_neq in Na, Nb, Nc, Nd. rewrite Na, Nb, Nc, Nd.
  assert (Hv : 0 <= v < 16777216) by (unfold v, quad_val; lia).
  repeat match goal with |- context [?x =? 255] => destruct (Z.eqb_spec x 255); [lia|] end.
  rewrite !quad_or by lia. cbn [orb Z.eqb Pos.eqb Z.shiftl Z.lor]. fold v.
  rewrite !Z.shiftr_div_pow2 by lia. change (2 ^ 16) with 65536. change (2 ^ 8) with 256.
  unfold u8. split; [|split].
  - cbn. repeat f_equal. zarith.
  - intros ->. cbn. repeat f_equal. zarith.
  - intros -> ->. cbn. repeat f_equal. zarith.
Qed.

(** Induction on a list taken three elements at a time. *)
Lemma list_ind3 (P : list Z -> Prop) : P [] -> (forall a, P [a]) -> (forall a b, P [a; b]) ->
  (forall a b c l, P l -> P (a :: b :: c :: l)) -> forall l, P l.
Proof.
  intros H0 H1 H2 H3. fix IH 1. intros [|a [|b [|c l]]]; [apply H0|apply H1|apply H2|apply H3, IH].
Qed.

(** A quad of characters, what it decodes to, and whether it ends the data. *)
Inductive quad : list Z -> list Z -> Prop :=
  | quad_intro a b c d bytes : base64_decode_quad a b c d = Some bytes -> 1 <= zlen bytes <= 3 ->
      is_space a = false -> is_space b = false -> is_space c = false -> is_space d = false ->
      quad [a; b; c; d] bytes.

(** The characters of up to three bytes are such a quad. *)
Lemma encode_quad a b c : is_byte a -> is_byte b -> is_byte c ->
  quad (EVP_EncodeBlock [a]) [a] /\ quad (EVP_EncodeBlock [a; b]) [a; b] /\
  quad (EVP_EncodeBlock [a; b; c]) [a; b; c].
Proof.
  intros Ha Hb Hc. assert (H0 : is_byte 0) by (unfold is_byte; lia).
  assert (R : forall v, 0 <= v < 16777216 ->
    let '(x, y, z, w) := (v / 262144, v / 4096 mod 64, v / 64 mod 64, v mod 64) in
    (0 <= x < 64 /\ 0 <= y < 64 /\ 0 <= z < 64 /\ 0 <= w < 64) /\ quad_val x y z w = v)
    by (intros v Hv; unfold quad_val; split_and!; zarith).
  assert (S61 : is_space 61 = false) by reflexivity.
  split; [|split]; cbn [EVP_EncodeBlock].
  - destruct (quad_bits a 0 0 Ha H0 H0) as (E1 & E2 & E3 & E4). cbn [Z.shiftl Z.lor] in E1, E2.
    rewrite !Z.lor_0_r in E1, E2. rewrite E1, E2. unfold is_byte in Ha.
    set (v := a * 65536 + 0 * 256 + 0) in *. destruct (R v) as [(R1 & R2 & R3 & R4) Ev]; [lia|].
    destruct (decode_quad_chars _ _ _ _ R1 R2 R3 R4) as (_ & _ & D). rewrite Ev in D.
    destruct (ascii_to_bin_char _ R1) as (_ & _ & S1 & _), (ascii_to_bin_char _ R2) as (_ & _ & S2 & _).
    constructor; try done. rewrite D by zarith. do 2 f_equal. zarith.
  - destruct (quad_bits a b 0 Ha Hb H0) as (E1 & E2 & E3 & E4).
    rewrite !Z.lor_0_r in E1, E2, E3. rewrite E1, E2, E3. unfold is_byte in Ha, Hb.
    set (v := a * 65536 + b * 256 + 0) in *. destruct (R v) as [(R1 & R2 & R3 & R4) Ev]; [lia|].
    destruct (decode_quad_chars _ _ _ _ R1 R2 R3 R4) as (_ & D & _). rewrite Ev in D.
    destruct (ascii_to_bin_char _ R1) as (_ & _ & S1 & _), (ascii_to_bin_char _ R2) as (_ & _ & S2 & _),
      (ascii_to_bin_char _ R3) as (_ & _ & S3 & _).
    constructor; try done. rewrite D by zarith. repeat f_equal; zarith.
  - destruct (quad_bits a b c Ha Hb Hc) as (E1 & E2 & E3 & E4).
    rewrite E1, E2, E3, E4. unfold is_byte in Ha, Hb, Hc.
    set (v := a * 65536 + b * 256 + c) in *. destruct (R v) as [(R1 & R2 & R3 & R4) Ev]; [lia|].
    destruct (decode_quad_chars _ _ _ _ R1 R2 R3 R4) as (D & _). rewrite Ev in D.
    destruct (ascii_to_bin_char _ R1) as (_ & _ & S1 & _), (ascii_to_bin_char _ R2) as (_ & _ & S2 & _),
      (ascii_to_bin_char _ R3) as (_ & _ & S3 & _), (ascii_to_bin_char _ R4) as (_ & _ & S4 & _).
    constructor; try done. rewrite D. repeat f_equal; zarith.
Qed.

Lemma encode_cons3 a b c l :
  EVP_EncodeBlock (a :: b :: c :: l) = EVP_EncodeBlock [a; b; c] ++ EVP_EncodeBlock l.
Proof. done. Qed.

Lemma zlen_encode l : zlen (EVP_EncodeBlock l) = 4 * ((zlen l + 2) / 3).
Proof.
  induction l as [|a|a b|a b c l IH] using list_ind3; try done.
  rewrite encode_cons3, zlen_app, IH, !zlen_cons. change (zlen (EVP_EncodeBlock [a; b; c])) with 4. zarith.
Qed.

Lemma decode_quads_cons q bytes l : quad q bytes -> zlen bytes = 3 \/ l = [] ->
  decode_quads (q ++ l) = option_map (app bytes) (decode_quads l).
Proof.
  intros [a b c d bytes' Hq Hb _ _ _ _] Hl. cbn [app decode_quads]. rewrite Hq.
  destruct Hl as [-> | ->]; [done|]. rewrite andb_false_r. done.
Qed.

(** The quads of a block decode to the block. *)
Lemma decode_encode l : bytes_ok l -> decode_quads (EVP_EncodeBlock l) = Some l.
Proof.
  assert (H0 : is_byte 0) by (unfold is_byte; lia).
  induction l as [|a|a b|a b c l IH] using list_ind3; intros Hl; [done| | |];
    rewrite !Forall_cons in Hl.
  - rewrite <- (app_nil_r (EVP_EncodeBlock [a])). destruct Hl as [Ha _].
    rewrite (decode_quads_cons _ [a]); [done|by apply (encode_quad a 0 0)|by right].
  - rewrite <- (app_nil_r (EVP_EncodeBlock [a; b])). destruct Hl as (Ha & Hb & _).
    rewrite (decode_quads_cons _ [a; b]); [done|by apply (encode_quad a b 0)|by right].
  - destruct Hl as (Ha & Hb & Hc & Hl). rewrite encode_cons3.
    rewrite (decode_quads_cons _ [a; b; c]); [|by apply (encode_quad a b c)|by left].
    rewrite IH by done. done.
Qed.

(** ** Streaming: encoding *)

Definition enc_line (b : list Z) : list Z := EVP_EncodeBlock b ++ [10].

(** The text of [p]: lines of 48 bytes, the last one shorter. *)
Definition pem_lines (p : list Z) : list Z :=
  concat (enc_line <$> chunks 48 p) ++ (if zlen (leftover 48 p) =? 0 then [] else enc_line (leftover 48 p)).

(** [ctx] has absorbed [p]. *)
Definition enc_rep (ctx : evp_encode_ctx) (p : list Z) : Prop :=
  data_used ctx = zlen (leftover 48 p) /\ zlen (data ctx) = 48 /\
  ztake (data_used ctx) (data ctx) = leftover 48 p.

Lemma zlen_line b : zlen b = 48 -> zlen (enc_line b) = 65.
Proof. intros Hb. unfold enc_line. rewrite zlen_app, zlen_encode, Hb. done. Qed.

Lemma zlen_lines l : Forall (fun b => zlen b = 48) l -> zlen (concat (enc_line <$> l)) = 65 * zlen l.
Proof.
  induction 1 as [|b l Hb _ IH]; [done|]. cbn [fmap list_fmap concat].
  rewrite zlen_app, zlen_cons, zlen_line, IH by done. lia.
Qed.

Lemma encode_loop_spec inn n out total : (length inn <= n)%nat -> 0 <= total -> total + 2 * zlen inn < 2 ^ 60 ->
  encode_lines_loop n out total inn =
    (out ++ concat (enc_line <$> chunks 48 inn),
     Some (total + 65 * zlen (chunks 48 inn), leftover 48 inn)).
Proof.
  revert n out total. induction inn as [l Hl|b l Hb IH] using (block_ind 48 eq_refl);
    intros n out total Hn Ht Hlen.
  - rewrite chunks_short, leftover_short by done. cbn. rewrite app_nil_r, Z.add_0_r.
    destruct n; cbn [encode_lines_loop]; decide_cmp; done.
  - rewrite chunks_block, leftover_block by done. rewrite zlen_app in Hlen.
    rewrite length_app in Hn. pose proof (zlen_nonneg l).
    destruct n as [|n]; [unfold zlen in Hb; lia|]. cbn [encode_lines_loop].
    rewrite zlen_app. destruct (Z.ltb_spec (zlen b + zlen l) 48); [lia|].
    rewrite ztake_app, zdrop_app by lia. rewrite zlen_encode, Hb. change (4 * ((48 + 2) / 3)) with 64.
    rewrite !size_t_small by lia. destruct (Z.ltb_spec (total + 64 + 1) total); [lia|].
    rewrite IH by (unfold zlen in *; lia). cbn [fmap list_fmap concat]. rewrite zlen_cons.
    unfold enc_line at 2. rewrite <- !app_assoc. do 2 f_equal. f_equal. lia.
Qed.

(** Writing at the end of the used part of the buffer. *)
Lemma zwrite_append (d p x : list Z) : ztake (zlen p) d = p -> zlen p + zlen x <= zlen d ->
  zlen (zwrite (zlen p) x d) = zlen d /\ ztake (zlen p + zlen x) (zwrite (zlen p) x d) = p ++ x.
Proof.
  intros Hp Hx. pose proof (zlen_nonneg p). pose proof (zlen_nonneg x).
  split; [apply zlen_zwrite; lia|]. unfold zwrite. rewrite Hp, app_assoc.
  apply ztake_app. rewrite zlen_app. done.
Qed.

Lemma lines_bound (l : list Z) : 48 * zlen (chunks 48 l) <= zlen l.
Proof.
  induction l as [l Hl|b l Hb IH] using (block_ind 48 eq_refl).
  - rewrite chunks_short by done. apply zlen_nonneg.
  - rewrite chunks_block by done. rewrite zlen_app, zlen_cons. lia.
Qed.

(** What follows the filling of the buffer: whole lines, and a new buffer. *)
Lemma encode_tail d e r out total inn : zlen d = 48 -> 0 <= total ->
  total + 65 * zlen (chunks 48 inn) <= INT_MAX -> zlen inn < 2 ^ 30 ->
  exists ctx',
    match encode_lines_loop (length inn) out total inn with
    | (out, None) => (EncodeCtx 0 d e r, out, 0)
    | (out, Some (total, inn)) =>
        (EncodeCtx (zlen inn) (if negb (zlen inn =? 0) then zwrite 0 inn d else d) e r, out,
         if total >? INT_MAX then 0 else total)
    end = (ctx', out ++ concat (enc_line <$> chunks 48 inn), total + 65 * zlen (chunks 48 inn)) /\
    data_used ctx' = zlen (leftover 48 inn) /\ zlen (data ctx') = 48 /\
    ztake (data_used ctx') (data ctx') = leftover 48 inn.
Proof.
  intros Hd Ht Hmax Hlen. unfold INT_MAX in *.
  assert (Htot : total < 2 ^ 31) by (pose proof (zlen_nonneg (chunks 48 inn)); lia).
  rewrite encode_loop_spec by lia. rewrite Z.gtb_ltb.
  destruct (Z.ltb_spec (2 ^ 31 - 1) (total + 65 * zlen (chunks 48 inn))); [lia|].
  eexists. split; [reflexivity|]. cbn [data_used data]. split; [done|].
  pose proof (zlen_leftover 48 eq_refl inn).
  destruct (Z.eqb_spec (zlen (leftover 48 inn)) 0) as [E0|E0]; cbn [negb].
  - apply zlen_zero in E0. rewrite E0. done.
  - destruct (zwrite_append d [] (leftover 48 inn)) as [E1 E2]; [done|rewrite zlen_nil; lia|].
    rewrite zlen_nil in *. cbn [app] in E2. split; [lia|done].
Qed.

Lemma encode_update_spec ctx p x : enc_rep ctx p -> zlen x < 2 ^ 30 ->
  exists ctx', EVP_EncodeUpdate ctx x =
    (ctx', concat (enc_line <$> chunks 48 (leftover 48 p ++ x)),
     zlen (concat (enc_line <$> chunks 48 (leftover 48 p ++ x)))) /\ enc_rep ctx' (p ++ x).
Proof.
  intros (Hu & Hd & Hl) Hx. pose proof (zlen_leftover 48 eq_refl p) as Hr.
  set (b := leftover 48 p) in *. pose proof (lines_bound (b ++ x)) as Hb48. pose proof (zlen_nonneg x).
  rewrite zlen_app in Hb48. rewrite zlen_lines by (apply chunks_all; done).
  unfold enc_rep. rewrite leftover_app by done. fold b.
  unfold EVP_EncodeUpdate. rewrite Z.gtb_ltb. destruct (Z.eqb_spec (zlen x) 0) as [E|E].
  { apply zlen_zero in E as ->. rewrite app_nil_r, chunks_short, (leftover_short 48 eq_refl b) by lia.
    exists ctx. done. }
  destruct (Z.ltb_spec (zlen x) (48 - data_used ctx)).
  { rewrite chunks_short, (leftover_short 48 eq_refl) by (done || rewrite zlen_app; lia).
    eexists. split; [done|]. cbn [data_used data]. rewrite Hu in *.
    destruct (zwrite_append (data ctx) b x) as [E1 E2]; [done|lia|].
    rewrite zlen_app. split_and!; [lia|lia|done]. }
  destruct (fill_block 48 eq_refl b x) as [Ec El]; [lia..|]. rewrite Hu in *.
  destruct (Z.eqb_spec (zlen b) 0) as [Eb|Eb]; cbn [negb].
  { apply zlen_zero in Eb. rewrite Eb in *. cbn [app] in *. rewrite zlen_nil in Hb48.
    destruct ctx as [du d e r]. cbn [data_used data eof_seen error_encountered] in *. subst du.
    apply (encode_tail d e r [] 0 x); unfold INT_MAX; lia || done. }
  set (t := 48 - zlen b) in *.
  destruct (zwrite_append (data ctx) b (ztake t x)) as [E1 E2]; [done|rewrite zlen_ztake; lia|].
  assert (Hz : zlen (b ++ ztake t x) = 48) by (rewrite zlen_app, zlen_ztake; lia).
  replace (zwrite (zlen b) (ztake t x) (data ctx)) with (b ++ ztake t x)
    by (rewrite <- E2; apply ztake_all; rewrite E1, zlen_ztake; lia).
  rewrite El, Ec in *. rewrite zlen_encode, Hz. change (4 * ((48 + 2) / 3) + 1) with 65.
  rewrite zlen_cons in *.
  destruct (encode_tail (b ++ ztake t x) (eof_seen ctx) (error_encountered ctx)
    (EVP_EncodeBlock (b ++ ztake t x) ++ [10]) 65 (zdrop t x)) as (ctx' & E3 & E4 & E5 & E6);
    [done|lia|unfold INT_MAX; lia|rewrite zlen_zdrop; lia|].
  exists ctx'. split; [|done]. cbn [data eof_seen error_encountered]. rewrite E3. do 2 f_equal; lia.
Qed.

(** ** Streaming: decoding *)

Lemma decode_loop_app ctx out x y :
  decode_loop ctx out (x ++ y) =
    match decode_loop ctx out x with
    | (ctx', out', Some _) => decode_loop ctx' out' y
    | r => r
    end.
Proof.
  revert ctx out. induction x as [|c x IH]; intros ctx out; [done|]. cbn [app decode_loop].
  destruct (is_space c); [apply IH|]. destruct (eof_seen ctx); [done|].
  destruct (_ =? 4); [|apply IH]. destruct (base64_decode_quad _ _ _ _); [apply IH|done].
Qed.

Lemma decode_loop_out ctx out x :
  decode_loop ctx out x = let '(ctx', out', r) := decode_loop ctx [] x in (ctx', out ++ out', r).
Proof.
  revert ctx out. induction x as [|c x IH]; intros ctx out; cbn [decode_loop]; [rewrite app_nil_r; done|].
  destruct (is_space c); [apply IH|]. destruct (eof_seen ctx); [rewrite app_nil_r; done|].
  destruct (_ =? 4); [|apply IH]. destruct (base64_decode_quad _ _ _ _) as [bytes|]; [|rewrite app_nil_r; done].
  rewrite IH, (IH _ ([] ++ bytes)). destruct (decode_loop _ [] x) as [[c' o'] r]. rewrite app_assoc. done.
Qed.

(** Between two quads; [eof] tells whether padding was seen. *)
Definition dec_idle (ctx : evp_encode_ctx) (eof : bool) : Prop :=
  data_used ctx = 0 /\ zlen (data ctx) = 48 /\ eof_seen ctx = eof /\ error_encountered ctx = false.

(** A character that does not complete a quad, and one that does. *)
Lemma decode_char k d e out c l : is_space c = false -> k + 1 <> 4 ->
  decode_loop (EncodeCtx k d false e) out (c :: l) =
  decode_loop (EncodeCtx (k + 1) (zwrite k [c] d) false e) out l.
Proof.
  intros Hc Hk. cbn [decode_loop eof_seen data_used data error_encountered]. rewrite Hc.
  destruct (Z.eqb_spec (k + 1) 4); done.
Qed.

Lemma decode_last d e out c l bytes : is_space c = false ->
  (let d := zwrite 3 [c] d in base64_decode_quad (znth d 0) (znth d 1) (znth d 2) (znth d 3)) = Some bytes ->
  decode_loop (EncodeCtx 3 d false e) out (c :: l) =
  decode_loop (EncodeCtx 0 (zwrite 3 [c] d) (zlen bytes <? 3) e) (out ++ bytes) l.
Proof.
  intros Hc Hq. cbn [decode_loop eof_seen data_used data error_encountered]. rewrite Hc.
  change (3 + 1 =? 4) with true. cbn iota. cbv zeta in Hq. rewrite Hq.
  destruct (zlen bytes <? 3); done.
Qed.

Lemma decode_loop_quad ctx out q bytes l : dec_idle ctx false -> quad q bytes ->
  exists ctx', decode_loop ctx out (q ++ l) = decode_loop ctx' (out ++ bytes) l /\
    dec_idle ctx' (zlen bytes <? 3).
Proof.
  intros (Hu & Hd & He & Her) [a b c d bytes' Hq Hb Sa Sb Sc Sd].
  destruct ctx as [used dat eof err]. cbn [data_used data eof_seen error_encountered] in *. subst.
  destruct dat as [|x0 [|x1 [|x2 [|x3 dat]]]]; try done. cbn [app].
  rewrite !decode_char by done. cbn [Z.add Pos.add Pos.succ].
  rewrite (decode_last _ _ _ _ _ bytes') by done.
  eexists. split; [reflexivity|]. split_and!; done.
Qed.

Lemma decode_loop_block ctx out b l : dec_idle ctx false -> bytes_ok b ->
  exists ctx', decode_loop ctx out (EVP_EncodeBlock b ++ l) = decode_loop ctx' (out ++ b) l /\
    dec_idle ctx' (negb (zlen b mod 3 =? 0)).
Proof.
  revert ctx out. assert (H0 : is_byte 0) by (unfold is_byte; lia).
  induction b as [|x|x y|x y z b IH] using list_ind3; intros ctx out Hi Hb; rewrite ?Forall_cons in Hb.
  - exists ctx. rewrite app_nil_r. done.
  - destruct Hb as [Hx _]. apply (decode_loop_quad _ _ _ [x]); [done|]. by apply (encode_quad x 0 0).
  - destruct Hb as (Hx & Hy & _). apply (decode_loop_quad _ _ _ [x; y]); [done|]. by apply (encode_quad x y 0).
  - destruct Hb as (Hx & Hy & Hz & Hb). rewrite encode_cons3, <- app_assoc.
    destruct (decode_loop_quad ctx out (EVP_EncodeBlock [x; y; z]) [x; y; z] (EVP_EncodeBlock b ++ l) Hi) as (c1 & -> & Hi1);
      [by apply (encode_quad x y z)|].
    destruct (IH c1 (out ++ [x; y; z])) as (c2 & -> & Hi2); [done..|].
    exists c2. rewrite <- app_assoc. split; [done|]. rewrite !zlen_cons.
    replace ((1 + (1 + (1 + zlen b))) mod 3) with (zlen b mod 3) by zarith. done.
Qed.

Lemma decode_loop_lines ctx out bs l : dec_idle ctx false ->
  Forall (fun b => zlen b = 48) bs -> Forall (fun b => bytes_ok b) bs ->
  exists ctx', decode_loop ctx out (concat (enc_line <$> bs) ++ l) =
      decode_loop ctx' (out ++ concat bs) l /\ dec_idle ctx' false.
Proof.
  intros Hi Hall. revert ctx out Hi. induction Hall as [|b bs Hb Hall IH]; intros ctx out Hi Hok.
  - exists ctx. rewrite app_nil_r. done.
  - apply Forall_cons in Hok as [Hok1 Hok]. cbn [fmap list_fmap concat]. unfold enc_line at 1.
    rewrite <- !app_assoc.
    destruct (decode_loop_block ctx out b ([10] ++ concat (enc_line <$> bs) ++ l) Hi Hok1) as (c1 & -> & Hi1).
    rewrite Hb in Hi1. change (negb (48 mod 3 =? 0)) with false in Hi1. cbn [app decode_loop].
    change (is_space 10) with true. cbn iota.
    destruct (IH c1 (out ++ b) Hi1 Hok) as (c2 & -> & Hi2). exists c2. rewrite <- app_assoc. done.
Qed.

Lemma chunks_bytes_ok p : bytes_ok p -> Forall (fun b => bytes_ok b) (chunks 48 p) /\ bytes_ok (leftover 48 p).
Proof.
  intros Hp. rewrite <- (chunks_leftover 48 eq_refl p) in Hp. apply Forall_app in Hp as [Hc Hl].
  split; [|done]. apply Forall_concat in Hc. done.
Qed.

Lemma decode_loop_pem ctx p : dec_idle ctx false -> bytes_ok p ->
  exists ctx' eof, decode_loop ctx [] (pem_lines p) = (ctx', p, Some tt) /\ dec_idle ctx' eof.
Proof.
  intros Hi Hp. destruct (chunks_bytes_ok p Hp) as [Hc Hl].
  unfold pem_lines. destruct (decode_loop_lines ctx [] (chunks 48 p)
    (if zlen (leftover 48 p) =? 0 then [] else enc_line (leftover 48 p)) Hi) as (c1 & -> & Hi1);
    [apply chunks_all; done|done|]. pose proof (chunks_leftover 48 eq_refl p) as Hcl. cbn [app].
  destruct (Z.eqb_spec (zlen (leftover 48 p)) 0) as [E|E].
  - apply zlen_zero in E. rewrite E, app_nil_r in Hcl. rewrite Hcl. exists c1, false. done.
  - unfold enc_line. destruct (decode_loop_block c1 (concat (chunks 48 p)) (leftover 48 p) [10] Hi1 Hl) as (c2 & -> & Hi2).
    rewrite Hcl. exists c2. eexists. split; [done|]. exact Hi2.
Qed.

(** ** What a client sees *)

(** Encoding a sequence of inputs; of each output the first [*out_len] bytes
    are used. *)
Fixpoint encode_stream (ctx : evp_encode_ctx) (xs : list (list Z)) : list Z :=
  match xs with
  | [] => let '(_, out, out_len) := EVP_EncodeFinal ctx in ztake out_len out
  | x :: xs' =>
      let '(ctx, out, out_len) := EVP_EncodeUpdate ctx x in
      ztake out_len out ++ encode_stream ctx xs'
  end.

(** Decoding a sequence of inputs; [None] when a call reports an error. *)
Fixpoint decode_stream (ctx : evp_encode_ctx) (xs : list (list Z)) : option (list Z) :=
  match xs with
  | [] => if EVP_DecodeFinal ctx =? 1 then Some [] else None
  | x :: xs' =>
      let '(ctx, out, out_len, r) := EVP_DecodeUpdate ctx x in
      if r <? 0 then None else option_map (app (ztake out_len out)) (decode_stream ctx xs')
  end.

Lemma decode_quad_length a b c d bytes : base64_decode_quad a b c d = Some bytes -> zlen bytes <= 3.
Proof.
  unfold base64_decode_quad. destruct (_ || _); [done|]. cbv zeta.
  repeat (destruct (_ =? _); [intros; simplify_eq; unfold zlen; simpl; lia|]). done.
Qed.

Lemma decode_loop_bounds ctx out x ctx' out' : decode_loop ctx out x = (ctx', out', Some tt) ->
  zlen out' <= zlen out + 3 * zlen x /\ error_encountered ctx' = error_encountered ctx.
Proof.
  revert ctx out. induction x as [|c x IH]; intros ctx out; cbn [decode_loop].
  - intros; simplify_eq. split; [unfold zlen; simpl; lia|done].
  - rewrite zlen_cons. destruct (is_space c).
    { intros H. apply IH in H as [H1 H2]. split; [lia|done]. }
    destruct (eof_seen ctx); [done|]. destruct (_ =? 4).
    + destruct (base64_decode_quad _ _ _ _) as [bytes|] eqn:Eq; [|done]. apply decode_quad_length in Eq.
      intros H. apply IH in H as [H1 H2]. rewrite zlen_app in H1. split; [lia|done].
    + intros H. apply IH in H as [H1 H2]. split; [lia|done].
Qed.

(** A sequence of updates is one pass over the concatenated input. *)
Lemma decode_stream_loop ctx xs : error_encountered ctx = false -> Forall (fun x => zlen x < 2 ^ 29) xs ->
  decode_stream ctx xs =
    match decode_loop ctx [] (concat xs) with
    | (ctx', out, Some _) => if EVP_DecodeFinal ctx' =? 1 then Some out else None
    | _ => None
    end.
Proof.
  intros He Hxs. revert ctx He. induction Hxs as [|x xs Hx _ IH]; intros ctx He; [done|].
  cbn [decode_stream concat]. unfold EVP_DecodeUpdate. rewrite He, decode_loop_app.
  destruct (decode_loop ctx [] x) as [[c1 o1] [[]|]] eqn:E1; [|done].
  destruct (decode_loop_bounds _ _ _ _ _ E1) as [Hb He1]. rewrite zlen_nil in Hb.
  rewrite Z.gtb_ltb. unfold INT_MAX. destruct (Z.ltb_spec (2 ^ 31 - 1) (zlen o1)); [lia|].
  assert (Hr : ((if eof_seen c1 then 0 else 1) <? 0) = false) by (destruct (eof_seen c1); done).
  rewrite Hr, IH by congruence. rewrite (decode_loop_out c1 o1), ztake_all by lia.
  destruct (decode_loop c1 [] (concat xs)) as [[c2 o2] [[]|]]; [|done].
  destruct (EVP_DecodeFinal c2 =? 1); done.
Qed.

Lemma encode_stream_spec ctx p xs : enc_rep ctx p -> Forall (fun x => zlen x < 2 ^ 30) xs ->
  concat (enc_line <$> chunks 48 p) ++ encode_stream ctx xs = pem_lines (p ++ concat xs).
Proof.
  intros Hr Hxs. revert ctx p Hr. induction Hxs as [|x xs Hx _ IH]; intros ctx p Hr.
  - cbn [encode_stream concat]. rewrite app_nil_r. unfold pem_lines. f_equal.
    destruct Hr as (Hu & Hd & Hl). unfold EVP_EncodeFinal. rewrite <- Hu.
    destruct (data_used ctx =? 0); [done|]. rewrite Hl. unfold enc_line.
    rewrite ztake_all; [done|rewrite zlen_app; change (zlen [10]) with 1; lia].
  - cbn [encode_stream concat]. destruct (encode_update_spec ctx p x Hr Hx) as (c1 & -> & Hr1).
    rewrite ztake_all by lia. rewrite app_assoc, <- concat_app, <- fmap_app, <- (chunks_app 48 eq_refl).
    rewrite (IH c1 (p ++ x) Hr1), <- app_assoc. done.
Qed.

(** ** Correctness *)

(** Decoding the base64 of any byte string with [EVP_DecodeBase64] gives the
    byte string back, whenever the destination is as large as
    [EVP_DecodedLength] asks for. *)
Theorem base64_roundtrip l max_out : bytes_ok l -> 3 * ((zlen l + 2) / 3) <= max_out ->
  EVP_DecodeBase64 max_out (EVP_EncodeBlock l) = Some l.
Proof.
  intros Hl Hm. unfold EVP_DecodeBase64, EVP_DecodedLength. rewrite zlen_encode.
  replace (4 * ((zlen l + 2) / 3) mod 4) with 0 by zarith. cbn [Z.eqb negb].
  destruct (Z.ltb_spec max_out (4 * ((zlen l + 2) / 3) / 4 * 3)); [zarith|]. by apply decode_encode.
Qed.

Lemma base64_roundtrip_witness : EVP_DecodeBase64 6 (EVP_EncodeBlock [0; 255; 62; 63]) = Some [0; 255; 62; 63].
Proof. apply (base64_roundtrip [0; 255; 62; 63] 6); [repeat constructor; discriminate|discriminate]. Defined.



(** [EVP_DecodeUpdate] does not depend on how its input, valid or not, is
    cut: two sequences of calls with the same concatenated input give the same
    bytes, or fail both. *)
Theorem base64_decode_chunking ctx xs ys : error_encountered ctx = false ->
  Forall (fun x => zlen x < 2 ^ 29) xs -> Forall (fun y => zlen y < 2 ^ 29) ys ->
  concat xs = concat ys -> decode_stream ctx xs = decode_stream ctx ys.
Proof. intros He Hx Hy E. rewrite !decode_stream_loop, E by done. done. Qed.

Lemma base64_decode_chunking_witness :
  decode_stream zero_ctx [[84; 87]; [70; 117; 84]; [81; 61; 61]] =
  decode_stream zero_ctx [[84; 87; 70; 117; 84; 81; 61; 61]].
Proof.
  apply (base64_decode_chunking zero_ctx [[84; 87]; [70; 117; 84]; [81; 61; 61]] [[84; 87; 70; 117; 84; 81; 61; 61]]).
  - reflexivity.
  - repeat constructor.
  - repeat constructor.
  - reflexivity.
Defined.

(** C29. Decoding, in any chunks, the text that the streaming encoder writes gives
    the encoded bytes back. *)
Theorem base64_decode_stream ctx p xs : bytes_ok p -> Forall (fun x => zlen x < 2 ^ 29) xs ->
  concat xs = pem_lines p -> decode_stream (EVP_DecodeInit ctx) xs = Some p.
Proof.
  intros Hp Hxs E. rewrite decode_stream_loop, E by done.
  destruct (decode_loop_pem (EVP_DecodeInit ctx) p) as (c & eof & -> & Hu & _ & _ & He); [repeat split|done|].
  unfold EVP_DecodeFinal. rewrite He, Hu. done.
Qed.

Lemma base64_decode_stream_witness :
  decode_stream (EVP_DecodeInit zero_ctx) [[84; 87; 70]; [117; 84; 81; 61; 61; 10]] = Some [77; 97; 110; 77].
Proof.
  apply (base64_decode_stream zero_ctx [77; 97; 110; 77] [[84; 87; 70]; [117; 84; 81; 61; 61; 10]]).
  - repeat constructor; discriminate.
  - repeat constructor.
  - reflexivity.
Defined.

(** [EVP_EncodedLength] gives the room that [EVP_EncodeBlock] needs, with the
    terminating NUL, and fails exactly when this is not a [size_t]. *)
Lemma encoded_length_exact l : zlen l < 2 ^ 64 ->
  EVP_EncodedLength (zlen l) =
    let n := zlen (EVP_EncodeBlock l) + 1 in if n <? 2 ^ 64 then Some n else None.
Proof.
  intros Hl. rewrite zlen_encode. pose proof (zlen_nonneg l). set (n := zlen l) in *. cbv zeta.
  unfold EVP_EncodedLength. destruct (Z.ltb_spec (n + 2) (2 ^ 64)) as [H2|H2].
  - rewrite (size_t_small (n + 2)) by lia. rewrite Z.shiftr_div_pow2, Z.shiftl_mul_pow2 by lia.
    change (2 ^ 2) with 4. set (k := (n + 2) / 3). assert (0 <= k < 2 ^ 63) by (unfold k; zarith).
    destruct (Z.ltb_spec (n + 2) n); [lia|]. destruct (Z.ltb_spec (4 * k + 1) (2 ^ 64)) as [Hk|Hk].
    + rewrite !size_t_small by lia. replace (k * 4 / 4) with k by zarith. rewrite Z.eqb_refl. cbn [negb].
      decide_cmp. f_equal. lia.
    + assert (E : size_t (k * 4) = k * 4 - 2 ^ 64) by (unfold size_t, u64; zarith).
      rewrite E. destruct (Z.eqb_spec ((k * 4 - 2 ^ 64) / 4) k); [zarith|]. done.
  - assert (E : size_t (n + 2) = n + 2 - 2 ^ 64) by (unfold size_t, u64; zarith).
    rewrite E. destruct (Z.ltb_spec (n + 2 - 2 ^ 64) n); [|lia].
    destruct (Z.ltb_spec (4 * ((n + 2) / 3) + 1) (2 ^ 64)); [zarith|done].
Qed.

Lemma encoded_length_exact_witness : EVP_EncodedLength (zlen [1; 2; 3; 4]) = Some 9.
Proof. rewrite (encoded_length_exact [1; 2; 3; 4]); [reflexivity|reflexivity]. Defined.
