(* ===== verification/DerSpec.v ===== *)
(** * The abstract specification of DER used by the CBS and CBB components:
    base-128 integers, identifier octets, length octets, elements and
    two's-complement INTEGER contents (X.690). *)

From S2P Require Import Prelude.

(** The big-endian base-128 digits of [v], all with the continuation bit. *)
Fixpoint b128_hi (n : nat) (v : Z) : list Z :=
  match n with
  | O => []
  | S n' => if v =? 0 then [] else b128_hi n' (v / 128) ++ [128 + v mod 128]
  end.

(** The minimal base-128 encoding of [0 <= v < 2^64]; nine leading digits are
    enough since [v / 128 < 2^57 < 128^9]. *)
Definition base128 (v : Z) : list Z := b128_hi 9 (v / 128) ++ [v mod 128].

(** A tag carries class and constructed bits in its top three bits and the tag
    number in the other 29. *)
Definition tag_octets (tag : Z) : list Z :=
  let bits := tag / 2 ^ 29 * 32 in
  let number := tag mod 2 ^ 29 in
  if number <? 31 then [bits + number] else bits + 31 :: base128 number.

(** Number of octets of a long-form length. *)
Definition length_size (len : Z) : nat :=
  if len <? 2 ^ 8 then 1 else if len <? 2 ^ 16 then 2 else if len <? 2 ^ 24 then 3 else 4.

Definition length_octets (len : Z) : list Z :=
  if len <? 128 then [len]
  else 128 + Z.of_nat (length_size len) :: be_bytes (length_size len) len.

Definition der_header (tag len : Z) : list Z := tag_octets tag ++ length_octets len.

Definition der_element (tag : Z) (contents : list Z) : list Z :=
  der_header tag (zlen contents) ++ contents.

(** The value of two's-complement big-endian octets. *)
Definition tc_val (l : list Z) : Z :=
  match l with
  | [] => 0
  | b :: _ => if b <? 128 then be_val l else be_val l - 256 ^ zlen l
  end.

(** DER INTEGER contents: non-empty and no shorter octets have the value. *)
Definition minimal_int (l : list Z) : bool :=
  match l with
  | [] => false
  | [_] => true
  | a :: b :: _ => negb (((a =? 0) && (b <? 128)) || ((a =? 255) && (128 <=? b)))
  end.

Lemma b128_hi_fuel n m v : 0 <= v < 128 ^ Z.of_nat n -> v < 128 ^ Z.of_nat m ->
  b128_hi n v = b128_hi m v.
Proof.
  revert m v. induction n as [|n IH]; intros [|m] v Hn Hm; simpl in *.
  - done.
  - assert (v = 0) as -> by lia. done.
  - assert (v = 0) as -> by lia. done.
  - destruct (Z.eqb_spec v 0); [done|].
    rewrite (IH m); [done|..]; rewrite !Nat2Z.inj_succ, !Z.pow_succ_r in * by lia;
      zarith.
Qed.

Lemma b128_hi_snoc v d : 0 <= v < 2 ^ 57 -> 0 <= d < 128 -> v * 128 + d <> 0 ->
  b128_hi 9 v ++ [128 + d] = b128_hi 10 (v * 128 + d).
Proof.
  intros Hv Hd Hne. change (b128_hi 10 ?x) with
    (if x =? 0 then [] else b128_hi 9 (x / 128) ++ [128 + x mod 128]).
  destruct (Z.eqb_spec (v * 128 + d) 0); [lia|].
  do 3 f_equal; zarith.
Qed.

Lemma b128_hi_ok n v : bytes_ok (b128_hi n v).
Proof.
  revert v. induction n as [|n IH]; intros v; simpl; [constructor|].
  destruct (v =? 0); [constructor|]. apply Forall_app; split; [apply IH|].
  constructor; [unfold is_byte; zarith|constructor].
Qed.
Lemma base128_ok v : bytes_ok (base128 v).
Proof.
  apply Forall_app; split; [apply b128_hi_ok|]. constructor; [unfold is_byte; zarith|constructor].
Qed.
Lemma tag_octets_ok tag : 0 <= tag < 2 ^ 32 -> bytes_ok (tag_octets tag).
Proof.
  intros H. unfold tag_octets. destruct (Z.ltb_spec (tag mod 2 ^ 29) 31);
    repeat constructor; unfold is_byte; try zarith. apply base128_ok.
Qed.
Lemma length_octets_ok len : 0 <= len -> bytes_ok (length_octets len).
Proof.
  intros H. unfold length_octets. destruct (Z.ltb_spec len 128); constructor; auto with bytes;
    unfold is_byte, length_size; repeat case_match; lia.
Qed.

(** The size of a long-form length is the least number of octets that hold it. *)
Lemma length_size_bound len : 0 <= len < 2 ^ 32 -> len < 256 ^ Z.of_nat (length_size len).
Proof.
  intros H. unfold length_size. repeat case_match; bool_hyps; simpl; lia.
Qed.
Lemma length_size_least len : 128 <= len -> 256 ^ (Z.of_nat (length_size len) - 1) <= len.
Proof.
  intros H. unfold length_size. repeat case_match; bool_hyps; simpl; lia.
Qed.
Lemma length_size_range len : 1 <= Z.of_nat (length_size len) <= 4.
Proof. unfold length_size. repeat case_match; lia. Qed.
Lemma length_size_unique n len : (1 <= n <= 4)%nat -> 0 <= len < 256 ^ Z.of_nat n ->
  256 ^ (Z.of_nat n - 1) <= len -> length_size len = n.
Proof.
  intros Hn. destruct n as [|[|[|[|[|]]]]]; try lia; simpl; intros H1 H2;
    unfold length_size; repeat case_match; bool_hyps; lia.
Qed.

Lemma zlen_der_element tag contents :
  zlen (der_element tag contents) = zlen (der_header tag (zlen contents)) + zlen contents.
Proof. unfold der_element. apply zlen_app. Qed.

(** *** The minimal octets of an integer *)

Fixpoint strip_zeros (l : list Z) : list Z :=
  match l with
  | b :: l' => if b =? 0 then strip_zeros l' else l
  | [] => []
  end.

(** The DER contents of an unsigned INTEGER. *)
Definition uint_octets (v : Z) : list Z :=
  match strip_zeros (be_bytes 8 v) with
  | [] => [0]
  | b :: l => if 128 <=? b then 0 :: b :: l else b :: l
  end.

(** Leading 0xff octets that repeat the sign are dropped. *)
Fixpoint strip_ff (l : list Z) : list Z :=
  match l with
  | a :: (b :: _) as l' => if (a =? 255) && (128 <=? b) then strip_ff l' else l
  | _ => l
  end.

(** The DER contents of an [int64_t]. *)
Definition int_octets (v : Z) : list Z :=
  if 0 <=? v then uint_octets v else strip_ff (be_bytes 8 (v mod 2 ^ 64)).

Lemma strip_zeros_ok l : bytes_ok l -> bytes_ok (strip_zeros l).
Proof.
  induction 1 as [|b l Hb Hl IH]; simpl; [constructor|]. destruct (b =? 0); [done|by constructor].
Qed.
Lemma be_val_strip_zeros l : be_val (strip_zeros l) = be_val l.
Proof.
  induction l as [|b l IH]; simpl; [done|]. destruct (Z.eqb_spec b 0) as [->|]; [|done].
  rewrite IH, be_val_cons. lia.
Qed.
Lemma strip_zeros_hd l b l' : strip_zeros l = b :: l' -> b <> 0.
Proof.
  induction l as [|a l IH]; simpl; [done|]. destruct (Z.eqb_spec a 0); [done|]. intros; simp_eq. done.
Qed.
Lemma zlen_strip_zeros l : zlen (strip_zeros l) <= zlen l.
Proof.
  induction l as [|b l IH]; simpl; [lia|]. destruct (b =? 0); [rewrite zlen_cons; lia|lia].
Qed.

Lemma uint_octets_spec v : 0 <= v < 2 ^ 64 ->
  bytes_ok (uint_octets v) /\ minimal_int (uint_octets v) = true /\ tc_val (uint_octets v) = v /\
  1 <= zlen (uint_octets v) <= 9.
Proof.
  intros Hv. unfold uint_octets.
  pose proof (strip_zeros_ok _ (be_bytes_ok 8 v)) as Hok.
  pose proof (be_val_strip_zeros (be_bytes 8 v)) as Hval.
  pose proof (zlen_strip_zeros (be_bytes 8 v)) as Hlen. rewrite zlen_be_bytes in Hlen.
  rewrite be_val_be_bytes, Z.mod_small in Hval by (change (256 ^ Z.of_nat 8) with (2 ^ 64); lia).
  pose proof (strip_zeros_hd (be_bytes 8 v)) as Hhd.
  destruct (strip_zeros (be_bytes 8 v)) as [|b l].
  { change (be_val []) with 0 in Hval. subst v. repeat split; try done. by repeat constructor. }
  specialize (Hhd b l eq_refl). pose proof (Forall_inv Hok) as Hb. unfold is_byte in Hb.
  pose proof (zlen_nonneg l). rewrite zlen_cons in Hlen.
  destruct (Z.leb_spec 128 b).
  - split_and!; [by constructor|..]; rewrite ?zlen_cons; try lia.
    + cbn [minimal_int]. destruct (Z.ltb_spec b 128); [lia|]. done.
    + change (tc_val (0 :: b :: l)) with (be_val (0 :: b :: l)). rewrite be_val_cons. lia.
  - split_and!; rewrite ?zlen_cons; try lia; [done| |].
    + destruct l as [|b2 l]; [done|]. cbn [minimal_int].
      destruct (Z.eqb_spec b 0), (Z.eqb_spec b 255); lia || done.
    + cbn [tc_val]. destruct (Z.ltb_spec b 128); [done|lia].
Qed.

Lemma strip_ff_spec l : bytes_ok l -> l <> [] -> 128 <= hd 0 l ->
  bytes_ok (strip_ff l) /\ minimal_int (strip_ff l) = true /\ tc_val (strip_ff l) = tc_val l /\
  1 <= zlen (strip_ff l) <= zlen l.
Proof.
  induction l as [|a l IH]; intros Hok Hne Hhd; [done|]. pose proof (Forall_inv Hok) as Ha.
  unfold is_byte in Ha. apply Forall_inv_tail in Hok as Hl. pose proof (zlen_nonneg l).
  destruct l as [|b l]; [done|]. cbn [strip_ff hd] in *.
  destruct (Z.eqb_spec a 255) as [->|Hna], (Z.leb_spec 128 b) as [Hb|Hb]; cbn [andb].
  - destruct IH as (H1 & H2 & H3 & H4); [done..|]. rewrite zlen_cons. split_and!; try done; try lia.
    rewrite H3. cbn [tc_val]. destruct (Z.ltb_spec b 128); [lia|].
    rewrite (be_val_cons 255), (zlen_cons 255), Z.pow_add_r by (rewrite ?zlen_cons in *; lia).
    change (255 <? 128) with false. cbv iota. change (256 ^ 1) with 256. lia.
  - split_and!; try done; try (rewrite zlen_cons; lia). cbn [minimal_int].
    destruct (Z.leb_spec 128 b); lia || done.
  - split_and!; try done; try (rewrite zlen_cons; lia). cbn [minimal_int].
    destruct (Z.eqb_spec a 0), (Z.eqb_spec a 255); lia || done.
  - split_and!; try done; try (rewrite zlen_cons; lia). cbn [minimal_int].
    destruct (Z.eqb_spec a 0), (Z.eqb_spec a 255); lia || done.
Qed.

Lemma int_octets_spec v : - 2 ^ 63 <= v < 2 ^ 63 ->
  bytes_ok (int_octets v) /\ minimal_int (int_octets v) = true /\ tc_val (int_octets v) = v /\
  1 <= zlen (int_octets v) <= 9.
Proof.
  intros Hv. unfold int_octets. destruct (Z.leb_spec 0 v); [apply uint_octets_spec; lia|].
  assert (Hm : v mod 2 ^ 64 = v + 2 ^ 64) by zarith.
  pose proof (be_val_be_bytes 8 (v mod 2 ^ 64)) as Hval.
  rewrite (Z.mod_small (v mod 2 ^ 64)) in Hval by (change (256 ^ Z.of_nat 8) with (2 ^ 64); lia).
  pose proof (be_bytes_ok 8 (v mod 2 ^ 64)) as Hok. pose proof (zlen_be_bytes 8 (v mod 2 ^ 64)) as Hlen.
  set (l := be_bytes 8 (v mod 2 ^ 64)) in *. clearbody l. destruct l as [|b l]; [done|].
  assert (128 <= b).
  { rewrite be_val_cons in Hval. rewrite zlen_cons in Hlen. apply Forall_cons in Hok as [Hb Hl].
    pose proof (be_val_range l Hl) as Hr. replace (zlen l) with 7 in * by lia.
    change (256 ^ 7) with (2 ^ 56) in *. lia. }
  destruct (strip_ff_spec (b :: l)) as (H1 & H2 & H3 & H4); [done..|].
  split_and!; try done; try lia. rewrite H3. cbn [tc_val].
  destruct (Z.ltb_spec b 128); [lia|]. rewrite Hlen, Hval, Hm. change (256 ^ Z.of_nat 8) with (2 ^ 64). lia.
Qed.

(** *** Uniqueness of minimal octets *)

(** The value of two's-complement octets bounds and is bounded by their number. *)
Lemma tc_val_range l : bytes_ok l -> l <> [] ->
  - (256 ^ zlen l / 2) <= tc_val l < 256 ^ zlen l / 2.
Proof.
  intros Hl Hne. destruct l as [|b l]; [done|]. apply Forall_cons in Hl as [Hb Hl].
  unfold is_byte in Hb. pose proof (be_val_range l Hl). unfold tc_val.
  rewrite be_val_cons, zlen_cons, Z.pow_add_r by (pose proof (zlen_nonneg l); lia).
  change (256 ^ 1) with 256. replace (256 * 256 ^ zlen l / 2) with (128 * 256 ^ zlen l) by zarith.
  destruct (Z.ltb_spec b 128); nia.
Qed.

Lemma minimal_int_large a b l : bytes_ok (a :: b :: l) -> minimal_int (a :: b :: l) = true ->
  tc_val (a :: b :: l) < - (256 ^ zlen (b :: l) / 2) \/
  256 ^ zlen (b :: l) / 2 <= tc_val (a :: b :: l).
Proof.
  intros Hl Hm. apply Forall_cons in Hl as [Ha Hl]. apply Forall_cons in Hl as [Hb Hl].
  unfold is_byte in *. pose proof (be_val_range l Hl). unfold tc_val.
  rewrite !be_val_cons, !zlen_cons, !Z.pow_add_r by (pose proof (zlen_nonneg l); lia).
  change (256 ^ 1) with 256. cbn [minimal_int] in Hm.
  apply negb_true_iff, orb_false_iff in Hm as [Hm1 Hm2]. bool_hyps. assert (0 < 256 ^ zlen l) by lia.
  replace (256 * 256 ^ zlen l / 2) with (128 * 256 ^ zlen l) by zarith.
  destruct (Z.ltb_spec a 128); [right|left].
  - destruct Hm1; bool_hyps; nia.
  - destruct Hm2; bool_hyps; nia.
Qed.

Lemma minimal_int_shorter l1 l2 : bytes_ok l1 -> bytes_ok l2 -> minimal_int l1 = true ->
  l2 <> [] -> tc_val l1 = tc_val l2 -> zlen l1 <= zlen l2.
Proof.
  intros H1 H2 Hm Hne E. pose proof (tc_val_range l2 H2 Hne) as Hr.
  destruct (Z.le_gt_cases (zlen l1) (zlen l2)) as [|Hgt]; [done|].
  assert (Hp : 1 <= zlen l2) by (destruct l2; [done|rewrite zlen_cons; pose proof (zlen_nonneg l2); lia]).
  destruct l1 as [|a [|b l1]]; [done|change (zlen [a]) with 1 in Hgt; lia|].
  pose proof (minimal_int_large a b l1 H1 Hm) as Hlarge. rewrite zlen_cons in Hgt.
  assert (256 ^ zlen l2 <= 256 ^ zlen (b :: l1)) by (apply Z.pow_le_mono_r; lia).
  assert (256 ^ zlen l2 / 2 <= 256 ^ zlen (b :: l1) / 2) by (apply Z.div_le_mono; lia). lia.
Qed.

Lemma minimal_int_unique l1 l2 : bytes_ok l1 -> bytes_ok l2 -> minimal_int l1 = true ->
  minimal_int l2 = true -> tc_val l1 = tc_val l2 -> l1 = l2.
Proof.
  intros H1 H2 Hm1 Hm2 E. assert (l1 <> [] /\ l2 <> []) as [Hn1 Hn2] by (destruct l1, l2; done).
  assert (Hz : zlen l1 = zlen l2).
  { pose proof (minimal_int_shorter l1 l2 H1 H2 Hm1 Hn2 E).
    pose proof (minimal_int_shorter l2 l1 H2 H1 Hm2 Hn1 (eq_sym E)). lia. }
  assert (Hb : be_val l1 = be_val l2).
  { pose proof (be_val_range l1 H1) as R1. pose proof (be_val_range l2 H2) as R2. rewrite Hz in R1.
    destruct l1 as [|a1 t1], l2 as [|a2 t2]; try done. cbn [tc_val] in E. rewrite Hz in E.
    destruct (a1 <? 128) eqn:E1, (a2 <? 128) eqn:E2; lia. }
  rewrite <- (be_bytes_be_val l1 (length l1)), <- (be_bytes_be_val l2 (length l2)), Hb by done.
  f_equal. unfold zlen in Hz. lia.
Qed.

Lemma int_octets_unique l : bytes_ok l -> minimal_int l = true -> zlen l <= 8 ->
  - 2 ^ 63 <= tc_val l < 2 ^ 63 /\ l = int_octets (tc_val l).
Proof.
  intros Hl Hm Hz. assert (Hne : l <> []) by (destruct l; done).
  pose proof (tc_val_range l Hl Hne) as Hr.
  assert (256 ^ zlen l <= 256 ^ 8) by (apply Z.pow_le_mono_r; lia).
  assert (256 ^ zlen l / 2 <= 256 ^ 8 / 2) by (apply Z.div_le_mono; lia).
  change (256 ^ 8 / 2) with (2 ^ 63) in *. split; [lia|].
  destruct (int_octets_spec (tc_val l)) as (H1 & H2 & H3 & _); [lia|].
  apply minimal_int_unique; done || lia.
Qed.

Lemma int_octets_length v : - 2 ^ 63 <= v < 2 ^ 63 -> zlen (int_octets v) <= 8.
Proof.
  intros Hv. destruct (int_octets_spec v Hv) as (H1 & H2 & H3 & H4).
  destruct (int_octets v) as [|a [|b l]]; [done|change (zlen [a]) with 1; lia|].
  pose proof (minimal_int_large a b l H1 H2) as Hlarge.
  rewrite H3 in Hlarge. rewrite (zlen_cons a) in *.
  destruct (Z.le_gt_cases (zlen (b :: l)) 7); [lia|]. exfalso.
  replace (zlen (b :: l)) with 8 in Hlarge by lia. change (256 ^ 8 / 2) with (2 ^ 63) in Hlarge. lia.
Qed.

Lemma uint_octets_unique l : bytes_ok l -> minimal_int l = true -> 0 <= tc_val l < 2 ^ 64 ->
  l = uint_octets (tc_val l).
Proof.
  intros Hl Hm Hv. destruct (uint_octets_spec (tc_val l)) as (H1 & H2 & H3 & _); [lia|].
  apply minimal_int_unique; done || lia.
Qed.
