(* ===== verification/CBS.v ===== *)
(** * crypto/bytestring/cbs.c: the CBS reader.

    A [CBS] is the view of the bytes that are still to be read: [data] points at
    the head of the list and [len] is its length. The buffer is never written
    through a [CBS]. A call is a state-passing function ([Prelude.M]); output
    parameters are returned on success, and what a failing call leaves in
    [*cbs] is part of the model. *)

From S2P Require Import Prelude Mem DerSpec.

(** ** Tags (include/openssl/bytestring.h) *)

Definition CBS_ASN1_TAG_SHIFT : Z := 24.
Definition CBS_ASN1_CONSTRUCTED : Z := Z.shiftl 0x20 CBS_ASN1_TAG_SHIFT.
Definition CBS_ASN1_CLASS_MASK : Z := Z.shiftl 0xc0 CBS_ASN1_TAG_SHIFT.
Definition CBS_ASN1_TAG_NUMBER_MASK : Z := Z.shiftl 1 (5 + CBS_ASN1_TAG_SHIFT) - 1.
Definition CBS_ASN1_BOOLEAN : Z := 0x1.
Definition CBS_ASN1_INTEGER : Z := 0x2.
Definition CBS_ASN1_BITSTRING : Z := 0x3.
Definition CBS_ASN1_OCTETSTRING : Z := 0x4.
Definition CBS_ASN1_OBJECT : Z := 0x6.
Definition CBS_ASN1_UTF8STRING : Z := 0xc.
Definition CBS_ASN1_SEQUENCE : Z := Z.lor 0x10 CBS_ASN1_CONSTRUCTED.
Definition CBS_ASN1_NUMERICSTRING : Z := 0x12.
Definition CBS_ASN1_PRINTABLESTRING : Z := 0x13.
Definition CBS_ASN1_T61STRING : Z := 0x14.
Definition CBS_ASN1_VIDEOTEXSTRING : Z := 0x15.
Definition CBS_ASN1_IA5STRING : Z := 0x16.
Definition CBS_ASN1_GRAPHICSTRING : Z := 0x19.
Definition CBS_ASN1_VISIBLESTRING : Z := 0x1a.
Definition CBS_ASN1_GENERALSTRING : Z := 0x1b.
Definition CBS_ASN1_UNIVERSALSTRING : Z := 0x1c.
Definition CBS_ASN1_BMPSTRING : Z := 0x1e.

(** ** The reader *)

Abbreviation cbs := (list Z).

Definition CBS_init (data : list Z) : cbs := data.

(** [cbs_get]: returns the [n] bytes at the old [data]. *)
Definition cbs_get (n : Z) : M cbs (list Z) := fun c =>
  if zlen c <? n then (None, c) else (Some (ztake n c), zdrop n c).

Definition CBS_skip (len : Z) : M cbs unit := cbs_get len ;; ret tt.

Definition CBS_data (c : cbs) : list Z := c.

Definition CBS_len (c : cbs) : Z := zlen c.

Section stow.
Context (malloc_ok : Z -> bool).
(** The copy left in [*out_ptr] ([None]: NULL) and [*out_len]. *)
Definition CBS_stow (c : cbs) : option (option (list Z) * Z) :=
  if CBS_len c =? 0 then Some (None, 0)
  else match OPENSSL_memdup malloc_ok c with
       | None => None
       | Some p => Some (Some p, CBS_len c)
       end.

Definition CBS_strdup (c : cbs) : option (list Z) := OPENSSL_strndup malloc_ok c.
End stow.

Definition CBS_contains_zero_byte (c : cbs) : bool :=
  match OPENSSL_memchr c 0 with Some _ => true | None => false end.

Definition CBS_mem_equal (c : cbs) (data : list Z) : bool :=
  if negb (zlen data =? CBS_len c) then false else CRYPTO_memcmp c data =? 0.

Definition cbs_get_u (len : Z) : M cbs Z :=
  let* data := cbs_get len in
  ret (fold_left (fun result b => Z.lor (u64 (Z.shiftl result 8)) b) data 0).

Definition CBS_get_u8 : M cbs Z :=
  let* v := cbs_get 1 in ret (znth v 0).

Definition CBS_get_u16 : M cbs Z := let* v := cbs_get_u 2 in ret (u16 v).

Definition CBS_get_u16le : M cbs Z := let* v := CBS_get_u16 in ret (CRYPTO_bswap2 v).

Definition CBS_get_u24 : M cbs Z := let* v := cbs_get_u 3 in ret (u32 v).

Definition CBS_get_u32 : M cbs Z := let* v := cbs_get_u 4 in ret (u32 v).

Definition CBS_get_u32le : M cbs Z := let* v := CBS_get_u32 in ret (CRYPTO_bswap4 v).

Definition CBS_get_u64 : M cbs Z := cbs_get_u 8.

Definition CBS_get_u64le : M cbs Z := let* v := cbs_get_u 8 in ret (CRYPTO_bswap8 v).

Definition CBS_get_last_u8 : M cbs Z := fun c =>
  if zlen c =? 0 then (None, c)
  else (Some (znth c (zlen c - 1)), ztake (zlen c - 1) c).

Definition CBS_get_bytes (len : Z) : M cbs cbs :=
  let* v := cbs_get len in ret (CBS_init v).

(** The [len] bytes copied to [out]. *)
Definition CBS_copy_bytes (len : Z) : M cbs (list Z) := cbs_get len.

Definition cbs_get_length_prefixed (len_len : Z) : M cbs cbs :=
  let* len := cbs_get_u len_len in CBS_get_bytes len.

Definition CBS_get_u8_length_prefixed : M cbs cbs := cbs_get_length_prefixed 1.

Definition CBS_get_u16_length_prefixed : M cbs cbs := cbs_get_length_prefixed 2.

Definition CBS_get_u24_length_prefixed : M cbs cbs := cbs_get_length_prefixed 3.

Definition CBS_get_until_first (ch : Z) : M cbs cbs :=
  let* c := getst in
  match OPENSSL_memchr (CBS_data c) ch with
  | None => fail
  | Some split => CBS_get_bytes split
  end.

(** The [do ... while] loop; it consumes a byte per iteration, so it recurses
    on the unread bytes. *)
Fixpoint parse_base128_loop (v : Z) (c : cbs) {struct c} : option Z * cbs :=
  match c with
  | [] => (None, [])
  | b :: c' =>
      if negb (Z.shiftr v (64 - 7) =? 0) then (None, c')
      else if (v =? 0) && (b =? 0x80) then (None, c')
      else
        let v := Z.lor (u64 (Z.shiftl v 7)) (Z.land b 0x7f) in
        if Z.land b 0x80 =? 0 then (Some v, c') else parse_base128_loop v c'
  end.
Definition parse_base128_integer : M cbs Z := parse_base128_loop 0.

Definition parse_asn1_tag : M cbs Z :=
  let* tag_byte := CBS_get_u8 in
  let tag := u32 (Z.shiftl (Z.land tag_byte 0xe0) CBS_ASN1_TAG_SHIFT) in
  let tag_number := Z.land tag_byte 0x1f in
  if tag_number =? 0x1f then
    let* v := parse_base128_integer in
    if (v >? CBS_ASN1_TAG_NUMBER_MASK) || (v <? 0x1f) then fail
    else ret (Z.lor tag v)
  else ret (Z.lor tag tag_number).

(** What an element parse returns: [*out], [*out_tag], [*out_header_len] and
    [*out_ber_found]. *)
Record asn1_element := Element {
  el_data : cbs; el_tag : Z; el_header_len : Z; el_ber_found : bool }.

Definition cbs_get_any_asn1_element (ber_ok : bool) : M cbs asn1_element :=
  let* c := getst in
  let* '(tag, header) := on c parse_asn1_tag in
  let* '(length_byte, header) := on header CBS_get_u8 in
  let header_len := CBS_len c - CBS_len header in
  if Z.land length_byte 0x80 =? 0 then
    let len := size_t (length_byte + header_len) in
    let* out := CBS_get_bytes len in
    ret (Element out tag header_len false)
  else
    let num_bytes := Z.land length_byte 0x7f in
    if ber_ok && negb (Z.land tag CBS_ASN1_CONSTRUCTED =? 0) && (num_bytes =? 0) then
      let* out := CBS_get_bytes header_len in
      ret (Element out tag header_len true)
    else if (num_bytes =? 0) || (num_bytes >? 4) then fail
    else
      let* '(len64, _) := on header (cbs_get_u num_bytes) in
      let not_short := len64 <? 128 in
      let not_minimal := Z.shiftr len64 ((num_bytes - 1) * 8) =? 0 in
      if (not_short || not_minimal) && negb ber_ok then fail
      else
        let len := len64 in
        if size_t (len + header_len + num_bytes) <? len then fail
        else
          let len := size_t (len + (header_len + num_bytes)) in
          let* out := CBS_get_bytes len in
          ret (Element out tag (header_len + num_bytes) (not_short || not_minimal)).

Definition CBS_get_any_asn1_element : M cbs asn1_element := cbs_get_any_asn1_element false.

Definition CBS_get_any_ber_asn1_element : M cbs asn1_element := cbs_get_any_asn1_element true.

(** [*out] without its header, and [*out_tag]. *)
Definition CBS_get_any_asn1 : M cbs (cbs * Z) :=
  let* e := CBS_get_any_asn1_element in
  let* '(_, out) := on (el_data e) (CBS_skip (el_header_len e)) in
  ret (out, el_tag e).

Definition cbs_get_asn1 (tag_value : Z) (skip_header : bool) : M cbs cbs :=
  let* e := CBS_get_any_asn1_element in
  if negb (el_tag e =? tag_value) then fail
  else if skip_header then
    let* '(_, out) := on (el_data e) (CBS_skip (el_header_len e)) in ret out
  else ret (el_data e).

Definition CBS_get_asn1 (tag_value : Z) : M cbs cbs := cbs_get_asn1 tag_value true.

Definition CBS_get_asn1_element (tag_value : Z) : M cbs cbs := cbs_get_asn1 tag_value false.

Definition CBS_peek_asn1_tag (c : cbs) (tag_value : Z) : bool :=
  if CBS_len c <? 1 then false
  else match fst (parse_asn1_tag c) with
       | Some actual_tag => tag_value =? actual_tag
       | None => false
       end.

(** [CBS_is_valid_asn1_integer]: [Some is_negative] when valid. *)
Definition CBS_is_valid_asn1_integer (c : cbs) : option bool :=
  match c with
  | [] => None
  | first_byte :: c' =>
      let is_negative := negb (Z.land first_byte 0x80 =? 0) in
      match c' with
      | [] => Some is_negative
      | second_byte :: _ =>
          if ((first_byte =? 0x00) && (Z.land second_byte 0x80 =? 0)) ||
             ((first_byte =? 0xff) && negb (Z.land second_byte 0x80 =? 0))
          then None else Some is_negative
      end
  end.

Definition CBS_is_unsigned_asn1_integer (c : cbs) : bool :=
  match CBS_is_valid_asn1_integer c with
  | Some is_negative => negb is_negative
  | None => false
  end.

Fixpoint asn1_uint64_loop (out : Z) (data : list Z) : option Z :=
  match data with
  | [] => Some out
  | b :: data' =>
      if negb (Z.shiftr out 56 =? 0) then None
      else asn1_uint64_loop (Z.lor (u64 (Z.shiftl out 8)) b) data'
  end.

Definition CBS_get_asn1_uint64 : M cbs Z :=
  let* bytes := CBS_get_asn1 CBS_ASN1_INTEGER in
  if negb (CBS_is_unsigned_asn1_integer bytes) then fail
  else lift (asn1_uint64_loop 0 (CBS_data bytes)).

(** The union of an [int64_t] with its eight little-endian bytes. *)
Definition CBS_get_asn1_int64 : M cbs Z :=
  let* bytes := CBS_get_asn1 CBS_ASN1_INTEGER in
  match CBS_is_valid_asn1_integer bytes with
  | None => fail
  | Some is_negative =>
      let len := CBS_len bytes in
      if len >? 8 then fail
      else
        let u := replicate 8 (if is_negative then 0xff else 0) in
        ret (s64 (le_val (zwrite 0 (rev bytes) u)))
  end.

Definition CBS_get_asn1_bool : M cbs bool :=
  let* bytes := CBS_get_asn1 CBS_ASN1_BOOLEAN in
  if negb (CBS_len bytes =? 1) then fail
  else
    let value := znth bytes 0 in
    if negb (value =? 0) && negb (value =? 0xff) then fail
    else ret (negb (value =? 0)).

(** [None] is [*out_present == 0]. *)
Definition CBS_get_optional_asn1 (tag : Z) : M cbs (option cbs) :=
  let* c := getst in
  if CBS_peek_asn1_tag c tag then
    let* out := CBS_get_asn1 tag in ret (Some out)
  else ret None.

Definition CBS_get_optional_asn1_octet_string (tag : Z) : M cbs (cbs * bool) :=
  let* child := CBS_get_optional_asn1 tag in
  match child with
  | Some child =>
      let* '(out, child) := on child (CBS_get_asn1 CBS_ASN1_OCTETSTRING) in
      if negb (CBS_len child =? 0) then fail else ret (out, true)
  | None => ret (CBS_init [], false)
  end.

Definition CBS_get_optional_asn1_uint64 (tag default_value : Z) : M cbs Z :=
  let* child := CBS_get_optional_asn1 tag in
  match child with
  | Some child =>
      let* '(out, child) := on child CBS_get_asn1_uint64 in
      if negb (CBS_len child =? 0) then fail else ret out
  | None => ret default_value
  end.

Definition CBS_get_optional_asn1_bool (tag default_value : Z) : M cbs Z :=
  let* child := CBS_get_optional_asn1 tag in
  match child with
  | Some child =>
      let* '(child2, child) := on child (CBS_get_asn1 CBS_ASN1_BOOLEAN) in
      if negb (CBS_len child2 =? 1) || negb (CBS_len child =? 0) then fail
      else
        let boolean := znth child2 0 in
        if boolean =? 0 then ret 0 else if boolean =? 0xff then ret 1 else fail
  | None => ret default_value
  end.

Definition CBS_is_valid_asn1_bitstring (c : cbs) : bool :=
  match CBS_get_u8 c with
  | (None, _) => false
  | (Some num_unused_bits, inn) =>
      if num_unused_bits >? 7 then false
      else if num_unused_bits =? 0 then true
      else match CBS_get_last_u8 inn with
           | (None, _) => false
           | (Some last, _) => Z.land last (Z.shiftl 1 num_unused_bits - 1) =? 0
           end
  end.

Definition CBS_asn1_bitstring_has_bit (c : cbs) (bit : Z) : bool :=
  if negb (CBS_is_valid_asn1_bitstring c) then false
  else
    let byte_num := u32 (Z.shiftr bit 3 + 1) in
    let bit_num := 7 - Z.land bit 7 in
    (byte_num <? CBS_len c) && negb (Z.land (znth c byte_num) (Z.shiftl 1 bit_num) =? 0).

(** DER of a SEQUENCE holding INTEGER 5 and an OCTET STRING. *)
Example parse_sequence :
  CBS_get_asn1 CBS_ASN1_SEQUENCE [0x30; 7; 2; 1; 5; 4; 2; 0xaa; 0xbb; 0x7f] =
  (Some [2; 1; 5; 4; 2; 0xaa; 0xbb], [0x7f]).
Proof. vm_compute. reflexivity. Qed.
Example parse_int : CBS_get_asn1_int64 [2; 2; 0xff; 0x7f; 9] = (Some (-129), [9]).
Proof. vm_compute. reflexivity. Qed.

(** ** Reading bytes *)

Lemma cbs_get_app n l r : n = zlen l -> cbs_get n (l ++ r) = (Some l, r).
Proof.
  intros ->. unfold cbs_get. rewrite zlen_app.
  destruct (Z.ltb_spec (zlen l + zlen r) (zlen l)); [pose proof (zlen_nonneg r); lia|].
  rewrite ztake_app, zdrop_app by done. done.
Qed.

Lemma cbs_get_inv n c l r : cbs_get n c = (Some l, r) -> 0 <= n -> c = l ++ r /\ zlen l = n.
Proof.
  unfold cbs_get. destruct (Z.ltb_spec (zlen c) n); intros; simp_eq.
  rewrite ztake_zdrop, zlen_ztake. split; [done|lia].
Qed.

Lemma cbs_get_fail n c : zlen c < n -> cbs_get n c = (None, c).
Proof. unfold cbs_get. intros. destruct (Z.ltb_spec (zlen c) n); [done|lia]. Qed.

Lemma CBS_get_u8_cons b c : CBS_get_u8 (b :: c) = (Some b, c).
Proof. unfold CBS_get_u8, bind. change (b :: c) with ([b] ++ c). rewrite cbs_get_app; done. Qed.
Lemma CBS_get_u8_nil : CBS_get_u8 [] = (None, []).
Proof. done. Qed.

Lemma be_fold l acc k : bytes_ok l -> 0 <= acc < 256 ^ k -> 0 <= k -> k + zlen l <= 8 ->
  fold_left (fun result b => Z.lor (u64 (Z.shiftl result 8)) b) l acc = acc * 256 ^ zlen l + be_val l.
Proof.
  revert acc k. induction l as [|b l IH]; intros acc k Hl Hacc Hk Hlen.
  - rewrite zlen_nil. simpl. unfold be_val. simpl. lia.
  - apply Forall_cons in Hl as [Hb Hl]. unfold is_byte in Hb. simpl.
    rewrite zlen_cons in Hlen. pose proof (zlen_nonneg l).
    assert (256 ^ k * 256 <= 2 ^ 64).
    { replace (256 ^ k * 256) with (256 ^ (k + 1)) by (rewrite Z.pow_add_r; lia).
      change (2 ^ 64) with (256 ^ 8). apply Z.pow_le_mono_r; lia. }
    assert (E : Z.lor (u64 (Z.shiftl acc 8)) b = acc * 256 + b).
    { rewrite u64_small, lor_add by (rewrite ?Z.shiftl_mul_pow2; lia). lia. }
    rewrite E, (IH _ (k + 1)) by (rewrite ?Z.pow_add_r by lia; lia || done).
    rewrite be_val_cons, zlen_cons, Z.pow_add_r by lia. lia.
Qed.

Lemma cbs_get_u_app n l r : bytes_ok l -> n = zlen l -> n <= 8 ->
  cbs_get_u n (l ++ r) = (Some (be_val l), r).
Proof.
  intros Hl -> Hn. unfold cbs_get_u, bind. rewrite cbs_get_app by done.
  unfold ret. rewrite (be_fold l 0 0) by (done || lia). done.
Qed.

Lemma cbs_get_u_inv n c v r : bytes_ok c -> 0 <= n <= 8 -> cbs_get_u n c = (Some v, r) ->
  exists l, c = l ++ r /\ zlen l = n /\ v = be_val l.
Proof.
  intros Hc Hn H. unfold cbs_get_u, bind in H. destruct (cbs_get n c) as [[l|] r'] eqn:E; [|done].
  apply cbs_get_inv in E as [-> El]; [|lia]. apply Forall_app in Hc as [Hl _].
  unfold ret in H. rewrite (be_fold l 0 0) in H by (done || lia). simp_eq.
  exists l. done.
Qed.

(** ** Base-128 integers *)

Lemma land_cont d : 0 <= d < 128 -> Z.land (128 + d) 0x7f = d /\ Z.land (128 + d) 0x80 = 128.
Proof.
  intros Hd.
  byte_check (fun b => (b <? 128) || ((Z.land b 0x7f =? b - 128) && (Z.land b 0x80 =? 128)))
    (128 + d) as H.
  bool_hyps. destruct H; bool_hyps; lia.
Qed.
Lemma land_last d : 0 <= d < 128 -> Z.land d 0x7f = d /\ Z.land d 0x80 = 0.
Proof.
  intros Hd. byte_check (fun b => (128 <=? b) || ((Z.land b 0x7f =? b) && (Z.land b 0x80 =? 0))) d as H.
  bool_hyps. destruct H; bool_hyps; lia.
Qed.

Lemma shl7 v d : 0 <= v < 2 ^ 57 -> 0 <= d < 128 -> Z.lor (u64 (Z.shiftl v 7)) d = v * 128 + d.
Proof.
  intros. rewrite u64_small, lor_add by (rewrite ?Z.shiftl_mul_pow2; lia). done.
Qed.
Lemma shr57 v : 0 <= v -> (Z.shiftr v (64 - 7) =? 0) = (v <? 2 ^ 57).
Proof.
  intros. rewrite Z.shiftr_div_pow2 by lia. change (2 ^ (64 - 7)) with (2 ^ 57).
  destruct (Z.ltb_spec v (2 ^ 57)); [rewrite Z.div_small by lia; done|].
  apply Z.eqb_neq. zarith.
Qed.

(** One iteration of the loop, on a continuation octet and on a last octet. *)
Lemma base128_step_cont v d c : 0 <= v < 2 ^ 57 -> 0 <= d < 128 -> v * 128 + d <> 0 ->
  parse_base128_loop v (128 + d :: c) = parse_base128_loop (v * 128 + d) c.
Proof.
  intros Hv Hd Hne. cbn [parse_base128_loop]. rewrite shr57 by lia.
  destruct (Z.ltb_spec v (2 ^ 57)); [|lia]. cbn [negb].
  destruct (Z.eqb_spec v 0), (Z.eqb_spec (128 + d) 0x80); cbn [andb]; try lia;
    destruct (land_cont d Hd) as [-> ->]; cbn [Z.eqb]; rewrite shl7 by lia; done.
Qed.
Lemma base128_step_last v d c : 0 <= v < 2 ^ 57 -> 0 <= d < 128 ->
  parse_base128_loop v (d :: c) = (Some (v * 128 + d), c).
Proof.
  intros Hv Hd. cbn [parse_base128_loop]. rewrite shr57 by lia.
  destruct (Z.ltb_spec v (2 ^ 57)); [|lia]. cbn [negb].
  destruct (Z.eqb_spec d 0x80); [lia|]. rewrite andb_false_r.
  destruct (land_last d Hd) as [-> ->]. cbn [Z.eqb]. rewrite shl7 by lia. done.
Qed.

Lemma parse_base128_hi n v c : 0 <= v < 128 ^ Z.of_nat n -> v < 2 ^ 64 ->
  parse_base128_loop 0 (b128_hi n v ++ c) = parse_base128_loop v c.
Proof.
  revert v c. induction n as [|n IH]; intros v c Hv H64.
  - simpl in *. assert (v = 0) as -> by lia. done.
  - rewrite Nat2Z.inj_succ, Z.pow_succ_r in Hv by lia. cbn [b128_hi].
    destruct (Z.eqb_spec v 0) as [->|Hne]; [done|].
    rewrite <- app_assoc. cbn [app]. rewrite IH by zarith.
    rewrite base128_step_cont by zarith. f_equal. zarith.
Qed.

Lemma parse_base128_complete v c : 0 <= v < 2 ^ 64 ->
  parse_base128_integer (base128 v ++ c) = (Some v, c).
Proof.
  intros Hv. unfold parse_base128_integer, base128. rewrite <- app_assoc.
  rewrite parse_base128_hi by (simpl Z.of_nat; zarith). cbn [app].
  rewrite base128_step_last by zarith. do 2 f_equal. zarith.
Qed.

Lemma parse_base128_sound_aux c v r rest : bytes_ok c -> 0 <= v < 2 ^ 64 ->
  parse_base128_loop v c = (Some r, rest) ->
  b128_hi 10 v ++ c = base128 r ++ rest /\ 0 <= r < 2 ^ 64.
Proof.
  revert v. induction c as [|b c IH]; intros v Hc Hv H; [done|].
  apply Forall_cons in Hc as [Hb Hc]. unfold is_byte in Hb.
  assert (Hv57 : v < 2 ^ 57).
  { destruct (Z.ltb_spec v (2 ^ 57)) as [|E]; [done|]. cbn [parse_base128_loop] in H.
    rewrite shr57 in H by lia. destruct (Z.ltb_spec v (2 ^ 57)); [lia|]. done. }
  rewrite (b128_hi_fuel 10 9) by (simpl; lia).
  destruct (Z.ltb_spec b 128).
  - rewrite base128_step_last in H by lia. simp_eq. split; [|lia].
    unfold base128. replace ((v * 128 + b) / 128) with v by zarith.
    replace ((v * 128 + b) mod 128) with b by zarith. rewrite <- app_assoc. done.
  - replace b with (128 + (b - 128)) in H by lia.
    destruct (Z.eq_dec (v * 128 + (b - 128)) 0) as [E|E].
    { assert (v = 0) as -> by lia. assert (b = 128) as -> by lia. done. }
    rewrite base128_step_cont in H by lia.
    apply IH in H as [H Hr]; [|done|lia]. split; [|done]. rewrite <- H.
    rewrite <- b128_hi_snoc by lia. rewrite <- app_assoc. cbn [app]. do 2 f_equal. lia.
Qed.

Lemma parse_base128_sound c r rest : bytes_ok c ->
  parse_base128_integer c = (Some r, rest) -> c = base128 r ++ rest /\ 0 <= r < 2 ^ 64.
Proof. intros Hc H. apply parse_base128_sound_aux in H; [|done|lia]. done. Qed.

(** ** Identifier octets *)

Lemma tag_byte_split b : is_byte b -> Z.land b 0xe0 = b / 32 * 32 /\ Z.land b 0x1f = b mod 32.
Proof.
  unfold is_byte. intros Hb.
  byte_check (fun b => (Z.land b 0xe0 =? b / 32 * 32) && (Z.land b 0x1f =? b mod 32)) b as H.
  bool_hyps. done.
Qed.

(** [parse_asn1_tag] with the bit operations evaluated. *)
Lemma parse_asn1_tag_cons b c : is_byte b -> bytes_ok c ->
  parse_asn1_tag (b :: c) =
    if b mod 32 =? 31 then
      match parse_base128_integer c with
      | (Some v, c') =>
          if (2 ^ 29 <=? v) || (v <? 31) then (None, c') else (Some (b / 32 * 2 ^ 29 + v), c')
      | (None, c') => (None, c')
      end
    else (Some (b / 32 * 2 ^ 29 + b mod 32), c).
Proof.
  intros Hb Hc. unfold parse_asn1_tag. unfold bind at 1. rewrite CBS_get_u8_cons.
  destruct (tag_byte_split b Hb) as [-> ->]. unfold is_byte in Hb.
  assert (E : u32 (Z.shiftl (b / 32 * 32) CBS_ASN1_TAG_SHIFT) = b / 32 * 2 ^ 29).
  { rewrite Z.shiftl_mul_pow2 by done. unfold CBS_ASN1_TAG_SHIFT. rewrite u32_small by zarith. lia. }
  rewrite E. change 0x1f with 31. destruct (b mod 32 =? 31).
  - unfold bind. destruct (parse_base128_integer c) as [[v|] c'] eqn:Ep; [|done].
    apply parse_base128_sound in Ep as [_ Hv]; [|done].
    rewrite Z.gtb_ltb. change CBS_ASN1_TAG_NUMBER_MASK with (2 ^ 29 - 1).
    replace (2 ^ 29 - 1 <? v) with (2 ^ 29 <=? v) by
      (destruct (Z.leb_spec (2 ^ 29) v), (Z.ltb_spec (2 ^ 29 - 1) v); lia).
    destruct (Z.leb_spec (2 ^ 29) v), (Z.ltb_spec v 31); try done. cbn [orb].
    unfold ret. do 2 f_equal. f_equal. apply (lor_add_mul 29); lia.
  - unfold ret. do 2 f_equal. apply (lor_add_mul 29); [lia..|zarith].
Qed.

Lemma parse_asn1_tag_complete tag c : 0 <= tag < 2 ^ 32 -> bytes_ok c ->
  parse_asn1_tag (tag_octets tag ++ c) = (Some tag, c).
Proof.
  intros Ht Hc. unfold tag_octets.
  destruct (Z.ltb_spec (tag mod 2 ^ 29) 31) as [Hs|Hs]; cbn [app].
  - rewrite parse_asn1_tag_cons by (done || unfold is_byte; zarith).
    destruct (Z.eqb_spec ((tag / 2 ^ 29 * 32 + tag mod 2 ^ 29) mod 32) 31); [zarith|].
    do 2 f_equal. zarith.
  - rewrite parse_asn1_tag_cons by
      first [unfold is_byte; zarith | apply Forall_app; split; [apply base128_ok|done]].
    destruct (Z.eqb_spec ((tag / 2 ^ 29 * 32 + 31) mod 32) 31); [|zarith].
    rewrite parse_base128_complete by zarith.
    destruct (Z.leb_spec (2 ^ 29) (tag mod 2 ^ 29)), (Z.ltb_spec (tag mod 2 ^ 29) 31); try zarith.
    cbn [orb]. do 2 f_equal. zarith.
Qed.

Lemma parse_asn1_tag_sound c tag rest : bytes_ok c -> parse_asn1_tag c = (Some tag, rest) ->
  c = tag_octets tag ++ rest /\ 0 <= tag < 2 ^ 32.
Proof.
  intros Hc H. destruct c as [|b c]; [done|]. apply Forall_cons in Hc as [Hb Hc].
  rewrite parse_asn1_tag_cons in H by done. unfold is_byte in Hb.
  destruct (Z.eqb_spec (b mod 32) 31) as [E|E].
  - destruct (parse_base128_integer c) as [[v|] c'] eqn:Ep; [|done].
    apply parse_base128_sound in Ep as [-> Hv]; [|done].
    destruct (Z.leb_spec (2 ^ 29) v), (Z.ltb_spec v 31); try done. cbn [orb] in H. simp_eq.
    split; [|zarith]. unfold tag_octets.
    replace ((b / 32 * 2 ^ 29 + v) mod 2 ^ 29) with v by zarith.
    replace ((b / 32 * 2 ^ 29 + v) / 2 ^ 29) with (b / 32) by zarith.
    destruct (Z.ltb_spec v 31); [lia|]. cbn [app]. f_equal. zarith.
  - simp_eq. split; [|zarith]. unfold tag_octets.
    replace ((b / 32 * 2 ^ 29 + b mod 32) mod 2 ^ 29) with (b mod 32) by zarith.
    replace ((b / 32 * 2 ^ 29 + b mod 32) / 2 ^ 29) with (b / 32) by zarith.
    destruct (Z.ltb_spec (b mod 32) 31); [|zarith]. cbn [app]. f_equal. zarith.
Qed.

(** ** Elements *)

Lemma length_byte_split b : is_byte b ->
  (Z.land b 0x80 =? 0) = (b <? 128) /\ Z.land b 0x7f = b mod 128.
Proof.
  unfold is_byte. intros Hb.
  byte_check (fun b => Bool.eqb (Z.land b 0x80 =? 0) (b <? 128) && (Z.land b 0x7f =? b mod 128)) b as H.
  bool_hyps. split; [by apply Bool.eqb_prop|done].
Qed.

(** The parser on a header whose identifier octets and length octet are known:
    what is left to decide is the length. *)
Lemma get_element_header ber_ok tag lb c : 0 <= tag < 2 ^ 32 -> is_byte lb -> bytes_ok c ->
  zlen (tag_octets tag ++ lb :: c) < 2 ^ 64 - 2 ^ 33 ->
  let hl := zlen (tag_octets tag) + 1 in
  let whole := tag_octets tag ++ lb :: c in
  cbs_get_any_asn1_element ber_ok whole =
    if lb <? 128 then
      (let* out := CBS_get_bytes (lb + hl) in ret (Element out tag hl false)) whole
    else
      let n := lb mod 128 in
      if ber_ok && negb (Z.land tag CBS_ASN1_CONSTRUCTED =? 0) && (n =? 0) then
        (let* out := CBS_get_bytes hl in ret (Element out tag hl true)) whole
      else if (n =? 0) || (n >? 4) then (None, whole)
      else if zlen c <? n then (None, whole)
      else
        let len := be_val (ztake n c) in
        let odd := (len <? 128) || (len <? 256 ^ (n - 1)) in
        if odd && negb ber_ok then (None, whole)
        else (let* out := CBS_get_bytes (len + (hl + n)) in ret (Element out tag (hl + n) odd)) whole.
Proof.
  intros Ht Hlb Hc Hlen hl whole. unfold cbs_get_any_asn1_element.
  assert (Hw : bytes_ok (lb :: c)) by (constructor; done).
  assert (Hhl : CBS_len whole - CBS_len c = hl).
  { unfold whole, hl, CBS_len. rewrite zlen_app, zlen_cons. lia. }
  assert (Hh : 0 <= hl < 2 ^ 64 - 2 ^ 33).
  { rewrite zlen_app, zlen_cons in Hlen. unfold hl.
    pose proof (zlen_nonneg c). pose proof (zlen_nonneg (tag_octets tag)). lia. }
  unfold getst, bind, on. unfold whole at 1. rewrite parse_asn1_tag_complete by done.
  rewrite CBS_get_u8_cons. rewrite Hhl.
  destruct (length_byte_split lb Hlb) as [-> ->]. unfold is_byte in Hlb.
  destruct (Z.ltb_spec lb 128); [rewrite size_t_small by lia; done|].
  assert (0 <= lb mod 128) by zarith.
  set (n := lb mod 128) in *. cbv zeta.
  destruct (ber_ok && negb (Z.land tag CBS_ASN1_CONSTRUCTED =? 0) && (n =? 0)); [done|].
  destruct (Z.eqb_spec n 0), (n >? 4) eqn:E4; try done. cbn [orb]. rewrite Z.gtb_ltb in E4. bool_hyps.
  destruct (Z.ltb_spec (zlen c) n) as [Hs|Hs].
  { unfold cbs_get_u, bind. rewrite cbs_get_fail by done. done. }
  assert (Hn : zlen (ztake n c) = n) by (rewrite zlen_ztake; lia).
  assert (Hok : bytes_ok (ztake n c)) by (apply Forall_ztake; done).
  rewrite <- (ztake_zdrop n c) at 1. rewrite cbs_get_u_app by (done || lia).
  pose proof (be_val_range _ Hok) as Hv. rewrite Hn in Hv.
  assert (256 ^ n <= 2 ^ 32) by (change (2 ^ 32) with (256 ^ 4); apply Z.pow_le_mono_r; lia).
  set (len := be_val (ztake n c)) in *.
  assert (Hmin : (Z.shiftr len ((n - 1) * 8) =? 0) = (len <? 256 ^ (n - 1))).
  { rewrite Z.shiftr_div_pow2 by lia. rewrite Z.mul_comm, Z.pow_mul_r by lia. change (2 ^ 8) with 256.
    pose proof (Z.pow_pos_nonneg 256 (n - 1)).
    destruct (Z.ltb_spec len (256 ^ (n - 1))); [rewrite Z.div_small by lia; done|].
    apply Z.eqb_neq. enough (1 <= len / 256 ^ (n - 1)) by lia. apply Z.div_le_lower_bound; lia. }
  rewrite Hmin. destruct (((len <? 128) || (len <? 256 ^ (n - 1))) && negb ber_ok); [done|].
  rewrite !size_t_small by lia.
  destruct (Z.ltb_spec (len + hl + n) len); [lia|]. done.
Qed.

Lemma get_bytes_ret {A} n c (k : cbs -> A) l r : n = zlen l -> c = l ++ r ->
  (let* out := CBS_get_bytes n in ret (k out)) c = (Some (k l), r).
Proof. intros Hn ->. unfold CBS_get_bytes, bind. rewrite cbs_get_app by done. done. Qed.

Lemma get_bytes_ret_inv {A} n c (k : cbs -> A) a r : 0 <= n ->
  (let* out := CBS_get_bytes n in ret (k out)) c = (Some a, r) ->
  exists l, c = l ++ r /\ zlen l = n /\ a = k l.
Proof.
  intros Hn H. unfold CBS_get_bytes, bind, ret in H.
  destruct (cbs_get n c) as [[l|] r'] eqn:E; [|done]. simp_eq.
  apply cbs_get_inv in E as [-> El]; [|done]. exists l. done.
Qed.

(** Long-form length octets as the parser sees them. *)
Lemma length_octets_long len : 128 <= len < 2 ^ 32 ->
  length_octets len = 128 + Z.of_nat (length_size len) :: be_bytes (length_size len) len.
Proof. intros H. unfold length_octets. destruct (Z.ltb_spec len 128); [lia|done]. Qed.

Lemma be_val_length_octets len : 0 <= len < 2 ^ 32 -> be_val (be_bytes (length_size len) len) = len.
Proof.
  intros H. rewrite be_val_be_bytes. apply Z.mod_small. pose proof (length_size_bound len). lia.
Qed.

Lemma get_element_complete tag contents rest : 0 <= tag < 2 ^ 32 -> bytes_ok contents ->
  bytes_ok rest -> zlen contents < 2 ^ 32 ->
  zlen (der_element tag contents ++ rest) < 2 ^ 64 - 2 ^ 33 ->
  CBS_get_any_asn1_element (der_element tag contents ++ rest) =
    (Some (Element (der_element tag contents) tag (zlen (der_header tag (zlen contents))) false), rest).
Proof.
  intros Ht Hc Hr Hlen Htot. pose proof (zlen_nonneg contents) as Hnn.
  unfold CBS_get_any_asn1_element. set (len := zlen contents) in *.
  destruct (Z.ltb_spec len 128) as [Hs|Hl].
  - assert (E : der_element tag contents ++ rest = tag_octets tag ++ len :: contents ++ rest).
    { unfold der_element, der_header, length_octets. fold len.
      destruct (Z.ltb_spec len 128); [|lia]. rewrite <- !app_assoc. done. }
    rewrite E, get_element_header; [|done|unfold is_byte; lia|apply Forall_app; done|congruence].
    destruct (Z.ltb_spec len 128); [|lia].
    assert (Hh : zlen (der_header tag len) = zlen (tag_octets tag) + 1).
    { unfold der_header, length_octets. destruct (Z.ltb_spec len 128); [|lia]. rewrite zlen_app. done. }
    rewrite Hh. apply (get_bytes_ret _ _ (fun out => Element out tag _ false));
      [rewrite zlen_der_element; fold len; lia|done].
  - pose proof (length_size_range len) as Hn. set (n := length_size len) in *.
    assert (E : der_element tag contents ++ rest =
      tag_octets tag ++ 128 + Z.of_nat n :: be_bytes n len ++ contents ++ rest).
    { unfold der_element, der_header. fold len. rewrite length_octets_long by lia.
      rewrite <- !app_assoc. done. }
    rewrite E, get_element_header;
      [|done|unfold is_byte; lia|repeat (apply Forall_app; split); auto with bytes|congruence].
    destruct (Z.ltb_spec (128 + Z.of_nat n) 128); [lia|]. cbv zeta.
    replace ((128 + Z.of_nat n) mod 128) with (Z.of_nat n) by zarith. cbn [andb].
    rewrite Z.gtb_ltb. destruct (Z.eqb_spec (Z.of_nat n) 0), (Z.ltb_spec 4 (Z.of_nat n)); try lia.
    assert (Hbv : be_val (be_bytes n len) = len) by (apply be_val_length_octets; lia).
    cbn [orb]. rewrite ztake_app, Hbv by zlia.
    destruct (Z.ltb_spec (zlen (be_bytes n len ++ contents ++ rest)) (Z.of_nat n)).
    { pose proof (zlen_nonneg rest). zlia. }
    pose proof (length_size_least len Hl). fold n in H2.
    destruct (Z.ltb_spec len 128), (Z.ltb_spec len (256 ^ (Z.of_nat n - 1))); try lia. cbn [orb andb].
    assert (Hh : zlen (der_header tag len) = zlen (tag_octets tag) + 1 + Z.of_nat n).
    { unfold der_header. rewrite length_octets_long by lia. zlia. }
    rewrite Hh. apply (get_bytes_ret _ _ (fun out => Element out tag _ false));
      [rewrite zlen_der_element; fold len; lia|done].
Qed.

Lemma der_header_short tag len : len < 128 -> der_header tag len = tag_octets tag ++ [len].
Proof. intros H. unfold der_header, length_octets. destruct (Z.ltb_spec len 128); [done|lia]. Qed.

(** The octets [lb :: l] of an accepted long form are those of the specification. *)
Lemma der_header_long tag lb l : 128 <= lb < 256 -> bytes_ok l -> zlen l = lb mod 128 ->
  1 <= zlen l <= 4 -> 128 <= be_val l -> 256 ^ (zlen l - 1) <= be_val l ->
  der_header tag (be_val l) = tag_octets tag ++ lb :: l /\ be_val l < 2 ^ 32.
Proof.
  intros Hlb Hok Hn Hr H128 Hmin. pose proof (be_val_range _ Hok) as Hv. unfold zlen in *.
  assert (256 ^ Z.of_nat (length l) <= 256 ^ 4) by (apply Z.pow_le_mono_r; lia).
  assert (Hls : length_size (be_val l) = length l) by (apply length_size_unique; lia).
  split; [|lia]. unfold der_header. rewrite length_octets_long, Hls by lia.
  rewrite be_bytes_be_val by done. do 2 f_equal. zarith.
Qed.

(** What follows a known prefix of the bytes returned by a read. *)
Lemma split_prefix {A} (p d l r : list A) k : p ++ d = l ++ r -> zlen l = zlen p + k -> 0 <= k ->
  l = p ++ ztake k d /\ zlen (ztake k d) = k /\ d = ztake k d ++ r.
Proof.
  intros H Hl Hk. apply (f_equal (ztake (zlen l))) in H as Ht.
  rewrite (ztake_app (zlen l) l), ztake_app_ge in Ht by lia.
  replace (zlen l - zlen p) with k in Ht by lia.
  assert (Hz : zlen (ztake k d) = k) by (apply (f_equal zlen) in Ht; rewrite zlen_app in Ht; lia).
  split_and!; [done..|]. rewrite <- Ht, <- app_assoc in H. by apply app_inv_head in H.
Qed.

(** A successful parse starts with an identifier and a length octet. *)
Lemma get_element_inv ber_ok c e rest : bytes_ok c ->
  cbs_get_any_asn1_element ber_ok c = (Some e, rest) ->
  exists tag lb c', c = tag_octets tag ++ lb :: c' /\ 0 <= tag < 2 ^ 32 /\ is_byte lb /\ bytes_ok c'.
Proof.
  intros Hc H. unfold cbs_get_any_asn1_element, getst, bind, on in H.
  destruct (parse_asn1_tag c) as [[tag|] [|lb c']] eqn:Et; try discriminate H.
  apply parse_asn1_tag_sound in Et as [-> Ht]; [|done].
  apply Forall_app in Hc as [_ Hhd]. apply Forall_cons in Hhd as [Hlb Hc']. exists tag, lb, c'. done.
Qed.

Lemma get_element_sound c e rest : bytes_ok c -> zlen c < 2 ^ 64 - 2 ^ 33 ->
  CBS_get_any_asn1_element c = (Some e, rest) ->
  exists tag contents, c = der_element tag contents ++ rest /\
    e = Element (der_element tag contents) tag (zlen (der_header tag (zlen contents))) false /\
    0 <= tag < 2 ^ 32 /\ zlen contents < 2 ^ 32.
Proof.
  intros Hc Hlen H. unfold CBS_get_any_asn1_element in H.
  destruct (get_element_inv _ _ _ _ Hc H) as (tag & lb & c' & -> & Ht & Hlb & Hc').
  rewrite get_element_header in H by done.
  pose proof (zlen_nonneg (tag_octets tag)) as Hn0. unfold is_byte in Hlb.
  destruct (Z.ltb_spec lb 128) as [Hs|Hl].
  - apply (get_bytes_ret_inv _ _ (fun out => Element out tag _ false)) in H
      as (l & Hl & Hll & ->); [|lia].
    change (tag_octets tag ++ lb :: c') with (tag_octets tag ++ [lb] ++ c') in *.
    rewrite app_assoc in *. rewrite <- (der_header_short tag lb Hs) in *.
    assert (Hhl : zlen (der_header tag lb) = zlen (tag_octets tag) + 1)
      by (rewrite der_header_short, zlen_app; done).
    destruct (split_prefix _ _ _ _ lb Hl) as (-> & Htk & Hr); [lia..|].
    exists tag, (ztake lb c'). unfold der_element. rewrite Htk, Hhl.
    split_and!; [|done|lia..]. rewrite <- app_assoc, <- Hr. done.
  - cbv zeta in H. cbn [andb negb] in H. rewrite andb_true_r, Z.gtb_ltb in H.
    set (n := lb mod 128) in *. assert (Hnb : 0 <= n < 128) by (unfold n; zarith).
    destruct (Z.eqb_spec n 0), (Z.ltb_spec 4 n), (Z.ltb_spec (zlen c') n); try done. cbn [orb] in H.
    assert (Hn : zlen (ztake n c') = n) by (rewrite zlen_ztake; lia).
    destruct (Z.ltb_spec (be_val (ztake n c')) 128),
      (Z.ltb_spec (be_val (ztake n c')) (256 ^ (n - 1))); try done. cbn [orb] in H.
    destruct (der_header_long tag lb (ztake n c')) as [Hhd H32];
      [lia|by apply Forall_ztake|lia|lia|lia|rewrite Hn; lia|].
    set (len := be_val (ztake n c')) in *.
    assert (Hhl : zlen (der_header tag len) = zlen (tag_octets tag) + (1 + n))
      by (rewrite Hhd, zlen_app, zlen_cons; lia).
    apply (get_bytes_ret_inv _ _ (fun out => Element out tag _ _)) in H as (l & Hl' & Hll & ->); [|lia].
    assert (Hw : tag_octets tag ++ lb :: c' = der_header tag len ++ zdrop n c')
      by (rewrite Hhd, <- app_assoc; cbn [app]; rewrite ztake_zdrop; done).
    rewrite Hw in *.
    destruct (split_prefix _ _ _ _ len Hl') as (-> & Htk & Hr); [lia..|].
    exists tag, (ztake len (zdrop n c')). unfold der_element. rewrite Htk, Hhl.
    split_and!; [|f_equal; lia|lia..]. rewrite <- app_assoc, <- Hr. done.
Qed.

(** ** Elements with a known tag *)

Lemma skip_header tag contents :
  CBS_skip (zlen (der_header tag (zlen contents))) (der_element tag contents) = (Some tt, contents).
Proof. unfold CBS_skip, bind, der_element. rewrite cbs_get_app; done. Qed.

Lemma get_asn1_complete tag contents rest : 0 <= tag < 2 ^ 32 -> bytes_ok contents ->
  bytes_ok rest -> zlen contents < 2 ^ 32 ->
  zlen (der_element tag contents ++ rest) < 2 ^ 64 - 2 ^ 33 ->
  CBS_get_asn1 tag (der_element tag contents ++ rest) = (Some contents, rest).
Proof.
  intros. unfold CBS_get_asn1, cbs_get_asn1, bind at 1. rewrite get_element_complete by done.
  cbn [el_tag el_data el_header_len]. rewrite Z.eqb_refl. cbn [negb].
  unfold bind, on. rewrite skip_header. done.
Qed.

Lemma get_asn1_sound tag c out rest : bytes_ok c -> zlen c < 2 ^ 64 - 2 ^ 33 ->
  CBS_get_asn1 tag c = (Some out, rest) ->
  c = der_element tag out ++ rest /\ zlen out < 2 ^ 32.
Proof.
  intros Hc Hlen H. unfold CBS_get_asn1, cbs_get_asn1, bind at 1 in H.
  destruct (CBS_get_any_asn1_element c) as [[e|] r] eqn:E; [|done].
  apply get_element_sound in E as (t & contents & -> & -> & Ht & Hl); [|done..].
  cbn [el_tag el_data el_header_len] in H. destruct (Z.eqb_spec t tag) as [<-|]; [|done].
  cbn [negb] in H. unfold bind, on in H. rewrite skip_header in H. unfold ret in H. simp_eq. done.
Qed.

(** ** INTEGERs *)

Lemma valid_integer_minimal c : bytes_ok c ->
  CBS_is_valid_asn1_integer c = if minimal_int c then Some (128 <=? znth c 0) else None.
Proof.
  intros Hc. destruct c as [|a c]; [done|]. apply Forall_cons in Hc as [Ha Hc].
  assert (Hs : forall b, is_byte b -> (Z.land b 0x80 =? 0) = negb (128 <=? b)).
  { intros b Hb. destruct (length_byte_split b Hb) as [-> _]. rewrite Z.ltb_antisym. done. }
  cbn [CBS_is_valid_asn1_integer]. rewrite (Hs a), negb_involutive by done.
  destruct c as [|b c]; [done|]. apply Forall_cons in Hc as [Hb Hc]. cbn [minimal_int].
  rewrite (Hs b), negb_involutive, Z.ltb_antisym by done.
  destruct ((a =? 0) && negb (128 <=? b) || (a =? 255) && (128 <=? b)) eqn:E; done.
Qed.

Lemma asn1_uint64_loop_spec l out : bytes_ok l -> 0 <= out < 2 ^ 64 ->
  asn1_uint64_loop out l =
    let v := out * 256 ^ zlen l + be_val l in if v <? 2 ^ 64 then Some v else None.
Proof.
  revert out. induction l as [|b l IH]; intros out Hl Ho.
  - cbn. rewrite zlen_nil. unfold be_val. simpl. rewrite Z.mul_1_r, Z.add_0_r.
    destruct (Z.ltb_spec out (2 ^ 64)); [done|lia].
  - apply Forall_cons in Hl as [Hb Hl]. unfold is_byte in Hb. cbn [asn1_uint64_loop].
    pose proof (be_val_range l Hl). rewrite Z.shiftr_div_pow2 by lia.
    rewrite be_val_cons, zlen_cons, Z.pow_add_r by (pose proof (zlen_nonneg l); lia).
    change (256 ^ 1) with 256. cbv zeta. destruct (Z.eqb_spec (out / 2 ^ 56) 0) as [E|E]; cbn [negb].
    + assert (out < 2 ^ 56) by zarith.
      assert (Ev : Z.lor (u64 (Z.shiftl out 8)) b = out * 256 + b).
      { rewrite u64_small, lor_add by (rewrite ?Z.shiftl_mul_pow2; lia). lia. }
      rewrite Ev, IH by (done || lia). cbv zeta.
      replace (out * (256 * 256 ^ zlen l) + (b * 256 ^ zlen l + be_val l)) with
        ((out * 256 + b) * 256 ^ zlen l + be_val l) by ring. done.
    + assert (2 ^ 56 <= out) by zarith.
      match goal with |- _ = if ?x <? _ then _ else _ => destruct (Z.ltb_spec x (2 ^ 64)) end;
        [|done]. nia.
Qed.

Lemma tc_val_unsigned l : l <> [] -> (128 <=? znth l 0) = false -> tc_val l = be_val l.
Proof.
  destruct l as [|b l]; [done|]. change (znth (b :: l) 0) with b. cbn [tc_val]. intros _ H. bool_hyps.
  destruct (Z.ltb_spec b 128); [done|lia].
Qed.

Lemma get_asn1_contents_ok tag c out rest : bytes_ok c -> zlen c < 2 ^ 64 - 2 ^ 33 ->
  CBS_get_asn1 tag c = (Some out, rest) -> bytes_ok out.
Proof.
  intros Hc Hlen E. destruct (get_asn1_sound _ _ _ _ Hc Hlen E) as [-> _].
  unfold der_element in Hc. rewrite !Forall_app in Hc. tauto.
Qed.

(** The unsigned reader: exactly the minimal encodings of values below 2^64. *)
Lemma get_asn1_uint64_spec c : bytes_ok c -> zlen c < 2 ^ 64 - 2 ^ 33 ->
  CBS_get_asn1_uint64 c =
    match CBS_get_asn1 CBS_ASN1_INTEGER c with
    | (Some l, rest) =>
        (if minimal_int l && (0 <=? tc_val l) && (tc_val l <? 2 ^ 64) then Some (tc_val l) else None, rest)
    | (None, rest) => (None, rest)
    end.
Proof.
  intros Hc Hlen. unfold CBS_get_asn1_uint64, bind.
  destruct (CBS_get_asn1 CBS_ASN1_INTEGER c) as [[l|] rest] eqn:E; [|done].
  pose proof (get_asn1_contents_ok _ _ _ _ Hc Hlen E) as Hl.
  unfold CBS_is_unsigned_asn1_integer. rewrite valid_integer_minimal by done.
  destruct (minimal_int l) eqn:Em; [|done]. cbn [andb].
  assert (Hne : l <> []) by (destruct l; done).
  pose proof (tc_val_range l Hl Hne) as Hr. pose proof (be_val_range l Hl) as Hb.
  destruct (128 <=? znth l 0) eqn:En; cbn [negb].
  - assert (tc_val l < 0).
    { destruct l as [|b l']; [done|]. change (znth (b :: l') 0) with b in En. bool_hyps.
      unfold tc_val. destruct (Z.ltb_spec b 128); lia. }
    destruct (Z.leb_spec 0 (tc_val l)); [lia|]. done.
  - rewrite tc_val_unsigned by done. destruct (Z.leb_spec 0 (be_val l)); [|lia]. cbn [andb].
    unfold lift, CBS_data. rewrite asn1_uint64_loop_spec by (done || lia). done.
Qed.

(** *** The signed reader *)

Lemma le_val_rev l : le_val (rev l) = be_val l.
Proof.
  induction l as [|b l IH]; [done|]. cbn [rev]. rewrite le_val_app, IH, be_val_cons.
  unfold zlen. rewrite length_rev. cbn [le_val]. lia.
Qed.
Lemma le_val_replicate n f : le_val (replicate n f) * 255 = f * (256 ^ Z.of_nat n - 1).
Proof.
  induction n as [|n IH]; [simpl; lia|]. cbn [replicate le_val].
  rewrite Nat2Z.inj_succ, Z.pow_succ_r by lia. lia.
Qed.

Lemma sign_extend l : bytes_ok l -> l <> [] -> zlen l <= 8 ->
  s64 (le_val (zwrite 0 (rev l) (replicate 8 (if 128 <=? znth l 0 then 0xff else 0)))) = tc_val l.
Proof.
  intros Hl Hne H8. pose proof (be_val_range l Hl) as Hb. pose proof (tc_val_range l Hl Hne) as Hr.
  set (f := if 128 <=? znth l 0 then 0xff else 0).
  assert (Hrev : zlen (rev l) = zlen l) by (unfold zlen; rewrite length_rev; done).
  unfold zwrite. rewrite ztake_0, Hrev. cbn [app]. unfold zdrop. rewrite drop_replicate, le_val_app, le_val_rev, Hrev.
  pose proof (le_val_replicate (8 - Z.to_nat (0 + zlen l)) f) as Hf.
  assert (Hn : 256 ^ zlen l * 256 ^ Z.of_nat (8 - Z.to_nat (0 + zlen l)) = 2 ^ 64).
  { rewrite <- Z.pow_add_r by (pose proof (zlen_nonneg l); lia). change (2 ^ 64) with (256 ^ 8).
    f_equal. pose proof (zlen_nonneg l). lia. }
  assert (Hp : 256 ^ zlen l <= 2 ^ 64) by (change (2 ^ 64) with (256 ^ 8); apply Z.pow_le_mono_r; lia).
  unfold s64, signed. change (2 ^ (64 - 1)) with (2 ^ 63).
  destruct l as [|b l']; [done|]. unfold f in *. clear f.
  change (znth (b :: l') 0) with b in *. cbn [tc_val] in *.
  set (l := b :: l') in *. set (P := 256 ^ zlen l) in *.
  set (r := le_val (replicate _ _)) in *.
  destruct (Z.leb_spec 128 b), (Z.ltb_spec b 128); try lia.
  - assert (Hrr : P * r = 2 ^ 64 - P) by nia. rewrite Hrr.
    rewrite (Z.mod_small (be_val l + (2 ^ 64 - P))) by lia.
    destruct (Z.ltb_spec (be_val l + (2 ^ 64 - P)) (2 ^ 63)); [|lia].
    zarith.
  - assert (r = 0) as -> by lia. rewrite Z.mul_0_r, Z.add_0_r, Z.mod_small by lia.
    destruct (Z.ltb_spec (be_val l) (2 ^ 63)); [done|]. zarith.
Qed.

Lemma get_asn1_int64_spec c : bytes_ok c -> zlen c < 2 ^ 64 - 2 ^ 33 ->
  CBS_get_asn1_int64 c =
    match CBS_get_asn1 CBS_ASN1_INTEGER c with
    | (Some l, rest) => (if minimal_int l && (zlen l <=? 8) then Some (tc_val l) else None, rest)
    | (None, rest) => (None, rest)
    end.
Proof.
  intros Hc Hlen. unfold CBS_get_asn1_int64, bind.
  destruct (CBS_get_asn1 CBS_ASN1_INTEGER c) as [[l|] rest] eqn:E; [|done].
  pose proof (get_asn1_contents_ok _ _ _ _ Hc Hlen E) as Hl.
  rewrite valid_integer_minimal by done. destruct (minimal_int l) eqn:Em; [|done]. cbn [andb].
  unfold CBS_len. rewrite Z.gtb_ltb. destruct (Z.ltb_spec 8 (zlen l)), (Z.leb_spec (zlen l) 8); try lia; [done|].
  unfold ret. rewrite sign_extend; [done|done|destruct l; done|done].
Qed.

(** ** Properties *)

(** C5. The DER element parser accepts exactly the canonical encodings: it
    returns an element iff the input starts with the identifier, minimal length
    octets and contents of that element, and then stops right after it. *)
Theorem get_any_asn1_element_iff c e rest : bytes_ok c -> zlen c < 2 ^ 64 - 2 ^ 33 ->
  CBS_get_any_asn1_element c = (Some e, rest) <->
  exists tag contents, 0 <= tag < 2 ^ 32 /\ zlen contents < 2 ^ 32 /\
    c = der_element tag contents ++ rest /\
    e = Element (der_element tag contents) tag (zlen (der_header tag (zlen contents))) false.
Proof.
  intros Hc Hlen. split.
  - intros H. destruct (get_element_sound _ _ _ Hc Hlen H) as (tag & contents & ? & ? & ? & ?). eauto 6.
  - intros (tag & contents & Ht & Hcl & -> & ->).
    apply Forall_app in Hc as [He Hr]. apply get_element_complete; try done.
    unfold der_element in He. by apply Forall_app in He as [_ He].
Qed.

Definition der_sample : list Z := [0x30; 3; 2; 1; 5].
Lemma get_any_asn1_element_iff_witness :
  CBS_get_any_asn1_element (der_sample ++ [9]) =
    (Some (Element der_sample CBS_ASN1_SEQUENCE 2 false), [9]) <->
  exists tag contents, 0 <= tag < 2 ^ 32 /\ zlen contents < 2 ^ 32 /\
    der_sample ++ [9] = der_element tag contents ++ [9] /\
    Element der_sample CBS_ASN1_SEQUENCE 2 false =
      Element (der_element tag contents) tag (zlen (der_header tag (zlen contents))) false.
Proof.
  apply (get_any_asn1_element_iff (der_sample ++ [9]) (Element der_sample CBS_ASN1_SEQUENCE 2 false) [9]).
  - repeat constructor; discriminate.
  - reflexivity.
Defined.

Lemma der_integer_ok l : bytes_ok l -> zlen l <= 8 -> bytes_ok (der_element CBS_ASN1_INTEGER l).
Proof.
  intros Hl Hz. pose proof (zlen_nonneg l). unfold der_element. apply Forall_app; split; [|done].
  rewrite der_header_short by lia. change (tag_octets CBS_ASN1_INTEGER) with [2].
  apply Forall_app; split; repeat constructor; unfold is_byte; lia.
Qed.

Lemma get_asn1_int64_der v rest : - 2 ^ 63 <= v < 2 ^ 63 -> bytes_ok rest ->
  zlen (der_element CBS_ASN1_INTEGER (int_octets v) ++ rest) < 2 ^ 64 - 2 ^ 33 ->
  CBS_get_asn1_int64 (der_element CBS_ASN1_INTEGER (int_octets v) ++ rest) = (Some v, rest).
Proof.
  intros Hv Hr Hlen. destruct (int_octets_spec v Hv) as (H1 & H2 & H3 & H4).
  pose proof (int_octets_length v Hv).
  rewrite get_asn1_int64_spec; [|apply Forall_app; split; [apply der_integer_ok; done|done]|done].
  rewrite get_asn1_complete; [|done|done|done|lia|done].
  rewrite H2, H3. destruct (Z.leb_spec (zlen (int_octets v)) 8); [done|lia].
Qed.

(** C37. [CBS_get_asn1_int64] succeeds with [v] iff the input starts with the one
    DER INTEGER that denotes [v], for every value of [int64_t]. *)
Theorem get_asn1_int64_iff c v rest : bytes_ok c -> zlen c < 2 ^ 64 - 2 ^ 33 ->
  CBS_get_asn1_int64 c = (Some v, rest) <->
  - 2 ^ 63 <= v < 2 ^ 63 /\ c = der_element CBS_ASN1_INTEGER (int_octets v) ++ rest.
Proof.
  intros Hc Hlen. rewrite get_asn1_int64_spec by done. split.
  - destruct (CBS_get_asn1 CBS_ASN1_INTEGER c) as [[l|] r] eqn:E; [|done].
    pose proof (get_asn1_contents_ok _ _ _ _ Hc Hlen E) as Hl.
    apply get_asn1_sound in E as [-> _]; [|done..].
    destruct (minimal_int l) eqn:Em, (Z.leb_spec (zlen l) 8); try done. intros ?; simp_eq.
    destruct (int_octets_unique l Hl Em) as [Hv <-]; done.
  - intros [Hv ->]. rewrite <- get_asn1_int64_spec by done.
    apply get_asn1_int64_der; [done| |done]. by apply Forall_app in Hc as [_ ?].
Qed.

Lemma get_asn1_int64_iff_witness :
  CBS_get_asn1_int64 [2; 2; 0xff; 0x7f; 1] = (Some (-129), [1]) <->
  - 2 ^ 63 <= -129 < 2 ^ 63 /\
  [2; 2; 0xff; 0x7f; 1] = der_element CBS_ASN1_INTEGER (int_octets (-129)) ++ [1].
Proof.
  apply (get_asn1_int64_iff [2; 2; 0xff; 0x7f; 1] (-129) [1]).
  - repeat constructor; discriminate.
  - reflexivity.
Defined.

(** [CBS_get_asn1_uint64] succeeds with [v] iff the input starts with the
    one DER INTEGER that denotes [v], for every value of [uint64_t]: negative,
    padded and oversized INTEGERs are refused. *)
Lemma get_asn1_uint64_iff c v rest : bytes_ok c -> zlen c < 2 ^ 64 - 2 ^ 33 ->
  CBS_get_asn1_uint64 c = (Some v, rest) <->
  0 <= v < 2 ^ 64 /\ c = der_element CBS_ASN1_INTEGER (uint_octets v) ++ rest.
Proof.
  intros Hc Hlen. rewrite get_asn1_uint64_spec by done. split.
  - destruct (CBS_get_asn1 CBS_ASN1_INTEGER c) as [[l|] r] eqn:E; [|done].
    pose proof (get_asn1_contents_ok _ _ _ _ Hc Hlen E) as Hl.
    apply get_asn1_sound in E as [-> _]; [|done..].
    destruct (minimal_int l) eqn:Em, (Z.leb_spec 0 (tc_val l)), (Z.ltb_spec (tc_val l) (2 ^ 64));
      try done. intros ?; simp_eq. rewrite <- uint_octets_unique by done. done.
  - intros [Hv ->]. destruct (uint_octets_spec v Hv) as (H1 & H2 & H3 & H4).
    rewrite get_asn1_complete; [|done|done|by apply Forall_app in Hc as [_ ?]|lia|done].
    rewrite H2, H3. destruct (Z.leb_spec 0 v), (Z.ltb_spec v (2 ^ 64)); done || lia.
Qed.

Lemma get_asn1_uint64_iff_witness :
  CBS_get_asn1_uint64 [2; 2; 0; 0xff; 1] = (Some 255, [1]) <->
  0 <= 255 < 2 ^ 64 /\ [2; 2; 0; 0xff; 1] = der_element CBS_ASN1_INTEGER (uint_octets 255) ++ [1].
Proof.
  apply (get_asn1_uint64_iff [2; 2; 0; 0xff; 1] 255 [1]).
  - repeat constructor; discriminate.
  - reflexivity.
Defined.
