(* ===== verification/CBB.v ===== *)
(** * crypto/bytestring/cbb.c: the CBB writer.

    A tree of [CBB]s shares one [cbb_buffer_st]. The model is a store: the
    shared buffer and the [CBB] objects that point at it, named by their
    addresses ([positive]). [child] pointers are addresses, so that a child that
    was flushed or discarded is seen to have lost its [base]. *)

From S2P Require Import Prelude Mem DerSpec CBS.

(** ** State *)

Record cbb_buffer := Buffer {
  buf : list Z;          (** [cap] bytes, of which [b_len] are valid *)
  b_len : Z;
  b_cap : Z;
  can_resize : bool;
  b_error : bool }.

Record cbb := Cbb {
  c_base : bool;         (** [base != NULL] *)
  c_child : option positive;
  c_offset : Z;
  c_pending_len_len : Z;
  c_pending_is_asn1 : bool;
  c_is_child : bool }.

Record store := Store { s_base : option cbb_buffer; s_objs : gmap positive cbb }.

Definition set_buf (l : list Z) (b : cbb_buffer) : cbb_buffer :=
  Buffer l (b_len b) (b_cap b) (can_resize b) (b_error b).
Definition set_len (n : Z) (b : cbb_buffer) : cbb_buffer :=
  Buffer (buf b) n (b_cap b) (can_resize b) (b_error b).
Definition set_error (b : cbb_buffer) : cbb_buffer :=
  Buffer (buf b) (b_len b) (b_cap b) (can_resize b) true.

Definition zero_cbb : cbb := Cbb false None 0 0 false false.

(** ** Access to the store *)

Definition get_obj (h : positive) : M store cbb := fun s => (s_objs s !! h, s).
Definition put_obj (h : positive) (c : cbb) : M store unit := fun s =>
  (Some tt, Store (s_base s) (<[h := c]> (s_objs s))).
(** [cbb->base], [None] when NULL. *)
Definition base_of (c : cbb) (s : store) : option cbb_buffer :=
  if c_base c then s_base s else None.
Definition get_base (h : positive) : M store cbb_buffer := fun s =>
  match s_objs s !! h with
  | Some c => (base_of c s, s)
  | None => (None, s)
  end.
(** A call on [cbb->base] that fails when it is NULL. *)
Definition on_base {A} (h : positive) (m : M cbb_buffer A) : M store A := fun s =>
  match get_base h s with
  | (Some b, _) => let '(r, b') := m b in (r, Store (Some b') (s_objs s))
  | (None, _) => (None, s)
  end.
Definition base_error {A} : M store A := fun s =>
  (None, Store (set_error <$> s_base s) (s_objs s)).
(** [if (!m) goto err;] with [err: cbb->base->error = 1; return 0;]. *)
Definition or_error {A} (m : M store A) : M store A := fun s =>
  match m s with
  | (Some a, s') => (Some a, s')
  | (None, s') => base_error s'
  end.
(** The address of a new local variable. *)
Definition new_cbb : M store positive := fun s =>
  let h := fresh (dom (s_objs s)) in (Some h, Store (s_base s) (<[h := zero_cbb]> (s_objs s))).

Section cbb.
(** The C library's allocator: which sizes succeed, and the bytes of a new block. *)
Context (malloc_ok : Z -> bool) (uninit : nat -> Z).

Definition fresh_block (n : Z) : list Z := uninit <$> seq 0 (Z.to_nat n).

Definition CBB_zero (h : positive) : M store unit := put_obj h zero_cbb.

Definition cbb_init (h : positive) (b : list Z) (cap : Z) : M store unit := fun s =>
  if OPENSSL_malloc_ok malloc_ok 32 then
    (Some tt, Store (Some (Buffer b 0 cap true false))
                (<[h := Cbb true None 0 0 false false]> (s_objs s)))
  else (None, s).

Definition CBB_init (h : positive) (initial_capacity : Z) : M store unit :=
  CBB_zero h ;;
  let buf_ok := OPENSSL_malloc_ok malloc_ok initial_capacity in
  if (initial_capacity >? 0) && negb buf_ok then fail
  else cbb_init h (if buf_ok then fresh_block initial_capacity else []) initial_capacity.

Definition CBB_init_fixed (h : positive) (b : list Z) (len : Z) : M store unit :=
  CBB_zero h ;;
  cbb_init h b len ;;
  on_base h (fun b => (Some tt, Buffer (buf b) (b_len b) (b_cap b) false (b_error b))).

Definition CBB_cleanup (h : positive) : M store unit :=
  let* c := get_obj h in
  if c_is_child c then ret tt
  else
    put_obj h (Cbb false (c_child c) (c_offset c) (c_pending_len_len c)
                 (c_pending_is_asn1 c) (c_is_child c)).

(** Returns the offset [*out] points to. *)
Definition cbb_buffer_reserve (len : Z) : M cbb_buffer Z := fun base =>
  let newlen := size_t (b_len base + len) in
  if newlen <? b_len base then (None, set_error base)
  else if newlen >? b_cap base then
    let newcap := size_t (b_cap base * 2) in
    if negb (can_resize base) then (None, set_error base)
    else
      let newcap := if (newcap <? b_cap base) || (newcap <? newlen) then newlen else newcap in
      match OPENSSL_realloc malloc_ok (buf base) newcap (fresh_block newcap) with
      | None => (None, set_error base)
      | Some newbuf =>
          (Some (b_len base), Buffer newbuf (b_len base) newcap (can_resize base) (b_error base))
      end
  else (Some (b_len base), base).

Definition cbb_buffer_add (len : Z) : M cbb_buffer Z :=
  let* out := cbb_buffer_reserve len in
  let* base := getst in
  putst (set_len (size_t (b_len base + len)) base) ;;
  ret out.

(** [for (i = n - 1; i < n; i--) { buf[off + i] = v; v >>= 8; }] *)
Fixpoint write_u (n : nat) (off v : Z) (l : list Z) : list Z * Z :=
  match n with
  | O => (l, v)
  | S n' => write_u n' off (Z.shiftr v 8) (zwrite (off + Z.of_nat n') [u8 v] l)
  end.

Definition cbb_buffer_add_u (v : Z) (len_len : Z) : M cbb_buffer unit :=
  if len_len =? 0 then ret tt
  else
    let* off := cbb_buffer_add len_len in
    let* base := getst in
    let '(l, v) := write_u (Z.to_nat len_len) off v (buf base) in
    putst (set_buf l base) ;;
    if negb (v =? 0) then (fun base => (None, set_error base)) else ret tt.

(** The DER length forms: [len_len], [initial_length_byte] and the [len] that
    is still to be written; [None] when the length is too large. *)
Definition asn1_length_form (len : Z) : option (Z * Z * Z) :=
  if len >? 0xfffffffe then None
  else if len >? 0xffffff then Some (5, Z.lor 0x80 4, len)
  else if len >? 0xffff then Some (4, Z.lor 0x80 3, len)
  else if len >? 0xff then Some (3, Z.lor 0x80 2, len)
  else if len >? 0x7f then Some (2, Z.lor 0x80 1, len)
  else Some (1, u8 len, 0).

(** The ASN.1 part of [CBB_flush]: make room for the length octets and write
    the first one. Returns the updated [offset], [pending_len_len] and [len]. *)
Definition open_prefix (h : positive) (child : cbb) (child_start len : Z) : M store (Z * Z * Z) :=
  if c_pending_is_asn1 child then
    match asn1_length_form len with
    | None => base_error
    | Some (len_len, initial_length_byte, len) =>
        (if negb (len_len =? 1) then
           let extra_bytes := len_len - 1 in
           or_error (on_base h (cbb_buffer_add extra_bytes)) ;;
           on_base h (fun b => (Some tt,
             set_buf (zwrite (child_start + extra_bytes)
                        (ztake len (zdrop child_start (buf b))) (buf b)) b))
         else ret tt) ;;
        on_base h (fun b => (Some tt,
          set_buf (zwrite (c_offset child) [initial_length_byte] (buf b)) b)) ;;
        ret (c_offset child + 1, len_len - 1, len)
    end
  else ret (c_offset child, c_pending_len_len child, len).

(** The length loop and the unlinking of the child. *)
Definition close_child (h ch : positive) (child : cbb) (offset pending_len_len len : Z) : M store unit :=
  let* base := get_base h in
  let '(l, rest) := write_u (Z.to_nat pending_len_len) offset len (buf base) in
  on_base h (fun b => (Some tt, set_buf l b)) ;;
  if negb (rest =? 0) then base_error
  else
    put_obj ch (Cbb false (c_child child) offset pending_len_len
                  (c_pending_is_asn1 child) (c_is_child child)) ;;
    let* c := get_obj h in
    put_obj h (Cbb (c_base c) None (c_offset c) (c_pending_len_len c)
                 (c_pending_is_asn1 c) (c_is_child c)).

(** The part of [CBB_flush] after the child was flushed: [h] is the CBB, [ch]
    its child. *)
Definition flush_child (h ch : positive) (child_start : Z) : M store unit :=
  let* base := get_base h in
  let* child := get_obj ch in
  if (child_start <? c_offset child) || (b_len base <? child_start) then base_error
  else
    let len := size_t (b_len base - child_start) in
    let* '(offset, pending_len_len, len) := open_prefix h child child_start len in
    close_child h ch child offset pending_len_len len.

(** [CBB_flush] recurses along the [child] pointers. *)
Fixpoint CBB_flush_fuel (n : nat) (h : positive) : M store unit :=
  match n with
  | O => fail
  | S n' =>
      let* base := get_base h in
      if b_error base then fail
      else
        let* c := get_obj h in
        match c_child c with
        | None => ret tt
        | Some ch =>
            let* child := get_obj ch in
            if c_pending_len_len child =? 0 then ret tt
            else
              let child_start := size_t (c_offset child + c_pending_len_len child) in
              or_error (CBB_flush_fuel n' ch) ;;
              flush_child h ch child_start
        end
  end.
Definition CBB_flush (h : positive) : M store unit := fun s =>
  CBB_flush_fuel (S (size (s_objs s))) h s.

(** [*out_data] and [*out_len]; [null] is set when one of the output
    pointers is NULL. *)
Definition CBB_finish (h : positive) (null : bool) : M store (list Z) :=
  let* c := get_obj h in
  if c_is_child c then fail
  else
    CBB_flush h ;;
    let* base := get_base h in
    if can_resize base && null then fail
    else
      on_base h (fun b => (Some tt, set_buf [] b)) ;;
      CBB_cleanup h ;;
      ret (ztake (b_len base) (buf base)).

Definition CBB_len (h : positive) : M store Z :=
  let* c := get_obj h in
  let* base := get_base h in
  ret (size_t (b_len base - c_offset c - c_pending_len_len c)).

(** The [CBB_len] bytes at [CBB_data]. *)
Definition CBB_data (h : positive) : M store (list Z) :=
  let* c := get_obj h in
  let* base := get_base h in
  let* len := CBB_len h in
  ret (ztake len (zdrop (c_offset c + c_pending_len_len c) (buf base))).

(** [memset(out_contents, 0, ...)] and the initialisation that follows. *)
Definition start_child (h out_contents : positive) (offset pending : Z) (is_asn1 : bool) : M store unit :=
  put_obj out_contents (Cbb true None offset pending is_asn1 true) ;;
  let* c := get_obj h in
  put_obj h (Cbb (c_base c) (Some out_contents) (c_offset c) (c_pending_len_len c)
               (c_pending_is_asn1 c) (c_is_child c)).

Definition cbb_add_length_prefixed (h out_contents : positive) (len_len : Z) : M store unit :=
  CBB_flush h ;;
  let* base := get_base h in
  let offset := b_len base in
  let* prefix_bytes := on_base h (cbb_buffer_add len_len) in
  on_base h (fun b => (Some tt,
    set_buf (zwrite prefix_bytes (replicate (Z.to_nat len_len) 0) (buf b)) b)) ;;
  start_child h out_contents offset len_len false.

Definition CBB_add_u8_length_prefixed h out_contents := cbb_add_length_prefixed h out_contents 1.

Definition CBB_add_u16_length_prefixed h out_contents := cbb_add_length_prefixed h out_contents 2.

Definition CBB_add_u24_length_prefixed h out_contents := cbb_add_length_prefixed h out_contents 3.

Definition CBB_add_bytes (h : positive) (data : list Z) : M store unit :=
  CBB_flush h ;;
  let* dest := on_base h (cbb_buffer_add (zlen data)) in
  on_base h (fun b => (Some tt, set_buf (zwrite dest data (buf b)) b)).

(** Returns the offset [*out_data] points to. *)
Definition CBB_add_space (h : positive) (len : Z) : M store Z :=
  CBB_flush h ;;
  on_base h (cbb_buffer_add len).

Definition CBB_add_zeros (h : positive) (len : Z) : M store unit :=
  let* out := CBB_add_space h len in
  on_base h (fun b => (Some tt, set_buf (zwrite out (replicate (Z.to_nat len) 0) (buf b)) b)).

Definition CBB_reserve (h : positive) (len : Z) : M store Z :=
  CBB_flush h ;;
  on_base h (cbb_buffer_reserve len).

Definition CBB_did_write (h : positive) (len : Z) : M store unit :=
  let* c := get_obj h in
  let* base := get_base h in
  let newlen := size_t (b_len base + len) in
  if match c_child c with Some _ => true | None => false end ||
     (newlen <? b_len base) || (newlen >? b_cap base) then fail
  else on_base h (fun b => (Some tt, set_len newlen b)).

Definition cbb_add_u (h : positive) (value len_len : Z) : M store unit :=
  CBB_flush h ;;
  on_base h (cbb_buffer_add_u value len_len).

Definition CBB_add_u8 h value := cbb_add_u h value 1.

Definition CBB_add_u16 h value := cbb_add_u h value 2.

Definition CBB_add_u16le h value := CBB_add_u16 h (CRYPTO_bswap2 value).

Definition CBB_add_u24 h value := cbb_add_u h value 3.

Definition CBB_add_u32 h value := cbb_add_u h value 4.

Definition CBB_add_u32le h value := CBB_add_u32 h (CRYPTO_bswap4 value).

Definition CBB_add_u64 h value := cbb_add_u h value 8.

Definition CBB_add_u64le h value := CBB_add_u64 h (CRYPTO_bswap8 value).

(** [while (copy > 0) { len_len++; copy >>= 7; }]; ten iterations suffice for
    a [uint64_t]. *)
Fixpoint base128_len (n : nat) (copy : Z) : nat :=
  match n with
  | O => O
  | S n' => if copy >? 0 then S (base128_len n' (Z.shiftr copy 7)) else O
  end.

Fixpoint add_base128_loop (h : positive) (v : Z) (n : nat) : M store unit :=
  match n with
  | O => ret tt
  | S i =>
      let byte := Z.land (Z.shiftr v (7 * Z.of_nat i)) 0x7f in
      let byte := if negb (Nat.eqb i 0) then Z.lor byte 0x80 else byte in
      CBB_add_u8 h byte ;;
      add_base128_loop h v i
  end.

Definition add_base128_integer (h : positive) (v : Z) : M store unit :=
  let len_len := base128_len 10 v in
  let len_len := if Nat.eqb len_len 0 then 1%nat else len_len in
  add_base128_loop h v len_len.

Definition CBB_add_asn1 (h out_contents : positive) (tag : Z) : M store unit :=
  CBB_flush h ;;
  let tag_bits := Z.land (u8 (Z.shiftr tag CBS_ASN1_TAG_SHIFT)) 0xe0 in
  let tag_number := Z.land tag CBS_ASN1_TAG_NUMBER_MASK in
  (if tag_number >=? 0x1f then
     CBB_add_u8 h (Z.lor tag_bits 0x1f) ;;
     add_base128_integer h tag_number
   else CBB_add_u8 h (Z.lor tag_bits tag_number)) ;;
  let* base := get_base h in
  let offset := b_len base in
  CBB_add_u8 h 0 ;;
  start_child h out_contents offset 1 true.

Definition CBB_discard_child (h : positive) : M store unit :=
  let* c := get_obj h in
  match c_child c with
  | None => ret tt
  | Some ch =>
      let* child := get_obj ch in
      on_base h (fun b => (Some tt, set_len (c_offset child) b)) ;;
      put_obj ch (Cbb false (c_child child) (c_offset child) (c_pending_len_len child)
                    (c_pending_is_asn1 child) (c_is_child child)) ;;
      put_obj h (Cbb (c_base c) None (c_offset c) (c_pending_len_len c)
                   (c_pending_is_asn1 c) (c_is_child c))
  end.

(** The [for] loop of [CBB_add_asn1_uint64] over the remaining bytes. *)
Fixpoint add_uint64_loop (child : positive) (started : bool) (l : list Z) : M store bool :=
  match l with
  | [] => ret started
  | byte :: l' =>
      if negb started && (byte =? 0) then add_uint64_loop child false l'
      else
        (if negb started && negb (Z.land byte 0x80 =? 0) then CBB_add_u8 child 0 else ret tt) ;;
        CBB_add_u8 child byte ;;
        add_uint64_loop child true l'
  end.

Definition CBB_add_asn1_uint64 (h : positive) (value : Z) : M store unit :=
  let* child := new_cbb in
  CBB_add_asn1 h child CBS_ASN1_INTEGER ;;
  let bytes := (fun i => Z.land (Z.shiftr value (8 * (7 - i))) 0xff) <$> zseq 8 in
  let* started := add_uint64_loop child false bytes in
  (if negb started then CBB_add_u8 child 0 else ret tt) ;;
  CBB_flush h.

(** [while (start > 0 && bytes[start] == 0xff && (bytes[start-1] & 0x80)) start--;] *)
Fixpoint int64_start (bytes : list Z) (start : nat) : nat :=
  match start with
  | O => O
  | S p =>
      if (nth (S p) bytes 0 =? 0xff) && negb (Z.land (nth p bytes 0) 0x80 =? 0)
      then int64_start bytes p else start
  end.

Definition CBB_add_asn1_int64 (h : positive) (value : Z) : M store unit :=
  if value >=? 0 then CBB_add_asn1_uint64 h value
  else
    let bytes := le_bytes 8 (u64 value) in
    let start := int64_start bytes 7 in
    let* child := new_cbb in
    CBB_add_asn1 h child CBS_ASN1_INTEGER ;;
    mfor (CBB_add_u8 child) (rev (take (S start) bytes)) ;;
    CBB_flush h.

Definition CBB_add_asn1_octet_string (h : positive) (data : list Z) : M store unit :=
  let* child := new_cbb in
  CBB_add_asn1 h child CBS_ASN1_OCTETSTRING ;;
  CBB_add_bytes child data ;;
  CBB_flush h.

Definition CBB_add_asn1_bool (h : positive) (value : Z) : M store unit :=
  let* child := new_cbb in
  CBB_add_asn1 h child CBS_ASN1_BOOLEAN ;;
  CBB_add_u8 child (if negb (value =? 0) then 0xff else 0) ;;
  CBB_flush h.

(** *** SET OF *)

Definition compare_set_of_element (a b : cbs) : Z :=
  let a_len := CBS_len a in
  let b_len := CBS_len b in
  let min_len := if a_len <? b_len then a_len else b_len in
  let r := OPENSSL_memcmp (ztake min_len (CBS_data a)) (ztake min_len (CBS_data b)) in
  if negb (r =? 0) then r
  else if a_len =? b_len then 0
  else if a_len <? b_len then -1 else 1.

(** The C library's [qsort]; elements that compare equal are equal here. *)
Fixpoint qsort_insert (x : cbs) (l : list cbs) : list cbs :=
  match l with
  | [] => [x]
  | y :: l' => if compare_set_of_element x y <=? 0 then x :: l else y :: qsort_insert x l'
  end.
Definition qsort (l : list cbs) : list cbs := foldr qsort_insert [] l.

(** The elements of a CBS; an element is never empty, so one iteration per
    byte suffices. *)
Fixpoint set_of_elements (n : nat) (c : cbs) : option (list cbs) :=
  if CBS_len c =? 0 then Some []
  else match n with
       | O => None
       | S n' =>
           match CBS_get_any_asn1_element c with
           | (Some e, c') => cons (el_data e) <$> set_of_elements n' c'
           | (None, _) => None
           end
       end.

(** [sizeof(CBS)] is 16. *)
Definition CBB_flush_asn1_set_of (h : positive) : M store unit :=
  CBB_flush h ;;
  let* data := CBB_data h in
  match set_of_elements (length data) data with
  | None => fail
  | Some children =>
      let num_children := zlen children in
      if num_children <? 2 then ret tt
      else if num_children >? SIZE_MAX / 16 then fail
      else if match OPENSSL_memdup malloc_ok data with None => true | Some _ => false end
              || negb (OPENSSL_malloc_ok malloc_ok (num_children * 16)) then fail
      else
        let* c := get_obj h in
        on_base h (fun b => (Some tt, set_len (c_offset c + c_pending_len_len c) b)) ;;
        mfor (CBB_add_bytes h) (qsort children)
  end.
End cbb.

(** ** The buffer holds a list *)

(** [brep b l]: the valid bytes of [b] are [l] and no error has occurred. *)
Definition brep (b : cbb_buffer) (l : list Z) : Prop :=
  exists junk, buf b = l ++ junk /\ b_len b = zlen l /\ b_cap b = zlen l + zlen junk /\
    b_cap b < 2 ^ 64 /\ b_error b = false.

Section buffer.
Context (malloc_ok : Z -> bool) (uninit : nat -> Z).
Context (Hmalloc : forall n, 0 <= n < 2 ^ 63 -> malloc_ok n = true).

Lemma OPENSSL_malloc_small n : 0 <= n < 2 ^ 62 -> OPENSSL_malloc_ok malloc_ok n = true.
Proof using Hmalloc.
  apply malloc_ok_small. exact Hmalloc.
Qed.

Lemma zlen_fresh_block n : 0 <= n -> zlen (fresh_block uninit n) = n.
Proof. intros. unfold fresh_block, zlen. rewrite length_fmap, length_seq. lia. Qed.

(** [n] more bytes fit: within the capacity, or by a reallocation that the
    allocator grants. *)
Definition fits (b : cbb_buffer) (n : Z) : Prop :=
  b_len b + n <= b_cap b \/ (can_resize b = true /\ b_len b + n < 2 ^ 61).

Lemma reserve_ok b l n : brep b l -> 0 <= n -> fits b n ->
  exists b', cbb_buffer_reserve malloc_ok uninit n b = (Some (zlen l), b') /\ brep b' l /\
    zlen l + n <= b_cap b' /\ can_resize b' = can_resize b.
Proof using Hmalloc.
  intros (junk & Hb & Hl & Hc & H64 & He) Hn Hf. unfold cbb_buffer_reserve, fits in *.
  pose proof (zlen_nonneg l). pose proof (zlen_nonneg junk).
  rewrite size_t_small by lia. rewrite Hl in *.
  destruct (Z.ltb_spec (zlen l + n) (zlen l)); [lia|]. rewrite Z.gtb_ltb.
  destruct (Z.ltb_spec (b_cap b) (zlen l + n)) as [Hcap|Hcap].
  2:{ exists b. unfold brep. split_and!; [done| |lia|done]. eauto 6. }
  destruct Hf as [|[Hr Hlt]]; [lia|]. rewrite Hr. cbn [negb].
  rewrite (size_t_small (b_cap b * 2)) by lia.
  set (newcap := if _ || _ then _ else _).
  assert (Hnew : zlen l + n <= newcap /\ newcap <= 2 ^ 62 - 1).
  { unfold newcap. destruct (Z.ltb_spec (b_cap b * 2) (b_cap b)),
      (Z.ltb_spec (b_cap b * 2) (zlen l + n)); cbn [orb]; lia. }
  unfold OPENSSL_realloc. rewrite OPENSSL_malloc_small by lia.
  assert (Hz : zlen (buf b) = b_cap b) by (rewrite Hb, zlen_app; lia).
  rewrite Hz. destruct (Z.ltb_spec (b_cap b) newcap); [|lia].
  eexists. split; [done|]. cbn [can_resize b_cap]. split_and!; [|lia|done].
  exists (junk ++ zdrop (b_cap b) (fresh_block uninit newcap)). cbn [buf b_len b_cap b_error].
  rewrite ztake_all by lia. rewrite Hb, <- app_assoc. split_and!; [done..| |lia|done].
  rewrite zlen_app, zlen_zdrop, zlen_fresh_block by lia. lia.
Qed.

Lemma add_ok b l n : brep b l -> 0 <= n -> fits b n ->
  exists b' x, cbb_buffer_add malloc_ok uninit n b = (Some (zlen l), b') /\ zlen x = n /\
    brep b' (l ++ x) /\ can_resize b' = can_resize b.
Proof using Hmalloc.
  intros Hb Hn Hf. destruct (reserve_ok b l n Hb Hn Hf) as (b' & Hres & Hb' & Hcap & Hr).
  destruct Hb' as (junk & Hbuf & Hl & Hc & H64 & He).
  unfold cbb_buffer_add, bind. rewrite Hres. cbn.
  exists (set_len (size_t (b_len b' + n)) b'), (ztake n junk).
  pose proof (zlen_nonneg l).
  split_and!; [done|rewrite zlen_ztake; lia| |done].
  exists (zdrop n junk). cbn [set_len buf b_len b_cap b_error].
  rewrite size_t_small, !zlen_app, zlen_ztake, zlen_zdrop by lia.
  rewrite <- app_assoc, ztake_zdrop. split_and!; [done|lia|lia|done|done].
Qed.

(** Without room the call fails and poisons the buffer. *)
Lemma add_fail b l n : brep b l -> 0 <= n -> can_resize b = false -> b_cap b < b_len b + n ->
  b_len b + n < 2 ^ 64 ->
  cbb_buffer_add malloc_ok uninit n b = (None, set_error b).
Proof using.
  intros (junk & Hb & Hl & Hc & H64 & He) Hn Hr Hcap Hlt.
  pose proof (zlen_nonneg l). pose proof (zlen_nonneg junk).
  unfold cbb_buffer_add, bind, cbb_buffer_reserve. rewrite size_t_small by lia.
  destruct (Z.ltb_spec (b_len b + n) (b_len b)); [lia|]. rewrite Z.gtb_ltb.
  destruct (Z.ltb_spec (b_cap b) (b_len b + n)); [|lia]. rewrite Hr. done.
Qed.

Lemma brep_write b l x y : brep b (l ++ x) -> zlen y = zlen x ->
  brep (set_buf (zwrite (zlen l) y (buf b)) b) (l ++ y) /\
  can_resize (set_buf (zwrite (zlen l) y (buf b)) b) = can_resize b.
Proof.
  intros (junk & Hb & Hl & Hc & H64 & He) Hy. split; [|done]. exists junk.
  cbn [set_buf buf b_len b_cap b_error]. rewrite Hb, <- app_assoc, zwrite_mid by done.
  rewrite <- app_assoc. rewrite zlen_app in *. split_and!; [done|lia|lia|done|done].
Qed.

Lemma write_u_spec n off v a x z : off = zlen a -> length x = n ->
  write_u n off v (a ++ x ++ z) = (a ++ be_bytes n v ++ z, v / 256 ^ Z.of_nat n).
Proof.
  intros ->. revert v x z. induction n as [|n IH]; intros v x z Hx.
  - destruct x; [|done]. cbn. rewrite Z.div_1_r. done.
  - destruct x as [|y x _] using rev_ind; [done|].
    rewrite length_app, Nat.add_1_r in Hx. injection Hx as Hx.
    cbn [write_u be_bytes]. rewrite <- (app_assoc x), (app_assoc a x).
    rewrite zwrite_mid by (rewrite ?zlen_app; unfold zlen; simpl; lia).
    rewrite <- app_assoc, IH by done. rewrite <- app_assoc. cbn [app].
    rewrite Z.shiftr_div_pow2 by lia. change (2 ^ 8) with 256.
    rewrite Nat2Z.inj_succ, Z.pow_succ_r, <- Z.div_div by lia. done.
Qed.

Lemma add_u_ok b l v n : brep b l -> fits b (Z.of_nat n) -> 0 <= v < 256 ^ Z.of_nat n ->
  exists b', cbb_buffer_add_u malloc_ok uninit v (Z.of_nat n) b = (Some tt, b') /\
    brep b' (l ++ be_bytes n v) /\ can_resize b' = can_resize b.
Proof using Hmalloc.
  intros Hb Hf Hv. unfold cbb_buffer_add_u. destruct (Z.eqb_spec (Z.of_nat n) 0) as [E|E].
  { assert (n = O) as -> by lia. exists b. cbn. rewrite app_nil_r. done. }
  destruct (add_ok b l (Z.of_nat n)) as (b' & x & Ha & Hx & Hb' & Hr); [done|lia|done|].
  unfold bind. rewrite Ha. unfold getst. rewrite Nat2Z.id.
  destruct Hb' as (junk & Hbuf & Hrest).
  rewrite Hbuf, <- app_assoc, write_u_spec by (done || unfold zlen in Hx; lia).
  rewrite Z.div_small by lia. cbn [negb Z.eqb putst ret].
  eexists. split; [done|]. split; [|done]. exists junk.
  cbn [set_buf buf b_len b_cap b_error]. rewrite zlen_app, zlen_be_bytes, <- app_assoc in *.
  rewrite Hx in *. done.
Qed.
End buffer.

(** ** Writing through a CBB without pending children *)

Section writer.
Context (malloc_ok : Z -> bool) (uninit : nat -> Z).
Context (Hmalloc : forall n, 0 <= n < 2 ^ 63 -> malloc_ok n = true).

(** [h] is a live CBB with no child, at the end of a growable buffer that
    holds [l]. *)
Definition writable (s : store) (h : positive) (c : cbb) (l : list Z) : Prop :=
  s_objs s !! h = Some c /\ c_base c = true /\ c_child c = None /\
  exists b, s_base s = Some b /\ brep b l /\ can_resize b = true.

(** [m] appends [data] to the buffer through [h]; the CBB objects that existed
    before are as they were. *)
Definition appends (h : positive) (m : M store unit) (data : list Z) : Prop :=
  forall s c l, writable s h c l -> zlen l + zlen data < 2 ^ 60 ->
  exists s', m s = (Some tt, s') /\ writable s' h c (l ++ data) /\ s_objs s ⊆ s_objs s'.

Lemma writable_base s h c l : writable s h c l ->
  exists b, get_base h s = (Some b, s) /\ s_base s = Some b /\ brep b l /\ can_resize b = true.
Proof.
  intros (Ho & Hc & _ & b & Hb & Hr & Hcr). exists b.
  unfold get_base, base_of. rewrite Ho, Hc, Hb. done.
Qed.

(** A buffer operation that turns [l] into [l']. *)
Lemma on_base_ok {A} s h c l l' (m : M cbb_buffer A) a : writable s h c l ->
  (forall b, brep b l -> can_resize b = true ->
     exists b', m b = (Some a, b') /\ brep b' l' /\ can_resize b' = can_resize b) ->
  exists b', on_base h m s = (Some a, Store (Some b') (s_objs s)) /\
    writable (Store (Some b') (s_objs s)) h c l'.
Proof.
  intros Hw Hm. destruct (writable_base _ _ _ _ Hw) as (b & Hg & Hs & Hb & Hr).
  destruct (Hm b Hb Hr) as (b' & Hmb & Hb' & Hr'). exists b'.
  unfold on_base. rewrite Hg, Hmb. split; [done|].
  destruct Hw as (Ho & Hc & Hch & _). split_and!; try done. exists b'. split_and!; [done..|congruence].
Qed.

Lemma flush_writable s h c l : writable s h c l -> CBB_flush malloc_ok uninit h s = (Some tt, s).
Proof.
  intros Hw. destruct (writable_base _ _ _ _ Hw) as (b & Hg & _ & (junk & _ & _ & _ & _ & He) & _).
  destruct Hw as (Ho & _ & Hch & _).
  unfold CBB_flush. cbn [CBB_flush_fuel]. unfold bind. rewrite Hg, He.
  unfold get_obj. rewrite Ho, Hch. done.
Qed.

Lemma fits_small b l n : brep b l -> can_resize b = true -> zlen l + n < 2 ^ 60 -> fits b n.
Proof. intros (junk & _ & Hl & _) Hr Hn. right. rewrite Hl. split; [done|lia]. Qed.

Lemma appends_nil h : appends h (ret tt) [].
Proof. intros s c l Hw _. exists s. rewrite app_nil_r. done. Qed.

Lemma appends_seq h m1 m2 d1 d2 : appends h m1 d1 -> appends h m2 d2 ->
  appends h (m1 ;; m2) (d1 ++ d2).
Proof.
  intros H1 H2 s c l Hw Hl. rewrite zlen_app in Hl. pose proof (zlen_nonneg d2).
  destruct (H1 s c l Hw) as (s1 & E1 & Hw1 & Hs1); [lia|].
  destruct (H2 s1 c (l ++ d1) Hw1) as (s2 & E2 & Hw2 & Hs2); [rewrite zlen_app; lia|].
  exists s2. unfold bind. rewrite E1, E2. rewrite <- app_assoc in Hw2.
  split_and!; [done|done|]. by transitivity (s_objs s1).
Qed.

Lemma appends_flush h m d : appends h m d -> appends h (CBB_flush malloc_ok uninit h ;; m) d.
Proof.
  intros H s c l Hw Hl. unfold bind. rewrite (flush_writable _ _ _ _ Hw). eauto.
Qed.

(** An operation on the buffer alone. *)
Lemma appends_base h (m : M cbb_buffer unit) d :
  (forall b l, brep b l -> can_resize b = true -> zlen l + zlen d < 2 ^ 60 ->
     exists b', m b = (Some tt, b') /\ brep b' (l ++ d) /\ can_resize b' = can_resize b) ->
  appends h (on_base h m) d.
Proof.
  intros Hm s c l Hw Hl.
  destruct (on_base_ok s h c l (l ++ d) m tt Hw) as (b' & E & Hw'); [eauto|].
  exists (Store (Some b') (s_objs s)). done.
Qed.

Lemma appends_u h v n : 0 <= v < 256 ^ Z.of_nat n ->
  appends h (cbb_add_u malloc_ok uninit h v (Z.of_nat n)) (be_bytes n v).
Proof using Hmalloc.
  intros Hv. apply appends_flush, appends_base. intros b l Hb Hr Hl.
  rewrite zlen_be_bytes in Hl. apply add_u_ok; [done|done| |done]. by eapply fits_small.
Qed.

Lemma appends_u8 h v : is_byte v -> appends h (CBB_add_u8 malloc_ok uninit h v) [v].
Proof using Hmalloc.
  intros Hv. unfold is_byte in Hv. replace [v] with (be_bytes 1 v).
  - apply (appends_u h v 1). done.
  - cbn [be_bytes app]. rewrite Z.mod_small by done. done.
Qed.

(** A block is reserved and then overwritten with [data]. *)
Lemma add_then_write h data : appends h
  (let* dest := on_base h (cbb_buffer_add malloc_ok uninit (zlen data)) in
   on_base h (fun b => (Some tt, set_buf (zwrite dest data (buf b)) b))) data.
Proof using Hmalloc.
  intros s c l Hw Hl. destruct (writable_base _ _ _ _ Hw) as (b & Hg & Hs & Hb & Hr).
  pose proof (fits_small b l (zlen data) Hb Hr Hl) as Hf.
  destruct (add_ok malloc_ok uninit Hmalloc b l (zlen data) Hb (zlen_nonneg _) Hf)
    as (b' & x & Ha & Hx & Hb' & Hr').
  destruct (brep_write b' l x data Hb') as [Hb'' Hr'']; [done|].
  destruct Hw as (Ho & Hc & Hch & _).
  exists (Store (Some (set_buf (zwrite (zlen l) data (buf b')) b')) (s_objs s)).
  unfold bind, on_base. rewrite Hg, Ha. unfold get_base, base_of. cbn [s_objs s_base]. rewrite Ho, Hc.
  split_and!; [done| |done]. split_and!; [done..|].
  eexists. split_and!; [done|done|congruence].
Qed.

Lemma appends_bytes h data : appends h (CBB_add_bytes malloc_ok uninit h data) data.
Proof using Hmalloc. apply appends_flush, add_then_write. Qed.

Lemma appends_zeros h n : 0 <= n ->
  appends h (CBB_add_zeros malloc_ok uninit h n) (replicate (Z.to_nat n) 0).
Proof using Hmalloc.
  intros Hn s c l Hw Hl. unfold CBB_add_zeros, CBB_add_space, bind.
  rewrite (flush_writable _ _ _ _ Hw).
  destruct (add_then_write h (replicate (Z.to_nat n) 0) s c l Hw Hl) as (s' & E & H).
  exists s'. split; [|done]. unfold bind in E. rewrite zlen_replicate, Z2Nat.id in E by done. done.
Qed.

(** *** Base-128 integers *)

(** Digit [i] of [v] as the loop writes it. *)
Definition b128_digit (v : Z) (i : nat) : Z :=
  (v / 128 ^ Z.of_nat i) mod 128 + (if Nat.eqb i 0 then 0 else 128).

Lemma b128_digit_bits v i : 0 <= v ->
  (let byte := Z.land (Z.shiftr v (7 * Z.of_nat i)) 0x7f in
   if negb (Nat.eqb i 0) then Z.lor byte 0x80 else byte) = b128_digit v i.
Proof.
  intros Hv. unfold b128_digit. cbv zeta. rewrite Z.shiftr_div_pow2, Z.pow_mul_r by lia.
  change (2 ^ 7) with 128. set (d := v / _).
  change 0x7f with (2 ^ 7 - 1). rewrite land_mask by lia. change (2 ^ 7) with 128.
  destruct (Nat.eqb i 0); cbn [negb]; [lia|].
  assert (0 <= d mod 128 < 128) by zarith.
  byte_check (fun b => (128 <=? b) || (Z.lor b 0x80 =? b + 128)) (d mod 128) as Hor.
  bool_hyps. destruct Hor; bool_hyps; lia.
Qed.

Lemma b128_digit_byte v i : is_byte (b128_digit v i).
Proof. unfold b128_digit, is_byte. destruct (Nat.eqb i 0); zarith. Qed.

Lemma appends_base128_loop h v n : 0 <= v ->
  appends h (add_base128_loop malloc_ok uninit h v n) (b128_digit v <$> rev (seq 0 n)).
Proof using Hmalloc.
  intros Hv. induction n as [|n IH]; [apply appends_nil|].
  rewrite seq_S, rev_app_distr. cbn [add_base128_loop]. rewrite b128_digit_bits by done.
  apply (appends_seq h _ _ [b128_digit v n]); [|done].
  apply appends_u8, b128_digit_byte.
Qed.

Lemma b128_digit_shift v i : 0 <= v ->
  b128_digit v (S i) = 128 + (v / 128 / 128 ^ Z.of_nat i) mod 128.
Proof.
  intros Hv. unfold b128_digit. cbn [Nat.eqb].
  rewrite Nat2Z.inj_succ, Z.pow_succ_r, <- Z.div_div by lia. lia.
Qed.

Lemma b128_hi_digits n v : 0 <= v ->
  b128_hi n v = (fun i => 128 + (v / 128 ^ Z.of_nat i) mod 128) <$> rev (seq 0 (base128_len n v)).
Proof.
  revert v. induction n as [|n IH]; intros v Hv; [done|]. cbn [b128_hi base128_len].
  rewrite Z.gtb_ltb. destruct (Z.eqb_spec v 0), (Z.ltb_spec 0 v); try lia; [done|].
  rewrite Z.shiftr_div_pow2 by lia. change (2 ^ 7) with 128.
  rewrite IH by zarith. cbn [seq rev]. rewrite <- seq_shift, <- map_rev, fmap_app.
  f_equal; [|cbn; rewrite Z.div_1_r; done].
  rewrite <- list_fmap_compose. apply list_fmap_ext. intros _ i _. cbn [compose].
  rewrite Nat2Z.inj_succ, Z.pow_succ_r, <- Z.div_div by lia. done.
Qed.

Lemma appends_base128 h v : 0 <= v < 2 ^ 64 ->
  appends h (add_base128_integer malloc_ok uninit h v) (base128 v).
Proof using Hmalloc.
  intros Hv. unfold add_base128_integer.
  assert (E : base128 v = b128_digit v <$> rev (seq 0 (S (base128_len 9 (v / 128))))).
  { cbn [seq rev]. unfold base128. rewrite b128_hi_digits by zarith.
    rewrite fmap_app, <- seq_shift, <- map_rev. f_equal.
    - rewrite <- list_fmap_compose. apply list_fmap_ext. intros _ i _. cbn [compose].
      rewrite b128_digit_shift by lia. done.
    - cbn. unfold b128_digit. cbn. rewrite Z.div_1_r, Z.add_0_r. done. }
  rewrite E. replace (if Nat.eqb (base128_len 10 v) 0 then _ else _) with (S (base128_len 9 (v / 128))).
  - apply appends_base128_loop. lia.
  - change (base128_len 10 v) with (if v >? 0 then S (base128_len 9 (Z.shiftr v 7)) else O).
    rewrite Z.gtb_ltb, Z.shiftr_div_pow2 by lia. change (2 ^ 7) with 128.
    destruct (Z.ltb_spec 0 v); [done|]. assert (v = 0) as -> by lia. done.
Qed.

(** *** Closing a child *)

Definition with_child (ch : option positive) (c : cbb) : cbb :=
  Cbb (c_base c) ch (c_offset c) (c_pending_len_len c) (c_pending_is_asn1 c) (c_is_child c).

Lemma get_base_at h c b objs : objs !! h = Some c -> c_base c = true ->
  get_base h (Store (Some b) objs) = (Some b, Store (Some b) objs).
Proof. intros Ho Hc. unfold get_base, base_of. cbn [s_objs s_base]. rewrite Ho, Hc. done. Qed.

Lemma on_base_at {A} h c b objs (m : M cbb_buffer A) : objs !! h = Some c -> c_base c = true ->
  on_base h m (Store (Some b) objs) = let '(r, b') := m b in (r, Store (Some b') objs).
Proof. intros Ho Hc. unfold on_base. rewrite (get_base_at h c) by done. done. Qed.

Lemma get_obj_at h c b objs : objs !! h = Some c ->
  get_obj h (Store b objs) = (Some c, Store b objs).
Proof. intros Ho. unfold get_obj. cbn [s_objs]. rewrite Ho. done. Qed.

Lemma asn1_length_form_spec len : 0 <= len <= 0xfffffffe ->
  asn1_length_form len =
    if len <? 128 then Some (1, len, 0)
    else Some (Z.of_nat (length_size len) + 1, 128 + Z.of_nat (length_size len), len).
Proof.
  intros H. unfold asn1_length_form, length_size. rewrite !Z.gtb_ltb.
  repeat (case_match; bool_hyps; try lia; try done).
  rewrite u8_small by lia. done.
Qed.

(** [memmove] by [n] inside the valid bytes. *)
Lemma zwrite_shift (p data x junk : list Z) n : zlen x = n ->
  exists y, zlen y = n /\
  zwrite (zlen p + n) (ztake (zlen data) (zdrop (zlen p) (p ++ (data ++ x) ++ junk)))
    (p ++ (data ++ x) ++ junk) = p ++ y ++ data ++ junk.
Proof.
  intros Hx. pose proof (zlen_nonneg x). pose proof (zlen_nonneg data).
  rewrite zdrop_app by done. rewrite <- app_assoc, ztake_app by done.
  rewrite (app_assoc data x). exists (ztake n (data ++ x)).
  assert (Hy : zlen (ztake n (data ++ x)) = n) by (rewrite zlen_ztake, zlen_app; lia).
  split; [done|]. rewrite <- (ztake_zdrop n (data ++ x)) at 1.
  rewrite <- (app_assoc (ztake n _)), (app_assoc p).
  rewrite zwrite_mid by (rewrite ?zlen_zdrop, ?zlen_app, ?Hy; lia).
  rewrite <- app_assoc. done.
Qed.

Section closing.
Context (h ch : positive) (c cc : cbb) (objs : gmap positive cbb) (p data : list Z).
Context (Hne : h <> ch) (Hh : objs !! h = Some (with_child (Some ch) c))
  (Hch : objs !! ch = Some cc) (Hc : c_base c = true) (Hnone : c_child c = None)
  (Hoff : c_offset cc = zlen p).

Let objs' (off pend : Z) : gmap positive cbb :=
  <[h := c]> (<[ch := Cbb false (c_child cc) off pend (c_pending_is_asn1 cc) (c_is_child cc)]> objs).

Lemma close_child_ok b off pend len l :
  write_u (Z.to_nat pend) off len (buf b) = (l, 0) ->
  close_child h ch cc off pend len (Store (Some b) objs) =
    (Some tt, Store (Some (set_buf l b)) (objs' off pend)).
Proof using All.
  intros Hw. unfold close_child, bind. rewrite (get_base_at h _ _ _ Hh) by done.
  rewrite Hw. rewrite (on_base_at h _ _ _ _ Hh) by done.
  cbn [Z.eqb negb]. unfold put_obj, get_obj. cbn [s_objs s_base].
  rewrite lookup_insert_ne by done. rewrite Hh. unfold objs'. do 4 f_equal.
  destruct c; cbn in *; subst; done.
Qed.

(** A length that does not fit its prefix poisons the buffer. *)
Lemma close_child_overflow b off pend len l r :
  write_u (Z.to_nat pend) off len (buf b) = (l, r) -> r <> 0 ->
  close_child h ch cc off pend len (Store (Some b) objs) =
    (None, Store (Some (set_error (set_buf l b))) objs).
Proof using All.
  intros Hw Hr. unfold close_child, bind. rewrite (get_base_at h _ _ _ Hh) by done.
  rewrite Hw. rewrite (on_base_at h _ _ _ _ Hh) by done.
  destruct (Z.eqb_spec r 0); [done|]. done.
Qed.

(** The long form: [n] bytes of room are made after the placeholder byte. *)
Lemma open_prefix_long b n ib : c_pending_is_asn1 cc = true -> 0 <= n -> n <> 0 ->
  asn1_length_form (zlen data) = Some (n + 1, ib, zlen data) ->
  brep b (p ++ [0] ++ data) -> can_resize b = true -> zlen p + 1 + zlen data + n < 2 ^ 61 ->
  exists b' y, open_prefix malloc_ok uninit h cc (zlen p + 1) (zlen data) (Store (Some b) objs) =
    (Some (zlen p + 1, n, zlen data), Store (Some b') objs) /\ zlen y = n /\
    brep b' (p ++ [ib] ++ y ++ data) /\ can_resize b' = true.
Proof using All.
  intros Hasn Hn Hn0 Hform Hb Hr Hlen. rewrite app_assoc in Hb.
  destruct (add_ok malloc_ok uninit Hmalloc b _ n Hb Hn) as (b1 & x & Ha & Hx & Hb1 & Hr1).
  { right. split; [done|]. destruct Hb as (junk & _ & Hl & _). rewrite Hl, !zlen_app, zlen_cons, zlen_nil. lia. }
  unfold open_prefix. rewrite Hasn, Hform.
  replace (n + 1 =? 1) with false by (symmetry; apply Z.eqb_neq; lia). cbn [negb].
  replace (n + 1 - 1) with n by lia.
  unfold bind, or_error, ret. rewrite (on_base_at h _ _ _ _ Hh), Ha by done.
  rewrite (on_base_at h _ _ _ _ Hh) by done. rewrite (on_base_at h _ _ _ _ Hh) by done. rewrite Hoff.
  destruct Hb1 as (junk & Hbuf & Hl1 & Hc1 & H641 & He1).
  assert (Hp1 : zlen (p ++ [0]) = zlen p + 1) by (rewrite zlen_app, zlen_cons, zlen_nil; lia).
  rewrite <- !app_assoc in Hbuf. rewrite (app_assoc p [0]), (app_assoc data x) in Hbuf.
  destruct (zwrite_shift (p ++ [0]) data x junk n Hx) as (y & Hy & Hw). rewrite Hp1 in Hw.
  eexists _, y. split; [rewrite Hbuf, Hw; done|]. split; [done|]. split; [|cbn; congruence].
  exists junk. cbn [set_buf buf b_len b_cap b_error]. rewrite <- !app_assoc.
  rewrite zwrite_mid by done. rewrite !zlen_app, !zlen_cons, !zlen_nil in *.
  rewrite Hx, Hy in *. split_and!; [done|lia|lia|done|done].
Qed.

(** An ASN.1 child: the placeholder byte is replaced by the length octets. *)
Lemma flush_child_asn1 b : c_pending_is_asn1 cc = true -> brep b (p ++ [0] ++ data) ->
  can_resize b = true -> zlen data <= 0xfffffffe -> zlen p + zlen data < 2 ^ 60 ->
  exists b' off pend, flush_child malloc_ok uninit h ch (zlen p + 1) (Store (Some b) objs) =
    (Some tt, Store (Some b') (objs' off pend)) /\
    brep b' (p ++ length_octets (zlen data) ++ data) /\ can_resize b' = true.
Proof using All.
  intros Hasn Hb Hr Hd Hlen. pose proof (zlen_nonneg p). pose proof (zlen_nonneg data).
  assert (Hbl : b_len b = zlen p + 1 + zlen data).
  { destruct Hb as (junk & _ & Hl & _). rewrite Hl, !zlen_app, zlen_cons, zlen_nil. lia. }
  unfold flush_child. unfold bind at 1. rewrite (get_base_at h _ _ _ Hh) by done.
  unfold bind at 1. rewrite (get_obj_at ch _ _ _ Hch), Hoff, Hbl.
  destruct (Z.ltb_spec (zlen p + 1) (zlen p)), (Z.ltb_spec (zlen p + 1 + zlen data) (zlen p + 1));
    try lia. cbn [orb]. replace (zlen p + 1 + zlen data - (zlen p + 1)) with (zlen data) by lia.
  rewrite size_t_small by lia. unfold bind, length_octets.
  destruct (Z.ltb_spec (zlen data) 128) as [Hs|Hl].
  - unfold open_prefix. rewrite Hasn, asn1_length_form_spec by lia.
    destruct (Z.ltb_spec (zlen data) 128); [|lia]. cbn [Z.eqb Pos.eqb negb]. unfold bind, ret.
    rewrite (on_base_at h _ _ _ _ Hh), Hoff by done.
    erewrite close_child_ok; [|reflexivity]. eexists _, _, _. split; [done|].
    rewrite app_assoc in Hb |- *. destruct Hb as (junk & Hbuf & Hb). split; [|done].
    exists junk. cbn [set_buf buf b_len b_cap b_error]. rewrite Hbuf, <- !app_assoc, zwrite_mid by done.
    rewrite !zlen_app, !zlen_cons in *. destruct_and!; split_and!; done || lia.
  - pose proof (length_size_range (zlen data)) as Hn. set (n := length_size (zlen data)) in *.
    destruct (open_prefix_long b (Z.of_nat n) (128 + Z.of_nat n)) as (b' & y & Ho & Hy & Hb' & Hr');
      [done|lia|lia| |done|done|lia|].
    { rewrite asn1_length_form_spec by lia. destruct (Z.ltb_spec (zlen data) 128); [lia|done]. }
    rewrite Ho. destruct Hb' as (junk & Hbuf & Hb').
    rewrite (close_child_ok _ _ _ _ (p ++ [128 + Z.of_nat n] ++ be_bytes n (zlen data) ++ data ++ junk)).
    + eexists _, _, _. split; [done|]. split; [|done]. exists junk.
      cbn [set_buf buf b_len b_cap b_error app]. autorewrite with zlen in *.
      rewrite <- !app_assoc. cbn [app]. rewrite <- !app_assoc. destruct_and!; split_and!; done || lia.
    + rewrite Hbuf, Nat2Z.id. rewrite <- !app_assoc, (app_assoc p).
      rewrite write_u_spec by (rewrite ?zlen_app, ?zlen_cons, ?zlen_nil; unfold zlen in *; lia).
      rewrite <- app_assoc. f_equal. apply Z.div_small. pose proof (length_size_bound (zlen data)).
      unfold n. lia.
Qed.

(** A child with an [n]-byte length prefix. *)
Lemma flush_child_prefixed b n x : c_pending_is_asn1 cc = false ->
  c_pending_len_len cc = Z.of_nat n -> zlen x = Z.of_nat n -> brep b (p ++ x ++ data) ->
  can_resize b = true ->
  zlen p + Z.of_nat n + zlen data < 2 ^ 60 ->
  exists b' objs2, flush_child malloc_ok uninit h ch (zlen p + Z.of_nat n) (Store (Some b) objs) =
    (if zlen data <? 256 ^ Z.of_nat n then Some tt else None, Store (Some b') objs2) /\
  (if zlen data <? 256 ^ Z.of_nat n
   then brep b' (p ++ be_bytes n (zlen data) ++ data) /\ can_resize b' = true /\
        objs2 = objs' (zlen p) (Z.of_nat n)
   else b_error b' = true).
Proof using All.
  intros Hasn Hpend Hx Hb Hr Hlen. pose proof (zlen_nonneg p). pose proof (zlen_nonneg data).
  destruct Hb as (junk & Hbuf & Hb). autorewrite with zlen in Hb. destruct_and!.
  unfold flush_child. unfold bind at 1. rewrite (get_base_at h _ _ _ Hh) by done.
  unfold bind at 1. rewrite (get_obj_at ch _ _ _ Hch), Hoff.
  destruct (Z.ltb_spec (zlen p + Z.of_nat n) (zlen p)),
    (Z.ltb_spec (b_len b) (zlen p + Z.of_nat n)); try lia. cbn [orb].
  replace (b_len b - (zlen p + Z.of_nat n)) with (zlen data) by lia.
  rewrite size_t_small by lia. unfold bind, open_prefix. rewrite Hasn, Hpend, Hoff. unfold ret.
  assert (Hw : write_u (Z.to_nat (Z.of_nat n)) (zlen p) (zlen data) (buf b) =
    (p ++ be_bytes n (zlen data) ++ data ++ junk, zlen data / 256 ^ Z.of_nat n)).
  { rewrite Hbuf, Nat2Z.id, <- !app_assoc. apply write_u_spec; [done|]. unfold zlen in Hx. lia. }
  destruct (Z.ltb_spec (zlen data) (256 ^ Z.of_nat n)).
  - rewrite Z.div_small in Hw by lia. rewrite (close_child_ok _ _ _ _ _ Hw).
    eexists _, _. split; [done|]. split_and!; [|done..]. exists junk.
    cbn [set_buf buf b_len b_cap b_error]. rewrite <- !app_assoc. autorewrite with zlen.
    split_and!; done || lia.
  - erewrite close_child_overflow; [|done|].
    + eexists _, _. split; done.
    + enough (1 <= zlen data / 256 ^ Z.of_nat n) by lia. apply Z.div_le_lower_bound; lia.
Qed.
End closing.

(** [CBB_flush] on a CBB with one childless child. *)
Lemma flush_one_child h ch c cc b objs l :
  objs !! h = Some (with_child (Some ch) c) -> c_base c = true ->
  writable (Store (Some b) objs) ch cc l -> can_resize b = true ->
  c_pending_len_len cc <> 0 ->
  CBB_flush malloc_ok uninit h (Store (Some b) objs) =
    flush_child malloc_ok uninit h ch (size_t (c_offset cc + c_pending_len_len cc)) (Store (Some b) objs).
Proof.
  intros Hh Hc Hw Hr Hp. pose proof Hw as (Ho & Hcb & Hcc & b' & Hb' & (junk & _ & _ & _ & _ & He) & _).
  injection Hb' as <-. unfold CBB_flush. cbn [s_objs].
  destruct (size objs) as [|n] eqn:En.
  { apply map_size_empty_inv in En. subst. rewrite lookup_empty in Hh. done. }
  cbn [CBB_flush_fuel]. unfold bind at 1. rewrite (get_base_at h _ _ _ Hh) by done. rewrite He.
  unfold bind at 1. rewrite (get_obj_at h _ _ _ Hh). cbn [with_child c_child].
  unfold bind at 1. cbn [s_objs] in Ho. rewrite (get_obj_at ch _ _ _ Ho).
  destruct (Z.eqb_spec (c_pending_len_len cc) 0); [done|].
  unfold bind at 1, or_error. unfold bind at 1. rewrite (get_base_at ch _ _ _ Ho) by done. rewrite He.
  unfold bind at 1. rewrite (get_obj_at ch _ _ _ Ho), Hcc. done.
Qed.

(** *** Elements *)

Lemma tag_bits_spec tag : 0 <= tag < 2 ^ 32 ->
  Z.land (u8 (Z.shiftr tag CBS_ASN1_TAG_SHIFT)) 0xe0 = tag / 2 ^ 29 * 32 /\
  Z.land tag CBS_ASN1_TAG_NUMBER_MASK = tag mod 2 ^ 29.
Proof.
  intros Ht. split; [|apply (land_mask 29); lia].
  rewrite Z.shiftr_div_pow2 by done. unfold CBS_ASN1_TAG_SHIFT.
  assert (0 <= tag / 2 ^ 24 < 256) by zarith. rewrite u8_small by done.
  destruct (tag_byte_split (tag / 2 ^ 24)) as [-> _]; [done|]. zarith.
Qed.

Lemma tag_octet_or bits n : is_byte bits -> bits mod 32 = 0 -> 0 <= n < 32 -> Z.lor bits n = bits + n.
Proof.
  intros Hb Hm Hn. unfold is_byte in Hb. replace bits with (bits / 32 * 32) by zarith.
  apply (lor_add_mul 5); lia.
Qed.

Lemma appends_tag h tag : 0 <= tag < 2 ^ 32 ->
  appends h
    (let tag_bits := Z.land (u8 (Z.shiftr tag CBS_ASN1_TAG_SHIFT)) 0xe0 in
     let tag_number := Z.land tag CBS_ASN1_TAG_NUMBER_MASK in
     if tag_number >=? 0x1f then
       CBB_add_u8 malloc_ok uninit h (Z.lor tag_bits 0x1f) ;;
       add_base128_integer malloc_ok uninit h tag_number
     else CBB_add_u8 malloc_ok uninit h (Z.lor tag_bits tag_number)) (tag_octets tag).
Proof using Hmalloc.
  intros Ht. destruct (tag_bits_spec tag Ht) as [-> ->]. cbv zeta. unfold tag_octets.
  assert (Hby : is_byte (tag / 2 ^ 29 * 32)) by (unfold is_byte; zarith).
  rewrite Z.geb_leb, Z.leb_antisym. change 0x1f with 31.
  destruct (Z.ltb_spec (tag mod 2 ^ 29) 31); cbn [negb].
  - rewrite tag_octet_or by (done || zarith). apply appends_u8. unfold is_byte. zarith.
  - rewrite tag_octet_or by (done || zarith).
    apply (appends_seq h _ _ [_]); [apply appends_u8; unfold is_byte; zarith|].
    apply appends_base128. zarith.
Qed.

(** [s2] is [s] with a child [ch] opened under [h]. *)
Definition child_open (s s2 : store) (h ch : positive) (c cc : cbb) (l : list Z) : Prop :=
  h <> ch /\ s_objs s !! ch = None /\ writable s2 ch cc l /\
  s_objs s2 !! h = Some (with_child (Some ch) c) /\
  forall k x, k <> h -> s_objs s !! k = Some x -> s_objs s2 !! k = Some x.

Lemma new_cbb_ok s h c l : writable s h c l ->
  exists ch s1, new_cbb s = (Some ch, s1) /\ h <> ch /\ s_objs s !! ch = None /\
    writable s1 h c l /\ s_objs s ⊆ s_objs s1.
Proof.
  intros (Ho & Hc & Hch & Hb). exists (fresh (dom (s_objs s))). eexists. split; [done|].
  assert (Hf : s_objs s !! fresh (dom (s_objs s)) = None)
    by (apply not_elem_of_dom, is_fresh).
  assert (Hne : h <> fresh (dom (s_objs s))) by congruence.
  split_and!; [done|done| |by apply insert_subseteq].
  split_and!; [cbn; rewrite lookup_insert_ne by done; done|done..].
Qed.

Lemma start_child_ok s s1 h ch c l off pend isa : h <> ch -> s_objs s !! ch = None ->
  s_objs s ⊆ s_objs s1 -> writable s1 h c l ->
  exists s2, start_child h ch off pend isa s1 = (Some tt, s2) /\
    child_open s s2 h ch c (Cbb true None off pend isa true) l.
Proof.
  intros Hne Hnone Hsub (Ho & Hc & Hch & Hb). unfold start_child, bind, put_obj, get_obj.
  cbn [s_objs s_base]. rewrite lookup_insert_ne, Ho by done.
  eexists. split; [done|]. split_and!; [done|done| | |].
  - split_and!; [cbn; by rewrite lookup_insert_ne, lookup_insert_eq by done|done..].
  - cbn. by rewrite lookup_insert_eq.
  - intros k x Hk Hx. cbn. rewrite lookup_insert_ne by done.
    destruct (decide (k = ch)) as [->|]; [congruence|]. rewrite lookup_insert_ne by done.
    eapply lookup_weaken; done.
Qed.

Lemma add_asn1_ok s h c l ch tag s1 : 0 <= tag < 2 ^ 32 -> zlen l + zlen (tag_octets tag) + 1 < 2 ^ 60 ->
  h <> ch -> s_objs s !! ch = None -> s_objs s ⊆ s_objs s1 -> writable s1 h c l ->
  exists s2, CBB_add_asn1 malloc_ok uninit h ch tag s1 = (Some tt, s2) /\
    child_open s s2 h ch c (Cbb true None (zlen (l ++ tag_octets tag)) 1 true true)
      ((l ++ tag_octets tag) ++ [0]).
Proof using Hmalloc.
  intros Ht Hlen Hne Hnone Hsub Hw. unfold CBB_add_asn1, bind at 1.
  rewrite (flush_writable _ _ _ _ Hw). cbv zeta.
  destruct (appends_tag h tag Ht s1 c l Hw) as (s2 & E & Hw2 & Hs2); [lia|].
  cbv zeta in E. unfold bind at 1. rewrite E.
  destruct (writable_base _ _ _ _ Hw2) as (b & Hg & _ & Hb & _). unfold bind at 1. rewrite Hg.
  assert (Hl : b_len b = zlen (l ++ tag_octets tag)) by (destruct Hb as (? & _ & ? & _); done).
  rewrite Hl. destruct (appends_u8 h 0 ltac:(done) s2 c _ Hw2) as (s3 & E3 & Hw3 & Hs3).
  { autorewrite with zlen. lia. }
  unfold bind at 1. rewrite E3.
  destruct (start_child_ok s s3 h ch c ((l ++ tag_octets tag) ++ [0]) (zlen (l ++ tag_octets tag)) 1 true Hne Hnone) as (s4 & E4 & H4);
    [|done|].
  - etransitivity; [done|]. by etransitivity.
  - exists s4. done.
Qed.

Lemma add_length_prefixed_ok s h c l ch n s1 : zlen l + Z.of_nat n < 2 ^ 60 ->
  h <> ch -> s_objs s !! ch = None -> s_objs s ⊆ s_objs s1 -> writable s1 h c l ->
  exists s2, cbb_add_length_prefixed malloc_ok uninit h ch (Z.of_nat n) s1 = (Some tt, s2) /\
    child_open s s2 h ch c (Cbb true None (zlen l) (Z.of_nat n) false true) (l ++ replicate n 0).
Proof using Hmalloc.
  intros Hlen Hne Hnone Hsub Hw. unfold cbb_add_length_prefixed, bind at 1.
  rewrite (flush_writable _ _ _ _ Hw).
  destruct (writable_base _ _ _ _ Hw) as (b & Hg & _ & Hb & _). unfold bind at 1. rewrite Hg.
  assert (Hl : b_len b = zlen l) by (destruct Hb as (? & _ & ? & _); done). rewrite Hl.
  destruct (add_then_write h (replicate n 0) s1 c l Hw) as (s2 & E & Hw2 & Hs2).
  { rewrite zlen_replicate. lia. }
  rewrite zlen_replicate in E. unfold bind in E. unfold bind at 1 2.
  destruct (on_base h (cbb_buffer_add malloc_ok uninit (Z.of_nat n)) s1) as [[dest|] s1']; [|done].
  rewrite Nat2Z.id, E.
  destruct (start_child_ok s s2 h ch c (l ++ replicate n 0) (zlen l) (Z.of_nat n) false Hne Hnone) as (s3 & E3 & H3);
    [by etransitivity|done|]. exists s3. done.
Qed.

(** Restoring the parent: the objects of [s] are as they were. *)
Lemma close_restores s objs h ch c x : s_objs s !! h = Some c -> h <> ch -> s_objs s !! ch = None ->
  (forall k y, k <> h -> s_objs s !! k = Some y -> objs !! k = Some y) ->
  s_objs s ⊆ <[h := c]> (<[ch := x]> objs).
Proof.
  intros Hh Hne Hnone Hk. apply map_subseteq_spec. intros k y Hy. destruct (decide (k = h)) as [->|].
  - rewrite lookup_insert_eq. congruence.
  - rewrite lookup_insert_ne by done. destruct (decide (k = ch)) as [->|]; [congruence|].
    rewrite lookup_insert_ne by done. apply Hk; done.
Qed.

(** The child is written through [m], then the parent is flushed. The
    hypothesis on [flush_child] is discharged by the two kinds of prefix. *)
Lemma child_written s s2 h ch c cc l lp m data pre :
  writable s h c l -> child_open s s2 h ch c cc lp -> c_pending_len_len cc <> 0 ->
  0 <= c_offset cc -> 0 <= c_pending_len_len cc ->
  c_offset cc + c_pending_len_len cc < 2 ^ 60 ->
  appends ch m data -> zlen lp + zlen data < 2 ^ 60 ->
  (forall objs b, objs !! h = Some (with_child (Some ch) c) -> objs !! ch = Some cc ->
     brep b (lp ++ data) -> can_resize b = true ->
     exists b' off pend,
       flush_child malloc_ok uninit h ch (c_offset cc + c_pending_len_len cc) (Store (Some b) objs) =
       (Some tt, Store (Some b') (<[h := c]> (<[ch := Cbb false (c_child cc) off pend
          (c_pending_is_asn1 cc) (c_is_child cc)]> objs))) /\
       brep b' (l ++ pre ++ data) /\ can_resize b' = true) ->
  exists s', (m ;; CBB_flush malloc_ok uninit h) s2 = (Some tt, s') /\
    writable s' h c (l ++ pre ++ data) /\ s_objs s ⊆ s_objs s'.
Proof.
  intros (Ho & Hc & Hch & _) (Hne & Hnone & Hw2 & Hh2 & Hk2) Hp Ho0 Hp0 Hop Hm Hlen Hflush.
  destruct (Hm s2 cc lp Hw2 Hlen) as ([base3 objs3] & E3 & Hw3 & Hs3).
  pose proof Hw3 as (Ho3 & _ & _ & b3 & Hb3 & Hrep3 & Hr3). cbn [s_base s_objs] in *. subst base3.
  assert (Hh3 : objs3 !! h = Some (with_child (Some ch) c)) by (eapply lookup_weaken; done).
  destruct (Hflush objs3 b3 Hh3 Ho3 Hrep3 Hr3) as (b' & off & pend & Ef & Hb' & Hr').
  eexists. split.
  { unfold bind. rewrite E3, (flush_one_child h ch c cc b3 objs3 (lp ++ data)) by done.
    rewrite size_t_small by lia. exact Ef. }
  split.
  - split_and!; [cbn; by rewrite lookup_insert_eq|done|done|]. exists b'. done.
  - apply close_restores; try done. intros k y Hk Hy. eapply lookup_weaken; [|done]. apply Hk2; done.
Qed.

Lemma appends_asn1 h tag m data : 0 <= tag < 2 ^ 32 -> zlen data <= 0xfffffffe ->
  (forall ch, appends ch (m ch) data) ->
  appends h (let* ch := new_cbb in CBB_add_asn1 malloc_ok uninit h ch tag ;; m ch ;;
             CBB_flush malloc_ok uninit h) (der_element tag data).
Proof using Hmalloc.
  intros Ht Hd Hm s c l Hw Hl. pose proof (zlen_nonneg l). pose proof (zlen_nonneg data).
  unfold der_element, der_header in Hl |- *. rewrite !zlen_app in Hl.
  pose proof (zlen_nonneg (tag_octets tag)).
  assert (1 <= zlen (length_octets (zlen data))).
  { unfold length_octets. destruct (zlen data <? 128); autorewrite with zlen; lia. }
  destruct (new_cbb_ok s h c l Hw) as (ch & s1 & E1 & Hne & Hnone & Hw1 & Hs1).
  destruct (add_asn1_ok s h c l ch tag s1 Ht) as (s2 & E2 & Hopen); [lia|done..|].
  unfold bind at 1. rewrite E1. unfold bind at 1. rewrite E2.
  set (p := l ++ tag_octets tag) in *.
  assert (Hpl : zlen p = zlen l + zlen (tag_octets tag)) by (unfold p; rewrite zlen_app; done).
  pose proof Hw as (_ & Hc & Hch & _).
  eapply child_written; try done; cbn [c_offset c_pending_len_len]; try lia.
  { autorewrite with zlen. lia. }
  intros objs b Hh Ho Hb Hr. rewrite <- app_assoc in Hb.
  destruct (flush_child_asn1 h ch c _ objs p data Hne Hh Ho Hc Hch eq_refl b) as (b' & off & pend & Ef & Hb' & Hr');
    try done; [lia|].
  exists b', off, pend. split_and!; [done| |done]. unfold p in Hb'. rewrite <- !app_assoc in *. done.
Qed.

Lemma appends_length_prefixed h n m data : (1 <= n)%nat -> zlen data < 256 ^ Z.of_nat n ->
  (forall ch, appends ch (m ch) data) ->
  appends h (let* ch := new_cbb in cbb_add_length_prefixed malloc_ok uninit h ch (Z.of_nat n) ;;
             m ch ;; CBB_flush malloc_ok uninit h) (be_bytes n (zlen data) ++ data).
Proof using Hmalloc.
  intros Hn Hd Hm s c l Hw Hl. pose proof (zlen_nonneg l). pose proof (zlen_nonneg data).
  rewrite zlen_app, zlen_be_bytes in Hl.
  destruct (new_cbb_ok s h c l Hw) as (ch & s1 & E1 & Hne & Hnone & Hw1 & Hs1).
  destruct (add_length_prefixed_ok s h c l ch n s1) as (s2 & E2 & Hopen); [lia|done..|].
  unfold bind at 1. rewrite E1. unfold bind at 1. rewrite E2.
  pose proof Hw as (_ & Hc & Hch & _).
  eapply child_written; try done; cbn [c_offset c_pending_len_len]; try lia.
  { autorewrite with zlen. lia. }
  intros objs b Hh Ho Hb Hr. rewrite <- app_assoc in Hb.
  destruct (flush_child_prefixed h ch c _ objs l data Hne Hh Ho Hc Hch eq_refl b n (replicate n 0))
    as (b' & objs2 & Ef & Hres); try done; [apply zlen_replicate|lia|].
  destruct (Z.ltb_spec (zlen data) (256 ^ Z.of_nat n)); [|lia]. destruct Hres as (Hb' & Hr' & ->).
  eexists b', _, _. done.
Qed.

(** *** INTEGERs *)

Definition uint64_bytes (value : Z) : list Z :=
  (fun i => Z.land (Z.shiftr value (8 * (7 - i))) 0xff) <$> zseq 8.

Lemma uint64_bytes_be v : uint64_bytes v = be_bytes 8 v.
Proof.
  assert (E : forall i, Z.land (Z.shiftr v (8 * (7 - i))) 0xff = Z.shiftr v (8 * (7 - i)) mod 256)
    by (intros i; apply (land_mask 8); lia).
  unfold uint64_bytes. change (zseq 8) with [0; 1; 2; 3; 4; 5; 6; 7]. cbn [fmap list_fmap be_bytes app].
  rewrite !E, !Z.shiftr_div_pow2 by lia. rewrite !Z.div_div by lia. cbn. rewrite Z.div_1_r. done.
Qed.

Lemma high_bit_clear b : is_byte b -> (Z.land b 0x80 =? 0) = negb (128 <=? b).
Proof.
  intros Hb. destruct (length_byte_split b Hb) as [-> _]. rewrite Z.ltb_antisym. done.
Qed.

(** What the loop of [CBB_add_asn1_uint64] appends. *)
Definition uint64_loop_out (l : list Z) : list Z :=
  match strip_zeros l with
  | [] => []
  | b :: l' => if 128 <=? b then 0 :: b :: l' else b :: l'
  end.

Lemma uint64_loop_started ch l : bytes_ok l -> forall s c pre, writable s ch c pre ->
  zlen pre + zlen l < 2 ^ 60 ->
  exists s', add_uint64_loop malloc_ok uninit ch true l s = (Some true, s') /\
    writable s' ch c (pre ++ l) /\ s_objs s ⊆ s_objs s'.
Proof using Hmalloc.
  induction 1 as [|b l Hb Hl IH]; intros s c pre Hw Hlen.
  { exists s. rewrite app_nil_r. done. }
  rewrite zlen_cons in Hlen. pose proof (zlen_nonneg l). cbn [add_uint64_loop negb andb].
  unfold bind at 1, ret at 1.
  destruct (appends_u8 ch b Hb s c pre Hw) as (s1 & E1 & Hw1 & Hs1); [change (zlen [b]) with 1; lia|].
  unfold bind at 1. rewrite E1.
  destruct (IH s1 c (pre ++ [b]) Hw1) as (s2 & E2 & Hw2 & Hs2); [rewrite zlen_app; change (zlen [b]) with 1; lia|].
  exists s2. rewrite <- app_assoc in Hw2. split_and!; [done..|]. by etransitivity.
Qed.

Lemma uint64_loop_ok ch l : bytes_ok l -> forall s c pre, writable s ch c pre ->
  zlen pre + zlen (uint64_loop_out l) < 2 ^ 60 ->
  exists s', add_uint64_loop malloc_ok uninit ch false l s =
      (Some (match strip_zeros l with [] => false | _ => true end), s') /\
    writable s' ch c (pre ++ uint64_loop_out l) /\ s_objs s ⊆ s_objs s'.
Proof using Hmalloc.
  induction 1 as [|b l Hb Hl IH]; intros s c pre Hw Hlen.
  { exists s. unfold uint64_loop_out. cbn. rewrite app_nil_r. done. }
  pose proof (zlen_nonneg l). unfold uint64_loop_out in *.
  cbn [add_uint64_loop negb andb strip_zeros] in *.
  destruct (b =? 0); [apply IH; done|]. rewrite high_bit_clear, negb_involutive by done.
  assert (Hpad : appends ch (if 128 <=? b then CBB_add_u8 malloc_ok uninit ch 0 else ret tt)
    (if 128 <=? b then [0] else [])).
  { destruct (128 <=? b); [by apply appends_u8|apply appends_nil]. }
  destruct (appends_seq ch _ _ _ _ Hpad (appends_u8 ch b Hb) s c pre Hw) as (s1 & E1 & Hw1 & Hs1).
  { rewrite zlen_app. destruct (128 <=? b); rewrite ?zlen_cons, ?zlen_nil in *; lia. }
  unfold bind in E1. unfold bind at 1 2.
  destruct ((if 128 <=? b then CBB_add_u8 malloc_ok uninit ch 0 else ret tt) s) as [[u|] s0]; [|done].
  rewrite E1.
  destruct (uint64_loop_started ch l Hl s1 c _ Hw1) as (s2 & E2 & Hw2 & Hs2).
  { rewrite !zlen_app. destruct (128 <=? b); rewrite ?zlen_cons, ?zlen_nil in *; lia. }
  exists s2. rewrite <- !app_assoc in Hw2. split_and!; [done| |by etransitivity].
  destruct (128 <=? b); done.
Qed.

Lemma appends_ext h m m' d : (forall s, m s = m' s) -> appends h m d -> appends h m' d.
Proof. intros E H s c l Hw Hl. rewrite <- E. apply H; done. Qed.

Lemma appends_uint64_contents ch v : 0 <= v < 2 ^ 64 ->
  appends ch (let* started := add_uint64_loop malloc_ok uninit ch false (uint64_bytes v) in
              if negb started then CBB_add_u8 malloc_ok uninit ch 0 else ret tt) (uint_octets v).
Proof using Hmalloc.
  intros Hv s c pre Hw Hlen. rewrite uint64_bytes_be.
  assert (Hout : uint_octets v = uint64_loop_out (be_bytes 8 v) ++
    match strip_zeros (be_bytes 8 v) with [] => [0] | _ => [] end).
  { unfold uint_octets, uint64_loop_out. destruct (strip_zeros _) as [|b l]; [done|].
    destruct (128 <=? b); rewrite app_nil_r; done. }
  rewrite Hout in Hlen |- *. rewrite zlen_app in Hlen.
  destruct (uint64_loop_ok ch (be_bytes 8 v) (be_bytes_ok 8 v) s c pre Hw) as (s1 & E1 & Hw1 & Hs1).
  { pose proof (zlen_nonneg (match strip_zeros (be_bytes 8 v) with [] => [0] | _ => [] end)). lia. }
  unfold bind. rewrite E1. destruct (strip_zeros (be_bytes 8 v)) as [|b l]; cbn [negb].
  - destruct (appends_u8 ch 0 ltac:(done) s1 c _ Hw1) as (s2 & E2 & Hw2 & Hs2); [rewrite zlen_app; lia|].
    exists s2. rewrite <- app_assoc in Hw2. split_and!; [done..|]. by etransitivity.
  - exists s1. rewrite app_nil_r. done.
Qed.

Lemma appends_asn1_uint64 h v : 0 <= v < 2 ^ 64 ->
  appends h (CBB_add_asn1_uint64 malloc_ok uninit h v) (der_element CBS_ASN1_INTEGER (uint_octets v)).
Proof using Hmalloc.
  intros Hv. destruct (uint_octets_spec v Hv) as (_ & _ & _ & Hz).
  eapply appends_ext; [|apply (appends_asn1 h CBS_ASN1_INTEGER); [done|lia|]].
  2:{ intros ch. apply (appends_uint64_contents ch v Hv). }
  intros s. unfold CBB_add_asn1_uint64, bind. fold (uint64_bytes v).
  repeat case_match; done || congruence.
Qed.

Lemma appends_mfor_u8 h l : bytes_ok l -> appends h (mfor (CBB_add_u8 malloc_ok uninit h) l) l.
Proof using Hmalloc.
  induction 1 as [|b l Hb Hl IH]; [apply appends_nil|]. cbn [mfor].
  apply (appends_seq h _ _ [b]); [by apply appends_u8|done].
Qed.

Lemma rev_le_bytes n v : rev (le_bytes n v) = be_bytes n v.
Proof. revert v. induction n as [|n IH]; intros v; [done|]. cbn [le_bytes rev be_bytes]. rewrite IH. done. Qed.

Lemma take_S_nth n (l : list Z) : (n < length l)%nat -> take (S n) l = take n l ++ [nth n l 0].
Proof.
  intros Hn. apply take_S_r. rewrite nth_lookup. destruct (lookup_lt_is_Some_2 l n Hn) as [x ->]. done.
Qed.

Lemma int64_start_strip k l : bytes_ok l -> (k < length l)%nat ->
  rev (take (S (int64_start l k)) l) = strip_ff (rev (take (S k) l)).
Proof.
  intros Hl. induction k as [|p IH]; intros Hk; [destruct l; done|].
  rewrite (take_S_nth (S p)), rev_app_distr by done. cbn [rev app int64_start].
  rewrite (take_S_nth p), rev_app_distr by lia. cbn [rev app strip_ff].
  assert (Hb : is_byte (nth p l 0)).
  { rewrite Forall_forall in Hl. apply Hl, list_elem_of_In, nth_In. lia. }
  rewrite high_bit_clear, negb_involutive by done. change 0xff with 255.
  destruct ((nth (S p) l 0 =? 255) && (128 <=? nth p l 0)) eqn:E.
  - rewrite IH by lia. rewrite (take_S_nth p), rev_app_distr by lia. done.
  - rewrite (take_S_nth (S p)), rev_app_distr by done. cbn [rev app].
    rewrite (take_S_nth p), rev_app_distr by lia. done.
Qed.

Lemma appends_asn1_int64 h v : - 2 ^ 63 <= v < 2 ^ 63 ->
  appends h (CBB_add_asn1_int64 malloc_ok uninit h v) (der_element CBS_ASN1_INTEGER (int_octets v)).
Proof using Hmalloc.
  intros Hv. unfold CBB_add_asn1_int64. rewrite Z.geb_leb. pose proof (int_octets_spec v Hv) as Hs.
  unfold int_octets in Hs |- *.
  destruct (Z.leb_spec 0 v) as [Hn|Hn]; [apply appends_asn1_uint64; lia|].
  destruct Hs as (Hok & _ & _ & Hz).
  assert (E : rev (take (S (int64_start (le_bytes 8 (u64 v)) 7)) (le_bytes 8 (u64 v))) =
    strip_ff (be_bytes 8 (v mod 2 ^ 64))).
  { rewrite int64_start_strip by (auto with bytes || rewrite length_le_bytes; lia).
    rewrite take_ge by (rewrite length_le_bytes; lia). rewrite rev_le_bytes. done. }
  rewrite E. apply (appends_asn1 h CBS_ASN1_INTEGER
    (fun ch => mfor (CBB_add_u8 malloc_ok uninit ch) (strip_ff (be_bytes 8 (v mod 2 ^ 64))))); [done|lia|].
  intros ch. by apply appends_mfor_u8.
Qed.

Lemma appends_asn1_bool h v :
  appends h (CBB_add_asn1_bool malloc_ok uninit h v)
    (der_element CBS_ASN1_BOOLEAN [if v =? 0 then 0 else 0xff]).
Proof using Hmalloc.
  apply (appends_asn1 h CBS_ASN1_BOOLEAN
    (fun ch => CBB_add_u8 malloc_ok uninit ch (if negb (v =? 0) then 0xff else 0))); [done..|].
  intros ch. destruct (v =? 0); by apply appends_u8.
Qed.

Lemma appends_asn1_octet_string h data : zlen data <= 0xfffffffe ->
  appends h (CBB_add_asn1_octet_string malloc_ok uninit h data) (der_element CBS_ASN1_OCTETSTRING data).
Proof using Hmalloc.
  intros Hd. apply (appends_asn1 h CBS_ASN1_OCTETSTRING (fun ch => CBB_add_bytes malloc_ok uninit ch data));
    [done|done|]. intros ch. apply appends_bytes.
Qed.

(** *** From initialisation to the finished buffer *)

Lemma init_ok h cap s : 0 <= cap < 2 ^ 60 ->
  exists s', CBB_init malloc_ok uninit h cap s = (Some tt, s') /\
    writable s' h (Cbb true None 0 0 false false) [].
Proof using Hmalloc.
  intros Hcap. unfold CBB_init, bind, CBB_zero, put_obj.
  rewrite OPENSSL_malloc_small by (done || lia). rewrite andb_false_r.
  unfold cbb_init. rewrite OPENSSL_malloc_small by (done || lia).
  eexists. split; [done|]. split_and!; [cbn; by rewrite lookup_insert_eq|done|done|].
  eexists. split_and!; [done| |done]. exists (fresh_block uninit cap).
  cbn [buf b_len b_cap b_error]. rewrite zlen_fresh_block by lia. split_and!; done || lia.
Qed.

Lemma finish_ok h c l s : writable s h c l -> c_is_child c = false ->
  exists s', CBB_finish malloc_ok uninit h false s = (Some l, s').
Proof.
  intros Hw Hc. destruct (writable_base _ _ _ _ Hw) as (b & Hg & Hs & (junk & Hb & Hl & _) & _).
  pose proof (flush_writable _ _ _ _ Hw) as Hf. destruct Hw as (Ho & Hcb & _).
  unfold CBB_finish, bind at 1, get_obj at 1. rewrite Ho, Hc. unfold bind at 1. rewrite Hf.
  unfold bind at 1. rewrite Hg, andb_false_r. unfold bind, on_base. rewrite Hg.
  unfold CBB_cleanup, bind, get_obj. cbn [s_objs]. rewrite Ho, Hc. unfold put_obj, ret.
  eexists. rewrite Hl, Hb, ztake_app by done. done.
Qed.

Lemma build_and_finish h cap m l s : 0 <= cap < 2 ^ 60 -> zlen l < 2 ^ 60 -> appends h m l ->
  fst ((CBB_init malloc_ok uninit h cap ;; m ;; CBB_finish malloc_ok uninit h false) s) = Some l.
Proof using Hmalloc.
  intros Hcap Hl Hm. destruct (init_ok h cap s Hcap) as (s1 & E1 & Hw1).
  destruct (Hm s1 _ _ Hw1 Hl) as (s2 & E2 & Hw2 & _).
  destruct (finish_ok _ _ _ _ Hw2 eq_refl) as (s3 & E3).
  unfold bind. rewrite E1, E2, E3. done.
Qed.
End writer.

(** ** Trees of writes

    A client program that writes a tree of fields: raw bytes, fixed-width
    integers, length-prefixed blocks and ASN.1 elements. *)

Inductive item :=
  | IBytes (data : list Z)
  | IUint (n : nat) (v : Z)
  | IPrefixed (n : nat) (its : list item)
  | IAsn1 (tag : Z) (its : list item)
  | IInt64 (v : Z).

Fixpoint encode (it : item) : list Z :=
  match it with
  | IBytes data => data
  | IUint n v => be_bytes n v
  | IPrefixed n its => let body := concat (encode <$> its) in be_bytes n (zlen body) ++ body
  | IAsn1 tag its => der_element tag (concat (encode <$> its))
  | IInt64 v => der_element CBS_ASN1_INTEGER (int_octets v)
  end.
Definition encode_all (its : list item) : list Z := concat (encode <$> its).

(** Every field fits its width and every length its prefix. *)
Inductive item_fits : item -> Prop :=
  | fits_bytes data : item_fits (IBytes data)
  | fits_uint n v : 0 <= v < 256 ^ Z.of_nat n -> item_fits (IUint n v)
  | fits_prefixed n its : (1 <= n)%nat -> zlen (encode_all its) < 256 ^ Z.of_nat n ->
      items_fit its -> item_fits (IPrefixed n its)
  | fits_asn1 tag its : 0 <= tag < 2 ^ 32 -> zlen (encode_all its) <= 0xfffffffe ->
      items_fit its -> item_fits (IAsn1 tag its)
  | fits_int64 v : - 2 ^ 63 <= v < 2 ^ 63 -> item_fits (IInt64 v)
with items_fit : list item -> Prop :=
  | fits_nil : items_fit []
  | fits_cons it its : item_fits it -> items_fit its -> items_fit (it :: its).

Scheme item_fits_mind := Induction for item_fits Sort Prop
  with items_fit_mind := Induction for items_fit Sort Prop.

Section build.
Context (malloc_ok : Z -> bool) (uninit : nat -> Z).

(** The calls a client makes for a tree: a child per block, flushed when the
    block is complete. *)
Fixpoint build (it : item) (h : positive) : M store unit :=
  match it with
  | IBytes data => CBB_add_bytes malloc_ok uninit h data
  | IUint n v => cbb_add_u malloc_ok uninit h v (Z.of_nat n)
  | IPrefixed n its =>
      let* ch := new_cbb in
      cbb_add_length_prefixed malloc_ok uninit h ch (Z.of_nat n) ;;
      mfor (fun it => build it ch) its ;;
      CBB_flush malloc_ok uninit h
  | IAsn1 tag its =>
      let* ch := new_cbb in
      CBB_add_asn1 malloc_ok uninit h ch tag ;;
      mfor (fun it => build it ch) its ;;
      CBB_flush malloc_ok uninit h
  | IInt64 v => CBB_add_asn1_int64 malloc_ok uninit h v
  end.

Context (Hmalloc : forall n, 0 <= n < 2 ^ 63 -> malloc_ok n = true).

Lemma appends_build it : item_fits it -> forall h, appends h (build it h) (encode it).
Proof using Hmalloc.
  revert it. apply (item_fits_mind
    (fun it _ => forall h, appends h (build it h) (encode it))
    (fun its _ => forall h, appends h (mfor (fun it => build it h) its) (encode_all its))).
  - intros data h. by apply appends_bytes.
  - intros n v Hv h. by apply appends_u.
  - intros n its Hn Hl _ IH h. by apply appends_length_prefixed.
  - intros tag its Ht Hl _ IH h. by apply appends_asn1.
  - intros v Hv h. by apply appends_asn1_int64.
  - intros h. apply appends_nil.
  - intros it its _ IH _ IHs h. by apply (appends_seq h).
Qed.
End build.

(** ** Errors, fixed buffers and termination *)

Section errors.
Context (malloc_ok : Z -> bool) (uninit : nat -> Z).

(** [h] points at a buffer in the error state. *)
Definition poisoned (s : store) (h : positive) : Prop :=
  exists b, get_base h s = (Some b, s) /\ b_error b = true.

Lemma flush_poisoned s h : poisoned s h -> CBB_flush malloc_ok uninit h s = (None, s).
Proof.
  intros (b & Hg & He). unfold CBB_flush. cbn [CBB_flush_fuel]. unfold bind. rewrite Hg, He. done.
Qed.

(** The operations that write or finish, as one client-visible step. *)
Inductive write_op :=
  | OpFlush | OpBytes (data : list Z) | OpUint (v len_len : Z) | OpAsn1 (out : positive) (tag : Z)
  | OpPrefixed (out : positive) (len_len : Z) | OpZeros (n : Z) | OpReserve (n : Z) | OpFinish
  | OpSetOf.
Definition run_op (h : positive) (op : write_op) : M store unit :=
  match op with
  | OpFlush => CBB_flush malloc_ok uninit h
  | OpBytes data => CBB_add_bytes malloc_ok uninit h data
  | OpUint v n => cbb_add_u malloc_ok uninit h v n
  | OpAsn1 out tag => CBB_add_asn1 malloc_ok uninit h out tag
  | OpPrefixed out n => cbb_add_length_prefixed malloc_ok uninit h out n
  | OpZeros n => CBB_add_zeros malloc_ok uninit h n
  | OpReserve n => CBB_reserve malloc_ok uninit h n ;; ret tt
  | OpFinish => CBB_finish malloc_ok uninit h false ;; ret tt
  | OpSetOf => CBB_flush_asn1_set_of malloc_ok uninit h
  end.

Lemma run_op_poisoned s h op : poisoned s h -> run_op h op s = (None, s).
Proof.
  intros Hp. pose proof (flush_poisoned s h Hp) as Hf. destruct op; cbn [run_op];
    unfold CBB_add_bytes, cbb_add_u, CBB_add_asn1, cbb_add_length_prefixed, CBB_add_zeros,
      CBB_add_space, CBB_reserve, CBB_finish, CBB_flush_asn1_set_of, bind; try (rewrite Hf; done).
  destruct Hp as (b & Hg & _). unfold get_base, get_obj in *.
  destruct (s_objs s !! h) as [c|]; [|done]. destruct (c_is_child c); [done|]. rewrite Hf. done.
Qed.

Context (Hmalloc : forall n, 0 <= n < 2 ^ 63 -> malloc_ok n = true).

Lemma prefix_overflow s h c l data n : (1 <= n)%nat -> writable s h c l ->
  256 ^ Z.of_nat n <= zlen data -> zlen l + Z.of_nat n + zlen data < 2 ^ 60 ->
  exists s', (let* ch := new_cbb in
     cbb_add_length_prefixed malloc_ok uninit h ch (Z.of_nat n) ;;
     CBB_add_bytes malloc_ok uninit ch data ;; CBB_flush malloc_ok uninit h) s = (None, s') /\
  exists objs b, s' = Store (Some b) objs /\ b_error b = true.
Proof using Hmalloc.
  intros Hn Hw Hd Hlen. pose proof (zlen_nonneg l). pose proof (zlen_nonneg data).
  destruct (new_cbb_ok s h c l Hw) as (ch & s1 & E1 & Hne & Hnone & Hw1 & Hs1).
  destruct (add_length_prefixed_ok malloc_ok uninit Hmalloc s h c l ch n s1)
    as (s2 & E2 & _ & _ & Hw2 & Hh2 & _); [lia|done..|].
  unfold bind at 1. rewrite E1. unfold bind at 1. rewrite E2.
  destruct (appends_bytes malloc_ok uninit Hmalloc ch data s2 _ _ Hw2) as ([base3 objs3] & E3 & Hw3 & Hs3).
  { autorewrite with zlen. lia. }
  unfold bind at 1. rewrite E3. pose proof Hw3 as (Ho3 & _ & _ & b3 & Hb3 & Hrep3 & Hr3).
  cbn [s_base s_objs] in *. subst base3. pose proof Hw as (_ & Hc & Hch & _).
  assert (Hh3 : objs3 !! h = Some (with_child (Some ch) c)) by (eapply lookup_weaken; done).
  rewrite (flush_one_child _ _ h ch c _ b3 objs3 _ Hh3 Hc Hw3 Hr3) by (cbn; lia).
  cbn [c_offset c_pending_len_len]. rewrite size_t_small by lia. rewrite <- app_assoc in Hrep3.
  destruct (flush_child_prefixed malloc_ok uninit Hmalloc h ch c _ objs3 l data Hne Hh3 Ho3 Hc Hch eq_refl
    b3 n (replicate n 0)) as (b' & objs2 & Ef & Hres); try done; [apply zlen_replicate|].
  rewrite Ef. destruct (Z.ltb_spec (zlen data) (256 ^ Z.of_nat n)); [lia|]. eauto 6.
Qed.

(** A fixed buffer: [cbb_buffer_add] succeeds exactly when the bytes fit. *)
Lemma fixed_add b l n : brep b l -> can_resize b = false -> 0 <= n -> b_len b + n < 2 ^ 64 ->
  let '(r, b') := cbb_buffer_add malloc_ok uninit n b in
  r = (if b_len b + n <=? b_cap b then Some (b_len b) else None) /\
  buf b' = buf b /\ b_cap b' = b_cap b /\
  b_error b' = negb (b_len b + n <=? b_cap b).
Proof using.
  intros (junk & Hb & Hl & Hc & H64 & He) Hr Hn Hlt.
  pose proof (zlen_nonneg l). pose proof (zlen_nonneg junk).
  unfold cbb_buffer_add, bind, cbb_buffer_reserve. rewrite size_t_small by lia.
  destruct (Z.ltb_spec (b_len b + n) (b_len b)); [lia|]. rewrite Z.gtb_ltb, Hr.
  destruct (Z.ltb_spec (b_cap b) (b_len b + n)), (Z.leb_spec (b_len b + n) (b_cap b)); done || lia.
Qed.

End errors.

Section termination.
Context (malloc_ok : Z -> bool) (uninit : nat -> Z).

(** *** Termination of CBB_flush *)

(** The pending children below [h], outermost first. *)
Inductive pending_chain (objs : gmap positive cbb) : positive -> list positive -> Prop :=
  | chain_end h c : objs !! h = Some c -> c_child c = None -> pending_chain objs h []
  | chain_child h c ch chs : objs !! h = Some c -> c_child c = Some ch ->
      pending_chain objs ch chs -> pending_chain objs h (ch :: chs).

Lemma flush_fuel_enough objs h chs : pending_chain objs h chs -> forall n m base,
  (length chs < n)%nat -> (length chs < m)%nat ->
  CBB_flush_fuel malloc_ok uninit n h (Store base objs) = CBB_flush_fuel malloc_ok uninit m h (Store base objs).
Proof using.
  induction 1 as [h c Ho Hc|h c ch chs Ho Hc Hch IH]; intros n m base Hn Hm;
    destruct n as [|n], m as [|m]; cbn [length] in *; try lia; cbn [CBB_flush_fuel];
    unfold bind, get_base, get_obj; cbn [s_objs]; rewrite Ho;
    (destruct (base_of c _) as [b|]; [|done]); (destruct (b_error b); [done|]);
    cbn [s_objs]; rewrite Ho, Hc; [done|].
  cbn [s_objs]. destruct (objs !! ch) as [cc|]; [|done]. destruct (c_pending_len_len cc =? 0); [done|].
  unfold or_error. rewrite (IH n m) by lia. done.
Qed.

Lemma chain_length objs h chs : pending_chain objs h chs -> NoDup (h :: chs) ->
  (length chs < size objs)%nat.
Proof.
  intros Hc Hnd. rewrite <- size_dom.
  assert (Hsub : list_to_set (h :: chs) ⊆ dom objs).
  { clear Hnd. induction Hc as [h c Ho _|h c ch chs Ho _ _ IH]; intros k Hk; set_unfold.
    - destruct Hk as [->|[]]. by eapply elem_of_dom_2.
    - destruct Hk as [->|Hk]; [by eapply elem_of_dom_2|]. apply IH. set_solver. }
  apply subseteq_size in Hsub. rewrite (size_list_to_set (C := gset positive)) in Hsub by done.
  cbn [length] in Hsub. lia.
Qed.
End termination.

(** ** Properties *)

(** C1. A tree of writes (bytes, integers, length-prefixed blocks and ASN.1
    elements, nested to any depth) that fits its widths, run on a fresh CBB of
    any initial capacity and finished, produces exactly the concatenation the
    specification [encode] describes; the lengths are filled in afterwards, with
    contents moved when a DER length takes more than one octet. *)
Theorem build_encodes malloc_ok uninit h cap it s :
  (forall n, 0 <= n < 2 ^ 63 -> malloc_ok n = true) ->
  0 <= cap < 2 ^ 60 -> zlen (encode it) < 2 ^ 60 -> item_fits it ->
  fst ((CBB_init malloc_ok uninit h cap ;; build malloc_ok uninit it h ;;
        CBB_finish malloc_ok uninit h false) s) = Some (encode it).
Proof. intros Hm Hcap Hl Hf. apply build_and_finish; try done. by apply appends_build. Qed.

Definition sample_item : item :=
  IAsn1 CBS_ASN1_SEQUENCE [IInt64 (-129); IPrefixed 2 [IUint 3 0x010203; IBytes [7]]].
Lemma build_encodes_witness :
  item_fits sample_item /\
  fst ((CBB_init (fun _ => true) (fun _ => 0xcd) 1 0 ;; build (fun _ => true) (fun _ => 0xcd) sample_item 1 ;;
        CBB_finish (fun _ => true) (fun _ => 0xcd) 1 false) (Store None ∅)) = Some (encode sample_item).
Proof.
  assert (Hf : item_fits sample_item).
  { repeat (constructor; try (vm_compute; split; discriminate); try (vm_compute; reflexivity);
      try (vm_compute; discriminate)); lia. }
  split; [exact Hf|].
  apply (build_encodes (fun _ => true) (fun _ => 0xcd) 1 0 sample_item (Store None ∅)).
  - reflexivity.
  - lia.
  - vm_compute. reflexivity.
  - exact Hf.
Defined.

(** What [CBB_add_asn1_int64] writes, [CBS_get_asn1_int64] reads back, for
    every [int64_t] and with anything following it. *)
Lemma asn1_int64_roundtrip malloc_ok uninit h cap v rest s :
  (forall n, 0 <= n < 2 ^ 63 -> malloc_ok n = true) ->
  0 <= cap < 2 ^ 60 -> - 2 ^ 63 <= v < 2 ^ 63 -> bytes_ok rest -> zlen rest < 2 ^ 60 ->
  match fst ((CBB_init malloc_ok uninit h cap ;; CBB_add_asn1_int64 malloc_ok uninit h v ;;
              CBB_finish malloc_ok uninit h false) s) with
  | Some der => CBS_get_asn1_int64 (der ++ rest) = (Some v, rest)
  | None => False
  end.
Proof.
  intros Hm Hcap Hv Hr Hlen. destruct (int_octets_spec v Hv) as (Hok & _ & _ & Hz).
  assert (E : zlen (der_element CBS_ASN1_INTEGER (int_octets v)) < 12).
  { rewrite zlen_der_element, der_header_short by lia. change (tag_octets CBS_ASN1_INTEGER) with [2].
    autorewrite with zlen. lia. }
  rewrite (build_and_finish _ _ Hm h cap _ _ s Hcap
    (Z.lt_trans _ 12 (2 ^ 60) E eq_refl)
    (appends_asn1_int64 _ _ Hm h v Hv)).
  apply get_asn1_int64_der; [done..|rewrite zlen_app; lia].
Qed.

Lemma asn1_int64_roundtrip_witness :
  match fst ((CBB_init (fun _ => true) (fun _ => 0xcd) 1 4 ;; CBB_add_asn1_int64 (fun _ => true) (fun _ => 0xcd) 1 (-32769) ;;
              CBB_finish (fun _ => true) (fun _ => 0xcd) 1 false) (Store None ∅)) with
  | Some der => CBS_get_asn1_int64 (der ++ [1; 2]) = (Some (-32769), [1; 2])
  | None => False
  end.
Proof.
  apply (asn1_int64_roundtrip (fun _ => true) (fun _ => 0xcd) 1 4 (-32769) [1; 2] (Store None ∅)).
  - reflexivity.
  - lia.
  - lia.
  - repeat constructor; discriminate.
  - reflexivity.
Defined.


Definition sample_store : store := snd (CBB_init (fun _ => true) (fun _ => 0) 1 0 (Store None ∅)).
Lemma sample_writable : writable sample_store 1 (Cbb true None 0 0 false false) [].
Proof.
  split; [reflexivity|]. split; [reflexivity|]. split; [reflexivity|].
  exists (Buffer [] 0 0 true false). split; [reflexivity|]. split; [|reflexivity].
  exists []. repeat split; reflexivity.
Qed.



(** [CBB_flush] terminates: on any chain of distinct pending children the
    recursion reaches the innermost one within the number of live CBBs, so that
    no larger recursion bound changes its result. *)
Theorem flush_terminates malloc_ok uninit s h chs n :
  pending_chain (s_objs s) h chs -> NoDup (h :: chs) -> (size (s_objs s) < n)%nat ->
  CBB_flush_fuel malloc_ok uninit n h s = CBB_flush malloc_ok uninit h s.
Proof.
  intros Hc Hnd Hn. pose proof (chain_length _ _ _ Hc Hnd). destruct s as [base objs]. cbn [s_objs] in *.
  unfold CBB_flush. cbn [s_objs]. apply (flush_fuel_enough _ _ objs h chs); [done|lia..].
Qed.

Lemma flush_terminates_witness :
  CBB_flush_fuel (fun _ => true) (fun _ => 0) 5 1 sample_store =
  CBB_flush (fun _ => true) (fun _ => 0) 1 sample_store.
Proof.
  apply (flush_terminates (fun _ => true) (fun _ => 0) sample_store 1 [] 5).
  - apply (chain_end _ 1 (Cbb true None 0 0 false false)); reflexivity.
  - apply NoDup_singleton.
  - vm_compute. lia.
Defined.
