(* ===== verification/Oid.v ===== *)
(** * Object identifiers as text: [CBB_add_asn1_oid_from_text] of
    crypto/bytestring/cbb.c and [CBS_asn1_oid_to_text] of
    crypto/bytestring/cbs.c. *)

From S2P Require Import Prelude Mem DerSpec CBS CBB.

(** ** Decimal numbers *)

(** The digits of [v] without leading zeros; none for 0. *)
Fixpoint dec_hi (n : nat) (v : Z) : list Z :=
  match n with
  | O => []
  | S n' => if v =? 0 then [] else dec_hi n' (v / 10) ++ [48 + v mod 10]
  end.
(** What [snprintf] writes for ["%" PRIu64]: at most twenty digits. *)
Definition decimal (v : Z) : list Z := dec_hi 19 (v / 10) ++ [48 + v mod 10].

(** ** Text to DER *)

(** The [for] loop; [*out] and [seen_digit] are its state. *)
Fixpoint dotted_loop (out : Z) (seen_digit : bool) (c : cbs) {struct c} : option Z * cbs :=
  match c with
  | [] => (if seen_digit then Some out else None, [])
  | u :: c' =>
      if (u =? 46) && (CBS_len c' >? 0) then (if seen_digit then Some out else None, c')
      else if (u <? 48) || (u >? 57) || (seen_digit && (out =? 0)) || (out >? UINT64_MAX / 10) ||
              (out * 10 >? UINT64_MAX - (u - 48)) then (None, c')
      else dotted_loop (u64 (out * 10 + (u - 48))) true c'
  end.
Definition parse_dotted_decimal : M cbs Z := dotted_loop 0 false.

Section oid.
Context (malloc_ok : Z -> bool) (uninit : nat -> Z).

(** The loop over the remaining components; a component has at least one byte. *)
Fixpoint oid_from_loop (n : nat) (h : positive) (c : cbs) : M store unit :=
  if CBS_len c =? 0 then ret tt
  else
    match n with
    | O => fail
    | S n' =>
        let* '(a, c') := on c parse_dotted_decimal in
        add_base128_integer malloc_ok uninit h a ;;
        oid_from_loop n' h c'
    end.

Definition CBB_add_asn1_oid_from_text (h : positive) (text : list Z) : M store unit :=
  CBB_flush malloc_ok uninit h ;;
  let cbs := CBS_init text in
  let* '(a, cbs) := on cbs parse_dotted_decimal in
  let* '(b, cbs) := on cbs parse_dotted_decimal in
  if (a >? 2) || ((a <? 2) && (b >? 39)) || (b >? UINT64_MAX - 80) then fail
  else
    add_base128_integer malloc_ok uninit h (u64 (40 * a + b)) ;;
    oid_from_loop (length text) h cbs.

(** ** DER to text *)

Definition add_decimal (h : positive) (v : Z) : M store unit :=
  CBB_add_bytes malloc_ok uninit h (decimal v).

Fixpoint oid_to_loop (n : nat) (h : positive) (copy : cbs) : M store unit :=
  if CBS_len copy =? 0 then ret tt
  else
    match n with
    | O => fail
    | S n' =>
        let* '(v, copy') := on copy parse_base128_integer in
        CBB_add_u8 malloc_ok uninit h 46 ;;
        add_decimal h v ;;
        oid_to_loop n' h copy'
    end.

(** The local CBB is the object 1 of a new store; the result is the text with
    its NUL, [None] for NULL. *)
Definition CBS_asn1_oid_to_text (c : cbs) : option (list Z) :=
  fst ((CBB_init malloc_ok uninit 1 32 ;;
        (let* '(v, copy) := on c parse_base128_integer in
         (if v >=? 80 then
            CBB_add_bytes malloc_ok uninit 1 [50; 46] ;;
            add_decimal 1 (v - 80)
          else
            add_decimal 1 (v / 40) ;;
            CBB_add_u8 malloc_ok uninit 1 46 ;;
            add_decimal 1 (v mod 40)) ;;
         oid_to_loop (length copy) 1 copy ;;
         CBB_add_u8 malloc_ok uninit 1 0) ;;
        CBB_finish malloc_ok uninit 1 false) (Store None ∅)).
End oid.

(** ["1.2.840"]. *)
Example oid_text :
  CBS_asn1_oid_to_text (fun _ => true) (fun _ => 0) [0x2a; 0x86; 0x48] =
  Some [49; 46; 50; 46; 56; 52; 48; 0].
Proof. vm_compute. reflexivity. Qed.

(** ** Specification *)

(** An object identifier: its two first arcs and the others. *)
Record oid := Oid { arc1 : Z; arc2 : Z; arcs : list Z }.

Definition oid_ok (o : oid) : Prop :=
  0 <= arc1 o <= 2 /\ 0 <= arc2 o <= UINT64_MAX - 80 /\ (arc1 o < 2 -> arc2 o <= 39) /\
  Forall (fun v => 0 <= v < 2 ^ 64) (arcs o).

(** The contents octets of X.690, 8.19. *)
Definition oid_contents (o : oid) : list Z :=
  base128 (40 * arc1 o + arc2 o) ++ concat (base128 <$> arcs o).

Definition dotted (l : list Z) : list Z := concat ((fun v => 46 :: decimal v) <$> l).

Definition oid_dotted (o : oid) : list Z := decimal (arc1 o) ++ dotted (arc2 o :: arcs o).

(** ** Decimal parsing *)

Lemma decimal_cons v : exists d l, decimal v = d :: l.
Proof. unfold decimal. destruct (dec_hi 19 (v / 10)); simpl; eauto. Qed.

Lemma dotted_step out d c : 0 < out -> 0 <= d < 10 -> out * 10 + d < 2 ^ 64 ->
  dotted_loop out true (48 + d :: c) = dotted_loop (out * 10 + d) true c.
Proof.
  intros Ho Hd H64. cbn [dotted_loop]. unfold UINT64_MAX. rewrite !Z.gtb_ltb.
  change ((2 ^ 64 - 1) / 10) with 1844674407370955161.
  replace (48 + d - 48) with d by lia. decide_cmp; cbn [andb orb]; rewrite u64_small by lia; done.
Qed.

Lemma dotted_first d c : 0 <= d < 10 -> dotted_loop 0 false (48 + d :: c) = dotted_loop d true c.
Proof.
  intros Hd. cbn [dotted_loop]. unfold UINT64_MAX. rewrite !Z.gtb_ltb.
  change ((2 ^ 64 - 1) / 10) with 1844674407370955161.
  replace (48 + d - 48) with d by lia. decide_cmp; cbn [andb orb]; rewrite u64_small by lia; f_equal; lia.
Qed.

Lemma dotted_hi n v c : 0 < v < 10 ^ Z.of_nat n -> v < 2 ^ 64 ->
  dotted_loop 0 false (dec_hi n v ++ c) = dotted_loop v true c.
Proof.
  revert v c. induction n as [|n IH]; intros v c Hv H64; [simpl in Hv; lia|].
  rewrite Nat2Z.inj_succ, Z.pow_succ_r in Hv by lia. cbn [dec_hi].
  destruct (Z.eqb_spec v 0); [lia|]. rewrite <- app_assoc. cbn [app].
  destruct (Z.eqb_spec (v / 10) 0) as [E|E].
  - replace (dec_hi n (v / 10)) with ([] : list Z) by (rewrite E; destruct n; done).
    cbn [app]. rewrite dotted_first by zarith. f_equal. zarith.
  - rewrite IH by zarith. rewrite dotted_step by zarith. f_equal. zarith.
Qed.

Lemma parse_decimal v c : 0 <= v < 2 ^ 64 ->
  parse_dotted_decimal (decimal v ++ c) = dotted_loop v true c.
Proof.
  intros Hv. unfold parse_dotted_decimal, decimal. rewrite <- app_assoc. cbn [app].
  destruct (Z.eqb_spec (v / 10) 0) as [E|E].
  - rewrite E. cbn [dec_hi Z.eqb app]. rewrite dotted_first by zarith. f_equal. zarith.
  - rewrite dotted_hi by (simpl Z.of_nat; zarith). rewrite dotted_step by zarith. f_equal. zarith.
Qed.

(** A component followed by the end of the text, or by a dot and more text. *)
Lemma parse_decimal_end v : 0 <= v < 2 ^ 64 -> parse_dotted_decimal (decimal v) = (Some v, []).
Proof. intros Hv. rewrite <- (app_nil_r (decimal v)), parse_decimal by done. done. Qed.

Lemma parse_decimal_dot v b c : 0 <= v < 2 ^ 64 ->
  parse_dotted_decimal (decimal v ++ 46 :: b :: c) = (Some v, b :: c).
Proof.
  intros Hv. rewrite parse_decimal by done. cbn [dotted_loop]. unfold CBS_len.
  rewrite zlen_cons, Z.gtb_ltb. pose proof (zlen_nonneg c). decide_cmp; done.
Qed.

Lemma dec_hi_fuel n m v : 0 <= v < 10 ^ Z.of_nat n -> v < 10 ^ Z.of_nat m ->
  dec_hi n v = dec_hi m v.
Proof.
  revert m v. induction n as [|n IH]; intros [|m] v Hn Hm; simpl in *.
  - done.
  - assert (v = 0) as -> by lia. done.
  - assert (v = 0) as -> by lia. done.
  - destruct (Z.eqb_spec v 0); [done|].
    rewrite (IH m); [done|..]; rewrite !Nat2Z.inj_succ, !Z.pow_succ_r in * by lia; zarith.
Qed.

Lemma decimal_snoc v d : 0 < v -> 0 <= d < 10 -> v * 10 + d < 2 ^ 64 ->
  decimal v ++ [48 + d] = decimal (v * 10 + d).
Proof.
  intros Hv Hd H64. unfold decimal.
  replace ((v * 10 + d) / 10) with v by zarith. replace ((v * 10 + d) mod 10) with d by zarith.
  f_equal. rewrite (dec_hi_fuel 19 20 v) by (simpl Z.of_nat; lia). cbn [dec_hi].
  destruct (Z.eqb_spec v 0); [lia|done].
Qed.

(** What the loop has consumed, and how it ended. *)
Definition component (c l rest : list Z) : Prop :=
  (c = l /\ rest = []) \/ (c = l ++ 46 :: rest /\ rest <> []).

Lemma component_ok c l rest : bytes_ok c -> component c l rest -> bytes_ok rest.
Proof.
  intros Hc [[_ ->]|[-> _]]; [constructor|]. apply Forall_app in Hc as [_ Hc].
  by apply Forall_cons in Hc as [_ ?].
Qed.

Lemma dotted_loop_sound c out v rest : bytes_ok c -> 0 <= out < 2 ^ 64 ->
  dotted_loop out true c = (Some v, rest) ->
  0 <= v < 2 ^ 64 /\ exists l, component c l rest /\ decimal out ++ l = decimal v.
Proof.
  revert out. induction c as [|u c IH]; intros out Hc Ho H.
  - cbn in H. simp_eq. split; [done|]. exists []. rewrite app_nil_r. split; [by left|done].
  - apply Forall_cons in Hc as [Hu Hc]. unfold is_byte in Hu. cbn [dotted_loop] in H.
    unfold CBS_len in H. rewrite !Z.gtb_ltb in H.
    destruct ((u =? 46) && (0 <? zlen c)) eqn:E1.
    + bool_hyps. simp_eq. split; [done|]. exists []. rewrite app_nil_r. split; [|done]. right.
      split; [done|]. intros ->. done.
    + clear E1. destruct (_ || _) eqn:E2 in H; [done|]. unfold UINT64_MAX in E2.
      change ((2 ^ 64 - 1) / 10) with 1844674407370955161 in E2. cbn [andb] in E2. bool_hyps.
      assert (out * 10 + (u - 48) < 2 ^ 64) by lia.
      rewrite u64_small in H by lia. apply IH in H as (Hv & l & Hl & E); [|done|lia].
      split; [done|]. exists (u :: l). rewrite <- decimal_snoc in E by lia.
      replace (48 + (u - 48)) with u in E by lia. rewrite <- app_assoc in E. split; [|done].
      destruct Hl as [[-> ->]|[-> Hr]]; [by left|by right].
Qed.

Lemma parse_dotted_sound c v rest : bytes_ok c -> parse_dotted_decimal c = (Some v, rest) ->
  0 <= v < 2 ^ 64 /\ component c (decimal v) rest.
Proof.
  intros Hc H. destruct c as [|u c]; [done|]. apply Forall_cons in Hc as [Hu Hc]. unfold is_byte in Hu.
  unfold parse_dotted_decimal in H. cbn [dotted_loop] in H. unfold UINT64_MAX in H.
  rewrite !Z.gtb_ltb in H. change ((2 ^ 64 - 1) / 10) with 1844674407370955161 in H.
  destruct ((u =? 46) && _) eqn:E1; [done|].
  destruct (_ || _) eqn:E2 in H; [done|]. cbn [andb] in E2. bool_hyps.
  rewrite u64_small in H by lia. apply dotted_loop_sound in H as (Hv & l & Hl & E); [|done|lia].
  split; [done|]. rewrite <- E. unfold decimal. replace ((0 * 10 + (u - 48)) / 10) with 0 by zarith.
  replace (48 + (0 * 10 + (u - 48)) mod 10) with u by zarith.
  cbn [dec_hi Z.eqb app]. destruct Hl as [[-> ->]|[-> Hr]]; [by left|by right].
Qed.

(** ** From text *)

Section theorems.
Context (malloc_ok : Z -> bool) (uninit : nat -> Z).
Context (Hmalloc : forall n, 0 <= n < 2 ^ 63 -> malloc_ok n = true).

(** The text of the components [l], after its first dot. *)
Definition components (l : list Z) : list Z := tail (dotted l).

Lemma dotted_cons v l : dotted (v :: l) = 46 :: decimal v ++ dotted l.
Proof. done. Qed.

Lemma components_cons v l : components (v :: l) = decimal v ++ dotted l.
Proof. done. Qed.

Lemma components_nonempty v l : (CBS_len (components (v :: l)) =? 0) = false.
Proof.
  rewrite components_cons. destruct (decimal_cons v) as (d & t & ->). cbn [app].
  unfold CBS_len. rewrite zlen_cons. pose proof (zlen_nonneg (t ++ dotted l)). apply Z.eqb_neq. lia.
Qed.

Lemma parse_component v l : 0 <= v < 2 ^ 64 ->
  parse_dotted_decimal (decimal v ++ dotted l) = (Some v, components l).
Proof.
  intros Hv. destruct l as [|w l]; [rewrite app_nil_r; by apply parse_decimal_end|].
  rewrite dotted_cons. unfold components. rewrite dotted_cons. cbn [tail].
  destruct (decimal_cons w) as (d & t & ->). cbn [app]. by apply parse_decimal_dot.
Qed.

Lemma component_inv c v rest : component c (decimal v) rest ->
  (forall l, rest = components l -> (rest = [] -> l = []) -> c = decimal v ++ dotted l).
Proof.
  intros [[-> ->]|[-> Hr]] l E Hl; [rewrite Hl, app_nil_r by done; done|].
  destruct l as [|w l]; [done|]. rewrite dotted_cons, E. done.
Qed.

Lemma appends_oid_from_loop h l n : Forall (fun v => 0 <= v < 2 ^ 64) l -> (length l <= n)%nat ->
  appends h (oid_from_loop malloc_ok uninit n h (components l)) (concat (base128 <$> l)).
Proof using Hmalloc.
  intros Hl. revert n. induction Hl as [|v l Hv Hl IH]; intros n Hn.
  - destruct n; apply appends_nil.
  - destruct n as [|n]; [simpl in Hn; lia|].
    eapply appends_ext; [|apply appends_seq;
      [apply (appends_base128 malloc_ok uninit Hmalloc); exact Hv|apply (IH n); simpl in Hn; lia]].
    intros s. cbn [oid_from_loop]. rewrite components_nonempty, components_cons.
    unfold bind at 2, on. rewrite parse_component by done. done.
Qed.

Lemma oid_dotted_components o : oid_dotted o = components (arc1 o :: arc2 o :: arcs o).
Proof. done. Qed.

Lemma length_components l : (length l <= length (components l) + 1)%nat.
Proof.
  destruct l as [|v l]; [simpl; lia|]. rewrite components_cons, length_app.
  destruct (decimal_cons v) as (d & t & ->). cbn [length].
  assert (length l <= length (dotted l))%nat; [|lia]. clear.
  induction l as [|w l IH]; [done|]. rewrite dotted_cons. cbn [length]. rewrite length_app. lia.
Qed.

Lemma oid_arcs_range o : oid_ok o -> 0 <= arc1 o < 2 ^ 64 /\ 0 <= arc2 o < 2 ^ 64 /\
  0 <= 40 * arc1 o + arc2 o < 2 ^ 64.
Proof. unfold oid_ok, UINT64_MAX. intros (H1 & H2 & H3 & _). lia. Qed.

Lemma appends_oid_from_text h o : oid_ok o ->
  appends h (CBB_add_asn1_oid_from_text malloc_ok uninit h (oid_dotted o)) (oid_contents o).
Proof using Hmalloc.
  intros Ho. pose proof (oid_arcs_range o Ho) as (R1 & R2 & R). destruct Ho as (H1 & H2 & H3 & H4).
  apply appends_flush. unfold oid_contents.
  eapply appends_ext; [|apply appends_seq; [apply (appends_base128 malloc_ok uninit Hmalloc); exact R|
    apply (appends_oid_from_loop h (arcs o) (length (oid_dotted o))); [done|]]].
  - intros s. rewrite oid_dotted_components, components_cons. unfold CBS_init.
    unfold bind at 2, on at 1. rewrite parse_component by done. rewrite components_cons.
    unfold bind at 2, on at 1. rewrite parse_component by done.
    unfold UINT64_MAX in *. rewrite !Z.gtb_ltb. rewrite u64_small by lia.
    destruct (Z.ltb_spec 2 (arc1 o)); [lia|]. destruct (Z.ltb_spec (2 ^ 64 - 1 - 80) (arc2 o)); [lia|].
    destruct (Z.ltb_spec (arc1 o) 2), (Z.ltb_spec 39 (arc2 o)); cbn [andb orb]; try done; lia.
  - rewrite oid_dotted_components. pose proof (length_components (arc1 o :: arc2 o :: arcs o)).
    simpl in *. lia.
Qed.

Lemma from_loop_sound h n c s s' : bytes_ok c ->
  oid_from_loop malloc_ok uninit n h c s = (Some tt, s') ->
  exists l, Forall (fun v => 0 <= v < 2 ^ 64) l /\ c = components l /\ (c = [] -> l = []).
Proof.
  revert c s. induction n as [|n IH]; intros c s Hc H; cbn [oid_from_loop] in H;
    destruct (Z.eqb_spec (CBS_len c) 0) as [E|E]; try done;
    try (apply zlen_zero in E as ->; exists []; done).
  unfold bind at 1, on in H. destruct (parse_dotted_decimal c) as [[v|] c'] eqn:Ep; [|done].
  apply parse_dotted_sound in Ep as [Hv Hcomp]; [|done]. unfold bind in H.
  destruct (add_base128_integer _ _ _ _ s) as [[[]|] s1]; [|done].
  apply IH in H as (l & Hl & -> & Hnil); [|by eapply component_ok]. exists (v :: l). split; [by constructor|].
  rewrite components_cons. split; [by apply (component_inv _ _ _ Hcomp)|].
  intros ->. cbn in E. done.
Qed.

Lemma oid_from_text_sound h text s s' : bytes_ok text ->
  CBB_add_asn1_oid_from_text malloc_ok uninit h text s = (Some tt, s') ->
  exists o, oid_ok o /\ text = oid_dotted o.
Proof.
  intros Hc H. unfold CBB_add_asn1_oid_from_text, bind at 1 in H.
  destruct (CBB_flush _ _ h s) as [[[]|] s1]; [|done]. cbv zeta in H. unfold CBS_init in H.
  unfold bind at 1, on at 1 in H. destruct (parse_dotted_decimal text) as [[a|] c1] eqn:Ea; [|done].
  apply parse_dotted_sound in Ea as [Ha Hca]; [|done]. pose proof (component_ok _ _ _ Hc Hca) as Hc1.
  unfold bind at 1, on at 1 in H. destruct (parse_dotted_decimal c1) as [[b|] c2] eqn:Eb; [|done].
  apply parse_dotted_sound in Eb as [Hb Hcb]; [|done]. pose proof (component_ok _ _ _ Hc1 Hcb) as Hc2.
  unfold UINT64_MAX in H. rewrite !Z.gtb_ltb in H. destruct (_ || _) eqn:E in H; [done|].
  apply orb_false_iff in E as [E E3]. apply orb_false_iff in E as [E1 E2].
  unfold bind in H. destruct (add_base128_integer _ _ _ _ s1) as [[[]|] s2]; [|done].
  apply from_loop_sound in H as (l & Hl & -> & Hnil); [|done].
  exists (Oid a b l). split.
  - unfold oid_ok, UINT64_MAX. cbn [arc1 arc2 arcs]. bool_hyps.
    split_and!; try done; try lia.
  - rewrite oid_dotted_components, components_cons. cbn [arc1 arc2 arcs].
    assert (E1' : c1 = components (b :: l))
      by (rewrite components_cons; apply (component_inv _ _ _ Hcb); done).
    apply (component_inv _ _ _ Hca); [done|]. intros ->.
    pose proof (components_nonempty b l) as Hne. rewrite <- E1' in Hne. done.
Qed.

(** ** To text *)

Lemma base128_nonempty v l : (CBS_len (base128 v ++ l) =? 0) = false.
Proof.
  unfold base128, CBS_len. rewrite !zlen_app. change (zlen [v mod 128]) with 1.
  pose proof (zlen_nonneg l). pose proof (zlen_nonneg (b128_hi 9 (v / 128))). apply Z.eqb_neq. lia.
Qed.

Lemma base128_length v : 1 <= zlen (base128 v) <= 10.
Proof.
  assert (G : forall n x, zlen (b128_hi n x) <= Z.of_nat n).
  { induction n as [|n IH]; intros x; cbn [b128_hi]; [done|].
    destruct (x =? 0); [unfold zlen; simpl; lia|]. specialize (IH (x / 128)). zlia. }
  unfold base128. rewrite zlen_app. change (zlen [v mod 128]) with 1. specialize (G 9%nat (v / 128)).
  pose proof (zlen_nonneg (b128_hi 9 (v / 128))). lia.
Qed.

Lemma arcs_length l : zlen l <= zlen (concat (base128 <$> l)) <= 10 * zlen l.
Proof.
  induction l as [|v l IH]; [done|]. cbn [fmap list_fmap concat]. rewrite zlen_app, zlen_cons.
  pose proof (base128_length v). lia.
Qed.

Lemma decimal_length v : zlen (decimal v) <= 20.
Proof.
  assert (G : forall n x, zlen (dec_hi n x) <= Z.of_nat n).
  { induction n as [|n IH]; intros x; cbn [dec_hi]; [done|].
    destruct (x =? 0); [unfold zlen; simpl; lia|]. specialize (IH (x / 10)). zlia. }
  unfold decimal. rewrite zlen_app. change (zlen [48 + v mod 10]) with 1. specialize (G 19%nat (v / 10)). lia.
Qed.

Lemma dotted_length l : zlen (dotted l) <= 21 * zlen l.
Proof.
  induction l as [|v l IH]; [done|]. rewrite dotted_cons, !zlen_cons, zlen_app.
  pose proof (decimal_length v). lia.
Qed.

Lemma appends_oid_to_loop h l n : Forall (fun v => 0 <= v < 2 ^ 64) l -> (length l <= n)%nat ->
  appends h (oid_to_loop malloc_ok uninit n h (concat (base128 <$> l))) (dotted l).
Proof using Hmalloc.
  intros Hl. revert n. induction Hl as [|v l Hv Hl IH]; intros n Hn; [destruct n; apply appends_nil|].
  destruct n as [|n]; [simpl in Hn; lia|]. rewrite dotted_cons.
  eapply appends_ext; [|eapply (appends_seq h _ _ [46]); [by apply (appends_u8 malloc_ok uninit Hmalloc)|
    apply appends_seq; [apply (appends_bytes malloc_ok uninit Hmalloc)|apply (IH n); simpl in Hn; lia]]].
  intros s. cbn [oid_to_loop fmap list_fmap concat]. rewrite base128_nonempty.
  symmetry. unfold bind at 1, on. rewrite parse_base128_complete by done. done.
Qed.

Lemma oid_to_text_spec o : oid_ok o -> zlen (arcs o) < 2 ^ 50 ->
  CBS_asn1_oid_to_text malloc_ok uninit (oid_contents o) = Some (oid_dotted o ++ [0]).
Proof using Hmalloc.
  intros Ho Hlen. pose proof (oid_arcs_range o Ho) as (R1 & R2 & R). destruct Ho as (H1 & H2 & H3 & H4).
  pose proof (dotted_length (arcs o)). pose proof (arcs_length (arcs o)).
  unfold CBS_asn1_oid_to_text, oid_contents.
  rewrite (build_and_finish malloc_ok uninit Hmalloc 1 32 _ (oid_dotted o ++ [0])); [done|lia| |].
  { unfold oid_dotted. rewrite dotted_cons. zlia. pose proof (decimal_length (arc1 o)).
    pose proof (decimal_length (arc2 o)). lia. }
  set (v := 40 * arc1 o + arc2 o) in *.
  assert (Hfirst : appends 1
    (if v >=? 80 then CBB_add_bytes malloc_ok uninit 1 [50; 46] ;; add_decimal malloc_ok uninit 1 (v - 80)
     else add_decimal malloc_ok uninit 1 (v / 40) ;; CBB_add_u8 malloc_ok uninit 1 46 ;;
          add_decimal malloc_ok uninit 1 (v mod 40)) (decimal (arc1 o) ++ 46 :: decimal (arc2 o))).
  { rewrite Z.geb_leb. destruct (Z.leb_spec 80 v).
    - replace (arc1 o) with 2 by lia. replace (v - 80) with (arc2 o) by lia.
      apply (appends_seq 1 _ _ [50; 46]); apply (appends_bytes malloc_ok uninit Hmalloc).
    - replace (v / 40) with (arc1 o) by zarith. replace (v mod 40) with (arc2 o) by zarith.
      apply appends_seq; [apply (appends_bytes malloc_ok uninit Hmalloc)|].
      apply (appends_seq 1 _ _ [46]); [by apply (appends_u8 malloc_ok uninit Hmalloc)|].
      apply (appends_bytes malloc_ok uninit Hmalloc). }
  unfold oid_dotted. rewrite dotted_cons, app_comm_cons, app_assoc, <- app_assoc.
  eapply appends_ext; [|apply appends_seq; [exact Hfirst|apply appends_seq;
    [apply (appends_oid_to_loop 1 (arcs o) (length (concat (base128 <$> arcs o)))); [done|unfold zlen in *; lia]|
     apply (appends_u8 malloc_ok uninit Hmalloc 1 0); done]]].
  intros s. symmetry. unfold bind at 1, on. rewrite parse_base128_complete by done. done.
Qed.

(** C30. [CBS_asn1_oid_to_text] inverts [CBB_add_asn1_oid_from_text]: the latter
    accepts a text exactly when it is the dotted form of an object identifier
    whose components fit in 64 bits, what it writes are the DER contents octets,
    and the former prints these octets as the original text. *)
Theorem oid_text_roundtrip text h cap s : bytes_ok text -> zlen text < 2 ^ 28 -> 0 <= cap < 2 ^ 60 ->
  match fst ((CBB_init malloc_ok uninit h cap ;; CBB_add_asn1_oid_from_text malloc_ok uninit h text ;;
              CBB_finish malloc_ok uninit h false) s) with
  | Some der => exists o, oid_ok o /\ text = oid_dotted o /\ der = oid_contents o /\
                  CBS_asn1_oid_to_text malloc_ok uninit der = Some (text ++ [0])
  | None => ~ exists o, oid_ok o /\ text = oid_dotted o
  end.
Proof using Hmalloc.
  intros Hok Hlen Hcap.
  assert (Harcs : forall o, oid_ok o -> text = oid_dotted o -> zlen (arcs o) < 2 ^ 29).
  { intros o _ ->. rewrite oid_dotted_components in Hlen.
    pose proof (length_components (arc1 o :: arc2 o :: arcs o)). unfold zlen in *. simpl in *. lia. }
  assert (Hdec : forall o, oid_ok o -> text = oid_dotted o ->
    fst ((CBB_init malloc_ok uninit h cap ;; CBB_add_asn1_oid_from_text malloc_ok uninit h text ;;
          CBB_finish malloc_ok uninit h false) s) = Some (oid_contents o)).
  { intros o Ho ->. pose proof (Harcs o Ho eq_refl). apply (build_and_finish malloc_ok uninit Hmalloc);
      [done| |by apply appends_oid_from_text].
    unfold oid_contents. rewrite zlen_app. pose proof (arcs_length (arcs o)).
    pose proof (base128_length (40 * arc1 o + arc2 o)). lia. }
  destruct (init_ok malloc_ok uninit Hmalloc h cap s Hcap) as (s1 & E1 & Hw).
  destruct (fst _) as [der|] eqn:E in |- *.
  - unfold bind in E. rewrite E1 in E.
    destruct (CBB_add_asn1_oid_from_text malloc_ok uninit h text s1) as [[[]|] s2] eqn:E2; [|done].
    destruct (oid_from_text_sound h text s1 s2 Hok E2) as (o & Ho & Ht).
    exists o. split; [done|]. split; [done|]. specialize (Hdec o Ho Ht).
    unfold bind in Hdec. rewrite E1, E2, E in Hdec. injection Hdec as ->. split; [done|].
    rewrite oid_to_text_spec, Ht; [done..|]. specialize (Harcs o Ho Ht). lia.
  - intros (o & Ho & Ht). rewrite (Hdec o Ho Ht) in E; done.
Qed.
End theorems.

Lemma oid_text_roundtrip_witness :
  match fst ((CBB_init (fun _ => true) (fun _ => 0) 1 4 ;;
              CBB_add_asn1_oid_from_text (fun _ => true) (fun _ => 0) 1 [50; 46; 53; 46; 52; 46; 51] ;;
              CBB_finish (fun _ => true) (fun _ => 0) 1 false) (Store None ∅)) with
  | Some der => exists o, oid_ok o /\ [50; 46; 53; 46; 52; 46; 51] = oid_dotted o /\ der = oid_contents o /\
      CBS_asn1_oid_to_text (fun _ => true) (fun _ => 0) der = Some ([50; 46; 53; 46; 52; 46; 51] ++ [0])
  | None => ~ exists o, oid_ok o /\ [50; 46; 53; 46; 52; 46; 51] = oid_dotted o
  end.
Proof.
  apply (oid_text_roundtrip (fun _ => true) (fun _ => 0) (fun _ _ => eq_refl)
    [50; 46; 53; 46; 52; 46; 51] 1 4 (Store None ∅)).
  - repeat constructor; discriminate.
  - reflexivity.
  - lia.
Defined.
