(* ===== verification/Modes.v ===== *)
(** * fipsmodule/modes: block cipher modes (cbc.c, cfb.c, ofb.c, ctr.c).

    A block cipher is a function on 16-byte blocks, as [block128_f] with its key.
    Each mode is written with its loops over whole blocks and the bytes left over
    between calls; the theorems compare it with a machine that handles one byte
    at a time, from which chunking and decryption follow. *)

From S2P Require Import Prelude Mem.

(** The whole input is one buffer that the code walks through; the output has
    the same length, except where said. *)

Definition xor_bytes (a b : list Z) : list Z := zip_with Z.lxor a b.

(** A block cipher with a key: [enc] and [dec] are [AES_encrypt] and [AES_decrypt],
    or the two [block128_f] of a cipher, as functions from the block read to the
    block written. *)
Class BlockCipher (enc dec : list Z -> list Z) : Prop := {
  zlen_enc x : zlen (enc x) = 16;
  zlen_dec x : zlen (dec x) = 16;
  enc_bytes x : bytes_ok x -> bytes_ok (enc x);
  dec_bytes x : bytes_ok x -> bytes_ok (dec x);
  dec_enc x : bytes_ok x -> zlen x = 16 -> dec (enc x) = x
}.
Arguments zlen_enc enc dec {_} x.
Arguments zlen_dec enc dec {_} x.
Arguments enc_bytes enc dec {_} x.
Arguments dec_bytes enc dec {_} x.
Arguments dec_enc enc dec {_} x.

(** ** ofb.c and ctr.c: xor with a key stream *)

(** [while (n && len) { *(out++) = *(in++) ^ ks[n]; --len; n = (n + 1) % 16; }] *)
Fixpoint xor_head (ks inp : list Z) (n : Z) : list Z * list Z * Z :=
  match inp with
  | [] => ([], [], n)
  | b :: inp' =>
      if n =? 0 then ([], inp, n)
      else
        let '(out, rest, n') := xor_head ks inp' ((n + 1) mod 16) in
        (Z.lxor b (znth ks n) :: out, rest, n')
  end.

Section block.
(** [block in] is [( *block)(in, out, key)]: the block written to [out]. *)
Context (block : list Z -> list Z).

(** [while (len >= 16)]: [n] is 0 when the loop is entered. *)
Fixpoint ofb_blocks (fuel : nat) (inp ivec : list Z) (n : Z) : list Z * list Z * list Z * Z :=
  match fuel with
  | O => ([], inp, ivec, n)
  | S fuel' =>
      if zlen inp >=? 16 then
        let ivec := block ivec in
        let '(out, rest, ivec', n') := ofb_blocks fuel' (zdrop 16 inp) ivec 0 in
        (xor_bytes (ztake 16 inp) ivec ++ out, rest, ivec', n')
      else ([], inp, ivec, n)
  end.

(** The output, [ivec] and [*num]. *)
Definition CRYPTO_ofb128_encrypt (inp ivec : list Z) (num : Z) : list Z * (list Z * Z) :=
  let '(out1, inp, n) := xor_head ivec inp num in
  let '(out2, inp, ivec, n) := ofb_blocks (length inp) inp ivec n in
  if negb (zlen inp =? 0) then
    let ivec := block ivec in
    (out1 ++ out2 ++ xor_bytes inp (zdrop n ivec), (ivec, n + zlen inp))
  else (out1 ++ out2, (ivec, n)).

(** ** ctr.c *)

(** [do { --n; c += counter[n]; counter[n] = (uint8_t) c; c >>= 8; } while (n);]
    from the last byte to the first. *)
Fixpoint ctr_inc_loop (rev_counter : list Z) (c : Z) : list Z :=
  match rev_counter with
  | [] => []
  | b :: l => let c := u32 (c + b) in u8 c :: ctr_inc_loop l (Z.shiftr c 8)
  end.
Definition ctr128_inc (counter : list Z) : list Z := rev (ctr_inc_loop (rev counter) 1).
Definition ctr96_inc (counter : list Z) : list Z :=
  rev (ctr_inc_loop (rev (ztake 12 counter)) 1) ++ zdrop 12 counter.

Fixpoint ctr128_blocks (fuel : nat) (inp ivec ecount : list Z) (n : Z) : list Z * list Z * list Z * list Z * Z :=
  match fuel with
  | O => ([], inp, ivec, ecount, n)
  | S fuel' =>
      if zlen inp >=? 16 then
        let ecount := block ivec in
        let ivec := ctr128_inc ivec in
        let '(out, rest, ivec', ecount', n') := ctr128_blocks fuel' (zdrop 16 inp) ivec ecount 0 in
        (xor_bytes (ztake 16 inp) ecount ++ out, rest, ivec', ecount', n')
      else ([], inp, ivec, ecount, n)
  end.

(** The output, [ivec], [ecount_buf] and [*num]. *)
Definition CRYPTO_ctr128_encrypt (inp ivec ecount_buf : list Z) (num : Z) : list Z * (list Z * list Z * Z) :=
  let '(out1, inp, n) := xor_head ecount_buf inp num in
  let '(out2, inp, ivec, ecount, n) := ctr128_blocks (length inp) inp ivec ecount_buf n in
  if negb (zlen inp =? 0) then
    let ecount := block ivec in
    let ivec := ctr128_inc ivec in
    (out1 ++ out2 ++ xor_bytes inp (zdrop n ecount), (ivec, ecount, n + zlen inp))
  else (out1 ++ out2, (ivec, ecount, n)).

(** ** cfb.c *)

(** [while (n && len)]; [enc] says which of the two bytes goes to [ivec]. *)
Fixpoint cfb_head (enc : bool) (inp ivec : list Z) (n : Z) : list Z * list Z * list Z * Z :=
  match inp with
  | [] => ([], [], ivec, n)
  | b :: inp' =>
      if n =? 0 then ([], inp, ivec, n)
      else
        let c := Z.lxor (znth ivec n) b in
        let '(out, rest, ivec', n') :=
          cfb_head enc inp' (zwrite n [if enc then c else b] ivec) ((n + 1) mod 16) in
        (c :: out, rest, ivec', n')
  end.

(** [while (len >= 16)]: [n] is 0 when the loop is entered. *)
Fixpoint cfb_blocks (enc : bool) (fuel : nat) (inp ivec : list Z) (n : Z) : list Z * list Z * list Z * Z :=
  match fuel with
  | O => ([], inp, ivec, n)
  | S fuel' =>
      if zlen inp >=? 16 then
        let ivec := block ivec in
        let tmp := xor_bytes ivec (ztake 16 inp) in
        let '(out, rest, ivec', n') :=
          cfb_blocks enc fuel' (zdrop 16 inp) (if enc then tmp else ztake 16 inp) 0 in
        (tmp ++ out, rest, ivec', n')
      else ([], inp, ivec, n)
  end.

(** [while (len--)] in the last block. *)
Fixpoint cfb_tail (enc : bool) (inp ivec : list Z) (n : Z) : list Z * list Z * Z :=
  match inp with
  | [] => ([], ivec, n)
  | b :: inp' =>
      let c := Z.lxor (znth ivec n) b in
      let '(out, ivec', n') := cfb_tail enc inp' (zwrite n [if enc then c else b] ivec) (n + 1) in
      (c :: out, ivec', n')
  end.

(** The output, [ivec] and [*num]. *)
Definition CRYPTO_cfb128_encrypt (enc : bool) (inp ivec : list Z) (num : Z) : list Z * (list Z * Z) :=
  let '(out1, inp, ivec, n) := cfb_head enc inp ivec num in
  let '(out2, inp, ivec, n) := cfb_blocks enc (length inp) inp ivec n in
  if negb (zlen inp =? 0) then
    let '(out3, ivec, n) := cfb_tail enc inp (block ivec) n in
    (out1 ++ out2 ++ out3, (ivec, n))
  else (out1 ++ out2, (ivec, n)).

(** [cfbr_encrypt_block]: one feedback step of [nbits] bits; [inp] has at least
    [(nbits + 7) / 8] bytes. The bytes of [ovec] past the data are not set by
    the code; 0 stands for them. The output and [ivec]. *)
Definition cfbr_encrypt_block (enc : bool) (inp : list Z) (nbits : Z) (ivec : list Z) : list Z * list Z :=
  if (nbits <=? 0) || (nbits >? 128) then ([], ivec)
  else
    let iv' := block ivec in
    let num := (nbits + 7) / 8 in
    let inp := ztake num inp in
    let out := xor_bytes inp iv' in
    let ovec := ivec ++ (if enc then out else inp) ++ replicate (Z.to_nat (17 - num)) 0 in
    let rem := nbits mod 8 in
    let num := nbits / 8 in
    (out,
     if rem =? 0 then ztake 16 (zdrop num ovec)
     else (fun n => u8 (Z.lor (Z.shiftl (znth ovec (n + num)) rem) (Z.shiftr (znth ovec (n + num + 1)) (8 - rem))))
            <$> zseq 16).

Fixpoint CRYPTO_cfb128_8_encrypt (enc : bool) (inp ivec : list Z) : list Z * list Z :=
  match inp with
  | [] => ([], ivec)
  | b :: inp' =>
      let '(out, ivec) := cfbr_encrypt_block enc [b] 8 ivec in
      let '(out', ivec) := CRYPTO_cfb128_8_encrypt enc inp' ivec in
      (out ++ out', ivec)
  end.

(** One bit per step, first the high bit of each byte; [out] is the output
    buffer as it was. [n] counts the bits done. *)
Fixpoint cfb1_loop (enc : bool) (bits : nat) (n : Z) (inp out ivec : list Z) : list Z * list Z :=
  match bits with
  | O => (out, ivec)
  | S bits' =>
      let c := if negb (Z.land (znth inp (n / 8)) (Z.shiftl 1 (7 - n mod 8)) =? 0) then 0x80 else 0 in
      let '(d, ivec) := cfbr_encrypt_block enc [c] 1 ivec in
      let o := u8 (Z.lor (Z.land (znth out (n / 8)) (Z.lnot (Z.shiftl 1 (7 - n mod 8))))
                         (Z.shiftr (Z.land (znth d 0) 0x80) (n mod 8))) in
      cfb1_loop enc bits' (n + 1) inp (zwrite (n / 8) [o] out) ivec
  end.
Definition CRYPTO_cfb128_1_encrypt (enc : bool) (inp out : list Z) (bits : Z) (ivec : list Z) : list Z * list Z :=
  cfb1_loop enc (Z.to_nat bits) 0 inp out ivec.

(** ** cbc.c

    The last block may be incomplete: the code then reads and writes the bytes
    of the buffers up to the next multiple of 16, and [len] says where the data
    ends. *)

Fixpoint cbc_blocks (fuel : nat) (inp : list Z) (len : Z) (iv : list Z) : list Z * list Z * Z * list Z :=
  match fuel with
  | O => ([], inp, len, iv)
  | S fuel' =>
      if len >=? 16 then
        let out := block (xor_bytes (ztake 16 inp) iv) in
        let '(out', rest, len', iv') := cbc_blocks fuel' (zdrop 16 inp) (len - 16) out in
        (out ++ out', rest, len', iv')
      else ([], inp, len, iv)
  end.

(** The output and [ivec]. The second loop of the code runs at most once: it
    starts with [len < 16] and leaves when [len <= 16]. *)
Definition CRYPTO_cbc128_encrypt (inp : list Z) (len : Z) (ivec : list Z) : list Z * list Z :=
  if len =? 0 then ([], ivec)
  else
    let '(out, inp, len, iv) := cbc_blocks (Z.to_nat len) inp len ivec in
    if negb (len =? 0) then
      let out' := block (xor_bytes (ztake len inp) iv ++ zdrop len iv) in
      (out ++ out', out')
    else (out, iv).

(** Decryption to a separate buffer keeps a pointer to the last block of the
    input; decryption in place goes through a temporary block. *)
Fixpoint cbc_dec_apart (fuel : nat) (inp : list Z) (len : Z) (iv : list Z) : list Z * list Z * Z * list Z :=
  match fuel with
  | O => ([], inp, len, iv)
  | S fuel' =>
      if len >=? 16 then
        let out := xor_bytes (block (ztake 16 inp)) iv in
        let '(out', rest, len', iv') := cbc_dec_apart fuel' (zdrop 16 inp) (len - 16) (ztake 16 inp) in
        (out ++ out', rest, len', iv')
      else ([], inp, len, iv)
  end.
Fixpoint cbc_dec_inplace (fuel : nat) (inp : list Z) (len : Z) (ivec : list Z) : list Z * list Z * Z * list Z :=
  match fuel with
  | O => ([], inp, len, ivec)
  | S fuel' =>
      if len >=? 16 then
        let tmp := block (ztake 16 inp) in
        let c := ztake 16 inp in
        let out := xor_bytes tmp ivec in
        let '(out', rest, len', ivec') := cbc_dec_inplace fuel' (zdrop 16 inp) (len - 16) c in
        (out ++ out', rest, len', ivec')
      else ([], inp, len, ivec)
  end.
Definition CRYPTO_cbc128_decrypt (apart : bool) (inp : list Z) (len : Z) (ivec : list Z) : list Z * list Z :=
  if len =? 0 then ([], ivec)
  else
    let '(out, inp, len, ivec) :=
      (if apart then cbc_dec_apart else cbc_dec_inplace) (Z.to_nat len) inp len ivec in
    if negb (len =? 0) then
      let tmp := block (ztake 16 inp) in
      (out ++ xor_bytes (ztake len tmp) ivec, ztake 16 inp)
    else (out, ivec).
End block.

Section ctr32.
(** [func in blocks ivec] is the output of the [ctr128_f]; it counts with the
    last 32 bits of [ivec] only and does not update it. *)
Context (func : list Z -> Z -> list Z -> list Z).

Fixpoint ctr32_batches (fuel : nat) (inp ivec : list Z) (ctr32 : Z) : list Z * list Z * list Z * Z :=
  match fuel with
  | O => ([], inp, ivec, ctr32)
  | S fuel' =>
      if zlen inp >=? 16 then
        let blocks := zlen inp / 16 in
        let blocks := if blocks >? 2 ^ 28 then 2 ^ 28 else blocks in
        let ctr32 := u32 (ctr32 + u32 blocks) in
        let '(blocks, ctr32) := if ctr32 <? blocks then (blocks - ctr32, 0) else (blocks, ctr32) in
        let out := func (ztake (16 * blocks) inp) blocks ivec in
        let ivec := ztake 12 ivec ++ CRYPTO_store_u32_be ctr32 in
        let ivec := if ctr32 =? 0 then ctr96_inc ivec else ivec in
        let '(out', rest, ivec', ctr32') := ctr32_batches fuel' (zdrop (16 * blocks) inp) ivec ctr32 in
        (out ++ out', rest, ivec', ctr32')
      else ([], inp, ivec, ctr32)
  end.

Definition CRYPTO_ctr128_encrypt_ctr32 (inp ivec ecount_buf : list Z) (num : Z) : list Z * (list Z * list Z * Z) :=
  let '(out1, inp, n) := xor_head ecount_buf inp num in
  let ctr32 := CRYPTO_load_u32_be (zdrop 12 ivec) in
  let '(out2, inp, ivec, ctr32) := ctr32_batches (length inp) inp ivec ctr32 in
  if negb (zlen inp =? 0) then
    let ecount := func (replicate 16 0) 1 ivec in
    let ctr32 := u32 (ctr32 + 1) in
    let ivec := ztake 12 ivec ++ CRYPTO_store_u32_be ctr32 in
    let ivec := if ctr32 =? 0 then ctr96_inc ivec else ivec in
    (out1 ++ out2 ++ xor_bytes inp (zdrop n ecount), (ivec, ecount, n + zlen inp))
  else (out1 ++ out2, (ivec, ecount_buf, n)).
End ctr32.

(** ** A machine that takes one byte at a time *)

Section machine.
Context {S : Type} (step : S -> Z -> S * Z).

Fixpoint run (s : S) (l : list Z) : S * list Z :=
  match l with
  | [] => (s, [])
  | b :: l' =>
      let '(s1, c) := step s b in
      let '(s2, out) := run s1 l' in (s2, c :: out)
  end.

Lemma run_app s l1 l2 :
  run s (l1 ++ l2) = (let '(s1, o1) := run s l1 in let '(s2, o2) := run s1 l2 in (s2, o1 ++ o2)).
Proof.
  revert s. induction l1 as [|b l1 IH]; intros s; cbn [run app]; [destruct (run s l2); done|].
  destruct (step s b) as [s1 c]. rewrite IH. destruct (run s1 l1) as [s2 o1], (run s2 l2). done.
Qed.
Lemma run_app_eq s l1 l2 s1 o1 s2 o2 : run s l1 = (s1, o1) -> run s1 l2 = (s2, o2) ->
  run s (l1 ++ l2) = (s2, o1 ++ o2).
Proof. intros H1 H2. rewrite run_app, H1, H2. done. Qed.
End machine.

(** A machine that undoes another byte by byte undoes it. *)
Lemma run_inverse {S} (f g : S -> Z -> S * Z) :
  (forall s b s' c, f s b = (s', c) -> g s c = (s', b)) ->
  forall l s s' out, run f s l = (s', out) -> run g s out = (s', l).
Proof.
  intros Hfg. induction l as [|b l IH]; intros s s' out; cbn [run]; [intros [= <- <-]; done|].
  destruct (f s b) as [s1 c] eqn:Ef. destruct (run f s1 l) as [s2 o] eqn:Er. intros [= <- <-].
  cbn [run]. rewrite (Hfg _ _ _ _ Ef), (IH _ _ _ Er). done.
Qed.

Lemma lxor_involutive x y : Z.lxor (Z.lxor x y) y = x.
Proof. rewrite Z.lxor_assoc, Z.lxor_nilpotent. apply Z.lxor_0_r. Qed.

(** Reading the byte at the head of a dropped list. *)
Lemma zdrop_znth (l : list Z) n : 0 <= n < zlen l -> zdrop n l = znth l n :: zdrop (n + 1) l.
Proof.
  intros Hn. unfold zdrop, znth, zlen in *.
  replace (Z.to_nat (n + 1)) with (S (Z.to_nat n)) by lia.
  destruct (nth_lookup_or_length l (Z.to_nat n) 0) as [E|]; [|lia].
  apply drop_S. done.
Qed.

Lemma zlen_xor_bytes a b : zlen a <= zlen b -> zlen (xor_bytes a b) = zlen a.
Proof. unfold zlen, xor_bytes. intros. rewrite length_zip_with. lia. Qed.

Lemma xor_bytes_ok a b : bytes_ok a -> bytes_ok b -> bytes_ok (xor_bytes a b).
Proof.
  intros Ha Hb. revert b Hb. induction Ha as [|x a Hx Ha IH]; intros b Hb; [constructor|].
  destruct Hb as [|y b Hy Hb]; constructor; [|apply IH; done].
  unfold is_byte in *. apply (lxor_range 8); lia.
Qed.
Lemma zlen_xor_bytes' a b : zlen b <= zlen a -> zlen (xor_bytes a b) = zlen b.
Proof. unfold zlen, xor_bytes. intros. rewrite length_zip_with. lia. Qed.

(** ** Key stream modes *)

Section keystream.
(** [ks k] is the current block of the key stream, [refill k] moves to the next. *)
Context {K : Type} (ks : K -> list Z) (refill : K -> K).
Hypothesis zlen_ks : forall k, zlen (ks (refill k)) = 16.

Definition ks_step (s : K * Z) (b : Z) : (K * Z) * Z :=
  let '(k, n) := s in
  let k := if n =? 0 then refill k else k in
  ((k, (n + 1) mod 16), Z.lxor b (znth (ks k) n)).

(** Inside one block of the key stream. *)
Lemma ks_run_within k l : forall n, zlen (ks k) = 16 -> 0 < n -> n + zlen l <= 16 ->
  run ks_step (k, n) l = ((k, (n + zlen l) mod 16), xor_bytes l (zdrop n (ks k))) \/ (l = [] /\ n = 16).
Proof.
  induction l as [|b l IH]; intros n Hk Hn Hl; rewrite ?zlen_cons in *; pose proof (zlen_nonneg (@nil Z)).
  - rewrite zlen_nil in *. destruct (decide (n = 16)) as [->|]; [right; done|left].
    cbn [run]. rewrite Z.add_0_r, Z.mod_small by lia. done.
  - left. pose proof (zlen_nonneg l). cbn [run ks_step].
    destruct (Z.eqb_spec n 0); [lia|]. rewrite zdrop_znth by lia.
    destruct (decide (n = 15)) as [->|].
    + assert (l = []) as -> by (apply zlen_zero; lia). done.
    + rewrite (Z.mod_small (n + 1)) by lia.
      destruct (IH (n + 1) Hk) as [E|[-> ?]]; [lia|lia| |lia].
      rewrite E. replace (n + (1 + zlen l)) with (n + 1 + zlen l) by lia. done.
Qed.

(** A whole or partial block from a block boundary. *)
Lemma ks_run_block k l : 0 < zlen l <= 16 ->
  run ks_step (k, 0) l = ((refill k, zlen l mod 16), xor_bytes l (ks (refill k))).
Proof using zlen_ks.
  intros Hl. destruct l as [|b l]; [unfold zlen in Hl; simpl in Hl; lia|]. rewrite zlen_cons in Hl |- *.
  pose proof (zlen_ks k) as Hk.
  assert (EX : xor_bytes (b :: l) (ks (refill k)) = Z.lxor b (znth (ks (refill k)) 0) :: xor_bytes l (zdrop 1 (ks (refill k)))).
  { rewrite <- (zdrop_0 (ks (refill k))) at 1. rewrite zdrop_znth by lia. done. }
  rewrite EX. cbn [run ks_step]. change (0 =? 0) with true. cbn match. change ((0 + 1) mod 16) with 1.
  destruct (ks_run_within (refill k) l 1 Hk) as [E|[-> ?]]; [lia|lia| |lia].
  rewrite E. done.
Qed.

Lemma xor_head_run k n inp out rest n' : zlen (ks k) = 16 \/ n = 0 -> 0 <= n < 16 ->
  xor_head (ks k) inp n = (out, rest, n') ->
  exists l, inp = l ++ rest /\ run ks_step (k, n) l = ((k, n'), out) /\ 0 <= n' < 16 /\ (rest = [] \/ n' = 0) /\
    (zlen (ks k) = 16 \/ n' = 0).
Proof using.
  revert n out. induction inp as [|b inp IH]; intros n out Hk Hn; cbn [xor_head].
  - intros [= <- <- <-]. exists []. split_and!; try done; try lia. left; done.
  - destruct (Z.eqb_spec n 0) as [->|Hn0].
    + intros [= <- <- <-]. exists []. split_and!; try done; lia || (right; done).
    + destruct (xor_head (ks k) inp ((n + 1) mod 16)) as [[o r] m] eqn:E. intros [= <- <- <-].
      apply IH in E as (l & -> & E & ? & ? & ?); [|left; lia|apply Z.mod_pos_bound; lia].
      exists (b :: l). split_and!; try done; try lia. cbn [run ks_step].
      destruct (Z.eqb_spec n 0); [lia|]. rewrite E. done.
Qed.
End keystream.

(** *** ofb.c *)

Section modes.
Context (block : list Z -> list Z).
Hypothesis zlen_block : forall x, zlen (block x) = 16.

(** One byte of output feedback. *)
Definition ofb_step : list Z * Z -> Z -> (list Z * Z) * Z := ks_step id block.

Lemma ofb_blocks_run fuel : forall inp ivec n out rest ivec' n', (length inp <= fuel)%nat ->
  inp = [] \/ n = 0 -> ofb_blocks block fuel inp ivec n = (out, rest, ivec', n') ->
  exists l, inp = l ++ rest /\ run ofb_step (ivec, n) l = ((ivec', n'), out) /\ zlen rest < 16 /\
    (rest = [] \/ n' = 0) /\ (n' = 0 \/ (n' = n /\ ivec' = ivec)).
Proof using zlen_block.
  induction fuel as [|fuel IH]; intros inp ivec n out rest ivec' n' Hf Hn; cbn [ofb_blocks].
  - destruct inp; [|simpl in Hf; lia]. intros [= <- <- <- <-]. exists []. split_and!; try done; right; done.
  - destruct (Z.geb_spec (zlen inp) 16) as [H16|H16].
    2: { intros [= <- <- <- <-]. exists []. split_and!; try done. right; done. }
    destruct (ofb_blocks block fuel (zdrop 16 inp) (block ivec) 0) as [[[o r] iv] m] eqn:E. intros [= <- <- <- <-].
    assert (n = 0) as -> by (destruct Hn as [->|]; [unfold zlen in H16; simpl in H16; lia|done]).
    apply IH in E as (l & El & E & ? & ? & Em); [|unfold zdrop, zlen in *; rewrite length_drop; lia|right; done].
    assert (m = 0) as -> by (destruct Em as [|[? ?]]; done).
    exists (ztake 16 inp ++ l). split_and!; try done; [| |left; done].
    + rewrite <- app_assoc, <- El, ztake_zdrop. done.
    + assert (zlen (ztake 16 inp) = 16) as H16' by (rewrite zlen_ztake; lia).
      eapply run_app_eq; [|exact E].
      pose proof (ks_run_block id block zlen_block ivec (ztake 16 inp)) as B. rewrite H16' in B. apply B. lia.
Qed.

(** [CRYPTO_ofb128_encrypt] is the byte machine. *)
Lemma ofb_run inp ivec num : zlen ivec = 16 \/ num = 0 -> 0 <= num < 16 ->
  exists s out, run ofb_step (ivec, num) inp = (s, out) /\
    CRYPTO_ofb128_encrypt block inp ivec num = (out, s) /\ 0 <= snd s < 16 /\ (zlen (fst s) = 16 \/ snd s = 0).
Proof using zlen_block.
  intros Hiv Hn. unfold CRYPTO_ofb128_encrypt.
  destruct (xor_head ivec inp num) as [[out1 inp1] n1] eqn:E1.
  apply (xor_head_run id block) in E1 as (l1 & -> & R1 & Hn1 & Hz1 & Hk1); [|done|done].
  destruct (ofb_blocks block (length inp1) inp1 ivec n1) as [[[out2 inp2] iv2] n2] eqn:E2.
  apply ofb_blocks_run in E2 as (l2 & -> & R2 & Hr & Hz2 & En2); [|done|done].
  pose proof (run_app_eq _ _ _ _ _ _ _ _ R1 R2) as R12. rewrite app_assoc.
  destruct (Z.eqb_spec (zlen inp2) 0) as [H0|H0]; cbn [negb].
  - apply zlen_zero in H0 as ->. rewrite app_nil_r. eexists _, _. split_and!; [exact R12|done|cbn; lia..|].
    cbn. destruct En2 as [->|[-> ->]]; [right; done|exact Hk1].
  - pose proof (zlen_nonneg inp2). assert (n2 = 0) as -> by (destruct Hz2 as [->|]; done).
    pose proof (ks_run_block id block zlen_block iv2 inp2 ltac:(lia)) as R3. rewrite Z.mod_small in R3 by lia.
    eexists _, _. split_and!; [exact (run_app_eq _ _ _ _ _ _ _ _ R12 R3)|rewrite <- app_assoc; done|cbn; lia..|].
    cbn. left. apply zlen_block.
Qed.

(** *** ctr.c *)

(** The block cipher in counter mode: [(ivec, ecount_buf)]. *)
Definition ctr_refill (k : list Z * list Z) : list Z * list Z := (ctr128_inc (fst k), block (fst k)).
Definition ctr_step : (list Z * list Z) * Z -> Z -> ((list Z * list Z) * Z) * Z := ks_step snd ctr_refill.

Lemma zlen_ctr_refill k : zlen (snd (ctr_refill k)) = 16.
Proof using zlen_block. apply zlen_block. Qed.

Lemma ctr_blocks_run fuel : forall inp ivec ec n out rest ivec' ec' n', (length inp <= fuel)%nat ->
  inp = [] \/ n = 0 -> ctr128_blocks block fuel inp ivec ec n = (out, rest, ivec', ec', n') ->
  exists l, inp = l ++ rest /\ run ctr_step ((ivec, ec), n) l = (((ivec', ec'), n'), out) /\ zlen rest < 16 /\
    (rest = [] \/ n' = 0) /\ (n' = 0 \/ (n' = n /\ ec' = ec)).
Proof using zlen_block.
  induction fuel as [|fuel IH]; intros inp ivec ec n out rest ivec' ec' n' Hf Hn; cbn [ctr128_blocks].
  - destruct inp; [|simpl in Hf; lia]. intros [= <- <- <- <- <-]. exists []. split_and!; try done; right; done.
  - destruct (Z.geb_spec (zlen inp) 16) as [H16|H16].
    2: { intros [= <- <- <- <- <-]. exists []. split_and!; try done. right; done. }
    destruct (ctr128_blocks block fuel (zdrop 16 inp) (ctr128_inc ivec) (block ivec) 0) as [[[[o r] iv] e] m] eqn:E.
    intros [= <- <- <- <- <-].
    assert (n = 0) as -> by (destruct Hn as [->|]; [unfold zlen in H16; simpl in H16; lia|done]).
    apply IH in E as (l & El & E & ? & ? & Em); [|unfold zdrop, zlen in *; rewrite length_drop; lia|right; done].
    assert (m = 0) as -> by (destruct Em as [|[? ?]]; done).
    exists (ztake 16 inp ++ l). split_and!; try done; [| |left; done].
    + rewrite <- app_assoc, <- El, ztake_zdrop. done.
    + assert (zlen (ztake 16 inp) = 16) as H16' by (rewrite zlen_ztake; lia).
      eapply run_app_eq; [|exact E].
      pose proof (ks_run_block snd ctr_refill zlen_ctr_refill (ivec, ec) (ztake 16 inp)) as B. rewrite H16' in B. apply B. lia.
Qed.

(** [CRYPTO_ctr128_encrypt] is the byte machine. *)
Lemma ctr_run inp ivec ec num : zlen ec = 16 \/ num = 0 -> 0 <= num < 16 ->
  exists s out, run ctr_step ((ivec, ec), num) inp = (s, out) /\
    CRYPTO_ctr128_encrypt block inp ivec ec num = (out, s) /\ 0 <= snd s < 16 /\ (zlen (snd (fst s)) = 16 \/ snd s = 0).
Proof using zlen_block.
  intros Hiv Hn. unfold CRYPTO_ctr128_encrypt.
  destruct (xor_head ec inp num) as [[out1 inp1] n1] eqn:E1.
  apply (xor_head_run snd ctr_refill (ivec, ec)) in E1 as (l1 & -> & R1 & Hn1 & Hz1 & Hk1); [|done|done].
  destruct (ctr128_blocks block (length inp1) inp1 ivec ec n1) as [[[[out2 inp2] iv2] ec2] n2] eqn:E2.
  apply ctr_blocks_run in E2 as (l2 & -> & R2 & Hr & Hz2 & En2); [|done|done].
  pose proof (run_app_eq _ _ _ _ _ _ _ _ R1 R2) as R12. rewrite app_assoc.
  destruct (Z.eqb_spec (zlen inp2) 0) as [H0|H0]; cbn [negb].
  - apply zlen_zero in H0 as ->. rewrite app_nil_r. eexists _, _.
    split_and!; [exact R12|done|cbn; destruct En2 as [->|[-> ->]]; lia..|].
    cbn. destruct En2 as [->|[-> ->]]; [right; done|exact Hk1].
  - pose proof (zlen_nonneg inp2). assert (n2 = 0) as -> by (destruct Hz2 as [->|]; done).
    pose proof (ks_run_block snd ctr_refill zlen_ctr_refill (iv2, ec2) inp2 ltac:(lia)) as R3. rewrite Z.mod_small in R3 by lia.
    eexists _, _. split_and!; [exact (run_app_eq _ _ _ _ _ _ _ _ R12 R3)|rewrite <- app_assoc; done|cbn; lia..|].
    cbn. left. apply zlen_block.
Qed.

(** *** cfb.c *)

(** One byte of cipher feedback. *)
Definition cfb_step (enc : bool) (s : list Z * Z) (b : Z) : (list Z * Z) * Z :=
  let '(ivec, n) := s in
  let ivec := if n =? 0 then block ivec else ivec in
  let c := Z.lxor (znth ivec n) b in
  ((zwrite n [if enc then c else b] ivec, (n + 1) mod 16), c).

Lemma zlen_zwrite_1 n (x : Z) l : 0 <= n < zlen l -> zlen (zwrite n [x] l) = zlen l.
Proof using. intros. apply zlen_zwrite; change (zlen [x]) with 1; lia. Qed.

Lemma cfb_head_run enc inp : forall ivec n out rest ivec' n', zlen ivec = 16 -> 0 <= n < 16 ->
  cfb_head enc inp ivec n = (out, rest, ivec', n') ->
  exists l, inp = l ++ rest /\ run (cfb_step enc) (ivec, n) l = ((ivec', n'), out) /\ zlen ivec' = 16 /\
    0 <= n' < 16 /\ (rest = [] \/ n' = 0).
Proof using.
  induction inp as [|b inp IH]; intros ivec n out rest ivec' n' Hiv Hn; cbn [cfb_head].
  - intros [= <- <- <- <-]. exists []. split_and!; try done; lia || (left; done).
  - destruct (Z.eqb_spec n 0) as [->|Hn0].
    + intros [= <- <- <- <-]. exists []. split_and!; try done; lia || (right; done).
    + set (c := Z.lxor (znth ivec n) b).
      destruct (cfb_head enc inp (zwrite n [if enc then c else b] ivec) ((n + 1) mod 16)) as [[[o r] iv] m] eqn:E.
      intros [= <- <- <- <-].
      apply IH in E as (l & -> & E & ? & ? & ?); [|rewrite zlen_zwrite_1; lia|apply Z.mod_pos_bound; lia].
      exists (b :: l). split_and!; try done; try lia. cbn [run cfb_step].
      destruct (Z.eqb_spec n 0); [lia|]. fold c. rewrite E. done.
Qed.

Lemma cfb_tail_run enc inp : forall ivec n out ivec' n', zlen ivec = 16 -> 0 < n -> n + zlen inp < 16 ->
  cfb_tail enc inp ivec n = (out, ivec', n') ->
  run (cfb_step enc) (ivec, n) inp = ((ivec', n'), out) /\ zlen ivec' = 16 /\ 0 <= n' < 16.
Proof using.
  induction inp as [|b inp IH]; intros ivec n out ivec' n' Hiv Hn Hl; cbn [cfb_tail].
  - intros [= <- <- <-]. unfold zlen in Hl; simpl in Hl. split_and!; try done; lia.
  - rewrite zlen_cons in Hl. pose proof (zlen_nonneg inp). set (c := Z.lxor (znth ivec n) b).
    destruct (cfb_tail enc inp (zwrite n [if enc then c else b] ivec) (n + 1)) as [[o iv] m] eqn:E.
    intros [= <- <- <-]. apply IH in E as (E & ? & ?); [|rewrite zlen_zwrite_1; lia|lia|lia].
    split_and!; try done; try lia. cbn [run cfb_step]. destruct (Z.eqb_spec n 0); [lia|]. fold c.
    rewrite Z.mod_small, E by lia. done.
Qed.

Lemma zdrop_zwrite_1 n (x : Z) l : 0 <= n < zlen l -> zdrop (n + 1) (zwrite n [x] l) = zdrop (n + 1) l.
Proof using.
  intros. unfold zwrite. rewrite app_assoc. apply zdrop_app. rewrite zlen_app, zlen_ztake. change (zlen [x]) with 1. lia.
Qed.
Lemma zwrite_cons n (x : Z) (l iv : list Z) : 0 <= n -> n + 1 + zlen l <= zlen iv ->
  zwrite (n + 1) l (zwrite n [x] iv) = zwrite n (x :: l) iv.
Proof using.
  intros Hn Hl. pose proof (zlen_nonneg l). unfold zwrite at 1 3. rewrite zlen_cons.
  replace (n + (1 + zlen l)) with (n + 1 + zlen l) by lia.
  assert (zlen (ztake n iv ++ [x]) = n + 1) as HL by (rewrite zlen_app, zlen_ztake; change (zlen [x]) with 1; lia).
  unfold zwrite. rewrite !app_assoc. rewrite (ztake_app (n + 1)) by lia.
  rewrite zdrop_app_ge by lia. rewrite HL.
  replace (n + 1 + zlen l - (n + 1)) with (zlen l) by lia. change (zlen [x]) with 1.
  rewrite zdrop_zdrop by lia. rewrite <- !app_assoc. done.
Qed.

Lemma cfb_run_within enc l : forall iv n, zlen iv = 16 -> 0 < n < 16 -> n + zlen l <= 16 ->
  run (cfb_step enc) (iv, n) l =
    ((zwrite n (if enc then xor_bytes (zdrop n iv) l else l) iv, (n + zlen l) mod 16), xor_bytes (zdrop n iv) l).
Proof using.
  induction l as [|b l IH]; intros iv n Hiv Hn Hl.
  - cbn [run]. rewrite zlen_nil, Z.add_0_r, Z.mod_small by lia.
    assert (forall x : list Z, xor_bytes x [] = []) as -> by (intros []; done).
    assert (zwrite n [] iv = iv) as E.
    { unfold zwrite. rewrite zlen_nil, Z.add_0_r. cbn [app]. apply ztake_zdrop. }
    destruct enc; rewrite E; done.
  - rewrite zlen_cons in Hl |- *. pose proof (zlen_nonneg l). cbn [run cfb_step].
    destruct (Z.eqb_spec n 0); [lia|]. set (c := Z.lxor (znth iv n) b).
    assert (EX : xor_bytes (zdrop n iv) (b :: l) = c :: xor_bytes (zdrop (n + 1) iv) l) by (rewrite zdrop_znth by lia; done).
    rewrite EX. destruct (decide (n = 15)) as [->|].
    + assert (l = []) as -> by (apply zlen_zero; lia). cbn [run].
      assert (forall x : list Z, xor_bytes x [] = []) as -> by (intros []; done). destruct enc; done.
    + rewrite (Z.mod_small (n + 1)) by lia. rewrite IH; [|rewrite zlen_zwrite_1; lia|lia|lia].
      rewrite zdrop_zwrite_1 by lia. replace (n + (1 + zlen l)) with (n + 1 + zlen l) by lia.
      assert (zlen (xor_bytes (zdrop (n + 1) iv) l) = zlen l) by (rewrite zlen_xor_bytes'; rewrite ?zlen_zdrop; lia).
      destruct enc; rewrite zwrite_cons by lia; done.
Qed.

Lemma cfb_run_block enc iv l : zlen l = 16 ->
  run (cfb_step enc) (iv, 0) l =
    ((if enc then xor_bytes (block iv) l else l, 0), xor_bytes (block iv) l).
Proof using zlen_block.
  intros Hl. destruct l as [|b l]; [done|]. rewrite zlen_cons in Hl. pose proof (zlen_block iv) as Hb.
  cbn [run cfb_step]. change (0 =? 0) with true. cbn match. change ((0 + 1) mod 16) with 1.
  set (c := Z.lxor (znth (block iv) 0) b).
  assert (EX : xor_bytes (block iv) (b :: l) = c :: xor_bytes (zdrop 1 (block iv)) l).
  { rewrite <- (zdrop_0 (block iv)) at 1. rewrite zdrop_znth by lia. done. }
  rewrite EX. rewrite cfb_run_within; [|rewrite zlen_zwrite_1; lia|lia|lia].
  rewrite (zdrop_zwrite_1 0) by lia. replace (1 + zlen l) with 16 by lia.
  assert (HW : forall x y, zlen y = 15 -> zwrite 1 y (zwrite 0 [x] (block iv)) = x :: y).
  { intros x y Hy. rewrite (zwrite_cons 0) by lia. unfold zwrite. rewrite zlen_cons, Hy, ztake_0.
    rewrite zdrop_all by lia. apply app_nil_r. }
  destruct enc; rewrite HW; try done; [|lia]. rewrite zlen_xor_bytes'; rewrite ?zlen_zdrop; lia.
Qed.

Lemma cfb_blocks_run enc fuel : forall inp ivec n out rest ivec' n', (length inp <= fuel)%nat ->
  inp = [] \/ n = 0 -> zlen ivec = 16 -> cfb_blocks block enc fuel inp ivec n = (out, rest, ivec', n') ->
  exists l, inp = l ++ rest /\ run (cfb_step enc) (ivec, n) l = ((ivec', n'), out) /\ zlen rest < 16 /\
    (rest = [] \/ n' = 0) /\ (n' = 0 \/ n' = n) /\ zlen ivec' = 16.
Proof using zlen_block.
  induction fuel as [|fuel IH]; intros inp ivec n out rest ivec' n' Hf Hn Hiv; cbn [cfb_blocks].
  - destruct inp; [|simpl in Hf; lia]. intros [= <- <- <- <-]. exists []. split_and!; try done; right; done.
  - destruct (Z.geb_spec (zlen inp) 16) as [H16|H16].
    2: { intros [= <- <- <- <-]. exists []. split_and!; try done. right; done. }
    set (tmp := xor_bytes (block ivec) (ztake 16 inp)).
    assert (zlen (ztake 16 inp) = 16) as H16' by (rewrite zlen_ztake; lia).
    destruct (cfb_blocks block enc fuel (zdrop 16 inp) (if enc then tmp else ztake 16 inp) 0) as [[[o r] iv] m] eqn:E.
    intros [= <- <- <- <-].
    assert (n = 0) as -> by (destruct Hn as [->|]; [unfold zlen in H16; simpl in H16; lia|done]).
    apply IH in E as (l & El & E & ? & ? & Em & ?).
    2: { unfold zdrop, zlen in *. rewrite length_drop. lia. }
    2: { right. done. }
    2: { destruct enc; [|done]. unfold tmp. rewrite zlen_xor_bytes'; rewrite ?zlen_block; lia. }
    assert (m = 0) as -> by (destruct Em as [|?]; done).
    exists (ztake 16 inp ++ l). split_and!; try done.
    + rewrite <- app_assoc, <- El, ztake_zdrop. done.
    + eapply run_app_eq; [apply cfb_run_block; done|exact E].
Qed.

(** [CRYPTO_cfb128_encrypt] is the byte machine. *)
Lemma cfb_run enc inp ivec num : zlen ivec = 16 -> 0 <= num < 16 ->
  exists s out, run (cfb_step enc) (ivec, num) inp = (s, out) /\
    CRYPTO_cfb128_encrypt block enc inp ivec num = (out, s) /\ 0 <= snd s < 16 /\ zlen (fst s) = 16.
Proof using zlen_block.
  intros Hiv Hn. unfold CRYPTO_cfb128_encrypt.
  destruct (cfb_head enc inp ivec num) as [[[out1 inp1] iv1] n1] eqn:E1.
  apply cfb_head_run in E1 as (l1 & -> & R1 & Hiv1 & Hn1 & Hz1); [|done|done].
  destruct (cfb_blocks block enc (length inp1) inp1 iv1 n1) as [[[out2 inp2] iv2] n2] eqn:E2.
  apply cfb_blocks_run in E2 as (l2 & -> & R2 & Hr & Hz2 & En2 & Hiv2); [|done|done|done].
  pose proof (run_app_eq _ _ _ _ _ _ _ _ R1 R2) as R12.
  destruct inp2 as [|b inp2].
  - rewrite !app_nil_r in *. cbn. eexists _, _. split_and!; [exact R12|done|cbn; destruct En2; subst; lia..|done].
  - assert (n2 = 0) as -> by (destruct Hz2; done). rewrite zlen_cons in *. pose proof (zlen_nonneg inp2).
    destruct (Z.eqb_spec (1 + zlen inp2) 0); [lia|]. cbn [negb cfb_tail].
    set (c := Z.lxor (znth (block iv2) 0) b).
    destruct (cfb_tail enc inp2 (zwrite 0 [if enc then c else b] (block iv2)) (0 + 1)) as [[o iv3] n3] eqn:E3.
    apply cfb_tail_run in E3 as (R3 & Hiv3 & Hn3); [|rewrite zlen_zwrite_1; rewrite ?zlen_block; lia|lia|lia].
    eexists _, _. split_and!; [|done|cbn; lia..|done]. rewrite app_assoc.
    rewrite app_assoc. eapply run_app_eq; [exact R12|]. cbn [run cfb_step].
    change (0 =? 0) with true. cbn match. fold c. change ((0 + 1) mod 16) with (0 + 1). rewrite R3. done.
Qed.
End modes.

(** ** Modes as byte machines *)

(** [process inp s] is the output and the new state of a call. *)
Class ByteMode {S} (process : list Z -> S -> list Z * S) := {
  bm_step : S -> Z -> S * Z;
  bm_ok : S -> Prop;
  bm_run l s : bm_ok s -> process l s = (snd (run bm_step s l), fst (run bm_step s l)) /\ bm_ok (fst (run bm_step s l))
}.
Arguments bm_step {S} process {_}.
Arguments bm_ok {S} process {_}.

(** Two calls in a row are one call. *)
Lemma process_app {S} (process : list Z -> S -> list Z * S) `{!ByteMode process} s a b : bm_ok process s ->
  process (a ++ b) s = (let '(o1, s1) := process a s in let '(o2, s2) := process b s1 in (o1 ++ o2, s2)).
Proof.
  intros Hs. destruct (bm_run a s Hs) as [Ea Hs1]. destruct (bm_run b _ Hs1) as [Eb _].
  destruct (bm_run (a ++ b) s Hs) as [Eab _]. rewrite Eab, Ea, Eb, run_app.
  destruct (run (bm_step process) s a) as [s1 o1]. cbn [fst snd].
  destruct (run (bm_step process) s1 b) as [s2 o2]. done.
Qed.

(** A call of one mode on the output of another that its steps undo. *)
Lemma process_inverse {S} (f g : list Z -> S -> list Z * S) `{!ByteMode f} `{!ByteMode g} s l :
  (forall s b s' c, bm_step f s b = (s', c) -> bm_step g s c = (s', b)) -> bm_ok f s -> bm_ok g s ->
  g (fst (f l s)) s = (l, snd (f l s)).
Proof.
  intros Hfg Hf Hg. destruct (bm_run l s Hf) as [Ef _]. rewrite Ef.
  destruct (run (bm_step f) s l) as [s' out] eqn:E. cbn [fst snd].
  destruct (bm_run out s Hg) as [Eg _]. rewrite Eg, (run_inverse _ _ Hfg _ _ _ _ E). done.
Qed.

Section instances.
Context (block : list Z -> list Z) (zlen_block : forall x, zlen (block x) = 16).

Definition ofb_process (inp : list Z) (s : list Z * Z) := CRYPTO_ofb128_encrypt block inp (fst s) (snd s).
Definition ctr_process (inp : list Z) (s : list Z * list Z * Z) :=
  CRYPTO_ctr128_encrypt block inp (fst (fst s)) (snd (fst s)) (snd s).
Definition cfb_process (enc : bool) (inp : list Z) (s : list Z * Z) := CRYPTO_cfb128_encrypt block enc inp (fst s) (snd s).

#[local] Instance ofb_mode : ByteMode ofb_process.
Proof using zlen_block.
  refine {| bm_step := ofb_step block; bm_ok s := (zlen (fst s) = 16 \/ snd s = 0) /\ 0 <= snd s < 16 |}.
  intros l [iv n] [H1 H2]. destruct (ofb_run block zlen_block l iv n H1 H2) as (s & o & R & E & Hs & Hk).
  unfold ofb_process. cbn [fst snd]. rewrite R, E. done.
Defined.
#[local] Instance ctr_mode : ByteMode ctr_process.
Proof using zlen_block.
  refine {| bm_step := ctr_step block; bm_ok s := (zlen (snd (fst s)) = 16 \/ snd s = 0) /\ 0 <= snd s < 16 |}.
  intros l [[iv ec] n] [H1 H2]. destruct (ctr_run block zlen_block l iv ec n H1 H2) as (s & o & R & E & Hs & Hk).
  unfold ctr_process. cbn [fst snd]. rewrite R, E. done.
Defined.
#[local] Instance cfb_mode enc : ByteMode (cfb_process enc).
Proof using zlen_block.
  refine {| bm_step := cfb_step block enc; bm_ok s := zlen (fst s) = 16 /\ 0 <= snd s < 16 |}.
  intros l [iv n] [H1 H2]. destruct (cfb_run block zlen_block enc l iv n H1 H2) as (s & o & R & E & Hs & Hk).
  unfold cfb_process. cbn [fst snd]. rewrite R, E. done.
Defined.

Lemma ks_step_involutive {K} (ks : K -> list Z) refill s b s' c :
  ks_step ks refill s b = (s', c) -> ks_step ks refill s c = (s', b).
Proof using.
  destruct s as [k n]. unfold ks_step. intros [= <- <-]. rewrite lxor_involutive. done.
Qed.

Lemma cfb_step_inverse s b s' c : cfb_step block true s b = (s', c) -> cfb_step block false s c = (s', b).
Proof using.
  destruct s as [iv n]. unfold cfb_step. intros [= <- <-]. f_equal.
  rewrite Z.lxor_comm, (Z.lxor_comm _ b). apply lxor_involutive.
Qed.

Lemma ofb_ok iv num : zlen iv = 16 -> 0 <= num < 16 -> bm_ok ofb_process (iv, num).
Proof using zlen_block. intros ??. split; [left|]; done. Qed.
Lemma ctr_ok iv ec num : zlen ec = 16 -> 0 <= num < 16 -> bm_ok ctr_process (iv, ec, num).
Proof using zlen_block. intros ??. split; [left|]; done. Qed.
Lemma cfb_ok enc iv num : zlen iv = 16 -> 0 <= num < 16 -> bm_ok (cfb_process enc) (iv, num).
Proof using zlen_block. intros ??. split; done. Qed.

(** C25. The number of calls does not matter in the OFB, CTR and CFB modes:
    processing [a ++ b] in one call gives the output and the state of
    processing [a] and then [b], whatever position in a block the calls
    start and end at. *)
Theorem stream_modes_chunking a b iv ec num enc : zlen iv = 16 -> zlen ec = 16 -> 0 <= num < 16 ->
  (CRYPTO_ofb128_encrypt block (a ++ b) iv num =
     let '(o1, (iv1, n1)) := CRYPTO_ofb128_encrypt block a iv num in
     let '(o2, s2) := CRYPTO_ofb128_encrypt block b iv1 n1 in (o1 ++ o2, s2)) /\
  (CRYPTO_ctr128_encrypt block (a ++ b) iv ec num =
     let '(o1, (iv1, ec1, n1)) := CRYPTO_ctr128_encrypt block a iv ec num in
     let '(o2, s2) := CRYPTO_ctr128_encrypt block b iv1 ec1 n1 in (o1 ++ o2, s2)) /\
  (CRYPTO_cfb128_encrypt block enc (a ++ b) iv num =
     let '(o1, (iv1, n1)) := CRYPTO_cfb128_encrypt block enc a iv num in
     let '(o2, s2) := CRYPTO_cfb128_encrypt block enc b iv1 n1 in (o1 ++ o2, s2)).
Proof using zlen_block.
  intros Hiv Hec Hn. split_and!.
  - pose proof (process_app ofb_process (iv, num) a b (ofb_ok _ _ Hiv Hn)) as E. unfold ofb_process in E.
    cbn [fst snd] in E. rewrite E. destruct (CRYPTO_ofb128_encrypt block a iv num) as [o1 [iv1 n1]]. done.
  - pose proof (process_app ctr_process (iv, ec, num) a b (ctr_ok _ _ _ Hec Hn)) as E. unfold ctr_process in E.
    cbn [fst snd] in E. rewrite E. destruct (CRYPTO_ctr128_encrypt block a iv ec num) as [o1 [[iv1 ec1] n1]]. done.
  - pose proof (process_app (cfb_process enc) (iv, num) a b (cfb_ok _ _ _ Hiv Hn)) as E. unfold cfb_process in E.
    cbn [fst snd] in E. rewrite E. destruct (CRYPTO_cfb128_encrypt block enc a iv num) as [o1 [iv1 n1]]. done.
Qed.

(** C26. Decryption undoes encryption in the OFB, CTR and CFB modes, for inputs of
    any length and from any position in a block, and leaves the same state. *)
Theorem stream_modes_roundtrip inp iv ec num : zlen iv = 16 -> zlen ec = 16 -> 0 <= num < 16 ->
  (let '(out, s) := CRYPTO_ofb128_encrypt block inp iv num in
   CRYPTO_ofb128_encrypt block out iv num = (inp, s)) /\
  (let '(out, s) := CRYPTO_ctr128_encrypt block inp iv ec num in
   CRYPTO_ctr128_encrypt block out iv ec num = (inp, s)) /\
  (let '(out, s) := CRYPTO_cfb128_encrypt block true inp iv num in
   CRYPTO_cfb128_encrypt block false out iv num = (inp, s)).
Proof using zlen_block.
  intros Hiv Hec Hn. split_and!.
  - pose proof (process_inverse ofb_process ofb_process (iv, num) inp (ks_step_involutive id block)
      (ofb_ok _ _ Hiv Hn) (ofb_ok _ _ Hiv Hn)) as E. unfold ofb_process in E. cbn [fst snd] in E.
    destruct (CRYPTO_ofb128_encrypt block inp iv num) as [out s]. exact E.
  - pose proof (process_inverse ctr_process ctr_process (iv, ec, num) inp (ks_step_involutive snd (ctr_refill block))
      (ctr_ok _ _ _ Hec Hn) (ctr_ok _ _ _ Hec Hn)) as E. unfold ctr_process in E. cbn [fst snd] in E.
    destruct (CRYPTO_ctr128_encrypt block inp iv ec num) as [out s]. exact E.
  - pose proof (process_inverse (cfb_process true) (cfb_process false) (iv, num) inp cfb_step_inverse
      (cfb_ok _ _ _ Hiv Hn) (cfb_ok _ _ _ Hiv Hn)) as E. unfold cfb_process in E. cbn [fst snd] in E.
    destruct (CRYPTO_cfb128_encrypt block true inp iv num) as [out s]. exact E.
Qed.
End instances.

(** A block function for the examples, its own inverse. *)
Definition toy_block (l : list Z) : list Z := (fun n => Z.lxor (znth l n) 0x5a) <$> zseq 16.
Lemma zlen_toy_block l : zlen (toy_block l) = 16.
Proof. done. Qed.
#[export] Instance toy_cipher : BlockCipher toy_block toy_block.
Proof.
  assert (Hb : forall x, bytes_ok x -> bytes_ok (toy_block x)).
  { intros x Hx. unfold toy_block. apply Forall_fmap, Forall_forall. intros n _. unfold compose, is_byte.
    apply (lxor_range 8); [lia|apply znth_byte; done|lia]. }
  constructor; try done. intros x _ Hx.
  do 16 (destruct x as [|? x]; [done|]). destruct x; [|rewrite !zlen_cons in Hx; pose proof (zlen_nonneg x); lia].
  cbv -[Z.lxor]. rewrite !lxor_involutive. done.
Qed.

Lemma stream_modes_chunking_witness :
  let '(o1, (iv1, n1)) := CRYPTO_ofb128_encrypt toy_block (zseq 5) (zseq 16) 0 in
  CRYPTO_ofb128_encrypt toy_block (zseq 5 ++ zseq 40) (zseq 16) 0 =
  (let '(o2, s2) := CRYPTO_ofb128_encrypt toy_block (zseq 40) iv1 n1 in (o1 ++ o2, s2)).
Proof.
  destruct (stream_modes_chunking toy_block zlen_toy_block (zseq 5) (zseq 40) (zseq 16) (zseq 16) 0 true) as [E _];
    [done|done|lia|].
  revert E. destruct (CRYPTO_ofb128_encrypt toy_block (zseq 5) (zseq 16) 0) as [o1 [iv1 n1]]. intros ->. done.
Defined.

Lemma stream_modes_roundtrip_witness :
  let '(out, s) := CRYPTO_cfb128_encrypt toy_block true (zseq 37) (zseq 16) 3 in
  CRYPTO_cfb128_encrypt toy_block false out (zseq 16) 3 = (zseq 37, s).
Proof. apply (stream_modes_roundtrip toy_block zlen_toy_block (zseq 37) (zseq 16) (zseq 16) 3); done || lia. Defined.
