(* ===== verification/CtrMode.v ===== *)
(** * Counter mode with a 32-bit counter function (fipsmodule/modes/ctr.c).

    [CRYPTO_ctr128_encrypt_ctr32] hands whole batches of blocks to a function
    that counts in 32 bits and carries into the upper 96 bits of the counter
    itself. It is shown to be [CRYPTO_ctr128_encrypt], which counts in 128 bits
    a block at a time. *)

From S2P Require Import Prelude Mem Modes.

(** ** The counter as a number *)

#[local] Arguments be_bytes : simpl never.

Lemma ctr_inc_loop_val l : forall c, bytes_ok l -> 0 <= c < 2 ^ 16 ->
  ctr_inc_loop l c = le_bytes (length l) (le_val l + c).
Proof.
  induction l as [|b l IH]; intros c Hl Hc; [done|]. apply Forall_cons in Hl as [Hb Hl]. unfold is_byte in Hb.
  cbn [ctr_inc_loop length le_bytes le_val]. rewrite (u32_small (c + b)) by lia.
  rewrite Z.shiftr_div_pow2 by lia. rewrite IH; [|done|zarith]. unfold u8. f_equal; [zarith|]. f_equal. zarith.
Qed.

Lemma ctr128_inc_val n v : ctr128_inc (be_bytes n v) = be_bytes n (v + 1).
Proof.
  unfold ctr128_inc. rewrite !be_bytes_rev, rev_involutive, ctr_inc_loop_val by (apply le_bytes_ok || lia).
  rewrite length_le_bytes, le_val_le_bytes, <- le_bytes_mod, Zplus_mod_idemp_l, le_bytes_mod. done.
Qed.

(** A 16-byte counter is its upper 96 and its lower 32 bits. *)
Lemma counter_split v : be_bytes 16 v = be_bytes 12 (v / 2 ^ 32) ++ be_bytes 4 v.
Proof. apply (be_bytes_add 12 4). Qed.

Lemma ctr96_inc_val v c : ctr96_inc (be_bytes 12 v ++ be_bytes 4 c) = be_bytes 12 (v + 1) ++ be_bytes 4 c.
Proof.
  unfold ctr96_inc. rewrite ztake_app, zdrop_app by (rewrite zlen_be_bytes; done).
  f_equal. apply ctr128_inc_val.
Qed.

(** Adding [k] to the lower half, with the carry that the code tests for. *)
Lemma counter_advance v k : 0 <= v -> 0 < k -> v mod 2 ^ 32 + k <= 2 ^ 32 ->
  let ivec := ztake 12 (be_bytes 16 v) ++ CRYPTO_store_u32_be (u32 (v + k)) in
  (if u32 (v + k) =? 0 then ctr96_inc ivec else ivec) = be_bytes 16 (v + k).
Proof.
  intros Hv Hk Hw. cbn zeta. rewrite store_u32_be_bytes by apply u32_range.
  rewrite (counter_split v), ztake_app by (rewrite zlen_be_bytes; done).
  replace (be_bytes 4 (u32 (v + k))) with (be_bytes 4 (v + k)) by (symmetry; apply (be_bytes_mod 4)).
  rewrite (counter_split (v + k)). unfold u32. destruct (Z.eqb_spec ((v + k) mod 2 ^ 32) 0) as [E|E].
  - rewrite ctr96_inc_val. do 2 f_equal. zarith.
  - do 2 f_equal. zarith.
Qed.

(** ** The function with the 32-bit counter *)

Section ctr32.
Context (block : list Z -> list Z).
Hypothesis zlen_block : forall x, zlen (block x) = 16.

(** What a [ctr128_f] computes: the counter is in the last four bytes of
    [ivec] and wraps around by itself. *)
Fixpoint ctr32_stream (inp : list Z) (blocks : nat) (ivec : list Z) (ctr : Z) : list Z :=
  match blocks with
  | O => []
  | S blocks' =>
      xor_bytes (ztake 16 inp) (block (ztake 12 ivec ++ be_bytes 4 ctr)) ++
      ctr32_stream (zdrop 16 inp) blocks' ivec (ctr + 1)
  end.
Definition ctr32_ref (inp : list Z) (blocks : Z) (ivec : list Z) : list Z :=
  ctr32_stream inp (Z.to_nat blocks) ivec (be_val (zdrop 12 ivec)).

Context (func : list Z -> Z -> list Z -> list Z).
Hypothesis func_spec : forall inp blocks ivec, 0 <= blocks <= 2 ^ 28 -> bytes_ok inp -> bytes_ok ivec -> zlen inp = 16 * blocks -> zlen ivec = 16 ->
  func inp blocks ivec = ctr32_ref inp blocks ivec.

(** A batch that does not wrap the lower half is the byte machine's. *)
Lemma stream_run k : forall l v ec c, zlen l = 16 * Z.of_nat k -> 0 <= v ->
  (0 < k)%nat -> v mod 2 ^ 32 + Z.of_nat k <= 2 ^ 32 -> c mod 2 ^ 32 = v mod 2 ^ 32 ->
  forall ivec, ztake 12 ivec = be_bytes 12 (v / 2 ^ 32) ->
  exists ec', run (ctr_step block) ((be_bytes 16 v, ec), 0) l =
    (((be_bytes 16 (v + Z.of_nat k), ec'), 0), ctr32_stream l k ivec c).
Proof using zlen_block.
  induction k as [|k IH]; intros l v ec c Hl Hv Hk Hw Hc ivec Hiv; [lia|].
  assert (Hb : be_bytes 4 c = be_bytes 4 v).
  { rewrite <- (be_bytes_mod 4 c), <- (be_bytes_mod 4 v). change (256 ^ Z.of_nat 4) with (2 ^ 32). rewrite Hc. done. }
  cbn [ctr32_stream]. rewrite Hiv, Hb, <- counter_split.
  assert (Ht : zlen (ztake 16 l) = 16) by (rewrite zlen_ztake; lia).
  pose proof (ks_run_block snd (ctr_refill block) (zlen_ctr_refill block zlen_block) (be_bytes 16 v, ec) (ztake 16 l)) as R.
  rewrite Ht in R. specialize (R ltac:(lia)). unfold ctr_refill in R at 2 3. cbn [fst snd] in R. rewrite ctr128_inc_val in R.
  change (16 mod 16) with 0 in R.
  destruct k as [|k].
  - assert (zdrop 16 l = []) as -> by (apply zlen_zero; rewrite zlen_zdrop; lia).
    rewrite (ztake_all 16 l) in * by lia. rewrite app_nil_r. eexists. exact R.
  - assert (Hz : zlen (zdrop 16 l) = 16 * Z.of_nat (S k)) by (rewrite zlen_zdrop; lia).
    destruct (IH (zdrop 16 l) (v + 1) (block (be_bytes 16 v)) (c + 1) Hz) with (ivec := ivec) as [ec' R']; [lia|lia|zarith|zarith|..].
    { rewrite Hiv. f_equal. zarith. }
    eexists. rewrite <- (ztake_zdrop 16 l) at 1. eapply run_app_eq; [exact R|]. replace (v + Z.of_nat (S (S k))) with (v + 1 + Z.of_nat (S k)) by lia. exact R'.
Qed.

Lemma func_run blocks l v ec : bytes_ok l -> zlen l = 16 * blocks -> 0 <= v -> 0 < blocks <= 2 ^ 28 ->
  v mod 2 ^ 32 + blocks <= 2 ^ 32 ->
  exists ec', run (ctr_step block) ((be_bytes 16 v, ec), 0) l =
    (((be_bytes 16 (v + blocks), ec'), 0), func l blocks (be_bytes 16 v)).
Proof using zlen_block func_spec.
  intros Hbl Hl Hv Hb Hw. rewrite func_spec by (done || apply be_bytes_ok || (rewrite ?zlen_be_bytes; lia)). unfold ctr32_ref.
  destruct (stream_run (Z.to_nat blocks) l v ec (be_val (zdrop 12 (be_bytes 16 v)))) with (ivec := be_bytes 16 v)
    as [ec' R]; try lia.
  - rewrite counter_split, zdrop_app by (rewrite zlen_be_bytes; done).
    rewrite be_val_be_bytes. change (256 ^ Z.of_nat 4) with (2 ^ 32). apply Z.mod_mod. lia.
  - rewrite counter_split, ztake_app by (rewrite zlen_be_bytes; done). done.
  - exists ec'. rewrite Z2Nat.id in R by lia. exact R.
Qed.

Lemma xor_zeros n l : n = length l -> xor_bytes (replicate n 0) l = l.
Proof using. intros ->. induction l as [|x l IH]; [done|]. cbn [length replicate]. unfold xor_bytes in *. cbn [zip_with]. f_equal. exact IH. Qed.

Lemma func_one v : func (replicate 16 0) 1 (be_bytes 16 v) = block (be_bytes 16 v).
Proof using zlen_block func_spec.
  rewrite func_spec by (done || lia || apply be_bytes_ok || (by apply Forall_replicate)). unfold ctr32_ref. change (Z.to_nat 1) with 1%nat. cbn [ctr32_stream].
  rewrite (counter_split v), ztake_app, zdrop_app by (rewrite zlen_be_bytes; done).
  rewrite be_val_be_bytes, be_bytes_mod, <- counter_split, app_nil_r.
  apply (xor_zeros 16). pose proof (zlen_block (be_bytes 16 v)) as Hl. unfold zlen in Hl. lia.
Qed.

Lemma batches_run fuel : forall inp v ec out rest ivec' c', bytes_ok inp -> (length inp <= fuel)%nat -> 0 <= v ->
  ctr32_batches func fuel inp (be_bytes 16 v) (u32 v) = (out, rest, ivec', c') ->
  exists l v' ec', inp = l ++ rest /\ run (ctr_step block) ((be_bytes 16 v, ec), 0) l = (((be_bytes 16 v', ec'), 0), out) /\
    zlen rest < 16 /\ ivec' = be_bytes 16 v' /\ c' = u32 v' /\ 0 <= v' /\ (l = [] -> ec' = ec).
Proof using zlen_block func_spec.
  induction fuel as [|fuel IH]; intros inp v ec out rest ivec' c' Hbi Hf Hv; cbn [ctr32_batches].
  - destruct inp; [|simpl in Hf; lia]. intros [= <- <- <- <-]. exists [], v, ec. done.
  - destruct (Z.geb_spec (zlen inp) 16) as [H16|H16].
    2: { intros [= <- <- <- <-]. exists [], v, ec. done. }
    set (b0 := if zlen inp / 16 >? 2 ^ 28 then 2 ^ 28 else zlen inp / 16).
    assert (Hb0 : 0 < b0 <= 2 ^ 28 /\ 16 * b0 <= zlen inp).
    { unfold b0. destruct (Z.gtb_spec (zlen inp / 16) (2 ^ 28)); zarith. }
    clearbody b0. rewrite (u32_small b0), u32_add_l by lia.
    set (w := u32 (v + b0)).
    set (bc := if w <? b0 then (b0 - w, 0) else (b0, w)).
    assert (Hbc : exists k, bc = (k, u32 (v + k)) /\ 0 < k <= b0 /\ v mod 2 ^ 32 + k <= 2 ^ 32).
    { subst bc w. unfold u32. destruct (Z.ltb_spec ((v + b0) mod 2 ^ 32) b0);
        eexists; (split_and!; [f_equal|..]); zarith. }
    destruct Hbc as (k & -> & Hk & Hw). clear w.
    rewrite counter_advance by lia.
    destruct (ctr32_batches func fuel (zdrop (16 * k) inp) (be_bytes 16 (v + k)) (u32 (v + k))) as [[[o r] iv] c] eqn:E.
    intros [= <- <- <- <-].
    destruct (func_run k (ztake (16 * k) inp) v ec) as [ec1 R]; [by apply Forall_ztake|rewrite zlen_ztake; lia|lia..|].
    destruct (IH (zdrop (16 * k) inp) (v + k) ec1 _ _ _ _ ltac:(by apply Forall_zdrop) ltac:(unfold zdrop, zlen in *; rewrite length_drop; lia) ltac:(lia) E)
      as (l & v' & ec' & El & R' & ? & ? & ? & ? & ?).
    exists (ztake (16 * k) inp ++ l), v', ec'. split_and!; try done.
    + rewrite <- app_assoc, <- El, ztake_zdrop. done.
    + eapply run_app_eq; [exact R|exact R'].
    + intros Hn. apply app_eq_nil in Hn as [Hn _]. pose proof (zlen_ztake (16 * k) inp) as Hz.
      rewrite Hn in Hz. change (zlen (@nil Z)) with 0 in Hz. lia.
Qed.

Lemma ctr32_agrees inp ivec ec num : bytes_ok inp -> bytes_ok ivec -> zlen ivec = 16 -> zlen ec = 16 -> 0 <= num < 16 ->
  let '(out, (ivec', ec', num')) := CRYPTO_ctr128_encrypt block inp ivec ec num in
  exists ec2, CRYPTO_ctr128_encrypt_ctr32 func inp ivec ec num = (out, (ivec', ec2, num')) /\
    (num' <> 0 -> ec2 = ec').
Proof using zlen_block func_spec.
  intros Hbi Hb Hiv Hec Hn.
  destruct (ctr_run block zlen_block inp ivec ec num) as (s & o & R & -> & _); [left; done|done|].
  unfold CRYPTO_ctr128_encrypt_ctr32.
  destruct (xor_head ec inp num) as [[out1 inp1] n1] eqn:E1.
  destruct (xor_head_run snd (ctr_refill block) (ivec, ec) num inp out1 inp1 n1 (or_introl Hec) Hn E1)
    as (l1 & -> & R1 & Hn1 & Hz1 & _). fold (ctr_step block) in R1. apply Forall_app in Hbi as [_ Hbi].
  assert (Ev : be_bytes 16 (be_val ivec) = ivec) by (apply be_bytes_be_val; [done|unfold zlen in Hiv; lia]).
  pose proof (be_val_range ivec Hb) as Hv.
  assert (Ec : CRYPTO_load_u32_be (zdrop 12 ivec) = u32 (be_val ivec)).
  { rewrite load_u32_be_val; [|apply Forall_zdrop; done|rewrite zlen_zdrop; lia].
    rewrite <- Ev at 1. rewrite counter_split, zdrop_app by (rewrite zlen_be_bytes; done).
    rewrite take_ge by (rewrite length_be_bytes; done). rewrite be_val_be_bytes. done. }
  rewrite Ec. set (v := be_val ivec) in *. clearbody v. subst ivec.
  destruct (ctr32_batches func (length inp1) inp1 (be_bytes 16 v) (u32 v)) as [[[out2 inp2] iv2] c2] eqn:E2.
  destruct (batches_run _ _ _ ec _ _ _ _ Hbi (le_n _) (proj1 Hv) E2)
    as (l2 & v2 & ec2 & -> & R2 & Hz2 & -> & -> & Hv2 & Hec2).
  destruct Hz1 as [E| ->].
  - apply app_eq_nil in E as [-> ->]. rewrite !app_nil_r in *. cbn [run] in R2.
    assert (be_bytes 16 v2 = be_bytes 16 v) as -> by congruence. assert (out2 = []) as -> by congruence.
    rewrite R1 in R. assert (s = (be_bytes 16 v, ec, n1)) as -> by congruence. assert (o = out1) as -> by congruence.
    rewrite app_nil_r. eexists. done.
  - pose proof (run_app_eq _ _ _ _ _ _ _ _ R1 R2) as R12. rewrite app_assoc in R.
    destruct (Z.eqb_spec (zlen inp2) 0) as [H0|H0]; cbn [negb].
    + apply zlen_zero in H0 as ->. rewrite app_nil_r, R12 in R.
      assert (s = (be_bytes 16 v2, ec2, 0)) as -> by congruence. assert (o = out1 ++ out2) as -> by congruence.
      eexists. done.
    + pose proof (zlen_nonneg inp2).
      pose proof (ks_run_block snd (ctr_refill block) (zlen_ctr_refill block zlen_block) (be_bytes 16 v2, ec2) inp2 ltac:(lia)) as R3.
      rewrite Z.mod_small in R3 by lia.
      fold (ctr_step block) in R3. pose proof (run_app_eq _ _ _ _ _ _ _ _ R12 R3) as R123. rewrite R in R123.
      apply pair_equal_spec in R123 as [-> ->].
      unfold ctr_refill. cbn [fst snd].
      rewrite u32_add_l, counter_advance by zarith.
      rewrite func_one, ctr128_inc_val, <- app_assoc. eexists. done.
Qed.

(** C24. [CRYPTO_ctr128_encrypt_ctr32], given a function that does counter mode
    with a 32-bit counter, gives the output, the counter and the position of
    [CRYPTO_ctr128_encrypt] on inputs of any length, across any number of
    wrap-arounds of the 32-bit counter; the buffered key stream is the same when
    any of it is left to use. *)
Theorem ctr32_equivalent inp ivec ec num : bytes_ok inp -> bytes_ok ivec -> zlen ivec = 16 -> zlen ec = 16 -> 0 <= num < 16 ->
  let '(out, (ivec', ec', num')) := CRYPTO_ctr128_encrypt block inp ivec ec num in
  exists ec2, CRYPTO_ctr128_encrypt_ctr32 func inp ivec ec num = (out, (ivec', ec2, num')) /\
    (num' <> 0 -> ec2 = ec').
Proof using zlen_block func_spec. apply ctr32_agrees. Qed.
End ctr32.

Lemma ctr32_equivalent_witness :
  let ivec := be_bytes 16 (2 ^ 32 - 2) in
  let '(out, (ivec', ec', num')) := CRYPTO_ctr128_encrypt toy_block (zseq 70) ivec (zseq 16) 3 in
  exists ec2, CRYPTO_ctr128_encrypt_ctr32 (ctr32_ref toy_block) (zseq 70) ivec (zseq 16) 3 = (out, (ivec', ec2, num')) /\
    (num' <> 0 -> ec2 = ec').
Proof. apply (ctr32_equivalent toy_block zlen_toy_block (ctr32_ref toy_block)); [done|by apply (bool_decide_eq_true_1 (bytes_ok (zseq 70)))|apply be_bytes_ok|done|done|lia]. Defined.
