(* ===== verification/CbcMode.v ===== *)
(** * Cipher block chaining (fipsmodule/modes/cbc.c).

    Decryption undoes encryption for inputs of every length, whole blocks or
    not, to a separate buffer or in place, and both leave the same chaining
    value. *)

From S2P Require Import Prelude Mem Modes.

Lemma xor_bytes_involutive a b : zlen a <= zlen b -> xor_bytes (xor_bytes a b) b = a.
Proof.
  revert b. induction a as [|x a IH]; intros b Hl; [done|]. pose proof (zlen_nonneg a).
  destruct b as [|y b]; [rewrite zlen_cons in Hl; change (zlen (@nil Z)) with 0 in Hl; lia|].
  rewrite !zlen_cons in Hl. unfold xor_bytes in *. cbn [zip_with]. rewrite lxor_involutive, IH by lia. done.
Qed.

Lemma xor_bytes_app a1 a2 b1 b2 : zlen a1 = zlen b1 ->
  xor_bytes (a1 ++ a2) (b1 ++ b2) = xor_bytes a1 b1 ++ xor_bytes a2 b2.
Proof. intros H. unfold xor_bytes. apply zip_with_app. unfold zlen in H. lia. Qed.

Lemma ztake_xor_bytes n a b : ztake n (xor_bytes a b) = xor_bytes (ztake n a) (ztake n b).
Proof. unfold xor_bytes, ztake. apply zip_with_take. Qed.

(** The two loops of the decryption compute the same. *)
Lemma cbc_dec_inplace_apart block fuel inp len iv :
  cbc_dec_inplace block fuel inp len iv = cbc_dec_apart block fuel inp len iv.
Proof.
  revert inp len iv. induction fuel as [|fuel IH]; intros inp len iv; [done|].
  cbn [cbc_dec_inplace cbc_dec_apart]. rewrite IH. done.
Qed.

Lemma cbc_dec_loops (apart : bool) block fuel inp len iv :
  (if apart then cbc_dec_apart block else cbc_dec_inplace block) fuel inp len iv = cbc_dec_apart block fuel inp len iv.
Proof. destruct apart; [done|]. apply cbc_dec_inplace_apart. Qed.

Section cbc.
Context (enc dec : list Z -> list Z) `{!BlockCipher enc dec}.

Lemma cbc_blocks_dec fuel : forall inp len iv, bytes_ok inp -> bytes_ok iv -> 0 <= len <= zlen inp -> len < 16 * (1 + Z.of_nat fuel) -> zlen iv = 16 ->
  exists out p rest len' iv', cbc_blocks enc fuel inp len iv = (out, rest, len', iv') /\
    inp = p ++ rest /\ zlen p = len - len' /\ zlen out = len - len' /\ 0 <= len' < 16 /\ (len - len') mod 16 = 0 /\
    zlen iv' = 16 /\ bytes_ok iv' /\ forall tail, cbc_dec_apart dec fuel (out ++ tail) len iv = (p, tail, len', iv').
Proof using BlockCipher0.
  induction fuel as [|fuel IH]; intros inp len iv Hbi Hbv Hl Hf Hiv; cbn [cbc_blocks cbc_dec_apart].
  - exists [], [], inp, len, iv. rewrite Z.sub_diag. split_and!; try done; lia.
  - destruct (Z.geb_spec len 16) as [H16|H16].
    2: { exists [], [], inp, len, iv. rewrite Z.sub_diag. split_and!; try done; lia. }
    set (x := xor_bytes (ztake 16 inp) iv).
    assert (Hbx : bytes_ok x) by (apply xor_bytes_ok; [apply Forall_ztake|]; done).
    assert (H : zlen (ztake 16 inp) = 16) by (rewrite zlen_ztake; lia).
    destruct (IH (zdrop 16 inp) (len - 16) (enc x)) as (out & p & rest & len' & iv' & -> & Ei & ? & ? & ? & ? & ? & ? & E);
      [by apply Forall_zdrop|apply (enc_bytes enc dec); done|rewrite zlen_zdrop; lia|lia|apply (zlen_enc enc dec)|].
    exists (enc x ++ out), (ztake 16 inp ++ p), rest, len', iv'.
    rewrite <- app_assoc, <- Ei, ztake_zdrop, !zlen_app, (zlen_enc enc dec).
    split_and!; try done; try lia; [|intros tail].
    + replace (len - len') with (len - 16 - len' + 1 * 16) by lia. rewrite Z.mod_add by lia. done.
    + rewrite <- app_assoc, ztake_app, zdrop_app by (rewrite (zlen_enc enc dec); done). rewrite E.
      rewrite (dec_enc enc dec) by (done || unfold x; rewrite zlen_xor_bytes; lia). unfold x. rewrite xor_bytes_involutive by lia. done.
Qed.

Lemma cbc_undo apart inp len ivec : bytes_ok inp -> bytes_ok ivec -> 0 <= len <= zlen inp -> zlen ivec = 16 ->
  let '(out, ivec') := CRYPTO_cbc128_encrypt enc inp len ivec in
  zlen out = 16 * ((len + 15) / 16) /\
  CRYPTO_cbc128_decrypt dec apart out len ivec = (ztake len inp, ivec') /\ zlen ivec' = 16.
Proof using BlockCipher0.
  intros Hbi Hbv Hl Hiv. unfold CRYPTO_cbc128_encrypt, CRYPTO_cbc128_decrypt.
  destruct (Z.eqb_spec len 0) as [->|Hl0]; [done|].
  pose proof (cbc_blocks_dec (Z.to_nat len) inp len ivec) as B.
  destruct (B Hbi Hbv Hl ltac:(lia) Hiv) as (out & p & rest & len' & iv' & -> & -> & Hp & Ho & Hl' & Hm & Hiv' & Hbv' & Ed). clear B.
  pose proof (zlen_nonneg p). rewrite zlen_app in Hl.
  destruct (Z.eqb_spec len' 0) as [->|Hl'0]; cbn [negb].
  - rewrite cbc_dec_loops. specialize (Ed []). rewrite app_nil_r in Ed. rewrite Ed.
    rewrite ztake_app by lia. split_and!; [zarith|done|done].
  - apply Forall_app in Hbi as [_ Hbr].
    set (x := xor_bytes (ztake len' rest) iv' ++ zdrop len' iv').
    assert (Hr : zlen (ztake len' rest) = len') by (rewrite zlen_ztake; lia).
    assert (Hx : zlen x = 16) by (unfold x; rewrite zlen_app, zlen_xor_bytes, zlen_zdrop; lia).
    assert (Hbx : bytes_ok x).
    { apply Forall_app. split; [apply xor_bytes_ok; [apply Forall_ztake|]; done|apply Forall_zdrop; done]. }
    rewrite cbc_dec_loops, Ed. destruct (Z.eqb_spec len' 0); [lia|]. cbn [negb].
    rewrite (ztake_all 16 (enc x)), (dec_enc enc dec) by (done || rewrite ?(zlen_enc enc dec); lia).
    rewrite zlen_app, (zlen_enc enc dec). split_and!; [zarith| |done].
    unfold x. rewrite ztake_app by (rewrite zlen_xor_bytes; lia).
    rewrite xor_bytes_involutive by lia. rewrite ztake_app_ge by lia.
    replace (len - zlen p) with len' by lia. done.
Qed.

(** C27. [CRYPTO_cbc128_decrypt] undoes [CRYPTO_cbc128_encrypt], to a separate
    buffer and in place, when the block functions are inverse: the ciphertext is
    the input rounded up to whole blocks, decrypting [len] bytes of it gives the
    input back, also when the last block is incomplete, and the chaining value
    left for the next call is the same on both sides. *)
Theorem cbc_roundtrip apart inp len ivec : bytes_ok inp -> bytes_ok ivec -> 0 <= len <= zlen inp -> zlen ivec = 16 ->
  let '(out, ivec') := CRYPTO_cbc128_encrypt enc inp len ivec in
  zlen out = 16 * ((len + 15) / 16) /\
  CRYPTO_cbc128_decrypt dec apart out len ivec = (ztake len inp, ivec') /\ zlen ivec' = 16.
Proof using BlockCipher0. apply cbc_undo. Qed.
End cbc.

Lemma cbc_roundtrip_witness :
  let '(out, ivec') := CRYPTO_cbc128_encrypt toy_block (zseq 37) 37 (zseq 16) in
  zlen out = 16 * ((37 + 15) / 16) /\
  CRYPTO_cbc128_decrypt toy_block true out 37 (zseq 16) = (ztake 37 (zseq 37), ivec') /\ zlen ivec' = 16.
Proof. apply (cbc_roundtrip toy_block toy_block); [repeat constructor; unfold is_byte; lia|repeat constructor; unfold is_byte; lia|split; vm_compute; discriminate|done]. Defined.
