(* ===== verification/KeyWrap.v ===== *)
(** * AES key wrap (fipsmodule/aes/key_wrap.c): RFC 3394, and RFC 5649 with padding.

    The code works on a 16-byte block [A] and on the output buffer in place.
    Unwrapping undoes wrapping, accepts no other initial value, and of the padded
    form accepts exactly the buffers with a valid header and zero padding. *)

From S2P Require Import Prelude Mem Modes.

Definition AES_BLOCK_SIZE : Z := 16.

(** [kDefaultIV], RFC 3394, 2.2.3.1. *)
Definition kDefaultIV : list Z := replicate 8 0xa6.
Definition kBound : Z := 6.
(** [kPaddingConstant], RFC 5649, section 3. *)
Definition kPaddingConstant : list Z := [0xa6; 0x59; 0x59; 0xa6].

(** [A[k] ^= x]. *)
Definition xor_at (k x : Z) (A : list Z) : list Z := zwrite k [Z.lxor (znth A k) x] A.
(** The four statements that add the step counter [t] to [A]. *)
Definition xor_t (t : Z) (A : list Z) : list Z :=
  let A := xor_at 7 (Z.land t 0xff) A in
  let A := xor_at 6 (Z.land (Z.shiftr t 8) 0xff) A in
  let A := xor_at 5 (Z.land (Z.shiftr t 16) 0xff) A in
  xor_at 4 (Z.land (Z.shiftr t 24) 0xff) A.

(** [iv], or the default when it is [NULL]. *)
Definition or_default (iv : option (list Z)) : list Z := match iv with Some iv => iv | None => kDefaultIV end.

Section keywrap.
Context (malloc_ok : Z -> bool).
(** The two functions with their key; each reads and writes one block. *)
Context (AES_encrypt AES_decrypt : list Z -> list Z).

(** ** AES_wrap_key

    The body of the inner loop: [s] is [A] and the buffer [out]. *)
Definition wrap_step (n j i : Z) (s : list Z * list Z) : list Z * list Z :=
  let '(A, out) := s in
  let A := ztake 8 A ++ ztake 8 (zdrop (8 * i) out) in
  let A := AES_encrypt A in
  let t := u32 (u64 (n * j + i)) in
  let A := xor_t t A in
  (A, zwrite (8 * i) (ztake 8 (zdrop 8 A)) out).

(** [for (size_t i = 1; i <= n; i++)] and [for (unsigned j = 0; j < kBound; j++)]. *)
Definition wrap_round (n j : Z) (s : list Z * list Z) : list Z * list Z :=
  fold_left (fun s i => wrap_step n j (i + 1) s) (zseq n) s.
Definition wrap_rounds (n : Z) (s : list Z * list Z) : list Z * list Z :=
  fold_left (fun s j => wrap_round n j s) (zseq kBound) s.

(** The return value and the [in_len + 8] bytes written to [out]; [A] is not
    initialised past the 8 bytes of [iv], which no step reads. *)
Definition AES_wrap_key (iv : option (list Z)) (inp : list Z) : Z * list Z :=
  let in_len := zlen inp in
  if (in_len >? INT_MAX - 8) || (in_len <? 16) || negb (in_len mod 8 =? 0) then (-1, [])
  else
    let A := ztake 8 (or_default iv) ++ replicate 8 0 in
    let n := in_len / 8 in
    let '(A, out) := wrap_rounds n (A, replicate 8 0 ++ inp) in
    (in_len + 8, zwrite 0 (ztake 8 A) out).

(** ** AES_unwrap_key *)

Definition unwrap_step (n j i : Z) (s : list Z * list Z) : list Z * list Z :=
  let '(A, out) := s in
  let t := u32 (u64 (n * j + i)) in
  let A := xor_t t A in
  let A := ztake 8 A ++ ztake 8 (zdrop (8 * (i - 1)) out) in
  let A := AES_decrypt A in
  (A, zwrite (8 * (i - 1)) (ztake 8 (zdrop 8 A)) out).

(** [for (size_t i = n; i > 0; i--)]. *)
Definition unwrap_round (n j : Z) (s : list Z * list Z) : list Z * list Z :=
  fold_left (fun s i => unwrap_step n j (i + 1) s) (rev (zseq n)) s.
(** [for (unsigned j = kBound - 1; j < kBound; j--)] ends when [j] wraps around
    below 0. *)
Fixpoint unwrap_rounds (fuel : nat) (n j : Z) (s : list Z * list Z) : list Z * list Z :=
  match fuel with
  | O => s
  | S fuel' => if j <? kBound then unwrap_rounds fuel' n (u32 (j - 1)) (unwrap_round n j s) else s
  end.

(** The bytes written to [out] and [out_iv]. *)
Definition aes_unwrap_key_inner (inp : list Z) : option (list Z * list Z) :=
  let in_len := zlen inp in
  if (in_len >? INT_MAX) || (in_len <? 24) || negb (in_len mod 8 =? 0) then None
  else
    let n := in_len / 8 - 1 in
    let '(A, out) := unwrap_rounds 7 n (kBound - 1) (ztake 8 inp ++ replicate 8 0, zdrop 8 inp) in
    Some (out, ztake 8 A).

(** The return value and the bytes written to [out], which are there also when
    the initial value is wrong. *)
Definition AES_unwrap_key (iv : option (list Z)) (inp : list Z) : Z * list Z :=
  match aes_unwrap_key_inner inp with
  | None => (-1, [])
  | Some (out, calculated_iv) =>
      if negb (CRYPTO_memcmp calculated_iv (ztake 8 (or_default iv)) =? 0) then (-1, out)
      else (zlen inp - 8, out)
  end.

(** ** With padding *)

(** The return value, [*out_len] and the bytes written to [out]. *)
Definition AES_wrap_key_padded (max_out : Z) (inp : list Z) : Z * Z * list Z :=
  let in_len := zlen inp in
  let in_len32_be := CRYPTO_bswap4 (u32 in_len) in
  let padded_len := Z.land (u64 (in_len + 7)) (u64 (-8)) in
  if (in_len =? 0) || (in_len >? 0xffffffff) || (u64 (in_len + 7) <? in_len)
     || (u64 (padded_len + 8) <? padded_len) || (max_out <? u64 (padded_len + 8)) then (0, 0, [])
  else
    let block := kPaddingConstant ++ le_bytes 4 in_len32_be in
    if in_len <=? 8 then
      (1, AES_BLOCK_SIZE, AES_encrypt (block ++ zwrite 0 inp (replicate 8 0)))
    else if negb (OPENSSL_malloc_ok malloc_ok padded_len) then (0, 0, [])
    else
      let padded_in := inp ++ replicate (Z.to_nat (padded_len - in_len)) 0 in
      let '(ret, out) := AES_wrap_key (Some block) padded_in in
      if ret <? 0 then (0, 0, out) else (1, ret, out).

(** [for (size_t i = in_len - 15; i < in_len - 8; i++)]. *)
Definition check_padding (in_len claimed_len : Z) (out : list Z) (ok : Z) : Z :=
  fold_left (fun ok k =>
    let i := in_len - 15 + k in
    Z.land ok (constant_time_is_zero_w (Z.land (constant_time_ge_8 i claimed_len) (znth out i)))) (zseq 7) ok.

(** The return value, [*out_len] and the bytes written to [out]. *)
Definition AES_unwrap_key_padded (max_out : Z) (inp : list Z) : Z * Z * list Z :=
  let in_len := zlen inp in
  if (in_len <? AES_BLOCK_SIZE) || (max_out <? in_len - 8) then (0, 0, [])
  else
    match (if in_len =? AES_BLOCK_SIZE then
             let block := AES_decrypt inp in Some (ztake 8 (zdrop 8 block), ztake 8 block)
           else aes_unwrap_key_inner inp) with
    | None => (0, 0, [])
    | Some (out, iv) =>
        let ok := constant_time_eq_int (CRYPTO_memcmp (ztake 4 iv) kPaddingConstant) 0 in
        let claimed_len32 := le_val (ztake 4 (zdrop 4 iv)) in
        let claimed_len := CRYPTO_bswap4 claimed_len32 in
        let ok := Z.land ok (not_w (constant_time_is_zero_w claimed_len)) in
        let ok := Z.land ok (constant_time_eq_w (Z.shiftr (u64 (claimed_len - 1)) 3) (Z.shiftr (in_len - 9) 3)) in
        let ok := check_padding in_len claimed_len out ok in
        (Z.land ok 1, constant_time_select_w ok claimed_len 0, out)
    end.
End keywrap.

(** ** The step counter *)

Lemma first_eight (A : list Z) : 8 <= zlen A ->
  exists a0 a1 a2 a3 a4 a5 a6 a7 r, A = a0 :: a1 :: a2 :: a3 :: a4 :: a5 :: a6 :: a7 :: r.
Proof.
  intros H. do 8 (destruct A as [|? A]; [exfalso; rewrite ?zlen_cons in H; change (zlen (@nil Z)) with 0 in H; lia|]).
  do 9 eexists. done.
Qed.

Lemma xor_t_cons t a0 a1 a2 a3 a4 a5 a6 a7 r :
  xor_t t (a0 :: a1 :: a2 :: a3 :: a4 :: a5 :: a6 :: a7 :: r) =
  a0 :: a1 :: a2 :: a3 :: Z.lxor a4 (Z.land (Z.shiftr t 24) 0xff) :: Z.lxor a5 (Z.land (Z.shiftr t 16) 0xff) ::
  Z.lxor a6 (Z.land (Z.shiftr t 8) 0xff) :: Z.lxor a7 (Z.land t 0xff) :: r.
Proof. done. Qed.

Lemma xor_t_involutive t A : 8 <= zlen A -> xor_t t (xor_t t A) = A.
Proof.
  intros (a0 & a1 & a2 & a3 & a4 & a5 & a6 & a7 & r & ->)%first_eight.
  rewrite !xor_t_cons, !lxor_involutive. done.
Qed.
Lemma zlen_xor_t t A : 8 <= zlen A -> zlen (xor_t t A) = zlen A.
Proof.
  intros (a0 & a1 & a2 & a3 & a4 & a5 & a6 & a7 & r & ->)%first_eight.
  rewrite xor_t_cons, !zlen_cons. done.
Qed.
Lemma zdrop_xor_t t A : 8 <= zlen A -> zdrop 8 (xor_t t A) = zdrop 8 A.
Proof. intros (a0 & a1 & a2 & a3 & a4 & a5 & a6 & a7 & r & ->)%first_eight. done. Qed.
Lemma ztake_xor_t t A : 8 <= zlen A -> ztake 8 (xor_t t A) = xor_t t (ztake 8 A).
Proof. intros (a0 & a1 & a2 & a3 & a4 & a5 & a6 & a7 & r & ->)%first_eight. done. Qed.
Lemma xor_t_bytes t A : 8 <= zlen A -> bytes_ok A -> bytes_ok (xor_t t A).
Proof.
  intros (a0 & a1 & a2 & a3 & a4 & a5 & a6 & a7 & r & ->)%first_eight H.
  rewrite xor_t_cons. rewrite !Forall_cons in *.
  assert (X : forall a x, is_byte a -> is_byte (Z.lxor a (Z.land x 0xff))).
  { intros a x Ha. apply (lxor_range 8); [lia|exact Ha|]. change 0xff with (2 ^ 8 - 1). rewrite land_mask by lia.
    apply Z.mod_pos_bound. lia. }
  naive_solver.
Qed.

(** ** Unwrapping goes backwards through the states of wrapping *)

(** Loops that undo each other's steps, in the opposite order. *)
Lemma fold_back {St I} (f g : I -> St -> St) (wf : St -> Prop) (m : St -> St -> Prop) (l : list I) :
  (forall i s, i ∈ l -> wf s -> wf (f i s)) ->
  (forall i s u, i ∈ l -> wf s -> m (f i s) u -> m s (g i u)) ->
  forall s u, wf s -> m (fold_left (fun s i => f i s) l s) u -> m s (fold_left (fun s i => g i s) (rev l) u).
Proof.
  induction l as [|i l IH]; intros Hwf Hm s u Hs Hu; [done|]. cbn [fold_left rev] in *.
  rewrite fold_left_app. cbn [fold_left]. apply Hm; [apply list_elem_of_here|exact Hs|].
  apply IH; try done; intros; [apply Hwf|apply Hm|apply Hwf]; try done; (by apply list_elem_of_further) || apply list_elem_of_here.
Qed.
Lemma fold_wf {St I} (f : I -> St -> St) (wf : St -> Prop) (l : list I) :
  (forall i s, i ∈ l -> wf s -> wf (f i s)) -> forall s, wf s -> wf (fold_left (fun s i => f i s) l s).
Proof.
  induction l as [|i l IH]; intros Hwf s Hs; [done|]. cbn [fold_left].
  apply IH; [intros; apply Hwf; [by apply list_elem_of_further|done]|]. apply Hwf; [apply list_elem_of_here|done].
Qed.

Lemma zseq_range n i : i ∈ zseq n -> 0 <= i < n.
Proof. unfold zseq. intros (k & -> & Hk)%list_elem_of_fmap. apply elem_of_seq in Hk. lia. Qed.

(** ** Padding *)

Lemma land_align x : 0 <= x < 2 ^ 64 -> Z.land x (u64 (-8)) = 8 * (x / 8).
Proof.
  intros Hx. change (u64 (-8)) with ((2 ^ 61 - 1) * 2 ^ 3 + 0).
  rewrite (Z.div_mod x 8) at 1 by lia. replace (8 * (x / 8) + x mod 8) with (x / 8 * 2 ^ 3 + x mod 8) by lia.
  rewrite land_split, land_mask, Z.land_0_r by (try change (2 ^ 3) with 8; try apply Z.mod_pos_bound; lia).
  rewrite Z.mod_small by zarith. lia.
Qed.

Lemma mask_w_bit b : Z.land (mask_w b) 1 = if b then 1 else 0.
Proof. destruct b; done. Qed.

Lemma check_padding_mask in_len c out b : 16 <= in_len < 2 ^ 63 -> is_word c -> bytes_ok out ->
  check_padding in_len c out (mask_w b) =
  mask_w (b && forallb (fun k => (in_len - 15 + k <? c) || (znth out (in_len - 15 + k) =? 0)) (zseq 7)).
Proof.
  intros Hl Hc Ho. unfold check_padding.
  assert (Hk : Forall (fun k => 0 <= k < 7) (zseq 7)) by (repeat constructor; lia).
  revert b Hk. induction (zseq 7) as [|k l IH]; intros b Hk; [cbn; rewrite andb_true_r; done|].
  apply Forall_cons in Hk as [Hk Hks]. cbn [fold_left forallb].
  set (i := in_len - 15 + k). pose proof (znth_byte out i Ho) as Hb. unfold is_byte, is_word in *.
  assert (E : constant_time_is_zero_w (Z.land (constant_time_ge_8 i c) (znth out i)) =
              mask_w ((i <? c) || (znth out i =? 0))).
  { unfold constant_time_ge_8. rewrite ge_w_mask by (unfold is_word, i; lia).
    destruct (Z.leb_spec c i); destruct (Z.ltb_spec i c); try lia; cbn [mask_w orb].
    - change (u8 CONSTTIME_TRUE_W) with (2 ^ 8 - 1). rewrite Z.land_comm, land_mask, Z.mod_small by lia.
      apply is_zero_w_mask. unfold is_word. lia.
    - change (u8 CONSTTIME_FALSE_W) with 0. rewrite Z.land_0_l. done. }
  rewrite E, mask_w_and, IH by done. rewrite andb_assoc. done.
Qed.

(** What the tests on the unwrapped header and data amount to. *)
Definition padding_valid (in_len : Z) (iv out : list Z) : Prop :=
  let claimed := be_val (zdrop 4 iv) in
  ztake 4 iv = kPaddingConstant /\ in_len - 16 < claimed <= in_len - 8 /\ Forall (eq 0) (zdrop claimed out).
#[export] Instance padding_valid_dec in_len iv out : Decision (padding_valid in_len iv out).
Proof. unfold padding_valid. cbn zeta. apply _. Defined.

Lemma unwrap_padding_zeros in_len c out : 16 <= in_len -> in_len - 16 < c <= in_len - 8 -> zlen out = in_len - 8 ->
  forallb (fun k => (in_len - 15 + k <? c) || (znth out (in_len - 15 + k) =? 0)) (zseq 7) = true <->
  Forall (eq 0) (zdrop c out).
Proof.
  intros Hl Hc Ho. rewrite forallb_forall, Forall_lookup. split.
  - intros H i x Hi. unfold zdrop in Hi. rewrite lookup_drop in Hi. pose proof (lookup_lt_Some _ _ _ Hi) as Hlt.
    unfold zlen in Ho.
    specialize (H (c + Z.of_nat i - (in_len - 15))). replace (in_len - 15 + (c + Z.of_nat i - (in_len - 15))) with (c + Z.of_nat i) in H by lia.
    assert (Hin : In (c + Z.of_nat i - (in_len - 15)) (zseq 7)).
    { unfold zseq. apply list_elem_of_In, list_elem_of_fmap. exists (Z.to_nat (c + Z.of_nat i - (in_len - 15))).
      split; [lia|]. apply elem_of_seq. lia. }
    specialize (H Hin). destruct (Z.ltb_spec (c + Z.of_nat i) c); [lia|]. cbn [orb] in H. apply Z.eqb_eq in H.
    unfold znth in H. rewrite <- H. replace (Z.to_nat (c + Z.of_nat i)) with (Z.to_nat c + i)%nat by lia.
    apply nth_lookup_Some. done.
  - intros H k Hk. apply list_elem_of_In, zseq_range in Hk.
    destruct (Z.ltb_spec (in_len - 15 + k) c); [done|]. cbn [orb]. apply Z.eqb_eq.
    destruct (lookup_lt_is_Some_2 out (Z.to_nat (in_len - 15 + k))) as [x Hx]; [unfold zlen in Ho; lia|].
    unfold znth. rewrite (nth_lookup_Some _ _ _ _ Hx). symmetry.
    apply (H (Z.to_nat (in_len - 15 + k) - Z.to_nat c)%nat). unfold zdrop. rewrite lookup_drop. rewrite <- Hx. f_equal. lia.
Qed.

(** What [AES_unwrap_key_padded] does after unwrapping. *)
Lemma finish_padded in_len iv out : 16 <= in_len < 2 ^ 63 -> in_len mod 8 = 0 -> zlen iv = 8 -> bytes_ok iv ->
  bytes_ok out -> zlen out = in_len - 8 ->
  (let ok := constant_time_eq_int (CRYPTO_memcmp (ztake 4 iv) kPaddingConstant) 0 in
   let claimed_len32 := le_val (ztake 4 (zdrop 4 iv)) in
   let claimed_len := CRYPTO_bswap4 claimed_len32 in
   let ok := Z.land ok (not_w (constant_time_is_zero_w claimed_len)) in
   let ok := Z.land ok (constant_time_eq_w (Z.shiftr (u64 (claimed_len - 1)) 3) (Z.shiftr (in_len - 9) 3)) in
   let ok := check_padding in_len claimed_len out ok in
   (Z.land ok 1, constant_time_select_w ok claimed_len 0, out)) =
  if bool_decide (padding_valid in_len iv out) then (1, be_val (zdrop 4 iv), out) else (0, 0, out).
Proof.
  intros Hl Hm Hv Hbv Hbo Ho. cbn zeta.
  assert (Hd : zlen (zdrop 4 iv) = 4) by (rewrite zlen_zdrop; lia).
  assert (Hbd : bytes_ok (zdrop 4 iv)) by (by apply Forall_zdrop).
  assert (Ec : CRYPTO_bswap4 (le_val (ztake 4 (zdrop 4 iv))) = be_val (zdrop 4 iv)).
  { pose proof (load_u32_be_val (zdrop 4 iv) Hbd ltac:(lia)) as E. unfold CRYPTO_load_u32_be in E.
    unfold ztake. change (Z.to_nat 4) with 4%nat. rewrite E, take_ge by (unfold zlen in Hd; lia). done. }
  rewrite Ec. pose proof (be_val_range (zdrop 4 iv) Hbd) as Hc. rewrite Hd in Hc. change (256 ^ 4) with (2 ^ 32) in Hc.
  remember (be_val (zdrop 4 iv)) as c eqn:Ecl.
  assert (Hcm : constant_time_eq_int (CRYPTO_memcmp (ztake 4 iv) kPaddingConstant) 0 =
                mask_w (bool_decide (ztake 4 iv = kPaddingConstant))).
  { assert (Hl4 : length (ztake 4 iv) = 4%nat) by (pose proof (zlen_ztake 4 iv) as E; unfold zlen in E, Hv; lia).
    assert (Hbk : bytes_ok kPaddingConstant) by (repeat constructor; unfold is_byte; lia).
    pose proof (memcmp_zero (ztake 4 iv) kPaddingConstant (Forall_ztake _ _ _ Hbv) Hbk Hl4) as Hz.
    unfold constant_time_eq_int. rewrite eq_w_mask by apply u64_range. f_equal.
    pose proof (memcmp_byte (ztake 4 iv) kPaddingConstant (Forall_ztake _ _ _ Hbv) Hbk) as Hb. unfold is_byte in Hb.
    rewrite !u64_small by lia. apply eq_true_iff_eq. rewrite Z.eqb_eq, bool_decide_eq_true. exact Hz. }
  rewrite Hcm, is_zero_w_mask by (unfold is_word; lia). rewrite not_w_mask, mask_w_and.
  rewrite eq_w_mask by (unfold is_word; rewrite ?Z.shiftr_div_pow2 by lia; pose proof (u64_range (c - 1)); zarith).
  rewrite mask_w_and, check_padding_mask by (done || unfold is_word; lia). rewrite mask_w_bit, select_w_mask by (unfold is_word; lia).
  set (b := _ && forallb _ _).
  assert (Hb : b = bool_decide (padding_valid in_len iv out)).
  { subst b. apply eq_true_iff_eq. rewrite (bool_decide_eq_true (padding_valid _ _ _)). unfold padding_valid. rewrite <- Ecl. rewrite !andb_true_iff, bool_decide_eq_true, negb_true_iff, Z.eqb_neq, Z.eqb_eq.
    rewrite !Z.shiftr_div_pow2 by lia. change (2 ^ 3) with 8.
    assert (Hr : c <> 0 /\ u64 (c - 1) / 8 = (in_len - 9) / 8 <-> in_len - 16 < c <= in_len - 8).
    { unfold u64. destruct (decide (c = 0)) as [->|Hc0]; [lia|]. rewrite Z.mod_small by lia. zarith. }
    split.
    - intros [[[H1 H2] H3] H4]. assert (H5 : in_len - 16 < c <= in_len - 8) by (apply Hr; done).
      split_and!; try done; try lia. apply (unwrap_padding_zeros in_len); [lia|done|done|exact H4].
    - intros (H1 & H2 & H3). destruct (proj2 Hr H2) as [H4 H5]. split_and!; try done. apply unwrap_padding_zeros; try done; lia. }
  rewrite Hb. case_bool_decide; done.
Qed.

Section proofs.
Context (AES_encrypt AES_decrypt : list Z -> list Z) `{!BlockCipher AES_encrypt AES_decrypt}.

Definition wf (n : Z) (s : list Z * list Z) : Prop :=
  zlen s.1 = 16 /\ zlen s.2 = 8 * (n + 1) /\ bytes_ok s.1 /\ bytes_ok s.2.
(** A state of unwrapping that has reached state [s] of wrapping. *)
Definition reached (s u : list Z * list Z) : Prop :=
  8 <= zlen u.1 /\ ztake 8 u.1 = ztake 8 s.1 /\ u.2 = zdrop 8 s.2.

Lemma wrap_step_wf n j i s : 1 <= i <= n -> wf n s -> wf n (wrap_step AES_encrypt n j i s).
Proof using BlockCipher0.
  destruct s as [A out]. intros Hi (HA & Ho & HbA & Hbo). cbn [fst snd] in *. unfold wrap_step.
  set (X := AES_encrypt _). set (t := u32 _).
  assert (HX : zlen X = 16) by apply (zlen_enc _ AES_decrypt).
  assert (HbX : bytes_ok X).
  { apply (enc_bytes _ AES_decrypt). apply Forall_app. split; auto using @Forall_ztake, @Forall_zdrop. }
  pose proof (zlen_xor_t t X ltac:(lia)) as Hxl. pose proof (xor_t_bytes t X ltac:(lia) HbX) as Hxb.
  split_and!; cbn [fst snd]; [lia| |done|].
  - rewrite zlen_zwrite; rewrite ?zlen_ztake, ?zlen_zdrop; lia.
  - apply Forall_app. split; [by apply Forall_ztake|]. apply Forall_app. auto using @Forall_ztake, @Forall_zdrop.
Qed.

Lemma step_back n j i s u : 1 <= i <= n -> wf n s ->
  reached (wrap_step AES_encrypt n j i s) u -> reached s (unwrap_step AES_decrypt n j i u).
Proof using BlockCipher0.
  destruct s as [A out], u as [A' out']. intros Hi (HA & Ho & HbA & Hbo). cbn [fst snd] in *.
  unfold wrap_step, unwrap_step. set (t := u32 _).
  set (X := ztake 8 A ++ ztake 8 (zdrop (8 * i) out)).
  assert (HX : zlen X = 16) by (unfold X; rewrite zlen_app, !zlen_ztake, zlen_zdrop; lia).
  assert (HbX : bytes_ok X) by (apply Forall_app; split; auto using @Forall_ztake, @Forall_zdrop).
  pose proof (zlen_enc AES_encrypt AES_decrypt X) as HE.
  set (E := AES_encrypt X) in *. rewrite zdrop_xor_t by lia.
  set (c := ztake 8 (zdrop 8 E)).
  assert (Hc : zlen c = 8) by (unfold c; rewrite zlen_ztake, zlen_zdrop; lia).
  unfold reached. cbn [fst snd]. intros (HA' & Ht & ->).
  rewrite zdrop_zwrite by lia. replace (8 * i - 8) with (8 * (i - 1)) by lia.
  assert (Hz : zlen (zdrop 8 out) = 8 * n) by (rewrite zlen_zdrop; lia).
  rewrite zdrop_zwrite_at, (ztake_app 8) by lia.
  rewrite ztake_xor_t, Ht, <- ztake_xor_t by (rewrite ?zlen_xor_t; lia).
  rewrite xor_t_involutive by lia.
  assert (Hs : ztake 8 E ++ c = E).
  { unfold c. rewrite (ztake_all 8 (zdrop 8 E)) by (rewrite zlen_zdrop; lia). apply ztake_zdrop. }
  assert (Hd : AES_decrypt E = X) by (apply (dec_enc AES_encrypt AES_decrypt); done).
  rewrite Hs, Hd.
  assert (Hx : zlen (ztake 8 A) = 8) by (rewrite zlen_ztake; lia).
  split_and!; [lia|apply ztake_app; lia|]. unfold X. rewrite (zdrop_app 8) by lia.
  rewrite ztake_ztake by lia. replace (zdrop (8 * i) out) with (zdrop (8 * (i - 1)) (zdrop 8 out)).
  2: { rewrite zdrop_zdrop by lia. f_equal. lia. }
  rewrite zwrite_zwrite by (rewrite ?zlen_ztake, ?zlen_zdrop; lia).
  apply zwrite_same; lia.
Qed.

Lemma step_index n i : i ∈ zseq n -> 1 <= i + 1 <= n.
Proof using. intros H%zseq_range. lia. Qed.

Lemma wrap_round_wf n j s : wf n s -> wf n (wrap_round AES_encrypt n j s).
Proof using BlockCipher0.
  apply (fold_wf (fun i => wrap_step AES_encrypt n j (i + 1))).
  intros i s' Hi%step_index Hs. apply wrap_step_wf; done.
Qed.
Lemma wrap_rounds_wf n s : wf n s -> wf n (wrap_rounds AES_encrypt n s).
Proof using BlockCipher0.
  apply (fold_wf (wrap_round AES_encrypt n)). intros j s' _ Hs. apply wrap_round_wf. done.
Qed.

Lemma round_back n j s u : wf n s -> reached (wrap_round AES_encrypt n j s) u -> reached s (unwrap_round AES_decrypt n j u).
Proof using BlockCipher0.
  apply (fold_back (fun i => wrap_step AES_encrypt n j (i + 1)) (fun i => unwrap_step AES_decrypt n j (i + 1)) (wf n)).
  - intros i s' Hi%step_index Hs. apply wrap_step_wf; done.
  - intros i s' u' Hi%step_index Hs. apply step_back; done.
Qed.

Lemma rounds_back n s u : wf n s -> reached (wrap_rounds AES_encrypt n s) u ->
  reached s (unwrap_rounds AES_decrypt 7 n (kBound - 1) u).
Proof using BlockCipher0.
  apply (fold_back (wrap_round AES_encrypt n) (unwrap_round AES_decrypt n) (wf n) reached (zseq kBound)).
  - intros j s' _ Hs. apply wrap_round_wf. done.
  - intros j s' u' _ Hs. apply round_back. done.
Qed.

(** Unwrapping anything keeps the buffers' sizes. *)
Definition uwf (len : Z) (s : list Z * list Z) : Prop :=
  zlen s.1 = 16 /\ zlen s.2 = len /\ bytes_ok s.1 /\ bytes_ok s.2.

Lemma unwrap_step_wf n j i s : 1 <= i <= n -> uwf (8 * n) s -> uwf (8 * n) (unwrap_step AES_decrypt n j i s).
Proof using BlockCipher0.
  destruct s as [A out]. intros Hi (HA & Ho & HbA & Hbo). cbn [fst snd] in *. unfold unwrap_step.
  set (t := u32 _). pose proof (xor_t_bytes t A ltac:(lia) HbA) as Hx.
  set (X := ztake 8 (xor_t t A) ++ ztake 8 (zdrop (8 * (i - 1)) out)).
  pose proof (zlen_dec AES_encrypt AES_decrypt X) as HD.
  assert (HbD : bytes_ok (AES_decrypt X)).
  { apply (dec_bytes AES_encrypt AES_decrypt). apply Forall_app. split; auto using @Forall_ztake, @Forall_zdrop. }
  split_and!; cbn [fst snd]; [done| |done|].
  - rewrite zlen_zwrite; rewrite ?zlen_ztake, ?zlen_zdrop; lia.
  - apply Forall_app. split; [by apply Forall_ztake|]. apply Forall_app. auto using @Forall_ztake, @Forall_zdrop.
Qed.

Lemma unwrap_rounds_wf n s : uwf (8 * n) s -> uwf (8 * n) (unwrap_rounds AES_decrypt 7 n (kBound - 1) s).
Proof using BlockCipher0.
  apply (fold_wf (unwrap_round AES_decrypt n) (uwf (8 * n)) (rev (zseq kBound))). intros j s' _.
  apply (fold_wf (fun i => unwrap_step AES_decrypt n j (i + 1))). intros i s'' Hi.
  rewrite list_elem_of_In, <- in_rev, <- list_elem_of_In in Hi. apply step_index in Hi. apply unwrap_step_wf. done.
Qed.

Lemma unwrap_inner_sizes inp out iv : bytes_ok inp -> aes_unwrap_key_inner AES_decrypt inp = Some (out, iv) ->
  24 <= zlen inp <= INT_MAX /\ zlen inp mod 8 = 0 /\ zlen iv = 8 /\ zlen out = zlen inp - 8 /\ bytes_ok iv /\ bytes_ok out.
Proof using BlockCipher0.
  intros Hb. unfold aes_unwrap_key_inner.
  destruct (Z.gtb_spec (zlen inp) INT_MAX); [done|]. destruct (Z.ltb_spec (zlen inp) 24); [done|].
  destruct (Z.eqb_spec (zlen inp mod 8) 0) as [Hm|]; [|done]. cbn [orb negb].
  assert (Hn : zlen inp = 8 * (zlen inp / 8 - 1) + 8) by zarith. set (n := zlen inp / 8 - 1) in *.
  assert (Hw : uwf (8 * n) (ztake 8 inp ++ replicate 8 0, zdrop 8 inp)).
  { split_and!; cbn [fst snd].
    - rewrite zlen_app, zlen_ztake. change (zlen (replicate 8 0)) with 8. lia.
    - rewrite zlen_zdrop. lia.
    - apply Forall_app. split; [by apply Forall_ztake|]. repeat constructor; unfold is_byte; lia.
    - by apply Forall_zdrop. }
  apply unwrap_rounds_wf in Hw. destruct (unwrap_rounds _ _ _ _ _) as [A out']. intros [= <- <-].
  destruct Hw as (HA & Ho & HbA & Hbo). cbn [fst snd] in *.
  split_and!; try done; try lia; [rewrite zlen_ztake; lia|by apply Forall_ztake].
Qed.

(** What wrapping leaves, unwrapping takes back. *)
Lemma wrap_unwrap_inner iv inp : zlen (or_default iv) = 8 -> bytes_ok (or_default iv) -> bytes_ok inp ->
  16 <= zlen inp <= INT_MAX - 8 -> zlen inp mod 8 = 0 ->
  exists c, AES_wrap_key AES_encrypt iv inp = (zlen inp + 8, c) /\ zlen c = zlen inp + 8 /\ bytes_ok c /\
    aes_unwrap_key_inner AES_decrypt c = Some (inp, or_default iv).
Proof using BlockCipher0.
  intros Hv Hbv Hbi Hl Hm. unfold AES_wrap_key.
  destruct (Z.gtb_spec (zlen inp) (INT_MAX - 8)); [lia|]. destruct (Z.ltb_spec (zlen inp) 16); [lia|]. rewrite Hm.
  cbn [orb negb]. change (0 =? 0) with true. cbn [negb].
  rewrite (ztake_all 8 (or_default iv)) by lia.
  set (n := zlen inp / 8). set (s := (or_default iv ++ replicate 8 0, replicate 8 0 ++ inp)).
  assert (Hn : zlen inp = 8 * n) by (unfold n; zarith).
  assert (Hs : wf n s).
  { unfold s. split_and!; cbn [fst snd]; rewrite ?zlen_app; [rewrite Hv; done|change (zlen (replicate 8 0)) with 8; lia|..];
      apply Forall_app; split; try done; repeat constructor; unfold is_byte; lia. }
  destruct (wrap_rounds AES_encrypt n s) as [A out] eqn:E.
  pose proof (wrap_rounds_wf n s Hs) as Hw. rewrite E in Hw. destruct Hw as (HA & Ho & HbA & Hbo). cbn [fst snd] in *.
  assert (HA8 : zlen (ztake 8 A) = 8) by (rewrite zlen_ztake; lia).
  assert (Hc : zwrite 0 (ztake 8 A) out = ztake 8 A ++ zdrop 8 out).
  { unfold zwrite. rewrite HA8, ztake_0. done. }
  rewrite Hc. eexists. split_and!; [done|rewrite zlen_app, zlen_zdrop; lia|apply Forall_app; auto using @Forall_ztake, @Forall_zdrop|].
  unfold aes_unwrap_key_inner.
  assert (Hlc : zlen (ztake 8 A ++ zdrop 8 out) = 8 * (n + 1)) by (rewrite zlen_app, zlen_zdrop; lia).
  rewrite Hlc.
  destruct (Z.gtb_spec (8 * (n + 1)) INT_MAX); [lia|]. destruct (Z.ltb_spec (8 * (n + 1)) 24); [lia|].
  replace (8 * (n + 1) mod 8) with 0 by zarith. change (negb (0 =? 0)) with false. cbn [orb].
  rewrite (ztake_app 8), (zdrop_app 8) by lia.
  replace (8 * (n + 1) / 8 - 1) with n by zarith.
  assert (Hr : reached (wrap_rounds AES_encrypt n s) (ztake 8 A ++ replicate 8 0, zdrop 8 out)).
  { rewrite E. split_and!; cbn [fst snd]; [rewrite zlen_app; change (zlen (replicate 8 0)) with 8; lia| |done].
    rewrite (ztake_app 8) by lia. done. }
  apply (rounds_back n s _ Hs) in Hr. unfold reached in Hr.
  destruct (unwrap_rounds AES_decrypt 7 n (kBound - 1) (ztake 8 A ++ replicate 8 0, zdrop 8 out)) as [A' out'].
  cbn [fst snd] in Hr. destruct Hr as (_ & -> & ->). unfold s. cbn [fst snd].
  rewrite (ztake_app 8), (zdrop_app 8) by done. done.
Qed.

(** C22. [AES_unwrap_key] undoes [AES_wrap_key]: for plaintexts that the code accepts,
    whole 8-byte blocks from 16 bytes on, wrapping returns the length and the
    ciphertext, 8 bytes longer, and unwrapping it returns the plaintext with the
    initial value it was wrapped with, and -1 with any other. The plaintexts that
    do not qualify are refused. *)
Theorem keywrap_roundtrip iv iv' inp : zlen (or_default iv) = 8 -> zlen (or_default iv') = 8 ->
  bytes_ok (or_default iv) -> bytes_ok (or_default iv') -> bytes_ok inp ->
  if bool_decide (16 <= zlen inp <= INT_MAX - 8 /\ zlen inp mod 8 = 0) then
    exists c, AES_wrap_key AES_encrypt iv inp = (zlen inp + 8, c) /\ zlen c = zlen inp + 8 /\
      AES_unwrap_key AES_decrypt iv' c =
        (if bool_decide (or_default iv' = or_default iv) then zlen inp else -1, inp)
  else AES_wrap_key AES_encrypt iv inp = (-1, []).
Proof using BlockCipher0.
  intros Hv Hv' Hbv Hbv' Hbi. case_bool_decide as Hl.
  - destruct Hl as [Hl Hm].
    destruct (wrap_unwrap_inner iv inp Hv Hbv Hbi Hl Hm) as (c & E & Hc & _ & Eu). exists c. split_and!; [done|done|].
    unfold AES_unwrap_key. rewrite Eu, (ztake_all 8) by lia. pose proof (memcmp_zero (or_default iv) (or_default iv') Hbv Hbv') as Hz.
    unfold zlen in Hv, Hv'. specialize (Hz ltac:(lia)). case_bool_decide as Ei.
    + rewrite (proj2 Hz) by done. cbn [negb]. change (0 =? 0) with true. cbn [negb]. f_equal. lia.
    + destruct (Z.eqb_spec (CRYPTO_memcmp (or_default iv) (or_default iv')) 0) as [E0|]; [|done].
      apply Hz in E0. congruence.
  - unfold AES_wrap_key.
    destruct (Z.gtb_spec (zlen inp) (INT_MAX - 8)); [done|]. destruct (Z.ltb_spec (zlen inp) 16); [done|].
    destruct (Z.eqb_spec (zlen inp mod 8) 0); [exfalso; apply Hl; lia|done].
Qed.
End proofs.

Lemma keywrap_roundtrip_witness :
  exists c, AES_wrap_key toy_block None (zseq 24) = (32, c) /\ zlen c = 32 /\
    AES_unwrap_key toy_block None c = (24, zseq 24).
Proof.
  assert (Hb : bytes_ok (zseq 24)) by (repeat constructor; unfold is_byte; lia).
  assert (Hk : bytes_ok (or_default None)) by (repeat constructor; unfold is_byte; lia).
  exact (keywrap_roundtrip toy_block toy_block None None (zseq 24) eq_refl eq_refl Hk Hk Hb).
Defined.
Section padded.
Context (malloc_ok : Z -> bool) (Hmalloc : forall k, 0 <= k < 2 ^ 63 -> malloc_ok k = true).
Context (AES_encrypt AES_decrypt : list Z -> list Z) `{!BlockCipher AES_encrypt AES_decrypt}.

(** The bytes that the code adds to whole 8-byte blocks. *)
Definition padded (inp : list Z) : list Z := inp ++ replicate (Z.to_nat ((-zlen inp) mod 8)) 0.

Lemma zlen_padded inp : zlen (padded inp) = 8 * ((zlen inp + 7) / 8).
Proof using. unfold padded. rewrite zlen_app, zlen_replicate. zarith. Qed.
Lemma padded_bytes inp : bytes_ok inp -> bytes_ok (padded inp).
Proof using. intros H. apply Forall_app. split; [done|]. apply Forall_replicate. unfold is_byte. lia. Qed.

(** The header that [AES_wrap_key_padded] makes is valid for its input. *)
Definition header (inp : list Z) : list Z := kPaddingConstant ++ le_bytes 4 (CRYPTO_bswap4 (u32 (zlen inp))).
Lemma header_valid inp : 1 <= zlen inp < 2 ^ 32 ->
  zlen (header inp) = 8 /\ bytes_ok (header inp) /\ be_val (zdrop 4 (header inp)) = zlen inp /\
  padding_valid (zlen (padded inp) + 8) (header inp) (padded inp).
Proof using.
  intros Hl. assert (Hd : zdrop 4 (header inp) = be_bytes 4 (zlen inp)).
  { unfold header. rewrite zdrop_app by done. fold (CRYPTO_store_u32_be (u32 (zlen inp))).
    rewrite store_u32_be_bytes by apply u32_range. apply (be_bytes_mod 4). }
  assert (Hv : be_val (zdrop 4 (header inp)) = zlen inp).
  { rewrite Hd, be_val_be_bytes. apply Z.mod_small. change (256 ^ Z.of_nat 4) with (2 ^ 32). lia. }
  split_and!; [done| |done|].
  - apply Forall_app. split; [repeat constructor; unfold is_byte; lia|apply le_bytes_ok].
  - unfold padding_valid. rewrite Hv, zlen_padded. split_and!; [done|zarith|zarith|].
    unfold padded. rewrite zdrop_app by done. apply Forall_replicate. done.
Qed.

(** What the code returns for an input it can wrap. *)
Lemma wrap_padded_run max_out inp : bytes_ok inp -> 1 <= zlen inp -> zlen (padded inp) <= INT_MAX - 8 ->
  zlen (padded inp) + 8 <= max_out ->
  exists c, AES_wrap_key_padded malloc_ok AES_encrypt max_out inp = (1, zlen (padded inp) + 8, c) /\
    zlen c = zlen (padded inp) + 8 /\
    (if zlen c =? AES_BLOCK_SIZE then
       let block := AES_decrypt c in Some (ztake 8 (zdrop 8 block), ztake 8 block)
     else aes_unwrap_key_inner AES_decrypt c) = Some (padded inp, header inp).
Proof using Hmalloc BlockCipher0.
  intros Hb Hl Hp Hm. pose proof (zlen_padded inp) as Ep. pose proof (zlen_nonneg (padded inp)) as Hp0.
  assert (Hi : INT_MAX < 2 ^ 31) by (vm_compute; done).
  destruct (header_valid inp ltac:(zarith)) as (Hh & Hbh & _ & _).
  pose proof (padded_bytes inp Hb) as Hbp.
  unfold AES_wrap_key_padded. fold (header inp). rewrite (u64_small (zlen inp + 7)) by zarith.
  rewrite land_align, <- Ep by zarith.
  rewrite (u64_small (zlen (padded inp) + 8)) by zarith.
  destruct (Z.eqb_spec (zlen inp) 0); [lia|]. destruct (Z.gtb_spec (zlen inp) 0xffffffff); [zarith|].
  destruct (Z.ltb_spec (zlen inp + 7) (zlen inp)); [lia|].
  destruct (Z.ltb_spec (zlen (padded inp) + 8) (zlen (padded inp))); [lia|].
  destruct (Z.ltb_spec max_out (zlen (padded inp) + 8)); [lia|]. cbn [orb].
  destruct (Z.leb_spec (zlen inp) 8) as [H8|H8].
  - assert (Hp8 : zlen (padded inp) = 8) by zarith. rewrite Hp8.
    assert (Ez : zwrite 0 inp (replicate 8 0) = padded inp).
    { unfold zwrite, padded. rewrite ztake_0. cbn [app]. f_equal. unfold zdrop. rewrite drop_replicate. f_equal. zarith. }
    rewrite Ez. eexists. split_and!; [done|apply (zlen_enc _ AES_decrypt)|].
    rewrite (zlen_enc AES_encrypt AES_decrypt). change (16 =? AES_BLOCK_SIZE) with true. cbn zeta match.
    rewrite (dec_enc AES_encrypt AES_decrypt) by (try apply Forall_app; rewrite ?zlen_app; (done || lia)).
    rewrite ztake_app, zdrop_app by done. rewrite ztake_all by lia. done.
  - rewrite malloc_ok_small by (done || zarith). cbn [negb].
    assert (Ez : inp ++ replicate (Z.to_nat (zlen (padded inp) - zlen inp)) 0 = padded inp).
    { unfold padded at 2. do 2 f_equal. zarith. }
    rewrite Ez.
    destruct (wrap_unwrap_inner AES_encrypt AES_decrypt (Some (header inp)) (padded inp)) as (c & -> & Hc & _ & Eu);
      [done..|zarith|zarith|].
    destruct (Z.ltb_spec (zlen (padded inp) + 8) 0); [lia|]. exists c. split_and!; [done|done|].
    destruct (Z.eqb_spec (zlen c) AES_BLOCK_SIZE); [unfold AES_BLOCK_SIZE in *; zarith|]. exact Eu.
Qed.

(** [AES_unwrap_key_padded] undoes [AES_wrap_key_padded]: an input of 1 byte or
    more whose padded form has at most [INT_MAX - 8] bytes is wrapped when
    [max_out] leaves room for 8 bytes more than that, and unwrapping returns its
    length and, after it in the buffer, only zero bytes. Every other input is
    refused with [*out_len] 0, also those between [INT_MAX - 15] and [2^32 - 1]
    bytes, which the header file allows. *)
Theorem keywrap_padded_roundtrip max_out max_out' inp : bytes_ok inp -> zlen inp < 2 ^ 64 ->
  0 <= max_out -> zlen (padded inp) <= max_out' ->
  if bool_decide (1 <= zlen inp /\ zlen (padded inp) <= INT_MAX - 8 /\ zlen (padded inp) + 8 <= max_out) then
    exists c, AES_wrap_key_padded malloc_ok AES_encrypt max_out inp = (1, zlen (padded inp) + 8, c) /\
      zlen c = zlen (padded inp) + 8 /\
      AES_unwrap_key_padded AES_decrypt max_out' c = (1, zlen inp, padded inp)
  else exists out, AES_wrap_key_padded malloc_ok AES_encrypt max_out inp = (0, 0, out).
Proof using Hmalloc BlockCipher0.
  intros Hb H64 Hm Hm'. pose proof (zlen_nonneg inp) as Hl0. pose proof (zlen_padded inp) as Ep. pose proof (zlen_nonneg (padded inp)) as Hp0.
  assert (Hi : INT_MAX < 2 ^ 31) by (vm_compute; done).
  case_bool_decide as Hc.
  - destruct Hc as (Hl & Hp & Hmo).
    destruct (wrap_padded_run max_out inp Hb Hl Hp Hmo) as (c & -> & Hc & Eu). exists c. split_and!; [done|done|].
    destruct (header_valid inp ltac:(zarith)) as (Hh & Hbh & Hv & Hok).
    unfold AES_unwrap_key_padded. cbn zeta in Eu |- *. rewrite Eu.
    destruct (Z.ltb_spec (zlen c) AES_BLOCK_SIZE); [unfold AES_BLOCK_SIZE in *; zarith|].
    destruct (Z.ltb_spec max_out' (zlen c - 8)); [lia|]. cbn [orb].
    etransitivity; [apply finish_padded; [zarith|zarith|done|done|by apply padded_bytes|lia]|].
    rewrite Hc, bool_decide_true, Hv by done. done.
  - unfold AES_wrap_key_padded.
    destruct (Z.eqb_spec (zlen inp) 0) as [|Hn0]; [eexists; done|]. cbn [orb].
    destruct (Z.gtb_spec (zlen inp) 0xffffffff); [eexists; done|]. cbn [orb].
    rewrite (u64_small (zlen inp + 7)), land_align, <- Ep by zarith.
    rewrite (u64_small (zlen (padded inp) + 8)) by zarith.
    destruct (Z.ltb_spec (zlen inp + 7) (zlen inp)); [eexists; done|]. cbn [orb].
    destruct (Z.ltb_spec (zlen (padded inp) + 8) (zlen (padded inp))); [eexists; done|]. cbn [orb].
    destruct (Z.ltb_spec max_out (zlen (padded inp) + 8)); [eexists; done|].
    assert (Hbig : INT_MAX - 8 < zlen (padded inp)) by (apply Z.nle_gt; intros ?; apply Hc; lia).
    destruct (Z.leb_spec (zlen inp) 8); [exfalso; revert Hbig; unfold INT_MAX; zarith|].
    destruct (OPENSSL_malloc_ok malloc_ok (zlen (padded inp))); [|eexists; done]. cbn [negb].
    assert (Ez : inp ++ replicate (Z.to_nat (zlen (padded inp) - zlen inp)) 0 = padded inp).
    { unfold padded at 2. do 2 f_equal. zarith. }
    rewrite Ez. unfold AES_wrap_key. destruct (Z.gtb_spec (zlen (padded inp)) (INT_MAX - 8)); [|lia].
    eexists. done.
Qed.
End padded.

Lemma keywrap_padded_roundtrip_witness :
  exists c, AES_wrap_key_padded (fun _ => true) toy_block 100 (zseq 21) = (1, 32, c) /\ zlen c = 32 /\
    AES_unwrap_key_padded toy_block 24 c = (1, 21, padded (zseq 21)).
Proof.
  assert (Hb : bytes_ok (zseq 21)) by (repeat constructor; unfold is_byte; lia).
  refine (keywrap_padded_roundtrip (fun _ => true) (fun _ _ => eq_refl) toy_block toy_block 100 24 (zseq 21) Hb eq_refl _ _);
    vm_compute; discriminate.
Defined.

(** C23. [AES_unwrap_key_padded] accepts, with its constant-time tests, exactly the
    inputs whose unwrapped header and data are valid: the padding constant, a
    claimed length in the last 8 bytes of the data, and zeros after it. It then
    returns 1 and that length, otherwise 0 and 0. *)
Theorem unwrap_padded_accepts AES_encrypt AES_decrypt max_out inp : BlockCipher AES_encrypt AES_decrypt ->
  bytes_ok inp -> 16 <= zlen inp -> zlen inp - 8 <= max_out ->
  let block := AES_decrypt inp in
  AES_unwrap_key_padded AES_decrypt max_out inp =
  match (if zlen inp =? 16 then Some (zdrop 8 block, ztake 8 block) else aes_unwrap_key_inner AES_decrypt inp) with
  | Some (out, iv) => if bool_decide (padding_valid (zlen inp) iv out) then (1, be_val (zdrop 4 iv), out) else (0, 0, out)
  | None => (0, 0, [])
  end.
Proof.
  intros Hc Hb Hl Hm. cbn zeta. unfold AES_unwrap_key_padded, AES_BLOCK_SIZE.
  destruct (Z.ltb_spec (zlen inp) 16); [lia|]. destruct (Z.ltb_spec max_out (zlen inp - 8)); [lia|]. cbn [orb].
  assert (Hi : INT_MAX < 2 ^ 31) by (vm_compute; done).
  destruct (Z.eqb_spec (zlen inp) 16) as [E|E].
  - pose proof (zlen_dec AES_encrypt AES_decrypt inp) as Hd. pose proof (dec_bytes AES_encrypt AES_decrypt inp Hb) as Hbd.
    rewrite (ztake_all 8 (zdrop 8 _)) by (rewrite zlen_zdrop; lia).
    apply finish_padded; [lia|rewrite E; done|rewrite zlen_ztake; lia|by apply Forall_ztake|by apply Forall_zdrop|].
    rewrite zlen_zdrop. lia.
  - destruct (aes_unwrap_key_inner AES_decrypt inp) as [[out iv]|] eqn:Eu; [|done].
    apply (unwrap_inner_sizes AES_encrypt AES_decrypt inp out iv Hb) in Eu as (? & ? & ? & ? & ? & ?).
    apply finish_padded; try done; lia.
Qed.

Lemma unwrap_padded_accepts_witness :
  AES_unwrap_key_padded toy_block 8 (toy_block (kPaddingConstant ++ [0; 0; 0; 3; 7; 8; 9; 0; 0; 0; 0; 0])) =
  (1, 3, [7; 8; 9; 0; 0; 0; 0; 0]).
Proof.
  refine (unwrap_padded_accepts toy_block toy_block 8 (toy_block (kPaddingConstant ++ [0; 0; 0; 3; 7; 8; 9; 0; 0; 0; 0; 0])) toy_cipher _ _ _).
  - vm_compute. repeat constructor; discriminate.
  - vm_compute. discriminate.
  - vm_compute. discriminate.
Defined.
