(* ===== verification/Lhash.v ===== *)
(** * Chaining hash tables (crypto/lhash/lhash.c).

    The table is an array of pointers to linked lists of items in memory, as the
    code has it; a read or write of an item that is not allocated is a failure
    of the model. The table is shown to be a finite map, whatever the order of
    insertions, deletions and resizes, and an iteration to visit each element
    once even when its callback deletes the element it is called on. *)

From S2P Require Import Prelude Mem.

Definition kMinNumBuckets : Z := 16.
Definition kMaxAverageChainLength : Z := 2.
Definition kMinAverageChainLength : Z := 1.
Definition UINT_MAX : Z := 2 ^ 32 - 1.

Section lhash.
(** The elements with the two functions given to [OPENSSL_lh_new]. *)
Context {D : Type} (hash : D -> Z) (comp : D -> D -> Z).
Context (malloc_ok : Z -> bool).

(** A pointer to an item is [None] when it is NULL. *)
Record LHASH_ITEM := Item { item_data : D; item_next : option positive; item_hash : Z }.
Record lhash_st := Lhash {
  num_items : Z;
  buckets : list (option positive);
  num_buckets : Z;
  callback_depth : Z
}.
(** The table and the items that are allocated. *)
Record state := State { lh : lhash_st; items : gmap positive LHASH_ITEM }.

Definition set_lh (t : lhash_st) (s : state) : state := State t (items s).
Definition set_items (m : gmap positive LHASH_ITEM) (s : state) : state := State (lh s) m.
Definition set_buckets (b : list (option positive)) (t : lhash_st) : lhash_st :=
  Lhash (num_items t) b (num_buckets t) (callback_depth t).
Definition set_count (n : Z) (t : lhash_st) : lhash_st := Lhash n (buckets t) (num_buckets t) (callback_depth t).
Definition set_depth (n : Z) (t : lhash_st) : lhash_st := Lhash (num_items t) (buckets t) (num_buckets t) n.

(** What an [LHASH_ITEM **] points to. *)
Inductive slot := Bucket (i : Z) | Next (p : positive).

Definition load_item (p : positive) : M state LHASH_ITEM := fun s =>
  match items s !! p with Some it => (Some it, s) | None => (None, s) end.
Definition put_item (p : positive) (it : LHASH_ITEM) : M state () := fun s =>
  (Some (), set_items (<[p := it]> (items s)) s).
Definition load_slot (sl : slot) : M state (option positive) :=
  match sl with
  | Bucket i => fun s =>
      match buckets (lh s) !! Z.to_nat i with Some v => (Some v, s) | None => (None, s) end
  | Next p => let* it := load_item p in ret (item_next it)
  end.
Definition store_slot (sl : slot) (v : option positive) : M state () :=
  match sl with
  | Bucket i => fun s =>
      match buckets (lh s) !! Z.to_nat i with
      | Some _ => (Some (), set_lh (set_buckets (<[Z.to_nat i := v]> (buckets (lh s))) (lh s)) s)
      | None => (None, s)
      end
  | Next p => let* it := load_item p in put_item p (Item (item_data it) v (item_hash it))
  end.

Definition OPENSSL_lh_new : option state :=
  if OPENSSL_malloc_ok malloc_ok 40 then
    if OPENSSL_malloc_ok malloc_ok (8 * kMinNumBuckets) then
      Some (State (Lhash 0 (replicate (Z.to_nat kMinNumBuckets) None) kMinNumBuckets 0) ∅)
    else None
  else None.

Definition OPENSSL_lh_num_items (s : state) : Z := num_items (lh s).

(** The loop of the two search functions. [fuel] bounds the length of the chain. *)
Fixpoint chain_loop (test : D -> bool) (fuel : nat) (r : slot) : M state slot :=
  match fuel with
  | O => fail
  | S fuel' =>
      let* cur := load_slot r in
      match cur with
      | None => ret r
      | Some p => let* it := load_item p in if test (item_data it) then ret r else chain_loop test fuel' (Next p)
      end
  end.

Definition get_next_ptr (test : D -> bool) (h : Z) : M state slot :=
  let* s := getst in
  chain_loop test (S (size (items s))) (Bucket (h mod num_buckets (lh s))).
Definition get_next_ptr_and_hash (d : D) : M state (slot * Z) :=
  let* r := get_next_ptr (fun x => comp x d =? 0) (hash d) in ret (r, hash d).
(** [cmp_key x] is [cmp_key(key, x)]. *)
Definition get_next_ptr_by_key (key_hash : Z) (cmp_key : D -> Z) : M state slot :=
  get_next_ptr (fun x => cmp_key x =? 0) key_hash.

(** [*next_ptr == NULL ? NULL : ( *next_ptr)->data]. *)
Definition data_at (r : slot) : M state (option D) :=
  let* v := load_slot r in
  match v with
  | None => ret None
  | Some p => let* it := load_item p in ret (Some (item_data it))
  end.

Definition OPENSSL_lh_retrieve (d : D) : M state (option D) :=
  let* r := get_next_ptr_and_hash d in data_at (fst r).
Definition OPENSSL_lh_retrieve_key (key_hash : Z) (cmp_key : D -> Z) : M state (option D) :=
  let* r := get_next_ptr_by_key key_hash cmp_key in data_at r.

(** The inner loop of [lh_rebucket] moves a chain to [new_buckets]. *)
Fixpoint move_chain (fuel : nat) (new_num_buckets : Z) (cur : option positive) (new_buckets : list (option positive)) :
    M state (list (option positive)) :=
  match cur with
  | None => ret new_buckets
  | Some p =>
      match fuel with
      | O => fail
      | S fuel' =>
          let* it := load_item p in
          let new_bucket := Z.to_nat (item_hash it mod new_num_buckets) in
          match new_buckets !! new_bucket with
          | None => fail
          | Some v =>
              store_slot (Next p) v ;;
              move_chain fuel' new_num_buckets (item_next it) (<[new_bucket := Some p]> new_buckets)
          end
      end
  end.
(** The outer loop; [n] buckets are left from [i] on. *)
Fixpoint move_all (n : nat) (i new_num_buckets : Z) (new_buckets : list (option positive)) :
    M state (list (option positive)) :=
  match n with
  | O => ret new_buckets
  | S n' =>
      let* cur := load_slot (Bucket i) in
      let* s := getst in
      let* new_buckets := move_chain (size (items s)) new_num_buckets cur new_buckets in
      move_all n' (i + 1) new_num_buckets new_buckets
  end.

Definition lh_rebucket (new_num_buckets : Z) : M state () :=
  let alloc_size := size_t (8 * new_num_buckets) in
  if negb (alloc_size / 8 =? new_num_buckets) then ret ()
  else if negb (OPENSSL_malloc_ok malloc_ok alloc_size) then ret ()
  else
    let* s := getst in
    let* new_buckets := move_all (Z.to_nat (num_buckets (lh s))) 0 new_num_buckets
                     (replicate (Z.to_nat new_num_buckets) None) in
    let* s := getst in
    putst (set_lh (Lhash (num_items (lh s)) new_buckets new_num_buckets (callback_depth (lh s))) s).

Definition lh_maybe_resize : M state () :=
  let* s := getst in
  let t := lh s in
  if callback_depth t >? 0 then ret ()
  else
    let avg_chain_length := num_items t / num_buckets t in
    if avg_chain_length >? kMaxAverageChainLength then
      let new_num_buckets := size_t (num_buckets t * 2) in
      if new_num_buckets >? num_buckets t then lh_rebucket new_num_buckets else ret ()
    else if (avg_chain_length <? kMinAverageChainLength) && (num_buckets t >? kMinNumBuckets) then
      let new_num_buckets := num_buckets t / 2 in
      let new_num_buckets := if new_num_buckets <? kMinNumBuckets then kMinNumBuckets else new_num_buckets in
      lh_rebucket new_num_buckets
    else ret ().

(** The address of a new item is one that is not in use. *)
Definition fresh_item (s : state) : positive := fresh (dom (items s)).

(** The return value and [*old_data]. *)
Definition OPENSSL_lh_insert (d : D) : M state (Z * option D) :=
  let* r := get_next_ptr_and_hash d in
  let '(next_ptr, h) := r in
  let* v := load_slot next_ptr in
  match v with
  | Some p =>
      let* it := load_item p in
      put_item p (Item d (item_next it) (item_hash it)) ;;
      ret (1, Some (item_data it))
  | None =>
      if negb (OPENSSL_malloc_ok malloc_ok 24) then ret (0, None)
      else
        let* s := getst in
        let item := fresh_item s in
        put_item item (Item d None h) ;;
        store_slot next_ptr (Some item) ;;
        let* s := getst in
        putst (set_lh (set_count (size_t (num_items (lh s) + 1)) (lh s)) s) ;;
        lh_maybe_resize ;;
        ret (1, None)
  end.

Definition OPENSSL_lh_delete (d : D) : M state (option D) :=
  let* r := get_next_ptr_and_hash d in
  let next_ptr := fst r in
  let* v := load_slot next_ptr in
  match v with
  | None => ret None
  | Some item =>
      let* it := load_item item in
      store_slot next_ptr (item_next it) ;;
      let* s := getst in
      putst (set_items (delete item (items s)) s) ;;
      let* s := getst in
      putst (set_lh (set_count (size_t (num_items (lh s) - 1)) (lh s)) s) ;;
      lh_maybe_resize ;;
      ret (Some (item_data it))
  end.

(** The two loops of [OPENSSL_lh_free]; the array and the table are not used
    afterwards. *)
Fixpoint free_chain (fuel : nat) (n : option positive) : M state () :=
  match n with
  | None => ret ()
  | Some p =>
      match fuel with
      | O => fail
      | S fuel' =>
          let* it := load_item p in
          let* s := getst in
          putst (set_items (delete p (items s)) s) ;;
          free_chain fuel' (item_next it)
      end
  end.
Fixpoint free_all (n : nat) (i : Z) : M state () :=
  match n with
  | O => ret ()
  | S n' =>
      let* cur := load_slot (Bucket i) in
      let* s := getst in
      free_chain (size (items s)) cur ;;
      free_all n' (i + 1)
  end.
Definition OPENSSL_lh_free : M state () :=
  let* s := getst in free_all (Z.to_nat (num_buckets (lh s))) 0.

(** ** Iteration

    [func d arg] is a call of the callback; what [arg] points to is a value of
    type [A]. The callback may use the table. *)
Section doall.
Context {A : Type} (func : D -> A -> M state A).

Fixpoint doall_chain (fuel : nat) (cur : option positive) (arg : A) : M state A :=
  match cur with
  | None => ret arg
  | Some p =>
      match fuel with
      | O => fail
      | S fuel' =>
          let* it := load_item p in
          let* arg := func (item_data it) arg in
          doall_chain fuel' (item_next it) arg
      end
  end.

(** [for (size_t i = 0; i < lh->num_buckets; i++)]. *)
Fixpoint doall_buckets (fuel : nat) (i : Z) (arg : A) : M state A :=
  let* s := getst in
  if i <? num_buckets (lh s) then
    match fuel with
    | O => fail
    | S fuel' =>
        let* cur := load_slot (Bucket i) in
        let* arg := doall_chain (size (items s)) cur arg in
        doall_buckets fuel' (i + 1) arg
    end
  else ret arg.

Definition OPENSSL_lh_doall_arg (arg : A) : M state A :=
  let* s := getst in
  (if callback_depth (lh s) <? UINT_MAX then putst (set_lh (set_depth (callback_depth (lh s) + 1) (lh s)) s) else ret ()) ;;
  let* arg := doall_buckets (Z.to_nat (num_buckets (lh s))) 0 arg in
  let* s := getst in
  (if callback_depth (lh s) <? UINT_MAX then putst (set_lh (set_depth (callback_depth (lh s) - 1) (lh s)) s) else ret ()) ;;
  lh_maybe_resize ;;
  ret arg.
End doall.
End lhash.

Arguments LHASH_ITEM D : clear implicits.
Arguments state D : clear implicits.

(** ** What the two functions of a table promise

    [key] says which elements are equal for [comp]. *)
Class LhashFunctions {D} (hash : D -> Z) (comp : D -> D -> Z) {K} (key : D -> K) : Prop := {
  comp_key x y : comp x y = 0 <-> key x = key y;
  hash_key x y : key x = key y -> hash x = hash y;
  hash_range x : 0 <= hash x < 2 ^ 32
}.

(** ** Linked lists in memory *)

Section chains.
Context {D : Type} (hash : D -> Z).
Abbreviation node := (positive * D)%type.
Implicit Types (m : gmap positive (LHASH_ITEM D)) (l : list node) (cs : list (list node)).

(** From [p], the items [l] lead to [q]; each caches the hash of its data. *)
Fixpoint seg m (p : option positive) l (q : option positive) : Prop :=
  match l with
  | [] => p = q
  | (x, d) :: l' => p = Some x /\ exists nx, m !! x = Some (Item d nx (hash d)) /\ seg m nx l' q
  end.

Lemma seg_app m p l1 l2 q : seg m p (l1 ++ l2) q <-> exists r, seg m p l1 r /\ seg m r l2 q.
Proof.
  revert p. induction l1 as [|[x d] l1 IH]; intros p; cbn [app seg].
  - split; [intros H; exists p; done|intros (r & -> & H); done].
  - setoid_rewrite IH. naive_solver.
Qed.

Lemma seg_frame m m' p l q : (forall x, x ∈ l.*1 -> m' !! x = m !! x) -> seg m p l q -> seg m' p l q.
Proof.
  revert p. induction l as [|[x d] l IH]; intros p Hm; cbn [seg]; [done|].
  intros (-> & nx & Hx & Hl). split; [done|]. exists nx. split.
  - rewrite Hm; [done|]. cbn. apply list_elem_of_here.
  - apply IH; [|done]. intros y Hy. apply Hm. cbn. apply list_elem_of_further. done.
Qed.

Lemma seg_lookup m p l q x d : seg m p l q -> (x, d) ∈ l -> exists nx, m !! x = Some (Item d nx (hash d)).
Proof.
  revert p. induction l as [|[y e] l IH]; intros p; cbn [seg]; [intros _ H; apply elem_of_nil in H; done|].
  intros (_ & nx & Hy & Hl) [[= -> ->]|Hin]%elem_of_cons; [by exists nx|]. eapply IH; done.
Qed.

Lemma list_insert_middle {T} (l1 l2 : list T) x y n : n = length l1 -> <[n := y]> (l1 ++ x :: l2) = l1 ++ y :: l2.
Proof. intros ->. rewrite insert_app_r_alt, Nat.sub_diag by lia. done. Qed.

(** The slot at the end of the list [l1] of bucket [i]. *)
Definition slot_of (i : nat) l1 : slot :=
  match last l1 with None => Bucket (Z.of_nat i) | Some (x, _) => Next x end.

Lemma slot_of_snoc i l x d : slot_of i (l ++ [(x, d)]) = Next x.
Proof. unfold slot_of. rewrite last_snoc. done. Qed.

(** The first item of a list. *)
Definition head_of l : option positive := fst <$> head l.
Lemma seg_head m p l : seg m p l None -> p = head_of l.
Proof. destruct l as [|[x d] l]; cbn; [done|]. intros [-> _]. done. Qed.

(** The array of buckets with the list of each. *)
Definition chains (m : gmap positive (LHASH_ITEM D)) (b : list (option positive)) cs : Prop :=
  Forall2 (fun p l => seg m p l None) b cs.

Lemma chains_frame m m' b cs : (forall x, x ∈ (concat cs).*1 -> m' !! x = m !! x) -> chains m b cs -> chains m' b cs.
Proof.
  intros Hm H. unfold chains in *. induction H as [|p l b cs Hp H IH]; constructor.
  - eapply seg_frame; [|exact Hp]. intros x Hx. apply Hm. cbn. rewrite fmap_app. apply elem_of_app. left. done.
  - apply IH. intros x Hx. apply Hm. cbn. rewrite fmap_app. apply elem_of_app. right. done.
Qed.

Lemma load_slot_of (s : state D) A l1 l2 B :
  chains (items s) (buckets (lh s)) (A ++ (l1 ++ l2) :: B) ->
  load_slot (slot_of (length A) l1) s = (Some (head_of l2), s).
Proof.
  intros H. apply Forall2_app_inv_r in H as (b1 & b2 & H1 & H2 & Hb).
  apply Forall2_cons_inv_r in H2 as (p & b3 & Hp & H3 & ->).
  apply Forall2_length in H1.
  destruct l1 as [|[x d] l1 _] using rev_ind.
  - cbn in Hp. cbn. rewrite Nat2Z.id, Hb, <- H1, list_lookup_middle by done.
    rewrite <- (seg_head _ _ _ Hp). done.
  - rewrite slot_of_snoc. rewrite <- app_assoc in Hp. apply seg_app in Hp as (r & _ & Hr). cbn [app seg] in Hr.
    destruct Hr as (_ & nx & Hx & Hs). cbn [load_slot]. unfold bind, load_item. rewrite Hx.
    rewrite <- (seg_head _ _ _ Hs). done.
Qed.

(** Storing [v], the head of [l2'], at the end of [l1] replaces the rest. *)
Lemma store_slot_of (s : state D) A l1 l2 l2' B v :
  chains (items s) (buckets (lh s)) (A ++ (l1 ++ l2) :: B) -> NoDup (concat (A ++ (l1 ++ l2) :: B)).*1 ->
  seg (items s) v l2' None -> (forall x, x ∈ l2'.*1 -> x ∉ l1.*1) ->
  exists s', store_slot (slot_of (length A) l1) v s = (Some (), s') /\
    chains (items s') (buckets (lh s')) (A ++ (l1 ++ l2') :: B) /\
    dom (items s') = dom (items s) /\
    (forall x, x ∉ l1.*1 -> items s' !! x = items s !! x) /\
    num_items (lh s') = num_items (lh s) /\ num_buckets (lh s') = num_buckets (lh s) /\
    callback_depth (lh s') = callback_depth (lh s).
Proof.
  intros H Hnd Hv Hdisj. apply Forall2_app_inv_r in H as (b1 & b2 & H1 & H2 & Hb).
  apply Forall2_cons_inv_r in H2 as (p & b3 & Hp & H3 & ->).
  pose proof (Forall2_length _ _ _ H1) as Hlen.
  destruct l1 as [|[x d] l1 _] using rev_ind.
  - eexists. split; [cbn; rewrite Nat2Z.id, Hb, <- Hlen, list_lookup_middle by done; done|].
    split_and!; try done. cbn [items set_lh lh buckets set_buckets]. rewrite list_insert_middle by done.
    apply Forall2_app; [done|]. constructor; done.
  - rewrite slot_of_snoc. rewrite <- app_assoc in Hp. apply seg_app in Hp as (r & Hr & Hx). cbn [app seg] in Hx.
    destruct Hx as (-> & nx & Hx & Hs). cbn [store_slot]. unfold bind, load_item. rewrite Hx.
    eexists. split; [done|]. cbn [put_item items set_items lh item_data item_hash].
    rewrite concat_app, fmap_app in Hnd. cbn [concat] in Hnd. rewrite !fmap_app in Hnd. cbn in Hnd.
    apply NoDup_app in Hnd as (HndA & HA & Hnd). apply NoDup_app in Hnd as (Hndl & Hl & HndB).
    apply NoDup_app in Hndl as (Hndl & Hl2 & Hnd2). apply NoDup_app in Hndl as (Hnd1 & Hxl1 & _).
    assert (Hf : forall y, y <> x -> <[x:=Item d v (hash d)]> (items s) !! y = items s !! y).
    { intros y Hy. apply lookup_insert_ne. done. }
    split_and!; try done.
    + rewrite Hb. apply Forall2_app; [|constructor].
      * eapply chains_frame; [|exact H1]. intros y Hy. apply Hf. intros ->. apply (HA x Hy).
        rewrite !elem_of_app. left. left. right. apply list_elem_of_singleton. done.
      * rewrite <- app_assoc. apply seg_app. exists (Some x). split.
        -- eapply seg_frame; [|exact Hr]. intros y Hy. apply Hf. intros ->. apply (Hxl1 x Hy). apply list_elem_of_singleton. done.
        -- cbn [app seg]. split; [done|]. exists v. rewrite lookup_insert_eq. split; [done|].
           eapply seg_frame; [|exact Hv]. intros y Hy. apply Hf. intros ->. apply (Hdisj x Hy).
           rewrite fmap_app. apply elem_of_app. right. apply list_elem_of_singleton. done.
      * eapply chains_frame; [|exact H3]. intros y Hy. apply Hf. intros ->. apply (Hl x); [|done].
        rewrite !elem_of_app. left. right. apply list_elem_of_singleton. done.
    + apply dom_insert_lookup_L. eexists. done.
    + intros y Hy. apply Hf. intros ->. apply Hy. rewrite fmap_app. apply elem_of_app. right. apply list_elem_of_singleton. done.
Qed.

(** Overwriting the data of an item by equal data. *)
Lemma chains_update m b A l1 x e l2 B d nx : chains m b (A ++ (l1 ++ (x, e) :: l2) :: B) ->
  NoDup (concat (A ++ (l1 ++ (x, e) :: l2) :: B)).*1 -> m !! x = Some (Item e nx (hash e)) ->
  chains (<[x := Item d nx (hash d)]> m) b (A ++ (l1 ++ (x, d) :: l2) :: B).
Proof.
  intros H Hnd Hx. apply Forall2_app_inv_r in H as (b1 & b2 & H1 & H2 & ->).
  apply Forall2_cons_inv_r in H2 as (p & b3 & Hp & H3 & ->).
  assert (Hf : forall l, (l ⊆ concat A \/ l ⊆ l1 \/ l ⊆ l2 \/ l ⊆ concat B) ->
    forall y, y ∈ l.*1 -> <[x:=Item d nx (hash d)]> m !! y = m !! y).
  { intros l Hl y Hy. apply lookup_insert_ne. intros <-.
    rewrite concat_app, fmap_app in Hnd. cbn [concat] in Hnd. rewrite !fmap_app in Hnd. cbn in Hnd.
    rewrite <- !app_assoc in Hnd. cbn in Hnd. rewrite app_assoc in Hnd. rewrite <- Permutation_middle in Hnd.
    apply NoDup_cons in Hnd as [Hn _]. apply Hn. rewrite !elem_of_app.
    apply list_elem_of_fmap in Hy as (z & -> & Hz).
    destruct Hl as [Hl|[Hl|[Hl|Hl]]]; specialize (Hl _ Hz); apply (list_elem_of_fmap_2 fst) in Hl; tauto. }
  apply Forall2_app; [|constructor].
  - eapply chains_frame; [|exact H1]. apply Hf. left. done.
  - apply seg_app in Hp as (r & Hr & Hs). apply seg_app. exists r. split.
    + eapply seg_frame; [|exact Hr]. apply Hf. right. left. done.
    + cbn [seg] in *. destruct Hs as (-> & nx' & Hx' & Hs). split; [done|]. exists nx. rewrite lookup_insert_eq. split; [done|].
      rewrite Hx in Hx'. injection Hx' as <-. eapply seg_frame; [|exact Hs]. apply Hf. do 2 right. left. done.
  - eapply chains_frame; [|exact H3]. apply Hf. do 3 right. done.
Qed.
End chains.

(** ** The table as a finite map *)

Section table.
Context {D : Type} (hash : D -> Z) (comp : D -> D -> Z) (malloc_ok : Z -> bool).
Context {K : Type} `{Countable K} (key : D -> K) `{!LhashFunctions hash comp key}.
Abbreviation node := (positive * D)%type.
Implicit Types (cs : list (list node)) (s : state D).

Definition elems cs : list D := (concat cs).*2.
Definition contents cs : gmap K D := list_to_map ((fun d => (key d, d)) <$> elems cs).

(** The table [s] has the lists [cs] in its buckets. *)
Record rep s cs : Prop := {
  rep_chains : chains hash (items s) (buckets (lh s)) cs;
  rep_len : Z.of_nat (length cs) = num_buckets (lh s);
  rep_min : kMinNumBuckets <= num_buckets (lh s) < 2 ^ 64;
  rep_nodup : NoDup (concat cs).*1;
  rep_dom : dom (items s) = list_to_set (concat cs).*1;
  rep_hash i l : cs !! i = Some l -> Forall (fun x => hash x.2 mod num_buckets (lh s) = Z.of_nat i) l;
  rep_keys : NoDup (key <$> elems cs);
  rep_count : num_items (lh s) = zlen (concat cs);
  rep_depth : 0 <= callback_depth (lh s) <= UINT_MAX
}.

(** No item is lost, shared or leaked, and the contents are [m]. *)
Definition table s (m : gmap K D) : Prop := exists cs, rep s cs /\ contents cs = m.

Lemma contents_lookup cs k d : NoDup (key <$> elems cs) -> contents cs !! k = Some d <-> d ∈ elems cs /\ key d = k.
Proof using.
  intros Hnd. unfold contents. rewrite <- elem_of_list_to_map.
  - rewrite list_elem_of_fmap. split; [intros (e & [= -> ->] & He); done|intros [He <-]; by exists d].
  - rewrite <- list_fmap_compose. exact Hnd.
Qed.

Lemma contents_none cs k : contents cs !! k = None <-> k ∉ key <$> elems cs.
Proof using.
  unfold contents. rewrite <- not_elem_of_list_to_map. rewrite <- list_fmap_compose. done.
Qed.

Lemma contents_perm cs cs' : NoDup (key <$> elems cs) -> concat cs' ≡ₚ concat cs -> contents cs' = contents cs.
Proof using.
  intros Hnd Hp. unfold contents. apply list_to_map_proper.
  - rewrite <- list_fmap_compose. unfold elems. rewrite Hp. exact Hnd.
  - unfold elems. rewrite Hp. done.
Qed.

Lemma contents_size cs : NoDup (key <$> elems cs) -> size (contents cs) = length (concat cs).
Proof using.
  intros Hnd. unfold contents. rewrite map_size_list_to_map by (rewrite <- list_fmap_compose; exact Hnd).
  unfold elems. rewrite !length_fmap. done.
Qed.

(** *** Searching *)

Lemma chain_loop_find test fuel : forall s A l1 l2 B, chains hash (items s) (buckets (lh s)) (A ++ (l1 ++ l2) :: B) ->
  (length l2 < fuel)%nat ->
  exists l2a l2b, l2 = l2a ++ l2b /\ Forall (fun x => test x.2 = false) l2a /\
    match l2b with [] => True | (_, d) :: _ => test d = true end /\
    chain_loop test fuel (slot_of (length A) l1) s = (Some (slot_of (length A) (l1 ++ l2a)), s).
Proof using.
  induction fuel as [|fuel IH]; intros s A l1 l2 B Hc Hf; [lia|]. cbn [chain_loop].
  erewrite bind_ok by (eapply load_slot_of; exact Hc).
  destruct l2 as [|[x d] l2]; cbn [head_of head fmap option_fmap option_map fst].
  - exists [], []. rewrite (app_nil_r l1). split_and!; try done; by apply Forall_nil_2.
  - assert (Hx : exists nx, items s !! x = Some (Item d nx (hash d))).
    { apply Forall2_app_inv_r in Hc as (b1 & b2 & _ & H2 & _). apply Forall2_cons_inv_r in H2 as (p & b3 & Hp & _ & _).
      eapply seg_lookup; [exact Hp|]. apply elem_of_app. right. apply list_elem_of_here. }
    destruct Hx as [nx Hx]. cbn match. erewrite bind_ok by (unfold load_item; rewrite Hx; done). cbn [item_data].
    destruct (test d) eqn:Et.
    + exists [], ((x, d) :: l2). rewrite (app_nil_r l1). split_and!; try done; by apply Forall_nil_2.
    + destruct (IH s A (l1 ++ [(x, d)]) l2 B) as (l2a & l2b & -> & Ha & Hb & E).
      { rewrite <- app_assoc. exact Hc. } { cbn in Hf. lia. }
      rewrite slot_of_snoc in E. exists ((x, d) :: l2a), l2b. split_and!; [done|constructor; done|done|].
      rewrite E, <- app_assoc. done.
Qed.

Lemma concat_split_length {T} (A B : list (list T)) l : (length l <= length (concat (A ++ l :: B)))%nat.
Proof using. rewrite concat_app. cbn. rewrite !length_app. lia. Qed.

Lemma rep_size s cs : rep s cs -> size (items s) = length (concat cs).
Proof using.
  intros Hr. rewrite <- (size_dom (items s)), (rep_dom _ _ Hr), size_list_to_set by apply Hr.
  apply length_fmap.
Qed.

Lemma get_next_ptr_find test h s cs : rep s cs -> 0 <= h ->
  exists A l1 l2 B, cs = A ++ (l1 ++ l2) :: B /\ Z.of_nat (length A) = h mod num_buckets (lh s) /\
    Forall (fun x => test x.2 = false) l1 /\ match l2 with [] => True | (_, d) :: _ => test d = true end /\
    get_next_ptr test h s = (Some (slot_of (length A) l1), s).
Proof using.
  intros Hr Hh. pose proof (rep_min _ _ Hr) as Hmin. unfold kMinNumBuckets in Hmin.
  pose proof (Z.mod_pos_bound h (num_buckets (lh s)) ltac:(lia)) as Hb. pose proof (rep_len _ _ Hr) as Hl.
  destruct (lookup_lt_is_Some_2 cs (Z.to_nat (h mod num_buckets (lh s)))) as [l Hi]; [lia|].
  pose proof (take_drop_middle _ _ _ Hi) as Ecs. set (A := take _ cs) in *. set (B := drop _ cs) in *.
  assert (HA : length A = Z.to_nat (h mod num_buckets (lh s))).
  { unfold A. rewrite length_take. apply lookup_lt_Some in Hi. lia. }
  clearbody A B. subst cs.
  destruct (chain_loop_find test (S (size (items s))) s A [] l B (rep_chains _ _ Hr)) as (l1 & l2 & -> & H1 & H2 & E).
  { rewrite (rep_size _ _ Hr). pose proof (concat_split_length A B l). lia. }
  exists A, l1, l2, B. split_and!; try done; [lia|].
  unfold get_next_ptr. erewrite bind_ok by done.
  assert (Es : Bucket (h mod num_buckets (lh s)) = slot_of (length A) ([] : list node)).
  { cbn. f_equal. lia. }
  rewrite Es. exact E.
Qed.

Lemma elem_bucket s cs e : rep s cs -> e ∈ elems cs -> exists l,
  cs !! Z.to_nat (hash e mod num_buckets (lh s)) = Some l /\ e ∈ l.*2.
Proof using.
  intros Hr ((x & e') & -> & He)%list_elem_of_fmap. apply list_elem_of_In, in_concat in He as (l & Hl & He).
  apply list_elem_of_In, list_elem_of_lookup in Hl as [i Hi]. apply list_elem_of_In in He.
  pose proof (rep_hash _ _ Hr _ _ Hi) as Hh. rewrite Forall_forall in Hh. specialize (Hh _ He). cbn [snd] in *.
  exists l. rewrite Hh, Nat2Z.id. split; [done|]. apply list_elem_of_fmap. exists (x, e'). done.
Qed.

(** A search for the elements with key [k]. *)
Definition finds (test : D -> bool) (h : Z) (k : K) : Prop :=
  (forall x, test x = true <-> key x = k) /\ (forall x, key x = k -> hash x = h) /\ 0 <= h.

Lemma finds_data d : finds (fun x => comp x d =? 0) (hash d) (key d).
Proof using LhashFunctions0.
  split_and!; [intros x; rewrite Z.eqb_eq; apply comp_key|intros x Hx; apply hash_key; done|].
  pose proof (hash_range (hash := hash) d). lia.
Qed.

(** The slot found and what it says of the map. *)
Lemma find_key s cs test h k : rep s cs -> finds test h k ->
  exists A l1 l2 B, cs = A ++ (l1 ++ l2) :: B /\ Z.of_nat (length A) = h mod num_buckets (lh s) /\
    get_next_ptr test h s = (Some (slot_of (length A) l1), s) /\
    load_slot (slot_of (length A) l1) s = (Some (head_of l2), s) /\
    match l2 with
    | [] => contents cs !! k = None
    | (x, e) :: _ => key e = k /\ contents cs !! k = Some e /\ exists nx, items s !! x = Some (Item e nx (hash e))
    end.
Proof using LhashFunctions0.
  intros Hr (Htest & Hhash & Hh).
  destruct (get_next_ptr_find test h s cs Hr Hh) as (A & l1 & l2 & B & -> & HA & H1 & H2 & E).
  exists A, l1, l2, B. pose proof (rep_chains _ _ Hr) as Hc. split_and!; try done.
  - eapply load_slot_of. exact Hc.
  - destruct l2 as [|[x e] l2].
    + apply contents_none. intros (e & Ek & He)%list_elem_of_fmap.
      destruct (elem_bucket _ _ _ Hr He) as (l & Hl & Hel).
      rewrite (Hhash e) in Hl by done. replace (Z.to_nat (h mod num_buckets (lh s))) with (length A) in Hl by lia.
      rewrite list_lookup_middle in Hl by done. injection Hl as <-. rewrite app_nil_r in Hel.
      apply list_elem_of_fmap in Hel as ((x & e') & -> & Hin). rewrite Forall_forall in H1. specialize (H1 _ Hin). cbn [snd] in *.
      rewrite (proj2 (Htest e')) in H1 by done. done.
    + rewrite contents_lookup by apply Hr. apply Htest in H2. split_and!; [done| |done|].
      * unfold elems. rewrite concat_app, fmap_app. apply elem_of_app. right. cbn [concat]. rewrite !fmap_app.
        apply elem_of_app. left. apply elem_of_app. right. cbn. apply list_elem_of_here.
      * apply Forall2_app_inv_r in Hc as (b1 & b2 & _ & Hb2 & _). apply Forall2_cons_inv_r in Hb2 as (p & b3 & Hp & _ & _).
        eapply seg_lookup; [exact Hp|]. apply elem_of_app. right. apply list_elem_of_here.
Qed.

Lemma find_data s cs d : rep s cs ->
  exists A l1 l2 B, cs = A ++ (l1 ++ l2) :: B /\ Z.of_nat (length A) = hash d mod num_buckets (lh s) /\
    get_next_ptr_and_hash hash comp d s = (Some (slot_of (length A) l1, hash d), s) /\
    load_slot (slot_of (length A) l1) s = (Some (head_of l2), s) /\
    match l2 with
    | [] => contents cs !! key d = None
    | (x, e) :: _ => key e = key d /\ contents cs !! key d = Some e /\ exists nx, items s !! x = Some (Item e nx (hash e))
    end.
Proof using LhashFunctions0.
  intros Hr. destruct (find_key s cs _ _ _ Hr (finds_data d)) as (A & l1 & l2 & B & E1 & E2 & E3 & E4 & E5).
  exists A, l1, l2, B. split_and!; try done. unfold get_next_ptr_and_hash. erewrite bind_ok by exact E3. done.
Qed.

(** *** Resizing *)

Definition bucketed (n : Z) cs : Prop := forall i l, cs !! i = Some l -> Forall (fun x => hash x.2 mod n = Z.of_nat i) l.

Lemma concat_replicate_nil n : concat (replicate n ([] : list node)) = [].
Proof using. induction n; done. Qed.

Lemma concat_insert_cons cs b lb (x : node) : cs !! b = Some lb -> concat (<[b := x :: lb]> cs) ≡ₚ x :: concat cs.
Proof using.
  intros Hb. rewrite <- (take_drop_middle _ _ _ Hb) at 2. rewrite insert_take_drop by (eapply lookup_lt_Some; exact Hb).
  rewrite !concat_app. cbn [concat app]. symmetry. apply Permutation_middle.
Qed.

Lemma move_chain_spec n fuel : 0 < n -> forall l cur nb ncs s,
  seg hash (items s) cur l None -> chains hash (items s) nb ncs -> NoDup (l.*1 ++ (concat ncs).*1) ->
  length nb = Z.to_nat n -> (length l <= fuel)%nat -> bucketed n ncs ->
  exists nb' ncs' m', move_chain fuel n cur nb s = (Some nb', set_items m' s) /\ chains hash m' nb' ncs' /\
    concat ncs' ≡ₚ l ++ concat ncs /\ length nb' = length nb /\ bucketed n ncs' /\ dom m' = dom (items s) /\
    (forall x, x ∉ l.*1 -> m' !! x = items s !! x).
Proof using.
  intros Hn. induction fuel as [|fuel IH]; intros l cur nb ncs s Hl Hc Hnd Hlen Hf Hb.
  - destruct l; [|cbn in Hf; lia]. cbn in Hl. subst cur. exists nb, ncs, (items s).
    split_and!; try done. destruct s; done.
  - destruct l as [|[x d] l].
    { cbn in Hl. subst cur. exists nb, ncs, (items s). split_and!; try done. destruct s; done. }
    destruct Hl as (-> & nx & Hx & Hl). cbn [move_chain].
    erewrite bind_ok by (unfold load_item; rewrite Hx; done). cbn [item_hash item_next].
    pose proof (Z.mod_pos_bound (hash d) n Hn) as Hm.
    destruct (lookup_lt_is_Some_2 nb (Z.to_nat (hash d mod n))) as [v Hv]; [lia|]. rewrite Hv.
    pose proof (Forall2_lookup_l _ _ _ _ _ Hc Hv) as (lb & Hlb & Hseg).
    cbn [fmap list_fmap app] in Hnd. apply NoDup_cons in Hnd as [Hxn Hnd].
    assert (Hf' : forall m y, y ∈ l.*1 ++ (concat ncs).*1 -> <[x := m]> (items s) !! y = items s !! y).
    { intros m y Hy. apply lookup_insert_ne. intros ->. done. }
    assert (Hlbn : forall y, y ∈ lb.*1 -> y ∈ (concat ncs).*1).
    { intros y (z & -> & Hz)%list_elem_of_fmap. apply list_elem_of_fmap. exists z. split; [done|].
      apply list_elem_of_In, in_concat. exists lb. split; apply list_elem_of_In; [|done].
      eapply list_elem_of_lookup_2. exact Hlb. }
    erewrite bind_ok.
    2: { cbn [store_slot]. erewrite bind_ok by (unfold load_item; rewrite Hx; done). done. }
    cbn [item_data item_hash].
    destruct (IH l nx (<[Z.to_nat (hash d mod n) := Some x]> nb) (<[Z.to_nat (hash d mod n) := (x, d) :: lb]> ncs)
      (set_items (<[x:=Item d v (hash d)]> (items s)) s)) as (nb' & ncs' & m' & E & Hc' & Hp & Hl' & Hb' & Hd & Hm').
    + eapply seg_frame; [|exact Hl]. intros y Hy. apply Hf'. apply elem_of_app. left. done.
    + apply Forall2_insert.
      * eapply chains_frame; [|exact Hc]. intros y Hy. apply Hf'. apply elem_of_app. right. done.
      * cbn [seg]. split; [done|]. exists v. cbn. rewrite lookup_insert_eq. split; [done|].
        eapply seg_frame; [|exact Hseg]. intros y Hy. apply Hf'. apply elem_of_app. right. apply Hlbn. done.
    + rewrite (concat_insert_cons ncs _ lb (x, d) Hlb). cbn. rewrite <- Permutation_middle. apply NoDup_cons. done.
    + rewrite length_insert. done.
    + cbn in Hf. lia.
    + intros i l0. destruct (decide (i = Z.to_nat (hash d mod n))) as [->|Hi].
      * rewrite list_lookup_insert_eq by (eapply lookup_lt_Some; exact Hlb). intros [= <-].
        constructor; [cbn; lia|]. apply (Hb _ _ Hlb).
      * rewrite list_lookup_insert_ne by done. apply Hb.
    + exists nb', ncs', m'. cbn [items set_items lh] in *. split_and!; try done.
      * rewrite Hp, (concat_insert_cons ncs _ lb (x, d) Hlb). rewrite <- Permutation_middle. done.
      * rewrite Hl', length_insert. done.
      * rewrite Hd. apply dom_insert_lookup_L. eexists. done.
      * intros y Hy. cbn in Hy. apply not_elem_of_cons in Hy as [Hyx Hy]. rewrite Hm' by done. apply lookup_insert_ne. done.
Qed.

Lemma move_all_spec n k : 0 < n -> forall i rest nb ncs s, length rest = k ->
  chains hash (items s) (drop i (buckets (lh s))) rest -> chains hash (items s) nb ncs ->
  NoDup ((concat rest).*1 ++ (concat ncs).*1) -> length nb = Z.to_nat n ->
  (length (concat rest) <= size (items s))%nat -> bucketed n ncs ->
  exists nb' ncs' m', move_all k (Z.of_nat i) n nb s = (Some nb', set_items m' s) /\ chains hash m' nb' ncs' /\
    concat ncs' ≡ₚ concat rest ++ concat ncs /\ length nb' = length nb /\ bucketed n ncs' /\ dom m' = dom (items s).
Proof using.
  intros Hn. induction k as [|k IH]; intros i rest nb ncs s Hk Hr Hc Hnd Hlen Hsz Hb; cbn [move_all].
  - destruct rest; [|done]. exists nb, ncs, (items s). split_and!; try done. destruct s; done.
  - destruct rest as [|l rest]; [done|]. apply Forall2_cons_inv_r in Hr as (cur & b & Hcur & Hrest & Ed).
    assert (Hi : buckets (lh s) !! i = Some cur).
    { rewrite <- (Nat.add_0_r i), <- lookup_drop, Ed. done. }
    erewrite bind_ok by (cbn; rewrite Nat2Z.id, Hi; done). erewrite bind_ok by done.
    cbn [concat] in Hnd, Hsz. rewrite fmap_app, <- app_assoc in Hnd. rewrite length_app in Hsz.
    apply NoDup_app in Hnd as (Hnl & Hll & Hnd).
    destruct (move_chain_spec n (size (items s)) Hn l cur nb ncs s) as (nb1 & ncs1 & m1 & E & Hc1 & Hp1 & Hl1 & Hb1 & Hd1 & Hm1);
      try done; [|lia|].
    { apply NoDup_app. apply NoDup_app in Hnd as (_ & _ & Hnc). split_and!; try done.
      intros x Hx Hx'. apply (Hll x Hx). apply elem_of_app. right. done. }
    erewrite bind_ok by exact E.
    destruct (IH (S i) rest nb1 ncs1 (set_items m1 s)) as (nb2 & ncs2 & m2 & E2 & Hc2 & Hp2 & Hl2 & Hb2 & Hd2); try done.
    + injection Hk as Hk. done.
    + cbn [items set_items lh]. replace (drop (S i) (buckets (lh s))) with b.
      2: { rewrite <- Nat.add_1_r, <- drop_drop, Ed. done. }
      eapply chains_frame; [|exact Hrest]. intros x Hx. apply Hm1. intros Hx'. apply (Hll x Hx'). apply elem_of_app. left. done.
    + rewrite Hp1, fmap_app. rewrite (Permutation_app_swap_app _ l.*1). apply NoDup_app. done.
    + lia.
    + cbn [items set_items]. rewrite <- (size_dom m1), Hd1, size_dom. lia.
    + replace (Z.of_nat i + 1) with (Z.of_nat (S i)) by lia. rewrite E2. exists nb2, ncs2, m2.
      cbn [items set_items lh] in *. split_and!; try done.
      * rewrite Hp2, Hp1. cbn [concat]. rewrite <- app_assoc. apply Permutation_app_swap_app.
      * lia.
      * rewrite Hd2, Hd1. done.
Qed.

Lemma rep_permute s cs s' cs' : rep s cs -> chains hash (items s') (buckets (lh s')) cs' -> concat cs' ≡ₚ concat cs ->
  dom (items s') = dom (items s) -> Z.of_nat (length cs') = num_buckets (lh s') ->
  kMinNumBuckets <= num_buckets (lh s') < 2 ^ 64 -> bucketed (num_buckets (lh s')) cs' ->
  num_items (lh s') = num_items (lh s) -> callback_depth (lh s') = callback_depth (lh s) -> rep s' cs'.
Proof using.
  intros Hr Hc Hp Hd Hl Hm Hb Hn Hcd. destruct Hr. constructor; try done.
  - rewrite Hp. done.
  - rewrite Hd, rep_dom0. apply list_to_set_perm_L. rewrite Hp. done.
  - unfold elems in *. rewrite Hp. done.
  - rewrite Hn, rep_count0. unfold zlen. rewrite Hp. done.
  - rewrite Hcd. done.
Qed.

(** The same elements in another arrangement, or the same state. *)
Definition rearranged s cs s' : Prop :=
  exists cs', rep s' cs' /\ concat cs' ≡ₚ concat cs /\ callback_depth (lh s') = callback_depth (lh s).

Lemma lh_rebucket_spec s cs n : rep s cs -> kMinNumBuckets <= n < 2 ^ 64 ->
  exists s', lh_rebucket malloc_ok n s = (Some (), s') /\ rearranged s cs s' /\
    (s' = s \/ num_buckets (lh s') = n) /\
    (OPENSSL_malloc_ok malloc_ok (8 * n) = true -> n < 2 ^ 61 -> num_buckets (lh s') = n).
Proof using.
  intros Hr Hn. unfold kMinNumBuckets in Hn. unfold lh_rebucket.
  assert (Hsame : rearranged s cs s) by (exists cs; done).
  destruct (Z.eqb_spec (size_t (8 * n) / 8) n) as [Ha|Ha]; cbn [negb].
  2: { eexists. split_and!; [done|done|left; done|]. intros _ Hn61. exfalso. apply Ha. rewrite size_t_small by lia. zarith. }
  assert (Hn61 : n < 2 ^ 61) by (unfold size_t, u64 in Ha; zarith).
  rewrite size_t_small by lia.
  destruct (OPENSSL_malloc_ok malloc_ok (8 * n)) eqn:Em; cbn [negb].
  2: { eexists. split_and!; [done|done|left; done|]. done. }
  erewrite bind_ok by done.
  pose proof (rep_len _ _ Hr) as Hlen.
  destruct (move_all_spec n (Z.to_nat (num_buckets (lh s))) ltac:(lia) 0 cs (replicate (Z.to_nat n) None)
    (replicate (Z.to_nat n) []) s) as (nb & ncs & m & E & Hc & Hp & Hl & Hb & Hd).
  - lia.
  - apply Hr.
  - apply Forall2_replicate. done.
  - assert (Hcr : concat (replicate (Z.to_nat n) ([] : list node)) = []) by (induction (Z.to_nat n); done).
    rewrite Hcr, app_nil_r. apply Hr.
  - apply length_replicate.
  - rewrite (rep_size _ _ Hr). done.
  - intros i l Hi%lookup_replicate_1. destruct Hi as [-> _]. constructor.
  - erewrite bind_ok by exact E. erewrite bind_ok by done.
    rewrite concat_replicate_nil, app_nil_r in Hp. rewrite length_replicate in Hl.
    set (s' := set_lh (Lhash (num_items (lh (set_items m s))) nb n (callback_depth (lh (set_items m s)))) (set_items m s)).
    assert (Hr' : rep s' ncs).
    { apply (rep_permute s cs); try done. cbn. rewrite <- (Forall2_length _ _ _ Hc), Hl. lia. }
    exists s'. split_and!; [done| |right; done|done]. exists ncs. done.
Qed.

(** What the code keeps true of the load, when it is allowed to resize. *)
Definition load_ok s : Prop :=
  num_items (lh s) < 3 * num_buckets (lh s) /\
  (num_buckets (lh s) = kMinNumBuckets \/ num_buckets (lh s) <= num_items (lh s)).

Lemma rearranged_count s cs s' : rep s cs -> rearranged s cs s' -> num_items (lh s') = num_items (lh s).
Proof using.
  intros Hr (cs' & Hr' & Hp & _). rewrite (rep_count _ _ Hr), (rep_count _ _ Hr'). unfold zlen. rewrite Hp. done.
Qed.

Lemma lh_maybe_resize_spec s cs : rep s cs -> num_items (lh s) < 2 ^ 56 ->
  exists s', lh_maybe_resize malloc_ok s = (Some (), s') /\ rearranged s cs s' /\
    ((forall k, 0 <= k < 2 ^ 63 -> malloc_ok k = true) -> callback_depth (lh s) = 0 ->
     num_items (lh s) <= 3 * num_buckets (lh s) ->
     (num_buckets (lh s) = kMinNumBuckets \/ num_buckets (lh s) <= num_items (lh s) + 1) -> load_ok s').
Proof using.
  intros Hr Hit. pose proof (rep_min _ _ Hr) as Hmin. pose proof (rep_depth _ _ Hr) as Hd.
  pose proof (rep_count _ _ Hr) as Hc. pose proof (zlen_nonneg (concat cs)) as Hc0. unfold kMinNumBuckets in Hmin.
  assert (Hsame : rearranged s cs s) by (exists cs; done).
  unfold lh_maybe_resize. erewrite bind_ok by done. cbn zeta. unfold load_ok, kMaxAverageChainLength, kMinAverageChainLength, kMinNumBuckets.
  set (nb := num_buckets (lh s)) in *. set (n := num_items (lh s)) in *.
  assert (Hq : n / nb * nb <= n < (n / nb + 1) * nb).
  { pose proof (Z.mul_div_le n nb ltac:(lia)). pose proof (Z.mul_succ_div_gt n nb ltac:(lia)). lia. }
  destruct (Z.gtb_spec (callback_depth (lh s)) 0).
  { eexists. split_and!; [done|done|]. lia. }
  destruct (Z.gtb_spec (n / nb) 2) as [H2|H2].
  - assert (H3n : 3 * nb <= n) by nia.
    destruct (Z.gtb_spec (size_t (nb * 2)) nb) as [H3|H3].
    + destruct (lh_rebucket_spec s cs (size_t (nb * 2)) Hr) as (s' & E & Hre & _ & Hn'); [unfold kMinNumBuckets; pose proof (u64_range (nb * 2)); unfold size_t in *; lia|].
      exists s'. split_and!; [done|done|]. intros Hm _ Hub _. rewrite (rearranged_count s cs s' Hr Hre). fold n.
      rewrite size_t_small in * by lia. rewrite Hn'; [lia|apply malloc_ok_small; [done|lia]|lia].
    + eexists. split_and!; [done|done|]. intros _ _ Hub _. exfalso. rewrite size_t_small in H3 by lia. lia.
  - destruct (Z.ltb_spec (n / nb) 1) as [H3|H3]; cbn [andb].
    + destruct (Z.gtb_spec nb 16) as [H4|H4].
      * set (k := if nb / 2 <? 16 then 16 else nb / 2).
        assert (Hk : 16 <= k < nb /\ (k = 16 /\ nb < 32 \/ k = nb / 2)) by (unfold k; destruct (Z.ltb_spec (nb / 2) 16); zarith).
        destruct (lh_rebucket_spec s cs k Hr) as (s' & E & Hre & _ & Hn'); [unfold kMinNumBuckets; lia|].
        exists s'. split_and!; [done|done|]. intros Hm _ Hub Hlb. rewrite (rearranged_count s cs s' Hr Hre). fold n.
        assert (Hk56 : nb <= 2 ^ 56) by lia.
        rewrite Hn'; [|apply malloc_ok_small; [done|lia]|lia].
        assert (Hlt : n < nb) by nia. clear Hq H2 H3. clearbody k nb n. zarith.
      * eexists. split_and!; [done|done|]. intros; fold nb n; nia.
    + eexists. split_and!; [done|done|]. intros; fold nb n; nia.
Qed.

(** *** The operations *)

#[local] Arguments lh_maybe_resize : simpl never.

Lemma data_at_spec s cs test h k : rep s cs -> finds test h k ->
  (let* r := get_next_ptr test h in data_at r) s = (Some (contents cs !! k), s).
Proof using LhashFunctions0.
  intros Hr Hf. destruct (find_key s cs test h k Hr Hf) as (A & l1 & l2 & B & _ & _ & E & El & H2).
  erewrite bind_ok by exact E. unfold data_at. erewrite bind_ok by exact El.
  destruct l2 as [|[x e] l2]; cbn [head_of head fmap option_fmap option_map fst]; [rewrite H2; done|].
  destruct H2 as (_ & -> & nx & Hx). cbn match. erewrite bind_ok by (unfold load_item; rewrite Hx; done). done.
Qed.

Lemma retrieve_spec s cs d : rep s cs -> OPENSSL_lh_retrieve hash comp d s = (Some (contents cs !! key d), s).
Proof using LhashFunctions0.
  intros Hr. pose proof (data_at_spec s cs _ _ _ Hr (finds_data d)) as E.
  unfold OPENSSL_lh_retrieve, get_next_ptr_and_hash. unfold bind in *. destruct (get_next_ptr _ _ s) as [[r|] s']; done.
Qed.

(** Elements of the list at one place of one bucket. *)
Lemma concat_place A l1 l2 B : concat (A ++ (l1 ++ l2) :: B) ≡ₚ (l2 ++ (concat A ++ l1 ++ concat B) : list node).
Proof using.
  rewrite concat_app. cbn [concat]. solve_Permutation.
Qed.

Lemma bucketed_place n A l l' B : bucketed n (A ++ l :: B) ->
  (Forall (fun x => hash x.2 mod n = Z.of_nat (length A)) l -> Forall (fun x => hash x.2 mod n = Z.of_nat (length A)) l') ->
  bucketed n (A ++ l' :: B).
Proof using.
  intros Hb Hl i l0 Hi. destruct (decide (i = length A)) as [->|Hne].
  - rewrite list_lookup_middle in Hi by done. injection Hi as <-. apply Hl, Hb, list_lookup_middle. done.
  - apply Hb. rewrite <- (list_insert_middle A B l' l (length A)) by done. rewrite list_lookup_insert_ne by done. done.
Qed.

Lemma contents_cons cs x d (R : list node) : NoDup (key <$> elems cs) -> concat cs ≡ₚ (x, d) :: R ->
  contents cs = <[key d := d]> (contents [R]) /\ contents [R] !! key d = None.
Proof using.
  intros Hnd Hp. assert (Hk : NoDup (key <$> elems [(x, d) :: R])).
  { unfold elems in *. cbn [concat]. rewrite app_nil_r, <- Hp. exact Hnd. }
  split.
  - rewrite <- (contents_perm cs [(x, d) :: R]); [|done|cbn [concat]; rewrite app_nil_r; done]. done.
  - unfold elems in Hk. cbn in Hk. rewrite app_nil_r in Hk. apply NoDup_cons in Hk as [Hk _].
    apply contents_none. unfold elems. cbn [concat]. rewrite app_nil_r. exact Hk.
Qed.

(** The part of [OPENSSL_lh_insert] that adds an item. *)
Lemma insert_new s cs A l1 B d : rep s cs -> cs = A ++ (l1 ++ []) :: B -> Z.of_nat (length A) = hash d mod num_buckets (lh s) ->
  contents cs !! key d = None -> num_items (lh s) < 2 ^ 56 - 1 ->
  exists s3 cs3, (let* s := getst in
                  put_item (fresh_item s) (Item d None (hash d)) ;;
                  store_slot (slot_of (length A) l1) (Some (fresh_item s)) ;;
                  let* s := getst in
                  putst (set_lh (set_count (size_t (num_items (lh s) + 1)) (lh s)) s)) s = (Some (), s3) /\
    rep s3 cs3 /\ num_items (lh s3) = num_items (lh s) + 1 /\ num_buckets (lh s3) = num_buckets (lh s) /\
    callback_depth (lh s3) = callback_depth (lh s) /\ contents cs3 = <[key d := d]> (contents cs).
Proof using.
  intros Hr -> HA Hno Hn. set (cs := A ++ (l1 ++ []) :: B) in *. set (p := fresh_item s).
  assert (Hpd : p ∉ dom (items s)) by apply is_fresh.
  assert (Hpc : p ∉ (concat cs).*1) by (rewrite (rep_dom _ _ Hr), elem_of_list_to_set in Hpd; done).
  set (s1 := set_items (<[p := Item d None (hash d)]> (items s)) s).
  assert (Hc1 : chains hash (items s1) (buckets (lh s1)) cs).
  { eapply chains_frame; [|apply Hr]. intros y Hy. apply lookup_insert_ne. intros ->. done. }
  assert (Hpl1 : p ∉ l1.*1).
  { intros Hp. apply Hpc. unfold cs. rewrite concat_place. cbn [app]. rewrite !fmap_app, !elem_of_app. tauto. }
  destruct (store_slot_of hash s1 A l1 [] [(p, d)] B (Some p) Hc1) as (s2 & E & Hc2 & Hd2 & _ & Hn2 & Hnb2 & Hcd2).
  { apply Hr. }
  { cbn. split; [done|]. exists None. rewrite lookup_insert_eq. done. }
  { intros x Hx%list_elem_of_singleton. subst x. done. }
  set (cs3 := A ++ (l1 ++ [(p, d)]) :: B) in *.
  assert (Hp3 : concat cs3 ≡ₚ (p, d) :: concat cs).
  { unfold cs3, cs. rewrite !concat_place. done. }
  pose proof (rep_count _ _ Hr) as Hcount. pose proof (zlen_nonneg (concat cs)) as Hge.
  set (s3 := set_lh (set_count (size_t (num_items (lh s2) + 1)) (lh s2)) s2).
  assert (En3 : num_items (lh s3) = num_items (lh s) + 1).
  { cbn. rewrite Hn2. cbn. rewrite size_t_small by lia. done. }
  assert (Hr3 : rep s3 cs3).
  { constructor.
    - exact Hc2.
    - cbn. rewrite Hnb2. cbn. rewrite <- (rep_len _ _ Hr). unfold cs3, cs. rewrite !length_app. done.
    - cbn. rewrite Hnb2. apply Hr.
    - rewrite Hp3. cbn. apply NoDup_cons. split; [done|apply Hr].
    - cbn. rewrite Hd2. cbn. rewrite dom_insert_L, (rep_dom _ _ Hr), (list_to_set_perm_L _ _ (fmap_Permutation fst _ _ Hp3)).
      done.
    - cbn. rewrite Hnb2. eapply bucketed_place; [exact (rep_hash _ _ Hr)|]. rewrite app_nil_r. intros Hl. apply Forall_app. split; [done|].
      constructor; [|constructor]. cbn. lia.
    - unfold elems. rewrite Hp3. cbn. apply NoDup_cons. split; [|apply Hr]. apply contents_none. done.
    - rewrite En3, Hcount. unfold zlen. rewrite Hp3. cbn. lia.
    - cbn. rewrite Hcd2. apply Hr. }
  exists s3, cs3. split_and!; [|exact Hr3|exact En3|exact Hnb2|exact Hcd2|].
  - erewrite bind_ok by done. erewrite bind_ok by done. fold p s1. erewrite bind_ok by exact E. done.
  - destruct (contents_cons cs3 p d (concat cs) (rep_keys _ _ Hr3) Hp3) as [-> _]. f_equal.
    apply contents_perm; [apply Hr|]. cbn [concat]. rewrite app_nil_r. done.
Qed.

(** An operation keeps the load of the table within the bounds. *)
Definition keeps_load s s' : Prop :=
  (forall k, 0 <= k < 2 ^ 63 -> malloc_ok k = true) -> callback_depth (lh s) = 0 -> load_ok s -> load_ok s'.

Lemma insert_spec s cs d : rep s cs -> num_items (lh s) < 2 ^ 56 - 1 ->
  exists r s' cs', OPENSSL_lh_insert hash comp malloc_ok d s = (Some r, s') /\ rep s' cs' /\
    callback_depth (lh s') = callback_depth (lh s) /\
    (r, contents cs') =
      match contents cs !! key d with
      | Some e => ((1, Some e), <[key d := d]> (contents cs))
      | None => if OPENSSL_malloc_ok malloc_ok 24 then ((1, None), <[key d := d]> (contents cs)) else ((0, None), contents cs)
      end /\ keeps_load s s'.
Proof using LhashFunctions0.
  intros Hr Hn. unfold OPENSSL_lh_insert.
  destruct (find_data s cs d Hr) as (A & l1 & l2 & B & -> & HA & E & El & H2).
  erewrite bind_ok by exact E. cbn match. erewrite bind_ok by exact El.
  destruct l2 as [|[x e] l2]; cbn [head_of head fmap option_fmap option_map fst].
  - rewrite H2. destruct (OPENSSL_malloc_ok malloc_ok 24); cbn [negb].
    2: { do 3 eexists. split_and!; try done. intros ???; done. }
    destruct (insert_new s (A ++ (l1 ++ []) :: B) A l1 B d Hr) as (s3 & cs3 & E3 & Hr3 & Hn3 & Hnb3 & Hd3 & Hc3); [done..|].
    destruct (lh_maybe_resize_spec s3 cs3 Hr3) as (s4 & E4 & (cs4 & Hr4 & Hp4 & Hd4) & Hload); [lia|].
    exists (1, None), s4, cs4. split_and!; [|done|congruence| |].
    + unfold bind in E3 |- *. cbn in E3 |- *. destruct (store_slot _ _ _) as [[[]|] s2]; [|done].
      injection E3 as <-. cbn in E4. rewrite E4. done.
    + rewrite (contents_perm cs3 cs4) by (apply Hr3 || done). rewrite Hc3. done.
    + intros Hm Hd0 Hl. destruct Hl. apply Hload; try done; [congruence|lia|]. destruct H1; [left; congruence|right; lia].
  - destruct H2 as (Ek & Hc & nx & Hx). rewrite Hc. cbn match.
    erewrite bind_ok by (unfold load_item; rewrite Hx; done). cbn [item_next item_hash item_data].
    erewrite bind_ok by done.
    set (s' := set_items (<[x:=Item d nx (hash e)]> (items s)) s).
    pose proof (concat_place A l1 ((x, e) :: l2) B) as Hp. pose proof (concat_place A l1 ((x, d) :: l2) B) as Hp'.
    cbn [app] in Hp, Hp'. set (R := l2 ++ concat A ++ l1 ++ concat B) in *.
    set (cs := A ++ (l1 ++ (x, e) :: l2) :: B) in *. set (cs' := A ++ (l1 ++ (x, d) :: l2) :: B) in *.
    assert (Hp1 : (concat cs').*1 ≡ₚ (concat cs).*1) by (rewrite Hp, Hp'; done).
    assert (Hpk : key <$> elems cs' ≡ₚ key <$> elems cs).
    { unfold elems. rewrite Hp, Hp'. cbn. rewrite Ek. done. }
    assert (Hh : hash e = hash d) by (apply (hash_key (key := key)); done).
    assert (Hr' : rep s' cs').
    { destruct Hr. constructor; try done.
      - cbn. rewrite Hh. apply (chains_update _ _ _ _ _ _ e); done.
      - cbn. rewrite <- rep_len0. unfold cs, cs'. rewrite !length_app. done.
      - rewrite Hp1. done.
      - cbn. rewrite dom_insert_lookup_L by (eexists; done). rewrite rep_dom0. apply list_to_set_perm_L. symmetry. exact Hp1.
      - eapply bucketed_place; [exact rep_hash0|]. rewrite !Forall_app, !Forall_cons. cbn [snd].
        rewrite Hh. intros (? & ? & ?). split_and!; done.
      - rewrite Hpk. done.
      - cbn. rewrite rep_count0. unfold zlen. rewrite (Permutation_length Hp), (Permutation_length Hp'). done. }
    do 3 eexists. split_and!; [done|exact Hr'|done| |intros ???; done]. f_equal.
    destruct (contents_cons cs x e R (rep_keys _ _ Hr) Hp) as [-> _].
    destruct (contents_cons cs' x d R (rep_keys _ _ Hr') Hp') as [-> _].
    rewrite Ek, insert_insert_eq. done.
Qed.

(** The part of [OPENSSL_lh_delete] that removes an item. *)
Lemma delete_found s cs A l1 x e l2 B nx : rep s cs -> cs = A ++ (l1 ++ (x, e) :: l2) :: B ->
  items s !! x = Some (Item e nx (hash e)) -> num_items (lh s) < 2 ^ 56 ->
  exists s3 cs3, (let* _ := store_slot (slot_of (length A) l1) nx in
                  let* s := getst in
                  putst (set_items (delete x (items s)) s) ;;
                  let* s := getst in
                  putst (set_lh (set_count (size_t (num_items (lh s) - 1)) (lh s)) s)) s = (Some (), s3) /\
    rep s3 cs3 /\ num_items (lh s3) = num_items (lh s) - 1 /\ num_buckets (lh s3) = num_buckets (lh s) /\
    callback_depth (lh s3) = callback_depth (lh s) /\ contents cs3 = delete (key e) (contents cs) /\
    cs3 = A ++ (l1 ++ l2) :: B.
Proof using LhashFunctions0.
  intros Hr -> Hx Hn56. set (cs := A ++ (l1 ++ (x, e) :: l2) :: B) in *.
  pose proof (rep_chains _ _ Hr) as Hc. pose proof (rep_nodup _ _ Hr) as Hnd.
  assert (Hp : concat cs ≡ₚ (x, e) :: concat (A ++ (l1 ++ l2) :: B)).
  { unfold cs. rewrite !concat_place. done. }
  set (cs3 := A ++ (l1 ++ l2) :: B) in *.
  assert (Hnd3 : x ∉ (concat cs3).*1 /\ NoDup (concat cs3).*1) by (rewrite Hp in Hnd; apply NoDup_cons in Hnd; exact Hnd).
  assert (Hs2 : seg hash (items s) nx l2 None).
  { apply Forall2_app_inv_r in Hc as (b1 & b2 & _ & H2 & _). apply Forall2_cons_inv_r in H2 as (p & b3 & Hs & _ & _).
    apply seg_app in Hs as (r & _ & Hs). cbn [seg] in Hs. destruct Hs as (_ & nx' & Hx' & Hs). congruence. }
  destruct (store_slot_of hash s A l1 ((x, e) :: l2) l2 B nx Hc Hnd Hs2) as (s2 & E & Hc2 & Hd2 & _ & Hn2 & Hnb2 & Hcd2).
  { intros y Hy Hy1. destruct Hnd3 as [_ Hn]. unfold cs3 in Hn. rewrite concat_app, fmap_app in Hn.
    apply NoDup_app in Hn as (_ & _ & Hn). cbn [concat] in Hn. rewrite !fmap_app in Hn.
    apply NoDup_app in Hn as (Hn & _ & _). apply NoDup_app in Hn as (_ & Hn & _). apply (Hn y Hy1 Hy). }
  pose proof (rep_count _ _ Hr) as Hcount. unfold zlen in Hcount. rewrite Hp in Hcount. cbn in Hcount.
  pose proof (rep_min _ _ Hr) as Hmin.
  set (s3 := State (set_count (size_t (num_items (lh s2) - 1)) (lh s2)) (delete x (items s2))).
  destruct Hnd3 as [Hx3 Hnd3].
  exists s3, cs3. assert (En3 : num_items (lh s3) = num_items (lh s) - 1).
  { cbn. rewrite Hn2. rewrite size_t_small by lia. done. }
  assert (Hr3 : rep s3 cs3).
  { constructor.
    - cbn. eapply chains_frame; [|exact Hc2]. intros y Hy. apply lookup_delete_ne. intros ->. done.
    - cbn. rewrite Hnb2, <- (rep_len _ _ Hr). unfold cs3, cs. rewrite !length_app. done.
    - cbn. rewrite Hnb2. apply Hr.
    - exact Hnd3.
    - cbn. rewrite dom_delete_L, Hd2, (rep_dom _ _ Hr), (list_to_set_perm_L _ _ (fmap_Permutation fst _ _ Hp)). cbn.
      apply set_eq. intros y. rewrite elem_of_difference, elem_of_union, elem_of_singleton, elem_of_list_to_set. set_solver.
    - cbn. rewrite Hnb2. eapply bucketed_place; [exact (rep_hash _ _ Hr)|]. rewrite !Forall_app, Forall_cons. tauto.
    - pose proof (rep_keys _ _ Hr) as Hk. unfold elems in *. rewrite Hp in Hk. cbn in Hk. apply NoDup_cons in Hk as [_ Hk]. done.
    - rewrite En3, Hcount. unfold zlen. lia.
    - cbn. rewrite Hcd2. apply Hr. }
  split_and!; try done.
  - erewrite bind_ok by exact E. done.
  - destruct (contents_cons cs x e (concat cs3) (rep_keys _ _ Hr) Hp) as [-> Hno].
    rewrite delete_insert_id by done. apply contents_perm; [|cbn [concat]; rewrite app_nil_r; done].
    unfold elems. cbn [concat]. rewrite app_nil_r. apply Hr3.
Qed.

Lemma delete_spec s cs d : rep s cs -> num_items (lh s) < 2 ^ 56 ->
  exists s' cs', OPENSSL_lh_delete hash comp malloc_ok d s = (Some (contents cs !! key d), s') /\ rep s' cs' /\
    callback_depth (lh s') = callback_depth (lh s) /\ contents cs' = delete (key d) (contents cs) /\ keeps_load s s'.
Proof using LhashFunctions0.
  intros Hr Hn. unfold OPENSSL_lh_delete.
  destruct (find_data s cs d Hr) as (A & l1 & l2 & B & -> & HA & E & El & H2).
  erewrite bind_ok by exact E. cbn zeta. cbn [fst]. erewrite bind_ok by exact El.
  destruct l2 as [|[x e] l2]; cbn [head_of head fmap option_fmap option_map fst].
  - rewrite H2. do 2 eexists. split_and!; [done|exact Hr|done| |intros ???; done].
    rewrite delete_id by done. done.
  - destruct H2 as (Ek & Hc & nx & Hx). rewrite Hc. cbn match.
    erewrite bind_ok by (unfold load_item; rewrite Hx; done). cbn [item_next item_hash item_data].
    destruct (delete_found s _ A l1 x e l2 B nx Hr eq_refl Hx Hn) as (s3 & cs3 & E3 & Hr3 & Hn3 & Hnb3 & Hd3 & Hc3 & _).
    destruct (lh_maybe_resize_spec s3 cs3 Hr3) as (s4 & E4 & (cs4 & Hr4 & Hp4 & Hd4) & Hload); [lia|].
    exists s4, cs4. split_and!; [|done|congruence| |].
    + unfold bind in E3 |- *. cbn in E3 |- *. destruct (store_slot _ _ _) as [[[]|] s2]; [|done].
      injection E3 as <-. cbn in E4. rewrite E4. done.
    + rewrite (contents_perm cs3 cs4) by (apply Hr3 || done). rewrite Hc3, Ek. done.
    + intros Hm Hd0 Hl. destruct Hl as [Hl1 Hl2]. apply Hload; try done; [congruence|lia|]. destruct Hl2; [left; congruence|right; lia].
Qed.

(** *** Freeing *)

Lemma free_chain_spec fuel : forall l cur s, seg hash (items s) cur l None -> NoDup l.*1 -> (length l <= fuel)%nat ->
  exists m, free_chain fuel cur s = (Some (), set_items m s) /\ dom m = dom (items s) ∖ list_to_set l.*1 /\
    (forall x, x ∉ l.*1 -> m !! x = items s !! x).
Proof using LhashFunctions0.
  induction fuel as [|fuel IH]; intros l cur s Hs Hnd Hf.
  - destruct l; [|cbn in Hf; lia]. cbn in Hs. subst cur. exists (items s). destruct s. split_and!; [done|set_solver|done].
  - destruct l as [|[x d] l]; [cbn in Hs; subst cur; exists (items s); destruct s; split_and!; [done|set_solver|done]|].
    destruct Hs as (-> & nx & Hx & Hs). cbn in Hnd. apply NoDup_cons in Hnd as [Hxl Hnd]. cbn [free_chain].
    erewrite bind_ok by (unfold load_item; rewrite Hx; done). erewrite bind_ok by done. erewrite bind_ok by done.
    destruct (IH l nx (set_items (delete x (items s)) s)) as (m & E & Hd & Hm); [|done|cbn in Hf; lia|].
    { eapply seg_frame; [|exact Hs]. intros y Hy. cbn. apply lookup_delete_ne. intros ->. done. }
    exists m. cbn in *. split_and!; [exact E| |].
    + rewrite Hd, dom_delete_L. set_solver.
    + intros y Hy. apply not_elem_of_cons in Hy as [Hy Hyl]. rewrite Hm by done. apply lookup_delete_ne. done.
Qed.

Lemma free_all_spec k : forall i rest s, length rest = k -> chains hash (items s) (drop i (buckets (lh s))) rest ->
  NoDup (concat rest).*1 -> dom (items s) = list_to_set (concat rest).*1 ->
  exists s', free_all k (Z.of_nat i) s = (Some (), s') /\ items s' = ∅.
Proof using LhashFunctions0.
  induction k as [|k IH]; intros i rest s Hk Hr Hnd Hd; cbn [free_all].
  - destruct rest; [|done]. cbn in Hd. exists s. split; [done|]. apply dom_empty_inv_L. done.
  - destruct rest as [|l rest]; [done|]. apply Forall2_cons_inv_r in Hr as (cur & b & Hcur & Hrest & Ed).
    assert (Hi : buckets (lh s) !! i = Some cur) by (rewrite <- (Nat.add_0_r i), <- lookup_drop, Ed; done).
    erewrite bind_ok by (cbn; rewrite Nat2Z.id, Hi; done). erewrite bind_ok by done.
    cbn [concat] in Hnd, Hd. rewrite fmap_app in Hnd, Hd. apply NoDup_app in Hnd as (Hnl & Hll & Hnd).
    destruct (free_chain_spec (size (items s)) l cur s Hcur Hnl) as (m & E & Hdm & Hm).
    { rewrite <- size_dom, Hd, list_to_set_app_L, size_union, size_list_to_set by (done || set_solver). rewrite length_fmap. lia. }
    erewrite bind_ok by exact E. replace (Z.of_nat i + 1) with (Z.of_nat (S i)) by lia.
    apply (IH (S i) rest (set_items m s)).
    + injection Hk as Hk. done.
    + cbn [items set_items lh]. replace (drop (S i) (buckets (lh s))) with b.
      2: { rewrite <- Nat.add_1_r, <- drop_drop, Ed. done. }
      eapply chains_frame; [|exact Hrest]. intros x Hx. apply Hm. intros Hx'. apply (Hll x Hx' Hx).
    + done.
    + cbn. rewrite Hdm, Hd, list_to_set_app_L. set_solver.
Qed.

Lemma free_spec s cs : rep s cs -> exists s', OPENSSL_lh_free s = (Some (), s') /\ items s' = ∅.
Proof using LhashFunctions0.
  intros Hr. unfold OPENSSL_lh_free. erewrite bind_ok by done. pose proof (rep_len _ _ Hr).
  apply (free_all_spec _ 0 cs); [lia|apply Hr..].
Qed.

(** ** Sequences of operations *)

(** [RetrieveKey h c k] is [OPENSSL_lh_retrieve_key] for elements with key [k]. *)
Inductive op := Insert (d : D) | Delete (d : D) | Retrieve (d : D) | RetrieveKey (h : Z) (cmp_key : D -> Z) (k : K).
Definition op_legal (o : op) : Prop :=
  match o with
  | RetrieveKey h c k => (forall x, c x = 0 <-> key x = k) /\ (forall x, key x = k -> hash x = h) /\ 0 <= h < 2 ^ 32
  | _ => True
  end.

(** The return value, 1 when there is none, and the element returned. *)
Definition run_op (o : op) : M (state D) (Z * option D) :=
  match o with
  | Insert d => OPENSSL_lh_insert hash comp malloc_ok d
  | Delete d => let* r := OPENSSL_lh_delete hash comp malloc_ok d in ret (1, r)
  | Retrieve d => let* r := OPENSSL_lh_retrieve hash comp d in ret (1, r)
  | RetrieveKey h c _ => let* r := OPENSSL_lh_retrieve_key h c in ret (1, r)
  end.
Fixpoint run_ops (l : list op) : M (state D) (list (Z * option D)) :=
  match l with
  | [] => ret []
  | o :: l' => let* r := run_op o in let* rs := run_ops l' in ret (r :: rs)
  end.

(** The same on a finite map. *)
Definition op_spec (o : op) (m : gmap K D) : (Z * option D) * gmap K D :=
  match o with
  | Insert d =>
      match m !! key d with
      | Some e => ((1, Some e), <[key d := d]> m)
      | None => if OPENSSL_malloc_ok malloc_ok 24 then ((1, None), <[key d := d]> m) else ((0, None), m)
      end
  | Delete d => ((1, m !! key d), delete (key d) m)
  | Retrieve d => ((1, m !! key d), m)
  | RetrieveKey _ _ k => ((1, m !! k), m)
  end.
Fixpoint ops_spec (l : list op) (m : gmap K D) : list (Z * option D) * gmap K D :=
  match l with
  | [] => ([], m)
  | o :: l' => let '(r, m) := op_spec o m in let '(rs, m) := ops_spec l' m in (r :: rs, m)
  end.

Lemma run_op_spec s cs o : rep s cs -> op_legal o -> num_items (lh s) < 2 ^ 56 - 1 ->
  exists r s' cs', run_op o s = (Some r, s') /\ rep s' cs' /\ callback_depth (lh s') = callback_depth (lh s) /\
    op_spec o (contents cs) = (r, contents cs') /\ keeps_load s s'.
Proof using LhashFunctions0.
  intros Hr Ho Hn. destruct o as [d|d|d|h c k]; cbn [run_op op_spec].
  - destruct (insert_spec s cs d Hr Hn) as (r & s' & cs' & E & Hr' & Hd & Hs & Hk). exists r, s', cs'. done.
  - destruct (delete_spec s cs d Hr) as (s' & cs' & E & Hr' & Hd & Hs & Hk); [lia|].
    erewrite bind_ok by exact E. do 3 eexists. split_and!; [done|exact Hr'|done|rewrite Hs; done|done].
  - erewrite bind_ok by (apply retrieve_spec; exact Hr). do 3 eexists. split_and!; [done|exact Hr|done|done|intros ???; done].
  - destruct Ho as (Hc & Hh & Hh0).
    assert (Hf : finds (fun x => c x =? 0) h k) by (split_and!; [intros x; rewrite Z.eqb_eq; done|done|lia]).
    pose proof (data_at_spec s cs _ _ _ Hr Hf) as E.
    erewrite bind_ok by exact E. do 3 eexists. split_and!; [done|exact Hr|done|done|intros ???; done].
Qed.

Lemma rep_size_contents s cs : rep s cs -> num_items (lh s) = Z.of_nat (size (contents cs)).
Proof using. intros Hr. rewrite (rep_count _ _ Hr), contents_size by apply Hr. done. Qed.

Lemma op_spec_size o m r m' : op_spec o m = (r, m') -> (size m' <= S (size m))%nat.
Proof using.
  destruct o as [d|d|d|h c k]; cbn [op_spec]; [|intros [= _ <-]..]; [|rewrite map_size_delete; destruct (m !! key d); cbn; lia|lia|lia].
  destruct (m !! key d) eqn:E; [|destruct (OPENSSL_malloc_ok malloc_ok 24)]; intros [= _ <-];
    rewrite ?map_size_insert, ?E; cbn; lia.
Qed.

Lemma run_ops_spec l : forall s cs, rep s cs -> Forall op_legal l -> num_items (lh s) + zlen l < 2 ^ 56 - 1 ->
  exists rs s' cs', run_ops l s = (Some rs, s') /\ rep s' cs' /\ callback_depth (lh s') = callback_depth (lh s) /\
    ops_spec l (contents cs) = (rs, contents cs') /\ keeps_load s s'.
Proof using LhashFunctions0.
  induction l as [|o l IH]; intros s cs Hr Hl Hn; cbn [run_ops ops_spec].
  - do 3 eexists. split_and!; [done|exact Hr|done|done|intros ???; done].
  - apply Forall_cons in Hl as [Ho Hl]. rewrite zlen_cons in Hn. pose proof (zlen_nonneg l) as Hzl.
    destruct (run_op_spec s cs o Hr Ho) as (r & s1 & cs1 & E & Hr1 & Hd1 & Hs1 & Hk1); [lia|].
    erewrite bind_ok by exact E. rewrite Hs1.
    destruct (IH s1 cs1 Hr1 Hl) as (rs & s2 & cs2 & E2 & Hr2 & Hd2 & Hs2 & Hk2).
    { apply op_spec_size in Hs1. rewrite (rep_size_contents _ _ Hr) in Hn. rewrite (rep_size_contents _ _ Hr1). lia. }
    erewrite bind_ok by exact E2. rewrite Hs2. do 3 eexists. split_and!; [done|exact Hr2|congruence|done|].
    intros Hm Hd0 Hlo. apply Hk2; [done|congruence|]. apply Hk1; done.
Qed.

Lemma rep_new s : OPENSSL_lh_new malloc_ok = Some s -> rep s (replicate 16 []) /\ contents (replicate 16 []) = ∅ /\ load_ok s.
Proof using.
  unfold OPENSSL_lh_new. repeat case_match; try done. intros [= <-].
  assert (Hn : concat (replicate 16 ([] : list node)) = []) by apply concat_replicate_nil.
  split_and!; [|done|].
  - constructor; rewrite ?Hn; unfold elems; rewrite ?Hn; try done; try (cbn; apply NoDup_nil_2).
    + cbn. repeat constructor.
    + intros i l [-> _]%lookup_replicate_1. constructor.
  - split; cbn; [unfold kMinNumBuckets; lia|left; done].
Qed.

(** C6. A hash table is a finite map from keys to elements: any sequence of
    insertions, deletions and look-ups on a new table returns what the map
    returns, an insertion the element replaced and a deletion the one removed,
    across all resizes; [num_items] is the size of the map, and no item is
    leaked, lost or accessed after it was freed; [OPENSSL_lh_free] frees every
    item. While memory lasts the chains
    are shorter than 3 on average and the array is no longer than the number of
    items or 16. *)
Theorem lhash_refines_map l s : OPENSSL_lh_new malloc_ok = Some s -> Forall op_legal l -> zlen l < 2 ^ 56 - 1 ->
  exists rs s', run_ops l s = (Some rs, s') /\ rs = fst (ops_spec l ∅) /\ table s' (snd (ops_spec l ∅)) /\
    OPENSSL_lh_num_items s' = Z.of_nat (size (snd (ops_spec l ∅))) /\
    (exists s'', OPENSSL_lh_free s' = (Some (), s'') /\ items s'' = ∅) /\
    ((forall k, 0 <= k < 2 ^ 63 -> malloc_ok k = true) -> load_ok s').
Proof using LhashFunctions0.
  intros Hs Hl Hn. assert (H0 : callback_depth (lh s) = 0 /\ num_items (lh s) = 0).
  { revert Hs. unfold OPENSSL_lh_new. repeat case_match; try done. intros [= <-]. done. }
  apply rep_new in Hs as (Hr & Hc & Hlo).
  destruct (run_ops_spec l s _ Hr Hl) as (rs & s' & cs' & E & Hr' & Hd & Hs' & Hk); [lia|].
  rewrite Hc in Hs'. rewrite Hs'. exists rs, s'. cbn [fst snd]. split_and!; [done|done|exists cs'; done| |eapply free_spec; done|].
  - apply rep_size_contents. done.
  - intros Hm. apply Hk; tauto.
Qed.

(** ** Iteration

    A callback that may delete the element it is called on, as it decides from
    that element and its own argument. *)
Section doall.
Context {A : Type} (f : D -> A -> A * bool).

Definition callback (d : D) (arg : A) : M (state D) A :=
  let '(arg', del) := f d arg in
  if del then let* _ := OPENSSL_lh_delete hash comp malloc_ok d in ret arg' else ret arg'.

(** What visiting some elements in turn does to the argument and the map. *)
Definition visit (am : A * gmap K D) (d : D) : A * gmap K D :=
  let '(arg', del) := f d (fst am) in (arg', if del then delete (key d) (snd am) else snd am).

(** With equal keys there is one place in a list. *)
Lemma keys_place (p p' q q' : list node) x x' : NoDup (key <$> (p ++ x :: q).*2) -> p ++ x :: q = p' ++ x' :: q' ->
  key x.2 = key x'.2 -> p = p' /\ x = x' /\ q = q'.
Proof using.
  revert p'. induction p as [|y p IH]; intros [|y' p'] Hnd E Ek; cbn in *; injection E as E1 E2; subst.
  - done.
  - exfalso. apply NoDup_cons in Hnd as [Hn _]. apply Hn. rewrite Ek, !fmap_app. apply elem_of_app. right. cbn. apply list_elem_of_here.
  - exfalso. apply NoDup_cons in Hnd as [Hn _]. apply Hn. rewrite <- Ek, !fmap_app. apply elem_of_app. right. cbn. apply list_elem_of_here.
  - apply NoDup_cons in Hnd as [_ Hnd]. destruct (IH _ Hnd E2 Ek) as (-> & -> & ->). done.
Qed.

(** Deleting an element during an iteration only takes it out of its list. *)
Lemma delete_here s cs P l1 x d l2 B : rep s cs -> cs = P ++ (l1 ++ (x, d) :: l2) :: B -> 0 < callback_depth (lh s) ->
  num_items (lh s) < 2 ^ 56 ->
  exists s', OPENSSL_lh_delete hash comp malloc_ok d s = (Some (Some d), s') /\ rep s' (P ++ (l1 ++ l2) :: B) /\
    callback_depth (lh s') = callback_depth (lh s) /\ num_buckets (lh s') = num_buckets (lh s) /\
    num_items (lh s') = num_items (lh s) - 1 /\
    contents (P ++ (l1 ++ l2) :: B) = delete (key d) (contents cs).
Proof using LhashFunctions0.
  intros Hr Ecs Hd Hn. unfold OPENSSL_lh_delete.
  destruct (find_data s cs d Hr) as (P' & l1' & l2' & B' & E' & HP' & E & El & H2).
  assert (HP : Z.of_nat (length P) = hash d mod num_buckets (lh s)).
  { pose proof (rep_hash _ _ Hr (length P) (l1 ++ (x, d) :: l2)) as Hh. rewrite Ecs, list_lookup_middle in Hh by done.
    specialize (Hh eq_refl). rewrite Forall_app, Forall_cons in Hh. cbn in Hh. lia. }
  assert (Hl : P = P' /\ l1 ++ (x, d) :: l2 = l1' ++ l2' /\ B = B').
  { rewrite Ecs in E'. apply app_inj_1 in E' as [-> E']; [|lia]. injection E' as ? ?. done. }
  destruct Hl as (-> & Hl & ->).
  assert (Hin : contents cs !! key d = Some d).
  { apply contents_lookup; [apply Hr|]. split; [|done]. unfold elems. rewrite Ecs, concat_place, fmap_app. cbn.
    apply list_elem_of_here. }
  destruct l2' as [|[x' e] l2']; [congruence|]. destruct H2 as (Ek & Hc & nx & Hx).
  destruct (keys_place l1 l1' l2 l2' (x, d) (x', e)) as (-> & [= <- <-] & ->); [|done|done|].
  { pose proof (rep_keys _ _ Hr) as Hk. unfold elems in Hk. rewrite Ecs, concat_app, fmap_app, fmap_app in Hk.
    apply NoDup_app in Hk as (_ & _ & Hk). cbn [concat] in Hk. rewrite !fmap_app in Hk. rewrite !fmap_app.
    apply NoDup_app in Hk as (Hk & _ & _). exact Hk. }
  destruct (delete_found s cs P' l1' x d l2' B' nx Hr Ecs Hx Hn) as (s3 & cs3 & E3 & Hr3 & Hn3 & Hnb3 & Hd3 & Hc3 & ->).
  exists s3. split_and!; try done.
  erewrite bind_ok by exact E. cbn zeta. cbn [fst]. erewrite bind_ok by exact El.
  cbn [head_of head fmap option_fmap option_map fst]. cbn match.
  erewrite bind_ok by (unfold load_item; rewrite Hx; done). cbn [item_next item_data].
  assert (Ei : lh_maybe_resize malloc_ok s3 = (Some (), s3)).
  { unfold lh_maybe_resize. erewrite bind_ok by done. cbn zeta. destruct (Z.gtb_spec (callback_depth (lh s3)) 0); [done|lia]. }
  unfold bind in E3 |- *. cbn in E3 |- *. destruct (store_slot _ _ _) as [[[]|] s2]; [|done].
  injection E3 as <-. cbn in Ei. rewrite Ei. done.
Qed.

Lemma doall_chain_spec fuel : forall l2 s P l1 B a, rep s (P ++ (l1 ++ l2) :: B) -> 0 < callback_depth (lh s) ->
  num_items (lh s) < 2 ^ 56 -> (length l2 <= fuel)%nat ->
  exists s' l' a', doall_chain callback fuel (head_of l2) a s = (Some a', s') /\ rep s' (P ++ (l1 ++ l') :: B) /\
    callback_depth (lh s') = callback_depth (lh s) /\ num_buckets (lh s') = num_buckets (lh s) /\
    num_items (lh s') <= num_items (lh s) /\
    (a', contents (P ++ (l1 ++ l') :: B)) = fold_left visit l2.*2 (a, contents (P ++ (l1 ++ l2) :: B)).
Proof using LhashFunctions0.
  induction fuel as [|fuel IH]; intros l2 s P l1 B a Hr Hd Hn Hf.
  - destruct l2; [|cbn in Hf; lia]. exists s, [], a. done.
  - destruct l2 as [|[x d] l2]; [exists s, [], a; done|].
    assert (Hx : exists nx, items s !! x = Some (Item d nx (hash d)) /\ nx = head_of l2).
    { pose proof (rep_chains _ _ Hr) as Hc. apply Forall2_app_inv_r in Hc as (b1 & b2 & _ & H2 & _).
      apply Forall2_cons_inv_r in H2 as (p & b3 & Hs & _ & _). apply seg_app in Hs as (r & _ & Hs). cbn [seg] in Hs.
      destruct Hs as (_ & nx & Hx & Hs). exists nx. split; [done|]. eapply seg_head. exact Hs. }
    destruct Hx as (nx & Hx & ->). cbn [head_of head fmap option_fmap option_map fst]. cbn [doall_chain].
    erewrite bind_ok by (unfold load_item; rewrite Hx; done). cbn [item_data item_next].
    cbn [list_fmap fmap fold_left snd]. unfold visit at 2. cbn [fst snd]. unfold callback at 1.
    destruct (f d a) as [a1 del]. destruct del.
    + destruct (delete_here s _ P l1 x d l2 B Hr eq_refl Hd Hn) as (s1 & E & Hr1 & Hd1 & Hb1 & Hn1 & Hc1).
      destruct (IH l2 s1 P l1 B a1 Hr1) as (s' & l' & a' & E' & Hr' & Hd' & Hb' & Hn' & Hv); [lia|lia|cbn in Hf; lia|].
      exists s', l', a'. split_and!; [|exact Hr'|lia|lia|lia|].
      * erewrite bind_ok by (erewrite bind_ok by exact E; done). exact E'.
      * rewrite Hv, Hc1. done.
    + assert (El : l1 ++ (x, d) :: l2 = (l1 ++ [(x, d)]) ++ l2) by (rewrite <- app_assoc; done).
      rewrite El in Hr. destruct (IH l2 s P (l1 ++ [(x, d)]) B a1 Hr) as (s' & l' & a' & E' & Hr' & Hd' & Hb' & Hn' & Hv);
        [lia|lia|cbn in Hf; lia|].
      rewrite <- (app_assoc l1 _ l') in Hr', Hv. cbn [app] in Hr', Hv.
      exists s', ((x, d) :: l'), a'. split_and!; [|exact Hr'|lia|lia|lia|].
      * erewrite bind_ok by done. exact E'.
      * rewrite Hv, <- app_assoc. done.
Qed.

Lemma doall_buckets_spec fuel : forall todo s P a, rep s (P ++ todo) -> 0 < callback_depth (lh s) ->
  num_items (lh s) < 2 ^ 56 -> (length todo <= fuel)%nat ->
  exists s' cs' a', doall_buckets callback fuel (Z.of_nat (length P)) a s = (Some a', s') /\ rep s' cs' /\
    callback_depth (lh s') = callback_depth (lh s) /\ num_items (lh s') <= num_items (lh s) /\
    (a', contents cs') = fold_left visit (concat todo).*2 (a, contents (P ++ todo)).
Proof using LhashFunctions0.
  induction fuel as [|fuel IH]; intros todo s P a Hr Hd Hn Hf; pose proof (rep_len _ _ Hr) as Hlen;
    rewrite length_app in Hlen; cbn [doall_buckets]; erewrite bind_ok by done.
  - destruct todo; [|cbn in Hf; lia]. cbn in Hlen. destruct (Z.ltb_spec (Z.of_nat (length P)) (num_buckets (lh s))); [lia|].
    do 3 eexists. split_and!; [done|exact Hr|done|lia|]. done.
  - destruct todo as [|l todo].
    { cbn in Hlen. destruct (Z.ltb_spec (Z.of_nat (length P)) (num_buckets (lh s))); [lia|].
      do 3 eexists. split_and!; [done|exact Hr|done|lia|]. done. }
    cbn in Hlen. destruct (Z.ltb_spec (Z.of_nat (length P)) (num_buckets (lh s))); [|lia].
    erewrite bind_ok by (apply (load_slot_of hash s P [] l todo); apply Hr).
    destruct (doall_chain_spec (size (items s)) l s P [] todo a Hr Hd Hn) as (s1 & l' & a1 & E & Hr1 & Hd1 & Hb1 & Hn1 & Hv1).
    { rewrite (rep_size _ _ Hr). pose proof (concat_split_length P todo l). lia. }
    cbn [app] in Hr1, Hv1. erewrite bind_ok by exact E.
    destruct (IH todo s1 (P ++ [l']) a1) as (s2 & cs2 & a2 & E2 & Hr2 & Hd2 & Hn2 & Hv2).
    { rewrite <- app_assoc. exact Hr1. } { lia. } { lia. } { cbn in Hf. lia. }
    rewrite length_app in E2. cbn [length] in E2. replace (Z.of_nat (length P + 1)) with (Z.of_nat (length P) + 1) in E2 by lia.
    exists s2, cs2, a2. split_and!; [exact E2|exact Hr2|lia|lia|].
    rewrite Hv2. cbn [concat]. rewrite fmap_app, fold_left_app, <- Hv1, <- app_assoc. done.
Qed.


(** C39. [OPENSSL_lh_doall_arg] calls its callback exactly once for each element, in
    some order, also when the callback deletes the element it is called on: the
    argument and the table end up as if the elements had been visited in that
    order, no freed item is read, and the nesting depth of iterations is back
    where it was unless the counter has saturated. *)
Theorem doall_visits_each s m a : table s m -> num_items (lh s) < 2 ^ 56 ->
  exists ds s' a' m', ds ≡ₚ (map_to_list m).*2 /\ (a', m') = fold_left visit ds (a, m) /\
    OPENSSL_lh_doall_arg malloc_ok callback a s = (Some a', s') /\ table s' m' /\
    callback_depth (lh s') = (if callback_depth (lh s) <? UINT_MAX - 1 then callback_depth (lh s) else UINT_MAX).
Proof using LhashFunctions0.
  intros (cs & Hr & <-) Hn. pose proof (rep_depth _ _ Hr) as Hd. exists (elems cs).
  unfold OPENSSL_lh_doall_arg. erewrite bind_ok by done.
  set (d1 := if callback_depth (lh s) <? UINT_MAX then callback_depth (lh s) + 1 else callback_depth (lh s)).
  set (s1 := set_lh (set_depth d1 (lh s)) s).
  assert (E1 : (if callback_depth (lh s) <? UINT_MAX
                then putst (set_lh (set_depth (callback_depth (lh s) + 1) (lh s)) s) else ret ()) s = (Some (), s1)).
  { unfold s1, d1. destruct (callback_depth (lh s) <? UINT_MAX); [done|]. destruct s as [[] ?]. done. }
  erewrite bind_ok by exact E1.
  assert (Hd1 : 0 < d1 <= UINT_MAX) by (unfold d1; destruct (Z.ltb_spec (callback_depth (lh s)) UINT_MAX); unfold UINT_MAX in *; lia).
  assert (Hr1 : rep s1 cs) by (destruct Hr; constructor; try done; cbn; lia).
  destruct (doall_buckets_spec (Z.to_nat (num_buckets (lh s))) cs s1 [] a Hr1) as (s2 & cs2 & a2 & E2 & Hr2 & Hd2 & Hn2 & Hv).
  { cbn. lia. } { done. } { pose proof (rep_len _ _ Hr). lia. }
  cbn [length app] in E2, Hv. erewrite bind_ok by exact E2. erewrite bind_ok by done. cbn in Hd2, Hn2.
  set (d3 := if callback_depth (lh s2) <? UINT_MAX then callback_depth (lh s2) - 1 else callback_depth (lh s2)).
  set (s3 := set_lh (set_depth d3 (lh s2)) s2).
  assert (E3 : (if callback_depth (lh s2) <? UINT_MAX
                then putst (set_lh (set_depth (callback_depth (lh s2) - 1) (lh s2)) s2) else ret ()) s2 = (Some (), s3)).
  { unfold s3, d3. destruct (callback_depth (lh s2) <? UINT_MAX); [done|]. destruct s2 as [[] ?]. done. }
  erewrite bind_ok by exact E3.
  assert (Hd3 : d3 = if callback_depth (lh s) <? UINT_MAX - 1 then callback_depth (lh s) else UINT_MAX).
  { unfold d3. rewrite Hd2. unfold d1. decide_cmp; lia. }
  assert (Hr3 : rep s3 cs2).
  { destruct Hr2; constructor; try done. cbn. rewrite Hd3. decide_cmp; unfold UINT_MAX in *; lia. }
  destruct (lh_maybe_resize_spec s3 cs2 Hr3) as (s4 & E4 & (cs4 & Hr4 & Hp4 & Hd4) & _); [cbn; lia|].
  erewrite bind_ok by exact E4.
  exists s4, a2, (contents cs2). split_and!; [|exact Hv|done| |].
  - unfold contents. rewrite map_to_list_to_map; [|rewrite <- list_fmap_compose; apply Hr].
    rewrite <- list_fmap_compose. unfold compose. cbn. rewrite list_fmap_id. done.
  - exists cs4. split; [done|]. apply contents_perm; [apply Hr3|done].
  - rewrite Hd4. exact Hd3.
Qed.
End doall.
End table.


(** *** A table of numbers, equal modulo 100 *)

#[export] Instance mod_functions : LhashFunctions (fun x => x mod 7) (fun x y => x - y) (fun x : Z => x).
Proof.
  split; [lia|intros x y ->; done|]. intros x. pose proof (Z.mod_pos_bound x 7). lia.
Qed.

Lemma lhash_refines_map_witness :
  let l := [Insert 5; Insert 12; Insert 5; Delete 12; Retrieve 12; RetrieveKey 5 (fun x => x - 5) 5] in
  exists s rs s', OPENSSL_lh_new (fun _ => true) = Some s /\
    run_ops (fun x => x mod 7) (fun x y => x - y) (fun _ => true) l s = (Some rs, s') /\
    rs = [(1, None); (1, None); (1, Some 5); (1, Some 12); (1, None); (1, Some 5)] /\ num_items (lh s') = 1.
Proof.
  cbn zeta. set (l := [Insert 5; _; _; _; _; _]).
  assert (Hl : Forall (op_legal (fun x => x mod 7) (fun x : Z => x)) l).
  { repeat constructor; try lia. intros x ->. done. }
  destruct (OPENSSL_lh_new (fun _ => true)) as [s|] eqn:Es; [|done].
  destruct (lhash_refines_map (fun x => x mod 7) (fun x y => x - y) (fun _ => true) (fun x : Z => x) l s Es Hl ltac:(vm_compute; done))
    as (rs & s' & E & -> & _ & Hn & _ & _).
  exists s, (fst (ops_spec (fun _ => true) (fun x : Z => x) l ∅)), s'. split_and!; [done|exact E|vm_compute; done|].
  unfold OPENSSL_lh_num_items in Hn. rewrite Hn. vm_compute. done.
Defined.

Lemma doall_visits_each_witness :
  let h (x : Z) := x mod 7 in let c (x y : Z) := x - y in let mem (_ : Z) := true in
  let f (d a : Z) := (a + d, d =? 12) in
  let m := <[6 := 6]> (<[12 := 12]> (<[5 := 5]> (∅ : gmap Z Z))) in
  exists s, table h id s m /\ exists ds s' a' m', ds ≡ₚ (map_to_list m).*2 /\
    (a', m') = fold_left (visit id f) ds (0, m) /\
    OPENSSL_lh_doall_arg mem (callback h c mem f) 0 s = (Some a', s') /\ table h id s' m' /\
    callback_depth (lh s') = 0.
Proof.
  cbn zeta. set (ops := [Insert 5; Insert 12; Insert 6] : list (op (D := Z) (K := Z))).
  destruct (OPENSSL_lh_new (D := Z) (fun _ => true)) as [s0|] eqn:Es; [|done].
  destruct (rep_new (fun x : Z => x mod 7) (fun _ => true) (fun x : Z => x) s0 Es) as (Hr0 & Hc0 & _).
  assert (Hs0 : num_items (lh s0) = 0 /\ callback_depth (lh s0) = 0) by (injection Es as <-; done).
  destruct (run_ops_spec (fun x => x mod 7) (fun x y => x - y) (fun _ => true) (fun x : Z => x) ops s0 _ Hr0)
    as (rs & s & cs & _ & Hr & Hd & Hs & _); [repeat constructor|rewrite (proj1 Hs0); vm_compute; done|].
  rewrite Hc0 in Hs. cbn in Hs. injection Hs as _ Hm.
  assert (Ht : table (fun x => x mod 7) id s (<[6 := 6]> (<[12 := 12]> (<[5 := 5]> ∅)))) by (exists cs; done).
  exists s. split; [exact Ht|].
  assert (Hn : num_items (lh s) < 2 ^ 56).
  { rewrite (rep_size_contents _ _ _ _ Hr), <- Hm. vm_compute. done. }
  destruct (doall_visits_each (fun x => x mod 7) (fun x y => x - y) (fun _ => true) id (fun d a : Z => (a + d, d =? 12)) s _ 0 Ht Hn)
    as (ds & s' & a' & m' & H1 & H2 & H3 & H4 & H5).
  exists ds, s', a', m'. split_and!; try done. rewrite H5, Hd, (proj2 Hs0). done.
Defined.
