(* ===== verification/Collector.v ===== *)
(** * Merkle–Damgård collectors.

    A digest buffers its input until it has a block for its block function.
    [md_hash] is the hash that results: the blocks of the padded message, taken
    in turn. The lemmas follow what the code of a collector does to the state,
    the buffer and its fill: complete blocks of the input, filling a partial
    block, storing a short input, and the padding; they serve the 32-bit
    collector (Md32.v) and SHA-512. *)

From S2P Require Import Prelude Blocks.

Definition zeros (n : Z) : list Z := replicate (Z.to_nat n) 0.

Lemma zlen_zeros n : 0 <= n -> zlen (zeros n) = n.
Proof. intros. unfold zeros. rewrite zlen_replicate. lia. Qed.
Lemma zeros_bytes n : bytes_ok (zeros n).
Proof. apply Forall_replicate. unfold is_byte. lia. Qed.
Lemma zeros_add n m : 0 <= n -> 0 <= m -> zeros (n + m) = zeros n ++ zeros m.
Proof. intros. unfold zeros. rewrite Z2Nat.inj_add, replicate_add by lia. done. Qed.
Lemma fold_left_cons {A B} (f : A -> B -> A) a x l : fold_left f (x :: l) a = fold_left f l (f a x).
Proof. done. Qed.

(** A loop over [n] blocks, given by its equations. *)
Lemma blocks_fold bs (compress block : list Z -> list Z -> list Z) (loop : nat -> list Z -> list Z -> list Z) n :
  0 < bs -> (forall s d, loop O s d = s) -> (forall k s d, loop (S k) s d = loop k (block s d) (zdrop bs d)) ->
  (forall s d, bytes_ok d -> bs <= zlen d -> block s d = compress s (ztake bs d)) ->
  forall s d, bytes_ok d -> Z.of_nat n * bs <= zlen d ->
  loop n s d = fold_left compress (chunks bs (ztake (Z.of_nat n * bs) d)) s.
Proof.
  intros Hbs H0 HS Hb. induction n as [|n IH]; intros s d Hd Hl.
  - rewrite H0, Z.mul_0_l, ztake_0, chunks_short by (rewrite ?zlen_nil; lia). done.
  - rewrite HS, IH, Hb by (done || (apply Forall_zdrop; done) || (rewrite ?zlen_zdrop; lia)).
    replace (ztake (Z.of_nat (S n) * bs) d) with (ztake bs d ++ ztake (Z.of_nat n * bs) (zdrop bs d)).
    + rewrite chunks_block by (rewrite ?zlen_ztake; lia). rewrite fold_left_cons. reflexivity.
    + rewrite <- (ztake_zdrop bs d) at 3. rewrite ztake_app_ge by (rewrite zlen_ztake; lia).
      rewrite zlen_ztake. do 2 f_equal. lia.
Qed.

Section collector.
(** The sizes of a block and of the length field, the block function of the
    code on [n] blocks, and the compression function of the standard. *)
Context (block_size len_size : Z).
Context (block_func : list Z -> list Z -> Z -> list Z) (transform : list Z -> list Z -> list Z).

(** 0x80, zeros, and the number of bits, to whole blocks. *)
Definition md_padding (is_big_endian : bool) (len : Z) : list Z :=
  [0x80] ++ zeros ((- (len + 1 + len_size)) mod block_size) ++
  (if is_big_endian then be_bytes (Z.to_nat len_size) (8 * len) else le_bytes (Z.to_nat len_size) (8 * len)).
Definition md_hash (is_big_endian : bool) (h0 m : list Z) : list Z :=
  fold_left transform (chunks block_size (m ++ md_padding is_big_endian (zlen m))) h0.

(** The block function of the code takes the blocks in turn. *)
Class BlockFunc : Prop := {
  block_size_ok : 0 < len_size < block_size /\ block_size < 2 ^ 31;
  block_func_chunks h data n : bytes_ok data -> 0 < n -> n * block_size <= zlen data ->
    block_func h data n = fold_left transform (chunks block_size (ztake (n * block_size) data)) h
}.
Context {HB : BlockFunc}.
Local Notation bs := block_size.

Lemma chunks_one (b : list Z) : zlen b = bs -> chunks bs b = [b].
Proof using HB.
  intros Hl. pose proof block_size_ok as Hb. rewrite <- (app_nil_r b) at 1.
  rewrite chunks_block, chunks_short by (rewrite ?zlen_nil; lia). done.
Qed.

Lemma block_func_one h data : bytes_ok data -> zlen data = bs -> block_func h data 1 = transform h data.
Proof using HB.
  intros Hby Hl. pose proof block_size_ok as Hb. rewrite block_func_chunks by (done || lia).
  rewrite Z.mul_1_l, ztake_all, chunks_one by lia. done.
Qed.

(** The state [h], the buffer and its fill after the message [m]. *)
Record collected (h0 m h data : list Z) (num : Z) : Prop := {
  cl_bytes : bytes_ok m;
  cl_h : h = fold_left transform (chunks bs m) h0;
  cl_num : num = zlen (leftover bs m);
  cl_data : ztake num data = leftover bs m;
  cl_len : zlen data = bs
}.

Lemma collected_range h0 m h data num : collected h0 m h data num -> 0 <= num < bs.
Proof using HB. pose proof block_size_ok as Hb. intros [_ _ -> _ _]. apply zlen_leftover. lia. Qed.

Lemma collected_init h0 data : zlen data = bs -> collected h0 [] h0 data 0.
Proof using HB.
  intros Hd. pose proof block_size_ok as Hb.
  assert (zlen (@nil Z) < bs) by (rewrite zlen_nil; lia).
  constructor; rewrite ?chunks_short, ?leftover_short by (done || lia); try done.
Qed.

(** Complete blocks of the input, at a block boundary. *)
Lemma collect_blocks h0 m h data inp : bytes_ok inp -> collected h0 m h data 0 ->
  let n := zlen inp / bs in
  let rest := zdrop (n * bs) inp in
  0 <= n /\ zlen rest = zlen inp - n * bs /\ zlen rest = zlen inp mod bs /\
  collected h0 (m ++ inp) (if n >? 0 then block_func h inp n else h) (zwrite 0 rest data) (zlen rest).
Proof using HB.
  intros Hi [Hm Hh Hn Hd Hl] n rest. pose proof block_size_ok as Hb. pose proof (zlen_nonneg inp) as Hi0.
  assert (Hq : 0 <= n) by (apply Z.div_pos; lia).
  assert (Hr : rest = leftover bs inp) by (unfold rest, leftover, n; rewrite Z.mul_comm; done).
  pose proof (zlen_leftover_mod bs ltac:(lia) inp) as Hlm. rewrite Z.mod_eq in Hlm by lia. rewrite Hr.
  assert (Hlo : leftover bs m = []) by (apply zlen_zero; lia).
  pose proof (zlen_leftover bs ltac:(lia) inp) as Hlr.
  split_and!; [done|lia|apply zlen_leftover_mod; lia|].
  assert (Hc : (if n >? 0 then block_func h inp n else h) = fold_left transform (chunks bs inp) h).
  { destruct (Z.gtb_spec n 0) as [H0|H0].
    - rewrite block_func_chunks by (done || lia). unfold n. rewrite (Z.mul_comm _ bs), chunks_aligned by lia. done.
    - assert (En : n = 0) by lia. unfold n in En. rewrite En in Hlm.
      rewrite chunks_short by lia. done. }
  rewrite Hc. constructor.
  - apply Forall_app. done.
  - rewrite chunks_app, Hlo, fold_left_app, <- Hh by lia. done.
  - rewrite leftover_app, Hlo by lia. done.
  - rewrite leftover_app, Hlo by lia. unfold zwrite. rewrite ztake_0. cbn [app]. apply ztake_app. done.
  - rewrite zlen_zwrite; lia.
Qed.

(** Filling the partial block, which is then processed. *)
Lemma collect_fill h0 m h data num inp : bytes_ok inp -> collected h0 m h data num -> bs - num <= zlen inp ->
  forall data', zlen data' = bs ->
  collected h0 (m ++ ztake (bs - num) inp) (block_func h (zwrite num (ztake (bs - num) inp) data) 1) data' 0.
Proof using HB.
  intros Hi Hc Hl data' Hd'. pose proof block_size_ok as Hb. pose proof (collected_range _ _ _ _ _ Hc) as Hn.
  destruct Hc as [Hm Hh Hnum Hdata Hlen]. set (lo := leftover bs m) in *. set (x := ztake (bs - num) inp).
  assert (Hx : zlen x = bs - num) by (unfold x; rewrite zlen_ztake; lia).
  assert (Ew : zwrite num x data = lo ++ x).
  { rewrite (zwrite_after num lo) by done. rewrite zdrop_all, app_nil_r by lia. done. }
  assert (Hbx : bytes_ok (lo ++ x)) by (apply Forall_app; split; [apply Forall_zdrop|apply Forall_ztake]; done).
  assert (Hlx : zlen (lo ++ x) = bs) by (rewrite zlen_app; lia).
  rewrite Ew, block_func_one by done.
  assert (E0 : leftover bs (m ++ x) = []).
  { rewrite leftover_app by lia. fold lo. rewrite <- (app_nil_r (lo ++ x)), leftover_block, leftover_short; (done || rewrite ?zlen_nil; lia). }
  constructor; rewrite ?E0; try done.
  - apply Forall_app. split; [done|apply Forall_ztake; done].
  - rewrite chunks_app, fold_left_app by lia. fold lo. rewrite chunks_one, <- Hh by done. done.
Qed.

(** An input that leaves the block partial. *)
Lemma collect_short h0 m h data num inp : bytes_ok inp -> collected h0 m h data num -> num + zlen inp < bs ->
  collected h0 (m ++ inp) h (zwrite num inp data) (num + zlen inp).
Proof using HB.
  intros Hi Hc Hl. pose proof block_size_ok as Hb. pose proof (collected_range _ _ _ _ _ Hc) as Hn.
  destruct Hc as [Hm Hh Hnum Hdata Hlen]. set (lo := leftover bs m) in *.
  assert (Hlx : zlen (lo ++ inp) < bs) by (rewrite zlen_app; lia).
  assert (E0 : leftover bs (m ++ inp) = lo ++ inp) by (rewrite leftover_app by lia; fold lo; apply leftover_short; done || lia).
  constructor; rewrite ?E0.
  - apply Forall_app. done.
  - rewrite chunks_app, (chunks_short bs ltac:(lia) (leftover bs m ++ inp)), app_nil_r by (done || lia). done.
  - rewrite zlen_app. lia.
  - rewrite (zwrite_after num lo) by done. rewrite app_assoc. apply ztake_app. rewrite zlen_app. lia.
  - rewrite zlen_zwrite; lia.
Qed.

(** How many zeros the padding has, for a partial block of [k] bytes. *)
Lemma padding_zeros n k : k = n mod bs -> 0 <= k < bs ->
  (- (n + 1 + len_size)) mod bs =
  (if k + 1 >? bs - len_size then bs - (k + 1) + (bs - len_size) else bs - len_size - (k + 1)).
Proof using HB.
  intros Hk Hk0. pose proof block_size_ok as Hb. pose proof (Z.div_mod n bs ltac:(lia)) as Hdiv.
  destruct (Z.gtb_spec (k + 1) (bs - len_size)); symmetry;
    [apply (Z.mod_unique _ _ (- (n / bs) - 2))|apply (Z.mod_unique _ _ (- (n / bs) - 1))]; nia.
Qed.

(** The padding: [data1] has the byte 0x80, and when there is no room for the
    length its rest is cleared and it is processed; then come zeros and the
    length, which a function [store] writes at the end of the block. *)
Definition md_finish (store : list Z -> list Z) (h data : list Z) (num : Z) : list Z :=
  let data := zwrite num [0x80] data in
  let n := num + 1 in
  let '(h, data, n) :=
    if n >? bs - len_size then
      let data := zwrite n (zeros (bs - n)) data in
      (block_func h data 1, data, 0)
    else (h, data, n) in
  let data := zwrite n (zeros (bs - len_size - n)) data in
  block_func h (store data) 1.

(** The last block: [p], zeros and the length. *)
Lemma last_block store L h p data : bytes_ok L -> zlen L = len_size ->
  (forall q data, zlen q = bs - len_size -> ztake (bs - len_size) data = q -> zlen data = bs -> store data = q ++ L) ->
  bytes_ok p -> zlen p <= bs - len_size -> ztake (zlen p) data = p -> zlen data = bs ->
  block_func h (store (zwrite (zlen p) (zeros (bs - len_size - zlen p)) data)) 1 =
  fold_left transform (chunks bs (p ++ zeros (bs - len_size - zlen p) ++ L)) h.
Proof using HB.
  intros HbL HL Hst Hb Hp Hd Hl. pose proof block_size_ok as Hbs. pose proof (zlen_nonneg p) as Hp0.
  assert (Hz : zlen (zeros (bs - len_size - zlen p)) = bs - len_size - zlen p) by (apply zlen_zeros; lia).
  rewrite (Hst (p ++ zeros (bs - len_size - zlen p))).
  - rewrite <- app_assoc, chunks_one, block_func_one; [done| | |].
    + repeat (apply Forall_app; split); [done|apply zeros_bytes|done].
    + rewrite !zlen_app, Hz. lia.
    + rewrite !zlen_app, Hz. lia.
  - rewrite zlen_app, Hz. lia.
  - rewrite (zwrite_after (zlen p) p) by done. rewrite app_assoc. apply ztake_app. rewrite zlen_app, Hz. lia.
  - rewrite zlen_zwrite; rewrite ?Hz; lia.
Qed.

Lemma collect_finish (be : bool) store h0 m h data num :
  let L := if be then be_bytes (Z.to_nat len_size) (8 * zlen m) else le_bytes (Z.to_nat len_size) (8 * zlen m) in
  (forall q data, zlen q = bs - len_size -> ztake (bs - len_size) data = q -> zlen data = bs -> store data = q ++ L) ->
  collected h0 m h data num -> md_finish store h data num = md_hash be h0 m.
Proof using HB.
  intros L Hst Hc. pose proof block_size_ok as Hb. pose proof (collected_range _ _ _ _ _ Hc) as Hn.
  destruct Hc as [Hby Hh Hnum Hdata Hlen]. unfold md_hash, md_finish, md_padding. cbn zeta. fold L.
  assert (HbL : bytes_ok L) by (unfold L; destruct be; auto with bytes).
  assert (HL : zlen L = len_size) by (unfold L; destruct be; rewrite ?zlen_be_bytes, ?zlen_le_bytes; lia).
  rewrite (padding_zeros (zlen m) num) by (rewrite ?Hnum; apply zlen_leftover_mod || lia; lia).
  rewrite (chunks_app bs) by lia. rewrite fold_left_app, <- Hh.
  set (lo := leftover bs m) in *.
  assert (Hblo : bytes_ok (lo ++ [128])) by (apply Forall_app; split; [apply Forall_zdrop; done|apply Forall_singleton; unfold is_byte; lia]).
  assert (Hlo1 : zlen (lo ++ [128]) = num + 1) by (rewrite zlen_app, <- Hnum; done).
  set (data1 := zwrite num [128] data).
  assert (E1 : data1 = (lo ++ [128]) ++ zdrop (num + 1) data).
  { unfold data1. rewrite (zwrite_after num lo) by done. rewrite <- app_assoc. done. }
  assert (Hl1 : zlen data1 = bs) by (rewrite E1, zlen_app, zlen_zdrop; lia).
  assert (T1 : ztake (num + 1) data1 = lo ++ [128]) by (rewrite E1; apply ztake_app; done).
  destruct (Z.gtb_spec (num + 1) (bs - len_size)) as [Hg|Hg].
  - rewrite zeros_add by lia. set (z := zeros (bs - (num + 1))).
    assert (Hz : zlen z = bs - (num + 1)) by (apply zlen_zeros; lia).
    assert (E2 : zwrite (num + 1) z data1 = (lo ++ [128]) ++ z).
    { rewrite (zwrite_after (num + 1) (lo ++ [128])) by done. rewrite zdrop_all, app_nil_r by lia. done. }
    assert (Hl2 : zlen ((lo ++ [128]) ++ z) = bs) by (rewrite zlen_app; lia).
    rewrite E2. pose proof (last_block store L (block_func h ((lo ++ [128]) ++ z) 1) [] ((lo ++ [128]) ++ z) HbL HL Hst) as Hlast.
    rewrite zlen_nil, ztake_0 in Hlast. rewrite Hlast by (done || lia). rewrite Z.sub_0_r. cbn [app].
    replace (lo ++ 128 :: (z ++ zeros (bs - len_size)) ++ L) with (((lo ++ [128]) ++ z) ++ zeros (bs - len_size) ++ L)
      by (rewrite <- !app_assoc; done).
    rewrite (chunks_block bs ltac:(lia) ((lo ++ [128]) ++ z)), fold_left_cons by done.
    rewrite block_func_one by (done || (apply Forall_app; split; [done|apply zeros_bytes])). done.
  - rewrite <- Hlo1. rewrite (last_block store L) by (rewrite ?Hlo1; done || lia). rewrite <- app_assoc. done.
Qed.
End collector.
