(* ===== verification/Md32.v ===== *)
(** * The 32-bit digest collector (fipsmodule/digest/md32_common.h).

    [crypto_md32_update] and [crypto_md32_final] cut the input into blocks for
    the block function of a digest. Whatever the sizes of the pieces, the state
    after [crypto_md32_final] is that of the padded message. *)

From S2P Require Import Prelude Blocks Mem Collector.

(** The fields of a digest context that the collector works on: the digest
    state [h], the bit counters, the partial block and its length. *)
Record md32 := Md32 { md_h : list Z; md_Nl : Z; md_Nh : Z; md_data : list Z; md_num : Z }.

Section md32.
Context (block_size : Z).
(** [block_func h data n] is the state after [n] blocks of [data]. *)
Context (block_func : list Z -> list Z -> Z -> list Z).

(** The two bit counters after [len] more bytes. *)
Definition md32_count (Nl Nh len : Z) : Z * Z :=
  let l := u32 (Nl + u32 (Z.shiftl (u32 len) 3)) in
  let Nh := if l <? Nl then u32 (Nh + 1) else Nh in
  (l, u32 (Nh + u32 (Z.shiftr len 29))).

(** What is left to do once there is no partial block. *)
Definition md32_blocks (h : list Z) (Nl Nh : Z) (data : list Z) (num : Z) (inp : list Z) : md32 :=
  let len := zlen inp in
  let n := len / block_size in
  let '(h, inp, len) :=
    if n >? 0 then (block_func h inp n, zdrop (n * block_size) inp, len - n * block_size) else (h, inp, len) in
  if negb (len =? 0) then Md32 h Nl Nh (zwrite 0 inp data) len else Md32 h Nl Nh data num.

Definition crypto_md32_update (c : md32) (inp : list Z) : md32 :=
  let len := zlen inp in
  if len =? 0 then c
  else
    let '(Nl, Nh) := md32_count (md_Nl c) (md_Nh c) len in
    let n := md_num c in
    if negb (n =? 0) then
      if (len >=? block_size) || (size_t (len + n) >=? block_size) then
        let data := zwrite n (ztake (block_size - n) inp) (md_data c) in
        let h := block_func (md_h c) data 1 in
        md32_blocks h Nl Nh (zeros block_size) 0 (zdrop (block_size - n) inp)
      else Md32 (md_h c) Nl Nh (zwrite n inp (md_data c)) (u32 (n + len))
    else md32_blocks (md_h c) Nl Nh (md_data c) n inp.

Definition crypto_md32_final (is_big_endian : bool) (c : md32) : md32 :=
  let n := md_num c in
  let data := zwrite n [0x80] (md_data c) in
  let n := n + 1 in
  let '(h, data, n) :=
    if n >? block_size - 8 then
      let data := zwrite n (zeros (block_size - n)) data in
      (block_func (md_h c) data 1, data, 0)
    else (md_h c, data, n) in
  let data := zwrite n (zeros (block_size - 8 - n)) data in
  let data :=
    if is_big_endian then
      zwrite (block_size - 4) (CRYPTO_store_u32_be (md_Nl c)) (zwrite (block_size - 8) (CRYPTO_store_u32_be (md_Nh c)) data)
    else
      zwrite (block_size - 4) (CRYPTO_store_u32_le (md_Nh c)) (zwrite (block_size - 8) (CRYPTO_store_u32_le (md_Nl c)) data) in
  Md32 (block_func h data 1) (md_Nl c) (md_Nh c) (zeros block_size) 0.

Context (transform : list Z -> list Z -> list Z) {HB : BlockFunc block_size 8 block_func transform}.

(** The state of the collector after the message [m]. *)
Record md32_rep (h0 m : list Z) (c : md32) : Prop := {
  mr_collected : collected block_size transform h0 m (md_h c) (md_data c) (md_num c);
  mr_Nl : md_Nl c = u32 (8 * zlen m);
  mr_Nh : md_Nh c = u32 (8 * zlen m / 2 ^ 32)
}.

Lemma md32_count_spec a len : 0 <= a -> 0 <= len ->
  md32_count (u32 (8 * a)) (u32 (8 * a / 2 ^ 32)) len = (u32 (8 * (a + len)), u32 (8 * (a + len) / 2 ^ 32)).
Proof using.
  intros Ha Hlen. unfold md32_count. rewrite Z.shiftl_mul_pow2, Z.shiftr_div_pow2 by lia. change (2 ^ 3) with 8.
  change (2 ^ 29) with 536870912. change (2 ^ 32) with 4294967296. unfold u32. change (2 ^ 32) with 4294967296.
  assert (El : (len mod 4294967296 * 8) mod 4294967296 = (8 * len) mod 4294967296) by zarith.
  rewrite El. set (x := 8 * a). set (y := 8 * len). replace (8 * (a + len)) with (x + y) by lia.
  replace (len / 536870912) with (y / 4294967296) by (unfold y; zarith).
  assert (Hs : (x mod 4294967296 + y mod 4294967296) mod 4294967296 = (x + y) mod 4294967296) by (rewrite <- Zplus_mod; done).
  rewrite Hs. f_equal. destruct (Z.ltb_spec ((x + y) mod 4294967296) (x mod 4294967296)); zarith.
Qed.

(** From a block boundary. *)
Lemma md32_blocks_rep h0 m h Nl Nh data inp : bytes_ok inp -> collected block_size transform h0 m h data 0 ->
  let c := md32_blocks h Nl Nh data 0 inp in
  collected block_size transform h0 (m ++ inp) (md_h c) (md_data c) (md_num c) /\ md_Nl c = Nl /\ md_Nh c = Nh.
Proof using HB.
  intros Hi Hc. pose proof (block_size_ok block_size 8 block_func transform) as Hb. unfold md32_blocks. cbn zeta.
  destruct (collect_blocks block_size 8 block_func transform h0 m h data inp Hi Hc) as (Hq & Hr & _ & Hcol).
  set (n := zlen inp / block_size) in *.
  assert (E : (if n >? 0 then (block_func h inp n, zdrop (n * block_size) inp, zlen inp - n * block_size) else (h, inp, zlen inp)) =
    (if n >? 0 then block_func h inp n else h, zdrop (n * block_size) inp, zlen inp - n * block_size)).
  { destruct (Z.gtb_spec n 0); [done|]. assert (n = 0) as -> by lia. rewrite Z.mul_0_l, zdrop_0, Z.sub_0_r. done. }
  rewrite E. rewrite Hr in Hcol. destruct (Z.eqb_spec (zlen inp - n * block_size) 0) as [Hz|Hz]; cbn [negb md_h md_data md_num md_Nl md_Nh].
  - rewrite Hz in Hcol. assert (Hr0 : zdrop (n * block_size) inp = []) by (apply zlen_zero; lia). rewrite Hr0 in Hcol.
    change (zwrite 0 [] data) with data in Hcol. done.
  - done.
Qed.

(** An update adds to the message, in one piece or in several. *)
Lemma md32_update_rep h0 m c inp : bytes_ok inp -> md32_rep h0 m c -> md32_rep h0 (m ++ inp) (crypto_md32_update c inp).
Proof using HB.
  intros Hbi [Hc HNl HNh]. pose proof (block_size_ok block_size 8 block_func transform) as Hb. unfold crypto_md32_update.
  pose proof (zlen_nonneg inp) as Hi. pose proof (zlen_nonneg m) as Hm0.
  pose proof (collected_range block_size 8 block_func transform _ _ _ _ _ Hc) as Hn.
  destruct (Z.eqb_spec (zlen inp) 0) as [Hz|Hz]; [apply zlen_zero in Hz as ->; rewrite app_nil_r; done|].
  rewrite HNl, HNh, md32_count_spec, <- zlen_app by lia.
  destruct (Z.eqb_spec (md_num c) 0) as [Hn0|Hn0]; cbn [negb].
  - rewrite Hn0 in *. destruct (md32_blocks_rep h0 m (md_h c) (u32 (8 * zlen (m ++ inp))) (u32 (8 * zlen (m ++ inp) / 2 ^ 32))
      (md_data c) inp Hbi Hc) as (H1 & H2 & H3). constructor; done.
  - destruct ((zlen inp >=? block_size) || (size_t (zlen inp + md_num c) >=? block_size)) eqn:Ef.
    + assert (Hfill : block_size - md_num c <= zlen inp).
      { apply orb_true_iff in Ef as [Ef|Ef]; rewrite Z.geb_le in Ef; [lia|]. unfold size_t, u64 in Ef.
        pose proof (Z.mod_le (zlen inp + md_num c) (2 ^ 64)). lia. }
      pose proof (collect_fill block_size 8 block_func transform h0 m _ _ _ inp Hbi Hc Hfill (zeros block_size)
        ltac:(apply zlen_zeros; lia)) as Hc2.
      destruct (md32_blocks_rep h0 _ _ (u32 (8 * zlen (m ++ inp))) (u32 (8 * zlen (m ++ inp) / 2 ^ 32)) (zeros block_size)
        (zdrop (block_size - md_num c) inp) ltac:(apply Forall_zdrop; done) Hc2) as (H1 & H2 & H3).
      rewrite <- app_assoc, ztake_zdrop in H1. constructor; done.
    + apply orb_false_iff in Ef as [Ef1 Ef2]. rewrite Z.geb_leb, Z.leb_gt in Ef1, Ef2. rewrite size_t_small in Ef2 by lia.
      rewrite (u32_small (md_num c + zlen inp)) by lia. constructor; [|done..]. cbn [md_h md_data md_num].
      apply (collect_short block_size 8 block_func transform); done || lia.
Qed.

Lemma md32_updates_rep h0 pieces : bytes_ok (concat pieces) -> forall m c, md32_rep h0 m c ->
  md32_rep h0 (m ++ concat pieces) (fold_left crypto_md32_update pieces c).
Proof using HB.
  induction pieces as [|p pieces IH]; intros Hp m c Hr; cbn [concat fold_left] in *; [rewrite app_nil_r; done|].
  apply Forall_app in Hp as [Hp Hps]. rewrite app_assoc. apply IH, md32_update_rep; done.
Qed.

Lemma md32_init_rep h0 data : zlen data = block_size -> md32_rep h0 [] (Md32 h0 0 0 data 0).
Proof using HB. intros Hd. constructor; [apply (collected_init block_size 8 block_func transform); done|done..]. Qed.

(** The two stores of the length. *)
Lemma store_length (is_be : bool) a p data : zlen p = block_size - 8 -> ztake (block_size - 8) data = p -> zlen data = block_size ->
  (if is_be then
     zwrite (block_size - 4) (CRYPTO_store_u32_be (u32 a)) (zwrite (block_size - 8) (CRYPTO_store_u32_be (u32 (a / 2 ^ 32))) data)
   else
     zwrite (block_size - 4) (CRYPTO_store_u32_le (u32 (a / 2 ^ 32))) (zwrite (block_size - 8) (CRYPTO_store_u32_le (u32 a)) data)) =
  p ++ (if is_be then be_bytes 8 a else le_bytes 8 a).
Proof using HB.
  intros Hp Hd Hl. pose proof (block_size_ok block_size 8 block_func transform) as Hb.
  assert (W : forall x y, zlen x = 4 -> zlen y = 4 -> zwrite (block_size - 4) y (zwrite (block_size - 8) x data) = p ++ x ++ y).
  { intros x y Hx Hy. rewrite (zwrite_after (block_size - 8) p x data) by done.
    rewrite (zwrite_after (block_size - 4) (p ++ x)).
    - rewrite zdrop_all, app_nil_r, app_assoc; [done|]. rewrite !zlen_app, zlen_zdrop. lia.
    - rewrite app_assoc. apply ztake_app. rewrite zlen_app. lia. }
  destruct is_be.
  - rewrite W, !store_u32_be_bytes by (apply u32_range || (rewrite store_u32_be_bytes by apply u32_range; apply zlen_be_bytes)).
    rewrite (be_bytes_add 4 4). do 2 f_equal; apply (be_bytes_mod 4).
  - rewrite W by apply zlen_le_bytes. unfold CRYPTO_store_u32_le. rewrite (le_bytes_add 4 4). do 2 f_equal; apply (le_bytes_mod 4).
Qed.

(** The last call processes the padding. *)
Lemma md32_final_rep be h0 m c : md32_rep h0 m c ->
  md_h (crypto_md32_final be c) = md_hash block_size 8 transform be h0 m.
Proof using HB.
  intros [Hc HNl HNh]. rewrite <- (collect_finish block_size 8 block_func transform be
    (fun data =>
       if be then
         zwrite (block_size - 4) (CRYPTO_store_u32_be (md_Nl c)) (zwrite (block_size - 8) (CRYPTO_store_u32_be (md_Nh c)) data)
       else
         zwrite (block_size - 4) (CRYPTO_store_u32_le (md_Nh c)) (zwrite (block_size - 8) (CRYPTO_store_u32_le (md_Nl c)) data))
    h0 m (md_h c) (md_data c) (md_num c)); [|intros q data Hq Hd Hl; rewrite HNl, HNh; apply store_length; done|done].
  unfold crypto_md32_final, md_finish. destruct (md_num c + 1 >? block_size - 8); done.
Qed.
End md32.
