(* ===== verification/Schedule.v ===== *)
(** * Message schedules.

    The block functions of the SHA family compute each word of the message
    schedule when its round needs it, in a circular array of 16 words. The
    standard lists all the words first. [extend] is such a list, and [at_round]
    the invariant that ties the array and the working variables of the code to
    it before a round. *)

From S2P Require Import Prelude.

Lemma znth_app_l (l1 l2 : list Z) i : 0 <= i < zlen l1 -> znth (l1 ++ l2) i = znth l1 i.
Proof. intros H. unfold znth, zlen in *. apply app_nth1. lia. Qed.
Lemma znth_app_r (l1 l2 : list Z) i : zlen l1 <= i -> znth (l1 ++ l2) i = znth l2 (i - zlen l1).
Proof. intros H. unfold znth, zlen in *. rewrite app_nth2 by lia. f_equal. lia. Qed.
Lemma znth_insert (l : list Z) i j v : 0 <= i < zlen l -> 0 <= j ->
  znth (<[Z.to_nat i := v]> l) j = if i =? j then v else znth l j.
Proof.
  intros Hi Hj. unfold znth, zlen in *. rewrite !nth_lookup.
  destruct (Z.eqb_spec i j) as [->|Hne].
  - rewrite list_lookup_insert_eq by lia. done.
  - rewrite list_lookup_insert_ne by lia. done.
Qed.
Lemma zlen_insert (l : list Z) i v : zlen (<[i := v]> l) = zlen l.
Proof. unfold zlen. rewrite length_insert. done. Qed.

Lemma znth_map_zseq (f : Z -> Z) n i : 0 <= i < n -> znth (f <$> zseq n) i = f i.
Proof.
  intros Hi. unfold znth, zseq. rewrite nth_lookup, <- list_fmap_compose, list_lookup_fmap, lookup_seq_lt by lia.
  cbn. f_equal. lia.
Qed.
(** Word [i] of a block of [n] bytes at the head of [data]. *)
Lemma block_word w i n (data : list Z) : 0 <= i -> 0 <= w -> w * (i + 1) <= n <= zlen data ->
  ztake w (zdrop (w * i) (ztake n data)) = ztake w (zdrop (w * i) data).
Proof.
  intros Hi Hw Hn. rewrite <- (ztake_zdrop n data) at 2.
  rewrite zdrop_app_le, ztake_app_le by (rewrite ?zlen_zdrop, zlen_ztake; nia). done.
Qed.

(** ** The list of words *)

Section extend.
(** [next W] is the word that follows the words [W]. *)
Context (next : list Z -> Z) (first : list Z).
Fixpoint extend (n : nat) : list Z :=
  match n with
  | O => first
  | S n' => let W := extend n' in W ++ [next W]
  end.

Context (Hfirst : zlen first = 16).
Lemma zlen_extend n : zlen (extend n) = 16 + Z.of_nat n.
Proof using Hfirst.
  induction n as [|n IH]; [done|]. cbn [extend]. cbn zeta. rewrite zlen_app, IH. change (zlen [_]) with 1. lia.
Qed.

Lemma extend_stable n k i : 0 <= i < 16 + Z.of_nat n -> znth (extend (n + k)) i = znth (extend n) i.
Proof using Hfirst.
  intros Hi. induction k as [|k IH]; [rewrite Nat.add_0_r; done|].
  rewrite Nat.add_succ_r. cbn [extend]. cbn zeta. rewrite znth_app_l; [done|]. rewrite zlen_extend. lia.
Qed.

Lemma extend_first n i : 0 <= i < 16 -> znth (extend n) i = znth first i.
Proof using Hfirst. intros Hi. apply (extend_stable 0 n). lia. Qed.

Lemma extend_next n i : 16 <= i < 16 + Z.of_nat n ->
  exists W, znth (extend n) i = next W /\ zlen W = i /\ forall j, 0 <= j < i -> znth W j = znth (extend n) j.
Proof using Hfirst.
  intros Hi. set (k := Z.to_nat (i - 16)). exists (extend k).
  assert (Hst : forall j, 0 <= j < i -> znth (extend n) j = znth (extend k) j).
  { intros j Hj. replace n with (k + (n - k))%nat by lia. apply extend_stable. lia. }
  split_and!; [|rewrite zlen_extend; lia|intros j Hj; symmetry; apply Hst; done].
  replace n with (S k + (n - S k))%nat by lia. rewrite extend_stable by lia. cbn [extend]. cbn zeta.
  rewrite znth_app_r, zlen_extend by (rewrite zlen_extend; lia).
  replace (i - (16 + Z.of_nat k)) with 0 by lia. done.
Qed.
End extend.

(** ** The rounds *)

Section rounds.
Context {R : Type} (round : list Z -> R -> Z -> R) (W : list Z) (r0 : R).

(** The working variables before round [i]. *)
Definition reg_at (i : Z) : R := fold_left (round W) (zseq i) r0.
Lemma reg_at_next i : 0 <= i -> reg_at (i + 1) = round W (reg_at i) i.
Proof using.
  intros Hi. unfold reg_at, zseq. replace (Z.to_nat (i + 1)) with (Z.to_nat i + 1)%nat by lia.
  rewrite seq_app, fmap_app, fold_left_app. cbn [seq fmap list_fmap fold_left]. f_equal. lia.
Qed.

(** Before round [i], [X] holds the last 16 of the first [i] words. *)
Record at_round (i : Z) (X : list Z) (r : R) : Prop := {
  ar_len : zlen X = 16;
  ar_regs : r = reg_at i;
  ar_words : forall j, 0 <= j < i -> i - 16 <= j -> znth X (j mod 16) = znth W j
}.

Lemma at_round_start X : zlen X = 16 -> at_round 0 X r0.
Proof using. intros HX. constructor; [done|done|lia]. Qed.

Lemma at_round_next i X r v r' : 0 <= i -> at_round i X r -> v = znth W i -> r' = round W r i ->
  at_round (i + 1) (<[Z.to_nat (i mod 16) := v]> X) r'.
Proof using.
  intros Hi [Hl Hr Hw] -> ->. constructor; [rewrite zlen_insert; done|rewrite Hr, reg_at_next by lia; done|].
  intros j Hj Hj2. rewrite znth_insert by (rewrite ?Hl; zarith). destruct (Z.eqb_spec (i mod 16) (j mod 16)) as [E|E].
  - assert (j = i) by zarith. subst j. done.
  - assert (j <> i) by (intros ->; done). apply Hw; lia.
Qed.

(** The words read in round [i]. *)
Lemma at_round_word i X r k : at_round i X r -> 16 <= i -> 1 <= k <= 16 -> znth X ((i - k) mod 16) = znth W (i - k).
Proof using. intros [_ _ Hw] Hi Hk. apply Hw; lia. Qed.
End rounds.

(** ** Digests from words of [w] bytes *)

Section words.
Context (w : nat).
Definition words_bytes (h : list Z) : list Z := concat (be_bytes w <$> h).

Lemma words_bytes_ok h : bytes_ok (words_bytes h).
Proof using.
  unfold words_bytes. induction h as [|x h IH]; [constructor|]. cbn [fmap list_fmap concat].
  apply Forall_app. split; [apply be_bytes_ok|done].
Qed.
Lemma zlen_words_bytes h : zlen (words_bytes h) = Z.of_nat w * zlen h.
Proof using.
  unfold words_bytes. induction h as [|x h IH]; [unfold zlen; cbn; lia|]. cbn [fmap list_fmap concat].
  rewrite zlen_app, IH, zlen_be_bytes, zlen_cons. lia.
Qed.
End words.

(** The first [k] elements, by index. *)
Lemma znth_zseq_take (l : list Z) k : (k <= length l)%nat -> (fun i => znth l i) <$> zseq (Z.of_nat k) = take k l.
Proof.
  intros Hk. unfold zseq, znth. rewrite Nat2Z.id, <- list_fmap_compose.
  apply list_eq. intros i. rewrite list_lookup_fmap. destruct (decide (i < k)%nat) as [Hi|Hi].
  - rewrite lookup_seq_lt, lookup_take_lt by lia. cbn. rewrite Nat2Z.id.
    rewrite (nth_lookup l i). destruct (lookup_lt_is_Some_2 l i) as [x ->]; [lia|]. done.
  - rewrite lookup_seq_ge by lia. rewrite lookup_take_ge by lia. done.
Qed.

(** Storing the words one after the other. *)
Lemma store_words w (store : Z -> list Z) B h k : (k <= length h)%nat -> 0 < B -> Forall (fun x => 0 <= x < B) h ->
  (forall x, 0 <= x < B -> store x = be_bytes w x) ->
  concat ((fun i => store (znth h i)) <$> zseq (Z.of_nat k)) = words_bytes w (take k h).
Proof.
  intros Hk HB Hh Hst. unfold words_bytes. rewrite <- znth_zseq_take by done. rewrite <- list_fmap_compose. f_equal.
  apply list_fmap_ext. intros i x Hx. cbn. apply Hst. unfold znth. rewrite nth_lookup.
  destruct (h !! Z.to_nat x) as [v|] eqn:E; cbn; [|lia]. rewrite Forall_lookup in Hh. apply (Hh _ _ E).
Qed.

(** ** The constants of FIPS 180-4 are bits of roots of primes *)

Definition is_prime (p : Z) : bool := (2 <=? p) && forallb (fun d => negb (p mod d =? 0)) ((fun d => d + 2) <$> zseq (p - 2)).
Definition primes_below (n : Z) : list Z := base.filter (fun p => is_prime p = true) (zseq n).
(** The integer cube root of a number below 2^216. *)
Definition cbrt (n : Z) : Z :=
  fold_left (fun r k => if (r + 2 ^ k) ^ 3 <=? n then r + 2 ^ k else r) (rev (zseq 72)) 0.
(** The first [w] bits of the fractional parts of the cube roots and square roots. *)
Definition cbrt_bits (w p : Z) : Z := cbrt (p * 2 ^ (3 * w)) mod 2 ^ w.
Definition sqrt_bits (w p : Z) : Z := Z.sqrt (p * 2 ^ (2 * w)) mod 2 ^ w.
