(* ===== verification/Fips197.v ===== *)
(** * FIPS 197: the Advanced Encryption Standard.

    The standard's own definition: arithmetic in the field of 256 elements, the
    S-box, the steps of a round, the key expansion, the cipher and its inverse.
    The second half shows that the inverse cipher undoes the cipher. *)

From S2P Require Import Prelude Modes Schedule.

Module Fips197.
(** ** The field: bytes are polynomials over the bits modulo x^8 + x^4 + x^3 + x + 1 *)

Definition xtime (a : Z) : Z := if a <? 128 then 2 * a else Z.lxor (2 * a) 0x11b.
(** The product: the multiples [xtime^j b] for the bits [j] of [a]. *)
Fixpoint gmul_bits (n : nat) (a b : Z) : Z :=
  match n with
  | O => 0
  | S n' => Z.lxor (if Z.odd a then b else 0) (gmul_bits n' (a / 2) (xtime b))
  end.
Definition gmul (a b : Z) : Z := gmul_bits 8 a b.
(** The inverse is the power 254; 0 has 0. *)
Definition ginv (a : Z) : Z := Nat.iter 254 (gmul a) 1.

(** Bit [i] is the sum of the bits [i], [i+4], [i+5], [i+6], [i+7] modulo 8 and of bit [i] of 0x63. *)
Definition affine (a : Z) : Z :=
  let rot n := Z.lor (u8 (Z.shiftl a n)) (Z.shiftr a (8 - n)) in
  Z.lxor (Z.lxor (Z.lxor (Z.lxor (Z.lxor a (rot 1)) (rot 2)) (rot 3)) (rot 4)) 0x63.
Definition sbox (a : Z) : Z := affine (ginv a).
(** The inverse S-box: the byte whose S-box value is [a]. *)
Definition inv_sbox (a : Z) : Z := default 0 (head (base.filter (fun x => sbox x = a) (zseq 256))).

(** ** The state: byte [4 * c + r] is in column [c] and row [r] *)

Definition state_map (f : Z -> Z -> Z) : list Z := (fun p => f (p / 4) (p mod 4)) <$> zseq 16.
Definition at_ (s : list Z) (c r : Z) : Z := znth s (4 * (c mod 4) + r mod 4).

Definition SubBytes (s : list Z) : list Z := sbox <$> s.
Definition InvSubBytes (s : list Z) : list Z := inv_sbox <$> s.
(** Row [r] moves [r] columns to the left. *)
Definition ShiftRows (s : list Z) : list Z := state_map (fun c r => at_ s (c + r) r).
Definition InvShiftRows (s : list Z) : list Z := state_map (fun c r => at_ s (c - r) r).
(** A column times a circulant matrix with the first row [k0 k1 k2 k3]. *)
Definition mix (k0 k1 k2 k3 : Z) (s : list Z) : list Z :=
  state_map (fun c r => Z.lxor (Z.lxor (gmul k0 (at_ s c r)) (gmul k1 (at_ s c (r + 1))))
                          (Z.lxor (gmul k2 (at_ s c (r + 2))) (gmul k3 (at_ s c (r + 3))))).
Definition MixColumns : list Z -> list Z := mix 2 3 1 1.
Definition InvMixColumns : list Z -> list Z := mix 14 11 13 9.
Definition AddRoundKey (s k : list Z) : list Z := xor_bytes s k.

(** ** The key expansion *)

Definition RotWord (w : list Z) : list Z := drop 1 w ++ take 1 w.
Definition SubWord (w : list Z) : list Z := sbox <$> w.
Definition Rcon (i : Z) : list Z := [Nat.iter (Z.to_nat (i - 1)) xtime 1; 0; 0; 0].
Definition word_at (w : list (list Z)) (i : Z) : list Z := nth (Z.to_nat i) w [].
(** The word that follows the words [w]. *)
Definition next_word (Nk : Z) (w : list (list Z)) : list Z :=
  let i := zlen w in
  let temp := word_at w (i - 1) in
  let temp :=
    if i mod Nk =? 0 then xor_bytes (SubWord (RotWord temp)) (Rcon (i / Nk))
    else if (6 <? Nk) && (i mod Nk =? 4) then SubWord temp
    else temp in
  xor_bytes (word_at w (i - Nk)) temp.
Definition key_words (Nk : Z) (key : list Z) : list (list Z) := (fun i => ztake 4 (zdrop (4 * i) key)) <$> zseq Nk.
Definition expand (Nk : Z) (key : list Z) (n : nat) : list (list Z) :=
  Nat.iter n (fun w => w ++ [next_word Nk w]) (key_words Nk key).
(** [Nk] is the length of the key in words, [Nr] the number of rounds. *)
Definition Nk (key : list Z) : Z := zlen key / 4.
Definition Nr (key : list Z) : Z := Nk key + 6.
Definition KeyExpansion (key : list Z) : list (list Z) :=
  expand (Nk key) key (Z.to_nat (4 * (Nr key + 1) - Nk key)).
Definition round_key (key : list Z) (i : Z) : list Z :=
  let w := KeyExpansion key in
  word_at w (4 * i) ++ word_at w (4 * i + 1) ++ word_at w (4 * i + 2) ++ word_at w (4 * i + 3).

(** ** The cipher, with round keys [rk] and [nr] rounds *)

Section cipher.
Context (rk : Z -> list Z) (nr : Z).
Definition round (s : list Z) (i : Z) : list Z := AddRoundKey (MixColumns (ShiftRows (SubBytes s))) (rk i).
Definition cipher (inp : list Z) : list Z :=
  let s := AddRoundKey inp (rk 0) in
  let s := fold_left round ((fun i => i + 1) <$> zseq (nr - 1)) s in
  AddRoundKey (ShiftRows (SubBytes s)) (rk nr).

Definition inv_round (s : list Z) (i : Z) : list Z :=
  InvMixColumns (AddRoundKey (InvSubBytes (InvShiftRows s)) (rk i)).
Definition inv_cipher (inp : list Z) : list Z :=
  let s := AddRoundKey inp (rk nr) in
  let s := fold_left inv_round (rev ((fun i => i + 1) <$> zseq (nr - 1))) s in
  AddRoundKey (InvSubBytes (InvShiftRows s)) (rk 0).
End cipher.

Definition Cipher (key inp : list Z) : list Z := cipher (round_key key) (Nr key) inp.
Definition InvCipher (key inp : list Z) : list Z := inv_cipher (round_key key) (Nr key) inp.
End Fips197.
Import Fips197.

Example fips_197_c1 : Cipher (zseq 16) ((fun i => 17 * i) <$> zseq 16) = be_bytes 16 0x69c4e0d86a7b0430d8cdb78070b4c55a.
Proof. vm_compute. reflexivity. Qed.

(** ** The S-box and its inverse *)

Definition sbox_table : list Z := Eval vm_compute in sbox <$> zseq 256.
Lemma sbox_lookup x : is_byte x -> sbox x = znth sbox_table x.
Proof.
  unfold is_byte. intros Hx. byte_check (fun x => sbox x =? znth sbox_table x) x as H. by apply Z.eqb_eq.
Qed.
Lemma sbox_byte x : is_byte x -> is_byte (sbox x).
Proof.
  unfold is_byte. intros Hx. rewrite sbox_lookup by done.
  byte_check (fun x => (0 <=? znth sbox_table x) && (znth sbox_table x <? 256)) x as H. bool_hyps. lia.
Qed.

(** The affine map of the S-box, backwards. *)
Definition inv_affine (a : Z) : Z :=
  let rot n := Z.lor (u8 (Z.shiftl a n)) (Z.shiftr a (8 - n)) in Z.lxor (Z.lxor (Z.lxor (rot 1) (rot 3)) (rot 6)) 5.
Lemma inv_affine_byte x : is_byte x -> is_byte (inv_affine x).
Proof.
  unfold is_byte. intros Hx. byte_check (fun x => (0 <=? inv_affine x) && (inv_affine x <? 256)) x as H. bool_hyps. lia.
Qed.

(** The circuit for the inverse S-box: the S-box between two inverse affine maps. *)
Definition inv_sbox_circuit (a : Z) : Z := inv_affine (znth sbox_table (inv_affine a)).
Lemma inv_sbox_circuit_sbox x : is_byte x -> inv_sbox_circuit (sbox x) = x.
Proof.
  unfold is_byte. intros Hx. rewrite sbox_lookup by done.
  byte_check (fun x => inv_sbox_circuit (znth sbox_table x) =? x) x as H. by apply Z.eqb_eq.
Qed.
Lemma sbox_inv_sbox_circuit x : is_byte x -> is_byte (inv_sbox_circuit x) /\ sbox (inv_sbox_circuit x) = x.
Proof.
  unfold is_byte. intros Hx. byte_check (fun x => let y := inv_sbox_circuit x in (0 <=? y) && (y <? 256) && (znth sbox_table y =? x)) x as H.
  cbn in H. bool_hyps. split; [lia|]. rewrite sbox_lookup by (unfold is_byte; lia). done.
Qed.

Lemma inv_sbox_sbox x : is_byte x -> inv_sbox (sbox x) = x.
Proof.
  intros Hx. unfold inv_sbox.
  assert (H : x ∈ base.filter (fun y => sbox y = sbox x) (zseq 256)).
  { apply list_elem_of_filter. split; [done|]. unfold zseq. apply list_elem_of_fmap. exists (Z.to_nat x).
    unfold is_byte in Hx. split; [lia|apply elem_of_seq; lia]. }
  destruct (base.filter _ _) as [|y l] eqn:E; [by apply not_elem_of_nil in H|]. cbn.
  assert (Hy : y ∈ base.filter (fun y => sbox y = sbox x) (zseq 256)) by (rewrite E; left).
  apply list_elem_of_filter in Hy as [Hs Hy]. apply list_elem_of_fmap in Hy as (k & -> & Hk). apply elem_of_seq in Hk.
  rewrite <- (inv_sbox_circuit_sbox (Z.of_nat k)), Hs by (unfold is_byte; lia). by apply inv_sbox_circuit_sbox.
Qed.
Lemma inv_sbox_affine x : is_byte x -> inv_sbox x = inv_affine (sbox (inv_affine x)).
Proof.
  intros Hx. destruct (sbox_inv_sbox_circuit x Hx) as [Hb E]. rewrite <- E at 1. rewrite inv_sbox_sbox by done.
  unfold inv_sbox_circuit. rewrite sbox_lookup by (by apply inv_affine_byte). done.
Qed.

(** ** Multiplication is linear *)

Lemma lxor_byte x y : is_byte x -> is_byte y -> is_byte (Z.lxor x y).
Proof. apply (lxor_range 8). lia. Qed.
#[export] Hint Resolve lxor_byte sbox_byte inv_affine_byte : bytes.

(** Two bytes at a time. *)
Lemma byte_forall2 (P : Z -> Z -> bool) x y : is_byte x -> is_byte y ->
  forallb (fun x => forallb (P x) (zseq 256)) (zseq 256) = true -> P x y = true.
Proof. intros Hx Hy H. apply (byte_forall (fun x => forallb (P x) (zseq 256)) x Hx) in H. by apply (byte_forall (P x) y Hy). Qed.

Lemma xtime_byte x : is_byte x -> is_byte (xtime x).
Proof. unfold is_byte. intros Hx. byte_check (fun x => (0 <=? xtime x) && (xtime x <? 256)) x as H. bool_hyps. lia. Qed.
Lemma xtime_lxor x y : is_byte x -> is_byte y -> xtime (Z.lxor x y) = Z.lxor (xtime x) (xtime y).
Proof.
  intros Hx Hy. apply Z.eqb_eq. apply (byte_forall2 (fun x y => xtime (Z.lxor x y) =? Z.lxor (xtime x) (xtime y)) x y Hx Hy).
  vm_compute. reflexivity.
Qed.
Lemma gmul_byte a x : is_byte x -> is_byte (gmul a x).
Proof.
  unfold gmul. generalize 8%nat. intros n. revert a x. induction n as [|n IH]; intros a x Hx; cbn [gmul_bits]; [unfold is_byte; lia|].
  apply lxor_byte; [destruct (Z.odd a); [done|unfold is_byte; lia]|]. by apply IH, xtime_byte.
Qed.
#[export] Hint Resolve xtime_byte gmul_byte : bytes.

(** An equation between xors of integers. *)
Ltac xor_ring := apply Z.bits_inj'; intros; rewrite ?Z.lxor_spec, ?Z.bits_0; ring.

Lemma gmul_lxor a x y : is_byte x -> is_byte y -> gmul a (Z.lxor x y) = Z.lxor (gmul a x) (gmul a y).
Proof.
  unfold gmul. generalize 8%nat. intros n. revert a x y. induction n as [|n IH]; intros a x y Hx Hy; cbn [gmul_bits]; [done|].
  rewrite xtime_lxor, IH by auto with bytes. destruct (Z.odd a); [xor_ring|]. rewrite !Z.lxor_0_l. done.
Qed.

(** ** Mixing columns *)

Lemma at_byte s c r : bytes_ok s -> is_byte (at_ s c r).
Proof. apply znth_byte. Qed.
#[export] Hint Resolve at_byte : bytes.

Lemma zlen_state_map f : zlen (state_map f) = 16.
Proof. unfold state_map. by rewrite zlen_map. Qed.
Lemma state_map_bytes f : (forall c r, is_byte (f c r)) -> bytes_ok (state_map f).
Proof. intros H. apply Forall_fmap, Forall_true. intros p. apply H. Qed.
Lemma mix_bytes k0 k1 k2 k3 s : bytes_ok s -> bytes_ok (mix k0 k1 k2 k3 s).
Proof. intros Hs. apply state_map_bytes. intros c r. auto 10 with bytes. Qed.

Lemma at_state_map f c r : at_ (state_map f) c r = f (c mod 4) (r mod 4).
Proof. unfold at_, state_map. rewrite znth_map_zseq by zarith. f_equal; zarith. Qed.
Lemma at_mod s c r : at_ s (c mod 4) (r mod 4) = at_ s c r.
Proof. unfold at_. by rewrite !Zmod_mod. Qed.
Lemma state_map_ext f g : (forall c r, 0 <= c < 4 -> 0 <= r < 4 -> f c r = g c r) -> state_map f = state_map g.
Proof.
  intros H. unfold state_map. apply list_fmap_ext. intros i p Hp. apply list_elem_of_lookup_2, list_elem_of_fmap in Hp as (k & -> & Hk).
  apply elem_of_seq in Hk. apply H; zarith.
Qed.
Lemma state_map_at s : zlen s = 16 -> state_map (at_ s) = s.
Proof.
  intros Hl. apply list_eq. intros i. unfold state_map, zseq. rewrite <- list_fmap_compose, list_lookup_fmap.
  destruct (decide (i < 16)%nat) as [Hi|Hi].
  - rewrite lookup_seq_lt by lia. cbn. unfold at_, znth. destruct (lookup_lt_is_Some_2 s i) as [x Hx]; [unfold zlen in Hl; lia|].
    rewrite Hx, nth_lookup. replace (Z.to_nat _) with i by zarith. by rewrite Hx.
  - rewrite lookup_seq_ge by lia. symmetry. apply lookup_ge_None_2. unfold zlen in Hl. lia.
Qed.

(** The sum of the products [a * (b * x)] for the pairs [(a, b)] of a list. *)
Definition gmul_table (l : list (Z * Z)) (x : Z) : Z := foldr (fun '(a, b) acc => Z.lxor (gmul a (gmul b x)) acc) 0 l.

Lemma row_turn s c r k j : at_ s (c mod 4) (((r + k) mod 4) + j) = at_ s c (r + k + j).
Proof. unfold at_. rewrite Zmod_mod, Zplus_mod_idemp_l. done. Qed.
Lemma at_row s c r d d' : d mod 4 = d' mod 4 -> at_ s c (r + d) = at_ s c (r + d').
Proof. unfold at_. intros E. do 2 f_equal. zarith. Qed.

(** The product of two circulant matrices. *)
Section mix_mix.
Context (a0 a1 a2 a3 b0 b1 b2 b3 c0 c1 c2 c3 : Z).
Hypothesis H0 : forall x, is_byte x -> gmul_table [(a0, b0); (a1, b3); (a2, b2); (a3, b1)] x = gmul c0 x.
Hypothesis H1 : forall x, is_byte x -> gmul_table [(a0, b1); (a1, b0); (a2, b3); (a3, b2)] x = gmul c1 x.
Hypothesis H2 : forall x, is_byte x -> gmul_table [(a0, b2); (a1, b1); (a2, b0); (a3, b3)] x = gmul c2 x.
Hypothesis H3 : forall x, is_byte x -> gmul_table [(a0, b3); (a1, b2); (a2, b1); (a3, b0)] x = gmul c3 x.

Lemma mix_mix s : bytes_ok s -> mix a0 a1 a2 a3 (mix b0 b1 b2 b3 s) = mix c0 c1 c2 c3 s.
Proof using H0 H1 H2 H3.
  intros Hs. unfold mix at 1 3. apply state_map_ext. intros c r Hc Hr. unfold mix. rewrite !at_state_map, !(at_mod s c).
  assert (T : forall d, is_byte (at_ s c d)) by auto with bytes.
  replace (r mod 4) with ((r + 0) mod 4) by (f_equal; lia). rewrite !row_turn, <- !Z.add_assoc.
  rewrite !gmul_lxor by auto with bytes.
  repeat match goal with |- context [at_ s c (r + (?i + ?j))] =>
    let k := eval vm_compute in ((i + j) mod 4) in rewrite (at_row s c r (i + j) k) by done end.
  rewrite ?Z.add_0_r, <- (H0 (at_ s c r)), <- (H1 (at_ s c (r + 1))), <- (H2 (at_ s c (r + 2))), <- (H3 (at_ s c (r + 3))) by apply T.
  generalize (at_ s c r), (at_ s c (r + 1)), (at_ s c (r + 2)), (at_ s c (r + 3)). clear. intros x0 x1 x2 x3. unfold gmul_table. cbn [foldr].
  xor_ring.
Qed.
End mix_mix.

(** A table of products is checked on all bytes. *)
Lemma gmul_table_eq l c : forallb (fun x => gmul_table l x =? gmul c x) (zseq 256) = true ->
  forall x, is_byte x -> gmul_table l x = gmul c x.
Proof. intros H x Hx. apply Z.eqb_eq. by apply (byte_forall (fun x => gmul_table l x =? gmul c x)). Qed.

Lemma gmul_0_l x : is_byte x -> gmul 0 x = 0.
Proof. intros Hx. unfold gmul. by cbn. Qed.
Lemma gmul_1_l x : is_byte x -> gmul 1 x = x.
Proof. intros Hx. unfold gmul. cbn. apply Z.lxor_0_r. Qed.

Lemma mix_one s : bytes_ok s -> zlen s = 16 -> mix 1 0 0 0 s = s.
Proof.
  intros Hs Hl. rewrite <- (state_map_at s) at 2 by done. apply state_map_ext. intros c r _ _.
  rewrite gmul_1_l, !gmul_0_l by auto with bytes. by rewrite !Z.lxor_0_r.
Qed.

(** MixColumns has the inverse of the standard, which is also a product of MixColumns and a sparser matrix. *)
Lemma inv_mix_columns s : bytes_ok s -> zlen s = 16 -> InvMixColumns (MixColumns s) = s.
Proof.
  intros Hs Hl. rewrite <- (mix_one s) at 2 by done. unfold InvMixColumns, MixColumns.
  apply mix_mix; [apply gmul_table_eq; vm_compute; reflexivity..|done].
Qed.
Lemma mix_even_product s : bytes_ok s -> MixColumns (mix 5 0 4 0 s) = InvMixColumns s.
Proof. intros Hs. apply mix_mix; [apply gmul_table_eq; vm_compute; reflexivity..|done]. Qed.

(** ** The other steps and their inverses *)

Definition state_ok (s : list Z) : Prop := bytes_ok s /\ zlen s = 16.

Lemma sub_state s : state_ok s -> state_ok (SubBytes s).
Proof.
  intros [Hs Hl]. split; [|unfold SubBytes; by rewrite zlen_map]. apply Forall_fmap. eapply Forall_impl; [exact Hs|]. apply sbox_byte.
Qed.
Lemma shift_state s : state_ok s -> state_ok (ShiftRows s).
Proof. intros [Hs _]. split; [apply state_map_bytes; auto with bytes|apply zlen_state_map]. Qed.
Lemma mix_state s : state_ok s -> state_ok (MixColumns s).
Proof. intros [Hs _]. split; [by apply mix_bytes|apply zlen_state_map]. Qed.
Lemma add_state s k : state_ok s -> state_ok k -> state_ok (AddRoundKey s k).
Proof. intros [Hs Hl] [Hk Hl']. split; [by apply xor_bytes_ok|]. unfold AddRoundKey. rewrite zlen_xor_bytes; lia. Qed.
#[export] Hint Resolve sub_state shift_state mix_state add_state : aes_state.

Lemma inv_sub_bytes s : bytes_ok s -> InvSubBytes (SubBytes s) = s.
Proof.
  intros Hs. unfold InvSubBytes, SubBytes. rewrite <- list_fmap_compose. rewrite <- (list_fmap_id s) at 2. apply Forall_fmap_ext_1.
  eapply Forall_impl; [exact Hs|]. intros x Hx. by apply inv_sbox_sbox.
Qed.
Lemma inv_shift_rows s : zlen s = 16 -> InvShiftRows (ShiftRows s) = s.
Proof.
  intros Hl. rewrite <- (state_map_at s) at 2 by done. apply state_map_ext. intros c r _ _.
  unfold ShiftRows. rewrite at_state_map. unfold at_. do 2 f_equal; zarith.
Qed.
Lemma add_round_key_twice s k : zlen s = zlen k -> AddRoundKey (AddRoundKey s k) k = s.
Proof.
  unfold AddRoundKey, xor_bytes, zlen. revert k. induction s as [|x s IH]; intros [|y k] H; try done. cbn in *. f_equal; [|apply IH; lia].
  by rewrite Z.lxor_assoc, Z.lxor_nilpotent, Z.lxor_0_r.
Qed.

(** The inverse cipher undoes the cipher, for any round keys. *)
Section inverse.
Context (rk : Z -> list Z) (nr : Z) (Hnr : 1 <= nr) (Hrk : forall i, 0 <= i <= nr -> state_ok (rk i)).

Lemma rounds_state l : (forall i, i ∈ l -> 0 <= i <= nr) -> forall s, state_ok s -> state_ok (fold_left (round rk) l s).
Proof using Hrk.
  induction l as [|i l IH]; intros Hl s Hs; [done|]. apply IH; [intros j Hj; apply Hl; by right|].
  unfold round. apply add_state; [auto with aes_state|]. apply Hrk, Hl. left.
Qed.

(** The last two steps of a round come off. *)
Lemma inv_add s k : state_ok s -> state_ok k -> AddRoundKey (AddRoundKey s k) k = s.
Proof using. intros [_ Hs] [_ Hk]. apply add_round_key_twice. lia. Qed.
Lemma inv_last s : state_ok s -> InvSubBytes (InvShiftRows (ShiftRows (SubBytes s))) = s.
Proof using. intros Hs. destruct (sub_state s Hs) as [_ Hl]. rewrite inv_shift_rows by done. apply inv_sub_bytes, Hs. Qed.

(** The inverse rounds for the rounds [l], the first of which is followed by the
    sub-bytes and shift-rows of the next. *)
Lemma inv_rounds l : (forall i, i ∈ l -> 0 <= i <= nr) -> forall s, state_ok s ->
  fold_left (inv_round rk) (rev l) (ShiftRows (SubBytes (fold_left (round rk) l s))) = ShiftRows (SubBytes s).
Proof using Hrk.
  induction l as [|i l IH] using rev_ind; intros Hl s Hs; [done|].
  assert (Hl' : forall j, j ∈ l -> 0 <= j <= nr) by (intros j Hj; apply Hl, elem_of_app; by left).
  assert (Hi : state_ok (rk i)) by (apply Hrk, Hl, elem_of_app; right; left).
  rewrite rev_app_distr, !fold_left_app. cbn [rev app fold_left]. rewrite <- (IH Hl' s Hs).
  f_equal. pose proof (rounds_state l Hl' s Hs) as Hr. set (t := fold_left (round rk) l s) in *.
  pose proof (shift_state _ (sub_state _ Hr)) as Ht. unfold inv_round, round. rewrite inv_last by auto with aes_state.
  rewrite inv_add by auto with aes_state. apply inv_mix_columns; apply Ht.
Qed.

Theorem inv_cipher_cipher s : state_ok s -> inv_cipher rk nr (cipher rk nr s) = s.
Proof using Hrk Hnr.
  intros Hs. unfold inv_cipher, cipher. cbv zeta.
  assert (Hk0 : state_ok (rk 0)) by (apply Hrk; lia). assert (Hkn : state_ok (rk nr)) by (apply Hrk; lia).
  assert (H0 : state_ok (AddRoundKey s (rk 0))) by auto with aes_state.
  assert (Hl : forall i, i ∈ (fun i => i + 1) <$> zseq (nr - 1) -> 0 <= i <= nr).
  { intros i Hi. apply list_elem_of_fmap in Hi as (j & -> & Hj). apply list_elem_of_fmap in Hj as (m & -> & Hm). apply elem_of_seq in Hm. lia. }
  pose proof (rounds_state _ Hl _ H0) as Hr. rewrite inv_add by auto with aes_state.
  rewrite inv_rounds by done. rewrite inv_last, inv_add by auto with aes_state. done.
Qed.
End inverse.
