(* ===== verification/Aes.v ===== *)
(** * AES in constant time (fipsmodule/aes/aes_nohw.c, aes.c).

    The portable implementation works on four blocks at a time in bitsliced form,
    with 64-bit words. The file has three variants of the word operations; this is
    the one for 64-bit machines without SSE2 ([OPENSSL_64_BIT]), which an arm64
    build compiles. The library is built with OPENSSL_NO_ASM, so [hwaes_capable] and
    [vpaes_capable] are 0 and aes.c calls nothing else. *)

From S2P Require Import Prelude Mem Modes.

Definition AES_MAXNR : Z := 14.

(** ** Words *)

Definition aes_word_t : Type := Z.
Definition AES_NOHW_BATCH_SIZE : Z := 4.
Definition AES_NOHW_BLOCK_WORDS : Z := 2.
Definition AES_NOHW_ROW0_MASK : Z := 0x000f000f000f000f.
Definition AES_NOHW_ROW1_MASK : Z := 0x00f000f000f000f0.
Definition AES_NOHW_ROW2_MASK : Z := 0x0f000f000f000f00.
Definition AES_NOHW_ROW3_MASK : Z := 0xf000f000f000f000.
Definition AES_NOHW_COL01_MASK : Z := 0x00000000ffffffff.
Definition AES_NOHW_COL2_MASK : Z := 0x0000ffff00000000.
Definition AES_NOHW_COL3_MASK : Z := 0xffff000000000000.

Definition aes_nohw_and (a b : aes_word_t) : aes_word_t := Z.land a b.
Definition aes_nohw_or (a b : aes_word_t) : aes_word_t := Z.lor a b.
Definition aes_nohw_xor (a b : aes_word_t) : aes_word_t := Z.lxor a b.
Definition aes_nohw_not (a : aes_word_t) : aes_word_t := u64 (Z.lnot a).
Definition aes_nohw_shift_left (a i : aes_word_t) : aes_word_t := u64 (Z.shiftl a (i * AES_NOHW_BATCH_SIZE)).
Definition aes_nohw_shift_right (a i : aes_word_t) : aes_word_t := Z.shiftr a (i * AES_NOHW_BATCH_SIZE).

(** ** Blocks and batches *)

(** The eight words [w]. *)
Definition AES_NOHW_BATCH : Type := list aes_word_t.
(** A block in compact form: [aes_word_t[AES_NOHW_BLOCK_WORDS]]. *)
Definition compact : Type := list aes_word_t.
(** [keys]. *)
Definition AES_NOHW_SCHEDULE : Type := list AES_NOHW_BATCH.
Definition key_batch (key : AES_NOHW_SCHEDULE) (i : Z) : AES_NOHW_BATCH := nth (Z.to_nat i) key [].

Definition set_word (l : list Z) (i v : Z) : list Z := <[Z.to_nat i := v]> l.

Definition aes_nohw_batch_set (batch : AES_NOHW_BATCH) (inp : compact) (i : Z) : AES_NOHW_BATCH :=
  set_word (set_word batch i (znth inp 0)) (i + 4) (znth inp 1).
Definition aes_nohw_batch_get (batch : AES_NOHW_BATCH) (i : Z) : compact := [znth batch i; znth batch (i + 4)].

Definition aes_nohw_delta_swap (a mask shift : aes_word_t) : aes_word_t :=
  let b := Z.land (Z.lxor a (Z.shiftr a shift)) mask in
  Z.lxor (Z.lxor a b) (u64 (Z.shiftl b shift)).

Definition aes_nohw_compact_word (a : Z) : Z :=
  let a := aes_nohw_delta_swap a 0x00f000f000f000f0 4 in
  let a := aes_nohw_delta_swap a 0x0000ff000000ff00 8 in
  aes_nohw_delta_swap a 0x00000000ffff0000 16.
Definition aes_nohw_uncompact_word (a : Z) : Z :=
  let a := aes_nohw_delta_swap a 0x00000000ffff0000 16 in
  let a := aes_nohw_delta_swap a 0x0000ff000000ff00 8 in
  aes_nohw_delta_swap a 0x00f000f000f000f0 4.

(** [memcpy(out, in, 16)]: [n] bytes as little-endian words. *)
Definition words_of_bytes (inp : list Z) : compact := [le_val (ztake 8 inp); le_val (ztake 8 (zdrop 8 inp))].

Definition aes_nohw_compact_block (inp : list Z) : compact :=
  let out := words_of_bytes inp in
  let a0 := aes_nohw_compact_word (znth out 0) in
  let a1 := aes_nohw_compact_word (znth out 1) in
  [Z.lor (Z.land a0 0x00000000ffffffff) (u64 (Z.shiftl a1 32)); Z.lor (Z.land a1 0xffffffff00000000) (Z.shiftr a0 32)].
(** The 16 bytes written to [out]. *)
Definition aes_nohw_uncompact_block (inp : compact) : list Z :=
  let a0 := znth inp 0 in
  let a1 := znth inp 1 in
  let b0 := aes_nohw_uncompact_word (Z.lor (Z.land a0 0x00000000ffffffff) (u64 (Z.shiftl a1 32))) in
  let b1 := aes_nohw_uncompact_word (Z.lor (Z.land a1 0xffffffff00000000) (Z.shiftr a0 32)) in
  le_bytes 8 b0 ++ le_bytes 8 b1.

(** The new values of [*a] and [*b]. *)
Definition aes_nohw_swap_bits (a b : aes_word_t) (mask : Z) (shift : aes_word_t) : aes_word_t * aes_word_t :=
  let mask_w := Z.lor (u64 (Z.shiftl mask 32)) mask in
  let swap := Z.land (Z.lxor (Z.shiftr a shift) b) mask_w in
  (Z.lxor a (u64 (Z.shiftl swap shift)), Z.lxor b swap).
(** [aes_nohw_swap_bits(&batch->w[i], &batch->w[j], mask, shift)]. *)
Definition swap_words (batch : AES_NOHW_BATCH) (i j mask shift : Z) : AES_NOHW_BATCH :=
  let '(a, b) := aes_nohw_swap_bits (znth batch i) (znth batch j) mask shift in
  set_word (set_word batch i a) j b.
Definition aes_nohw_transpose (batch : AES_NOHW_BATCH) : AES_NOHW_BATCH :=
  let batch := swap_words batch 0 1 0x55555555 1 in
  let batch := swap_words batch 2 3 0x55555555 1 in
  let batch := swap_words batch 4 5 0x55555555 1 in
  let batch := swap_words batch 6 7 0x55555555 1 in
  let batch := swap_words batch 0 2 0x33333333 2 in
  let batch := swap_words batch 1 3 0x33333333 2 in
  let batch := swap_words batch 4 6 0x33333333 2 in
  let batch := swap_words batch 5 7 0x33333333 2 in
  batch.

Definition aes_nohw_to_batch (inp : list Z) (num_blocks : Z) : AES_NOHW_BATCH :=
  let out := replicate 8 0 in
  let out := fold_left (fun out i => aes_nohw_batch_set out (aes_nohw_compact_block (ztake 16 (zdrop (16 * i) inp))) i) (zseq num_blocks) out in
  aes_nohw_transpose out.
(** The [16 * num_blocks] bytes written to [out]. *)
Definition aes_nohw_from_batch (num_blocks : Z) (batch : AES_NOHW_BATCH) : list Z :=
  let copy := aes_nohw_transpose batch in
  concat ((fun i => aes_nohw_uncompact_block (aes_nohw_batch_get copy i)) <$> zseq num_blocks).

(** ** Round steps *)

Definition aes_nohw_add_round_key (batch key : AES_NOHW_BATCH) : AES_NOHW_BATCH :=
  (fun i => aes_nohw_xor (znth batch i) (znth key i)) <$> zseq 8.

Definition aes_nohw_sub_bytes (batch : AES_NOHW_BATCH) : AES_NOHW_BATCH :=
  let x0 := znth batch 7 in
  let x1 := znth batch 6 in
  let x2 := znth batch 5 in
  let x3 := znth batch 4 in
  let x4 := znth batch 3 in
  let x5 := znth batch 2 in
  let x6 := znth batch 1 in
  let x7 := znth batch 0 in
  let y14 := aes_nohw_xor x3 x5 in
  let y13 := aes_nohw_xor x0 x6 in
  let y9 := aes_nohw_xor x0 x3 in
  let y8 := aes_nohw_xor x0 x5 in
  let t0 := aes_nohw_xor x1 x2 in
  let y1 := aes_nohw_xor t0 x7 in
  let y4 := aes_nohw_xor y1 x3 in
  let y12 := aes_nohw_xor y13 y14 in
  let y2 := aes_nohw_xor y1 x0 in
  let y5 := aes_nohw_xor y1 x6 in
  let y3 := aes_nohw_xor y5 y8 in
  let t1 := aes_nohw_xor x4 y12 in
  let y15 := aes_nohw_xor t1 x5 in
  let y20 := aes_nohw_xor t1 x1 in
  let y6 := aes_nohw_xor y15 x7 in
  let y10 := aes_nohw_xor y15 t0 in
  let y11 := aes_nohw_xor y20 y9 in
  let y7 := aes_nohw_xor x7 y11 in
  let y17 := aes_nohw_xor y10 y11 in
  let y19 := aes_nohw_xor y10 y8 in
  let y16 := aes_nohw_xor t0 y11 in
  let y21 := aes_nohw_xor y13 y16 in
  let y18 := aes_nohw_xor x0 y16 in
  let t2 := aes_nohw_and y12 y15 in
  let t3 := aes_nohw_and y3 y6 in
  let t4 := aes_nohw_xor t3 t2 in
  let t5 := aes_nohw_and y4 x7 in
  let t6 := aes_nohw_xor t5 t2 in
  let t7 := aes_nohw_and y13 y16 in
  let t8 := aes_nohw_and y5 y1 in
  let t9 := aes_nohw_xor t8 t7 in
  let t10 := aes_nohw_and y2 y7 in
  let t11 := aes_nohw_xor t10 t7 in
  let t12 := aes_nohw_and y9 y11 in
  let t13 := aes_nohw_and y14 y17 in
  let t14 := aes_nohw_xor t13 t12 in
  let t15 := aes_nohw_and y8 y10 in
  let t16 := aes_nohw_xor t15 t12 in
  let t17 := aes_nohw_xor t4 t14 in
  let t18 := aes_nohw_xor t6 t16 in
  let t19 := aes_nohw_xor t9 t14 in
  let t20 := aes_nohw_xor t11 t16 in
  let t21 := aes_nohw_xor t17 y20 in
  let t22 := aes_nohw_xor t18 y19 in
  let t23 := aes_nohw_xor t19 y21 in
  let t24 := aes_nohw_xor t20 y18 in
  let t25 := aes_nohw_xor t21 t22 in
  let t26 := aes_nohw_and t21 t23 in
  let t27 := aes_nohw_xor t24 t26 in
  let t28 := aes_nohw_and t25 t27 in
  let t29 := aes_nohw_xor t28 t22 in
  let t30 := aes_nohw_xor t23 t24 in
  let t31 := aes_nohw_xor t22 t26 in
  let t32 := aes_nohw_and t31 t30 in
  let t33 := aes_nohw_xor t32 t24 in
  let t34 := aes_nohw_xor t23 t33 in
  let t35 := aes_nohw_xor t27 t33 in
  let t36 := aes_nohw_and t24 t35 in
  let t37 := aes_nohw_xor t36 t34 in
  let t38 := aes_nohw_xor t27 t36 in
  let t39 := aes_nohw_and t29 t38 in
  let t40 := aes_nohw_xor t25 t39 in
  let t41 := aes_nohw_xor t40 t37 in
  let t42 := aes_nohw_xor t29 t33 in
  let t43 := aes_nohw_xor t29 t40 in
  let t44 := aes_nohw_xor t33 t37 in
  let t45 := aes_nohw_xor t42 t41 in
  let z0 := aes_nohw_and t44 y15 in
  let z1 := aes_nohw_and t37 y6 in
  let z2 := aes_nohw_and t33 x7 in
  let z3 := aes_nohw_and t43 y16 in
  let z4 := aes_nohw_and t40 y1 in
  let z5 := aes_nohw_and t29 y7 in
  let z6 := aes_nohw_and t42 y11 in
  let z7 := aes_nohw_and t45 y17 in
  let z8 := aes_nohw_and t41 y10 in
  let z9 := aes_nohw_and t44 y12 in
  let z10 := aes_nohw_and t37 y3 in
  let z11 := aes_nohw_and t33 y4 in
  let z12 := aes_nohw_and t43 y13 in
  let z13 := aes_nohw_and t40 y5 in
  let z14 := aes_nohw_and t29 y2 in
  let z15 := aes_nohw_and t42 y9 in
  let z16 := aes_nohw_and t45 y14 in
  let z17 := aes_nohw_and t41 y8 in
  let t46 := aes_nohw_xor z15 z16 in
  let t47 := aes_nohw_xor z10 z11 in
  let t48 := aes_nohw_xor z5 z13 in
  let t49 := aes_nohw_xor z9 z10 in
  let t50 := aes_nohw_xor z2 z12 in
  let t51 := aes_nohw_xor z2 z5 in
  let t52 := aes_nohw_xor z7 z8 in
  let t53 := aes_nohw_xor z0 z3 in
  let t54 := aes_nohw_xor z6 z7 in
  let t55 := aes_nohw_xor z16 z17 in
  let t56 := aes_nohw_xor z12 t48 in
  let t57 := aes_nohw_xor t50 t53 in
  let t58 := aes_nohw_xor z4 t46 in
  let t59 := aes_nohw_xor z3 t54 in
  let t60 := aes_nohw_xor t46 t57 in
  let t61 := aes_nohw_xor z14 t57 in
  let t62 := aes_nohw_xor t52 t58 in
  let t63 := aes_nohw_xor t49 t58 in
  let t64 := aes_nohw_xor z4 t59 in
  let t65 := aes_nohw_xor t61 t62 in
  let t66 := aes_nohw_xor z1 t63 in
  let s0 := aes_nohw_xor t59 t63 in
  let s6 := aes_nohw_xor t56 (aes_nohw_not t62) in
  let s7 := aes_nohw_xor t48 (aes_nohw_not t60) in
  let t67 := aes_nohw_xor t64 t65 in
  let s3 := aes_nohw_xor t53 t66 in
  let s4 := aes_nohw_xor t51 t66 in
  let s5 := aes_nohw_xor t47 t65 in
  let s1 := aes_nohw_xor t64 (aes_nohw_not s3) in
  let s2 := aes_nohw_xor t55 (aes_nohw_not t67) in
  [s7; s6; s5; s4; s3; s2; s1; s0].

Definition aes_nohw_sub_bytes_inv_affine (batch : AES_NOHW_BATCH) : AES_NOHW_BATCH :=
  let a0 := znth batch 0 in
  let a1 := znth batch 1 in
  let a2 := znth batch 2 in
  let a3 := znth batch 3 in
  let a4 := znth batch 4 in
  let a5 := znth batch 5 in
  let a6 := znth batch 6 in
  let a7 := znth batch 7 in
  let b0 := aes_nohw_xor a2 (aes_nohw_xor a5 a7) in
  let b1 := aes_nohw_xor a3 (aes_nohw_xor a6 a0) in
  let b2 := aes_nohw_xor a4 (aes_nohw_xor a7 a1) in
  let b3 := aes_nohw_xor a5 (aes_nohw_xor a0 a2) in
  let b4 := aes_nohw_xor a6 (aes_nohw_xor a1 a3) in
  let b5 := aes_nohw_xor a7 (aes_nohw_xor a2 a4) in
  let b6 := aes_nohw_xor a0 (aes_nohw_xor a3 a5) in
  let b7 := aes_nohw_xor a1 (aes_nohw_xor a4 a6) in
  [aes_nohw_not b0;
   b1;
   aes_nohw_not b2;
   b3;
   b4;
   b5;
   b6;
   b7].

Definition aes_nohw_inv_sub_bytes (batch : AES_NOHW_BATCH) : AES_NOHW_BATCH :=
  aes_nohw_sub_bytes_inv_affine (aes_nohw_sub_bytes (aes_nohw_sub_bytes_inv_affine batch)).

Definition aes_nohw_rotate_cols_right (v n : aes_word_t) : aes_word_t :=
  aes_nohw_or (aes_nohw_shift_right v (n * 4)) (aes_nohw_shift_left v (16 - n * 4)).

(** The body of the loop. *)
Definition shift_rows_word (w : aes_word_t) : aes_word_t :=
  let row0 := aes_nohw_and w AES_NOHW_ROW0_MASK in
  let row1 := aes_nohw_and w AES_NOHW_ROW1_MASK in
  let row2 := aes_nohw_and w AES_NOHW_ROW2_MASK in
  let row3 := aes_nohw_and w AES_NOHW_ROW3_MASK in
  let row1 := aes_nohw_rotate_cols_right row1 1 in
  let row2 := aes_nohw_rotate_cols_right row2 2 in
  let row3 := aes_nohw_rotate_cols_right row3 3 in
  aes_nohw_or (aes_nohw_or row0 row1) (aes_nohw_or row2 row3).
Definition aes_nohw_shift_rows (batch : AES_NOHW_BATCH) : AES_NOHW_BATCH := (fun i => shift_rows_word (znth batch i)) <$> zseq 8.

Definition inv_shift_rows_word (w : aes_word_t) : aes_word_t :=
  let row0 := aes_nohw_and w AES_NOHW_ROW0_MASK in
  let row1 := aes_nohw_and w AES_NOHW_ROW1_MASK in
  let row2 := aes_nohw_and w AES_NOHW_ROW2_MASK in
  let row3 := aes_nohw_and w AES_NOHW_ROW3_MASK in
  let row1 := aes_nohw_rotate_cols_right row1 3 in
  let row2 := aes_nohw_rotate_cols_right row2 2 in
  let row3 := aes_nohw_rotate_cols_right row3 1 in
  aes_nohw_or (aes_nohw_or row0 row1) (aes_nohw_or row2 row3).
Definition aes_nohw_inv_shift_rows (batch : AES_NOHW_BATCH) : AES_NOHW_BATCH := (fun i => inv_shift_rows_word (znth batch i)) <$> zseq 8.

Definition aes_nohw_rotate_rows_down (v : aes_word_t) : aes_word_t :=
  Z.lor (Z.land (Z.shiftr v 4) 0x0fff0fff0fff0fff) (Z.land (u64 (Z.shiftl v 12)) 0xf000f000f000f000).
Definition aes_nohw_rotate_rows_twice (v : aes_word_t) : aes_word_t :=
  Z.lor (Z.land (Z.shiftr v 8) 0x00ff00ff00ff00ff) (Z.land (u64 (Z.shiftl v 8)) 0xff00ff00ff00ff00).

Definition aes_nohw_mix_columns (batch : AES_NOHW_BATCH) : AES_NOHW_BATCH :=
  let a0 := znth batch 0 in
  let a1 := znth batch 1 in
  let a2 := znth batch 2 in
  let a3 := znth batch 3 in
  let a4 := znth batch 4 in
  let a5 := znth batch 5 in
  let a6 := znth batch 6 in
  let a7 := znth batch 7 in
  let r0 := aes_nohw_rotate_rows_down a0 in
  let a0_r0 := aes_nohw_xor a0 r0 in
  let r1 := aes_nohw_rotate_rows_down a1 in
  let a1_r1 := aes_nohw_xor a1 r1 in
  let r2 := aes_nohw_rotate_rows_down a2 in
  let a2_r2 := aes_nohw_xor a2 r2 in
  let r3 := aes_nohw_rotate_rows_down a3 in
  let a3_r3 := aes_nohw_xor a3 r3 in
  let r4 := aes_nohw_rotate_rows_down a4 in
  let a4_r4 := aes_nohw_xor a4 r4 in
  let r5 := aes_nohw_rotate_rows_down a5 in
  let a5_r5 := aes_nohw_xor a5 r5 in
  let r6 := aes_nohw_rotate_rows_down a6 in
  let a6_r6 := aes_nohw_xor a6 r6 in
  let r7 := aes_nohw_rotate_rows_down a7 in
  let a7_r7 := aes_nohw_xor a7 r7 in
  [aes_nohw_xor (aes_nohw_xor a7_r7 r0) (aes_nohw_rotate_rows_twice a0_r0);
   aes_nohw_xor (aes_nohw_xor a0_r0 a7_r7) (aes_nohw_xor r1 (aes_nohw_rotate_rows_twice a1_r1));
   aes_nohw_xor (aes_nohw_xor a1_r1 r2) (aes_nohw_rotate_rows_twice a2_r2);
   aes_nohw_xor (aes_nohw_xor a2_r2 a7_r7) (aes_nohw_xor r3 (aes_nohw_rotate_rows_twice a3_r3));
   aes_nohw_xor (aes_nohw_xor a3_r3 a7_r7) (aes_nohw_xor r4 (aes_nohw_rotate_rows_twice a4_r4));
   aes_nohw_xor (aes_nohw_xor a4_r4 r5) (aes_nohw_rotate_rows_twice a5_r5);
   aes_nohw_xor (aes_nohw_xor a5_r5 r6) (aes_nohw_rotate_rows_twice a6_r6);
   aes_nohw_xor (aes_nohw_xor a6_r6 r7) (aes_nohw_rotate_rows_twice a7_r7)].

(** First the [5 0 4 0] matrix. *)
Definition inv_mix_even (batch : AES_NOHW_BATCH) : AES_NOHW_BATCH :=
  let a0 := znth batch 0 in
  let a1 := znth batch 1 in
  let a2 := znth batch 2 in
  let a3 := znth batch 3 in
  let a4 := znth batch 4 in
  let a5 := znth batch 5 in
  let a6 := znth batch 6 in
  let a7 := znth batch 7 in
  let a0_r0 := aes_nohw_xor a0 (aes_nohw_rotate_rows_twice a0) in
  let a1_r1 := aes_nohw_xor a1 (aes_nohw_rotate_rows_twice a1) in
  let a2_r2 := aes_nohw_xor a2 (aes_nohw_rotate_rows_twice a2) in
  let a3_r3 := aes_nohw_xor a3 (aes_nohw_rotate_rows_twice a3) in
  let a4_r4 := aes_nohw_xor a4 (aes_nohw_rotate_rows_twice a4) in
  let a5_r5 := aes_nohw_xor a5 (aes_nohw_rotate_rows_twice a5) in
  let a6_r6 := aes_nohw_xor a6 (aes_nohw_rotate_rows_twice a6) in
  let a7_r7 := aes_nohw_xor a7 (aes_nohw_rotate_rows_twice a7) in
  [aes_nohw_xor a0 a6_r6;
   aes_nohw_xor a1 (aes_nohw_xor a6_r6 a7_r7);
   aes_nohw_xor a2 (aes_nohw_xor a0_r0 a7_r7);
   aes_nohw_xor a3 (aes_nohw_xor a1_r1 a6_r6);
   aes_nohw_xor (aes_nohw_xor a4 a2_r2) (aes_nohw_xor a6_r6 a7_r7);
   aes_nohw_xor a5 (aes_nohw_xor a3_r3 a7_r7);
   aes_nohw_xor a6 a4_r4;
   aes_nohw_xor a7 a5_r5].
Definition aes_nohw_inv_mix_columns (batch : AES_NOHW_BATCH) : AES_NOHW_BATCH := aes_nohw_mix_columns (inv_mix_even batch).

(** [for (size_t i = 1; i < num_rounds; i++)]. *)
Definition rounds_up (num_rounds : Z) : list Z := (fun i => i + 1) <$> zseq (num_rounds - 1).

Definition aes_nohw_encrypt_batch (key : AES_NOHW_SCHEDULE) (num_rounds : Z) (batch : AES_NOHW_BATCH) : AES_NOHW_BATCH :=
  let batch := aes_nohw_add_round_key batch (key_batch key 0) in
  let batch := fold_left (fun batch i =>
    let batch := aes_nohw_sub_bytes batch in
    let batch := aes_nohw_shift_rows batch in
    let batch := aes_nohw_mix_columns batch in
    aes_nohw_add_round_key batch (key_batch key i)) (rounds_up num_rounds) batch in
  let batch := aes_nohw_sub_bytes batch in
  let batch := aes_nohw_shift_rows batch in
  aes_nohw_add_round_key batch (key_batch key num_rounds).

Definition aes_nohw_decrypt_batch (key : AES_NOHW_SCHEDULE) (num_rounds : Z) (batch : AES_NOHW_BATCH) : AES_NOHW_BATCH :=
  let batch := aes_nohw_add_round_key batch (key_batch key num_rounds) in
  let batch := aes_nohw_inv_shift_rows batch in
  let batch := aes_nohw_inv_sub_bytes batch in
  let batch := fold_left (fun batch i =>
    let batch := aes_nohw_add_round_key batch (key_batch key i) in
    let batch := aes_nohw_inv_mix_columns batch in
    let batch := aes_nohw_inv_shift_rows batch in
    aes_nohw_inv_sub_bytes batch) (rev (rounds_up num_rounds)) batch in
  aes_nohw_add_round_key batch (key_batch key 0).

(** ** Key schedule *)

(** [aes_key_st]: [rd_key] are 60 words of 32 bits. *)
Record AES_KEY := AesKey { rd_key : list Z; rounds : Z }.

(** [memcpy(key->rd_key + 4 * i, block, 16)] and back. *)
Definition store_block (block : compact) (i : Z) (rd_key : list Z) : list Z :=
  zwrite (4 * i) [u32 (znth block 0); Z.shiftr (znth block 0) 32; u32 (znth block 1); Z.shiftr (znth block 1) 32] rd_key.
Definition load_block (rd_key : list Z) (i : Z) : compact :=
  [Z.lor (znth rd_key (4 * i)) (Z.shiftl (znth rd_key (4 * i + 1)) 32);
   Z.lor (znth rd_key (4 * i + 2)) (Z.shiftl (znth rd_key (4 * i + 3)) 32)].

Definition expand_round_key (tmp : compact) : AES_NOHW_BATCH :=
  aes_nohw_transpose (fold_left (fun batch j => aes_nohw_batch_set batch tmp j) (zseq AES_NOHW_BATCH_SIZE) (replicate 8 0)).
(** The batches that the loop does not fill stay uninitialised, and unused. *)
Definition aes_nohw_expand_round_keys (key : AES_KEY) : AES_NOHW_SCHEDULE :=
  (fun i => expand_round_key (load_block (rd_key key) i)) <$> zseq (rounds key + 1).

Definition aes_nohw_rcon : list Z := [0x01; 0x02; 0x04; 0x08; 0x10; 0x20; 0x40; 0x80; 0x1b; 0x36].
Definition aes_nohw_rcon_slice (rcon i : Z) : aes_word_t :=
  Z.land (Z.shiftr rcon (i * AES_NOHW_BATCH_SIZE)) (Z.shiftl 1 AES_NOHW_BATCH_SIZE - 1).

Definition aes_nohw_sub_block (inp : compact) : compact :=
  let batch := replicate 8 0 in
  let batch := aes_nohw_batch_set batch inp 0 in
  let batch := aes_nohw_transpose batch in
  let batch := aes_nohw_sub_bytes batch in
  let batch := aes_nohw_transpose batch in
  aes_nohw_batch_get batch 0.

(** [for (size_t j = 0; j < AES_NOHW_BLOCK_WORDS; j++)]: the body assigns to word [j] only. *)
Definition per_word (f : Z -> aes_word_t) : compact := f <$> zseq AES_NOHW_BLOCK_WORDS.

(** The propagation of the first word to the others. *)
Definition propagate (v : aes_word_t) : aes_word_t :=
  aes_nohw_xor (aes_nohw_xor (aes_nohw_xor v (aes_nohw_shift_left v 4)) (aes_nohw_shift_left v 8)) (aes_nohw_shift_left v 12).

Definition setup_key_128_step (block : compact) (rcon : Z) : compact :=
  let sub := aes_nohw_sub_block block in
  per_word (fun j =>
    let b := aes_nohw_xor (znth block j) (aes_nohw_rcon_slice rcon j) in
    let b := aes_nohw_xor b (aes_nohw_shift_right (aes_nohw_rotate_rows_down (znth sub j)) 12) in
    propagate b).
Definition aes_nohw_setup_key_128 (key : AES_KEY) (inp : list Z) : AES_KEY :=
  let block := aes_nohw_compact_block inp in
  let rd := store_block block 0 (rd_key key) in
  let '(_, rd) := fold_left (fun '(block, rd) i =>
      let block := setup_key_128_step block (znth aes_nohw_rcon (i - 1)) in
      (block, store_block block i rd)) (rounds_up 11) (block, rd) in
  AesKey rd 10.

(** One iteration of the loop for 192-bit keys. First the rest of [block2], and [block1]. *)
Definition setup_key_192_step1 (block1 block2 : compact) (rcon : Z) : compact * compact :=
  let sub := aes_nohw_sub_block block2 in
  let both j :=
    let b2 := aes_nohw_or (znth block2 j) (aes_nohw_shift_left (aes_nohw_xor (znth block1 j) (aes_nohw_rcon_slice rcon j)) 8) in
    let b2 := aes_nohw_xor b2 (aes_nohw_and (aes_nohw_shift_left (aes_nohw_rotate_rows_down (znth sub j)) 4) AES_NOHW_COL2_MASK) in
    let b2 := aes_nohw_xor b2 (aes_nohw_and (aes_nohw_shift_left b2 4) AES_NOHW_COL3_MASK) in
    let b1 := aes_nohw_shift_right (znth block1 j) 8 in
    let b1 := aes_nohw_or b1 (aes_nohw_shift_left b2 8) in
    let b1 := aes_nohw_xor b1 (aes_nohw_shift_right b2 12) in
    (propagate b1, b2) in
  (per_word (fun j => fst (both j)), per_word (fun j => snd (both j))).
(** Then the next [block2], and the first half of the next [block1]. *)
Definition setup_key_192_step2 (block1 block2 : compact) (rcon : Z) : compact * compact :=
  let sub := aes_nohw_sub_block block1 in
  let both j :=
    let b2 := aes_nohw_shift_right (znth block2 j) 8 in
    let b2 := aes_nohw_or b2 (aes_nohw_shift_left (znth block1 j) 8) in
    let b2 := aes_nohw_xor b2 (aes_nohw_rcon_slice rcon j) in
    let b2 := aes_nohw_xor b2 (aes_nohw_shift_right (aes_nohw_rotate_rows_down (znth sub j)) 12) in
    let b2 := propagate b2 in
    let b1 := aes_nohw_shift_right (znth block1 j) 8 in
    let b1 := aes_nohw_xor b1 (aes_nohw_shift_right b2 12) in
    let b1 := aes_nohw_xor b1 (aes_nohw_shift_left b1 4) in
    (aes_nohw_and b1 AES_NOHW_COL01_MASK, b2) in
  (per_word (fun j => fst (both j)), per_word (fun j => snd (both j))).
Definition aes_nohw_setup_key_192 (key : AES_KEY) (inp : list Z) : AES_KEY :=
  let block1 := aes_nohw_compact_block inp in
  let rd := store_block block1 0 (rd_key key) in
  let half_block := ztake 8 (zdrop 16 inp) ++ replicate 8 0 in
  let block2 := aes_nohw_compact_block half_block in
  let '(_, _, rd) := fold_left (fun '(block1, block2, rd) i =>
      let '(block1, block2) := setup_key_192_step1 block1 block2 (znth aes_nohw_rcon (2 * i)) in
      let rd := store_block block2 (3 * i + 1) rd in
      let rd := store_block block1 (3 * i + 2) rd in
      let '(block1, block2) := setup_key_192_step2 block1 block2 (znth aes_nohw_rcon (2 * i + 1)) in
      let rd := store_block block2 (3 * i + 3) rd in
      (block2, block1, rd)) (zseq 4) (block1, block2, rd) in
  AesKey rd 12.

(** The second half of an iteration for 256-bit keys. *)
Definition setup_key_256_step2 (block1 block2 : compact) : compact :=
  let sub := aes_nohw_sub_block block1 in
  per_word (fun j => propagate (aes_nohw_xor (znth block2 j) (aes_nohw_shift_right (znth sub j) 12))).
(** The first half is that of 128-bit keys, with the substitution of the other block. *)
Definition setup_key_256_step1 (block1 block2 : compact) (rcon : Z) : compact :=
  let sub := aes_nohw_sub_block block2 in
  per_word (fun j =>
    let b := aes_nohw_xor (znth block1 j) (aes_nohw_rcon_slice rcon j) in
    let b := aes_nohw_xor b (aes_nohw_shift_right (aes_nohw_rotate_rows_down (znth sub j)) 12) in
    propagate b).
Definition aes_nohw_setup_key_256 (key : AES_KEY) (inp : list Z) : AES_KEY :=
  let block1 := aes_nohw_compact_block inp in
  let rd := store_block block1 0 (rd_key key) in
  let block2 := aes_nohw_compact_block (zdrop 16 inp) in
  let rd := store_block block2 1 rd in
  let '(_, _, rd) := fold_left (fun '(block1, block2, rd) i =>
      let block1 := setup_key_256_step1 block1 block2 (znth aes_nohw_rcon (i / 2 - 1)) in
      let rd := store_block block1 i rd in
      if i =? 14 then (block1, block2, rd)
      else
        let block2 := setup_key_256_step2 block1 block2 in
        (block1, block2, store_block block2 (i + 1) rd)) [2; 4; 6; 8; 10; 12; 14] (block1, block2, rd) in
  AesKey rd 14.

(** ** External functions: the result and [aeskey] *)

Definition aes_nohw_set_encrypt_key (key : list Z) (bits : Z) (aeskey : AES_KEY) : Z * AES_KEY :=
  if bits =? 128 then (0, aes_nohw_setup_key_128 aeskey key)
  else if bits =? 192 then (0, aes_nohw_setup_key_192 aeskey key)
  else if bits =? 256 then (0, aes_nohw_setup_key_256 aeskey key)
  else (1, aeskey).
Definition aes_nohw_set_decrypt_key (key : list Z) (bits : Z) (aeskey : AES_KEY) : Z * AES_KEY :=
  aes_nohw_set_encrypt_key key bits aeskey.

Definition aes_nohw_encrypt (inp : list Z) (key : AES_KEY) : list Z :=
  let sched := aes_nohw_expand_round_keys key in
  let batch := aes_nohw_to_batch inp 1 in
  let batch := aes_nohw_encrypt_batch sched (rounds key) batch in
  aes_nohw_from_batch 1 batch.
Definition aes_nohw_decrypt (inp : list Z) (key : AES_KEY) : list Z :=
  let sched := aes_nohw_expand_round_keys key in
  let batch := aes_nohw_to_batch inp 1 in
  let batch := aes_nohw_decrypt_batch sched (rounds key) batch in
  aes_nohw_from_batch 1 batch.

(** aes.c, where the two other implementations are compiled out. *)
Definition AES_encrypt (inp : list Z) (key : AES_KEY) : list Z := aes_nohw_encrypt inp key.
Definition AES_decrypt (inp : list Z) (key : AES_KEY) : list Z := aes_nohw_decrypt inp key.
Definition AES_set_encrypt_key (key : list Z) (bits : Z) (aeskey : AES_KEY) : Z * AES_KEY :=
  if negb (bits =? 128) && negb (bits =? 192) && negb (bits =? 256) then (-2, aeskey)
  else aes_nohw_set_encrypt_key key bits aeskey.
Definition AES_set_decrypt_key (key : list Z) (bits : Z) (aeskey : AES_KEY) : Z * AES_KEY :=
  if negb (bits =? 128) && negb (bits =? 192) && negb (bits =? 256) then (-2, aeskey)
  else aes_nohw_set_decrypt_key key bits aeskey.

(** ** Many blocks: counter mode and cipher block chaining, four blocks at a time *)

(** [aes_nohw_xor_block]: the 16 bytes of [out], a word at a time. *)
Definition aes_nohw_xor_block (a b : list Z) : list Z :=
  concat ((fun i => le_bytes 8 (aes_nohw_xor (le_val (ztake 8 (zdrop (8 * i) a))) (le_val (ztake 8 (zdrop (8 * i) b))))) <$> zseq 2).
(** Block [i] of a buffer. *)
Definition block_at (buf : list Z) (i : Z) : list Z := ztake 16 (zdrop (16 * i) buf).

(** The loop [for (;;)]; [ivs] are the four counter blocks and [inp] starts at [in].
    The result is what is written to [out], which may be [in]. *)
Fixpoint ctr32_loop (sched : AES_NOHW_SCHEDULE) (rounds : Z) (fuel : nat) (inp : list Z) (blocks : Z) (ivs : list Z) (ctr : Z) : list Z :=
  match fuel with
  | O => []
  | S fuel' =>
      let ivs := fold_left (fun ivs i => zwrite (4 * (4 * i + 3)) (le_bytes 4 (CRYPTO_bswap4 (u32 (ctr + i)))) ivs) (zseq AES_NOHW_BATCH_SIZE) ivs in
      let todo := if blocks >=? AES_NOHW_BATCH_SIZE then AES_NOHW_BATCH_SIZE else blocks in
      let batch := aes_nohw_to_batch ivs todo in
      let batch := aes_nohw_encrypt_batch sched rounds batch in
      let enc_ivs := aes_nohw_from_batch todo batch in
      let out := concat ((fun i => aes_nohw_xor_block (block_at inp i) (block_at enc_ivs i)) <$> zseq todo) in
      let blocks := blocks - todo in
      if blocks =? 0 then out
      else out ++ ctr32_loop sched rounds fuel' (zdrop (16 * AES_NOHW_BATCH_SIZE) inp) blocks ivs (u32 (ctr + AES_NOHW_BATCH_SIZE))
  end.
Definition aes_nohw_ctr32_encrypt_blocks (inp : list Z) (blocks : Z) (key : AES_KEY) (ivec : list Z) : list Z :=
  if blocks =? 0 then []
  else
    let sched := aes_nohw_expand_round_keys key in
    let ivs := concat (replicate (Z.to_nat AES_NOHW_BATCH_SIZE) (ztake 16 ivec)) in
    let ctr := CRYPTO_bswap4 (le_val (ztake 4 (zdrop (4 * 3) ivs))) in
    ctr32_loop sched (rounds key) (Z.to_nat blocks) inp blocks ivs ctr.

(** [while (blocks > 0)]: the output and [iv]. *)
Fixpoint cbc_encrypt_loop (sched : AES_NOHW_SCHEDULE) (rounds : Z) (blocks : nat) (inp iv : list Z) : list Z * list Z :=
  match blocks with
  | O => ([], iv)
  | S blocks' =>
      let iv := aes_nohw_xor_block iv (block_at inp 0) in
      let batch := aes_nohw_to_batch iv 1 in
      let batch := aes_nohw_encrypt_batch sched rounds batch in
      let out := aes_nohw_from_batch 1 batch in
      let '(out', iv') := cbc_encrypt_loop sched rounds blocks' (zdrop 16 inp) out in
      (out ++ out', iv')
  end.
Fixpoint cbc_decrypt_loop (sched : AES_NOHW_SCHEDULE) (rounds : Z) (fuel : nat) (inp : list Z) (blocks : Z) (iv : list Z) : list Z * list Z :=
  match fuel with
  | O => ([], iv)
  | S fuel' =>
      let todo := if blocks >=? AES_NOHW_BATCH_SIZE then AES_NOHW_BATCH_SIZE else blocks in
      let copy := ztake (todo * 16) inp in
      let batch := aes_nohw_to_batch inp todo in
      let batch := aes_nohw_decrypt_batch sched rounds batch in
      let out := aes_nohw_from_batch todo batch in
      let out := zwrite 0 (aes_nohw_xor_block (block_at out 0) iv) out in
      let out := fold_left (fun out i => zwrite (16 * i) (aes_nohw_xor_block (block_at out i) (block_at copy (i - 1))) out) (rounds_up todo) out in
      let iv := block_at copy (todo - 1) in
      let blocks := blocks - todo in
      if blocks =? 0 then (out, iv)
      else
        let '(out', iv') := cbc_decrypt_loop sched rounds fuel' (zdrop (16 * AES_NOHW_BATCH_SIZE) inp) blocks iv in
        (out ++ out', iv')
  end.
(** The output and [ivec]; [len] is a multiple of 16. *)
Definition aes_nohw_cbc_encrypt (inp : list Z) (len : Z) (key : AES_KEY) (ivec : list Z) (enc : Z) : list Z * list Z :=
  let blocks := len / 16 in
  if blocks =? 0 then ([], ivec)
  else
    let sched := aes_nohw_expand_round_keys key in
    let iv := ztake 16 ivec in
    if negb (enc =? 0) then cbc_encrypt_loop sched (rounds key) (Z.to_nat blocks) inp iv
    else cbc_decrypt_loop sched (rounds key) (Z.to_nat blocks) inp blocks iv.

(** ** mode_wrappers.c *)

Definition AES_ENCRYPT : Z := 1.
Definition AES_DECRYPT : Z := 0.
Definition AES_ctr128_encrypt (inp : list Z) (key : AES_KEY) (ivec ecount_buf : list Z) (num : Z) : list Z * (list Z * list Z * Z) :=
  CRYPTO_ctr128_encrypt_ctr32 (fun inp blocks ivec => aes_nohw_ctr32_encrypt_blocks inp blocks key ivec) inp ivec ecount_buf num.
Definition AES_ecb_encrypt (inp : list Z) (key : AES_KEY) (enc : Z) : list Z :=
  if AES_ENCRYPT =? enc then AES_encrypt inp key else AES_decrypt inp key.
Definition AES_cbc_encrypt (inp : list Z) (len : Z) (key : AES_KEY) (ivec : list Z) (enc : Z) : list Z * list Z :=
  aes_nohw_cbc_encrypt inp len key ivec enc.
(** [*num] is an [int] here and [unsigned] in the modes. *)
Definition AES_ofb128_encrypt (inp : list Z) (key : AES_KEY) (ivec : list Z) (num : Z) : list Z * (list Z * Z) :=
  let '(out, (ivec, num_u)) := CRYPTO_ofb128_encrypt (fun x => AES_encrypt x key) inp ivec (u32 num) in
  (out, (ivec, s32 num_u)).
Definition AES_cfb128_encrypt (inp : list Z) (key : AES_KEY) (ivec : list Z) (num enc : Z) : list Z * (list Z * Z) :=
  let '(out, (ivec, num_u)) := CRYPTO_cfb128_encrypt (fun x => AES_encrypt x key) (negb (enc =? 0)) inp ivec (u32 num) in
  (out, (ivec, s32 num_u)).
