(* ===== verification/Linear.v ===== *)
(** * Linear functions of machine words.

    Many steps of bitsliced code only move bits around and add them up: words
    under xor, masks and shifts. [sources] computes which bits of the variables
    make up a bit of such an expression, so that a claim about all bits becomes an
    evaluation. *)

From S2P Require Import Prelude.

(** A 64-bit word. *)
Definition word64 (w : Z) : Prop := 0 <= w < 2 ^ 64.

Inductive wexp :=
  | WVar (n : Z)
  | WXor (a b : wexp)
  | WOr (a b : wexp)
  | WAnd (a : wexp) (mask : Z)
  | WShl (a : wexp) (n : Z)
  | WShr (a : wexp) (n : Z).

(** The variables are the words of a list. *)
Fixpoint weval (env : list Z) (e : wexp) : Z :=
  match e with
  | WVar n => znth env n
  | WXor a b => Z.lxor (weval env a) (weval env b)
  | WOr a b => Z.lor (weval env a) (weval env b)
  | WAnd a mask => Z.land (weval env a) mask
  | WShl a n => u64 (Z.shiftl (weval env a) n)
  | WShr a n => Z.shiftr (weval env a) n
  end.

(** In comparing an evaluation with the word that it stands for, it is unfolded
    first, and the operations on integers not at all. *)
#[global] Strategy expand [weval].

(** No shift is negative. *)
Fixpoint wexp_ok (e : wexp) : bool :=
  match e with
  | WVar _ => true
  | WXor a b | WOr a b => wexp_ok a && wexp_ok b
  | WAnd a _ => wexp_ok a
  | WShl a n | WShr a n => (0 <=? n) && wexp_ok a
  end.

(** Bit [i] of [e] is the sum of the bits in the list. An or is a sum when one
    side is 0. *)
Fixpoint sources (e : wexp) (i : Z) : option (list (Z * Z)) :=
  match e with
  | WVar n => Some [(n, i)]
  | WXor a b => match sources a i, sources b i with Some l, Some l' => Some (l ++ l') | _, _ => None end
  | WOr a b =>
      match sources a i, sources b i with
      | Some [], Some l => Some l
      | Some l, Some [] => Some l
      | _, _ => None
      end
  | WAnd a mask => if Z.testbit mask i then sources a i else Some []
  | WShl a n => if i <? n then Some [] else sources a (i - n)
  | WShr a n => if i + n <? 64 then sources a (i + n) else Some []
  end.

Fixpoint xor_bits (env : list Z) (l : list (Z * Z)) : bool :=
  match l with
  | [] => false
  | (n, j) :: l => xorb (Z.testbit (znth env n) j) (xor_bits env l)
  end.

Lemma xor_bits_app env l1 l2 : xor_bits env (l1 ++ l2) = xorb (xor_bits env l1) (xor_bits env l2).
Proof.
  induction l1 as [|[n j] l1 IH]; cbn [app xor_bits]; [by destruct (xor_bits env l2)|]. rewrite IH. symmetry. apply xorb_assoc.
Qed.

#[export] Instance xor_bits_proper env : Proper (Permutation ==> eq) (xor_bits env).
Proof.
  intros l1 l2 H. induction H as [|[n j] l1 l2 _ IH|[n j] [n' j'] l|]; cbn [xor_bits]; [done|by rewrite IH| |congruence].
  by destruct (Z.testbit _ j), (Z.testbit _ j'), (xor_bits env l).
Qed.

(** ** Bits of words *)

Lemma word64_high w i : word64 w -> 64 <= i -> Z.testbit w i = false.
Proof. intros Hw Hi. rewrite <- (Z.mod_small w (2 ^ 64)) by exact Hw. apply Z.mod_pow2_bits_high. lia. Qed.
Lemma word64_of_bits w : 0 <= w -> (forall i, 64 <= i -> Z.testbit w i = false) -> word64 w.
Proof.
  intros H0 H. assert (E : w = w mod 2 ^ 64).
  { apply Z.bits_inj'. intros i Hi. destruct (Z.lt_ge_cases i 64); [by rewrite Z.mod_pow2_bits_low by lia|].
    rewrite Z.mod_pow2_bits_high by lia. by apply H. }
  rewrite E. apply Z.mod_pos_bound. lia.
Qed.
Lemma word64_eq w w' : word64 w -> word64 w' -> (forall i, 0 <= i < 64 -> Z.testbit w i = Z.testbit w' i) -> w = w'.
Proof. intros Hw Hw' H. apply Z.bits_inj'. intros i Hi. destruct (Z.lt_ge_cases i 64); [by apply H|]. by rewrite !word64_high. Qed.

Lemma word64_0 : word64 0.
Proof. unfold word64. lia. Qed.
Lemma word64_u64 x : word64 (u64 x).
Proof. apply u64_range. Qed.
Lemma word64_lxor a b : word64 a -> word64 b -> word64 (Z.lxor a b).
Proof. apply (lxor_range 64). lia. Qed.
Lemma word64_lor a b : word64 a -> word64 b -> word64 (Z.lor a b).
Proof. apply (lor_range 64). lia. Qed.
Lemma word64_land a b : word64 a -> word64 (Z.land a b).
Proof. intros Ha. pose proof (land_range_l a b (proj1 Ha)). unfold word64 in *. lia. Qed.
Lemma word64_shiftr a n : 0 <= n -> word64 a -> word64 (Z.shiftr a n).
Proof.
  intros Hn Ha. apply word64_of_bits; [apply Z.shiftr_nonneg, Ha|]. intros i Hi. rewrite Z.shiftr_spec by lia. apply word64_high; [done|lia].
Qed.
Lemma word64_znth env n : Forall word64 env -> word64 (znth env n).
Proof.
  intros He. unfold znth. destruct (nth_in_or_default (Z.to_nat n) env 0) as [Hi|E]; [|rewrite E; apply word64_0].
  rewrite Forall_forall in He. apply He, list_elem_of_In. done.
Qed.
#[export] Hint Resolve word64_0 word64_u64 word64_lxor word64_lor word64_land word64_znth : word64.

Lemma testbit_u64 x i : 0 <= i < 64 -> Z.testbit (u64 x) i = Z.testbit x i.
Proof. intros Hi. apply Z.mod_pow2_bits_low. lia. Qed.

(** ** [sources] is right *)

Lemma weval_word64 env e : Forall word64 env -> wexp_ok e = true -> word64 (weval env e).
Proof.
  intros He. induction e; cbn [wexp_ok weval]; intros H; bool_hyps; auto with word64. apply word64_shiftr; auto.
Qed.

Lemma sources_sound env e : Forall word64 env -> wexp_ok e = true -> forall i l, 0 <= i < 64 -> sources e i = Some l ->
  Z.testbit (weval env e) i = xor_bits env l.
Proof.
  intros He. induction e as [n|a IHa b IHb|a IHa b IHb|a IHa mask|a IHa n|a IHa n]; intros Hok i l Hi H; cbn [sources weval wexp_ok] in *; bool_hyps.
  - injection H as <-. cbn. by destruct (Z.testbit _ _).
  - destruct (sources a i) eqn:Ea, (sources b i) eqn:Eb; simp_eq. rewrite Z.lxor_spec, xor_bits_app. by erewrite IHa, IHb.
  - rewrite Z.lor_spec. destruct (sources a i) as [la|] eqn:Ea; [|done]. destruct (sources b i) as [lb|] eqn:Eb; [|by destruct la].
    rewrite (IHa ltac:(done) i la), (IHb ltac:(done) i lb) by done. destruct la; [by simp_eq|]. destruct lb; simp_eq. apply orb_false_r.
  - rewrite Z.land_spec. destruct (Z.testbit mask i); [rewrite andb_true_r; by apply IHa|]. simp_eq. apply andb_false_r.
  - rewrite testbit_u64, Z.shiftl_spec by lia.
    destruct (Z.ltb_spec i n); [simp_eq; by rewrite Z.testbit_neg_r by lia|]. apply IHa; [done|lia|done].
  - rewrite Z.shiftr_spec by lia. destruct (Z.ltb_spec (i + n) 64); [apply IHa; [done|lia|done]|]. simp_eq.
    apply word64_high; [by apply weval_word64|lia].
Qed.

(** ** Checking all bits at once *)

(** A bit that is added twice is gone. *)
Fixpoint toggle (x : Z * Z) (l : list (Z * Z)) : list (Z * Z) :=
  match l with
  | [] => [x]
  | y :: l => if bool_decide (x = y) then l else y :: toggle x l
  end.
Definition cancel (l : list (Z * Z)) : list (Z * Z) := foldr toggle [] l.

Lemma xor_toggle env n j l : xor_bits env (toggle (n, j) l) = xorb (Z.testbit (znth env n) j) (xor_bits env l).
Proof.
  induction l as [|[n' j'] l IH]; [done|]. cbn [toggle xor_bits]. case_bool_decide as E.
  - injection E as <- <-. by rewrite <- xorb_assoc, xorb_nilpotent, xorb_false_l.
  - cbn [xor_bits]. rewrite IH, <- !xorb_assoc. f_equal. apply xorb_comm.
Qed.
Lemma xor_cancel env l : xor_bits env (cancel l) = xor_bits env l.
Proof. induction l as [|[n j] l IH]; [done|]. cbn [cancel foldr xor_bits]. rewrite xor_toggle. f_equal. exact IH. Qed.

(** Every bit of [e] has the sources that [want] lists, in some order. *)
Definition sources_are (e : wexp) (want : Z -> list (Z * Z)) : bool :=
  wexp_ok e && forallb (fun i => match sources e i with Some l => bool_decide (cancel l ≡ₚ want i) | None => false end) (zseq 64).

Lemma elem_of_zseq n i : i ∈ zseq n <-> 0 <= i < n.
Proof.
  unfold zseq. rewrite list_elem_of_fmap. split.
  - intros (k & -> & Hk). apply elem_of_seq in Hk. lia.
  - intros Hi. exists (Z.to_nat i). split; [lia|]. apply elem_of_seq. lia.
Qed.
Lemma forallb_zseq (P : Z -> bool) n : forallb P (zseq n) = true -> forall i, 0 <= i < n -> P i = true.
Proof. intros H i Hi. rewrite forallb_forall in H. apply H, list_elem_of_In, elem_of_zseq. done. Qed.

Lemma sources_are_sound env e want : Forall word64 env -> sources_are e want = true ->
  word64 (weval env e) /\ forall i, 0 <= i < 64 -> Z.testbit (weval env e) i = xor_bits env (want i).
Proof.
  intros He H. apply andb_prop in H as [Hok H]. split; [by apply weval_word64|]. intros i Hi.
  pose proof (forallb_zseq _ _ H i Hi) as Hs. cbn in Hs. destruct (sources e i) as [l|] eqn:E; [|done].
  apply bool_decide_eq_true in Hs. rewrite <- Hs, xor_cancel. by apply sources_sound.
Qed.

(** ** Reading an expression back from a term over the words of a list *)

(** A variable under another name, to unfold [znth] around it. *)
Definition word_var (env : list Z) (n : Z) : Z := znth env n.

Ltac reify env t :=
  lazymatch t with
  | Z.lxor ?a ?b => let a := reify env a in let b := reify env b in constr:(WXor a b)
  | Z.lor ?a ?b => let a := reify env a in let b := reify env b in constr:(WOr a b)
  | Z.land ?a ?m => let a := reify env a in constr:(WAnd a m)
  | u64 (Z.shiftl ?a ?n) => let a := reify env a in constr:(WShl a n)
  | Z.shiftr ?a ?n => let a := reify env a in constr:(WShr a n)
  | znth env ?n => constr:(WVar n)
  | word_var env ?n => constr:(WVar n)
  end.
