(* ===== verification/Clmul.v ===== *)
(** * Polynomials over the field of two elements.

    A polynomial is the integer whose bit [i] is the coefficient of x^i. [clmul] is
    the product, without carries; [spaced_product] says when the product of integers
    contains it. *)

From S2P Require Import Prelude Linear.

(** ** The product *)

Fixpoint clmul (n : nat) (a b : Z) : Z :=
  match n with
  | O => 0
  | S n' => Z.lxor (if Z.odd a then b else 0) (clmul n' (a / 2) (2 * b))
  end.

Lemma odd_lxor a b : Z.odd (Z.lxor a b) = xorb (Z.odd a) (Z.odd b).
Proof. rewrite <- !Z.bit0_odd. apply Z.lxor_spec. Qed.
Lemma div2_lxor a b : Z.lxor a b / 2 = Z.lxor (a / 2) (b / 2).
Proof. change 2 with (2 ^ 1). rewrite <- !Z.shiftr_div_pow2 by lia. apply Z.shiftr_lxor. Qed.
Lemma double_lxor a b : 2 * Z.lxor a b = Z.lxor (2 * a) (2 * b).
Proof. rewrite !(Z.mul_comm 2). change 2 with (2 ^ 1). rewrite <- !Z.shiftl_mul_pow2 by lia. apply Z.shiftl_lxor. Qed.

Lemma clmul_lxor_l n : forall a a' b, clmul n (Z.lxor a a') b = Z.lxor (clmul n a b) (clmul n a' b).
Proof.
  induction n as [|n IH]; intros a a' b; [done|]. cbn [clmul]. rewrite odd_lxor, div2_lxor, IH.
  destruct (Z.odd a), (Z.odd a'); cbn [xorb]; apply Z.bits_inj'; intros i _; rewrite !Z.lxor_spec, ?Z.bits_0; ring.
Qed.
Lemma clmul_lxor_r n : forall a b b', clmul n a (Z.lxor b b') = Z.lxor (clmul n a b) (clmul n a b').
Proof.
  induction n as [|n IH]; intros a b b'; [done|]. cbn [clmul]. rewrite double_lxor, IH.
  destruct (Z.odd a); apply Z.bits_inj'; intros i _; rewrite !Z.lxor_spec, ?Z.bits_0; ring.
Qed.
Lemma clmul_0_l n : forall b, clmul n 0 b = 0.
Proof. induction n as [|n IH]; intros b; [done|]. cbn [clmul]. change (0 / 2) with 0. by rewrite IH. Qed.
Lemma clmul_0_r n : forall a, clmul n a 0 = 0.
Proof. induction n as [|n IH]; intros a; [done|]. cbn [clmul]. change (2 * 0) with 0. rewrite IH. by destruct (Z.odd a). Qed.

Lemma clmul_double_r n : forall a b, clmul n a (2 * b) = 2 * clmul n a b.
Proof.
  induction n as [|n IH]; intros a b; [done|]. cbn [clmul]. rewrite IH, double_lxor. by destruct (Z.odd a).
Qed.
Lemma clmul_shiftl_r n a b k : 0 <= k -> clmul n a (Z.shiftl b k) = Z.shiftl (clmul n a b) k.
Proof.
  intros Hk. pattern k. apply natlike_ind; [by rewrite !Z.shiftl_0_r| |exact Hk]. clear k Hk. intros k Hk IH.
  rewrite !Z.shiftl_mul_pow2, Z.pow_succ_r in * by lia.
  replace (b * (2 * 2 ^ k)) with (2 * (b * 2 ^ k)) by lia. rewrite clmul_double_r, IH. lia.
Qed.
Lemma clmul_even_l n a b : clmul (S n) (2 * a) b = 2 * clmul n a b.
Proof.
  cbn [clmul]. rewrite Z.odd_mul. cbn [Z.odd andb]. rewrite Z.lxor_0_l, (Z.mul_comm 2 a), Z.div_mul by lia. apply clmul_double_r.
Qed.
(** More steps than [a] has bits do not matter. *)
Lemma clmul_enough m n : forall a b, (n <= m)%nat -> 0 <= a < 2 ^ Z.of_nat n -> clmul m a b = clmul n a b.
Proof.
  revert m. induction n as [|n IH]; intros m a b Hm Ha.
  - assert (a = 0) as -> by (change (2 ^ Z.of_nat 0) with 1 in Ha; lia). apply clmul_0_l.
  - destruct m as [|m]; [lia|]. cbn [clmul]. f_equal. apply IH; [lia|]. rewrite Nat2Z.inj_succ, Z.pow_succ_r in Ha by lia. zarith.
Qed.
Lemma clmul_pow2 n p b : 0 <= p < Z.of_nat n -> clmul n (2 ^ p) b = Z.shiftl b p.
Proof.
  revert p. induction n as [|n IH]; intros p Hp; [lia|]. destruct (Z.eq_dec p 0) as [->|].
  - cbn [clmul]. change (2 ^ 0) with 1. cbn [Z.odd]. change (1 / 2) with 0. by rewrite clmul_0_l, Z.lxor_0_r, Z.shiftl_0_r.
  - replace (2 ^ p) with (2 * 2 ^ (p - 1)) by (rewrite <- Z.pow_succ_r by lia; f_equal; lia).
    rewrite clmul_even_l, IH, !Z.shiftl_mul_pow2 by lia. replace p with (Z.succ (p - 1)) at 2 by lia. rewrite Z.pow_succ_r by lia. lia.
Qed.
Lemma clmul_range n : forall m a b, 0 <= b < 2 ^ Z.of_nat m -> 0 <= clmul n a b < 2 ^ Z.of_nat (n + m).
Proof.
  induction n as [|n IH]; intros m a b Hb; cbn [clmul]; [split; [lia|]; apply Z.pow_pos_nonneg; lia|].
  apply (lxor_range (Z.of_nat (S n + m))); [lia| |].
  - destruct (Z.odd a); [|split; [lia|apply Z.pow_pos_nonneg; lia]]. split; [lia|]. apply (Z.lt_le_trans _ (2 ^ Z.of_nat m)); [lia|]. apply Z.pow_le_mono_r; lia.
  - replace (S n + m)%nat with (n + S m)%nat by lia. apply IH. rewrite Nat2Z.inj_succ, Z.pow_succ_r by lia. lia.
Qed.

(** ** Products of integers with holes between the bits

    When the bits of both factors are four apart, the product of the integers adds up
    at most as many ones as the first factor has, in digits to the base 16: with 15 of
    them no digit overflows, and its lowest bit is the bit of [clmul]. *)

Definition digit (x k : Z) : Z := (x / 16 ^ k) mod 16.
Definition spaced (x : Z) : Prop := 0 <= x /\ forall i, 0 <= i -> i mod 4 <> 0 -> Z.testbit x i = false.

Lemma pow16 k : 0 <= k -> 16 ^ k = 2 ^ (4 * k).
Proof. intros Hk. change 16 with (2 ^ 4). by rewrite <- Z.pow_mul_r by lia. Qed.
Lemma odd_digit x k : 0 <= k -> Z.odd (digit x k) = Z.testbit x (4 * k).
Proof.
  intros Hk. unfold digit. rewrite <- Z.bit0_odd, pow16 by done. change 16 with (2 ^ 4).
  rewrite Z.mod_pow2_bits_low, Z.div_pow2_bits by lia. f_equal.
Qed.
Lemma digit_spaced x k : spaced x -> 0 <= k -> digit x k = Z.b2z (Z.testbit x (4 * k)).
Proof.
  intros [_ H] Hk. unfold digit. rewrite pow16 by done. change 16 with (2 ^ 4). apply Z.bits_inj'. intros i Hi.
  destruct (Z.lt_ge_cases i 4).
  - rewrite Z.mod_pow2_bits_low, Z.div_pow2_bits by lia. destruct (Z.eq_dec i 0) as [->|].
    + rewrite Z.add_0_l. by destruct (Z.testbit x (4 * k)).
    + rewrite H by zarith. destruct (Z.testbit x (4 * k)); [|by rewrite Z.bits_0]. change (Z.b2z true) with (2 ^ 0). by rewrite Z.pow2_bits_false by lia.
  - rewrite Z.mod_pow2_bits_high by lia. destruct (Z.testbit x (4 * k)); [|by rewrite Z.bits_0]. change (Z.b2z true) with (2 ^ 0). by rewrite Z.pow2_bits_false by lia.
Qed.

(** Without overflow, digits add up. *)
Lemma digit_add x y k : 0 <= k -> (forall j, 0 <= j < k -> digit x j + digit y j < 16) ->
  (x + y) / 16 ^ k = x / 16 ^ k + y / 16 ^ k.
Proof.
  intros Hk. pattern k. apply natlike_ind; [|clear k Hk|exact Hk].
  - intros _. change (16 ^ 0) with 1. by rewrite !Z.div_1_r.
  - intros k Hk IH H. rewrite Z.pow_succ_r, (Z.mul_comm 16), <- !Z.div_div, IH by (lia || (intros j Hj; apply H; lia)).
    specialize (H k ltac:(lia)). unfold digit in H. zarith.
Qed.

(** The number of ones among the lowest bits of [n] digits. *)
Fixpoint ones (n : nat) (a : Z) : Z :=
  match n with
  | O => 0
  | S n' => Z.b2z (Z.odd a) + ones n' (a / 16)
  end.
Lemma ones_range n a : 0 <= ones n a <= Z.of_nat n.
Proof. revert a. induction n as [|n IH]; intros a; cbn [ones]; [lia|]. specialize (IH (a / 16)). destruct (Z.odd a); cbn [Z.b2z]; lia. Qed.

Lemma spaced_div16 a : spaced a -> spaced (a / 16).
Proof.
  intros [H0 H]. split; [zarith|]. intros i Hi Hm. change 16 with (2 ^ 4). rewrite Z.div_pow2_bits by lia. apply H; [lia|zarith].
Qed.
Lemma spaced_mul16 b : spaced b -> spaced (16 * b).
Proof.
  intros [H0 H]. split; [lia|]. intros i Hi Hm. rewrite Z.mul_comm. change 16 with (2 ^ 4).
  destruct (Z.lt_ge_cases i 4); [by rewrite Z.mul_pow2_bits_low by lia|]. rewrite Z.mul_pow2_bits by lia. apply H; [lia|zarith].
Qed.
Lemma spaced_lxor x y : spaced x -> spaced y -> spaced (Z.lxor x y).
Proof. intros [Hx0 Hx] [Hy0 Hy]. split; [by apply Z.lxor_nonneg|]. intros i Hi Hm. by rewrite Z.lxor_spec, Hx, Hy. Qed.
Lemma spaced_if (b : bool) x : spaced x -> spaced (if b then x else 0).
Proof. intros H. destruct b; [done|]. split; [lia|]. intros i _ _. apply Z.bits_0. Qed.
(** A number with bits four apart is its lowest bit and the rest. *)
Lemma spaced_split a : spaced a -> a = Z.b2z (Z.odd a) + 16 * (a / 16).
Proof.
  intros Ha. pose proof (digit_spaced a 0 Ha ltac:(lia)) as H. unfold digit in H. change (16 ^ 0) with 1 in H. rewrite Z.div_1_r in H.
  change (4 * 0) with 0 in H. rewrite Z.bit0_odd in H. zarith.
Qed.
Lemma clmul_spaced_step n a b : spaced a -> clmul (4 * S n) a b = Z.lxor (if Z.odd a then b else 0) (clmul (4 * n) (a / 16) (16 * b)).
Proof.
  intros Ha. pose proof (spaced_split a Ha) as E. replace (4 * S n)%nat with (S (S (S (S (4 * n))))) by lia. cbn [clmul]. set (q := a / 16) in *.
  assert (E2 : a / 2 = 2 * (2 * (2 * q))) by (destruct (Z.odd a); cbn [Z.b2z] in E; zarith). rewrite E2. cbn [clmul].
  assert (Hd : forall x, 2 * x / 2 = x) by (intros x; zarith). rewrite !Z.odd_mul, !Hd, ?Z.odd_mul. cbn [Z.odd andb]. rewrite !Z.lxor_0_l. do 2 f_equal. lia.
Qed.

Lemma spaced_clmul n : forall a b, spaced a -> spaced b -> spaced (clmul (4 * n) a b).
Proof.
  induction n as [|n IH]; intros a b Ha Hb; [split; [done|]; intros i _ _; apply Z.bits_0|]. rewrite clmul_spaced_step by done.
  apply spaced_lxor; [by apply spaced_if|]. apply IH; [by apply spaced_div16|by apply spaced_mul16].
Qed.

Lemma spaced_product n : forall a b, spaced a -> spaced b -> a < 16 ^ Z.of_nat n -> ones n a <= 15 ->
  forall k, 0 <= k -> digit (a * b) k <= ones n a /\ Z.testbit (a * b) (4 * k) = Z.testbit (clmul (4 * n) a b) (4 * k).
Proof.
  induction n as [|n IH]; intros a b Ha Hb Hlt Hones k Hk.
  - assert (a = 0) as -> by (destruct Ha; change (16 ^ Z.of_nat 0) with 1 in Hlt; lia). rewrite Z.mul_0_l, Z.bits_0.
    split; [unfold digit; rewrite Z.div_0_l by lia; done|]. cbn. by rewrite Z.bits_0.
  - rewrite clmul_spaced_step, Z.lxor_spec by done. cbn [ones] in *. set (q := a / 16) in *. set (h := if Z.odd a then b else 0).
    assert (E : a * b = h + q * (16 * b)).
    { rewrite (spaced_split a Ha) at 1. unfold h. destruct (Z.odd a); cbn [Z.b2z]; fold q; lia. }
    assert (Hq : q < 16 ^ Z.of_nat n) by (rewrite Nat2Z.inj_succ, Z.pow_succ_r in Hlt by lia; subst q; zarith).
    pose proof (ones_range n q) as Hr. assert (Hb2 : 0 <= Z.b2z (Z.odd a) <= 1) by (destruct (Z.odd a); cbn; lia).
    assert (IHk := IH q (16 * b) (spaced_div16 a Ha) (spaced_mul16 b Hb) Hq ltac:(lia)).
    assert (Hh : forall j, 0 <= j -> digit h j <= Z.b2z (Z.odd a)).
    { intros j Hj. subst h. destruct (Z.odd a); [rewrite digit_spaced by done; destruct (Z.testbit b _); cbn; lia|].
      unfold digit. rewrite Z.div_0_l by (apply Z.pow_nonzero; lia). done. }
    assert (Hadd : forall j, 0 <= j -> digit (a * b) j = digit h j + digit (q * (16 * b)) j).
    { intros j Hj. rewrite E. unfold digit. rewrite digit_add; [|done|intros i Hi; specialize (Hh i); specialize (IHk i); lia].
      pose proof (Hh j Hj) as H1. destruct (IHk j Hj) as [H2 _]. unfold digit in H1, H2. zarith. }
    destruct (IHk k Hk) as [Hd Hbit]. specialize (Hh k Hk). split; [rewrite Hadd by done; lia|].
    rewrite <- Hbit, <- !odd_digit, Hadd by done. rewrite Z.odd_add. done.
Qed.

(** The bits of [x] are at the positions [r] modulo 4. *)
Definition in_class (r x : Z) : Prop := 0 <= x /\ forall i, 0 <= i -> i mod 4 <> r -> Z.testbit x i = false.

Lemma class_shift r x : 0 <= r < 4 -> in_class r x -> spaced (Z.shiftr x r) /\ Z.shiftl (Z.shiftr x r) r = x.
Proof.
  intros Hr [H0 H]. split.
  - split; [by apply Z.shiftr_nonneg|]. intros i Hi Hm. rewrite Z.shiftr_spec by done. apply H; [lia|zarith].
  - apply Z.bits_inj'. intros i Hi. rewrite Z.shiftl_spec by done. destruct (Z.lt_ge_cases i r).
    + rewrite Z.testbit_neg_r by lia. symmetry. apply H; [done|zarith].
    + rewrite Z.shiftr_spec by lia. f_equal. lia.
Qed.
Lemma class_land r x m : in_class r m -> 0 <= x -> in_class r (Z.land x m).
Proof. intros [_ H] Hx. split; [by apply Z.land_nonneg; left|]. intros i Hi Hm. rewrite Z.land_spec, H by done. apply andb_false_r. Qed.

Lemma clmul_shiftl_l n a b r : 0 <= r -> clmul (Z.to_nat r + n) (Z.shiftl a r) b = Z.shiftl (clmul n a b) r.
Proof.
  intros Hr. rewrite <- (Z2Nat.id r) at 2 3 by done. induction (Z.to_nat r) as [|m IH]; [by rewrite !Z.shiftl_0_r|].
  rewrite !Z.shiftl_mul_pow2, Nat2Z.inj_succ, Z.pow_succ_r in * by lia. replace (a * (2 * 2 ^ Z.of_nat m)) with (2 * (a * 2 ^ Z.of_nat m)) by lia.
  cbn [Nat.add]. rewrite clmul_even_l, IH. lia.
Qed.

Lemma class_product n r s a b i : 0 <= r < 4 -> 0 <= s < 4 -> in_class r a -> in_class s b ->
  a < 16 ^ Z.of_nat n -> ones n (Z.shiftr a r) <= 15 -> 0 <= i ->
  Z.testbit (clmul (4 * n) a b) i = if (i - r - s) mod 4 =? 0 then Z.testbit (a * b) i else false.
Proof.
  intros Hr Hs Ha Hb Hlt Hones Hi. destruct (class_shift r a Hr Ha) as [Ha' Ea]. destruct (class_shift s b Hs Hb) as [Hb' Eb].
  set (a' := Z.shiftr a r) in *. set (b' := Z.shiftr b s) in *.
  assert (Hlt' : a' < 16 ^ Z.of_nat n).
  { rewrite Z.shiftl_mul_pow2 in Ea by lia. pose proof (Z.pow_pos_nonneg 2 r). destruct Ha'. nia. }
  assert (E : clmul (4 * n) a b = Z.shiftl (clmul (4 * n) a' b') (r + s)).
  { rewrite <- (clmul_enough (Z.to_nat r + 4 * n)); [|lia|destruct Ha; rewrite pow16 in Hlt by lia; replace (Z.of_nat (4 * n)) with (4 * Z.of_nat n) by lia; lia].
    rewrite <- Ea, <- Eb, clmul_shiftl_l, clmul_shiftl_r, Z.shiftl_shiftl by lia. f_equal. lia. }
  assert (E' : a * b = a' * b' * 2 ^ (r + s)) by (rewrite <- Ea, <- Eb, !Z.shiftl_mul_pow2, Z.pow_add_r by lia; lia).
  rewrite E, E', Z.shiftl_spec by done. destruct (Z.lt_ge_cases i (r + s)).
  - rewrite Z.testbit_neg_r, Z.mul_pow2_bits_low by lia. by destruct (_ =? 0).
  - rewrite Z.mul_pow2_bits by lia. destruct (Z.eqb_spec ((i - r - s) mod 4) 0) as [Hm|Hm].
    + destruct (spaced_product n a' b' Ha' Hb' Hlt' Hones ((i - r - s) / 4)) as [_ H1]; [zarith|].
      replace (4 * ((i - r - s) / 4)) with (i - (r + s)) in H1 by zarith. by rewrite H1.
    + apply (spaced_clmul n a' b' Ha' Hb'); [lia|]. by replace (i - (r + s)) with (i - r - s) by lia.
Qed.
