(* ===== verification/AesSlice.v ===== *)
(** * The steps of bitsliced AES.

    In a batch, bit [b] of byte [p] of block [k] is bit [4 * p + k] of word [b].
    [lane] puts such a byte together and [block_of] a block; each step of Aes.v is
    then the step of FIPS 197 on every block at once. *)

From S2P Require Import Prelude Mem Modes Schedule Fips197 Aes Linear.
Import Fips197.

(** ** Bytes from bits *)

Definition byte_of (f : Z -> bool) : Z := foldr (fun b acc => Z.b2z (f b) + 2 * acc) 0 (zseq 8).

Lemma byte_of_ext f g : (forall b, 0 <= b < 8 -> f b = g b) -> byte_of f = byte_of g.
Proof. intros H. unfold byte_of. change (zseq 8) with [0; 1; 2; 3; 4; 5; 6; 7]. cbn [foldr]. by rewrite !H by lia. Qed.
Lemma byte_of_byte f : is_byte (byte_of f).
Proof.
  unfold byte_of, is_byte. change (zseq 8) with [0; 1; 2; 3; 4; 5; 6; 7]. cbn [foldr].
  destruct (f 0), (f 1), (f 2), (f 3), (f 4), (f 5), (f 6), (f 7); cbn; lia.
Qed.
Lemma byte_of_bit f b : 0 <= b < 8 -> Z.testbit (byte_of f) b = f b.
Proof.
  intros Hb. unfold byte_of. change (zseq 8) with [0; 1; 2; 3; 4; 5; 6; 7]. cbn [foldr].
  assert (H : b = 0 \/ b = 1 \/ b = 2 \/ b = 3 \/ b = 4 \/ b = 5 \/ b = 6 \/ b = 7) by lia.
  destruct (f 0) eqn:E0, (f 1) eqn:E1, (f 2) eqn:E2, (f 3) eqn:E3, (f 4) eqn:E4, (f 5) eqn:E5, (f 6) eqn:E6, (f 7) eqn:E7;
    destruct H as [->|[->|[->|[->|[->|[->|[->| ->]]]]]]]; by rewrite ?E0, ?E1, ?E2, ?E3, ?E4, ?E5, ?E6, ?E7.
Qed.
Lemma byte_of_testbit x : is_byte x -> byte_of (Z.testbit x) = x.
Proof. unfold is_byte. intros Hx. byte_check (fun x => byte_of (Z.testbit x) =? x) x as H. by apply Z.eqb_eq. Qed.
Lemma byte_eq x y : is_byte x -> is_byte y -> (forall b, 0 <= b < 8 -> Z.testbit x b = Z.testbit y b) -> x = y.
Proof. intros Hx Hy H. rewrite <- (byte_of_testbit x), <- (byte_of_testbit y) by done. by apply byte_of_ext. Qed.

(** ** Batches and compact blocks *)

Definition batch_ok (batch : AES_NOHW_BATCH) : Prop := length batch = 8%nat /\ Forall word64 batch.
Definition compact_ok (blk : compact) : Prop := length blk = 2%nat /\ Forall word64 blk.

Definition lane (batch : AES_NOHW_BATCH) (i : Z) : Z := byte_of (fun b => Z.testbit (znth batch b) i).
Definition block_of (batch : AES_NOHW_BATCH) (k : Z) : list Z := (fun p => lane batch (4 * p + k)) <$> zseq 16.
(** The bytes of a block in compact form. *)
Definition compact_byte (blk : compact) (p : Z) : Z := byte_of (fun b => Z.testbit (znth blk (b / 4)) (4 * p + b mod 4)).
Definition compact_bytes (blk : compact) : list Z := compact_byte blk <$> zseq 16.

Lemma lane_byte batch i : is_byte (lane batch i).
Proof. apply byte_of_byte. Qed.
Lemma compact_byte_byte blk p : is_byte (compact_byte blk p).
Proof. apply byte_of_byte. Qed.
#[export] Hint Resolve lane_byte compact_byte_byte : bytes.

Lemma bytes_map f n : (forall p, is_byte (f p)) -> bytes_ok (f <$> zseq n).
Proof. intros H. apply Forall_fmap, Forall_true. intros p. apply H. Qed.
Lemma block_of_bytes batch k : bytes_ok (block_of batch k).
Proof. apply bytes_map. auto with bytes. Qed.
Lemma compact_bytes_ok blk : bytes_ok (compact_bytes blk).
Proof. apply bytes_map. auto with bytes. Qed.
Lemma zlen_block_of batch k : zlen (block_of batch k) = 16.
Proof. unfold block_of. by rewrite zlen_map. Qed.
Lemma zlen_compact_bytes blk : zlen (compact_bytes blk) = 16.
Proof. unfold compact_bytes. by rewrite zlen_map. Qed.

Lemma map_zseq_ext {A} (f g : Z -> A) n : (forall i, 0 <= i < n -> f i = g i) -> f <$> zseq n = g <$> zseq n.
Proof. intros H. apply list_fmap_ext. intros i x Hx. apply list_elem_of_lookup_2, elem_of_zseq in Hx. by apply H. Qed.
Lemma block_of_at batch k p : 0 <= p < 16 -> znth (block_of batch k) p = lane batch (4 * p + k).
Proof. apply (znth_map_zseq (fun p => lane batch (4 * p + k))). Qed.

(** A batch of words with given bits. *)
Lemma lane_ext batch batch' i i' : (forall b, 0 <= b < 8 -> Z.testbit (znth batch b) i = Z.testbit (znth batch' b) i') ->
  lane batch i = lane batch' i'.
Proof. intros H. by apply byte_of_ext. Qed.

Lemma batch_ok_map (f : Z -> Z) : (forall i, 0 <= i < 8 -> word64 (f i)) -> batch_ok (f <$> zseq 8).
Proof.
  intros H. split; [done|]. apply Forall_fmap, Forall_forall. intros i Hi. apply elem_of_zseq in Hi. by apply H.
Qed.

(** [linear env]: a word given by its operations on the words [env] has the bits
    that are claimed. *)
Ltac linear env :=
  lazymatch goal with |- word64 ?t /\ (forall i, _ -> Z.testbit _ i = xor_bits _ (@?want i)) =>
    let t' := eval cbv beta zeta delta [shift_rows_word inv_shift_rows_word aes_nohw_rotate_cols_right aes_nohw_rotate_rows_down
      aes_nohw_rotate_rows_twice aes_nohw_and aes_nohw_or aes_nohw_xor aes_nohw_shift_left aes_nohw_shift_right
      aes_nohw_compact_word aes_nohw_uncompact_word aes_nohw_delta_swap propagate aes_nohw_sub_bytes_inv_affine aes_word_t] in t in
    let e := reify env t' in
    apply (sources_are_sound env e want); [|vm_compute; reflexivity]
  end.

(** ** Shifting rows *)

(** The bit that moves to bit [i] when row [r] moves [s * r] columns. *)
Definition row_source (s i : Z) : Z :=
  let p := i / 4 in 4 * ((p + 4 * s * (p mod 4)) mod 16) + i mod 4.

Lemma shift_rows_bits w : word64 w -> word64 (shift_rows_word (znth [w] 0)) /\
  forall i, 0 <= i < 64 -> Z.testbit (shift_rows_word (znth [w] 0)) i = xor_bits [w] [(0, row_source 1 i)].
Proof. intros Hw. linear [w]. by apply Forall_singleton. Qed.
Lemma inv_shift_rows_bits w : word64 w -> word64 (inv_shift_rows_word (znth [w] 0)) /\
  forall i, 0 <= i < 64 -> Z.testbit (inv_shift_rows_word (znth [w] 0)) i = xor_bits [w] [(0, row_source 3 i)].
Proof. intros Hw. linear [w]. by apply Forall_singleton. Qed.

(** A step that moves the bits of every word alike moves the lanes. *)
Lemma lane_moved (f : Z -> Z) src batch i : batch_ok batch ->
  (forall w, word64 w -> word64 (f (znth [w] 0)) /\
    forall j, 0 <= j < 64 -> Z.testbit (f (znth [w] 0)) j = xor_bits [w] [(0, src j)]) ->
  0 <= i < 64 -> lane ((fun b => f (znth batch b)) <$> zseq 8) i = lane batch (src i).
Proof.
  intros [_ Hw] Hf Hi. apply lane_ext. intros b Hb. rewrite znth_map_zseq by lia.
  destruct (Hf (znth batch b) (word64_znth _ _ Hw)) as [_ H]. change (znth [?x] 0) with x in H. rewrite H by done. cbn [xor_bits]. apply xorb_false_r.
Qed.
Lemma batch_ok_moved (f : Z -> Z) src batch : batch_ok batch ->
  (forall w, word64 w -> word64 (f (znth [w] 0)) /\
    forall j, 0 <= j < 64 -> Z.testbit (f (znth [w] 0)) j = xor_bits [w] [(0, src j)]) ->
  batch_ok ((fun b => f (znth batch b)) <$> zseq 8).
Proof. intros [_ Hw] Hf. apply batch_ok_map. intros b _. apply (Hf (znth batch b)). by apply word64_znth. Qed.

Lemma row_source_at s p k : 0 <= p -> 0 <= k < 4 -> row_source s (4 * p + k) = 4 * ((p + 4 * s * (p mod 4)) mod 16) + k.
Proof. intros Hp Hk. unfold row_source. replace ((4 * p + k) / 4) with p by zarith. f_equal. zarith. Qed.

Lemma at_block batch k c r : 0 <= k < 4 -> at_ (block_of batch k) c r = lane batch (4 * (4 * (c mod 4) + r mod 4) + k).
Proof. intros Hk. unfold at_. apply block_of_at. zarith. Qed.

Lemma shift_rows_block batch k : batch_ok batch -> 0 <= k < 4 ->
  block_of (aes_nohw_shift_rows batch) k = ShiftRows (block_of batch k).
Proof.
  intros Hb Hk. apply map_zseq_ext. intros p Hp. unfold aes_nohw_shift_rows.
  rewrite (lane_moved _ (row_source 1)) by (done || lia || apply shift_rows_bits). rewrite row_source_at by lia.
  rewrite at_block by lia. f_equal. f_equal. f_equal. zarith.
Qed.
Lemma inv_shift_rows_block batch k : batch_ok batch -> 0 <= k < 4 ->
  block_of (aes_nohw_inv_shift_rows batch) k = InvShiftRows (block_of batch k).
Proof.
  intros Hb Hk. apply map_zseq_ext. intros p Hp. unfold aes_nohw_inv_shift_rows.
  rewrite (lane_moved _ (row_source 3)) by (done || lia || apply inv_shift_rows_bits). rewrite row_source_at by lia.
  rewrite at_block by lia. f_equal. f_equal. f_equal. zarith.
Qed.
Lemma shift_rows_ok batch : batch_ok batch -> batch_ok (aes_nohw_shift_rows batch).
Proof. intros Hb. by apply (batch_ok_moved _ _ _ Hb shift_rows_bits). Qed.
Lemma inv_shift_rows_ok batch : batch_ok batch -> batch_ok (aes_nohw_inv_shift_rows batch).
Proof. intros Hb. by apply (batch_ok_moved _ _ _ Hb inv_shift_rows_bits). Qed.

(** ** Adding the round key *)

Lemma add_round_key_ok batch key : batch_ok batch -> batch_ok key -> batch_ok (aes_nohw_add_round_key batch key).
Proof. intros [_ Hb] [_ Hk]. apply batch_ok_map. intros i _. apply word64_lxor; by apply word64_znth. Qed.

Lemma add_round_key_lane batch key i : lane (aes_nohw_add_round_key batch key) i = Z.lxor (lane batch i) (lane key i).
Proof.
  apply byte_eq; [auto with bytes..|]. intros b Hb. unfold lane. rewrite Z.lxor_spec, !byte_of_bit by done.
  unfold aes_nohw_add_round_key. rewrite znth_map_zseq by lia. apply Z.lxor_spec.
Qed.
Lemma add_round_key_block batch key k : block_of (aes_nohw_add_round_key batch key) k = AddRoundKey (block_of batch k) (block_of key k).
Proof.
  unfold block_of, AddRoundKey, xor_bytes. rewrite zip_with_fmap_l, zip_with_fmap_r, zip_with_diag. apply map_zseq_ext.
  intros p _. apply add_round_key_lane.
Qed.

(** ** Substituting bytes

    The circuit is the same for every bit position: each gate is followed with the
    bit that it computes, and the result is compared for all bytes. *)

(** Bit [i] of the word [w] is [b]. *)
Definition bit_is (i w : Z) (b : bool) : Prop := word64 w /\ Z.testbit w i = b.
Lemma bit_xor i v w a b : bit_is i v a -> bit_is i w b -> bit_is i (aes_nohw_xor v w) (xorb a b).
Proof. intros [Hv <-] [Hw <-]. split; [by apply word64_lxor|apply Z.lxor_spec]. Qed.
Lemma bit_and i v w a b : bit_is i v a -> bit_is i w b -> bit_is i (aes_nohw_and v w) (andb a b).
Proof. intros [Hv <-] [Hw <-]. split; [by apply word64_land|apply Z.land_spec]. Qed.
Lemma bit_not i v a : 0 <= i < 64 -> bit_is i v a -> bit_is i (aes_nohw_not v) (negb a).
Proof. intros Hi [Hv <-]. split; [apply word64_u64|]. unfold aes_nohw_not. rewrite testbit_u64, Z.lnot_spec by lia. done. Qed.

(** [gate]: the next statement of a circuit. *)
Ltac bit_of i w :=
  lazymatch w with
  | aes_nohw_xor ?a ?b => let H1 := bit_of i a in let H2 := bit_of i b in constr:(bit_xor i _ _ _ _ H1 H2)
  | aes_nohw_and ?a ?b => let H1 := bit_of i a in let H2 := bit_of i b in constr:(bit_and i _ _ _ _ H1 H2)
  | aes_nohw_not ?a => let H1 := bit_of i a in
      lazymatch goal with Hi : 0 <= i < 64 |- _ => constr:(bit_not i _ _ Hi H1) end
  | _ => lazymatch goal with H : bit_is i w _ |- _ => H end
  end.
Ltac gate i :=
  lazymatch goal with |- Forall2 (bit_is i) (let x := ?v in @?body x) ?bits =>
    let H := bit_of i v in
    let w := fresh "w" in let b := fresh "b" in let Hx := fresh "H" in
    lazymatch type of H with bit_is _ _ ?bv =>
      pose (b := bv); assert (Hx : bit_is i v b) by exact H;
      change (Forall2 (bit_is i) (body v) bits); generalize v, Hx; clear Hx; intros w Hx; cbv beta
    end
  end.

(** The bits of a byte. *)
Definition byte_bits (x : Z) : list bool := Z.testbit x <$> zseq 8.

(** [circuit f]: the bits that the straight-line code [f] computes from the bits of
    eight words, by evaluation for all values of these. *)
Ltac circuit i f :=
  let H := fresh in let Hi := fresh in let want := fresh "want" in
  intros Hi H; repeat (apply Forall2_cons in H as [? H]); clear H;
  lazymatch goal with |- Forall2 _ _ ?bits => set (want := bits) end;
  cbv beta delta [f];
  do 8 (lazymatch goal with |- Forall2 _ (let x := ?v in @?body x) _ =>
    let v' := eval vm_compute in v in change (Forall2 (bit_is i) (body v') want); cbv beta end);
  repeat gate i;
  lazymatch goal with |- Forall2 _ ?ws _ =>
    let rec bits ws := lazymatch ws with
      | ?w :: ?ws => let H := bit_of i w in
          lazymatch type of H with bit_is _ _ ?b => let bs := bits ws in constr:(b :: bs) end
      | [] => constr:(@nil bool) end in
    let rec all ws := lazymatch ws with
      | ?w :: ?ws => let H := bit_of i w in apply Forall2_cons; split; [exact H|all ws]
      | [] => by apply Forall2_nil end in
    let bs := bits ws in cut (bs = want); [intros <-; all ws|] end;
  repeat match goal with H : bit_is _ _ _ |- _ => clear H | w : aes_word_t |- _ => clear w end;
  clear Hi; clear i; repeat match goal with w : Z |- _ => clear w end; repeat match goal with b := _ |- _ => revert b end;
  repeat match goal with b : bool |- _ => revert b end; intros [] [] [] [] [] [] [] []; vm_compute; reflexivity.

Section circuits.
Context (i w0 w1 w2 w3 w4 w5 w6 w7 : Z) (b0 b1 b2 b3 b4 b5 b6 b7 : bool).
Notation words := [w0; w1; w2; w3; w4; w5; w6; w7].
Notation bits := [b0; b1; b2; b3; b4; b5; b6; b7].
Notation byte := (byte_of (fun b => nth (Z.to_nat b) bits false)).

Lemma sub_bytes_circuit : 0 <= i < 64 -> Forall2 (bit_is i) words bits ->
  Forall2 (bit_is i) (aes_nohw_sub_bytes words) (byte_bits (znth sbox_table byte)).
Proof using. circuit i aes_nohw_sub_bytes. Qed.
Lemma inv_affine_circuit : 0 <= i < 64 -> Forall2 (bit_is i) words bits ->
  Forall2 (bit_is i) (aes_nohw_sub_bytes_inv_affine words) (byte_bits (inv_affine byte)).
Proof using. circuit i aes_nohw_sub_bytes_inv_affine. Qed.
End circuits.

(** From the bits of every word to the lane. *)
Lemma lane_of_bits i out x : is_byte x -> Forall2 (bit_is i) out (byte_bits x) -> lane out i = x.
Proof.
  intros Hx H. rewrite <- (byte_of_testbit x) by done. apply byte_of_ext. intros b Hb.
  unfold znth. rewrite nth_lookup. destruct (Forall2_lookup_r _ _ _ (Z.to_nat b) (Z.testbit x b) H) as (w & -> & [_ Hw]); [|done].
  unfold byte_bits, zseq. rewrite !list_lookup_fmap, lookup_seq_lt by lia. cbn. do 2 f_equal. lia.
Qed.
Lemma ok_of_bits i out x : Forall2 (bit_is i) out (byte_bits x) -> batch_ok out.
Proof. intros H. split; [by apply Forall2_length in H|]. eapply Forall2_Forall_l; [exact H|]. apply Forall_true. by intros b w [Hw _]. Qed.

Lemma batch_cases batch : batch_ok batch -> exists w0 w1 w2 w3 w4 w5 w6 w7, batch = [w0; w1; w2; w3; w4; w5; w6; w7].
Proof. intros [Hl _]. destruct batch as [|? [|? [|? [|? [|? [|? [|? [|? []]]]]]]]]; try done. by do 8 eexists. Qed.
Lemma batch_bits batch i : batch_ok batch -> Forall2 (bit_is i) batch ((fun w => Z.testbit w i) <$> batch).
Proof. intros [_ Hw]. apply Forall2_fmap_r, Forall_Forall2_diag, Forall_forall. intros w Hi. rewrite Forall_forall in Hw. split; [by apply Hw|done]. Qed.

Lemma lane_cases i w0 w1 w2 w3 w4 w5 w6 w7 :
  byte_of (fun b => nth (Z.to_nat b) ((fun w => Z.testbit w i) <$> [w0; w1; w2; w3; w4; w5; w6; w7]) false) =
  lane [w0; w1; w2; w3; w4; w5; w6; w7] i.
Proof.
  apply byte_of_ext. intros b Hb. assert (H : b = 0 \/ b = 1 \/ b = 2 \/ b = 3 \/ b = 4 \/ b = 5 \/ b = 6 \/ b = 7) by lia.
  by destruct H as [->|[->|[->|[->|[->|[->|[->| ->]]]]]]].
Qed.

Lemma sub_bytes_bits batch i : batch_ok batch -> 0 <= i < 64 ->
  Forall2 (bit_is i) (aes_nohw_sub_bytes batch) (byte_bits (sbox (lane batch i))).
Proof.
  intros Hb Hi. pose proof (batch_bits batch i Hb) as H. destruct (batch_cases batch Hb) as (w0 & w1 & w2 & w3 & w4 & w5 & w6 & w7 & ->).
  rewrite sbox_lookup, <- lane_cases by auto with bytes. by apply sub_bytes_circuit.
Qed.
Lemma inv_affine_bits batch i : batch_ok batch -> 0 <= i < 64 ->
  Forall2 (bit_is i) (aes_nohw_sub_bytes_inv_affine batch) (byte_bits (inv_affine (lane batch i))).
Proof.
  intros Hb Hi. pose proof (batch_bits batch i Hb) as H. destruct (batch_cases batch Hb) as (w0 & w1 & w2 & w3 & w4 & w5 & w6 & w7 & ->).
  rewrite <- lane_cases. by apply inv_affine_circuit.
Qed.

Lemma sub_bytes_ok batch : batch_ok batch -> batch_ok (aes_nohw_sub_bytes batch).
Proof. intros Hb. by apply (ok_of_bits 0 _ _ (sub_bytes_bits batch 0 Hb ltac:(lia))). Qed.
Lemma inv_affine_ok batch : batch_ok batch -> batch_ok (aes_nohw_sub_bytes_inv_affine batch).
Proof. intros Hb. by apply (ok_of_bits 0 _ _ (inv_affine_bits batch 0 Hb ltac:(lia))). Qed.
Lemma inv_sub_bytes_ok batch : batch_ok batch -> batch_ok (aes_nohw_inv_sub_bytes batch).
Proof. intros Hb. by apply inv_affine_ok, sub_bytes_ok, inv_affine_ok. Qed.

Lemma sub_bytes_lane batch i : batch_ok batch -> 0 <= i < 64 -> lane (aes_nohw_sub_bytes batch) i = sbox (lane batch i).
Proof. intros Hb Hi. apply lane_of_bits; [apply sbox_byte; auto with bytes|by apply sub_bytes_bits]. Qed.
Lemma inv_affine_lane batch i : batch_ok batch -> 0 <= i < 64 -> lane (aes_nohw_sub_bytes_inv_affine batch) i = inv_affine (lane batch i).
Proof. intros Hb Hi. apply lane_of_bits; [apply inv_affine_byte; auto with bytes|by apply inv_affine_bits]. Qed.
Lemma inv_sub_bytes_lane batch i : batch_ok batch -> 0 <= i < 64 -> lane (aes_nohw_inv_sub_bytes batch) i = inv_sbox (lane batch i).
Proof.
  intros Hb Hi. unfold aes_nohw_inv_sub_bytes. pose proof (inv_affine_ok _ Hb) as H1. pose proof (sub_bytes_ok _ H1) as H2.
  rewrite inv_affine_lane, sub_bytes_lane, inv_affine_lane by done. symmetry. apply inv_sbox_affine. auto with bytes.
Qed.

Lemma sub_bytes_block batch k : batch_ok batch -> 0 <= k < 4 -> block_of (aes_nohw_sub_bytes batch) k = SubBytes (block_of batch k).
Proof.
  intros Hb Hk. unfold SubBytes, block_of. rewrite <- list_fmap_compose. apply map_zseq_ext. intros p Hp. apply sub_bytes_lane; [done|lia].
Qed.
Lemma inv_sub_bytes_block batch k : batch_ok batch -> 0 <= k < 4 ->
  block_of (aes_nohw_inv_sub_bytes batch) k = InvSubBytes (block_of batch k).
Proof.
  intros Hb Hk. unfold InvSubBytes, block_of. rewrite <- list_fmap_compose. apply map_zseq_ext. intros p Hp. apply inv_sub_bytes_lane; [done|lia].
Qed.

(** ** Mixing columns *)

(** The bits of [x] that make up bit [b] of [c * x], for small [c]. *)
Definition times2 (b : Z) : list Z := (if 0 <? b then [b - 1] else []) ++ (if existsb (Z.eqb b) [0; 1; 3; 4] then [7] else []).
Definition times (c b : Z) : list Z :=
  if c =? 1 then [b] else if c =? 2 then times2 b else if c =? 3 then b :: times2 b
  else if c =? 4 then (times2 b ≫= times2) else b :: (times2 b ≫= times2).

(** The bits [l] of lane [i]. *)
Definition lane_bits (l : list Z) (i : Z) : list (Z * Z) := (fun b => (b, i)) <$> l.

Lemma xor_lane_bits batch l i : Forall (fun b => 0 <= b < 8) l ->
  xor_bits batch (lane_bits l i) = xor_bits [lane batch i] ((fun b => (0, b)) <$> l).
Proof.
  intros H. induction H as [|b l Hb _ IH]; [done|]. cbn [lane_bits fmap list_fmap xor_bits]. unfold lane_bits in IH. rewrite IH. f_equal.
  change (znth [lane batch i] 0) with (lane batch i). unfold lane. by rewrite byte_of_bit.
Qed.

Lemma times_gmul c x b : In c [1; 2; 3; 4; 5] -> is_byte x -> 0 <= b < 8 ->
  Z.testbit (gmul c x) b = xor_bits [x] ((fun b => (0, b)) <$> times c b) /\ Forall (fun b => 0 <= b < 8) (times c b).
Proof.
  intros Hc Hx Hb.
  assert (H : forallb (fun c => forallb (fun b => forallb (fun b => (0 <=? b) && (b <? 8)) (times c b) &&
    forallb (fun x => Bool.eqb (Z.testbit (gmul c x) b) (xor_bits [x] ((fun b => (0, b)) <$> times c b))) (zseq 256)) (zseq 8)) [1; 2; 3; 4; 5] = true)
    by (vm_compute; reflexivity).
  rewrite forallb_forall in H. specialize (H c Hc). apply (forallb_zseq _ _ H) in Hb. cbv beta in Hb. apply andb_prop in Hb as [H1 H2]. split.
  - apply (forallb_zseq _ _ H2) in Hx. by apply Bool.eqb_prop in Hx.
  - apply Forall_forall. intros j Hj. rewrite forallb_forall in H1. apply list_elem_of_In, H1 in Hj. bool_hyps. lia.
Qed.

(** Bit [b] of [c] times a lane. *)
Lemma lane_times batch c b i : In c [1; 2; 3; 4; 5] -> 0 <= b < 8 -> xor_bits batch (lane_bits (times c b) i) = Z.testbit (gmul c (lane batch i)) b.
Proof.
  intros Hc Hb. destruct (times_gmul c (lane batch i) b Hc (lane_byte batch i) Hb) as [-> H]. by apply xor_lane_bits.
Qed.

(** The bit in the same column, [n] rows further down. *)
Definition row_down (n i : Z) : Z := let p := i / 4 in 4 * (4 * (p / 4) + (p + n) mod 4) + i mod 4.

(** Word [b] of a batch that is given as a list of eight words. *)
Ltac linear_batch :=
  lazymatch goal with |- word64 (znth ?l ?b) /\ _ =>
    let b' := eval vm_compute in (Z.to_nat b) in
    let rec pick l n := lazymatch n with O => lazymatch l with ?x :: _ => x end | S ?n => lazymatch l with _ :: ?l => pick l n end end in
    let l' := eval cbv beta zeta delta [aes_nohw_mix_columns inv_mix_even aes_nohw_rotate_rows_down aes_nohw_rotate_rows_twice aes_nohw_xor] in l in
    let w := pick l' b' in change (znth l b) with w
  end.

Lemma mix_columns_bits batch b : Forall word64 batch -> 0 <= b < 8 -> word64 (znth (aes_nohw_mix_columns batch) b) /\
  forall i, 0 <= i < 64 -> Z.testbit (znth (aes_nohw_mix_columns batch) b) i =
    xor_bits batch (lane_bits (times 2 b) i ++ lane_bits (times 3 b) (row_down 1 i) ++
      lane_bits (times 1 b) (row_down 2 i) ++ lane_bits (times 1 b) (row_down 3 i)).
Proof.
  intros Hw Hb. assert (H : b = 0 \/ b = 1 \/ b = 2 \/ b = 3 \/ b = 4 \/ b = 5 \/ b = 6 \/ b = 7) by lia.
  destruct H as [->|[->|[->|[->|[->|[->|[->| ->]]]]]]]; linear_batch; linear batch; done.
Qed.
Lemma inv_mix_even_bits batch b : Forall word64 batch -> 0 <= b < 8 -> word64 (znth (inv_mix_even batch) b) /\
  forall i, 0 <= i < 64 -> Z.testbit (znth (inv_mix_even batch) b) i =
    xor_bits batch (lane_bits (times 5 b) i ++ lane_bits (times 4 b) (row_down 2 i)).
Proof.
  intros Hw Hb. assert (H : b = 0 \/ b = 1 \/ b = 2 \/ b = 3 \/ b = 4 \/ b = 5 \/ b = 6 \/ b = 7) by lia.
  destruct H as [->|[->|[->|[->|[->|[->|[->| ->]]]]]]]; linear_batch; linear batch; done.
Qed.

Lemma ok_of_words batch : length batch = 8%nat -> (forall b, 0 <= b < 8 -> word64 (znth batch b)) -> batch_ok batch.
Proof.
  intros Hl H. split; [done|]. apply Forall_forall. intros w Hw. apply list_elem_of_lookup in Hw as [i Hi].
  specialize (H (Z.of_nat i)). unfold znth in H. rewrite Nat2Z.id, nth_lookup, Hi in H. apply H. apply lookup_lt_Some in Hi. lia.
Qed.
Lemma mix_columns_ok batch : batch_ok batch -> batch_ok (aes_nohw_mix_columns batch).
Proof. intros [_ Hw]. apply ok_of_words; [done|]. intros b Hb. by apply mix_columns_bits. Qed.
Lemma inv_mix_even_ok batch : batch_ok batch -> batch_ok (inv_mix_even batch).
Proof. intros [_ Hw]. apply ok_of_words; [done|]. intros b Hb. by apply inv_mix_even_bits. Qed.
Lemma inv_mix_columns_ok batch : batch_ok batch -> batch_ok (aes_nohw_inv_mix_columns batch).
Proof. intros Hb. by apply mix_columns_ok, inv_mix_even_ok. Qed.

Lemma row_down_at n p k : 0 <= p -> 0 <= k < 4 -> row_down n (4 * p + k) = 4 * (4 * (p / 4) + (p + n) mod 4) + k.
Proof. intros Hp Hk. unfold row_down. replace ((4 * p + k) / 4) with p by zarith. f_equal. zarith. Qed.
Lemma at_row_down batch k p n : 0 <= p < 16 -> 0 <= k < 4 ->
  at_ (block_of batch k) (p / 4) (p mod 4 + n) = lane batch (row_down n (4 * p + k)).
Proof.
  intros Hp Hk. rewrite at_block, row_down_at by lia. f_equal. f_equal. f_equal. rewrite Zplus_mod_idemp_l. f_equal.
  f_equal. apply Z.mod_small. zarith.
Qed.
Lemma at_row_same batch k p : 0 <= p < 16 -> 0 <= k < 4 -> at_ (block_of batch k) (p / 4) (p mod 4) = lane batch (4 * p + k).
Proof. intros Hp Hk. rewrite at_block by lia. f_equal. zarith. Qed.

Lemma mix_columns_block batch k : batch_ok batch -> 0 <= k < 4 ->
  block_of (aes_nohw_mix_columns batch) k = MixColumns (block_of batch k).
Proof.
  intros [_ Hw] Hk. apply map_zseq_ext. intros p Hp. cbv beta. rewrite at_row_same, !at_row_down by lia.
  apply byte_eq; [auto with bytes..|]. intros b Hb. unfold lane at 1. rewrite byte_of_bit by done.
  destruct (mix_columns_bits batch b Hw Hb) as [_ ->]; [|lia]. rewrite !xor_bits_app, !Z.lxor_spec.
  rewrite !lane_times by (done || cbn; tauto). by rewrite !xorb_assoc.
Qed.
Lemma inv_mix_even_block batch k : batch_ok batch -> 0 <= k < 4 ->
  block_of (inv_mix_even batch) k = mix 5 0 4 0 (block_of batch k).
Proof.
  intros [_ Hw] Hk. apply map_zseq_ext. intros p Hp. cbv beta. rewrite at_row_same, !at_row_down by lia.
  rewrite !gmul_0_l, !Z.lxor_0_r by auto with bytes.
  apply byte_eq; [auto with bytes..|]. intros b Hb. unfold lane at 1. rewrite byte_of_bit by done.
  destruct (inv_mix_even_bits batch b Hw Hb) as [_ ->]; [|lia]. rewrite !xor_bits_app, !Z.lxor_spec.
  by rewrite !lane_times by (done || cbn; tauto).
Qed.
Lemma inv_mix_columns_block batch k : batch_ok batch -> 0 <= k < 4 ->
  block_of (aes_nohw_inv_mix_columns batch) k = InvMixColumns (block_of batch k).
Proof.
  intros Hb Hk. unfold aes_nohw_inv_mix_columns. rewrite mix_columns_block, inv_mix_even_block by (done || by apply inv_mix_even_ok).
  apply mix_even_product, block_of_bytes.
Qed.
