(* ===== verification/AesBlock.v ===== *)
(** * Moving blocks in and out of bitsliced form.

    Compact blocks, the transposition of a batch, and the bytes of memory. *)

From S2P Require Import Prelude Mem Modes Schedule Fips197 Aes Linear AesSlice.
Import Fips197.

(** ** Transposing a batch *)

(** The words of a batch after transposition, written out. *)
Definition transposed (batch : AES_NOHW_BATCH) : list Z :=
  ltac:(let t := eval cbv -[Z.lxor Z.lor Z.land Z.shiftl Z.shiftr u64 word_var] in
    (aes_nohw_transpose [word_var batch 0; word_var batch 1; word_var batch 2; word_var batch 3;
                         word_var batch 4; word_var batch 5; word_var batch 6; word_var batch 7]) in exact t).

Lemma transpose_transposed batch : batch_ok batch -> aes_nohw_transpose batch = transposed batch.
Proof. intros Hb. by destruct (batch_cases batch Hb) as (w0 & w1 & w2 & w3 & w4 & w5 & w6 & w7 & ->). Qed.

(** The bit of the batch that comes to bit [i] of word [b]: squares of 4 by 4 bits are transposed. *)
Definition transpose_source (b i : Z) : Z * Z := (4 * (b / 4) + i mod 4, 4 * (i / 4) + b mod 4).

Lemma transposed_bits batch b : Forall word64 batch -> 0 <= b < 8 -> word64 (znth (transposed batch) b) /\
  forall i, 0 <= i < 64 -> Z.testbit (znth (transposed batch) b) i = xor_bits batch [transpose_source b i].
Proof.
  intros Hw Hb. assert (H : b = 0 \/ b = 1 \/ b = 2 \/ b = 3 \/ b = 4 \/ b = 5 \/ b = 6 \/ b = 7) by lia.
  destruct H as [->|[->|[->|[->|[->|[->|[->| ->]]]]]]];
    (lazymatch goal with |- word64 (znth _ ?b) /\ _ =>
      let t := eval cbv beta delta [transposed] in (transposed batch) in
      let rec pick l n := lazymatch n with O => lazymatch l with ?x :: _ => x end | S ?n => lazymatch l with _ :: ?l => pick l n end end in
      let n := eval vm_compute in (Z.to_nat b) in let w := pick t n in change (znth (transposed batch) b) with w end);
    linear batch; done.
Qed.

Lemma transpose_bit batch b i : batch_ok batch -> 0 <= b < 8 -> 0 <= i < 64 ->
  Z.testbit (znth (aes_nohw_transpose batch) b) i = Z.testbit (znth batch (4 * (b / 4) + i mod 4)) (4 * (i / 4) + b mod 4).
Proof.
  intros Hb Hb8 Hi. rewrite transpose_transposed by done. destruct (transposed_bits batch b (proj2 Hb) Hb8) as [_ ->]; [|done].
  cbn [xor_bits transpose_source]. apply xorb_false_r.
Qed.
Lemma transpose_ok batch : batch_ok batch -> batch_ok (aes_nohw_transpose batch).
Proof.
  intros Hb. rewrite transpose_transposed by done. apply ok_of_words; [done|]. intros b Hb8. by apply transposed_bits; [apply Hb|].
Qed.

Lemma batch_get_word batch k w : 0 <= w < 2 -> znth (aes_nohw_batch_get batch k) w = znth batch (4 * w + k).
Proof.
  intros Hw. assert (H : w = 0 \/ w = 1) by lia. destruct H as [-> | ->]; [done|]. rewrite Z.add_comm. done.
Qed.

Lemma transpose_block batch k : batch_ok batch -> 0 <= k < 4 ->
  block_of (aes_nohw_transpose batch) k = compact_bytes (aes_nohw_batch_get batch k).
Proof.
  intros Hb Hk. apply map_zseq_ext. intros p Hp. apply byte_of_ext. intros b Hb8. rewrite transpose_bit by (done || lia).
  replace ((4 * p + k) mod 4) with k by zarith. replace ((4 * p + k) / 4) with p by zarith. by rewrite batch_get_word by zarith.
Qed.
Lemma transpose_back batch k : batch_ok batch -> 0 <= k < 4 ->
  compact_bytes (aes_nohw_batch_get (aes_nohw_transpose batch) k) = block_of batch k.
Proof.
  intros Hb Hk. apply map_zseq_ext. intros p Hp. apply byte_of_ext. intros b Hb8.
  rewrite batch_get_word by zarith.
  rewrite transpose_bit by (done || zarith). do 2 f_equal; zarith.
Qed.

(** ** Compact blocks and the bytes of memory *)

Lemma le_val_bit l q t : bytes_ok l -> 0 <= q < zlen l -> 0 <= t < 8 -> Z.testbit (le_val l) (8 * q + t) = Z.testbit (znth l q) t.
Proof.
  revert q. induction l as [|x l IH]; intros q Hl Hq Ht; [change (zlen []) with 0 in Hq; lia|].
  apply Forall_cons in Hl as [Hx Hl]. rewrite zlen_cons in Hq. cbn [le_val].
  replace (x + 256 * le_val l) with (Z.lor (Z.shiftl (le_val l) 8) x) by (rewrite lor_add by (done || lia); lia).
  rewrite Z.lor_spec, Z.shiftl_spec by lia. destruct (Z.eq_dec q 0) as [->|Hq0].
  - rewrite (Z.testbit_neg_r (le_val l)) by lia. done.
  - replace (8 * q + t - 8) with (8 * (q - 1) + t) by lia. rewrite IH by (done || lia).
    rewrite <- (Z.mod_small x (2 ^ 8)) by exact Hx. rewrite Z.mod_pow2_bits_high, orb_false_r by lia.
    unfold znth. replace (Z.to_nat q) with (S (Z.to_nat (q - 1))) by lia. done.
Qed.

Lemma words_of_bytes_ok inp : state_ok inp -> Forall word64 (words_of_bytes inp).
Proof.
  intros [Hb Hl]. unfold words_of_bytes.
  assert (H : forall l, bytes_ok l -> zlen l = 8 -> word64 (le_val l)).
  { intros l Hlb Hll. pose proof (le_val_range l Hlb) as Hr. rewrite Hll in Hr. exact Hr. }
  repeat (apply Forall_cons; split); [..|by apply Forall_nil]; apply H.
  - by apply Forall_ztake.
  - rewrite zlen_ztake. lia.
  - by apply Forall_ztake, Forall_zdrop.
  - rewrite zlen_ztake, zlen_zdrop. lia.
Qed.

Lemma words_of_bytes_bit inp p t : state_ok inp -> 0 <= p < 16 -> 0 <= t < 8 ->
  Z.testbit (znth (words_of_bytes inp) (p / 8)) (8 * (p mod 8) + t) = Z.testbit (znth inp p) t.
Proof.
  intros [Hb Hl] Hp Ht. unfold words_of_bytes. destruct (Z.lt_ge_cases p 8).
  - replace (p / 8) with 0 by zarith. replace (p mod 8) with p by zarith. change (znth [?x; ?y] 0) with x.
    rewrite le_val_bit by (done || (by apply Forall_ztake) || (rewrite zlen_ztake; lia)). f_equal.
    rewrite <- (ztake_zdrop 8 inp) at 2. rewrite znth_app_l by (rewrite zlen_ztake; lia). done.
  - replace (p / 8) with 1 by zarith. replace (p mod 8) with (p - 8) by zarith. change (znth [?x; ?y] 1) with y.
    rewrite le_val_bit by (done || (by apply Forall_ztake, Forall_zdrop) || (rewrite zlen_ztake, zlen_zdrop; lia)). f_equal.
    rewrite ztake_all by (rewrite zlen_zdrop; lia). rewrite <- (ztake_zdrop 8 inp) at 2.
    rewrite znth_app_r by (rewrite zlen_ztake; lia). f_equal. rewrite zlen_ztake. lia.
Qed.

(** Word [n] of a pair that is given by its definition. *)
Ltac linear_pair f inp env :=
  lazymatch goal with |- word64 (znth _ ?b) /\ _ =>
    let t := eval cbv beta zeta delta [f] in (f inp) in
    lazymatch t with [?x; ?y] => lazymatch b with 0 => change (znth (f inp) 0) with x | 1 => change (znth (f inp) 1) with y end end
  end; linear env.

Lemma compact_block_bits inp j : state_ok inp -> 0 <= j < 2 -> word64 (znth (aes_nohw_compact_block inp) j) /\
  forall i, 0 <= i < 64 -> Z.testbit (znth (aes_nohw_compact_block inp) j) i =
    xor_bits (words_of_bytes inp) [(i / 4 / 8, 8 * (i / 4 mod 8) + (4 * j + i mod 4))].
Proof.
  intros Hs Hj. assert (H : j = 0 \/ j = 1) by lia.
  destruct H as [-> | ->]; linear_pair aes_nohw_compact_block inp (words_of_bytes inp); by apply words_of_bytes_ok.
Qed.

Lemma ok_of_pair blk : length blk = 2%nat -> (forall j, 0 <= j < 2 -> word64 (znth blk j)) -> compact_ok blk.
Proof.
  intros Hl H. split; [done|]. destruct blk as [|x [|y []]]; try done.
  repeat (apply Forall_cons; split); [apply (H 0)|apply (H 1)|by apply Forall_nil]; lia.
Qed.
Lemma compact_block_ok inp : state_ok inp -> compact_ok (aes_nohw_compact_block inp).
Proof. intros Hs. apply ok_of_pair; [done|]. intros j Hj. by apply compact_block_bits. Qed.

Lemma compact_block_bytes inp : state_ok inp -> compact_bytes (aes_nohw_compact_block inp) = inp.
Proof.
  intros Hs. rewrite <- (state_map_at inp) at 2 by apply Hs. apply map_zseq_ext. intros p Hp. unfold at_.
  replace (4 * (p / 4 mod 4) + p mod 4 mod 4) with p by zarith.
  apply byte_eq; [auto with bytes|apply znth_byte, Hs|]. intros b Hb. unfold compact_byte. rewrite byte_of_bit by done.
  destruct (compact_block_bits inp (b / 4) Hs) as [_ ->]; [zarith| |zarith]. cbn [xor_bits]. rewrite xorb_false_r, <- (words_of_bytes_bit inp p b) by done.
  f_equal; [f_equal; zarith|zarith].
Qed.

(** The words that [aes_nohw_uncompact_block] stores. *)
Definition uncompact_words (inp : compact) : list Z :=
  [aes_nohw_uncompact_word (Z.lor (Z.land (znth inp 0) 0x00000000ffffffff) (u64 (Z.shiftl (znth inp 1) 32)));
   aes_nohw_uncompact_word (Z.lor (Z.land (znth inp 1) 0xffffffff00000000) (Z.shiftr (znth inp 0) 32))].

Lemma uncompact_bits inp j : Forall word64 inp -> 0 <= j < 2 -> word64 (znth (uncompact_words inp) j) /\
  forall i, 0 <= i < 64 -> Z.testbit (znth (uncompact_words inp) j) i = xor_bits inp [(i mod 8 / 4, 4 * (8 * j + i / 8) + i mod 4)].
Proof.
  intros Hs Hj. assert (H : j = 0 \/ j = 1) by lia. destruct H as [-> | ->]; linear_pair uncompact_words inp inp; done.
Qed.

Lemma le_bytes_8_at w : le_bytes 8 w = (fun q => byte_of (fun t => Z.testbit w (8 * q + t))) <$> zseq 8.
Proof.
  assert (H : forall n v, le_bytes n v = (fun k => u8 (Z.shiftr v (8 * Z.of_nat k))) <$> seq 0 n).
  { induction n as [|n IH]; intros v; [done|]. cbn [le_bytes seq fmap list_fmap]. f_equal.
    - rewrite <- fmap_S_seq, <- list_fmap_compose, IH. apply list_fmap_ext. intros i x _. cbn. f_equal.
      change 256 with (2 ^ 8). rewrite <- (Z.shiftr_div_pow2 v 8), Z.shiftr_shiftr by lia. f_equal. lia. }
  rewrite H. unfold zseq. rewrite <- list_fmap_compose. apply list_fmap_ext. intros i x _. cbn.
  apply byte_eq; [apply u8_range|apply byte_of_byte|]. intros b Hb. rewrite byte_of_bit by done. unfold u8. change 256 with (2 ^ 8).
  rewrite Z.mod_pow2_bits_low, Z.shiftr_spec by lia. f_equal. lia.
Qed.

Lemma uncompact_block_bytes inp : Forall word64 inp -> aes_nohw_uncompact_block inp = compact_bytes inp.
Proof.
  intros Hs. assert (E : aes_nohw_uncompact_block inp = concat (le_bytes 8 <$> uncompact_words inp)).
  { cbv beta zeta delta [aes_nohw_uncompact_block uncompact_words]. cbn [fmap list_fmap concat]. by rewrite app_nil_r. }
  pose proof (uncompact_bits inp) as Hbits. rewrite E. clear E. assert (L : length (uncompact_words inp) = 2%nat) by done.
  destruct (uncompact_words inp) as [|b0 [|b1 []]]; try done. cbn [fmap list_fmap concat]. rewrite app_nil_r, !le_bytes_8_at.
  unfold compact_bytes. change (zseq 16) with (zseq 8 ++ ((fun q => q + 8) <$> zseq 8)).
  rewrite fmap_app, <- list_fmap_compose. f_equal; apply map_zseq_ext; intros q Hq; apply byte_of_ext; intros b Hb.
  - destruct (Hbits 0 Hs) as [_ H]; [lia|]. change (znth [b0; b1] 0) with b0 in H. rewrite H by lia. cbn [xor_bits]. rewrite xorb_false_r.
    f_equal; [f_equal; zarith|zarith].
  - destruct (Hbits 1 Hs) as [_ H]; [lia|]. change (znth [b0; b1] 1) with b1 in H. rewrite H by lia. cbn [xor_bits]. rewrite xorb_false_r.
    f_equal; [f_equal; zarith|zarith].
Qed.

(** ** Blocks of a batch *)

Lemma zeros_batch_ok : batch_ok (replicate 8 0).
Proof. split; [done|]. apply Forall_replicate, word64_0. Qed.

Lemma set_word_at l i v j : 0 <= i < zlen l -> 0 <= j -> znth (set_word l i v) j = if i =? j then v else znth l j.
Proof. apply znth_insert. Qed.
Lemma zlen_set_word l i v : zlen (set_word l i v) = zlen l.
Proof. apply zlen_insert. Qed.
Lemma batch_zlen batch : batch_ok batch -> zlen (A := Z) batch = 8.
Proof. intros [Hl _]. unfold zlen. change (length (A := Z) batch) with (length (A := aes_word_t) batch). by rewrite Hl. Qed.

Lemma batch_set_ok batch blk i : batch_ok batch -> compact_ok blk -> batch_ok (aes_nohw_batch_set batch blk i).
Proof.
  intros [Hl Hw] [_ Hb]. split; [unfold aes_nohw_batch_set, set_word; by rewrite !length_insert|].
  unfold aes_nohw_batch_set, set_word. by repeat apply Forall_insert; try apply word64_znth.
Qed.
Lemma batch_get_ok batch i : batch_ok batch -> compact_ok (aes_nohw_batch_get batch i).
Proof. intros [_ Hw]. split; [done|]. unfold aes_nohw_batch_get. repeat (apply Forall_cons; split); try apply word64_znth; try done. Qed.
Lemma batch_get_set batch blk i j : batch_ok batch -> compact_ok blk -> 0 <= i < 4 -> 0 <= j < 4 ->
  aes_nohw_batch_get (aes_nohw_batch_set batch blk i) j = if i =? j then blk else aes_nohw_batch_get batch j.
Proof.
  intros Hb [Hc _] Hi Hj. pose proof (batch_zlen batch Hb) as Hl. unfold aes_nohw_batch_get, aes_nohw_batch_set.
  rewrite !set_word_at by (rewrite ?zlen_set_word; lia).
  destruct blk as [|x [|y []]]; try done. destruct (Z.eqb_spec i j) as [->|Hne].
  - rewrite Z.eqb_refl. destruct (Z.eqb_spec (j + 4) j); [lia|]. done.
  - destruct (Z.eqb_spec (i + 4) j), (Z.eqb_spec (i + 4) (j + 4)), (Z.eqb_spec i (j + 4)); try lia. done.
Qed.

(** Setting the blocks [f 0], ..., [f (n - 1)] in turn. *)
Lemma batch_sets (f : Z -> compact) n batch : (forall i, 0 <= i < Z.of_nat n -> compact_ok (f i)) -> Z.of_nat n <= 4 -> batch_ok batch ->
  let b := fold_left (fun b i => aes_nohw_batch_set b (f i) i) (zseq (Z.of_nat n)) batch in
  batch_ok b /\ forall k, 0 <= k < Z.of_nat n -> aes_nohw_batch_get b k = f k.
Proof.
  unfold zseq. rewrite Nat2Z.id. induction n as [|n IH]; intros Hf Hn Hb; [split; [done|lia]|].
  rewrite seq_S, fmap_app, fold_left_app. cbn [fmap list_fmap fold_left Nat.add]. cbv zeta in *.
  destruct IH as [Hok Hget]; [intros i Hi; apply Hf; lia|lia|done|]. set (b := fold_left _ _ _) in *.
  pose proof (Hf (Z.of_nat n) ltac:(lia)) as Hc. split; [by apply batch_set_ok|]. intros k Hk. rewrite batch_get_set by (done || lia).
  destruct (Z.eqb_spec (Z.of_nat n) k) as [->|Hne]; [done|]. apply Hget. lia.
Qed.

Lemma state_slice inp k n : bytes_ok inp -> 16 * n <= zlen inp -> 0 <= k < n -> state_ok (ztake 16 (zdrop (16 * k) inp)).
Proof. intros Hb Hl Hk. split; [by apply Forall_ztake, Forall_zdrop|]. rewrite zlen_ztake, zlen_zdrop. lia. Qed.

Lemma to_batch_spec inp n : bytes_ok inp -> 0 <= n <= 4 -> 16 * n <= zlen inp ->
  batch_ok (aes_nohw_to_batch inp n) /\ forall k, 0 <= k < n -> block_of (aes_nohw_to_batch inp n) k = ztake 16 (zdrop (16 * k) inp).
Proof.
  intros Hb Hn Hl. unfold aes_nohw_to_batch. rewrite <- (Z2Nat.id n) by lia.
  destruct (batch_sets (fun i => aes_nohw_compact_block (ztake 16 (zdrop (16 * i) inp))) (Z.to_nat n) (replicate 8 0)) as [Hok Hget];
    [intros i Hi; apply compact_block_ok, (state_slice _ _ n); done || lia|lia|apply zeros_batch_ok|].
  cbv zeta. split; [by apply transpose_ok|]. intros k Hk. rewrite transpose_block, Hget by (done || lia).
  apply compact_block_bytes, (state_slice _ _ n); done || lia.
Qed.

Lemma from_batch_spec batch n : batch_ok batch -> 0 <= n <= 4 -> aes_nohw_from_batch n batch = concat (block_of batch <$> zseq n).
Proof.
  intros Hb Hn. unfold aes_nohw_from_batch. f_equal. apply map_zseq_ext. intros k Hk.
  rewrite uncompact_block_bytes by (apply batch_get_ok, transpose_ok; done). apply transpose_back; [done|lia].
Qed.

Lemma expand_round_key_spec tmp : compact_ok tmp ->
  batch_ok (expand_round_key tmp) /\ forall k, 0 <= k < 4 -> block_of (expand_round_key tmp) k = compact_bytes tmp.
Proof.
  intros Hc. unfold expand_round_key, AES_NOHW_BATCH_SIZE. destruct (batch_sets (fun _ => tmp) 4 (replicate 8 0)) as [Hok Hget];
    [done|lia|apply zeros_batch_ok|]. cbv zeta. split; [by apply transpose_ok|]. intros k Hk. by rewrite transpose_block, Hget.
Qed.

Lemma sub_block_spec blk : compact_ok blk -> compact_ok (aes_nohw_sub_block blk) /\
  compact_bytes (aes_nohw_sub_block blk) = SubBytes (compact_bytes blk).
Proof.
  intros Hc. unfold aes_nohw_sub_block. cbv zeta. set (b := aes_nohw_batch_set _ blk 0).
  assert (Hb : batch_ok b) by (apply batch_set_ok; [apply zeros_batch_ok|done]).
  pose proof (transpose_ok _ Hb) as Ht. pose proof (sub_bytes_ok _ Ht) as Hs. split; [by apply batch_get_ok, transpose_ok|].
  rewrite transpose_back, sub_bytes_block, transpose_block by (done || lia).
  unfold b. rewrite batch_get_set by (apply zeros_batch_ok || done || lia). done.
Qed.
