(* ===== verification/AesKey.v ===== *)
(** * The AES key schedule.

    [set_key_spec]: the round keys that [AES_set_encrypt_key] stores, in compact
    form, are those of the standard, for the three key sizes. *)

From S2P Require Import Prelude Mem Modes Schedule Fips197 Aes Linear AesSlice AesBlock.
Import Fips197.

(** ** The words of the standard, without an end *)

Lemma word_at_app_l (w1 w2 : list (list Z)) i : 0 <= i < zlen w1 -> word_at (w1 ++ w2) i = word_at w1 i.
Proof. intros H. unfold word_at, zlen in *. apply app_nth1. lia. Qed.
Lemma word_at_app_r (w1 w2 : list (list Z)) i : zlen w1 = i -> word_at (w1 ++ w2) i = word_at w2 0.
Proof. intros H. unfold word_at, zlen in *. rewrite app_nth2 by lia. f_equal. lia. Qed.

Section words.
Context (key : list Z) (Hkey : bytes_ok key).
Notation n := (Nk key).
Context (Hlen : zlen key = 4 * n) (Hn : 0 < n).

Lemma zlen_key_words : zlen (key_words n key) = n.
Proof using Hn. unfold key_words. rewrite zlen_map. unfold zlen, zseq. rewrite length_fmap, length_seq. lia. Qed.
Lemma zlen_expand k : zlen (expand n key k) = n + Z.of_nat k.
Proof using Hn.
  induction k as [|k IH]; cbn [expand Nat.iter nat_rect]; [rewrite zlen_key_words; lia|].
  change (nat_rect _ _ _ k) with (expand n key k). rewrite zlen_app, IH. change (zlen [_]) with 1. lia.
Qed.
Lemma expand_S k : expand n key (S k) = expand n key k ++ [next_word n (expand n key k)].
Proof using. done. Qed.

Lemma expand_stable k k' i : 0 <= i < n + Z.of_nat k -> word_at (expand n key (k + k')) i = word_at (expand n key k) i.
Proof using Hn.
  intros Hi. induction k' as [|k' IH]; [by rewrite Nat.add_0_r|].
  rewrite Nat.add_succ_r, expand_S, word_at_app_l; [done|]. rewrite zlen_expand. lia.
Qed.

(** Word [i] of the expanded key, however long it is made. *)
Definition key_word (i : Z) : list Z := word_at (expand n key (Z.to_nat (i - n + 1))) i.
Lemma key_word_in k i : 0 <= i < n + Z.of_nat k -> word_at (expand n key k) i = key_word i.
Proof using Hn.
  intros Hi. unfold key_word. destruct (Z.le_gt_cases (i - n + 1) (Z.of_nat k)).
  - replace k with (Z.to_nat (i - n + 1) + (k - Z.to_nat (i - n + 1)))%nat by lia. apply expand_stable. lia.
  - replace (Z.to_nat (i - n + 1)) with (k + (Z.to_nat (i - n + 1) - k))%nat by lia. symmetry. apply expand_stable. lia.
Qed.

Lemma key_word_first i : 0 <= i < n -> key_word i = ztake 4 (zdrop (4 * i) key).
Proof using Hn.
  intros Hi. rewrite <- (key_word_in 0) by lia. unfold expand, Nat.iter, word_at, key_words, zseq. cbn [nat_rect].
  rewrite nth_lookup, <- list_fmap_compose, list_lookup_fmap, lookup_seq_lt by lia. cbn. do 2 f_equal. lia.
Qed.
Lemma key_word_next i : n <= i -> key_word i = xor_bytes (key_word (i - n))
  (if i mod n =? 0 then xor_bytes (SubWord (RotWord (key_word (i - 1)))) (Rcon (i / n))
   else if (6 <? n) && (i mod n =? 4) then SubWord (key_word (i - 1)) else key_word (i - 1)).
Proof using Hn.
  intros Hi. unfold key_word at 1. replace (Z.to_nat (i - n + 1)) with (S (Z.to_nat (i - n))) by lia. rewrite expand_S.
  pose proof (zlen_expand (Z.to_nat (i - n))) as Hz. rewrite Z2Nat.id in Hz by lia.
  rewrite word_at_app_r by lia. change (word_at [?x] 0) with x. unfold next_word. rewrite Hz.
  replace (n + (i - n)) with i by lia. rewrite !(key_word_in (Z.to_nat (i - n))) by lia. done.
Qed.

Lemma length_key_word i : 0 <= i -> length (key_word i) = 4%nat.
Proof using Hlen Hn.
  intros Hi. revert Hi. apply (Zlt_0_ind (fun i => length (key_word i) = 4%nat)). clear i. intros i IH Hi.
  destruct (Z.lt_ge_cases i n) as [H|H].
  - rewrite key_word_first by lia. unfold ztake, zdrop. rewrite length_take, length_drop. unfold zlen in Hlen. lia.
  - rewrite key_word_next by lia. pose proof (IH (i - n) ltac:(lia)) as H1. pose proof (IH (i - 1) ltac:(lia)) as H2.
    unfold xor_bytes. rewrite length_zip_with, H1. repeat case_match; unfold SubWord; rewrite ?length_zip_with, ?length_fmap, ?H2; [|done..].
    unfold RotWord. rewrite length_app, length_drop, length_take, H2. done.
Qed.

(** Byte [r] of word [i]. *)
Definition key_byte (i r : Z) : Z := znth (key_word i) r.
Definition rcon_byte (i r : Z) : Z := if r =? 0 then Nat.iter (Z.to_nat (i - 1)) xtime 1 else 0.

Lemma key_byte_next i r : n <= i -> 0 <= r < 4 -> key_byte i r = Z.lxor (key_byte (i - n) r)
  (if i mod n =? 0 then Z.lxor (sbox (key_byte (i - 1) ((r + 1) mod 4))) (rcon_byte (i / n) r)
   else if (6 <? n) && (i mod n =? 4) then sbox (key_byte (i - 1) r) else key_byte (i - 1) r).
Proof using Hlen Hn.
  intros Hi Hr. unfold key_byte. rewrite (key_word_next i) by done.
  pose proof (length_key_word (i - n) ltac:(lia)) as L1. pose proof (length_key_word (i - 1) ltac:(lia)) as L2.
  destruct (key_word (i - n)) as [|a0 [|a1 [|a2 [|a3 []]]]]; try done. destruct (key_word (i - 1)) as [|b0 [|b1 [|b2 [|b3 []]]]]; try done.
  assert (H : r = 0 \/ r = 1 \/ r = 2 \/ r = 3) by lia.
  destruct (i mod n =? 0); [|destruct ((6 <? n) && (i mod n =? 4))]; destruct H as [->|[->|[->| ->]]]; reflexivity.
Qed.
Lemma key_byte_first i r : 0 <= i < n -> 0 <= r < 4 -> key_byte i r = znth key (4 * i + r).
Proof using Hlen Hn.
  intros Hi Hr. unfold key_byte. rewrite key_word_first by lia.
  rewrite <- (ztake_zdrop (4 * i) key) at 2. rewrite znth_app_r by (rewrite zlen_ztake; lia). rewrite zlen_ztake.
  replace (4 * i + r - Z.max 0 (Z.min (4 * i) (zlen key))) with r by lia.
  rewrite <- (ztake_zdrop 4 (zdrop (4 * i) key)) at 2. rewrite znth_app_l; [done|]. rewrite zlen_ztake, zlen_zdrop. lia.
Qed.

(** The four words from [m] on. *)
Definition key_block (m : Z) : list Z := state_map (fun c r => key_byte (m + c) r).

Lemma round_key_block i : 0 <= i <= Nr key -> round_key key i = key_block (4 * i).
Proof using Hlen Hn.
  intros Hi. unfold round_key, KeyExpansion. unfold Nr in *. rewrite !key_word_in by lia.
  pose proof (length_key_word (4 * i) ltac:(lia)) as L0. pose proof (length_key_word (4 * i + 1) ltac:(lia)) as L1.
  pose proof (length_key_word (4 * i + 2) ltac:(lia)) as L2. pose proof (length_key_word (4 * i + 3) ltac:(lia)) as L3.
  unfold key_block, state_map. change (zseq 16) with [0; 1; 2; 3; 4; 5; 6; 7; 8; 9; 10; 11; 12; 13; 14; 15].
  cbn [fmap list_fmap]. unfold key_byte.
  repeat match goal with |- context [?a / 4] => let v := eval vm_compute in (a / 4) in change (a / 4) with v end.
  repeat match goal with |- context [?a mod 4] => let v := eval vm_compute in (a mod 4) in change (a mod 4) with v end.
  rewrite !Z.add_0_r.
  destruct (key_word (4 * i)) as [|? [|? [|? [|? []]]]], (key_word (4 * i + 1)) as [|? [|? [|? [|? []]]]],
    (key_word (4 * i + 2)) as [|? [|? [|? [|? []]]]], (key_word (4 * i + 3)) as [|? [|? [|? [|? []]]]]; try done.
Qed.
End words.

(** ** Blocks that are sums of bytes of other blocks *)

Definition nth_block (bs : list compact) (n : Z) : compact := nth (Z.to_nat n) bs [].
(** The bytes [l] of the blocks [bs], added up. *)
Definition xor_sources (bs : list compact) (l : list (Z * Z)) : Z :=
  foldr (fun '(n, q) acc => Z.lxor (compact_byte (nth_block bs n) q) acc) 0 l.
(** For byte sources [src] of the byte in column [c] and row [r], those of bit [i] of a word. *)
Definition bit_sources (src : Z -> Z -> list (Z * Z)) (i : Z) : list (Z * Z) :=
  (fun '(n, q) => (n, 4 * q + i mod 4)) <$> src (i / 16) (i / 4 mod 4).
Definition words_at (bs : list compact) (j : Z) : list Z := (fun b : compact => znth b j) <$> bs.

Lemma word_of_block bs n j : znth (words_at bs j) n = znth (nth_block bs n) j.
Proof.
  unfold words_at, nth_block. assert (E : znth [] j = 0) by (unfold znth; by destruct (Z.to_nat j)).
  unfold znth at 1. rewrite <- E at 1. apply (map_nth (fun b : compact => znth b j)).
Qed.

Lemma per_word_sources (f : list Z -> aes_word_t) src bs : Forall compact_ok bs ->
  (forall env, Forall word64 env -> word64 (f env) /\ forall i, 0 <= i < 64 -> Z.testbit (f env) i = xor_bits env (bit_sources src i)) ->
  compact_ok (per_word (fun j => f (words_at bs j))) /\
  forall c r, 0 <= c < 4 -> 0 <= r < 4 -> compact_byte (per_word (fun j => f (words_at bs j))) (4 * c + r) = xor_sources bs (src c r).
Proof.
  intros Hbs Hf. assert (He : forall j, Forall word64 (words_at bs j)).
  { intros j. apply Forall_fmap. eapply Forall_impl; [exact Hbs|]. intros b [_ Hb]. by apply word64_znth. }
  split; [split; [done|]; unfold per_word; apply Forall_fmap, Forall_true; intros j; by apply Hf|].
  intros c r Hc Hr. assert (Hx : forall l, is_byte (xor_sources bs l)).
  { induction l as [|[n q] l IH]; cbn; [unfold is_byte; lia|auto with bytes]. }
  apply byte_eq; [auto with bytes|apply Hx|]. intros b Hb. unfold compact_byte at 1. rewrite byte_of_bit by done.
  unfold per_word. rewrite (znth_map_zseq (fun j => f (words_at bs j))) by (unfold AES_NOHW_BLOCK_WORDS; zarith).
  destruct (Hf (words_at bs (b / 4)) (He _)) as [_ ->]; [|zarith]. unfold bit_sources.
  replace ((4 * (4 * c + r) + b mod 4) / 16) with c by zarith. replace ((4 * (4 * c + r) + b mod 4) / 4 mod 4) with r by zarith.
  replace ((4 * (4 * c + r) + b mod 4) mod 4) with (b mod 4) by zarith.
  induction (src c r) as [|[n q] l IH]; cbn [fmap list_fmap xor_bits xor_sources foldr]; [by rewrite Z.bits_0|].
  unfold xor_sources in IH. rewrite IH, Z.lxor_spec, word_of_block. f_equal. unfold compact_byte. by rewrite byte_of_bit.
Qed.

(** The block that [aes_nohw_rcon_slice] makes: the constant, and zeros. *)
Definition rcon_block (rcon : Z) : compact := per_word (aes_nohw_rcon_slice rcon).
Lemma rcon_block_spec rcon : is_byte rcon -> compact_ok (rcon_block rcon) /\
  forall c r, 0 <= c < 4 -> 0 <= r < 4 -> compact_byte (rcon_block rcon) (4 * c + r) = if (c =? 0) && (r =? 0) then rcon else 0.
Proof.
  intros Hr. assert (H : let blk := rcon_block rcon in forallb (fun w => (0 <=? w) && (w <? 2 ^ 64)) blk &&
    forallb (fun c => forallb (fun r => compact_byte blk (4 * c + r) =? if (c =? 0) && (r =? 0) then rcon else 0) (zseq 4)) (zseq 4) = true).
  { unfold is_byte in Hr. byte_check (fun rcon => let blk := rcon_block rcon in forallb (fun w => (0 <=? w) && (w <? 2 ^ 64)) blk &&
      forallb (fun c => forallb (fun r => compact_byte blk (4 * c + r) =? if (c =? 0) && (r =? 0) then rcon else 0) (zseq 4)) (zseq 4)) rcon as H. exact H. }
  cbv zeta in H. apply andb_prop in H as [H1 H2]. split.
  - split; [done|]. apply Forall_forall. intros w Hw. rewrite forallb_forall in H1. apply list_elem_of_In, H1 in Hw. bool_hyps. split; lia.
  - intros c r Hc Hr'. apply (forallb_zseq _ _ H2) in Hc. cbv beta in Hc. apply (forallb_zseq _ _ Hc) in Hr'. by apply Z.eqb_eq.
Qed.

Lemma compact_byte_at blk p : 0 <= p < 16 -> znth (compact_bytes blk) p = compact_byte blk p.
Proof. apply (znth_map_zseq (compact_byte blk)). Qed.
Lemma sub_block_byte blk p : compact_ok blk -> 0 <= p < 16 -> compact_byte (aes_nohw_sub_block blk) p = sbox (compact_byte blk p).
Proof.
  intros Hc Hp. rewrite <- !compact_byte_at by done. rewrite (proj2 (sub_block_spec blk Hc)).
  unfold SubBytes, compact_bytes. by rewrite <- list_fmap_compose, !znth_map_zseq.
Qed.

(** ** The words of each step *)

(** A step is a claim about bits of one word, checked by evaluation. *)
Definition step_bits (f : list Z -> aes_word_t) (src : Z -> Z -> list (Z * Z)) : Prop :=
  forall env, Forall word64 env -> word64 (f env) /\ forall i, 0 <= i < 64 -> Z.testbit (f env) i = xor_bits env (bit_sources src i).
Ltac step_bits f :=
  intros env Henv; lazymatch goal with |- word64 ?t /\ _ => let t' := eval cbv beta zeta delta [f] in t in change t with t' end;
  lazymatch goal with |- word64 ?t /\ ?H => change (word64 t /\ forall i, 0 <= i < 64 -> Z.testbit t i = xor_bits env (bit_sources ltac:(
    lazymatch H with context [bit_sources ?s] => exact s end) i)) end;
  linear env; exact Henv.

(** The bytes above and at column [c], with those of [l]. *)
Definition column (n c r : Z) : list (Z * Z) := (fun d => (n, 4 * d + r)) <$> zseq (c + 1).

(** The words [block], [sub] and the slice of the constant. *)
Definition rot_word (env : list Z) : aes_word_t :=
  let b := aes_nohw_xor (znth env 0) (znth env 2) in
  let b := aes_nohw_xor b (aes_nohw_shift_right (aes_nohw_rotate_rows_down (znth env 1)) 12) in
  propagate b.
Definition rot_sources (c r : Z) : list (Z * Z) := column 0 c r ++ (1, 12 + (r + 1) mod 4) :: column 2 c r.
Lemma rot_word_bits : step_bits rot_word rot_sources.
Proof. step_bits rot_word. Qed.

Definition sub_word (env : list Z) : aes_word_t := propagate (aes_nohw_xor (znth env 0) (aes_nohw_shift_right (znth env 1) 12)).
Definition sub_sources (c r : Z) : list (Z * Z) := column 0 c r ++ [(1, 12 + r)].
Lemma sub_word_bits : step_bits sub_word sub_sources.
Proof. step_bits sub_word. Qed.

(** 192-bit keys: the words [block2], of which the upper half is 0, [sub], the constant and [block1]. *)
Definition rest_word (env : list Z) : aes_word_t :=
  let b2 := aes_nohw_or (aes_nohw_and (znth env 0) AES_NOHW_COL01_MASK) (aes_nohw_shift_left (aes_nohw_xor (znth env 3) (znth env 2)) 8) in
  let b2 := aes_nohw_xor b2 (aes_nohw_and (aes_nohw_shift_left (aes_nohw_rotate_rows_down (znth env 1)) 4) AES_NOHW_COL2_MASK) in
  aes_nohw_xor b2 (aes_nohw_and (aes_nohw_shift_left b2 4) AES_NOHW_COL3_MASK).
Definition rest_sources (c r : Z) : list (Z * Z) :=
  if c <? 2 then [(0, 4 * c + r)] else column 3 (c - 2) r ++ (1, 4 + (r + 1) mod 4) :: column 2 (c - 2) r.
Lemma rest_word_bits : step_bits rest_word rest_sources.
Proof. step_bits rest_word. Qed.

(** The words of the old block and of the new one before it. *)
Definition shifted_word (env : list Z) : aes_word_t :=
  let b1 := aes_nohw_shift_right (znth env 0) 8 in
  let b1 := aes_nohw_or b1 (aes_nohw_shift_left (znth env 1) 8) in
  let b1 := aes_nohw_xor b1 (aes_nohw_shift_right (znth env 1) 12) in
  propagate b1.
(** The columns 2 and 3 of the first block and 0 and 1 of the second. *)
Definition middle (c r : Z) : list (Z * Z) := (fun d => if d <? 2 then (0, 8 + 4 * d + r) else (1, 4 * (d - 2) + r)) <$> zseq (c + 1).
Definition shifted_sources (c r : Z) : list (Z * Z) := middle c r ++ [(1, 12 + r)].
Lemma shifted_word_bits : step_bits shifted_word shifted_sources.
Proof. step_bits shifted_word. Qed.

(** The words [block2], [block1], [sub] and the constant. *)
Definition next_block_word (env : list Z) : aes_word_t :=
  let b2 := aes_nohw_shift_right (znth env 0) 8 in
  let b2 := aes_nohw_or b2 (aes_nohw_shift_left (znth env 1) 8) in
  let b2 := aes_nohw_xor b2 (znth env 3) in
  let b2 := aes_nohw_xor b2 (aes_nohw_shift_right (aes_nohw_rotate_rows_down (znth env 2)) 12) in
  propagate b2.
Definition next_block_sources (c r : Z) : list (Z * Z) := middle c r ++ (2, 12 + (r + 1) mod 4) :: column 3 c r.
Lemma next_block_word_bits : step_bits next_block_word next_block_sources.
Proof. step_bits next_block_word. Qed.

Definition half_word (env : list Z) : aes_word_t :=
  let b1 := aes_nohw_shift_right (znth env 0) 8 in
  let b1 := aes_nohw_xor b1 (aes_nohw_shift_right (znth env 1) 12) in
  let b1 := aes_nohw_xor b1 (aes_nohw_shift_left b1 4) in
  aes_nohw_and b1 AES_NOHW_COL01_MASK.
Definition half_sources (c r : Z) : list (Z * Z) := if c <? 2 then middle c r ++ [(1, 12 + r)] else [].
Lemma half_word_bits : step_bits half_word half_sources.
Proof. step_bits half_word. Qed.

(** ** The recurrence of the standard, four words at a time *)

Section schedule.
Context (key : list Z) (Hlen : zlen key = 4 * Nk key) (Hn : 0 < Nk key).
Notation n := (Nk key).

(** What is added to word [i - n]. *)
Definition temp (i r : Z) : Z :=
  if i mod n =? 0 then Z.lxor (sbox (key_byte key (i - 1) ((r + 1) mod 4))) (rcon_byte (i / n) r)
  else if (6 <? n) && (i mod n =? 4) then sbox (key_byte key (i - 1) r) else key_byte key (i - 1) r.
Definition plain (i : Z) : Prop := i mod n <> 0 /\ (6 < n -> i mod n <> 4).
(** The words from [m] to [m + c], added up. *)
Definition word_sum (m c r : Z) : Z := foldr Z.lxor 0 ((fun d => key_byte key (m + d) r) <$> zseq (c + 1)).

Lemma temp_plain i r : plain i -> temp i r = key_byte key (i - 1) r.
Proof using.
  intros [H1 H2]. unfold temp. rewrite (proj2 (Z.eqb_neq _ _) H1).
  destruct (Z.ltb_spec 6 n) as [H|H]; [|done]. by rewrite (proj2 (Z.eqb_neq _ _) (H2 H)).
Qed.
Lemma foldr_lxor_snoc l x : foldr Z.lxor 0 (l ++ [x]) = Z.lxor x (foldr Z.lxor 0 l).
Proof using. induction l as [|y l IH]; cbn [app foldr]; [done|]. rewrite IH. xor_ring. Qed.
Lemma run_snoc m c r : 0 <= c -> word_sum m (c + 1) r = Z.lxor (key_byte key (m + (c + 1)) r) (word_sum m c r).
Proof using.
  intros Hc. unfold word_sum, zseq at 1. replace (Z.to_nat (c + 1 + 1)) with (S (Z.to_nat (c + 1))) by lia.
  rewrite seq_S, !fmap_app. cbn [fmap list_fmap Nat.add]. rewrite foldr_lxor_snoc, Z2Nat.id by lia. done.
Qed.
Lemma run_first m r : word_sum m 0 r = key_byte key m r.
Proof using. unfold word_sum. change (zseq (0 + 1)) with [0]. cbn [fmap list_fmap foldr]. by rewrite Z.lxor_0_r, Z.add_0_r. Qed.

Lemma key_run i c r : n <= i -> 0 <= c -> 0 <= r < 4 -> (forall d, 0 < d <= c -> plain (i + d)) ->
  key_byte key (i + c) r = Z.lxor (word_sum (i - n) c r) (temp i r).
Proof using Hlen Hn.
  intros Hi Hc Hr. pattern c. apply natlike_ind; [|clear c Hc|exact Hc].
  - intros _. rewrite Z.add_0_r, run_first. by apply key_byte_next.
  - intros c Hc IH Hp. rewrite <- Z.add_1_r, run_snoc by done. rewrite key_byte_next by (done || lia). fold (temp (i + (c + 1)) r).
    rewrite temp_plain by (apply Hp; lia). replace (i + (c + 1) - 1) with (i + c) by lia.
    rewrite IH by (intros d Hd; apply Hp; lia). replace (i + (c + 1) - n) with (i - n + (c + 1)) by lia. by rewrite Z.lxor_assoc.
Qed.

Lemma plain_near i d : n = 4 \/ n = 6 \/ n = 8 -> i mod n = 0 \/ n = 8 /\ i mod n = 4 -> 0 < d < 4 -> plain (i + d).
Proof using. unfold plain. generalize n. clear. intros n [->|[-> | ->]] H Hd; zarith. Qed.

(** ** Blocks that hold words of the schedule *)

Definition holds_to (cols : Z) (blk : compact) (m : Z) : Prop := compact_ok blk /\
  forall c r, 0 <= c < cols -> 0 <= r < 4 -> compact_byte blk (4 * c + r) = key_byte key (m + c) r.
Notation holds := (holds_to 4).

Lemma xor_sources_app bs l1 l2 : xor_sources bs (l1 ++ l2) = Z.lxor (xor_sources bs l1) (xor_sources bs l2).
Proof using. induction l1 as [|[k q] l1 IH]; cbn; [done|]. unfold xor_sources in IH. by rewrite IH, Z.lxor_assoc. Qed.
Lemma xor_sources_cons bs k q l : xor_sources bs ((k, q) :: l) = Z.lxor (compact_byte (nth_block bs k) q) (xor_sources bs l).
Proof using. done. Qed.
Lemma xor_run bs src m c r :
  (forall d, 0 <= d <= c -> let '(k, q) := src d in compact_byte (nth_block bs k) q = key_byte key (m + d) r) ->
  xor_sources bs (src <$> zseq (c + 1)) = word_sum m c r.
Proof using.
  intros H. unfold word_sum. assert (Hd : Forall (fun d => 0 <= d <= c) (zseq (c + 1))).
  { apply Forall_forall. intros d Hd. apply elem_of_zseq in Hd. lia. }
  induction Hd as [|d l Hd _ IH]; [done|]. cbn [fmap list_fmap foldr]. specialize (H d Hd). destruct (src d) as [k q].
  rewrite xor_sources_cons. f_equal; [exact H|exact IH].
Qed.
Lemma xor_column bs k m c cols r : holds_to cols (nth_block bs k) m -> c < cols -> 0 <= r < 4 -> xor_sources bs (column k c r) = word_sum m c r.
Proof using. intros [_ H] Hc Hr. apply xor_run. intros d Hd. apply H; lia. Qed.
Lemma xor_rcon bs k rcon i c r : nth_block bs k = rcon_block rcon -> is_byte rcon -> rcon = rcon_byte i 0 -> 0 <= c < 4 -> 0 <= r < 4 ->
  xor_sources bs (column k c r) = rcon_byte i r.
Proof using.
  intros E Hb -> Hc Hr. destruct (rcon_block_spec _ Hb) as [_ H].
  assert (D : forall d, 0 <= d < 4 -> compact_byte (rcon_block (rcon_byte i 0)) (4 * d + r) = if d =? 0 then rcon_byte i r else 0).
  { intros d Hd. rewrite H by done. unfold rcon_byte. destruct (d =? 0), (Z.eqb_spec r 0) as [->|]; done. }
  assert (C : c = 0 \/ c = 1 \/ c = 2 \/ c = 3) by lia. unfold column.
  pose proof (D 0 ltac:(lia)) as D0. pose proof (D 1 ltac:(lia)) as D1. pose proof (D 2 ltac:(lia)) as D2. pose proof (D 3 ltac:(lia)) as D3.
  destruct C as [->|[->|[->| ->]]];
    match goal with |- context [zseq ?x] => let l := eval vm_compute in (zseq x) in change (zseq x) with l end;
    cbn [fmap list_fmap]; rewrite !xor_sources_cons, E, D0, ?D1, ?D2, ?D3; by rewrite ?Z.lxor_0_l, ?Z.lxor_0_r.
Qed.
(** A substituted byte of the word before word [i]. *)
Lemma xor_sub bs k cols blk i q r : holds_to cols blk (i - cols) -> nth_block bs k = aes_nohw_sub_block blk -> 0 < cols <= 4 -> 0 <= r < 4 ->
  q = 4 * (cols - 1) + r -> compact_byte (nth_block bs k) q = sbox (key_byte key (i - 1) r).
Proof using.
  intros [Hok H] -> Hc Hr ->. rewrite sub_block_byte by (done || lia). rewrite H by lia. by replace (i - cols + (cols - 1)) with (i - 1) by lia.
Qed.

Section step.
Context (i rcon : Z) (Hi : n <= i).
Definition rcon_for : Prop := i mod n = 0 /\ is_byte rcon /\ rcon = rcon_byte (i / n) 0.

Lemma temp_rot r : rcon_for -> temp i r = Z.lxor (sbox (key_byte key (i - 1) ((r + 1) mod 4))) (rcon_byte (i / n) r).
Proof using. intros [H _]. unfold temp. by rewrite H. Qed.

(** The next block of a 128-bit key; every other one of a 256-bit key. *)
Lemma rot_holds blk other : n = 4 \/ n = 8 -> rcon_for -> holds blk (i - n) -> holds other (i - 4) ->
  holds (per_word (fun j => rot_word (words_at [blk; aes_nohw_sub_block other; rcon_block rcon] j))) i.
Proof using Hlen Hn Hi.
  intros Hn48 Hrc Hb Ho. pose proof Hrc as (Hm & Hr & E).
  destruct (per_word_sources rot_word rot_sources [blk; aes_nohw_sub_block other; rcon_block rcon]) as [Hok H]; [|apply rot_word_bits|].
  { repeat (apply Forall_cons; split); [apply Hb|apply sub_block_spec, Ho|by apply rcon_block_spec|by apply Forall_nil]. }
  split; [done|]. intros c r Hc Hr4. rewrite H by done. unfold rot_sources.
  rewrite xor_sources_app, xor_sources_cons, (xor_column _ 0 (i - n) c 4), (xor_rcon _ 2 rcon (i / n)) by (done || lia).
  rewrite (xor_sub _ 1 4 other i _ ((r + 1) mod 4)) by (done || zarith).
  rewrite key_run by (done || lia || (intros d Hd; apply plain_near; tauto || lia)). by rewrite temp_rot.
Qed.

(** The other blocks of a 256-bit key. *)
Lemma sub_holds blk other : n = 8 -> i mod n = 4 -> holds blk (i - n) -> holds other (i - 4) ->
  holds (per_word (fun j => sub_word (words_at [blk; aes_nohw_sub_block other] j))) i.
Proof using Hlen Hn Hi.
  intros Hn8 Hm Hb Ho.
  destruct (per_word_sources sub_word sub_sources [blk; aes_nohw_sub_block other]) as [Hok H]; [|apply sub_word_bits|].
  { repeat (apply Forall_cons; split); [apply Hb|apply sub_block_spec, Ho|by apply Forall_nil]. }
  split; [done|]. intros c r Hc Hr4. rewrite H by done. unfold sub_sources.
  rewrite xor_sources_app, xor_sources_cons, (xor_column _ 0 (i - n) c 4) by (done || lia).
  rewrite (xor_sub _ 1 4 other i _ r) by (done || lia).
  rewrite key_run by (done || lia || (intros d Hd; apply plain_near; tauto || lia)). unfold temp. rewrite Hm, Hn8. cbn [Z.eqb Z.ltb Z.compare Pos.eqb Pos.compare Pos.compare_cont andb].
  f_equal. apply Z.lxor_0_r.
Qed.

(** The rest of a block for 192-bit keys, of which two words are known. *)
Lemma rest_holds blk1 blk2 : n = 6 -> rcon_for -> holds blk1 (i - n) -> holds_to 2 blk2 (i - 2) ->
  holds (per_word (fun j => rest_word (words_at [blk2; aes_nohw_sub_block blk2; rcon_block rcon; blk1] j))) (i - 2).
Proof using Hlen Hn Hi.
  intros Hn6 Hrc Hb Ho. pose proof Hrc as (Hm & Hr & E).
  destruct (per_word_sources rest_word rest_sources [blk2; aes_nohw_sub_block blk2; rcon_block rcon; blk1]) as [Hok H]; [|apply rest_word_bits|].
  { repeat (apply Forall_cons; split); [apply Ho|apply sub_block_spec, Ho|by apply rcon_block_spec|apply Hb|by apply Forall_nil]. }
  split; [done|]. intros c r Hc Hr4. rewrite H by done. unfold rest_sources. destruct (Z.ltb_spec c 2).
  - rewrite xor_sources_cons. etransitivity; [apply Z.lxor_0_r|]. apply Ho; lia.
  - rewrite xor_sources_app, xor_sources_cons, (xor_column _ 3 (i - n) (c - 2) 4), (xor_rcon _ 2 rcon (i / n)) by (done || lia).
    rewrite (xor_sub _ 1 2 blk2 i _ ((r + 1) mod 4)) by (done || zarith). replace (i - 2 + c) with (i + (c - 2)) by lia.
    rewrite key_run by (done || lia || (intros d Hd; apply plain_near; tauto || lia)). by rewrite temp_rot.
Qed.

(** Words 2 and 3 of the first block, and 0 and 1 of the second. *)
Lemma xor_middle bs c r : n = 6 -> holds (nth_block bs 0) (i - 8) -> holds (nth_block bs 1) (i - 4) ->
  0 <= c < 4 -> 0 <= r < 4 -> xor_sources bs (middle c r) = word_sum (i - n) c r.
Proof using.
  intros -> [_ H0] [_ H1] Hc Hr. apply xor_run. intros d Hd. destruct (Z.ltb_spec d 2).
  - replace (8 + 4 * d + r) with (4 * (2 + d) + r) by lia. rewrite H0 by lia. f_equal. lia.
  - rewrite H1 by lia. f_equal. lia.
Qed.
Lemma xor_shifted blk1 blk2 c r : n = 6 -> i mod n = 2 \/ i mod n = 4 /\ c < 2 -> holds blk1 (i - 8) -> holds blk2 (i - 4) ->
  0 <= c < 4 -> 0 <= r < 4 -> xor_sources [blk1; blk2] (middle c r ++ [(1, 12 + r)]) = key_byte key (i + c) r.
Proof using Hlen Hn Hi.
  intros Hn6 Hm H1 H2 Hc Hr. rewrite xor_sources_app, xor_sources_cons, xor_middle by done.
  assert (Hp : forall d, 0 <= d <= c -> plain (i + d)) by (intros d Hd; unfold plain; rewrite Hn6 in *; zarith).
  rewrite key_run by (done || lia || (intros d Hd; apply Hp; lia)). rewrite temp_plain by (rewrite <- (Z.add_0_r i); apply Hp; lia).
  f_equal. etransitivity; [apply Z.lxor_0_r|]. change (nth_block [blk1; blk2] 1) with blk2. replace (12 + r) with (4 * 3 + r) by lia.
  rewrite (proj2 H2) by lia. f_equal. lia.
Qed.

(** The words after two blocks, when nothing is substituted. *)
Lemma shifted_holds blk1 blk2 : n = 6 -> i mod n = 2 -> holds blk1 (i - 8) -> holds blk2 (i - 4) ->
  holds (per_word (fun j => shifted_word (words_at [blk1; blk2] j))) i.
Proof using Hlen Hn Hi.
  intros Hn6 Hm H1 H2. destruct (per_word_sources shifted_word shifted_sources [blk1; blk2]) as [Hok H]; [|apply shifted_word_bits|].
  { repeat (apply Forall_cons; split); [apply H1|apply H2|by apply Forall_nil]. }
  split; [done|]. intros c r Hc Hr. rewrite H by done. apply xor_shifted; tauto.
Qed.
(** The same for the first two of them only. *)
Lemma half_holds blk1 blk2 : n = 6 -> i mod n = 4 -> holds blk1 (i - 8) -> holds blk2 (i - 4) ->
  holds_to 2 (per_word (fun j => half_word (words_at [blk1; blk2] j))) i.
Proof using Hlen Hn Hi.
  intros Hn6 Hm H1 H2. destruct (per_word_sources half_word half_sources [blk1; blk2]) as [Hok H]; [|apply half_word_bits|].
  { repeat (apply Forall_cons; split); [apply H1|apply H2|by apply Forall_nil]. }
  split; [done|]. intros c r Hc Hr. rewrite H by (done || lia). unfold half_sources. rewrite (proj2 (Z.ltb_lt c 2)) by lia.
  apply xor_shifted; done || lia.
Qed.
Lemma next_block_holds blk2 blk1 : n = 6 -> rcon_for -> holds blk2 (i - 8) -> holds blk1 (i - 4) ->
  holds (per_word (fun j => next_block_word (words_at [blk2; blk1; aes_nohw_sub_block blk1; rcon_block rcon] j))) i.
Proof using Hlen Hn Hi.
  intros Hn6 Hrc H2 H1. pose proof Hrc as (Hm & Hr & E).
  destruct (per_word_sources next_block_word next_block_sources [blk2; blk1; aes_nohw_sub_block blk1; rcon_block rcon]) as [Hok H]; [|apply next_block_word_bits|].
  { repeat (apply Forall_cons; split); [apply H2|apply H1|apply sub_block_spec, H1|by apply rcon_block_spec|by apply Forall_nil]. }
  split; [done|]. intros c r Hc Hr4. rewrite H by done. unfold next_block_sources.
  rewrite xor_sources_app, xor_sources_cons, (xor_rcon _ 3 rcon (i / n)) by (done || lia).
  rewrite xor_middle by done.
  rewrite (xor_sub _ 2 4 blk1 i _ ((r + 1) mod 4)) by (done || zarith).
  rewrite key_run by (done || lia || (intros d Hd; apply plain_near; tauto || lia)). by rewrite temp_rot.
Qed.
End step.
End schedule.

(** ** The round keys in memory *)

Lemma znth_zwrite off (src l : list Z) k : 0 <= off -> off + zlen src <= zlen l -> 0 <= k ->
  znth (zwrite off src l) k = if (off <=? k) && (k <? off + zlen src) then znth src (k - off) else znth l k.
Proof.
  intros Ho Hl Hk. pose proof (zlen_nonneg src). assert (Ht : zlen (ztake off l) = off) by (rewrite zlen_ztake; lia).
  unfold zwrite. destruct (Z.leb_spec off k); cbn [andb].
  - rewrite znth_app_r by lia. rewrite Ht. destruct (Z.ltb_spec k (off + zlen src)); [by rewrite znth_app_l by lia|].
    rewrite znth_app_r by lia. rewrite <- (ztake_zdrop (off + zlen src) l) at 2. rewrite znth_app_r by (rewrite zlen_ztake; lia).
    f_equal. rewrite zlen_ztake. lia.
  - rewrite znth_app_l by lia. rewrite <- (ztake_zdrop off l) at 2. by rewrite znth_app_l by lia.
Qed.

Lemma zlen_store blk i rd : zlen rd = 60 -> 0 <= i < 15 -> zlen (store_block blk i rd) = 60.
Proof. intros Hz Hi. unfold store_block. rewrite zlen_zwrite; [done|lia|change (zlen [_; _; _; _]) with 4; lia]. Qed.

Lemma word_halves w : word64 w -> Z.lor (u32 w) (Z.shiftl (Z.shiftr w 32) 32) = w.
Proof.
  intros Hw. apply Z.bits_inj'. intros b Hb. rewrite Z.lor_spec, Z.shiftl_spec by lia. unfold u32. destruct (Z.lt_ge_cases b 32).
  - rewrite Z.mod_pow2_bits_low, (Z.testbit_neg_r _ (b - 32)) by lia. apply orb_false_r.
  - rewrite Z.mod_pow2_bits_high, Z.shiftr_spec by lia. cbn. f_equal. lia.
Qed.
Lemma load_store blk i j rd : compact_ok blk -> zlen rd = 60 -> 0 <= i < 15 -> 0 <= j < 15 ->
  load_block (store_block blk i rd) j = if i =? j then blk else load_block rd j.
Proof.
  intros [Hl Hw] Hz Hi Hj. unfold load_block, store_block. rewrite !znth_zwrite by (change (zlen [_; _; _; _]) with 4; lia).
  change (zlen [_; _; _; _]) with 4. destruct (Z.eqb_spec i j) as [->|Hne].
  - replace (4 * j - 4 * j) with 0 by lia. replace (4 * j + 1 - 4 * j) with 1 by lia. replace (4 * j + 2 - 4 * j) with 2 by lia.
    replace (4 * j + 3 - 4 * j) with 3 by lia.
    repeat match goal with |- context [(?a <=? ?b) && (?c <? ?d)] => replace ((a <=? b) && (c <? d)) with true by (symmetry; lia) end.
    change (znth [?a; ?b; ?c; ?d] 0) with a. change (znth [?a; ?b; ?c; ?d] 1) with b.
    change (znth [?a; ?b; ?c; ?d] 2) with c. change (znth [?a; ?b; ?c; ?d] 3) with d.
    rewrite !word_halves by (by apply word64_znth). destruct blk as [|x [|y []]]; done.
  - repeat match goal with |- context [(?a <=? ?b) && (?c <? ?d)] => replace ((a <=? b) && (c <? d)) with false by (symmetry; lia) end. done.
Qed.

Lemma fold_zseq_inv {S} (P : Z -> S -> Prop) (f : S -> Z -> S) (g : Z -> Z) m s : 0 <= m -> P 0 s ->
  (forall i s, 0 <= i < m -> P i s -> P (i + 1) (f s (g i))) -> P m (fold_left f (g <$> zseq m) s).
Proof.
  intros Hm H0 Hs. rewrite <- (Z2Nat.id m) in * by done. revert Hs. unfold zseq. rewrite Nat2Z.id. induction (Z.to_nat m) as [|k IH]; intros Hs; [done|].
  rewrite seq_S, !fmap_app, fold_left_app. cbn [fmap list_fmap fold_left Nat.add]. rewrite Nat2Z.inj_succ, <- Z.add_1_r.
  apply Hs; [lia|]. apply IH; [lia|]. intros i s' Hi. apply Hs. lia.
Qed.

(** Only the first 16 bytes count. *)
Lemma compact_block_take inp : aes_nohw_compact_block (ztake 16 inp) = aes_nohw_compact_block inp.
Proof.
  unfold aes_nohw_compact_block. replace (words_of_bytes (ztake 16 inp)) with (words_of_bytes inp); [done|].
  unfold words_of_bytes, ztake, zdrop. by rewrite take_take, skipn_firstn_comm, take_take.
Qed.
Lemma compact_block_byte inp p : state_ok (ztake 16 inp) -> 0 <= p < 16 -> compact_byte (aes_nohw_compact_block inp) p = znth inp p.
Proof.
  intros Hs Hp. rewrite <- compact_block_take, <- compact_byte_at, compact_block_bytes by done.
  rewrite <- (ztake_zdrop 16 inp) at 2. rewrite znth_app_l; [done|]. rewrite (proj2 Hs). lia.
Qed.
Lemma compact_block_ok_take inp : state_ok (ztake 16 inp) -> compact_ok (aes_nohw_compact_block inp).
Proof. rewrite <- compact_block_take. apply compact_block_ok. Qed.

Lemma rcon_table k : 0 <= k < 10 -> is_byte (znth aes_nohw_rcon k) /\ znth aes_nohw_rcon k = rcon_byte (k + 1) 0.
Proof.
  intros Hk. assert (H : forallb (fun k => (0 <=? znth aes_nohw_rcon k) && (znth aes_nohw_rcon k <? 256) && (znth aes_nohw_rcon k =? rcon_byte (k + 1) 0)) (zseq 10) = true)
    by (vm_compute; reflexivity).
  apply (forallb_zseq _ _ H) in Hk. bool_hyps. split; [unfold is_byte; lia|done].
Qed.

Section stored.
Context (key : list Z) (Hkey : bytes_ok key) (Hlen : zlen key = 4 * Nk key) (Hn : 0 < Nk key).
Notation n := (Nk key).
Notation holds := (holds_to key 4).

(** The first [k] round keys are there. *)
Definition filled (rd : list Z) (k : Z) : Prop := zlen rd = 60 /\ forall i, 0 <= i < k -> holds (load_block rd i) (4 * i).
Lemma filled_0 rd : zlen rd = 60 -> filled rd 0.
Proof using. intros H. split; [done|lia]. Qed.
Lemma filled_store rd k i m blk : filled rd k -> holds blk m -> m = 4 * k -> i = k -> 0 <= k < 15 -> filled (store_block blk i rd) (k + 1).
Proof using.
  intros [Hz H] Hb -> -> Hk. split; [by apply zlen_store|]. intros j Hj. rewrite load_store by (apply Hb || lia).
  destruct (Z.eqb_spec k j) as [->|]; [done|]. apply H. lia.
Qed.
(** At the end they are the round keys of the standard. *)
Lemma filled_round_keys rd i : filled rd (Nr key + 1) -> 0 <= i <= Nr key ->
  compact_ok (load_block rd i) /\ compact_bytes (load_block rd i) = round_key key i.
Proof using Hlen Hn.
  intros [_ H] Hi. destruct (H i) as [Hok Hb]; [lia|]. split; [done|]. rewrite round_key_block by done.
  apply map_zseq_ext. intros p Hp. rewrite <- Hb by zarith. f_equal. zarith.
Qed.

(** Blocks of the key itself. *)
Lemma holds_key inp m cols : inp = zdrop (4 * m) key -> 0 <= m -> m + 4 <= n -> cols <= 4 -> holds_to key cols (aes_nohw_compact_block inp) m.
Proof using Hkey Hlen Hn.
  intros -> Hm Hmn Hc. assert (Hs : state_ok (ztake 16 (zdrop (4 * m) key))).
  { split; [by apply Forall_ztake, Forall_zdrop|]. rewrite zlen_ztake, zlen_zdrop. lia. }
  split; [by apply compact_block_ok_take|]. intros c r Hc4 Hr. rewrite compact_block_byte by (done || lia).
  rewrite key_byte_first by (done || lia). rewrite <- (ztake_zdrop (4 * m) key) at 2.
  assert (Hz : zlen (ztake (4 * m) key) = 4 * m) by (rewrite zlen_ztake; lia). rewrite znth_app_r by lia. f_equal. lia.
Qed.

(** ** The three key sizes *)

Lemma rcon_for_next i k : i = n * (k + 1) -> 0 <= k < 10 -> rcon_for key i (znth aes_nohw_rcon k).
Proof using Hn.
  intros -> Hk. destruct (rcon_table k Hk) as [Hb E]. split; [rewrite Z.mul_comm; apply Z_mod_mult|]. split; [done|].
  by rewrite Z.mul_comm, Z_div_mult by lia.
Qed.

Lemma rcon_block_at rcon j : 0 <= j < AES_NOHW_BLOCK_WORDS -> znth (rcon_block rcon) j = aes_nohw_rcon_slice rcon j.
Proof using. apply (znth_map_zseq (aes_nohw_rcon_slice rcon)). Qed.
(** The words of a step are those of its blocks. *)
Ltac step_words f :=
  apply map_zseq_ext; let j := fresh "j" in let Hj := fresh "Hj" in intros j Hj; unfold f; rewrite !word_of_block;
  repeat match goal with |- context [nth_block ?bs ?k] =>
    let b := eval cbv [nth_block Z.to_nat Pos.to_nat Pos.iter_op nth Nat.add] in (nth_block bs k) in change (nth_block bs k) with b end;
  rewrite ?rcon_block_at by exact Hj; reflexivity.

Lemma setup_128_words blk rcon :
  setup_key_128_step blk rcon = per_word (fun j => rot_word (words_at [blk; aes_nohw_sub_block blk; rcon_block rcon] j)).
Proof using. step_words rot_word. Qed.
Lemma setup_key_128_spec aeskey : n = 4 -> zlen (rd_key aeskey) = 60 ->
  let k := aes_nohw_setup_key_128 aeskey key in filled (rd_key k) (rounds k + 1) /\ rounds k = Nr key.
Proof using Hkey Hlen Hn.
  intros Hn4 Hz. unfold aes_nohw_setup_key_128, rounds_up. change (11 - 1) with 10.
  lazymatch goal with |- context [fold_left ?f _ ?s] => set (st := s);
    pose proof (fold_zseq_inv (fun i '(block, rd) => holds block (4 * i) /\ filled rd (i + 1)) f (fun i => i + 1) 10 st) as H end.
  destruct (fold_left _ _ st) as [blk rd]. cbn [rd_key rounds]. split; [apply H|unfold Nr; lia]; subst st; cbv beta.
  - lia.
  - assert (Hb : holds (aes_nohw_compact_block key) 0) by (apply holds_key; [done|lia..]).
    split; [done|]. eapply filled_store; [by apply filled_0|exact Hb|lia..].
  - intros i [block rd'] Hi [Hb Hf]. cbv zeta. rewrite setup_128_words.
    lazymatch goal with |- holds ?b _ /\ _ => assert (Hb' : holds b (4 * (i + 1))) end.
    { apply rot_holds; [done|done|lia|lia|apply rcon_for_next; lia| |].
      - by replace (4 * (i + 1) - n) with (4 * i) by lia.
      - by replace (4 * (i + 1) - 4) with (4 * i) by lia. }
    split; [done|]. eapply filled_store; [done|exact Hb'|lia..].
Qed.

Lemma setup_256_words blk other rcon :
  setup_key_256_step1 blk other rcon = per_word (fun j => rot_word (words_at [blk; aes_nohw_sub_block other; rcon_block rcon] j)) /\
  setup_key_256_step2 other blk = per_word (fun j => sub_word (words_at [blk; aes_nohw_sub_block other] j)).
Proof using. split; [step_words rot_word|step_words sub_word]. Qed.
(** The last round has no second half. *)
Lemma setup_key_256_spec aeskey : n = 8 -> zlen (rd_key aeskey) = 60 ->
  let k := aes_nohw_setup_key_256 aeskey key in filled (rd_key k) (rounds k + 1) /\ rounds k = Nr key.
Proof using Hkey Hlen Hn.
  intros Hn8 Hz. unfold aes_nohw_setup_key_256. change [2; 4; 6; 8; 10; 12; 14] with ((fun i => 2 * (i + 1)) <$> zseq 7).
  lazymatch goal with |- context [fold_left ?f _ ?s] => set (st := s);
    pose proof (fold_zseq_inv (fun i '(block1, block2, rd) => holds block1 (8 * i) /\ (i < 7 -> holds block2 (8 * i + 4)) /\
      filled rd (if i =? 7 then 15 else 2 * i + 2)) f (fun i => 2 * (i + 1)) 7 st) as H end.
  destruct (fold_left _ _ st) as [[blk1 blk2] rd]. cbn [rd_key rounds]. split; [apply H|unfold Nr; lia]; subst st; cbv beta.
  - lia.
  - assert (Hb1 : holds (aes_nohw_compact_block key) 0) by (apply holds_key; [done|lia..]).
    assert (Hb2 : holds (aes_nohw_compact_block (zdrop 16 key)) 4) by (apply holds_key; [done|lia..]).
    split; [exact Hb1|]. split; [intros _; exact Hb2|]. change (filled (store_block (aes_nohw_compact_block (zdrop 16 key)) 1
      (store_block (aes_nohw_compact_block key) 0 (rd_key aeskey))) (0 + 1 + 1)).
    eapply filled_store; [eapply filled_store; [by apply filled_0|exact Hb1|lia..]|exact Hb2|lia..].
  - intros i [[block1 block2] rd'] Hi (Hb1 & Hb2 & Hf). cbv zeta. specialize (Hb2 ltac:(lia)).
    rewrite (proj2 (Z.eqb_neq i 7)) in Hf by lia.
    destruct (setup_256_words block1 block2 (znth aes_nohw_rcon (2 * (i + 1) / 2 - 1))) as [-> _]. set (b1 := per_word _).
    assert (Hb1' : holds b1 (8 * (i + 1))).
    { apply rot_holds; [done|done|lia|lia|apply rcon_for_next; zarith| |].
      - by replace (8 * (i + 1) - n) with (8 * i) by lia.
      - by replace (8 * (i + 1) - 4) with (8 * i + 4) by lia. }
    assert (Hf' : filled (store_block b1 (2 * (i + 1)) rd') (2 * (i + 1) + 1)).
    { replace (2 * (i + 1) + 1) with (2 * i + 2 + 1) by lia. eapply filled_store; [done|exact Hb1'|lia..]. }
    destruct (Z.eqb_spec (2 * (i + 1)) 14) as [E|E].
    + replace i with 6 in * by lia. split; [done|]. split; [lia|done].
    + destruct (setup_256_words block2 b1 0) as [_ ->]. set (b2 := per_word _).
      assert (Hb2' : holds b2 (8 * (i + 1) + 4)).
      { apply sub_holds; [done|done|lia|lia|rewrite Hn8; zarith| |].
        - by replace (8 * (i + 1) + 4 - n) with (8 * i + 4) by lia.
        - by replace (8 * (i + 1) + 4 - 4) with (8 * (i + 1)) by lia. }
      split; [done|]. split; [done|]. rewrite (proj2 (Z.eqb_neq (i + 1) 7)) by lia.
      replace (2 * (i + 1) + 2) with (2 * (i + 1) + 1 + 1) by lia. eapply filled_store; [done|exact Hb2'|lia..].
Qed.

(** The columns 2 and 3 of a half-filled block are 0. *)
Definition upper_zero (blk : compact) : Prop := forall j, 0 <= j < 2 -> aes_nohw_and (znth blk j) AES_NOHW_COL01_MASK = znth blk j.

Lemma setup_192_words1 blk1 blk2 rcon : upper_zero blk2 ->
  let b2 := per_word (fun j => rest_word (words_at [blk2; aes_nohw_sub_block blk2; rcon_block rcon; blk1] j)) in
  setup_key_192_step1 blk1 blk2 rcon = (per_word (fun j => shifted_word (words_at [blk1; b2] j)), b2).
Proof using.
  intros Hu b2. assert (E : forall j, 0 <= j < 2 -> rest_word (words_at [blk2; aes_nohw_sub_block blk2; rcon_block rcon; blk1] j) =
    (let b := aes_nohw_or (znth blk2 j) (aes_nohw_shift_left (aes_nohw_xor (znth blk1 j) (aes_nohw_rcon_slice rcon j)) 8) in
     let b := aes_nohw_xor b (aes_nohw_and (aes_nohw_shift_left (aes_nohw_rotate_rows_down (znth (aes_nohw_sub_block blk2) j)) 4) AES_NOHW_COL2_MASK) in
     aes_nohw_xor b (aes_nohw_and (aes_nohw_shift_left b 4) AES_NOHW_COL3_MASK))).
  { intros j Hj. rewrite <- (Hu j) by done. rewrite <- rcon_block_at by done. unfold rest_word. by rewrite !word_of_block. }
  unfold setup_key_192_step1. apply (f_equal2 pair); apply map_zseq_ext; intros j Hj; [|rewrite (E j Hj); reflexivity].
  unfold shifted_word. rewrite !word_of_block. change (nth_block [blk1; b2] 0) with blk1. change (nth_block [blk1; b2] 1) with b2.
  unfold b2, per_word. rewrite znth_map_zseq by exact Hj. rewrite (E j Hj). reflexivity.
Qed.

Lemma setup_192_words2 blk1 blk2 rcon :
  let b2 := per_word (fun j => next_block_word (words_at [blk2; blk1; aes_nohw_sub_block blk1; rcon_block rcon] j)) in
  setup_key_192_step2 blk1 blk2 rcon = (per_word (fun j => half_word (words_at [blk1; b2] j)), b2).
Proof using.
  intros b2. assert (E : forall j, 0 <= j < 2 -> next_block_word (words_at [blk2; blk1; aes_nohw_sub_block blk1; rcon_block rcon] j) =
    (let b := aes_nohw_shift_right (znth blk2 j) 8 in
     let b := aes_nohw_or b (aes_nohw_shift_left (znth blk1 j) 8) in
     let b := aes_nohw_xor b (aes_nohw_rcon_slice rcon j) in
     let b := aes_nohw_xor b (aes_nohw_shift_right (aes_nohw_rotate_rows_down (znth (aes_nohw_sub_block blk1) j)) 12) in
     propagate b)).
  { intros j Hj. rewrite <- rcon_block_at by done. unfold next_block_word. by rewrite !word_of_block. }
  unfold setup_key_192_step2. apply (f_equal2 pair); apply map_zseq_ext; intros j Hj; [|rewrite (E j Hj); reflexivity].
  unfold half_word. rewrite !word_of_block. change (nth_block [blk1; b2] 0) with blk1. change (nth_block [blk1; b2] 1) with b2.
  unfold b2, per_word. rewrite znth_map_zseq by exact Hj. rewrite (E j Hj). reflexivity.
Qed.

Lemma upper_zero_half blk1 b2 : upper_zero (per_word (fun j => half_word (words_at [blk1; b2] j))).
Proof using.
  intros j Hj. unfold per_word. rewrite znth_map_zseq by exact Hj. unfold half_word, aes_nohw_and. cbv zeta. by rewrite <- Z.land_assoc, Z.land_diag.
Qed.
Lemma znth_zeros m k : znth (replicate m 0) k = 0.
Proof using. unfold znth. rewrite nth_lookup. destruct (replicate m 0 !! _) eqn:E; [|done]. by apply lookup_replicate in E as [-> _]. Qed.
(** The words of a block with eight zero bytes. *)
Lemma upper_zero_block inp : state_ok inp -> zdrop 8 inp = replicate 8 0 -> upper_zero (aes_nohw_compact_block inp).
Proof using.
  intros Hs Hz j Hj. destruct (compact_block_bits inp j Hs Hj) as [Hw Hb]. unfold aes_nohw_and, AES_NOHW_COL01_MASK.
  apply word64_eq; [by apply word64_land|done|]. intros i Hi. rewrite Z.land_spec. change 0xffffffff with (Z.ones 32).
  destruct (Z.lt_ge_cases i 32); [rewrite Z.ones_spec_low by lia; apply andb_true_r|]. rewrite Z.ones_spec_high, andb_false_r by lia.
  rewrite Hb by done. cbn [xor_bits]. rewrite words_of_bytes_bit by (done || zarith). rewrite <- (ztake_zdrop 8 inp), Hz.
  destruct Hs as [_ Hl]. rewrite znth_app_r by (rewrite zlen_ztake; zarith). rewrite zlen_ztake, Hl.
  by rewrite znth_zeros, Z.bits_0.
Qed.

(** The block with the last eight bytes of the key. *)
Definition half_block : list Z := ztake 8 (zdrop 16 key) ++ replicate 8 0.
Lemma half_block_ok : n = 6 -> state_ok half_block.
Proof using Hkey Hlen.
  intros Hn6. split; [apply Forall_app; split; [by apply Forall_ztake, Forall_zdrop|]|].
  - apply Forall_replicate. unfold is_byte. lia.
  - unfold half_block. rewrite zlen_app, zlen_ztake, zlen_zdrop. change (zlen (replicate 8 0)) with 8. lia.
Qed.
Lemma half_block_holds : n = 6 -> holds_to key 2 (aes_nohw_compact_block half_block) 4 /\ upper_zero (aes_nohw_compact_block half_block).
Proof using Hkey Hlen Hn.
  intros Hn6. pose proof (half_block_ok Hn6) as Hs. assert (Hz : zlen (ztake 8 (zdrop 16 key)) = 8) by (rewrite zlen_ztake, zlen_zdrop; lia). split.
  - split; [by apply compact_block_ok|]. intros c r Hc Hr.
    rewrite compact_block_byte by (lia || by rewrite ztake_all by (rewrite (proj2 Hs); lia)).
    rewrite key_byte_first by (done || lia). unfold half_block. rewrite znth_app_l by lia.
    rewrite ztake_all by (rewrite zlen_zdrop; lia). rewrite <- (ztake_zdrop 16 key) at 2. rewrite znth_app_r by (rewrite zlen_ztake; lia).
    f_equal. rewrite zlen_ztake. lia.
  - apply upper_zero_block; [done|]. unfold half_block. by apply zdrop_app.
Qed.

Lemma setup_key_192_spec aeskey : n = 6 -> zlen (rd_key aeskey) = 60 ->
  let k := aes_nohw_setup_key_192 aeskey key in filled (rd_key k) (rounds k + 1) /\ rounds k = Nr key.
Proof using Hkey Hlen Hn.
  intros Hn6 Hz. unfold aes_nohw_setup_key_192. rewrite <- (list_fmap_id (zseq 4)).
  lazymatch goal with |- context [fold_left ?f _ ?s] => set (st := s);
    pose proof (fold_zseq_inv (fun i '(block1, block2, rd) => holds block1 (12 * i) /\ holds_to key 2 block2 (12 * i + 4) /\ upper_zero block2 /\
      filled rd (3 * i + 1)) f id 4 st) as H end.
  destruct (fold_left _ _ st) as [[blk1 blk2] rd]. cbn [rd_key rounds]. split; [apply H|unfold Nr; lia]; subst st; cbv beta.
  - lia.
  - assert (Hb1 : holds (aes_nohw_compact_block key) 0) by (apply holds_key; [done|lia..]).
    split; [exact Hb1|]. destruct half_block_holds as [Hb2 Hu]; [done|]. split; [exact Hb2|]. split; [exact Hu|].
    eapply filled_store; [by apply filled_0|exact Hb1|lia..].
  - intros i [[block1 block2] rd'] Hi (Hb1 & Hb2 & Hu & Hf). unfold id. rewrite setup_192_words1 by done. cbv zeta.
    set (b2 := per_word (fun j => rest_word _)). set (b1 := per_word (fun j => shifted_word _)).
    assert (H2 : holds b2 (12 * i + 4)).
    { replace (12 * i + 4) with (12 * i + 6 - 2) by lia. apply rest_holds; [done|done|lia|done|apply rcon_for_next; lia| |].
      - by replace (12 * i + 6 - n) with (12 * i) by lia.
      - by replace (12 * i + 6 - 2) with (12 * i + 4) by lia. }
    assert (H1 : holds b1 (12 * i + 8)).
    { apply shifted_holds; [done|done|lia|done|rewrite Hn6; zarith| |].
      - by replace (12 * i + 8 - 8) with (12 * i) by lia.
      - by replace (12 * i + 8 - 4) with (12 * i + 4) by lia. }
    rewrite setup_192_words2. cbv zeta. set (b2' := per_word (fun j => next_block_word _)). set (b1' := per_word (fun j => half_word _)).
    assert (H2' : holds b2' (12 * i + 12)).
    { apply next_block_holds; [done|done|lia|done|apply rcon_for_next; lia| |].
      - by replace (12 * i + 12 - 8) with (12 * i + 4) by lia.
      - by replace (12 * i + 12 - 4) with (12 * i + 8) by lia. }
    assert (H1' : holds_to key 2 b1' (12 * i + 16)).
    { apply half_holds; [done|done|lia|done|rewrite Hn6; zarith| |].
      - by replace (12 * i + 16 - 8) with (12 * i + 8) by lia.
      - by replace (12 * i + 16 - 4) with (12 * i + 12) by lia. }
    replace (12 * (i + 1)) with (12 * i + 12) by lia. split; [done|]. replace (12 * i + 12 + 4) with (12 * i + 16) by lia.
    split; [done|]. split; [apply upper_zero_half|]. replace (3 * (i + 1) + 1) with (3 * i + 1 + 1 + 1 + 1) by lia.
    eapply filled_store; [eapply filled_store; [eapply filled_store; [done|exact H2|lia..]|exact H1|lia..]|exact H2'|lia..].
Qed.
End stored.

(** ** Setting a key *)

(** The key sizes that are accepted. *)
Definition aes_bits (bits : Z) : Prop := bits = 128 \/ bits = 192 \/ bits = 256.
(** [k] holds the round keys for [key]. *)
Definition schedule_for (key : list Z) (k : AES_KEY) : Prop := rounds k = Nr key /\
  forall i, 0 <= i <= Nr key -> compact_ok (load_block (rd_key k) i) /\ compact_bytes (load_block (rd_key k) i) = round_key key i.

Lemma set_key_spec key bits aeskey : aes_bits bits -> bytes_ok key -> 8 * zlen key = bits -> zlen (rd_key aeskey) = 60 ->
  fst (AES_set_encrypt_key key bits aeskey) = 0 /\ schedule_for key (snd (AES_set_encrypt_key key bits aeskey)).
Proof.
  intros Hbits Hb Hl Hz. assert (Hn : Nk key = bits / 32) by (unfold Nk; zarith).
  assert (Hlen : zlen key = 4 * Nk key) by (destruct Hbits as [->|[-> | ->]]; zarith).
  assert (Hpos : 0 < Nk key) by (destruct Hbits as [->|[-> | ->]]; zarith).
  assert (F : forall k, filled key (rd_key k) (rounds k + 1) /\ rounds k = Nr key -> schedule_for key k).
  { intros k [Hf Hr]. split; [done|]. intros i Hi. rewrite Hr in Hf. by apply filled_round_keys. }
  unfold AES_set_encrypt_key, aes_nohw_set_encrypt_key. destruct Hbits as [->|[-> | ->]]; cbn [Z.eqb Pos.eqb negb andb fst snd]; (split; [done|]); apply F.
  - by apply setup_key_128_spec.
  - by apply setup_key_192_spec.
  - by apply setup_key_256_spec.
Qed.
