(* ===== verification/AesCorrect.v ===== *)
(** * AES: the bitsliced code and the standard.

    [aes_correct]: with a key that [AES_set_encrypt_key] has set, [AES_encrypt] is the
    cipher of FIPS 197 and [AES_decrypt] its inverse. [aes_block_cipher] makes them a
    block cipher in the sense of the modes of operation. *)

From S2P Require Import Prelude Mem Modes Schedule Fips197 Aes Linear AesSlice AesBlock AesKey.
Import Fips197.

(** ** A batch of blocks goes through the rounds *)

Section batch.
Context (sched : AES_NOHW_SCHEDULE) (rk : Z -> list Z) (nr : Z) (Hnr : 1 <= nr).
Context (Hsched : forall i, 0 <= i <= nr -> batch_ok (key_batch sched i) /\ forall k, 0 <= k < 4 -> block_of (key_batch sched i) k = rk i).

(** [steps f g]: on every block of a batch, [f] is [g]. *)
Definition steps (f : AES_NOHW_BATCH -> AES_NOHW_BATCH) (g : list Z -> list Z) : Prop :=
  forall b, batch_ok b -> batch_ok (f b) /\ forall k, 0 <= k < 4 -> block_of (f b) k = g (block_of b k).

Lemma steps_fold (f : AES_NOHW_BATCH -> Z -> AES_NOHW_BATCH) (g : list Z -> Z -> list Z) (l : list Z) : (forall i, i ∈ l -> steps (fun b => f b i) (fun s => g s i)) -> steps (fun b => fold_left f l b) (fun s => fold_left g l s).
Proof using.
  induction l as [|i l IH]; intros H; [by intros b Hb|]. cbn [fold_left].
  intros b Hb. destruct (H i ltac:(left) b Hb) as [Hf Hg]. destruct (IH ltac:(intros j Hj; apply H; by right) _ Hf) as [Hf' Hg'].
  split; [done|]. intros k Hk. by rewrite Hg', Hg.
Qed.

Lemma sub_bytes_steps : steps aes_nohw_sub_bytes SubBytes.
Proof using. intros b Hb. split; [by apply sub_bytes_ok|]. intros k Hk. by apply sub_bytes_block. Qed.
Lemma shift_rows_steps : steps aes_nohw_shift_rows ShiftRows.
Proof using. intros b Hb. split; [by apply shift_rows_ok|]. intros k Hk. by apply shift_rows_block. Qed.
Lemma mix_columns_steps : steps aes_nohw_mix_columns MixColumns.
Proof using. intros b Hb. split; [by apply mix_columns_ok|]. intros k Hk. by apply mix_columns_block. Qed.
Lemma inv_sub_bytes_steps : steps aes_nohw_inv_sub_bytes InvSubBytes.
Proof using. intros b Hb. split; [by apply inv_sub_bytes_ok|]. intros k Hk. by apply inv_sub_bytes_block. Qed.
Lemma inv_shift_rows_steps : steps aes_nohw_inv_shift_rows InvShiftRows.
Proof using. intros b Hb. split; [by apply inv_shift_rows_ok|]. intros k Hk. by apply inv_shift_rows_block. Qed.
Lemma inv_mix_columns_steps : steps aes_nohw_inv_mix_columns InvMixColumns.
Proof using. intros b Hb. split; [by apply inv_mix_columns_ok|]. intros k Hk. by apply inv_mix_columns_block. Qed.
Lemma add_round_key_steps i : 0 <= i <= nr -> steps (fun b => aes_nohw_add_round_key b (key_batch sched i)) (fun s => AddRoundKey s (rk i)).
Proof using Hsched.
  intros Hi b Hb. destruct (Hsched i Hi) as [Hok Hk]. split; [by apply add_round_key_ok|]. intros k Hk4.
  by rewrite add_round_key_block, Hk.
Qed.

Lemma rounds_up_range i : i ∈ rounds_up nr -> 0 <= i <= nr.
Proof using. intros H. apply list_elem_of_fmap in H as (j & -> & Hj). apply elem_of_zseq in Hj. lia. Qed.

(** One step after others: [b] and [s] are what these make of a batch and of a block. *)
Definition so_far (b0 b : AES_NOHW_BATCH) (h : list Z -> list Z) : Prop := batch_ok b /\ forall k, 0 <= k < 4 -> block_of b k = h (block_of b0 k).
Lemma so_far_step b0 b f g h : steps f g -> so_far b0 b h -> so_far b0 (f b) (fun s => g (h s)).
Proof using. intros H [Hb Hk]. destruct (H b Hb) as [Hf Hg]. split; [done|]. intros k Hk4. by rewrite Hg, Hk. Qed.
Lemma steps_so_far f g : (forall b, batch_ok b -> so_far b (f b) g) -> steps f g.
Proof using. done. Qed.
Lemma so_far_start b : batch_ok b -> so_far b b (fun s => s).
Proof using. by split. Qed.
Lemma so_far_add b0 b i h : 0 <= i <= nr -> so_far b0 b h -> so_far b0 (aes_nohw_add_round_key b (key_batch sched i)) (fun s => AddRoundKey (h s) (rk i)).
Proof using Hsched. intros Hi. exact (so_far_step b0 b _ _ h (add_round_key_steps i Hi)). Qed.
Lemma so_far_fold b0 b (f : AES_NOHW_BATCH -> Z -> AES_NOHW_BATCH) (g : list Z -> Z -> list Z) (l : list Z) h :
  (forall i, i ∈ l -> steps (fun b => f b i) (fun s => g s i)) -> so_far b0 b h -> so_far b0 (fold_left f l b) (fun s => fold_left g l (h s)).
Proof using. intros H. exact (so_far_step b0 b _ _ h (steps_fold f g l H)). Qed.
(** The last step of several. *)
Ltac step_with H := apply (so_far_step _ _ _ _ _ H).

Lemma round_steps i : 0 <= i <= nr -> steps (fun b => aes_nohw_add_round_key (aes_nohw_mix_columns (aes_nohw_shift_rows (aes_nohw_sub_bytes b))) (key_batch sched i))
  (fun s => round rk s i).
Proof using Hsched.
  intros Hi. apply steps_so_far. intros b Hb. unfold round. apply so_far_add; [done|].
  step_with mix_columns_steps. step_with shift_rows_steps. step_with sub_bytes_steps. by apply so_far_start.
Qed.
Lemma encrypt_batch_steps : steps (aes_nohw_encrypt_batch sched nr) (cipher rk nr).
Proof using Hnr Hsched.
  apply steps_so_far. intros b Hb. unfold aes_nohw_encrypt_batch, cipher. cbv zeta. apply so_far_add; [lia|].
  step_with shift_rows_steps. step_with sub_bytes_steps. apply so_far_fold; [intros i Hi; by apply round_steps, rounds_up_range|].
  apply so_far_add; [lia|by apply so_far_start].
Qed.

(** Decryption has the rounds shifted by two steps. *)
Definition code_inv_round (s : list Z) (i : Z) : list Z := InvSubBytes (InvShiftRows (InvMixColumns (AddRoundKey s (rk i)))).
Lemma fold_shift {S I} (f g : S -> I -> S) (p : S -> S) l : (forall s i, f (p s) i = p (g s i)) -> forall s, fold_left f l (p s) = p (fold_left g l s).
Proof using. intros H. induction l as [|i l IH]; intros s; [done|]. cbn [fold_left]. by rewrite H, IH. Qed.
Lemma inv_rounds_shifted l s :
  fold_left code_inv_round l (InvSubBytes (InvShiftRows s)) = InvSubBytes (InvShiftRows (fold_left (inv_round rk) l s)).
Proof using. apply (fold_shift code_inv_round (inv_round rk) (fun s => InvSubBytes (InvShiftRows s))). intros t i. reflexivity. Qed.

Lemma inv_round_steps i : 0 <= i <= nr -> steps (fun b => aes_nohw_inv_sub_bytes (aes_nohw_inv_shift_rows (aes_nohw_inv_mix_columns
  (aes_nohw_add_round_key b (key_batch sched i))))) (fun s => code_inv_round s i).
Proof using Hsched.
  intros Hi. apply steps_so_far. intros b Hb. unfold code_inv_round. step_with inv_sub_bytes_steps. step_with inv_shift_rows_steps. step_with inv_mix_columns_steps.
  apply so_far_add; [done|by apply so_far_start].
Qed.
Lemma decrypt_batch_steps : steps (aes_nohw_decrypt_batch sched nr) (inv_cipher rk nr).
Proof using Hnr Hsched.
  intros b Hb. cut (so_far b (aes_nohw_decrypt_batch sched nr b)
    (fun s => AddRoundKey (fold_left code_inv_round (rev (rounds_up nr)) (InvSubBytes (InvShiftRows (AddRoundKey s (rk nr))))) (rk 0))).
  { intros [Hok H]. split; [done|]. intros k Hk. rewrite H, inv_rounds_shifted by done. reflexivity. }
  unfold aes_nohw_decrypt_batch. cbv zeta. apply so_far_add; [lia|]. apply so_far_fold.
  - intros i Hi. apply inv_round_steps, rounds_up_range. by rewrite list_elem_of_In, <- in_rev, <- list_elem_of_In in Hi.
  - step_with inv_sub_bytes_steps. step_with inv_shift_rows_steps. apply so_far_add; [lia|by apply so_far_start].
Qed.
End batch.

(** ** Keys and single blocks *)

Section keyed.
Context (key : list Z) (k : AES_KEY) (Hsched : schedule_for key k).

Lemma expanded_keys i : 0 <= i <= Nr key ->
  batch_ok (key_batch (aes_nohw_expand_round_keys k) i) /\
  forall b, 0 <= b < 4 -> block_of (key_batch (aes_nohw_expand_round_keys k) i) b = round_key key i.
Proof using Hsched.
  intros Hi. destruct Hsched as [Hr Hk]. destruct (Hk i Hi) as [Hok Hb]. unfold key_batch, aes_nohw_expand_round_keys, zseq.
  rewrite <- list_fmap_compose, nth_lookup, list_lookup_fmap, lookup_seq_lt by lia. cbn -[expand_round_key]. rewrite Z2Nat.id by lia.
  destruct (expand_round_key_spec _ Hok) as [H1 H2]. split; [done|]. intros b Hb4. by rewrite H2.
Qed.

(** [n] blocks at once. *)
Lemma encrypt_blocks_spec inp n : 1 <= Nr key -> bytes_ok inp -> 0 <= n <= 4 -> 16 * n <= zlen inp ->
  aes_nohw_from_batch n (aes_nohw_encrypt_batch (aes_nohw_expand_round_keys k) (rounds k) (aes_nohw_to_batch inp n)) =
  concat ((fun i => Cipher key (ztake 16 (zdrop (16 * i) inp))) <$> zseq n).
Proof using Hsched.
  intros Hnr Hb Hn Hl. destruct (to_batch_spec inp n Hb Hn Hl) as [Hok Hblk]. rewrite (proj1 Hsched).
  destruct (encrypt_batch_steps _ (round_key key) (Nr key) Hnr expanded_keys _ Hok) as [Hok' H]. rewrite from_batch_spec by done.
  f_equal. apply map_zseq_ext. intros i Hi. rewrite H, Hblk by lia. done.
Qed.
Lemma decrypt_blocks_spec inp n : 1 <= Nr key -> bytes_ok inp -> 0 <= n <= 4 -> 16 * n <= zlen inp ->
  aes_nohw_from_batch n (aes_nohw_decrypt_batch (aes_nohw_expand_round_keys k) (rounds k) (aes_nohw_to_batch inp n)) =
  concat ((fun i => InvCipher key (ztake 16 (zdrop (16 * i) inp))) <$> zseq n).
Proof using Hsched.
  intros Hnr Hb Hn Hl. destruct (to_batch_spec inp n Hb Hn Hl) as [Hok Hblk]. rewrite (proj1 Hsched).
  destruct (decrypt_batch_steps _ (round_key key) (Nr key) Hnr expanded_keys _ Hok) as [Hok' H]. rewrite from_batch_spec by done.
  f_equal. apply map_zseq_ext. intros i Hi. rewrite H, Hblk by lia. done.
Qed.

Lemma AES_encrypt_cipher inp : 1 <= Nr key -> state_ok inp -> AES_encrypt inp k = Cipher key inp.
Proof using Hsched.
  intros Hnr [Hb Hl]. unfold AES_encrypt, aes_nohw_encrypt. cbv zeta. rewrite encrypt_blocks_spec by (done || lia).
  change (zseq 1) with [0]. cbn [fmap list_fmap concat]. rewrite app_nil_r. f_equal. rewrite ztake_all; [done|]. rewrite zlen_zdrop. lia.
Qed.
Lemma AES_decrypt_cipher inp : 1 <= Nr key -> state_ok inp -> AES_decrypt inp k = InvCipher key inp.
Proof using Hsched.
  intros Hnr [Hb Hl]. unfold AES_decrypt, aes_nohw_decrypt. cbv zeta. rewrite decrypt_blocks_spec by (done || lia).
  change (zseq 1) with [0]. cbn [fmap list_fmap concat]. rewrite app_nil_r. f_equal. rewrite ztake_all; [done|]. rewrite zlen_zdrop. lia.
Qed.

(** The round keys of the standard are blocks, so that its two ciphers are inverse. *)
Lemma cipher_inverse inp : 1 <= Nr key -> state_ok inp -> InvCipher key (Cipher key inp) = inp.
Proof using Hsched.
  intros Hnr Hs. unfold InvCipher, Cipher. apply (inv_cipher_cipher (round_key key) (Nr key)); [done| |done]. intros i Hi. destruct (proj2 Hsched i Hi) as [_ <-].
  split; [apply compact_bytes_ok|apply zlen_compact_bytes].
Qed.
End keyed.

(** ** The interface *)

Lemma rounds_positive key bits : aes_bits bits -> 8 * zlen key = bits -> 1 <= Nr key.
Proof. intros Hb Hl. unfold Nr, Nk. destruct Hb as [->|[-> | ->]]; zarith. Qed.

(** What comes out is a block, whatever goes in. *)
Lemma uncompact_state blk : state_ok (aes_nohw_uncompact_block blk).
Proof. split; [apply Forall_app; split; apply le_bytes_ok|]. unfold aes_nohw_uncompact_block. by rewrite zlen_app, !zlen_le_bytes. Qed.
Lemma from_batch_state batch : state_ok (aes_nohw_from_batch 1 batch).
Proof. unfold aes_nohw_from_batch. change (zseq 1) with [0]. cbn [fmap list_fmap concat]. rewrite app_nil_r. apply uncompact_state. Qed.
Lemma AES_encrypt_state inp k : state_ok (AES_encrypt inp k).
Proof. apply from_batch_state. Qed.
Lemma AES_decrypt_state inp k : state_ok (AES_decrypt inp k).
Proof. apply from_batch_state. Qed.

(** C14. [AES_set_encrypt_key] and [AES_set_decrypt_key] succeed for keys of 128, 192 and
    256 bits, which is what they set, and then [AES_encrypt] computes the cipher of FIPS 197
    for that key, [AES_decrypt] the inverse cipher, and each block is decrypted to what
    it was. *)
Theorem aes_correct key bits aeskey inp : aes_bits bits -> bytes_ok key -> 8 * zlen key = bits -> zlen (rd_key aeskey) = 60 -> state_ok inp ->
  let '(r, k) := AES_set_encrypt_key key bits aeskey in
  r = 0 /\ AES_set_decrypt_key key bits aeskey = (r, k) /\
  AES_encrypt inp k = Cipher key inp /\ AES_decrypt inp k = InvCipher key inp /\ AES_decrypt (AES_encrypt inp k) k = inp.
Proof.
  intros Hbits Hb Hl Hz Hs. pose proof (rounds_positive key bits Hbits Hl) as Hnr.
  destruct (set_key_spec key bits aeskey Hbits Hb Hl Hz) as [H0 Hk]. destruct (AES_set_encrypt_key key bits aeskey) as [r k] eqn:E.
  cbn [fst snd] in *. split; [done|]. split; [exact E|]. rewrite !(AES_decrypt_cipher key) by (done || by apply AES_encrypt_state).
  rewrite (AES_encrypt_cipher key) by done. split; [done|]. split; [done|]. by apply (cipher_inverse key k).
Qed.

(** The example of FIPS 197, appendix C.3: a key of 256 bits. *)
Definition blank_key : AES_KEY := AesKey (replicate 60 0) 0.
Example fips_197_c3 : let k := snd (AES_set_encrypt_key (zseq 32) 256 blank_key) in
  AES_encrypt ((fun i => 17 * i) <$> zseq 16) k = be_bytes 16 0x8ea2b7ca516745bfeafc49904b496089.
Proof. vm_compute. reflexivity. Qed.

Lemma aes_correct_witness :
  let key := zseq 24 in let inp := (fun i => 17 * i) <$> zseq 16 in
  let '(r, k) := AES_set_encrypt_key key 192 blank_key in
  r = 0 /\ AES_set_decrypt_key key 192 blank_key = (r, k) /\
  AES_encrypt inp k = Cipher key inp /\ AES_decrypt inp k = InvCipher key inp /\ AES_decrypt (AES_encrypt inp k) k = inp.
Proof.
  apply (aes_correct (zseq 24) 192 blank_key ((fun i => 17 * i) <$> zseq 16)).
  - right. by left.
  - by apply (bool_decide_eq_true_1 (bytes_ok (zseq 24))).
  - done.
  - done.
  - split; [by apply (bool_decide_eq_true_1 (bytes_ok ((fun i => 17 * i) <$> zseq 16)))|done].
Defined.
