(* ===== verification/AesModes.v ===== *)
(** * The modes of operation of AES (fipsmodule/aes/mode_wrappers.c).

    The bitsliced code has its own counter mode and CBC, which take four blocks at
    a time. They are the ones of fipsmodule/modes with AES as the block cipher. *)

From S2P Require Import Prelude Mem Modes CtrMode CbcMode Schedule Fips197 Aes Linear AesSlice AesBlock AesKey AesCorrect.
Import Fips197.

(** ** Blocks of a buffer *)

Lemma le_val_lxor a b : bytes_ok a -> bytes_ok b -> zlen a = 8 -> zlen b = 8 -> le_bytes 8 (Z.lxor (le_val a) (le_val b)) = xor_bytes a b.
Proof.
  intros Ha Hb La Lb. rewrite <- (le_bytes_le_val (xor_bytes a b) 8).
  - f_equal. pose proof (le_val_range a Ha) as Ra. pose proof (le_val_range b Hb) as Rb. rewrite La in Ra. rewrite Lb in Rb.
    assert (Hx : bytes_ok (xor_bytes a b)) by (by apply xor_bytes_ok).
    assert (Lx : zlen (xor_bytes a b) = 8) by (rewrite zlen_xor_bytes; lia).
    pose proof (le_val_range _ Hx) as Rx. rewrite Lx in Rx.
    apply word64_eq; [by apply word64_lxor|exact Rx|]. intros i Hi. rewrite Z.lxor_spec.
    replace i with (8 * (i / 8) + i mod 8) by zarith. rewrite !le_val_bit by (done || zarith).
    unfold xor_bytes, znth. rewrite !nth_lookup, lookup_zip_with.
    destruct (lookup_lt_is_Some_2 a (Z.to_nat (i / 8))) as [x ->]; [unfold zlen in La; zarith|].
    destruct (lookup_lt_is_Some_2 b (Z.to_nat (i / 8))) as [y ->]; [unfold zlen in Lb; zarith|]. cbn. by rewrite Z.lxor_spec.
  - by apply xor_bytes_ok.
  - unfold xor_bytes. rewrite length_zip_with. unfold zlen in *. lia.
Qed.

Lemma xor_block_bytes a b : state_ok a -> state_ok b -> aes_nohw_xor_block a b = xor_bytes a b.
Proof.
  intros [Ha La] [Hb Lb]. unfold aes_nohw_xor_block. change (zseq 2) with [0; 1]. cbn [fmap list_fmap concat]. rewrite app_nil_r.
  unfold aes_nohw_xor. rewrite !le_val_lxor by (try (by apply Forall_ztake, Forall_zdrop); rewrite zlen_ztake, zlen_zdrop; lia).
  change (zdrop (8 * 0) a) with a. change (zdrop (8 * 0) b) with b. rewrite <- xor_bytes_app by (rewrite !zlen_ztake; lia).
  change (8 * 1) with 8. rewrite (ztake_all 8 (zdrop 8 a)), (ztake_all 8 (zdrop 8 b)) by (rewrite zlen_zdrop; lia). by rewrite !ztake_zdrop.
Qed.

Lemma block_at_app_l l1 l2 i : 0 <= i -> 16 * (i + 1) <= zlen l1 -> block_at (l1 ++ l2) i = block_at l1 i.
Proof.
  intros Hi Hl. unfold block_at. rewrite zdrop_app_le by lia. apply ztake_app_le. rewrite zlen_zdrop. lia.
Qed.
Lemma block_at_app_r l1 l2 n i : zlen l1 = 16 * n -> n <= i -> block_at (l1 ++ l2) i = block_at l2 (i - n).
Proof. intros Hl Hi. unfold block_at. rewrite zdrop_app_ge by lia. do 2 f_equal. lia. Qed.
Lemma block_at_drop l k i : 0 <= k -> 0 <= i -> block_at (zdrop (16 * k) l) i = block_at l (k + i).
Proof. intros Hk Hi. unfold block_at. rewrite zdrop_zdrop by lia. do 2 f_equal. lia. Qed.

(** A buffer of blocks. *)
Definition blocks_ok (bs : list (list Z)) : Prop := Forall (fun b => zlen b = 16) bs.
Lemma zlen_concat_blocks bs : blocks_ok bs -> zlen (concat bs) = 16 * zlen bs.
Proof. intros H. induction H as [|b bs Hb _ IH]; [done|]. cbn [concat]. rewrite zlen_app, zlen_cons. lia. Qed.
Lemma block_at_concat bs i : blocks_ok bs -> 0 <= i < zlen bs -> block_at (concat bs) i = nth (Z.to_nat i) bs [].
Proof.
  intros H. revert i. induction H as [|b bs Hb H IH]; intros i Hi; [change (zlen (@nil (list Z))) with 0 in Hi; lia|].
  cbn [concat]. rewrite zlen_cons in Hi. destruct (Z.eq_dec i 0) as [->|].
  - unfold block_at. change (zdrop (16 * 0) ?l) with l. by apply ztake_app.
  - rewrite (block_at_app_r _ _ 1) by lia. rewrite IH by lia. replace (Z.to_nat i) with (S (Z.to_nat (i - 1))) by lia. done.
Qed.
Lemma blocks_ok_map (f : Z -> list Z) n : (forall i, 0 <= i < n -> zlen (f i) = 16) -> blocks_ok (f <$> zseq n).
Proof. intros H. apply Forall_fmap, Forall_forall. intros i Hi. apply elem_of_zseq in Hi. by apply H. Qed.
Lemma zlen_blocks_map (f : Z -> list Z) n : 0 <= n -> zlen (f <$> zseq n) = n.
Proof. intros Hn. rewrite zlen_map. unfold zlen, zseq. rewrite length_fmap, length_seq. lia. Qed.
Lemma block_at_map (f : Z -> list Z) n i : (forall i, 0 <= i < n -> zlen (f i) = 16) -> 0 <= i < n -> block_at (concat (f <$> zseq n)) i = f i.
Proof.
  intros Hf Hi. rewrite block_at_concat by (try (by apply blocks_ok_map); rewrite zlen_blocks_map; lia).
  unfold zseq. rewrite <- list_fmap_compose, nth_lookup, list_lookup_fmap, lookup_seq_lt by lia. cbn. f_equal. lia.
Qed.
Lemma zlen_map_blocks (f : Z -> list Z) n : 0 <= n -> (forall i, 0 <= i < n -> zlen (f i) = 16) -> zlen (concat (f <$> zseq n)) = 16 * n.
Proof. intros Hn Hf. rewrite zlen_concat_blocks by (by apply blocks_ok_map). rewrite zlen_blocks_map; lia. Qed.
Lemma block_at_state l i : bytes_ok l -> 0 <= i -> 16 * (i + 1) <= zlen l -> state_ok (block_at l i).
Proof. intros Hb Hi Hl. split; [by apply Forall_ztake, Forall_zdrop|]. unfold block_at. rewrite zlen_ztake, zlen_zdrop. lia. Qed.
Lemma block_at_first l : block_at l 0 = ztake 16 l.
Proof. done. Qed.

(** ** Counter mode *)

(** The counter blocks: [pre] are the first 12 bytes of each. *)
Definition counters (pre : list Z) (cs : list (list Z)) : list Z := concat ((fun c => pre ++ c) <$> cs).

Section counters.
Context (pre : list Z) (Hpre : zlen pre = 12).
Definition counters_ok (cs : list (list Z)) : Prop := Forall (fun c => zlen c = 4) cs.

Lemma zlen_counters cs : counters_ok cs -> zlen (counters pre cs) = 16 * zlen cs.
Proof using Hpre.
  intros H. unfold counters. rewrite zlen_concat_blocks; [by rewrite zlen_map|]. apply Forall_fmap. eapply Forall_impl; [exact H|].
  intros c Hc. cbn in *. rewrite zlen_app. lia.
Qed.
Lemma block_at_counters cs i : counters_ok cs -> 0 <= i < zlen cs -> block_at (counters pre cs) i = pre ++ nth (Z.to_nat i) cs [].
Proof using Hpre.
  intros H Hi. unfold counters. rewrite block_at_concat.
  - rewrite !nth_lookup, list_lookup_fmap. destruct (lookup_lt_is_Some_2 cs (Z.to_nat i)) as [c ->]; [unfold zlen in Hi; lia|done].
  - apply Forall_fmap. eapply Forall_impl; [exact H|]. intros c Hc. cbn in *. rewrite zlen_app. lia.
  - by rewrite zlen_map.
Qed.
Lemma set_counter cs i c : counters_ok cs -> zlen c = 4 -> 0 <= i < zlen cs ->
  zwrite (4 * (4 * i + 3)) c (counters pre cs) = counters pre (<[Z.to_nat i := c]> cs).
Proof using Hpre.
  intros H Hc. revert i. induction H as [|c0 cs H0 H IH]; intros i Hi; [change (zlen (@nil (list Z))) with 0 in Hi; lia|].
  rewrite zlen_cons in Hi. unfold counters. cbn [fmap list_fmap concat]. fold (counters pre cs). destruct (Z.eq_dec i 0) as [->|].
  - change (<[Z.to_nat 0:=c]> (c0 :: cs)) with (c :: cs). cbn [fmap list_fmap concat]. fold (counters pre cs).
    rewrite <- !app_assoc. apply zwrite_mid; lia.
  - replace (Z.to_nat i) with (S (Z.to_nat (i - 1))) by lia.
    change (<[S (Z.to_nat (i - 1)):=c]> (c0 :: cs)) with (c0 :: <[Z.to_nat (i - 1):=c]> cs). cbn [fmap list_fmap concat].
    fold (counters pre (<[Z.to_nat (i - 1) := c]> cs)). rewrite <- IH by lia. unfold zwrite.
    assert (Hz : zlen (pre ++ c0) = 16) by (rewrite zlen_app; lia).
    rewrite ztake_app_ge, zdrop_app_ge, <- app_assoc by lia. rewrite Hz. do 3 f_equal; [|f_equal]; lia.
Qed.
End counters.

Lemma set_counters pre cs ctr : zlen pre = 12 -> counters_ok cs -> zlen cs = 4 ->
  fold_left (fun ivs i => zwrite (4 * (4 * i + 3)) (le_bytes 4 (CRYPTO_bswap4 (u32 (ctr + i)))) ivs) (zseq AES_NOHW_BATCH_SIZE) (counters pre cs) =
  counters pre ((fun i => be_bytes 4 (ctr + i)) <$> zseq 4).
Proof.
  intros Hpre Hcs Hl. assert (E : forall i, le_bytes 4 (CRYPTO_bswap4 (u32 (ctr + i))) = be_bytes 4 (ctr + i)).
  { intros i. rewrite <- (be_bytes_mod 4). apply store_u32_be_bytes, u32_range. }
  destruct cs as [|c0 [|c1 [|c2 [|c3 [|]]]]]; try (unfold zlen in Hl; cbn [length] in Hl; lia). change (zseq AES_NOHW_BATCH_SIZE) with [0; 1; 2; 3]. change (zseq 4) with [0; 1; 2; 3].
  cbn [fold_left fmap list_fmap]. rewrite !E.
  assert (H : forall x, zlen (be_bytes 4 x) = 4) by (intros x; apply zlen_be_bytes).
  do 4 (rewrite (set_counter pre Hpre); [|repeat (apply Forall_insert; [|apply H]); exact Hcs|apply H|by rewrite ?zlen_insert]). done.
Qed.

(** The reference counts modulo 2^32. *)
Lemma stream_u32 block n : forall inp ivec c, ctr32_stream block inp n ivec (u32 c) = ctr32_stream block inp n ivec c.
Proof.
  induction n as [|n IH]; intros inp ivec c; [done|]. cbn [ctr32_stream]. rewrite <- (IH _ _ (c + 1)), <- (IH _ _ (u32 c + 1)), u32_add_l.
  do 4 f_equal. exact (be_bytes_mod 4 c).
Qed.
Lemma stream_app block m n ivec : forall inp c,
  ctr32_stream block inp (m + n) ivec c =
  concat ((fun i => xor_bytes (block_at inp i) (block (ztake 12 ivec ++ be_bytes 4 (c + i)))) <$> zseq (Z.of_nat m)) ++
  ctr32_stream block (zdrop (16 * Z.of_nat m) inp) n ivec (c + Z.of_nat m).
Proof.
  induction m as [|m IH]; intros inp c.
  - cbn [Nat.add]. by rewrite Z.add_0_r.
  - cbn [Nat.add ctr32_stream]. rewrite IH. unfold zseq. rewrite !Nat2Z.id. cbn [seq fmap list_fmap concat]. rewrite Z.add_0_r, <- app_assoc.
    rewrite <- fmap_S_seq, <- !list_fmap_compose. f_equal. f_equal.
    + f_equal. apply list_fmap_ext. intros _ i _. cbn [compose]. unfold compose.
      replace (Z.of_nat (S i)) with (1 + Z.of_nat i) by lia. rewrite <- (block_at_drop inp 1) by lia. change (16 * 1) with 16. do 4 f_equal. lia.
    + rewrite zdrop_zdrop by lia. f_equal; [f_equal|]; lia.
Qed.

Section keyed.
Context (key : list Z) (k : AES_KEY) (Hsched : schedule_for key k) (Hnr : 1 <= Nr key).
Notation enc := (fun x => AES_encrypt x k).
Notation dec := (fun x => AES_decrypt x k).
Notation sched := (aes_nohw_expand_round_keys k).

(** The number of blocks that an iteration takes. *)
Lemma todo_range blocks : 1 <= blocks -> let todo := if blocks >=? AES_NOHW_BATCH_SIZE then AES_NOHW_BATCH_SIZE else blocks in
  1 <= todo <= 4 /\ todo <= blocks /\ (todo = 4 \/ todo = blocks).
Proof using. unfold AES_NOHW_BATCH_SIZE. intros H. cbv zeta. destruct (Z.geb_spec blocks 4); lia. Qed.

Lemma encrypt_batch_blocks buf n : bytes_ok buf -> 0 <= n <= 4 -> 16 * n <= zlen buf ->
  aes_nohw_from_batch n (aes_nohw_encrypt_batch sched (rounds k) (aes_nohw_to_batch buf n)) = concat ((fun i => enc (block_at buf i)) <$> zseq n).
Proof using Hsched Hnr.
  intros Hb Hn Hl. rewrite (encrypt_blocks_spec key) by done. f_equal. apply map_zseq_ext. intros i Hi. symmetry.
  apply (AES_encrypt_cipher key); [done|done|]. apply block_at_state; [done|lia..].
Qed.
Lemma decrypt_batch_blocks buf n : bytes_ok buf -> 0 <= n <= 4 -> 16 * n <= zlen buf ->
  aes_nohw_from_batch n (aes_nohw_decrypt_batch sched (rounds k) (aes_nohw_to_batch buf n)) = concat ((fun i => dec (block_at buf i)) <$> zseq n).
Proof using Hsched Hnr.
  intros Hb Hn Hl. rewrite (decrypt_blocks_spec key) by done. f_equal. apply map_zseq_ext. intros i Hi. symmetry.
  apply (AES_decrypt_cipher key); [done|done|]. apply block_at_state; [done|lia..].
Qed.

Lemma ctr32_loop_stream ivec fuel : bytes_ok ivec -> zlen ivec = 16 -> forall inp blocks cs ctr,
  bytes_ok inp -> 1 <= blocks <= Z.of_nat fuel -> zlen inp = 16 * blocks -> counters_ok cs -> zlen cs = 4 ->
  ctr32_loop sched (rounds k) fuel inp blocks (counters (ztake 12 ivec) cs) ctr = ctr32_stream enc inp (Z.to_nat blocks) ivec ctr.
Proof using Hsched Hnr.
  intros Hbv Hlv. assert (Hpre : zlen (ztake 12 ivec) = 12) by (rewrite zlen_ztake; lia).
  assert (Hc : forall x, zlen (be_bytes 4 x) = 4) by (intros x; apply zlen_be_bytes).
  induction fuel as [|fuel IH]; intros inp blocks cs ctr Hb Hbl Hl Hcs Hl4; [lia|]. cbn [ctr32_loop]. rewrite set_counters by done.
  set (cs' := (fun i => be_bytes 4 (ctr + i)) <$> zseq 4). assert (Hcs' : counters_ok cs') by (apply Forall_fmap, Forall_true; intros i; apply Hc).
  destruct (todo_range blocks) as (Ht & Htb & Hcase); [lia|]. set (todo := if blocks >=? AES_NOHW_BATCH_SIZE then AES_NOHW_BATCH_SIZE else blocks) in *.
  clearbody todo.
  assert (Hbc : bytes_ok (counters (ztake 12 ivec) cs')).
  { apply Forall_concat, Forall_fmap, Forall_fmap, Forall_true. intros i. cbv beta. apply Forall_app. split; [by apply Forall_ztake|apply be_bytes_ok]. }
  rewrite encrypt_batch_blocks by (done || lia || (rewrite zlen_counters by done; change (zlen cs') with 4; lia)).
  rewrite (map_zseq_ext _ (fun i => xor_bytes (block_at inp i) (enc (ztake 12 ivec ++ be_bytes 4 (ctr + i)))) todo).
  - assert (E : Z.to_nat blocks = (Z.to_nat todo + Z.to_nat (blocks - todo))%nat) by lia. rewrite E, stream_app, Z2Nat.id by lia.
    destruct (Z.eqb_spec (blocks - todo) 0) as [H0|H0].
    + rewrite H0. by rewrite app_nil_r.
    + assert (todo = 4) as -> by lia. unfold AES_NOHW_BATCH_SIZE. f_equal.
      rewrite IH by (done || lia || (by apply Forall_zdrop) || (rewrite zlen_zdrop; lia)). apply stream_u32.
  - intros i Hi. assert (Henc : forall x, state_ok (enc x)) by (intros x; apply AES_encrypt_state).
    rewrite block_at_map by (done || (intros j _; apply Henc)). rewrite block_at_counters by (done || (change (zlen cs') with 4; lia)).
    rewrite xor_block_bytes by (apply Henc || (apply block_at_state; done || lia)). do 3 f_equal.
    unfold cs', zseq. rewrite <- list_fmap_compose, nth_lookup, list_lookup_fmap, lookup_seq_lt by lia.
    change (be_bytes 4 (ctr + Z.of_nat (0 + Z.to_nat i)) = be_bytes 4 (ctr + i)). f_equal. lia.
Qed.

(** The bitsliced function is what the counter mode expects of it. *)
Lemma ctr32_blocks_ref inp blocks ivec : 0 <= blocks <= 2 ^ 28 -> bytes_ok inp -> bytes_ok ivec -> zlen inp = 16 * blocks -> zlen ivec = 16 ->
  aes_nohw_ctr32_encrypt_blocks inp blocks k ivec = ctr32_ref enc inp blocks ivec.
Proof using Hsched Hnr.
  intros Hbl Hb Hv Hl Hlv. unfold aes_nohw_ctr32_encrypt_blocks, ctr32_ref. destruct (Z.eqb_spec blocks 0) as [->|]; [done|].
  rewrite (ztake_all 16 ivec) by lia.
  assert (E : concat (replicate (Z.to_nat AES_NOHW_BATCH_SIZE) ivec) = counters (ztake 12 ivec) (replicate 4 (zdrop 12 ivec))).
  { change (Z.to_nat AES_NOHW_BATCH_SIZE) with 4%nat. unfold counters. cbn [replicate fmap list_fmap concat]. by rewrite !ztake_zdrop. }
  assert (Hd : zlen (zdrop 12 ivec) = 4) by (rewrite zlen_zdrop; lia).
  assert (E' : zdrop (4 * 3) (concat (replicate (Z.to_nat AES_NOHW_BATCH_SIZE) ivec)) = zdrop 12 ivec ++ concat (replicate 3 ivec)).
  { change (Z.to_nat AES_NOHW_BATCH_SIZE) with 4%nat. cbn [replicate concat]. apply zdrop_app_le. lia. }
  rewrite E', E, ctr32_loop_stream by (done || lia || (by apply Forall_replicate)). f_equal.
  pose proof (load_u32_be_val (zdrop 12 ivec) ltac:(by apply Forall_zdrop) ltac:(lia)) as H. unfold CRYPTO_load_u32_be in H.
  rewrite take_ge in H by (unfold zlen in Hd; lia). rewrite <- H. do 2 f_equal. by apply ztake_app.
Qed.

(** ** Cipher block chaining *)

Lemma xor_bytes_comm a b : xor_bytes a b = xor_bytes b a.
Proof using.
  unfold xor_bytes. revert b. induction a as [|x a IH]; intros [|y b]; cbn; [done..|]. by rewrite IH, Z.lxor_comm.
Qed.

Lemma cbc_encrypt_loop_blocks n : forall fuel inp iv, (n <= fuel)%nat -> bytes_ok inp -> state_ok iv -> 16 * Z.of_nat n <= zlen inp ->
  let '(out, iv') := cbc_encrypt_loop sched (rounds k) n inp iv in
  cbc_blocks enc fuel inp (16 * Z.of_nat n) iv = (out, zdrop (16 * Z.of_nat n) inp, 0, iv').
Proof using Hsched Hnr.
  induction n as [|n IH]; intros fuel inp iv Hf Hb Hiv Hl; [by destruct fuel|]. destruct fuel as [|fuel]; [lia|]. cbn [cbc_encrypt_loop cbc_blocks].
  assert (Hx : state_ok (block_at inp 0)) by (apply block_at_state; done || lia).
  rewrite xor_block_bytes by done. set (x := xor_bytes iv (block_at inp 0)).
  assert (Hs : state_ok x) by (split; [apply xor_bytes_ok; [apply Hiv|apply Hx]|unfold x; rewrite zlen_xor_bytes; [apply Hiv|]; destruct Hiv, Hx; lia]).
  rewrite encrypt_batch_blocks by (apply Hs || lia || (destruct Hs; lia)). change (zseq 1) with [0]. cbn [fmap list_fmap concat]. rewrite app_nil_r.
  rewrite (block_at_first x), ztake_all by (destruct Hs; lia).
  replace (xor_bytes (ztake 16 inp) iv) with x by (unfold x; rewrite xor_bytes_comm; done).
  rewrite (proj2 (Z.geb_le _ _)) by lia. replace (16 * Z.of_nat (S n) - 16) with (16 * Z.of_nat n) by lia.
  specialize (IH fuel (zdrop 16 inp) (AES_encrypt x k)). destruct (cbc_encrypt_loop _ _ n _ _) as [out iv'].
  rewrite IH; [|lia|by apply Forall_zdrop|apply AES_encrypt_state|rewrite zlen_zdrop; lia].
  rewrite zdrop_zdrop by lia. do 4 f_equal. lia.
Qed.

(** Block [i] of the plaintext, and what it was chained with. *)
Definition cbc_prev (inp iv : list Z) (i : Z) : list Z := if i =? 0 then iv else block_at inp (i - 1).
Definition cbc_plain (inp iv : list Z) (i : Z) : list Z := xor_bytes (dec (block_at inp i)) (cbc_prev inp iv i).

Lemma cbc_prev_drop inp iv m i : 0 <= m -> 0 <= i -> cbc_prev (zdrop (16 * m) inp) (cbc_prev inp iv m) i = cbc_prev inp iv (m + i).
Proof using.
  intros Hm Hi. unfold cbc_prev at 1. destruct (Z.eqb_spec i 0) as [->|]; [by rewrite Z.add_0_r|].
  rewrite block_at_drop by lia. unfold cbc_prev. rewrite (proj2 (Z.eqb_neq (m + i) 0)) by lia. f_equal. lia.
Qed.
Lemma map_zseq_app {A} (f : Z -> A) m n : 0 <= m -> 0 <= n -> f <$> zseq (m + n) = (f <$> zseq m) ++ ((fun i => f (m + i)) <$> zseq n).
Proof using.
  intros Hm Hn. unfold zseq. rewrite Z2Nat.inj_add, seq_app, !fmap_app by lia. f_equal. rewrite <- !list_fmap_compose.
  rewrite Nat.add_comm, <- (fmap_add_seq (Z.to_nat m) 0), <- list_fmap_compose. apply list_fmap_ext. intros _ i _. cbn. f_equal. lia.
Qed.
Lemma cbc_plain_app inp iv m n : 0 <= m -> 0 <= n -> concat (cbc_plain inp iv <$> zseq (m + n)) =
  concat (cbc_plain inp iv <$> zseq m) ++ concat (cbc_plain (zdrop (16 * m) inp) (cbc_prev inp iv m) <$> zseq n).
Proof using.
  intros Hm Hn. rewrite map_zseq_app, concat_app by lia. f_equal. f_equal. apply map_zseq_ext. intros i Hi. unfold cbc_plain.
  rewrite cbc_prev_drop, block_at_drop by lia. done.
Qed.

Lemma cbc_dec_apart_plain n : forall fuel inp iv, (n <= fuel)%nat -> 16 * Z.of_nat n <= zlen inp ->
  cbc_dec_apart dec fuel inp (16 * Z.of_nat n) iv =
  (concat (cbc_plain inp iv <$> zseq (Z.of_nat n)), zdrop (16 * Z.of_nat n) inp, 0, cbc_prev inp iv (Z.of_nat n)).
Proof using.
  induction n as [|n IH]; intros fuel inp iv Hf Hl; [by destruct fuel|]. destruct fuel as [|fuel]; [lia|]. cbn [cbc_dec_apart].
  rewrite (proj2 (Z.geb_le _ _)) by lia. replace (16 * Z.of_nat (S n) - 16) with (16 * Z.of_nat n) by lia.
  rewrite IH by (lia || (rewrite zlen_zdrop; lia)). rewrite Nat2Z.inj_succ, <- Z.add_1_l, cbc_plain_app by lia.
  change (zseq 1) with [0]. cbn [fmap list_fmap concat]. rewrite app_nil_r.
  rewrite zdrop_zdrop by lia. replace (16 + 16 * Z.of_nat n) with (16 * (1 + Z.of_nat n)) by lia.
  rewrite <- (cbc_prev_drop inp iv 1) by lia. done.
Qed.

(** Writing block [i] of a buffer. *)
Lemma set_block (f : Z -> list Z) n i b : (forall j, 0 <= j < n -> zlen (f j) = 16) -> zlen b = 16 -> 0 <= i < n ->
  zwrite (16 * i) b (concat (f <$> zseq n)) = concat ((fun j => if j =? i then b else f j) <$> zseq n).
Proof using.
  intros Hf Hb Hi. assert (Hz : zlen (concat (f <$> zseq i)) = 16 * i) by (apply zlen_map_blocks; [lia|]; intros j Hj; apply Hf; lia).
  assert (Hfi : zlen (f i) = 16) by (by apply Hf). clear Hf. replace n with (i + (1 + (n - i - 1))) by lia. rewrite !map_zseq_app by lia. change (zseq 1) with [0]. cbn [fmap list_fmap].
  rewrite !concat_app. cbn [concat]. rewrite !app_nil_r, Z.add_0_r, Z.eqb_refl.
  rewrite (map_zseq_ext (fun j => if j =? i then b else f j) f i) by (intros j Hj; by rewrite (proj2 (Z.eqb_neq j i)) by lia).
  rewrite (map_zseq_ext (fun j => if i + (1 + j) =? i then b else f (i + (1 + j))) (fun j => f (i + (1 + j))))
    by (intros j Hj; by rewrite (proj2 (Z.eqb_neq (i + (1 + j)) i)) by lia).
  apply zwrite_mid; lia.
Qed.

(** The xor with the blocks before, from the first block to the last. *)
Lemma chain_blocks (f : Z -> list Z) copy iv n : (forall i, state_ok (f i)) -> state_ok iv -> bytes_ok copy -> 1 <= n -> 16 * n <= zlen copy ->
  let out := concat (f <$> zseq n) in
  let out := zwrite 0 (aes_nohw_xor_block (block_at out 0) iv) out in
  fold_left (fun out i => zwrite (16 * i) (aes_nohw_xor_block (block_at out i) (block_at copy (i - 1))) out) (rounds_up n) out =
  concat ((fun i => xor_bytes (f i) (cbc_prev copy iv i)) <$> zseq n).
Proof using.
  intros Hf Hiv Hc Hn Hl. cbv zeta. set (g := fun i => xor_bytes (f i) (cbc_prev copy iv i)).
  assert (Hp : forall i, 0 <= i < n -> state_ok (cbc_prev copy iv i)).
  { intros i Hi. unfold cbc_prev. destruct (Z.eqb_spec i 0); [done|]. apply block_at_state; done || lia. }
  assert (Hx : forall x y, state_ok x -> state_ok y -> zlen (xor_bytes x y) = 16).
  { intros x y [_ Hx] [_ Hy]. rewrite zlen_xor_bytes; lia. }
  set (h := fun m j => if j <=? m then g j else f j).
  assert (Hh : forall m j, 0 <= j < n -> zlen (h m j) = 16).
  { intros m j Hj. unfold h. destruct (j <=? m); [apply Hx; [apply Hf|by apply Hp]|apply Hf]. }
  assert (Hset : forall m, -1 <= m < n - 1 -> zwrite (16 * (m + 1)) (g (m + 1)) (concat (h m <$> zseq n)) = concat (h (m + 1) <$> zseq n)).
  { intros m Hm. rewrite set_block by (lia || (intros j Hj; by apply Hh) || (apply Hx; [apply Hf|apply Hp; lia])). f_equal. apply map_zseq_ext. intros j Hj. unfold h.
    destruct (Z.eqb_spec j (m + 1)) as [E|E]; [by rewrite E, Z.leb_refl|]. by destruct (Z.leb_spec j m), (Z.leb_spec j (m + 1)); try lia. }
  assert (Hat : forall m, 0 <= m + 1 < n -> block_at (concat (h m <$> zseq n)) (m + 1) = f (m + 1)).
  { intros m Hm. rewrite block_at_map by (lia || (intros j Hj; by apply Hh)). unfold h. by rewrite (proj2 (Z.leb_gt (m + 1) m)) by lia. }
  replace (f <$> zseq n) with (h (-1) <$> zseq n) by (apply map_zseq_ext; intros j Hj; unfold h; by rewrite (proj2 (Z.leb_gt j (-1))) by lia).
  transitivity (concat (h (n - 1) <$> zseq n)).
  - unfold rounds_up. apply (fold_zseq_inv (fun m out => out = concat (h m <$> zseq n))); [lia| |].
    + pose proof (Hat (-1) ltac:(lia)) as E. change (-1 + 1) with 0 in E. rewrite E, xor_block_bytes by (apply Hf || done). apply (Hset (-1)). lia.
    + intros m out Hm ->. rewrite Hat by lia. replace (m + 1 - 1) with m by lia.
      rewrite xor_block_bytes by (apply Hf || (apply block_at_state; done || lia)).
      rewrite <- Hset by lia. f_equal. unfold g, cbc_prev. rewrite (proj2 (Z.eqb_neq (m + 1) 0)) by lia. do 2 f_equal. lia.
  - f_equal. apply map_zseq_ext. intros j Hj. unfold h. by rewrite (proj2 (Z.leb_le j (n - 1))) by lia.
Qed.

Lemma block_at_take l n i : 0 <= i < n -> block_at (ztake (16 * n) l) i = block_at l i.
Proof using.
  intros Hi. unfold block_at, ztake, zdrop. rewrite skipn_firstn_comm, take_take. f_equal. lia.
Qed.

Lemma cbc_decrypt_loop_plain fuel : forall inp blocks iv, bytes_ok inp -> state_ok iv -> 1 <= blocks <= Z.of_nat fuel -> 16 * blocks <= zlen inp ->
  cbc_decrypt_loop sched (rounds k) fuel inp blocks iv = (concat (cbc_plain inp iv <$> zseq blocks), cbc_prev inp iv blocks).
Proof using Hsched Hnr.
  induction fuel as [|fuel IH]; intros inp blocks iv Hb Hiv Hbl Hl; [lia|]. cbn [cbc_decrypt_loop].
  destruct (todo_range blocks) as (Ht & Htb & Hcase); [lia|].
  set (todo := if blocks >=? AES_NOHW_BATCH_SIZE then AES_NOHW_BATCH_SIZE else blocks) in *. clearbody todo.
  rewrite decrypt_batch_blocks by (done || lia). rewrite (Z.mul_comm todo 16). set (copy := ztake (16 * todo) inp).
  assert (Hcopy : bytes_ok copy) by (by apply Forall_ztake). assert (Hlc : zlen copy = 16 * todo) by (unfold copy; rewrite zlen_ztake; lia).
  rewrite (chain_blocks _ copy iv todo) by (done || lia || (intros i; apply AES_decrypt_state)).
  rewrite (map_zseq_ext _ (cbc_plain inp iv) todo).
  - assert (E : block_at copy (todo - 1) = cbc_prev inp iv todo).
    { unfold copy, cbc_prev. rewrite block_at_take by lia. by rewrite (proj2 (Z.eqb_neq todo 0)) by lia. }
    rewrite E. destruct (Z.eqb_spec (blocks - todo) 0) as [H0|H0]; [by replace todo with blocks by lia|].
    assert (todo = 4) as -> by lia. unfold AES_NOHW_BATCH_SIZE. rewrite IH; [|by apply Forall_zdrop| |lia|rewrite zlen_zdrop; lia].
    + rewrite cbc_prev_drop by lia. rewrite <- cbc_plain_app by lia. by replace (4 + (blocks - 4)) with blocks by lia.
    + rewrite <- E. apply block_at_state; [done|lia..].
  - intros i Hi. unfold cbc_plain. f_equal. unfold cbc_prev. destruct (i =? 0) eqn:E0; [done|]. apply block_at_take. lia.
Qed.

(** The functions of mode_wrappers.c are the generic modes. *)
Lemma AES_cbc_encrypt_blocks inp n ivec : bytes_ok inp -> state_ok ivec -> 0 <= n -> 16 * n <= zlen inp ->
  AES_cbc_encrypt inp (16 * n) k ivec AES_ENCRYPT = CRYPTO_cbc128_encrypt enc inp (16 * n) ivec.
Proof using Hsched Hnr.
  intros Hb Hiv Hn Hl. unfold AES_cbc_encrypt, aes_nohw_cbc_encrypt, CRYPTO_cbc128_encrypt. rewrite Z.mul_comm, Z.div_mul by lia.
  destruct (Z.eqb_spec n 0) as [->|]; [done|]. rewrite (proj2 (Z.eqb_neq (n * 16) 0)) by lia. change (negb (AES_ENCRYPT =? 0)) with true. cbv iota.
  rewrite (ztake_all 16 ivec) by (destruct Hiv; lia).
  pose proof (cbc_encrypt_loop_blocks (Z.to_nat n) (Z.to_nat (n * 16)) inp ivec ltac:(lia) Hb Hiv ltac:(lia)) as H.
  rewrite Z2Nat.id, (Z.mul_comm 16 n) in H by lia. destruct (cbc_encrypt_loop _ _ _ _ _) as [out iv']. by rewrite H.
Qed.
Lemma AES_cbc_decrypt_blocks (apart : bool) inp n ivec : bytes_ok inp -> state_ok ivec -> 0 <= n -> 16 * n <= zlen inp ->
  AES_cbc_encrypt inp (16 * n) k ivec AES_DECRYPT = CRYPTO_cbc128_decrypt dec apart inp (16 * n) ivec.
Proof using Hsched Hnr.
  intros Hb Hiv Hn Hl. unfold AES_cbc_encrypt, aes_nohw_cbc_encrypt, CRYPTO_cbc128_decrypt. rewrite Z.mul_comm, Z.div_mul by lia.
  destruct (Z.eqb_spec n 0) as [->|]; [done|]. rewrite (proj2 (Z.eqb_neq (n * 16) 0)) by lia. change (negb (AES_DECRYPT =? 0)) with false. cbv iota.
  rewrite (ztake_all 16 ivec) by (destruct Hiv; lia). rewrite cbc_dec_loops, cbc_decrypt_loop_plain by (done || lia).
  pose proof (cbc_dec_apart_plain (Z.to_nat n) (Z.to_nat (n * 16)) inp ivec ltac:(lia) ltac:(lia)) as H.
  rewrite Z2Nat.id, (Z.mul_comm 16 n) in H by lia. by rewrite H.
Qed.
Lemma AES_ctr128_encrypt_agrees inp ivec ec num : bytes_ok inp -> state_ok ivec -> zlen ec = 16 -> 0 <= num < 16 ->
  let '(out, (ivec', ec', num')) := CRYPTO_ctr128_encrypt enc inp ivec ec num in
  exists ec2, AES_ctr128_encrypt inp k ivec ec num = (out, (ivec', ec2, num')) /\ (num' <> 0 -> ec2 = ec').
Proof using Hsched Hnr.
  intros Hb [Hbv Hlv] Hec Hn. apply ctr32_agrees; [|by intros inp' blocks ivec' *; apply ctr32_blocks_ref|done..].
  intros x. apply AES_encrypt_state.
Qed.
End keyed.

(** AES with a key that has been set is a block cipher for the modes of operation. *)
Lemma AES_roundtrip key k x : schedule_for key k -> 1 <= Nr key -> state_ok x -> AES_decrypt (AES_encrypt x k) k = x.
Proof.
  intros Hs Hnr Hx. rewrite (AES_decrypt_cipher key) by (done || apply AES_encrypt_state).
  rewrite (AES_encrypt_cipher key) by done. by apply (cipher_inverse key k).
Qed.
Lemma aes_block_cipher key k : schedule_for key k -> 1 <= Nr key -> BlockCipher (fun x => AES_encrypt x k) (fun x => AES_decrypt x k).
Proof.
  intros Hs Hnr. constructor; intros x.
  - apply AES_encrypt_state.
  - apply AES_decrypt_state.
  - intros _. apply AES_encrypt_state.
  - intros _. apply AES_decrypt_state.
  - intros Hb Hl. by apply (AES_roundtrip key).
Qed.

Lemma cbc_encrypt_loop_bytes sched nr n : forall inp iv, bytes_ok (fst (cbc_encrypt_loop sched nr n inp iv)).
Proof.
  induction n as [|n IH]; intros inp iv; [by apply Forall_nil|]. cbn [cbc_encrypt_loop].
  set (out := aes_nohw_from_batch 1 _). specialize (IH (zdrop 16 inp) out). destruct (cbc_encrypt_loop _ _ n _ _) as [out' iv'].
  apply Forall_app. split; [apply from_batch_state|exact IH].
Qed.
Lemma AES_cbc_encrypt_bytes inp len k ivec : bytes_ok (fst (AES_cbc_encrypt inp len k ivec AES_ENCRYPT)).
Proof.
  unfold AES_cbc_encrypt, aes_nohw_cbc_encrypt. destruct (len / 16 =? 0); [by apply Forall_nil|].
  change (negb (AES_ENCRYPT =? 0)) with true. cbv iota. apply cbc_encrypt_loop_bytes.
Qed.
Lemma AES_cbc_undo key k inp n ivec : schedule_for key k -> 1 <= Nr key -> bytes_ok inp -> state_ok ivec -> 0 <= n -> 16 * n <= zlen inp ->
  let '(out, ivec') := AES_cbc_encrypt inp (16 * n) k ivec AES_ENCRYPT in
  AES_cbc_encrypt out (16 * n) k ivec AES_DECRYPT = (ztake (16 * n) inp, ivec').
Proof.
  intros Hs Hnr Hb Hiv Hn Hl. pose proof (AES_cbc_encrypt_bytes inp (16 * n) k ivec) as Ho.
  pose proof (cbc_undo _ _ (BlockCipher0 := aes_block_cipher key k Hs Hnr) true inp (16 * n) ivec Hb (proj1 Hiv) ltac:(lia) (proj2 Hiv)) as H.
  rewrite (AES_cbc_encrypt_blocks key) in * by done. destruct (CRYPTO_cbc128_encrypt _ _ _ _) as [out ivec'].
  destruct H as (Hz & H & _). rewrite (AES_cbc_decrypt_blocks key k Hs Hnr true) by (done || zarith). exact H.
Qed.

(** C17. With a key that [AES_set_encrypt_key] has set, [AES_cbc_encrypt] and
    [AES_ctr128_encrypt], which process four blocks at a time in bitsliced form, compute
    what the generic modes compute with [AES_encrypt] and [AES_decrypt] a block at a time:
    CBC on any number of whole blocks, so that decrypting gives the input back, and
    counter mode on inputs of any length, with the counter, the position and the key
    stream that is left for the next call. *)
Theorem aes_modes_equivalent key bits aeskey inp ivec ec num n : aes_bits bits -> bytes_ok key -> 8 * zlen key = bits -> zlen (rd_key aeskey) = 60 ->
  bytes_ok inp -> state_ok ivec -> zlen ec = 16 -> 0 <= num < 16 -> 0 <= n -> 16 * n <= zlen inp ->
  let k := snd (AES_set_encrypt_key key bits aeskey) in
  let enc x := AES_encrypt x k in
  let dec x := AES_decrypt x k in
  AES_cbc_encrypt inp (16 * n) k ivec AES_ENCRYPT = CRYPTO_cbc128_encrypt enc inp (16 * n) ivec /\
  (forall apart, AES_cbc_encrypt inp (16 * n) k ivec AES_DECRYPT = CRYPTO_cbc128_decrypt dec apart inp (16 * n) ivec) /\
  (let '(out, ivec') := AES_cbc_encrypt inp (16 * n) k ivec AES_ENCRYPT in
   AES_cbc_encrypt out (16 * n) k ivec AES_DECRYPT = (ztake (16 * n) inp, ivec')) /\
  (let '(out, (ivec', ec', num')) := CRYPTO_ctr128_encrypt enc inp ivec ec num in
   exists ec2, AES_ctr128_encrypt inp k ivec ec num = (out, (ivec', ec2, num')) /\ (num' <> 0 -> ec2 = ec')).
Proof.
  intros Hbits Hb Hl Hz Hi Hiv Hec Hnum Hn Hln. cbv zeta. pose proof (rounds_positive key bits Hbits Hl) as Hnr.
  destruct (set_key_spec key bits aeskey Hbits Hb Hl Hz) as [_ Hs]. set (k := snd _) in *. split_and!.
  - by apply (AES_cbc_encrypt_blocks key).
  - intros apart. by apply (AES_cbc_decrypt_blocks key).
  - by apply (AES_cbc_undo key).
  - by apply (AES_ctr128_encrypt_agrees key).
Qed.

(** The examples of NIST SP 800-38A with the key of F.2.1: CBC with a first block, and counter mode. *)
Definition sp800_key : AES_KEY := snd (AES_set_encrypt_key (be_bytes 16 0x2b7e151628aed2a6abf7158809cf4f3c) 128 blank_key).
Example sp800_cbc : fst (AES_cbc_encrypt (be_bytes 16 0x6bc1bee22e409f96e93d7e117393172a) 16 sp800_key (zseq 16) AES_ENCRYPT) =
  be_bytes 16 0x7649abac8119b246cee98e9b12e9197d.
Proof. vm_compute. reflexivity. Qed.
Example sp800_ctr : fst (AES_ctr128_encrypt (be_bytes 16 0x6bc1bee22e409f96e93d7e117393172a) sp800_key (be_bytes 16 0xf0f1f2f3f4f5f6f7f8f9fafbfcfdfeff) (replicate 16 0) 0) =
  be_bytes 16 0x874d6191b620e3261bef6864990db6ce.
Proof. vm_compute. reflexivity. Qed.

Lemma aes_modes_equivalent_witness :
  let k := snd (AES_set_encrypt_key (zseq 16) 128 blank_key) in
  let '(out, ivec') := AES_cbc_encrypt (zseq 100) (16 * 6) k (zseq 16) AES_ENCRYPT in
  AES_cbc_encrypt out (16 * 6) k (zseq 16) AES_DECRYPT = (ztake (16 * 6) (zseq 100), ivec').
Proof.
  refine (proj1 (proj2 (proj2 (aes_modes_equivalent (zseq 16) 128 blank_key (zseq 100) (zseq 16) (zseq 16) 3 6 _ _ _ _ _ _ _ _ _ _)))); try done.
  - by left.
  - by apply (bool_decide_eq_true_1 (bytes_ok (zseq 16))).
  - by apply (bool_decide_eq_true_1 (bytes_ok (zseq 100))).
  - split; [by apply (bool_decide_eq_true_1 (bytes_ok (zseq 16)))|done].
Defined.
