(* ===== verification/Ghash.v ===== *)
(** * GHASH (fipsmodule/modes/gcm_nohw.c).

    The universal hash of GCM: SP 800-38D's definition, the constant-time code for
    machines with 128-bit integers ([BORINGSSL_HAS_UINT128]), and the proof that they
    are equal. *)

From S2P Require Import Prelude Blocks Mem Linear Clmul.

(** ** The code *)

Definition uint128 (x : Z) : Z := x mod 2 ^ 128.

(** [*out_lo] and [*out_hi]. *)
Definition gcm_mul64_nohw (a b : Z) : Z * Z :=
  let a0 := Z.land a 0x1111111111111110 in
  let a1 := Z.land a 0x2222222222222220 in
  let a2 := Z.land a 0x4444444444444440 in
  let a3 := Z.land a 0x8888888888888880 in
  let b0 := Z.land b 0x1111111111111111 in
  let b1 := Z.land b 0x2222222222222222 in
  let b2 := Z.land b 0x4444444444444444 in
  let b3 := Z.land b 0x8888888888888888 in
  let c0 := Z.lxor (Z.lxor (Z.lxor (uint128 (a0 * b0)) (uint128 (a1 * b3))) (uint128 (a2 * b2))) (uint128 (a3 * b1)) in
  let c1 := Z.lxor (Z.lxor (Z.lxor (uint128 (a0 * b1)) (uint128 (a1 * b0))) (uint128 (a2 * b3))) (uint128 (a3 * b2)) in
  let c2 := Z.lxor (Z.lxor (Z.lxor (uint128 (a0 * b2)) (uint128 (a1 * b1))) (uint128 (a2 * b0))) (uint128 (a3 * b3)) in
  let c3 := Z.lxor (Z.lxor (Z.lxor (uint128 (a0 * b3)) (uint128 (a1 * b2))) (uint128 (a2 * b1))) (uint128 (a3 * b0)) in
  let a0_mask := u64 (0 - Z.land a 1) in
  let a1_mask := u64 (0 - Z.land (Z.shiftr a 1) 1) in
  let a2_mask := u64 (0 - Z.land (Z.shiftr a 2) 1) in
  let a3_mask := u64 (0 - Z.land (Z.shiftr a 3) 1) in
  let extra := Z.lxor (Z.lxor (Z.lxor (Z.land a0_mask b) (uint128 (Z.shiftl (Z.land a1_mask b) 1)))
    (uint128 (Z.shiftl (Z.land a2_mask b) 2))) (uint128 (Z.shiftl (Z.land a3_mask b) 3)) in
  let part (half : Z -> Z) := Z.lxor (Z.lxor (Z.lxor (Z.lxor
    (Z.land (half c0) 0x1111111111111111) (Z.land (half c1) 0x2222222222222222))
    (Z.land (half c2) 0x4444444444444444)) (Z.land (half c3) 0x8888888888888888)) (half extra) in
  (part u64, part (fun c => u64 (Z.shiftr c 64))).

Record u128 := U128 { hi : Z; lo : Z }.
Definition Htable_at (Htable : list u128) (i : Z) : u128 := nth (Z.to_nat i) Htable (U128 0 0).

Definition gcm_init_nohw (Htable : list u128) (Xi : list Z) : list u128 :=
  let lo0 := znth Xi 1 in
  let hi0 := znth Xi 0 in
  let carry := Z.shiftr hi0 63 in
  let carry := u64 (0 - carry) in
  let hi0 := u64 (Z.shiftl hi0 1) in
  let hi0 := Z.lor hi0 (Z.shiftr lo0 63) in
  let lo0 := u64 (Z.shiftl lo0 1) in
  let lo0 := Z.lxor lo0 (Z.land carry 1) in
  let hi0 := Z.lxor hi0 (Z.land carry 0xc200000000000000) in
  <[0%nat := U128 hi0 lo0]> Htable.

(** The reduction of the product [r0] ... [r3]: the new [Xi]. *)
Definition polyval_reduce (r0 r1 r2 r3 : Z) : list Z :=
  let r1 := Z.lxor r1 (Z.lxor (Z.lxor (u64 (Z.shiftl r0 63)) (u64 (Z.shiftl r0 62))) (u64 (Z.shiftl r0 57))) in
  let r2 := Z.lxor r2 r0 in
  let r3 := Z.lxor r3 r1 in
  let r2 := Z.lxor r2 (Z.shiftr r0 1) in
  let r2 := Z.lxor r2 (u64 (Z.shiftl r1 63)) in
  let r3 := Z.lxor r3 (Z.shiftr r1 1) in
  let r2 := Z.lxor r2 (Z.shiftr r0 2) in
  let r2 := Z.lxor r2 (u64 (Z.shiftl r1 62)) in
  let r3 := Z.lxor r3 (Z.shiftr r1 2) in
  let r2 := Z.lxor r2 (Z.shiftr r0 7) in
  let r2 := Z.lxor r2 (u64 (Z.shiftl r1 57)) in
  let r3 := Z.lxor r3 (Z.shiftr r1 7) in
  [r2; r3].
Definition gcm_polyval_nohw (Xi : list Z) (H : u128) : list Z :=
  let '(r0, r1) := gcm_mul64_nohw (znth Xi 0) (lo H) in
  let '(r2, r3) := gcm_mul64_nohw (znth Xi 1) (hi H) in
  let '(mid0, mid1) := gcm_mul64_nohw (Z.lxor (znth Xi 0) (znth Xi 1)) (Z.lxor (hi H) (lo H)) in
  let mid0 := Z.lxor mid0 (Z.lxor r0 r2) in
  let mid1 := Z.lxor mid1 (Z.lxor r1 r3) in
  let r2 := Z.lxor r2 mid1 in
  let r1 := Z.lxor r1 mid0 in
  polyval_reduce r0 r1 r2 r3.

Definition gcm_gmult_nohw (Xi : list Z) (Htable : list u128) : list Z :=
  let swapped := [CRYPTO_bswap8 (znth Xi 1); CRYPTO_bswap8 (znth Xi 0)] in
  let swapped := gcm_polyval_nohw swapped (Htable_at Htable 0) in
  [CRYPTO_bswap8 (znth swapped 1); CRYPTO_bswap8 (znth swapped 0)].

(** [while (len >= 16)]: [inp] is what is left of the input. *)
Fixpoint ghash_loop (fuel : nat) (swapped : list Z) (Htable : list u128) (inp : list Z) (len : Z) : list Z :=
  match fuel with
  | O => swapped
  | S fuel' =>
      if len >=? 16 then
        let block := [le_val (ztake 8 inp); le_val (ztake 8 (zdrop 8 inp))] in
        let swapped := [Z.lxor (znth swapped 0) (CRYPTO_bswap8 (znth block 1)); Z.lxor (znth swapped 1) (CRYPTO_bswap8 (znth block 0))] in
        let swapped := gcm_polyval_nohw swapped (Htable_at Htable 0) in
        ghash_loop fuel' swapped Htable (zdrop 16 inp) (len - 16)
      else swapped
  end.
Definition gcm_ghash_nohw (Xi : list Z) (Htable : list u128) (inp : list Z) (len : Z) : list Z :=
  let swapped := [CRYPTO_bswap8 (znth Xi 1); CRYPTO_bswap8 (znth Xi 0)] in
  let swapped := ghash_loop (Z.to_nat len) swapped Htable inp len in
  [CRYPTO_bswap8 (znth swapped 1); CRYPTO_bswap8 (znth swapped 0)].

(** ** SP 800-38D *)

Module Sp38d.
(** A block is a string of 128 bits, the first of which is the highest of the number. *)
Definition R : Z := 0xe1 * 2 ^ 120.
Definition halve (V : Z) : Z := if Z.odd V then Z.lxor (V / 2) R else V / 2.
(** X times Y: for every bit of X, from the first one, what Y has become is added. *)
Fixpoint mul_bits (n : nat) (X V : Z) : Z :=
  match n with
  | O => 0
  | S n' => Z.lxor (if Z.testbit X (Z.of_nat n') then V else 0) (mul_bits n' X (halve V))
  end.
Definition mul (X Y : Z) : Z := mul_bits 128 X Y.
Definition ghash_step (H : Z) (Y : Z) (X : list Z) : Z := mul (Z.lxor Y (be_val X)) H.
(** The hash of a sequence of blocks. *)
Definition GHASH (H : Z) (blocks : list (list Z)) : Z := fold_left (ghash_step H) blocks 0.
End Sp38d.
Import Sp38d.

(** ** The product of two words *)

(** The parts of a factor: [class_mask r] has the bits that are [r] modulo 4. *)
Definition class_mask (r : Z) : Z := Z.shiftl 0x1111111111111111 r.
Definition class_part (r x : Z) : Z := Z.land x (class_mask r).
(** Without the four lowest bits. *)
Definition high_part (r x : Z) : Z := Z.land x (class_mask r - 2 ^ r).

Lemma class_mask_bit r i : 0 <= r < 4 -> 0 <= i < 64 ->
  Z.testbit (class_mask r) i = (i mod 4 =? r) /\ Z.testbit (class_mask r - 2 ^ r) i = (i mod 4 =? r) && (4 <=? i).
Proof.
  intros Hr Hi. assert (H : forallb (fun r => forallb (fun i => Bool.eqb (Z.testbit (class_mask r) i) (i mod 4 =? r) &&
    Bool.eqb (Z.testbit (class_mask r - 2 ^ r) i) ((i mod 4 =? r) && (4 <=? i))) (zseq 64)) (zseq 4) = true) by (vm_compute; reflexivity).
  apply (forallb_zseq _ _ H) in Hr. cbv beta in Hr. apply (forallb_zseq _ _ Hr) in Hi. cbv beta in Hi. apply andb_prop in Hi as [H1 H2].
  split; by apply Bool.eqb_prop.
Qed.
Lemma class_part_in r x : 0 <= r < 4 -> word64 x -> in_class r (class_part r x) /\ in_class r (high_part r x).
Proof.
  intros Hr Hx. unfold class_part, high_part. split; (split; [apply Z.land_nonneg; left; apply Hx|]; intros i Hi Hm; rewrite Z.land_spec;
    destruct (Z.lt_ge_cases i 64); [|by rewrite (word64_high x) by done]; destruct (class_mask_bit r i) as [E1 E2]; [done..|];
    rewrite ?E1, ?E2, (proj2 (Z.eqb_neq _ _) Hm); apply andb_false_r).
Qed.
Lemma high_part_bounds r x : 0 <= r < 4 -> word64 x -> high_part r x < 16 ^ Z.of_nat 16 /\ ones 16 (Z.shiftr (high_part r x) r) <= 15.
Proof.
  intros Hr Hx. assert (Hw : word64 (high_part r x)) by (by apply word64_land). split; [apply Hw|].
  pose proof (ones_range 15 (Z.shiftr (high_part r x) r / 16)) as Ho.
  change (ones 16 ?y) with (Z.b2z (Z.odd y) + ones 15 (y / 16)).
  replace (Z.odd (Z.shiftr (high_part r x) r)) with false; [cbn [Z.b2z]; lia|].
  rewrite <- Z.bit0_odd, Z.shiftr_spec by lia. unfold high_part. rewrite Z.land_spec.
  destruct (class_mask_bit r (0 + r)) as [_ ->]; [done|lia|]. by rewrite (proj2 (Z.leb_gt 4 (0 + r))), !andb_false_r by lia.
Qed.
Lemma parts_product r s a b i : 0 <= r < 4 -> 0 <= s < 4 -> word64 a -> word64 b -> 0 <= i ->
  Z.testbit (clmul 64 (high_part r a) (class_part s b)) i =
  if (i - r - s) mod 4 =? 0 then Z.testbit (high_part r a * class_part s b) i else false.
Proof.
  intros Hr Hs Ha Hb Hi. destruct (high_part_bounds r a Hr Ha). apply (class_product 16); try done; by apply class_part_in.
Qed.

(** A factor is the sum of its parts. *)
Lemma parts_sum x : word64 x ->
  x = Z.lxor (Z.lxor (Z.lxor (class_part 0 x) (class_part 1 x)) (class_part 2 x)) (class_part 3 x) /\
  x = Z.lxor (Z.lxor (Z.lxor (Z.lxor (high_part 0 x) (high_part 1 x)) (high_part 2 x)) (high_part 3 x)) (Z.land x 15).
Proof.
  intros Hx. unfold class_part, high_part. assert (Hl : forall m, word64 (Z.land x m)) by (intros m; by apply word64_land).
  split; (apply word64_eq; [done|by repeat apply word64_lxor|]); intros i Hi; rewrite !Z.lxor_spec, !Z.land_spec;
    pose proof (class_mask_bit 0 i ltac:(lia) Hi) as [E0 F0]; pose proof (class_mask_bit 1 i ltac:(lia) Hi) as [E1 F1];
    pose proof (class_mask_bit 2 i ltac:(lia) Hi) as [E2 F2]; pose proof (class_mask_bit 3 i ltac:(lia) Hi) as [E3 F3].
  - rewrite E0, E1, E2, E3. assert (H : i mod 4 = 0 \/ i mod 4 = 1 \/ i mod 4 = 2 \/ i mod 4 = 3) by zarith.
    destruct H as [->|[->|[->| ->]]]; cbn [Z.eqb Pos.eqb]; destruct (Z.testbit x i); done.
  - rewrite F0, F1, F2, F3. assert (E : Z.testbit 15 i = negb (4 <=? i)).
    { change 15 with (Z.ones 4). destruct (Z.leb_spec 4 i); [by rewrite Z.ones_spec_high by lia|by rewrite Z.ones_spec_low by lia]. }
    rewrite E. assert (H : i mod 4 = 0 \/ i mod 4 = 1 \/ i mod 4 = 2 \/ i mod 4 = 3) by zarith.
    destruct H as [->|[->|[->| ->]]]; cbn [Z.eqb Pos.eqb andb]; destruct (Z.testbit x i), (4 <=? i); done.
Qed.

(** The product with the four lowest bits of [a]. *)
Lemma mask_if (c : bool) b : word64 b -> Z.land (u64 (0 - Z.b2z c)) b = if c then b else 0.
Proof.
  intros Hb. destruct c; [|done]. change (u64 (0 - Z.b2z true)) with (Z.ones 64). rewrite Z.land_comm, Z.land_ones by lia. apply Z.mod_small, Hb.
Qed.
Lemma low_bit a k : 0 <= k -> Z.land (Z.shiftr a k) 1 = Z.b2z (Z.testbit a k).
Proof.
  intros Hk. change 1 with (Z.ones 1). rewrite Z.land_ones by lia. change (2 ^ 1) with 2. rewrite Zmod_odd, <- Z.bit0_odd, Z.shiftr_spec by lia.
  by rewrite Z.add_0_l.
Qed.
Lemma low_product a b : word64 a -> word64 b ->
  clmul 64 (Z.land a 15) b = Z.lxor (Z.lxor (Z.lxor (Z.land (u64 (0 - Z.land a 1)) b) (uint128 (Z.shiftl (Z.land (u64 (0 - Z.land (Z.shiftr a 1) 1)) b) 1)))
    (uint128 (Z.shiftl (Z.land (u64 (0 - Z.land (Z.shiftr a 2) 1)) b) 2))) (uint128 (Z.shiftl (Z.land (u64 (0 - Z.land (Z.shiftr a 3) 1)) b) 3)).
Proof.
  intros Ha Hb. rewrite !low_bit by lia. replace (Z.land a 1) with (Z.b2z (Z.testbit a 0)) by (rewrite <- low_bit, Z.shiftr_0_r by lia; done).
  rewrite !mask_if by done. rewrite (clmul_enough 64 4).
  2: lia. 2: { change 15 with (Z.ones 4). rewrite Z.land_ones by lia. change (Z.of_nat 4) with 4. apply Z.mod_pos_bound. lia. }
  assert (Hs : forall (c : bool) k, 0 <= k <= 3 -> uint128 (Z.shiftl (if c then b else 0) k) = if c then Z.shiftl b k else 0).
  { intros c k Hk. destruct c; [|by rewrite Z.shiftl_0_l]. apply Z.mod_small. rewrite Z.shiftl_mul_pow2 by lia. destruct Hb as [Hb0 Hb1].
    assert (0 < 2 ^ k <= 2 ^ 3) by (split; [apply Z.pow_pos_nonneg; lia|apply Z.pow_le_mono_r; lia]). nia. }
  rewrite !Hs by lia. cbn [clmul].
  assert (Ho : forall x k, 0 <= k -> Z.odd (x / 2 ^ k) = Z.testbit x k) by (intros x k Hk; rewrite <- Z.bit0_odd, Z.div_pow2_bits by lia; done).
  assert (H15 : forall k, 0 <= k < 4 -> Z.testbit (Z.land a 15) k = Z.testbit a k).
  { intros k Hk. rewrite Z.land_spec. change 15 with (Z.ones 4). by rewrite Z.ones_spec_low, andb_true_r by lia. }
  assert (E1 : Z.odd (Z.land a 15) = Z.testbit a 0) by (rewrite <- Z.bit0_odd; by apply H15).
  assert (E2 : Z.odd (Z.land a 15 / 2) = Z.testbit a 1) by (rewrite <- (H15 1) by lia; apply (Ho _ 1); lia).
  rewrite !Z.div_div by lia. change (2 * 2) with (2 ^ 2). change (2 ^ 2 * 2) with (2 ^ 3).
  assert (E3 : Z.odd (Z.land a 15 / 2 ^ 2) = Z.testbit a 2) by (rewrite <- (H15 2) by lia; apply Ho; lia).
  assert (E4 : Z.odd (Z.land a 15 / 2 ^ 3) = Z.testbit a 3) by (rewrite <- (H15 3) by lia; apply Ho; lia).
  rewrite E1, E2, E3, E4, Z.lxor_0_r, !Z.shiftl_mul_pow2 by lia.
  replace (b * 2 ^ 1) with (2 * b) by lia. replace (b * 2 ^ 2) with (2 * (2 * b)) by lia. replace (b * 2 ^ 3) with (2 * (2 * (2 * b))) by lia.
  by rewrite !Z.lxor_assoc.
Qed.

Lemma product_small r s a b : 0 <= r < 4 -> 0 <= s < 4 -> word64 a -> word64 b -> uint128 (high_part r a * class_part s b) = high_part r a * class_part s b.
Proof.
  intros Hr Hs Ha Hb. apply Z.mod_small. pose proof (word64_land a (class_mask r - 2 ^ r) Ha) as [H1 H2]. pose proof (word64_land b (class_mask s) Hb) as [H3 H4].
  unfold high_part, class_part. nia.
Qed.

(** The sums of the products whose bits are [t] modulo 4. *)
Definition class_products (t a b : Z) : Z :=
  Z.lxor (Z.lxor (Z.lxor (uint128 (high_part 0 a * class_part t b)) (uint128 (high_part 1 a * class_part ((t - 1) mod 4) b)))
    (uint128 (high_part 2 a * class_part ((t - 2) mod 4) b))) (uint128 (high_part 3 a * class_part ((t - 3) mod 4) b)).
Lemma clmul_bit a b i : word64 a -> word64 b -> 0 <= i ->
  Z.testbit (clmul 64 a b) i = xorb (Z.testbit (class_products (i mod 4) a b) i) (Z.testbit (clmul 64 (Z.land a 15) b) i).
Proof.
  intros Ha Hb Hi. rewrite (proj2 (parts_sum a Ha)) at 1. rewrite !clmul_lxor_l, Z.lxor_spec. f_equal.
  rewrite (proj1 (parts_sum b Hb)) at 1 2 3 4. rewrite !clmul_lxor_r, !Z.lxor_spec.
  rewrite !parts_product by (done || lia). unfold class_products. rewrite !product_small by (done || zarith). rewrite !Z.lxor_spec.
  assert (H : i mod 4 = 0 \/ i mod 4 = 1 \/ i mod 4 = 2 \/ i mod 4 = 3) by zarith.
  repeat match goal with |- context [(i - ?r - ?s) mod 4] => replace ((i - r - s) mod 4) with ((i mod 4 - r - s) mod 4) by zarith end.
  destruct H as [->|[->|[->| ->]]];
    repeat match goal with |- context [?x mod 4] => let v := eval vm_compute in (x mod 4) in change (x mod 4) with v end;
    cbn [Z.eqb Pos.eqb]; rewrite ?xorb_false_r, ?xorb_false_l; destruct (Z.testbit _ i), (Z.testbit _ i), (Z.testbit _ i), (Z.testbit _ i); done.
Qed.

(** The code's selection from the four sums: [half c] is the lower or the upper half of [c]. *)
Definition select_classes (half : Z -> Z) (c : Z -> Z) (extra : Z) : Z :=
  Z.lxor (Z.lxor (Z.lxor (Z.lxor (class_part 0 (half (c 0))) (class_part 1 (half (c 1))))
    (class_part 2 (half (c 2)))) (class_part 3 (half (c 3)))) (half extra).
Lemma select_classes_bit half c extra off : (forall x, word64 (half x)) ->
  (forall x i, 0 <= i < 64 -> Z.testbit (half x) i = Z.testbit x (i + off)) -> off mod 4 = 0 ->
  word64 (select_classes half c extra) /\
  forall i, 0 <= i < 64 -> Z.testbit (select_classes half c extra) i = xorb (Z.testbit (c ((i + off) mod 4)) (i + off)) (Z.testbit extra (i + off)).
Proof.
  intros Hw Hh Hoff. split; [unfold select_classes, class_part; auto 10 with word64|]. intros i Hi. replace ((i + off) mod 4) with (i mod 4) by zarith.
  unfold select_classes, class_part. rewrite !Z.lxor_spec, !Z.land_spec, !Hh by done.
  rewrite (proj1 (class_mask_bit 0 i ltac:(lia) Hi)), (proj1 (class_mask_bit 1 i ltac:(lia) Hi)), (proj1 (class_mask_bit 2 i ltac:(lia) Hi)), (proj1 (class_mask_bit 3 i ltac:(lia) Hi)).
  assert (H : i mod 4 = 0 \/ i mod 4 = 1 \/ i mod 4 = 2 \/ i mod 4 = 3) by zarith.
  destruct H as [->|[->|[->| ->]]]; cbn [Z.eqb Pos.eqb]; rewrite ?andb_false_r, ?andb_true_r, ?xorb_false_l, ?xorb_false_r; done.
Qed.

Lemma gcm_mul64_select a b : word64 a -> word64 b ->
  gcm_mul64_nohw a b = (select_classes u64 (fun t => class_products t a b) (clmul 64 (Z.land a 15) b),
                        select_classes (fun c => u64 (Z.shiftr c 64)) (fun t => class_products t a b) (clmul 64 (Z.land a 15) b)).
Proof.
  intros Ha Hb. rewrite (low_product a b) by done. unfold select_classes, class_products, class_part, high_part.
  repeat match goal with |- context [?x mod 4] => let v := eval vm_compute in (x mod 4) in change (x mod 4) with v end.
  repeat match goal with |- context [class_mask ?r - ?y] => let v := eval vm_compute in (class_mask r - y) in change (class_mask r - y) with v end.
  repeat match goal with |- context [class_mask ?r] => let v := eval vm_compute in (class_mask r) in change (class_mask r) with v end.
  reflexivity.
Qed.
Lemma gcm_mul64_spec a b : word64 a -> word64 b ->
  gcm_mul64_nohw a b = (u64 (clmul 64 a b), Z.shiftr (clmul 64 a b) 64).
Proof.
  intros Ha Hb. assert (Hp : 0 <= clmul 64 a b < 2 ^ 128) by (apply (clmul_range 64 64), Hb). rewrite gcm_mul64_select by done.
  destruct (select_classes_bit u64 (fun t => class_products t a b) (clmul 64 (Z.land a 15) b) 0) as [Hw1 H1]; [apply word64_u64| |done|].
  { intros x i Hi. rewrite testbit_u64 by done. f_equal. lia. }
  destruct (select_classes_bit (fun c => u64 (Z.shiftr c 64)) (fun t => class_products t a b) (clmul 64 (Z.land a 15) b) 64) as [Hw2 H2]; [intros x; apply word64_u64| |done|].
  { intros x i Hi. rewrite testbit_u64, Z.shiftr_spec by lia. done. }
  assert (Hhi : word64 (Z.shiftr (clmul 64 a b) 64)) by (rewrite Z.shiftr_div_pow2 by lia; split; [zarith|apply Z.div_lt_upper_bound; lia]).
  f_equal; apply word64_eq; try done; try apply word64_u64; intros i Hi.
  - rewrite H1 by done. rewrite Z.add_0_r, testbit_u64 by done. symmetry. apply clmul_bit; [done..|lia].
  - rewrite H2 by done. rewrite Z.shiftr_spec by lia. symmetry. apply clmul_bit; [done..|lia].
Qed.

(** ** Additive functions *)

(** Words of xors and shifts only. *)
Fixpoint additive_wexp (e : wexp) : bool :=
  match e with
  | WVar _ => true
  | WXor a b => additive_wexp a && additive_wexp b
  | WOr _ _ => false
  | WAnd a _ | WShl a _ | WShr a _ => additive_wexp a
  end.
Lemma u64_lxor a b : u64 (Z.lxor a b) = Z.lxor (u64 a) (u64 b).
Proof.
  apply Z.bits_inj'. intros i Hi. unfold u64. rewrite Z.lxor_spec. destruct (Z.lt_ge_cases i 64).
  - by rewrite !Z.mod_pow2_bits_low, Z.lxor_spec by lia.
  - by rewrite !Z.mod_pow2_bits_high by lia.
Qed.
Definition lxor_all (env env' : list Z) : list Z := zip_with Z.lxor env env'.
Lemma lxor_all_at env env' n : length env = length env' -> znth (lxor_all env env') n = Z.lxor (znth env n) (znth env' n).
Proof.
  intros Hl. unfold lxor_all, znth. generalize (Z.to_nat n). revert env' Hl. induction env as [|x env IH]; intros [|y env'] Hl m; try done; [by destruct m|].
  destruct m as [|m]; [done|]. cbn. apply IH. cbn in Hl. lia.
Qed.
Lemma weval_lxor env env' e : length env = length env' -> additive_wexp e = true ->
  weval (lxor_all env env') e = Z.lxor (weval env e) (weval env' e).
Proof.
  intros Hl. induction e; cbn [additive_wexp weval]; intros He; bool_hyps; try done.
  - by apply lxor_all_at.
  - rewrite IHe1, IHe2 by done. apply Z.bits_inj'. intros i _. rewrite !Z.lxor_spec. ring.
  - rewrite IHe by done. apply Z.bits_inj'. intros i _. rewrite !Z.land_spec, !Z.lxor_spec, !Z.land_spec. ring.
  - rewrite IHe, Z.shiftl_lxor by done. apply u64_lxor.
  - rewrite IHe by done. apply Z.shiftr_lxor.
Qed.

(** Additive functions of [n] bits are equal when they are equal on the powers of 2. *)
Definition additive (n : Z) (f : Z -> Z) : Prop := forall x y, 0 <= x < 2 ^ n -> 0 <= y < 2 ^ n -> f (Z.lxor x y) = Z.lxor (f x) (f y).
Lemma additive_0 n f : 0 <= n -> additive n f -> f 0 = 0.
Proof. intros Hn H. specialize (H 0 0). rewrite !Z.lxor_nilpotent in H. apply H; (split; [lia|apply Z.pow_pos_nonneg; lia]). Qed.
Lemma additive_eq n f g : additive (Z.of_nat n) f -> additive (Z.of_nat n) g -> (forall p, 0 <= p < Z.of_nat n -> f (2 ^ p) = g (2 ^ p)) ->
  forall x, 0 <= x < 2 ^ Z.of_nat n -> f x = g x.
Proof.
  intros Hf Hg Hp. assert (H : forall m, (m <= n)%nat -> forall x, 0 <= x < 2 ^ Z.of_nat m -> f x = g x).
  { induction m as [|m IH]; intros Hm x Hx.
    - assert (x = 0) as -> by (change (2 ^ Z.of_nat 0) with 1 in Hx; lia). by rewrite (additive_0 (Z.of_nat n) f), (additive_0 (Z.of_nat n) g) by (lia || done).
    - rewrite Nat2Z.inj_succ, Z.pow_succ_r in Hx by lia. destruct (Z.lt_ge_cases x (2 ^ Z.of_nat m)); [apply IH; lia|].
      assert (Hlt : 2 ^ Z.of_nat (S m) <= 2 ^ Z.of_nat n) by (apply Z.pow_le_mono_r; lia). rewrite Nat2Z.inj_succ, Z.pow_succ_r in Hlt by lia.
      assert (E : x = Z.lxor (2 ^ Z.of_nat m) (x - 2 ^ Z.of_nat m)).
      { rewrite <- Z.add_nocarry_lxor; [lia|]. apply Z.bits_inj'. intros i Hi. rewrite Z.land_spec, Z.bits_0, Z.pow2_bits_eqb by lia.
        destruct (Z.eqb_spec (Z.of_nat m) i) as [<-|]; [|done]. rewrite <- (Z.mod_small (x - 2 ^ Z.of_nat m) (2 ^ Z.of_nat m)) by lia. by rewrite Z.mod_pow2_bits_high by lia. }
      rewrite E, Hf, Hg by lia. f_equal; [apply Hp; lia|apply IH; lia]. }
  by apply H.
Qed.

(** ** The multiplication of the code *)

Definition words128 (v : Z) : list Z := [u64 v; Z.shiftr v 64].
Definition val128 (l : list Z) : Z := Z.lxor (znth l 0) (Z.shiftl (znth l 1) 64).
Definition is_128 (v : Z) : Prop := 0 <= v < 2 ^ 128.

Lemma lxor_128 x y : is_128 x -> is_128 y -> is_128 (Z.lxor x y).
Proof. intros Hx Hy. apply (lxor_range 128); done. Qed.
Lemma words128_ok v : is_128 v -> Forall word64 (words128 v).
Proof.
  intros [H0 H1]. repeat (apply Forall_cons; split); [apply word64_u64| |by apply Forall_nil].
  rewrite Z.shiftr_div_pow2 by lia. split; [zarith|apply Z.div_lt_upper_bound; lia].
Qed.
Lemma val_words128 v : 0 <= v -> val128 (words128 v) = v.
Proof.
  intros Hv. apply Z.bits_inj'. intros i Hi. unfold val128, words128. change (znth [?x; ?y] 0) with x. change (znth [?x; ?y] 1) with y.
  rewrite Z.lxor_spec, Z.shiftl_spec by done. destruct (Z.lt_ge_cases i 64).
  - rewrite testbit_u64, (Z.testbit_neg_r _ (i - 64)) by lia. apply xorb_false_r.
  - unfold u64. rewrite Z.mod_pow2_bits_high, Z.shiftr_spec by lia. cbn. f_equal. lia.
Qed.
Lemma words_val128 l : length l = 2%nat -> Forall word64 l -> words128 (val128 l) = l /\ is_128 (val128 l).
Proof.
  intros Hl Hw. destruct l as [|x [|y []]]; try done. apply Forall_cons in Hw as [Hx Hw]. apply Forall_cons in Hw as [Hy _].
  unfold val128. change (znth [?x; ?y] 0) with x. change (znth [?x; ?y] 1) with y.
  assert (E : Z.lxor x (Z.shiftl y 64) = x + y * 2 ^ 64).
  { rewrite Z.shiftl_mul_pow2 by lia. symmetry. apply Z.add_nocarry_lxor. apply Z.bits_inj'. intros i Hi. rewrite Z.land_spec, Z.bits_0.
    destruct (Z.lt_ge_cases i 64); [by rewrite Z.mul_pow2_bits_low, andb_false_r by lia|by rewrite (word64_high x) by done]. }
  rewrite E. unfold words128, u64, is_128, word64 in *. rewrite Z.shiftr_div_pow2 by lia. split; [|zarith].
  rewrite Z.mod_add, Z.mod_small, Z.div_add, Z.div_small by lia. done.
Qed.
Lemma words128_lxor x y : words128 (Z.lxor x y) = lxor_all (words128 x) (words128 y).
Proof. unfold words128. by rewrite u64_lxor, Z.shiftr_lxor. Qed.
Lemma val128_lxor l l' : length l = length l' -> val128 (lxor_all l l') = Z.lxor (val128 l) (val128 l').
Proof.
  intros Hl. unfold val128. rewrite !lxor_all_at, Z.shiftl_lxor by done. apply Z.bits_inj'. intros i _. rewrite !Z.lxor_spec. ring.
Qed.

(** The reduction of a product of 256 bits. *)
Definition reduce (P : Z) : list Z := polyval_reduce (u64 P) (u64 (Z.shiftr P 64)) (u64 (Z.shiftr P 128)) (u64 (Z.shiftr P 192)).

Section words.
Context (env : list Z).
Definition reduce_words : wexp * wexp := ltac:(
  let t := eval cbv beta zeta delta [polyval_reduce] in (polyval_reduce (znth env 0) (znth env 1) (znth env 2) (znth env 3)) in
  lazymatch t with [?a; ?b] => let a := reify env a in let b := reify env b in exact (a, b) end).
Lemma reduce_weval : polyval_reduce (znth env 0) (znth env 1) (znth env 2) (znth env 3) = [weval env (fst reduce_words); weval env (snd reduce_words)].
Proof using. reflexivity. Qed.
End words.

Definition words256 (P : Z) : list Z := [u64 P; u64 (Z.shiftr P 64); u64 (Z.shiftr P 128); u64 (Z.shiftr P 192)].
Lemma reduce_eval P : reduce P = [weval (words256 P) (fst reduce_words); weval (words256 P) (snd reduce_words)].
Proof. apply (reduce_weval (words256 P)). Qed.
Lemma reduce_ok P : length (reduce P) = 2%nat /\ Forall word64 (reduce P).
Proof.
  rewrite reduce_eval. split; [done|]. assert (Forall word64 (words256 P)) by (unfold words256; repeat (apply Forall_cons; split; [apply word64_u64|]); by apply Forall_nil).
  repeat (apply Forall_cons; split); try (by apply weval_word64). by apply Forall_nil.
Qed.
Lemma reduce_lxor P Q : reduce (Z.lxor P Q) = lxor_all (reduce P) (reduce Q).
Proof.
  rewrite !reduce_eval. assert (E : words256 (Z.lxor P Q) = lxor_all (words256 P) (words256 Q)) by (unfold words256; by rewrite !Z.shiftr_lxor, !u64_lxor).
  by rewrite E, !weval_lxor.
Qed.

Lemma u64_shiftl x k : 64 <= k -> u64 (Z.shiftl x k) = 0.
Proof.
  intros Hk. apply word64_eq; [apply word64_u64|done|]. intros i Hi. by rewrite testbit_u64, Z.shiftl_spec, Z.bits_0, Z.testbit_neg_r by lia.
Qed.
Lemma shiftr_high x k j : 0 <= k -> 0 <= j -> 0 <= x < 2 ^ (k + j) -> 0 <= Z.shiftr x k < 2 ^ j.
Proof.
  intros Hk Hj Hx. rewrite Z.pow_add_r in Hx by lia. rewrite Z.shiftr_div_pow2 by lia. assert (0 < 2 ^ k) by (apply Z.pow_pos_nonneg; lia).
  split; [apply Z.div_pos; lia|apply Z.div_lt_upper_bound; lia].
Qed.
Lemma shiftr_shiftl x a b : 0 <= b <= a -> Z.shiftr (Z.shiftl x a) b = Z.shiftl x (a - b).
Proof. intros H. rewrite Z.shiftr_shiftl_l by lia. done. Qed.
Lemma shiftr_none x k : 0 <= x < 2 ^ k -> 0 <= k -> Z.shiftr x k = 0.
Proof. intros Hx Hk. rewrite Z.shiftr_div_pow2 by lia. by apply Z.div_small. Qed.

(** Karatsuba's three products make the product of the two 128-bit factors. *)
Lemma split_product x0 x1 k0 k1 : word64 x0 -> word64 x1 ->
  let p := clmul 64 x0 k0 in let q := clmul 64 x1 k1 in
  let mid := Z.lxor (clmul 64 (Z.lxor x0 x1) (Z.lxor k1 k0)) (Z.lxor p q) in
  clmul 128 (Z.lxor x0 (Z.shiftl x1 64)) (Z.lxor k0 (Z.shiftl k1 64)) = Z.lxor (Z.lxor p (Z.shiftl mid 64)) (Z.shiftl q 128).
Proof.
  intros H0 H1. cbv zeta. rewrite !clmul_lxor_l, !clmul_lxor_r, !clmul_shiftl_r by lia.
  change 128%nat with (Z.to_nat 64 + 64)%nat. rewrite !(clmul_shiftl_l 64) by lia. change (Z.to_nat 64 + 64)%nat with 128%nat.
  rewrite !(clmul_enough 128 64 x0) by (done || lia). rewrite !Z.shiftl_lxor, Z.shiftl_shiftl by lia. change (64 + 64) with 128.
  apply Z.bits_inj'; intros i _; rewrite !Z.lxor_spec; ring.
Qed.
Lemma polyval_product Xi H : length Xi = 2%nat -> Forall word64 Xi -> word64 (lo H) -> word64 (hi H) ->
  gcm_polyval_nohw Xi H = reduce (clmul 128 (val128 Xi) (val128 [lo H; hi H])).
Proof.
  intros Hl HX HL HH. destruct Xi as [|x0 [|x1 []]]; try done. apply Forall_cons in HX as [H0 HX]. apply Forall_cons in HX as [H1 _].
  unfold gcm_polyval_nohw, val128. change (znth [?x; ?y] 0) with x. change (znth [?x; ?y] 1) with y.
  rewrite !gcm_mul64_spec, split_product by (try apply word64_lxor; done). cbv zeta.
  pose proof (clmul_range 64 64 x0 (lo H) HL) as Hp. pose proof (clmul_range 64 64 x1 (hi H) HH) as Hq.
  pose proof (clmul_range 64 64 (Z.lxor x0 x1) (Z.lxor (hi H) (lo H)) (word64_lxor _ _ HH HL)) as Hm. change (Z.of_nat (64 + 64)) with 128 in *.
  set (p := clmul 64 x0 (lo H)) in *. set (q := clmul 64 x1 (hi H)) in *. set (m := clmul 64 (Z.lxor x0 x1) (Z.lxor (hi H) (lo H))) in *.
  assert (Hpw : word64 (Z.shiftr p 64)) by (by apply (shiftr_high p 64 64)). assert (Hqw : word64 (Z.shiftr q 64)) by (by apply (shiftr_high q 64 64)).
  assert (Hmw : word64 (Z.shiftr m 64)) by (by apply (shiftr_high m 64 64)).
  set (mid := Z.lxor m (Z.lxor p q)). unfold reduce. rewrite !Z.shiftr_lxor, !u64_lxor, !u64_shiftl by lia.
  rewrite !shiftr_shiftl by lia. rewrite !(Z.shiftr_shiftl_r mid), !(Z.shiftr_shiftl_r q) by lia.
  change (64 - 64) with 0. change (128 - 64) with 64. change (128 - 128) with 0. change (192 - 64) with 128. change (192 - 128) with 64.
  rewrite !Z.shiftl_0_r, !Z.shiftr_0_r, (shiftr_none p 128), (shiftr_none p 192), (u64_shiftl q 64) by lia.
  assert (Hmid : 0 <= mid < 2 ^ 128) by exact (lxor_128 _ _ Hm (lxor_128 _ _ Hp Hq)).
  rewrite (shiftr_none mid 128), (u64_small (Z.shiftr p 64)), (u64_small (Z.shiftr q 64)) by done. change (u64 0) with 0.
  unfold mid. rewrite !Z.shiftr_lxor, !u64_lxor, (u64_small (Z.shiftr m 64)), (u64_small (Z.shiftr p 64)), (u64_small (Z.shiftr q 64)) by done.
  f_equal; apply Z.bits_inj'; intros i _; rewrite ?Z.lxor_spec, ?Z.bits_0; ring.
Qed.

(** The key of the code for the hash key [h]: [h] times x. *)
Definition init_key (h : Z) : u128 :=
  let hi0 := Z.shiftr h 64 in
  let lo0 := u64 h in
  let carry := u64 (0 - Z.shiftr hi0 63) in
  U128 (Z.lxor (Z.lor (u64 (Z.shiftl hi0 1)) (Z.shiftr lo0 63)) (Z.land carry 0xc200000000000000)) (Z.lxor (u64 (Z.shiftl lo0 1)) (Z.land carry 1)).
Lemma gcm_init_key Htable h : gcm_init_nohw Htable [Z.shiftr h 64; u64 h] = <[0%nat := init_key h]> Htable.
Proof. reflexivity. Qed.

Lemma init_key_bits h : is_128 h ->
  word64 (lo (init_key h)) /\ word64 (hi (init_key h)) /\
  forall i, 0 <= i < 64 ->
    Z.testbit (lo (init_key h)) i = xorb (Z.testbit h (i - 1)) ((i =? 0) && Z.testbit h 127) /\
    Z.testbit (hi (init_key h)) i = xorb (Z.testbit h (63 + i)) (Z.testbit 0xc200000000000000 i && Z.testbit h 127).
Proof.
  intros Hh. pose proof (words128_ok h Hh) as Hw. apply Forall_cons in Hw as [Hlo Hw]. apply Forall_cons in Hw as [Hhi _].
  assert (Ec : Z.shiftr (Z.shiftr h 64) 63 = Z.b2z (Z.testbit h 127)).
  { rewrite Z.shiftr_shiftr, <- (Z.shiftr_0_r (Z.shiftr h _)), <- low_bit, Z.shiftr_0_r by lia. change 1 with (Z.ones 1). rewrite Z.land_ones by lia.
    change (64 + 63) with 127. symmetry. apply Z.mod_small. rewrite Z.shiftr_div_pow2 by lia. destruct Hh. split; [zarith|apply Z.div_lt_upper_bound; lia]. }
  unfold init_key. rewrite Ec. cbn [hi lo]. set (c := Z.testbit h 127).
  assert (Hm : forall k, word64 k -> Z.land (u64 (0 - Z.b2z c)) k = if c then k else 0) by (intros k Hk; by apply mask_if).
  rewrite !Hm by (unfold word64; lia). split; [apply word64_lxor; [apply word64_u64|destruct c; unfold word64; lia]|].
  split; [apply word64_lxor; [apply word64_lor; [apply word64_u64|by apply word64_shiftr]|destruct c; unfold word64; lia]|].
  intros i Hi. rewrite !Z.lxor_spec, Z.lor_spec, !testbit_u64, !(Z.shiftl_spec _ 1) by lia. split; f_equal.
  - destruct (Z.eq_dec i 0) as [->|]; [by rewrite !Z.testbit_neg_r by lia|]. by rewrite testbit_u64 by lia.
  - destruct c; [|by rewrite Z.bits_0, andb_false_r]. change 1 with (2 ^ 0). by rewrite andb_true_r, Z.pow2_bits_eqb, Z.eqb_sym by lia.
  - rewrite (Z.shiftr_spec (u64 h)) by lia. destruct (Z.eq_dec i 0) as [->|].
    + by rewrite Z.testbit_neg_r, testbit_u64 by lia.
    + rewrite (word64_high (u64 h)), orb_false_r, Z.shiftr_spec by (done || lia). f_equal. lia.
  - destruct c; [by rewrite andb_true_r|by rewrite Z.bits_0, andb_false_r].
Qed.
(** The key as a number. *)
Definition key_val (h : Z) : Z := val128 [lo (init_key h); hi (init_key h)].
Lemma key_lxor h h' : is_128 h -> is_128 h' -> key_val (Z.lxor h h') = Z.lxor (key_val h) (key_val h').
Proof.
  intros Hh Hh'. destruct (init_key_bits h Hh) as (L & H & B). destruct (init_key_bits h' Hh') as (L' & H' & B').
  destruct (init_key_bits (Z.lxor h h')) as (L2 & H2 & B2); [by apply lxor_128|].
  unfold key_val. rewrite <- val128_lxor by done. f_equal. unfold lxor_all. cbn [zip_with].
  f_equal; [|f_equal]; (apply word64_eq; [done|by apply word64_lxor|]); intros i Hi; destruct (B i Hi) as [B1 B3], (B' i Hi) as [B1' B3'], (B2 i Hi) as [B4 B5];
    rewrite ?B4, ?B5, !Z.lxor_spec, ?B1, ?B1', ?B3, ?B3'; ring.
Qed.

(** ** The code multiplies *)

Definition reduced (P : Z) : Z := val128 (reduce P).
Lemma reduced_lxor P Q : reduced (Z.lxor P Q) = Z.lxor (reduced P) (reduced Q).
Proof. unfold reduced. by rewrite reduce_lxor, val128_lxor. Qed.
Definition code_mul (X Y : Z) : Z := reduced (clmul 128 X (key_val Y)).

Lemma halve_lxor V W : halve (Z.lxor V W) = Z.lxor (halve V) (halve W).
Proof.
  unfold halve. rewrite odd_lxor, div2_lxor. destruct (Z.odd V), (Z.odd W); cbn [xorb]; apply Z.bits_inj'; intros i _; rewrite !Z.lxor_spec; ring.
Qed.
Lemma mul_bits_lxor_r n : forall X V W, mul_bits n X (Z.lxor V W) = Z.lxor (mul_bits n X V) (mul_bits n X W).
Proof.
  induction n as [|n IH]; intros X V W; [done|]. cbn [mul_bits]. rewrite halve_lxor, IH. destruct (Z.testbit X _);
    apply Z.bits_inj'; intros i _; rewrite ?Z.lxor_spec, ?Z.bits_0; ring.
Qed.
Lemma mul_bits_lxor_l n : forall X Y V, mul_bits n (Z.lxor X Y) V = Z.lxor (mul_bits n X V) (mul_bits n Y V).
Proof.
  induction n as [|n IH]; intros X Y V; [done|]. cbn [mul_bits]. rewrite IH, Z.lxor_spec. destruct (Z.testbit X _), (Z.testbit Y _); cbn [xorb];
    apply Z.bits_inj'; intros i _; rewrite ?Z.lxor_spec, ?Z.bits_0; ring.
Qed.
Lemma mul_bits_none n : forall X V, (forall i, 0 <= i < Z.of_nat n -> Z.testbit X i = false) -> mul_bits n X V = 0.
Proof.
  induction n as [|n IH]; intros X V HX; [done|]. cbn [mul_bits]. rewrite HX by lia. rewrite IH; [done|]. intros i Hi. apply HX. lia.
Qed.

(** Half a product is reduced to the half of what the product is reduced to. *)
Lemma reduced_double P : 0 <= P < 2 ^ 254 -> halve (reduced (2 * P)) = reduced P.
Proof.
  apply (additive_eq 254 (fun P => halve (reduced (2 * P))) reduced).
  - intros x y _ _. by rewrite double_lxor, reduced_lxor, halve_lxor.
  - intros x y _ _. apply reduced_lxor.
  - intros p Hp. assert (H : forallb (fun p => halve (reduced (2 * 2 ^ p)) =? reduced (2 ^ p)) (zseq 254) = true) by (vm_compute; reflexivity).
    apply Z.eqb_eq, (forallb_zseq _ _ H p Hp).
Qed.
(** The bit of [X] that is multiplied without a shift is the highest one. *)
Lemma reduced_key Y : is_128 Y -> reduced (Z.shiftl (key_val Y) 127) = Y.
Proof.
  apply (additive_eq 128 (fun Y => reduced (Z.shiftl (key_val Y) 127)) (fun Y => Y)).
  - intros x y Hx Hy. by rewrite key_lxor, Z.shiftl_lxor, reduced_lxor.
  - done.
  - intros p Hp. assert (H : forallb (fun p => reduced (Z.shiftl (key_val (2 ^ p)) 127) =? 2 ^ p) (zseq 128) = true) by (vm_compute; reflexivity).
    apply Z.eqb_eq, (forallb_zseq _ _ H p Hp).
Qed.
Lemma mul_bits_pow2 n K p : 0 <= K < 2 ^ 128 -> (n <= 127)%nat -> 0 <= p <= Z.of_nat n ->
  mul_bits (S n) (2 ^ p) (reduced (Z.shiftl K (Z.of_nat n))) = reduced (Z.shiftl K p).
Proof.
  intros HK. induction n as [|n IH]; intros Hn Hp; cbn [mul_bits]; rewrite Z.pow2_bits_eqb by lia.
  - replace p with 0 by lia. apply Z.lxor_0_r.
  - destruct (Z.eqb_spec p (Z.of_nat (S n))) as [->|Hne].
    + rewrite mul_bits_none; [|intros i Hi; rewrite Z.pow2_bits_eqb by lia; apply Z.eqb_neq; lia].
      replace (Z.testbit (2 ^ Z.of_nat (S n)) (Z.of_nat n)) with false by (rewrite Z.pow2_bits_eqb by lia; symmetry; apply Z.eqb_neq; lia). apply Z.lxor_0_r.
    + rewrite Z.lxor_0_l. replace (Z.shiftl K (Z.of_nat (S n))) with (2 * Z.shiftl K (Z.of_nat n))
        by (rewrite Nat2Z.inj_succ, !Z.shiftl_mul_pow2, Z.pow_succ_r by lia; ring).
      assert (Hs : 0 <= Z.shiftl K (Z.of_nat n) < 2 ^ 254).
      { rewrite Z.shiftl_mul_pow2 by lia. assert (0 < 2 ^ Z.of_nat n <= 2 ^ 126) by (split; [apply Z.pow_pos_nonneg; lia|apply Z.pow_le_mono_r; lia]). nia. }
      rewrite reduced_double by done. apply IH; lia.
Qed.

(** The multiplication of the code is the one of SP 800-38D. *)
Lemma code_mul_correct X Y : is_128 X -> is_128 Y -> code_mul X Y = mul X Y.
Proof.
  intros HX HY. assert (HK : 0 <= key_val Y < 2 ^ 128).
  { destruct (init_key_bits Y HY) as (L & H & _). apply words_val128; [done|]. repeat (apply Forall_cons; split; [done|]). by apply Forall_nil. }
  apply (additive_eq 128 (fun X => code_mul X Y) (fun X => mul X Y)); [| |intros p Hp|done].
  - intros a b _ _. unfold code_mul. by rewrite clmul_lxor_l, reduced_lxor.
  - intros a b _ _. apply mul_bits_lxor_l.
  - unfold code_mul, mul. rewrite clmul_pow2 by done. rewrite <- (reduced_key Y HY) at 2. symmetry.
    pose proof (mul_bits_pow2 127 (key_val Y) p HK ltac:(lia) ltac:(lia)) as E. change (S 127) with 128%nat in E. change (Z.of_nat 127) with 127 in E. exact E.
Qed.
Lemma init_key_words h : is_128 h -> word64 (lo (init_key h)) /\ word64 (hi (init_key h)).
Proof. intros Hh. destruct (init_key_bits h Hh) as (L & H & _). done. Qed.
Lemma polyval_correct Xi h : length Xi = 2%nat -> Forall word64 Xi -> is_128 h ->
  gcm_polyval_nohw Xi (init_key h) = words128 (mul (val128 Xi) h).
Proof.
  intros Hl HX Hh. destruct (init_key_words h Hh). rewrite polyval_product by done. rewrite <- code_mul_correct by (done || by apply words_val128).
  unfold code_mul, reduced. symmetry. by apply words_val128; apply reduce_ok.
Qed.

(** ** The 16 bytes of a block *)

(** The [u] member of the unions of the code, as it is read and written. *)
Definition get_u (c : list Z) : list Z := [le_val (ztake 8 c); le_val (zdrop 8 c)].
Definition set_u (u : list Z) : list Z := le_bytes 8 (znth u 0) ++ le_bytes 8 (znth u 1).

Lemma swap_get_u c : bytes_ok c -> zlen c = 16 ->
  [CRYPTO_bswap8 (znth (get_u c) 1); CRYPTO_bswap8 (znth (get_u c) 0)] = words128 (be_val c).
Proof.
  intros Hc Hl. change (znth (get_u c) 1) with (le_val (zdrop 8 c)). change (znth (get_u c) 0) with (le_val (ztake 8 c)).
  assert (L1 : zlen (ztake 8 c) = 8) by (rewrite zlen_ztake; lia). assert (L2 : zlen (zdrop 8 c) = 8) by (rewrite zlen_zdrop; lia).
  assert (B1 : bytes_ok (ztake 8 c)) by (by apply Forall_ztake). assert (B2 : bytes_ok (zdrop 8 c)) by (by apply Forall_zdrop).
  assert (E : forall l, bytes_ok l -> zlen l = 8 -> CRYPTO_bswap8 (le_val l) = be_val l).
  { intros l Hb H8. pose proof (load_u64_be_val l Hb ltac:(lia)) as E. unfold CRYPTO_load_u64_be in E. rewrite take_ge in E by (unfold zlen in H8; lia). exact E. }
  rewrite !E by done. rewrite <- (ztake_zdrop 8 c) at 3. unfold words128, u64. rewrite be_val_app, L2, Z.shiftr_div_pow2 by lia. change (256 ^ 8) with (2 ^ 64).
  pose proof (be_val_range _ B2) as R2. rewrite L2 in R2. change (256 ^ 8) with (2 ^ 64) in R2.
  by rewrite Z.add_comm, Z.mod_add, Z.mod_small, Z.add_comm, Z.div_add_l, Z.div_small, Z.add_0_r by lia.
Qed.
Lemma set_u_swap v : is_128 v -> set_u [CRYPTO_bswap8 (znth (words128 v) 1); CRYPTO_bswap8 (znth (words128 v) 0)] = be_bytes 16 v.
Proof.
  intros Hv. pose proof (words128_ok v Hv) as Hw. apply Forall_cons in Hw as [Hlo Hw]. apply Forall_cons in Hw as [Hhi _].
  change (znth (words128 v) 1) with (Z.shiftr v 64). change (znth (words128 v) 0) with (u64 v). unfold set_u. change (znth [?x; ?y] 0) with x. change (znth [?x; ?y] 1) with y.
  pose proof (store_u64_be_bytes _ Hhi) as E1. pose proof (store_u64_be_bytes _ Hlo) as E2. unfold CRYPTO_store_u64_be in E1, E2. rewrite E1, E2.
  rewrite (be_bytes_add 8 8), Z.shiftr_div_pow2 by lia. f_equal. apply (be_bytes_mod 8).
Qed.

Lemma mul_128 X Y : is_128 X -> is_128 Y -> is_128 (mul X Y).
Proof. intros HX HY. rewrite <- code_mul_correct by done. apply words_val128; apply reduce_ok. Qed.
Lemma be_val_128 c : bytes_ok c -> zlen c = 16 -> is_128 (be_val c).
Proof. intros Hc Hl. pose proof (be_val_range c Hc) as Hr. by rewrite Hl in Hr. Qed.
Lemma step_128 h Y c : is_128 h -> is_128 Y -> bytes_ok c -> zlen c = 16 -> is_128 (ghash_step h Y c).
Proof. intros Hh HY Hc Hl. apply mul_128; [|done]. apply lxor_128; [done|]. by apply be_val_128. Qed.

Lemma zdrop_ztake n k (l : list Z) : 0 <= k <= n -> zdrop k (ztake n l) = ztake (n - k) (zdrop k l).
Proof. intros H. unfold ztake, zdrop. rewrite skipn_firstn_comm. f_equal. lia. Qed.
Lemma chunks_bytes l : bytes_ok l -> Forall (fun c => bytes_ok c /\ zlen c = 16) (chunks 16 l).
Proof.
  induction l as [l Hl|b l Hb IH] using (block_ind 16 ltac:(lia)); intros Hok.
  - by rewrite chunks_short by (done || lia).
  - apply Forall_app in Hok as [Hok1 Hok2]. rewrite chunks_block by (done || lia). constructor; [done|by apply IH].
Qed.
Lemma fold_128 h l : is_128 h -> bytes_ok l -> forall v, is_128 v -> is_128 (fold_left (ghash_step h) (chunks 16 l) v).
Proof.
  intros Hh Hl. pose proof (chunks_bytes l Hl) as Hc. induction Hc as [|c cs [Hc1 Hc2] _ IH]; intros v Hv; [done|]. cbn [fold_left]. apply IH. by apply step_128.
Qed.

Section key.
Context (Htable : list u128) (h : Z).
Hypothesis key_128 : is_128 h.
Hypothesis table : Htable_at Htable 0 = init_key h.

Lemma gmult_correct Xi : bytes_ok Xi -> zlen Xi = 16 -> set_u (gcm_gmult_nohw (get_u Xi) Htable) = be_bytes 16 (mul (be_val Xi) h).
Proof using key_128 table.
  intros HX Hl. pose proof (be_val_128 Xi HX Hl) as Hv. unfold gcm_gmult_nohw. rewrite swap_get_u, table by done.
  rewrite polyval_correct, val_words128 by (done || apply words128_ok, Hv || apply Hv). apply set_u_swap. by apply mul_128.
Qed.
Lemma ghash_loop_correct fuel : forall v inp len, is_128 v -> bytes_ok inp -> len <= zlen inp -> len mod 16 = 0 -> (Z.to_nat len <= fuel)%nat ->
  ghash_loop fuel (words128 v) Htable inp len = words128 (fold_left (ghash_step h) (chunks 16 (ztake len inp)) v).
Proof using key_128 table.
  induction fuel as [|fuel IH]; intros v inp len Hv Hi Hl Hm Hf; cbn [ghash_loop].
  - by rewrite chunks_short by (rewrite ?zlen_ztake; lia).
  - destruct (Z.geb_spec len 16) as [H16|H16]; [|by rewrite chunks_short by (rewrite ?zlen_ztake; lia)].
    assert (Hb : bytes_ok (ztake 16 inp)) by (by apply Forall_ztake). assert (Hbl : zlen (ztake 16 inp) = 16) by (rewrite zlen_ztake; lia).
    assert (E : [le_val (ztake 8 inp); le_val (ztake 8 (zdrop 8 inp))] = get_u (ztake 16 inp)).
    { unfold get_u. by rewrite ztake_ztake, (zdrop_ztake 16 8) by lia. }
    rewrite E. pose proof (swap_get_u _ Hb Hbl) as E2.
    assert (E3 : [Z.lxor (znth (words128 v) 0) (CRYPTO_bswap8 (znth (get_u (ztake 16 inp)) 1)); Z.lxor (znth (words128 v) 1) (CRYPTO_bswap8 (znth (get_u (ztake 16 inp)) 0))] =
      words128 (Z.lxor v (be_val (ztake 16 inp)))) by (rewrite words128_lxor, <- E2; done).
    assert (Hx : is_128 (Z.lxor v (be_val (ztake 16 inp)))) by (apply lxor_128; [done|by apply be_val_128]).
    rewrite E3, table, polyval_correct, val_words128 by (done || by apply words128_ok || apply Hx).
    replace (ztake len inp) with (ztake 16 inp ++ ztake (len - 16) (zdrop 16 inp)) by (rewrite <- (zdrop_ztake len 16), <- (ztake_ztake 16 len), ztake_zdrop by lia; done).
    rewrite chunks_block by done. cbn [fold_left]. apply IH; [by apply mul_128|by apply Forall_zdrop|rewrite zlen_zdrop; lia|zarith|lia].
Qed.
Lemma ghash_correct Xi inp : bytes_ok Xi -> zlen Xi = 16 -> bytes_ok inp -> zlen inp mod 16 = 0 ->
  set_u (gcm_ghash_nohw (get_u Xi) Htable inp (zlen inp)) = be_bytes 16 (fold_left (ghash_step h) (chunks 16 inp) (be_val Xi)).
Proof using key_128 table.
  intros HX Hl Hi Hm. pose proof (be_val_128 Xi HX Hl) as Hv. unfold gcm_ghash_nohw. rewrite swap_get_u by done.
  rewrite ghash_loop_correct, (ztake_all (zlen inp)) by (done || lia). apply set_u_swap.
  by apply fold_128.
Qed.
End key.
