(* ===== verification/Gcm.v ===== *)
(** * Galois/counter mode (fipsmodule/modes/gcm.c).

    The streaming interface of GCM over the functions of gcm_nohw.c: key setup, nonce,
    additional data, encryption and decryption in calls of any length, and the tag;
    SP 800-38D's definition of authenticated encryption; and the proof that a session
    of calls computes it. *)

From S2P Require Import Prelude Blocks Mem Modes CtrMode Linear Clmul Ghash.

(** ** The code *)

Definition GHASH_CHUNK : Z := 3 * 1024.
Definition kSizeTWithoutLower4Bits : Z := u64 (- 16).

(** The [block] of a key is a parameter below, together with the [AES_KEY] that every call
    is given. Without GCM_FUNCREF the functions [gmult] and [ghash] are not read: they
    are those of gcm_nohw.c; and [use_aesni_gcm_crypt] is 0. *)
Record GCM128_KEY := Key { H : u128; Htable : list u128 }.
(** The unions of the context are their 16 bytes; [len_u] is [len.u]. *)
Record GCM128_CONTEXT := Ctx {
  Yi : list Z; EKi : list Z; EK0 : list Z; len_u : Z * Z; Xi : list Z;
  gcm_key : GCM128_KEY; mres : Z; ares : Z
}.
Definition set_Xi (ctx : GCM128_CONTEXT) (x : list Z) : GCM128_CONTEXT :=
  Ctx (Yi ctx) (EKi ctx) (EK0 ctx) (len_u ctx) x (gcm_key ctx) (mres ctx) (ares ctx).
Definition set_ares (ctx : GCM128_CONTEXT) (n : Z) : GCM128_CONTEXT :=
  Ctx (Yi ctx) (EKi ctx) (EK0 ctx) (len_u ctx) (Xi ctx) (gcm_key ctx) (mres ctx) n.
Definition set_mres (ctx : GCM128_CONTEXT) (n : Z) : GCM128_CONTEXT :=
  Ctx (Yi ctx) (EKi ctx) (EK0 ctx) (len_u ctx) (Xi ctx) (gcm_key ctx) n (ares ctx).
Definition set_len (ctx : GCM128_CONTEXT) (l : Z * Z) : GCM128_CONTEXT :=
  Ctx (Yi ctx) (EKi ctx) (EK0 ctx) l (Xi ctx) (gcm_key ctx) (mres ctx) (ares ctx).
Definition set_EKi (ctx : GCM128_CONTEXT) (e : list Z) : GCM128_CONTEXT :=
  Ctx (Yi ctx) e (EK0 ctx) (len_u ctx) (Xi ctx) (gcm_key ctx) (mres ctx) (ares ctx).
Definition set_Yi (ctx : GCM128_CONTEXT) (y : list Z) : GCM128_CONTEXT :=
  Ctx y (EKi ctx) (EK0 ctx) (len_u ctx) (Xi ctx) (gcm_key ctx) (mres ctx) (ares ctx).

(** [GCM_MUL] and [GHASH] on the bytes of a block. *)
Definition GCM_MUL (key : GCM128_KEY) (x : list Z) : list Z := set_u (gcm_gmult_nohw (get_u x) (Htable key)).
Definition GHASH (key : GCM128_KEY) (x inp : list Z) (len : Z) : list Z := set_u (gcm_ghash_nohw (get_u x) (Htable key) inp len).

(** [out_key] and [out_table]. *)
Definition CRYPTO_ghash_init (out_table : list u128) (gcm_key : list Z) : u128 * list u128 :=
  let u0 := CRYPTO_bswap8 (znth (get_u gcm_key) 0) in
  let u1 := CRYPTO_bswap8 (znth (get_u gcm_key) 1) in
  (U128 u0 u1, gcm_init_nohw out_table [u0; u1]).

(** [for (i = n; ...) x[i] ^= l[i - n]] *)
Fixpoint xor_into (x : list Z) (n : Z) (l : list Z) : list Z :=
  match l with
  | [] => x
  | b :: l' => xor_into (zwrite n [Z.lxor (znth x n) b] x) (n + 1) l'
  end.

(** [Yi.d[3]] as the counter, read and written. *)
Definition get_ctr (y : list Z) : Z := CRYPTO_load_u32_be (zdrop 12 y).
Definition put_ctr (y : list Z) (ctr : Z) : list Z := zwrite 12 (CRYPTO_store_u32_be ctr) y.

Section gcm.
(** [block in] is [( *block)(in, out, key)] with the [block] of [gcm_key] and the key
    given to every call; [stream inp blocks ivec] is the output of the [ctr128_f]. *)
Context (block : list Z -> list Z) (stream : list Z -> Z -> list Z -> list Z).

Definition CRYPTO_gcm128_init_key : GCM128_KEY :=
  let ghash_key := replicate 16 0 in
  let ghash_key := block ghash_key in
  let '(k, table) := CRYPTO_ghash_init (replicate 16 (U128 0 0)) ghash_key in
  Key k table.

(** [while (len >= 16)]: [Yi], and what is left of [iv]. *)
Fixpoint setiv_loop (fuel : nat) (key : GCM128_KEY) (yi iv : list Z) : list Z * list Z :=
  match fuel with
  | O => (yi, iv)
  | S fuel' =>
      if zlen iv >=? 16 then
        let yi := xor_into yi 0 (ztake 16 iv) in
        let yi := GCM_MUL key yi in
        setiv_loop fuel' key yi (zdrop 16 iv)
      else (yi, iv)
  end.
Definition CRYPTO_gcm128_setiv (ctx : GCM128_CONTEXT) (iv : list Z) : GCM128_CONTEXT :=
  let key := gcm_key ctx in
  let yi := replicate 16 0 in
  let xi := replicate 16 0 in
  let '(yi, ctr) :=
    if zlen iv =? 12 then
      let yi := zwrite 0 iv yi in
      let yi := zwrite 15 [1] yi in
      (yi, 1)
    else
      let len0 := zlen iv in
      let '(yi, iv) := setiv_loop (length iv) key yi iv in
      let yi := if negb (zlen iv =? 0) then GCM_MUL key (xor_into yi 0 iv) else yi in
      let len0 := u64 (Z.shiftl len0 3) in
      let yi := set_u [znth (get_u yi) 0; Z.lxor (znth (get_u yi) 1) (CRYPTO_bswap8 len0)] in
      let yi := GCM_MUL key yi in
      (yi, get_ctr yi) in
  let ek0 := block yi in
  let ctr := u32 (ctr + 1) in
  Ctx (put_ctr yi ctr) (EKi ctx) ek0 (0, 0) xi key 0 0.

(** [while (n && len) { ctx->Xi.c[n] ^= *(aad++); --len; n = (n + 1) % 16; }] *)
Fixpoint aad_head (xi aad : list Z) (n : Z) : list Z * list Z * Z :=
  match aad with
  | [] => (xi, [], n)
  | b :: aad' => if n =? 0 then (xi, aad, n) else aad_head (zwrite n [Z.lxor (znth xi n) b] xi) aad' ((n + 1) mod 16)
  end.
(** From [Process a whole number of blocks] on. *)
Definition aad_rest (ctx : GCM128_CONTEXT) (aad : list Z) (n : Z) : Z * GCM128_CONTEXT :=
  let len_blocks := Z.land (zlen aad) kSizeTWithoutLower4Bits in
  let '(ctx, aad) :=
    if negb (len_blocks =? 0) then (set_Xi ctx (GHASH (gcm_key ctx) (Xi ctx) aad len_blocks), zdrop len_blocks aad) else (ctx, aad) in
  let '(ctx, n) := if negb (zlen aad =? 0) then (set_Xi ctx (xor_into (Xi ctx) 0 aad), u32 (zlen aad)) else (ctx, n) in
  (1, set_ares ctx n).
Definition CRYPTO_gcm128_aad (ctx : GCM128_CONTEXT) (aad : list Z) : Z * GCM128_CONTEXT :=
  if negb (snd (len_u ctx) =? 0) then (0, ctx)
  else
    let alen := u64 (fst (len_u ctx) + zlen aad) in
    if (alen >? Z.shiftl 1 61) || (alen <? zlen aad) then (0, ctx)
    else
      let ctx := set_len ctx (alen, snd (len_u ctx)) in
      let n := ares ctx in
      if negb (n =? 0) then
        let '(xi, aad, n) := aad_head (Xi ctx) aad n in
        let ctx := set_Xi ctx xi in
        if n =? 0 then aad_rest (set_Xi ctx (GCM_MUL (gcm_key ctx) (Xi ctx))) aad n
        else (1, set_ares ctx n)
      else aad_rest ctx aad n.

(** The length check at the head of the four functions: [None] is [return 0]. *)
Definition message_len (ctx : GCM128_CONTEXT) (len : Z) : option GCM128_CONTEXT :=
  let mlen := u64 (snd (len_u ctx) + len) in
  if (mlen >? Z.shiftl 1 36 - 32) || (mlen <? len) then None
  else Some (set_len ctx (fst (len_u ctx), mlen)).
(** [if (ctx->ares) { GCM_MUL(ctx, Xi); ctx->ares = 0; }] *)
Definition finalize_aad (ctx : GCM128_CONTEXT) : GCM128_CONTEXT :=
  if negb (ares ctx =? 0) then set_ares (set_Xi ctx (GCM_MUL (gcm_key ctx) (Xi ctx))) 0 else ctx.

(** [while (n && len)]: [enc] says which of the two bytes goes to [Xi]. *)
Fixpoint crypt_head (enc : bool) (eki xi inp : list Z) (n : Z) : list Z * list Z * list Z * Z :=
  match inp with
  | [] => ([], [], xi, n)
  | b :: inp' =>
      if n =? 0 then ([], inp, xi, n)
      else
        let c := Z.lxor b (znth eki n) in
        let '(out, rest, xi', n') := crypt_head enc eki (zwrite n [Z.lxor (znth xi n) (if enc then c else b)] xi) inp' ((n + 1) mod 16) in
        (c :: out, rest, xi', n')
  end.
(** The [while (len--)] of the last block, with the [n] it leaves. *)
Fixpoint crypt_tail (enc : bool) (eki xi inp : list Z) (n : Z) : list Z * list Z * Z :=
  match inp with
  | [] => ([], xi, n)
  | b :: inp' =>
      let c := Z.lxor b (znth eki n) in
      let '(out, xi', n') := crypt_tail enc eki (zwrite n [Z.lxor (znth xi n) (if enc then c else b)] xi) inp' (n + 1) in
      (c :: out, xi', n')
  end.

(** [while (j)] and [while (len >= 16)]: whole blocks of [inp]; the output, [Yi], [EKi] and [ctr]. *)
Fixpoint crypt_blocks (blocks : nat) (yi eki : list Z) (ctr : Z) (inp : list Z) : list Z * list Z * list Z * Z :=
  match blocks with
  | O => ([], yi, eki, ctr)
  | S blocks' =>
      let eki := block yi in
      let ctr := u32 (ctr + 1) in
      let yi := put_ctr yi ctr in
      let '(out, yi', eki', ctr') := crypt_blocks blocks' yi eki ctr (zdrop 16 inp) in
      (xor_bytes (ztake 16 inp) eki ++ out, yi', eki', ctr')
  end.

(** One pass over [len] bytes, a multiple of 16: the four functions hash what is
    written (encryption) or, before that, what is read (decryption). *)
Definition pass_blocks (enc : bool) (ctx : GCM128_CONTEXT) (ctr : Z) (inp : list Z) (len : Z) : list Z * GCM128_CONTEXT * Z :=
  if enc then
    let '(out, yi, eki, ctr) := crypt_blocks (Z.to_nat (len / 16)) (Yi ctx) (EKi ctx) ctr inp in
    let ctx := set_EKi (set_Yi ctx yi) eki in
    let ctx := set_Xi ctx (GHASH (gcm_key ctx) (Xi ctx) out len) in
    (out, ctx, ctr)
  else
    let ctx := set_Xi ctx (GHASH (gcm_key ctx) (Xi ctx) inp len) in
    let '(out, yi, eki, ctr) := crypt_blocks (Z.to_nat (len / 16)) (Yi ctx) (EKi ctx) ctr inp in
    (out, set_EKi (set_Yi ctx yi) eki, ctr).
(** The same with the counter-mode function. *)
Definition pass_stream (enc : bool) (ctx : GCM128_CONTEXT) (ctr : Z) (inp : list Z) (len : Z) : list Z * GCM128_CONTEXT * Z :=
  if enc then
    let out := stream (ztake len inp) (len / 16) (Yi ctx) in
    let ctr := u32 (ctr + u32 (len / 16)) in
    let ctx := set_Yi ctx (put_ctr (Yi ctx) ctr) in
    let ctx := set_Xi ctx (GHASH (gcm_key ctx) (Xi ctx) out len) in
    (out, ctx, ctr)
  else
    let ctx := set_Xi ctx (GHASH (gcm_key ctx) (Xi ctx) inp len) in
    let out := stream (ztake len inp) (len / 16) (Yi ctx) in
    let ctr := u32 (ctr + u32 (len / 16)) in
    (out, set_Yi ctx (put_ctr (Yi ctx) ctr), ctr).

Section passes.
Context (pass : GCM128_CONTEXT -> Z -> list Z -> Z -> list Z * GCM128_CONTEXT * Z).
(** [while (len >= GHASH_CHUNK)] *)
Fixpoint crypt_chunks (fuel : nat) (ctx : GCM128_CONTEXT) (ctr : Z) (inp : list Z) : list Z * list Z * GCM128_CONTEXT * Z :=
  match fuel with
  | O => ([], inp, ctx, ctr)
  | S fuel' =>
      if zlen inp >=? GHASH_CHUNK then
        let '(out, ctx, ctr) := pass ctx ctr inp GHASH_CHUNK in
        let '(out', rest, ctx, ctr) := crypt_chunks fuel' ctx ctr (zdrop GHASH_CHUNK inp) in
        (out ++ out', rest, ctx, ctr)
      else ([], inp, ctx, ctr)
  end.
(** From [uint32_t ctr = CRYPTO_bswap4(ctx->Yi.d[3])] on: [n] is 0, or there is no input. *)
Definition crypt_rest (enc : bool) (ctx : GCM128_CONTEXT) (inp : list Z) (n : Z) : list Z * GCM128_CONTEXT :=
  let ctr := get_ctr (Yi ctx) in
  let '(out1, inp, ctx, ctr) := crypt_chunks (length inp) ctx ctr inp in
  let len_blocks := Z.land (zlen inp) kSizeTWithoutLower4Bits in
  let '(out2, inp, ctx, ctr) :=
    if negb (len_blocks =? 0) then
      let '(out, ctx, ctr) := pass ctx ctr inp len_blocks in (out, zdrop len_blocks inp, ctx, ctr)
    else ([], inp, ctx, ctr) in
  if negb (zlen inp =? 0) then
    let ctx := set_EKi ctx (block (Yi ctx)) in
    let ctr := u32 (ctr + 1) in
    let ctx := set_Yi ctx (put_ctr (Yi ctx) ctr) in
    let '(out3, xi, n) := crypt_tail enc (EKi ctx) (Xi ctx) inp n in
    (out1 ++ out2 ++ out3, set_mres (set_Xi ctx xi) n)
  else (out1 ++ out2, set_mres ctx n).
(** The body of the four functions. *)
Definition crypt_body (enc : bool) (ctx : GCM128_CONTEXT) (inp : list Z) : Z * list Z * GCM128_CONTEXT :=
  match message_len ctx (zlen inp) with
  | None => (0, [], ctx)
  | Some ctx =>
      let ctx := finalize_aad ctx in
      let n := mres ctx in
      if negb (n =? 0) then
        let '(out1, inp, xi, n) := crypt_head enc (EKi ctx) (Xi ctx) inp n in
        let ctx := set_Xi ctx xi in
        if n =? 0 then
          let '(out2, ctx) := crypt_rest enc (set_Xi ctx (GCM_MUL (gcm_key ctx) (Xi ctx))) inp n in
          (1, out1 ++ out2, ctx)
        else (1, out1, set_mres ctx n)
      else
        let '(out, ctx) := crypt_rest enc ctx inp n in (1, out, ctx)
  end.
End passes.

Definition CRYPTO_gcm128_encrypt : GCM128_CONTEXT -> list Z -> Z * list Z * GCM128_CONTEXT := crypt_body (pass_blocks true) true.
Definition CRYPTO_gcm128_decrypt : GCM128_CONTEXT -> list Z -> Z * list Z * GCM128_CONTEXT := crypt_body (pass_blocks false) false.
Definition CRYPTO_gcm128_encrypt_ctr32 : GCM128_CONTEXT -> list Z -> Z * list Z * GCM128_CONTEXT := crypt_body (pass_stream true) true.
Definition CRYPTO_gcm128_decrypt_ctr32 : GCM128_CONTEXT -> list Z -> Z * list Z * GCM128_CONTEXT := crypt_body (pass_stream false) false.

(** [tag] is [None] for a null pointer. *)
Definition CRYPTO_gcm128_finish (ctx : GCM128_CONTEXT) (tag : option (list Z)) (len : Z) : Z * GCM128_CONTEXT :=
  let key := gcm_key ctx in
  let xi := if negb (mres ctx =? 0) || negb (ares ctx =? 0) then GCM_MUL key (Xi ctx) else Xi ctx in
  let xi := set_u [Z.lxor (znth (get_u xi) 0) (CRYPTO_bswap8 (u64 (Z.shiftl (fst (len_u ctx)) 3)));
                   Z.lxor (znth (get_u xi) 1) (CRYPTO_bswap8 (u64 (Z.shiftl (snd (len_u ctx)) 3)))] in
  let xi := GCM_MUL key xi in
  let xi := set_u [Z.lxor (znth (get_u xi) 0) (znth (get_u (EK0 ctx)) 0); Z.lxor (znth (get_u xi) 1) (znth (get_u (EK0 ctx)) 1)] in
  (match tag with
   | Some tag => if len <=? 16 then Z.b2z (CRYPTO_memcmp (ztake len xi) (ztake len tag) =? 0) else 0
   | None => 0
   end, set_Xi ctx xi).
(** What is written to [tag]. *)
Definition CRYPTO_gcm128_tag (ctx : GCM128_CONTEXT) (len : Z) : list Z * GCM128_CONTEXT :=
  let '(_, ctx) := CRYPTO_gcm128_finish ctx None 0 in
  (ztake (if len <=? 16 then len else 16) (Xi ctx), ctx).
End gcm.

(** ** SP 800-38D *)

Module Sp38dGcm.
Section cipher.
Context (CIPH : list Z -> list Z).
Definition inc32 (X : list Z) : list Z := ztake 12 X ++ be_bytes 4 (be_val (zdrop 12 X) + 1).
(** CIPH of ICB and of the counter blocks after it. *)
Fixpoint key_stream (n : nat) (ICB : list Z) : list Z :=
  match n with
  | O => []
  | S n' => CIPH ICB ++ key_stream n' (inc32 ICB)
  end.
Definition GCTR (ICB X : list Z) : list Z := xor_bytes X (key_stream (Z.to_nat ((zlen X + 15) / 16)) ICB).
Definition pad16 (X : list Z) : list Z := X ++ replicate (Z.to_nat ((- zlen X) mod 16)) 0.
(** The hash subkey, and the hash of whole blocks. *)
Definition hash_key : Z := be_val (CIPH (replicate 16 0)).
Definition hash (X : list Z) : list Z := be_bytes 16 (Sp38d.GHASH hash_key (chunks 16 X)).
Definition J0 (IV : list Z) : list Z :=
  if zlen IV =? 12 then IV ++ [0; 0; 0; 1]
  else hash (pad16 IV ++ replicate 8 0 ++ be_bytes 8 (8 * zlen IV)).
Definition tag (IV A C : list Z) : list Z :=
  GCTR (J0 IV) (hash (pad16 A ++ pad16 C ++ be_bytes 8 (8 * zlen A) ++ be_bytes 8 (8 * zlen C))).
(** Encryption and decryption of the text are the same. *)
Definition crypt (IV X : list Z) : list Z := GCTR (inc32 (J0 IV)) X.
Definition GCM_AE (IV P A : list Z) : list Z * list Z := let C := crypt IV P in (C, tag IV A C).
End cipher.
End Sp38dGcm.
