(* ===== verification/GcmCorrect.v ===== *)
(** * Galois/counter mode computes SP 800-38D.

    The hash is followed by a machine that absorbs a byte at a time, and the counter mode
    by the key stream machine of Modes.v; calls of any length are runs of both. *)

From S2P Require Import Prelude Blocks Mem Modes CtrMode Aes AesKey AesCorrect AesModes Linear Clmul Ghash Gcm.
Import Sp38dGcm.

(** ** Blocks *)

Definition is_block (x : list Z) : Prop := bytes_ok x /\ zlen x = 16.
Lemma be_block v : is_block (be_bytes 16 v).
Proof. split; [apply be_bytes_ok|apply zlen_be_bytes]. Qed.
Lemma zero_block : is_block (replicate 16 0).
Proof. split; [by apply Forall_replicate|done]. Qed.
#[local] Hint Resolve be_block zero_block : core.

Lemma xor_into_app p y l : zlen l <= zlen y -> xor_into (p ++ y) (zlen p) l = p ++ xor_bytes y l ++ zdrop (zlen l) y.
Proof.
  revert p y. induction l as [|c l IH]; intros p y Hl; [by destruct y|]. pose proof (zlen_nonneg l). rewrite zlen_cons in Hl.
  destruct y as [|b y]; [unfold zlen in *; cbn in *; lia|]. rewrite zlen_cons in Hl. cbn [xor_into].
  replace (znth (p ++ b :: y) (zlen p)) with b by (unfold znth, zlen; rewrite Nat2Z.id, app_nth2, Nat.sub_diag by lia; done).
  change (p ++ b :: y) with (p ++ [b] ++ y). rewrite zwrite_mid, app_assoc by done. replace (zlen p + 1) with (zlen (p ++ [Z.lxor b c])) by (by rewrite zlen_app).
  rewrite IH by lia. rewrite <- app_assoc. cbn [app]. f_equal. unfold xor_bytes. cbn [zip_with app]. do 2 f_equal.
  rewrite zlen_cons. change (b :: y) with ([b] ++ y). rewrite zdrop_app_ge by (change (zlen [b]) with 1; lia). f_equal. change (zlen [b]) with 1. lia.
Qed.
Lemma xor_into_eq x n l : 0 <= n -> n + zlen l <= zlen x -> xor_into x n l = ztake n x ++ xor_bytes (zdrop n x) l ++ zdrop (n + zlen l) x.
Proof.
  intros Hn Hl. pose proof (zlen_nonneg l). rewrite <- (ztake_zdrop n x) at 1. assert (E : zlen (ztake n x) = n) by (rewrite zlen_ztake; lia).
  pose proof (xor_into_app (ztake n x) (zdrop n x) l ltac:(rewrite zlen_zdrop; lia)) as E2. rewrite E in E2. rewrite E2. by rewrite zdrop_zdrop by lia.
Qed.
Lemma xor_into_full x l : zlen l = zlen x -> xor_into x 0 l = xor_bytes x l.
Proof.
  intros Hl. rewrite xor_into_eq by lia. rewrite ztake_0, zdrop_0, zdrop_all, app_nil_r by lia. done.
Qed.
Lemma xor_into_split x n l1 l2 : xor_into x n (l1 ++ l2) = xor_into (xor_into x n l1) (n + zlen l1) l2.
Proof.
  revert x n. induction l1 as [|b l1 IH]; intros x n; cbn [app xor_into]; [by rewrite zlen_nil, Z.add_0_r|].
  rewrite IH. f_equal. rewrite zlen_cons. lia.
Qed.
Lemma xor_into_zeros x n k : 0 <= n -> n + Z.of_nat k <= zlen x -> xor_into x n (replicate k 0) = x.
Proof.
  revert x n. induction k as [|k IH]; intros x n Hn Hk; [done|]. cbn [replicate xor_into]. rewrite Z.lxor_0_r.
  replace (zwrite n [znth x n] x) with x; [apply IH; lia|]. symmetry. unfold zwrite. change (zlen [_]) with 1. cbn [app]. rewrite <- zdrop_znth by lia. apply ztake_zdrop.
Qed.
Lemma xor_into_block x n l : is_block x -> bytes_ok l -> 0 <= n -> n + zlen l <= 16 -> is_block (xor_into x n l).
Proof.
  intros [Hb Hx] Hl Hn Hs. pose proof (zlen_nonneg l). rewrite xor_into_eq by lia. split.
  - apply Forall_app. split; [by apply Forall_ztake|]. apply Forall_app. split; [apply xor_bytes_ok; [by apply Forall_zdrop|done]|by apply Forall_zdrop].
  - rewrite !zlen_app, zlen_xor_bytes', zlen_ztake, zlen_zdrop by (rewrite zlen_zdrop; lia). lia.
Qed.
Lemma be_val_xor a b : bytes_ok a -> bytes_ok b -> zlen a = zlen b -> be_val (xor_bytes a b) = Z.lxor (be_val a) (be_val b).
Proof.
  intros Ha Hb Hl. rewrite <- (rev_involutive a), <- (rev_involutive b). assert (Hl' : length (rev a) = length (rev b)) by (rewrite !length_rev; unfold zlen in Hl; lia).
  assert (E : forall x y, length x = length y -> xor_bytes (rev x) (rev y) = rev (xor_bytes x y)).
  { clear. intros x. induction x as [|c x IH]; intros [|d y] Hl; try done. cbn [rev]. unfold xor_bytes in *. cbn [zip_with rev].
    cbn in Hl. rewrite zip_with_app by (rewrite !length_rev; lia). rewrite IH by lia. done. }
  rewrite E by done. apply Forall_rev in Ha, Hb. revert Ha Hb Hl'. generalize (rev a) (rev b). clear. intros x. induction x as [|c x IH]; intros [|d y] Ha Hb Hl; try done.
  apply Forall_cons in Ha as [Hc Ha]. apply Forall_cons in Hb as [Hd Hb]. unfold xor_bytes in *. cbn [zip_with rev]. rewrite !be_val_snoc, IH by (done || (cbn in Hl; lia)).
  unfold is_byte in *. apply Z.bits_inj'. intros i Hi. rewrite Z.lxor_spec.
  assert (F : forall v w, 0 <= w < 256 -> Z.testbit (v * 256 + w) i = if i <? 8 then Z.testbit w i else Z.testbit v (i - 8)).
  { intros v w Hw. destruct (Z.ltb_spec i 8).
    - rewrite <- (Z.mod_pow2_bits_low _ 8) by lia. change (2 ^ 8) with 256. by rewrite Z.add_comm, Z.mod_add, Z.mod_small by lia.
    - replace i with (i - 8 + 8) at 1 by lia. rewrite <- Z.div_pow2_bits by lia. change (2 ^ 8) with 256. by rewrite Z.div_add_l, Z.div_small, Z.add_0_r by lia. }
  rewrite !F by (try done; by apply (lxor_range 8)). rewrite !Z.lxor_spec. by destruct (i <? 8).
Qed.
Lemma xor_block a b : is_block a -> is_block b -> is_block (xor_bytes a b).
Proof. intros [Ha La] [Hb Lb]. split; [by apply xor_bytes_ok|]. rewrite zlen_xor_bytes; lia. Qed.

(** ** A machine that absorbs a byte at a time *)

Section hash.
Context (h : Z).
Hypothesis h_128 : is_128 h.

Definition mul_h (x : list Z) : list Z := be_bytes 16 (Sp38d.mul (be_val x) h).
(** A block and the position in it. *)
Definition absorb_step (s : list Z * Z) (b : Z) : list Z * Z :=
  let '(x, n) := s in
  let x := zwrite n [Z.lxor (znth x n) b] x in
  if n =? 15 then (mul_h x, 0) else (x, n + 1).
Definition absorb (s : list Z * Z) (l : list Z) : list Z * Z := fold_left absorb_step l s.
Definition flush (s : list Z * Z) : list Z := if snd s =? 0 then fst s else mul_h (fst s).

Lemma absorb_app s l1 l2 : absorb s (l1 ++ l2) = absorb (absorb s l1) l2.
Proof using. apply fold_left_app. Qed.
Lemma absorb_within x n l : 0 <= n -> n + zlen l < 16 -> absorb (x, n) l = (xor_into x n l, n + zlen l).
Proof using.
  revert x n. induction l as [|b l IH]; intros x n Hn Hl; unfold absorb in *; cbn [fold_left xor_into]; [by rewrite zlen_nil, Z.add_0_r|].
  rewrite zlen_cons in *. pose proof (zlen_nonneg l). cbn [absorb_step]. rewrite (proj2 (Z.eqb_neq n 15)) by lia. rewrite IH by lia. f_equal. lia.
Qed.
Lemma absorb_fill x n l : 0 <= n < 16 -> n + zlen l = 16 -> absorb (x, n) l = (mul_h (xor_into x n l), 0).
Proof using.
  intros Hn Hl. destruct (decide (l = [])) as [->|Hne]; [rewrite zlen_nil in Hl; lia|].
  destruct (exists_last Hne) as (l' & b & ->). rewrite zlen_app in Hl. change (zlen [b]) with 1 in Hl.
  rewrite absorb_app, absorb_within, xor_into_split by lia. unfold absorb. cbn [fold_left absorb_step xor_into]. by rewrite (proj2 (Z.eqb_eq _ 15)) by lia.
Qed.
Lemma absorb_block x l : is_block x -> is_block l -> absorb (x, 0) l = (be_bytes 16 (Sp38d.ghash_step h (be_val x) l), 0).
Proof using.
  intros [Hx Lx] [Hl Ll]. rewrite absorb_fill, xor_into_full by lia. unfold mul_h, Sp38d.ghash_step. by rewrite be_val_xor by (done || lia).
Qed.
Lemma absorb_last x l : is_block x -> is_block l -> absorb (x, 0) l = (mul_h (xor_bytes x l), 0).
Proof using. intros [_ Lx] [_ Ll]. by rewrite absorb_fill, xor_into_full by lia. Qed.
Lemma val_block v : is_128 v -> be_val (be_bytes 16 v) = v.
Proof using. intros Hv. rewrite be_val_be_bytes. by apply Z.mod_small. Qed.
Lemma block_val x : is_block x -> be_bytes 16 (be_val x) = x.
Proof using. intros [Hx Lx]. apply be_bytes_be_val; [done|]. unfold zlen in Lx. lia. Qed.

(** From a block boundary, the whole blocks are hashed. *)
Lemma absorb_chunks l : bytes_ok l -> forall x, is_block x ->
  absorb (x, 0) l = absorb (be_bytes 16 (fold_left (Sp38d.ghash_step h) (chunks 16 l) (be_val x)), 0) (leftover 16 l).
Proof using h_128.
  induction l as [l Hl|b l Hb IH] using (block_ind 16 ltac:(lia)); intros Hok x Hx.
  - rewrite chunks_short, leftover_short by (done || lia). cbn [fold_left]. by rewrite block_val.
  - apply Forall_app in Hok as [Hok1 Hok2]. assert (is_block b) by done. rewrite absorb_app, absorb_block, chunks_block, leftover_block by (done || lia).
    rewrite IH by done. cbn [fold_left]. rewrite val_block; [done|]. destruct Hx. apply step_128; try done. by apply be_val_128.
Qed.
Lemma absorb_whole l x : bytes_ok l -> zlen l mod 16 = 0 -> is_block x ->
  absorb (x, 0) l = (be_bytes 16 (fold_left (Sp38d.ghash_step h) (chunks 16 l) (be_val x)), 0).
Proof using h_128.
  intros Hl Hm Hx. rewrite absorb_chunks by done. assert (leftover 16 l = []) as ->; [|done]. apply zlen_zero. rewrite zlen_leftover_mod by lia. done.
Qed.

Lemma absorb_pos l : forall x n, 0 <= n < 16 -> snd (absorb (x, n) l) = (n + zlen l) mod 16.
Proof using.
  induction l as [|b l IH]; intros x n Hn; unfold absorb in *; cbn [fold_left]; [rewrite zlen_nil; cbn; zarith|].
  cbn [absorb_step]. rewrite zlen_cons. destruct (Z.eqb_spec n 15) as [->|]; rewrite IH by lia; zarith.
Qed.
Lemma absorb_ok l : bytes_ok l -> forall x n, 0 <= n < 16 -> is_block x -> is_block (fst (absorb (x, n) l)).
Proof using.
  intros Hl. induction Hl as [|b l Hb Hl IH]; intros x n Hn Hx; [done|]. unfold absorb in *. cbn [fold_left absorb_step].
  assert (is_block (zwrite n [Z.lxor (znth x n) b] x)).
  { apply (xor_into_block x n [b]); [done|by apply Forall_singleton|lia|change (zlen [b]) with 1; lia]. }
  destruct (n =? 15) eqn:E; apply IH; try done; [unfold mul_h; done|lia].
Qed.

(** Padding with zeros does what flushing does. *)
Lemma zlen_pad l : zlen (pad16 l) mod 16 = 0.
Proof using. unfold pad16. rewrite zlen_app. unfold zlen at 2. rewrite length_replicate. pose proof (zlen_nonneg l). zarith. Qed.
Lemma pad_bytes l : bytes_ok l -> bytes_ok (pad16 l).
Proof using. intros Hl. apply Forall_app. split; [done|]. by apply Forall_replicate. Qed.
Lemma flush_pad x l : bytes_ok l -> is_block x -> absorb (x, 0) (pad16 l) = (flush (absorb (x, 0) l), 0).
Proof using.
  intros Hl Hx. unfold pad16. rewrite absorb_app. pose proof (absorb_pos l x 0 ltac:(lia)) as Hp. pose proof (absorb_ok l Hl x 0 ltac:(lia) Hx) as [_ Hy].
  destruct (absorb (x, 0) l) as [y m]. cbn [fst snd] in *. rewrite Z.add_0_l in Hp. unfold flush. cbn [fst snd]. pose proof (zlen_nonneg l).
  destruct (Z.eqb_spec m 0) as [->|Hm].
  - replace ((- zlen l) mod 16) with 0 by zarith. done.
  - replace ((- zlen l) mod 16) with (16 - m) by zarith.
    assert (E : zlen (replicate (Z.to_nat (16 - m)) 0) = 16 - m) by (unfold zlen; rewrite length_replicate; zarith).
    rewrite absorb_fill by zarith. by rewrite xor_into_zeros by (zarith || lia).
Qed.
End hash.

(** ** The hash of the code *)

Section key.
Context (key : GCM128_KEY) (h : Z).
Hypothesis h_128 : is_128 h.
Hypothesis table : Htable_at (Htable key) 0 = init_key h.
Notation absorb := (absorb h).

Lemma gcm_mul_spec x : is_block x -> GCM_MUL key x = mul_h h x.
Proof using h_128 table. intros [Hx Lx]. by apply gmult_correct. Qed.
Lemma ghash_spec x l : is_block x -> bytes_ok l -> zlen l mod 16 = 0 -> absorb (x, 0) l = (GHASH key x l (zlen l), 0).
Proof using h_128 table.
  intros Hx Hl Hm. rewrite absorb_whole by done. f_equal. symmetry. destruct Hx. by apply ghash_correct.
Qed.
(** [len] bytes of a longer input. *)
Lemma ghash_prefix x l len : len <= zlen l -> 0 <= len -> len mod 16 = 0 -> bytes_ok l -> is_block x -> GHASH key x l len = GHASH key x (ztake len l) len.
Proof using h_128 table.
  intros Hl H0 Hm Hb [Hx Lx]. unfold GHASH, gcm_ghash_nohw. rewrite swap_get_u by done.
  rewrite !(ghash_loop_correct (Htable key) h) by (try done; rewrite ?zlen_ztake; try lia; try (by apply Forall_ztake); by apply be_val_128).
  by rewrite (ztake_all len (ztake len l)) by (rewrite zlen_ztake; lia).
Qed.

Lemma land_blocks n : 0 <= n < 2 ^ 64 -> Z.land n kSizeTWithoutLower4Bits = 16 * (n / 16).
Proof using.
  intros Hn. change kSizeTWithoutLower4Bits with (Z.ldiff (Z.ones 64) (Z.ones 4)).
  assert (E : Z.land n (Z.ldiff (Z.ones 64) (Z.ones 4)) = Z.ldiff n (Z.ones 4)).
  { apply Z.bits_inj'. intros i Hi. rewrite Z.land_spec, !Z.ldiff_spec. destruct (Z.lt_ge_cases i 64); [by rewrite (Z.ones_spec_low 64) by lia|].
    by rewrite (word64_high n) by done. }
  rewrite E, Z.ldiff_ones_r, Z.shiftr_div_pow2, Z.shiftl_mul_pow2 by lia. change (2 ^ 4) with 16. lia.
Qed.

Lemma aad_head_spec l : forall x n, 0 < n < 16 ->
  aad_head x l n = (xor_into x n (ztake (16 - n) l), zdrop (16 - n) l, (n + zlen (ztake (16 - n) l)) mod 16).
Proof using.
  induction l as [|b l IH]; intros x n Hn; cbn [aad_head].
  - rewrite ztake_all, zdrop_all by (rewrite zlen_nil; lia). cbn [xor_into]. rewrite zlen_nil, Z.add_0_r, Z.mod_small by lia. done.
  - rewrite (proj2 (Z.eqb_neq n 0)) by lia. destruct (decide (n = 15)) as [->|Hne].
    + change (16 - 15) with 1. change ((15 + 1) mod 16) with 0. replace (ztake 1 (b :: l)) with [b] by done. replace (zdrop 1 (b :: l)) with l by done.
      by destruct l.
    + rewrite Z.mod_small, IH by lia. replace (ztake (16 - n) (b :: l)) with (b :: ztake (16 - (n + 1)) l).
      2: { unfold ztake. replace (Z.to_nat (16 - n)) with (S (Z.to_nat (16 - (n + 1)))) by lia. done. }
      replace (zdrop (16 - n) (b :: l)) with (zdrop (16 - (n + 1)) l).
      2: { unfold zdrop. replace (Z.to_nat (16 - n)) with (S (Z.to_nat (16 - (n + 1)))) by lia. done. }
      cbn [xor_into]. rewrite zlen_cons. do 2 f_equal. lia.
Qed.
(** Both ways out of a loop that fills a block. *)
Lemma absorb_head x n l : is_block x -> bytes_ok l -> 0 < n < 16 ->
  let y := xor_into x n (ztake (16 - n) l) in
  is_block y /\
  if (n + zlen (ztake (16 - n) l)) mod 16 =? 0 then absorb (x, n) l = absorb (GCM_MUL key y, 0) (zdrop (16 - n) l) /\ is_block (GCM_MUL key y)
  else absorb (x, n) l = (y, (n + zlen (ztake (16 - n) l)) mod 16) /\ zdrop (16 - n) l = [].
Proof using h_128 table.
  intros Hx Hl Hn y. pose proof (zlen_nonneg l). pose proof (zlen_ztake (16 - n) l) as Hz.
  assert (Hy : is_block y) by (apply xor_into_block; [done|by apply Forall_ztake|lia|lia]). split; [done|].
  destruct (Z.eqb_spec ((n + zlen (ztake (16 - n) l)) mod 16) 0) as [E|E].
  - rewrite <- (ztake_zdrop (16 - n) l) at 1. rewrite absorb_app, absorb_fill, gcm_mul_spec by (done || zarith). split; [done|]. apply be_block.
  - rewrite zdrop_all by zarith. rewrite Z.mod_small by zarith. split; [|done]. subst y. rewrite ztake_all by zarith. by rewrite absorb_within by zarith.
Qed.

(** *** Additional data *)

Lemma aad_rest_spec ctx l : gcm_key ctx = key -> is_block (Xi ctx) -> bytes_ok l -> zlen l < 2 ^ 64 ->
  aad_rest ctx l 0 = (1, set_ares (set_Xi ctx (fst (absorb (Xi ctx, 0) l))) (snd (absorb (Xi ctx, 0) l))).
Proof using h_128 table.
  intros Hk Hx Hl Hn. pose proof (zlen_nonneg l). unfold aad_rest. rewrite land_blocks by lia. set (m := 16 * (zlen l / 16)). rewrite Hk.
  assert (Hm : 0 <= m <= zlen l) by (subst m; zarith). assert (Hm16 : m mod 16 = 0) by (subst m; zarith).
  assert (Hr : 0 <= zlen (zdrop m l) < 16) by (rewrite zlen_zdrop; subst m; zarith).
  assert (Hw : zlen (ztake m l) = m) by (rewrite zlen_ztake; lia).
  assert (E1 : absorb (Xi ctx, 0) (ztake m l) = (if negb (m =? 0) then GHASH key (Xi ctx) l m else Xi ctx, 0)).
  { destruct (Z.eqb_spec m 0) as [->|]; [by rewrite ztake_0|]. cbn [negb]. rewrite ghash_prefix by (done || lia).
    pose proof (ghash_spec (Xi ctx) (ztake m l) Hx ltac:(by apply Forall_ztake) ltac:(by rewrite Hw)) as E. by rewrite Hw in E. }
  assert (Hb : is_block (if negb (m =? 0) then GHASH key (Xi ctx) l m else Xi ctx)).
  { pose proof (absorb_ok h (ztake m l) ltac:(by apply Forall_ztake) (Xi ctx) 0 ltac:(lia) Hx) as Ho. by rewrite E1 in Ho. }
  assert (E2 : absorb (Xi ctx, 0) l = (xor_into (if negb (m =? 0) then GHASH key (Xi ctx) l m else Xi ctx) 0 (zdrop m l), zlen (zdrop m l))).
  { rewrite <- (ztake_zdrop m l) at 1. by rewrite absorb_app, E1, absorb_within by lia. }
  rewrite E2. cbn [fst snd]. destruct (Z.eqb_spec m 0) as [E|E]; cbn [negb].
  - rewrite E, zdrop_0 in *. destruct (Z.eqb_spec (zlen l) 0) as [E0|E0]; cbn [negb]; [|by rewrite u32_small by lia].
    apply zlen_zero in E0 as ->. by destruct ctx.
  - destruct (Z.eqb_spec (zlen (zdrop m l)) 0) as [E0|E0]; cbn [negb]; [|by rewrite u32_small by lia].
    rewrite E0. by apply zlen_zero in E0 as ->.
Qed.
Lemma aad_spec ctx l : gcm_key ctx = key -> is_block (Xi ctx) -> 0 <= ares ctx < 16 -> bytes_ok l -> zlen l < 2 ^ 64 ->
  snd (len_u ctx) = 0 -> 0 <= fst (len_u ctx) -> fst (len_u ctx) + zlen l <= 2 ^ 61 ->
  CRYPTO_gcm128_aad ctx l = (1, set_ares (set_Xi (set_len ctx (fst (len_u ctx) + zlen l, 0)) (fst (absorb (Xi ctx, ares ctx) l))) (snd (absorb (Xi ctx, ares ctx) l))).
Proof using h_128 table.
  intros Hk Hx Ha Hl Hn H0 Hf Hs. pose proof (zlen_nonneg l). unfold CRYPTO_gcm128_aad. rewrite H0. change (negb (0 =? 0)) with false. cbn match.
  rewrite u64_small by (unfold word64; lia). change (Z.shiftl 1 61) with (2 ^ 61). rewrite Z.gtb_ltb, !(proj2 (Z.ltb_ge _ _)) by lia. cbn [orb].
  set (c := set_len ctx _). change (ares ctx) with (ares c) in *. change (gcm_key ctx) with (gcm_key c) in Hk. change (Xi ctx) with (Xi c) in *. clearbody c.
  destruct (Z.eqb_spec (ares c) 0) as [->|Hne]; cbn [negb]; [by apply aad_rest_spec|]. rewrite aad_head_spec by lia.
  destruct (absorb_head (Xi c) (ares c) l Hx Hl ltac:(lia)) as [Hy Hh].
  destruct ((ares c + zlen (ztake (16 - ares c) l)) mod 16 =? 0) eqn:E.
  - destruct Hh as [-> Hg]. apply Z.eqb_eq in E as ->. cbn [set_Xi gcm_key Xi]. rewrite Hk.
    rewrite aad_rest_spec by (try done; try (by apply Forall_zdrop); rewrite zlen_zdrop; lia). done.
  - destruct Hh as [-> _]. done.
Qed.
End key.

(** ** The counter *)

Lemma get_ctr_val y : is_block y -> get_ctr y = be_val (zdrop 12 y).
Proof.
  intros [Hy Ly]. unfold get_ctr. assert (L : zlen (zdrop 12 y) = 4) by (rewrite zlen_zdrop; lia).
  rewrite load_u32_be_val, take_ge by (unfold zlen in *; (by apply Forall_zdrop) || lia). done.
Qed.
Lemma put_ctr_val y c : is_block y -> put_ctr y (u32 c) = ztake 12 y ++ be_bytes 4 c /\ is_block (put_ctr y (u32 c)).
Proof.
  intros [Hy Ly]. unfold put_ctr. rewrite store_u32_be_bytes by apply u32_range. replace (be_bytes 4 (u32 c)) with (be_bytes 4 c) by (symmetry; apply (be_bytes_mod 4)).
  unfold zwrite. rewrite zlen_be_bytes, (zdrop_all (12 + Z.of_nat 4)), app_nil_r by lia. split; [done|].
  split; [apply Forall_app; split; [by apply Forall_ztake|apply be_bytes_ok]|rewrite zlen_app, zlen_ztake, zlen_be_bytes; lia].
Qed.
Lemma inc32_put y : is_block y -> put_ctr y (u32 (get_ctr y + 1)) = inc32 y /\ is_block (inc32 y).
Proof. intros Hy. destruct (put_ctr_val y (get_ctr y + 1) Hy) as [E Hb]. rewrite E in Hb |- *. rewrite get_ctr_val in * by done. done. Qed.
(** The counter [y] with [c] in its last four bytes. *)
Definition with_ctr (y : list Z) (c : Z) : list Z := ztake 12 y ++ be_bytes 4 c.
Lemma with_ctr_split y c : is_block y -> ztake 12 (with_ctr y c) = ztake 12 y /\ zdrop 12 (with_ctr y c) = be_bytes 4 c.
Proof. intros [Hy Ly]. unfold with_ctr. rewrite ztake_app, zdrop_app by (rewrite zlen_ztake; lia). done. Qed.
Lemma inc32_with y c : is_block y -> inc32 (with_ctr y c) = with_ctr y (c + 1).
Proof.
  intros Hy. unfold inc32. destruct (with_ctr_split y c Hy) as [-> ->]. unfold with_ctr. f_equal. rewrite be_val_be_bytes, <- (be_bytes_mod 4 (_ + 1)), <- (be_bytes_mod 4 (c + 1)).
  by rewrite Zplus_mod_idemp_l.
Qed.
Lemma with_ctr_get y : is_block y -> with_ctr y (get_ctr y) = y.
Proof.
  intros Hy. rewrite get_ctr_val by done. unfold with_ctr. destruct Hy as [Hy Ly].
  rewrite be_bytes_be_val; [apply ztake_zdrop|by apply Forall_zdrop|]. pose proof (zlen_zdrop 12 y). unfold zlen in *. lia.
Qed.

Section cipher.
Context (block dec : list Z -> list Z) `{!BlockCipher block dec}.

Lemma enc_block x : is_block x -> is_block (block x).
Proof using All. intros [Hx Lx]. split; [by apply (enc_bytes block dec)|apply (zlen_enc block dec)]. Qed.

(** One byte of the text: the next counter block is encrypted when the last one is used up. *)
Definition gctr_refill (k : list Z * list Z) : list Z * list Z := (inc32 (fst k), block (fst k)).
Definition gctr_step : (list Z * list Z) * Z -> Z -> ((list Z * list Z) * Z) * Z := ks_step snd gctr_refill.
Lemma zlen_gctr_refill k : zlen (snd (gctr_refill k)) = 16.
Proof using All. apply (zlen_enc block dec). Qed.

Lemma gctr_forget y e e2 l : l <> [] -> run gctr_step ((y, e), 0) l = run gctr_step ((y, e2), 0) l.
Proof using. destruct l; done. Qed.
Lemma gctr_run_ok l : bytes_ok l -> forall y e n y' e' n' out, is_block y -> (n <> 0 -> is_block e) -> 0 <= n < 16 ->
  run gctr_step ((y, e), n) l = (((y', e'), n'), out) ->
  bytes_ok out /\ zlen out = zlen l /\ is_block y' /\ (n' <> 0 -> is_block e') /\ 0 <= n' < 16.
Proof using All.
  induction 1 as [|b l Hb Hl IH]; intros y e n y' e' n' out Hy He Hn; cbn [run].
  - intros [= <- <- <- <-]. by rewrite zlen_nil.
  - unfold gctr_step at 1, ks_step at 1. set (k := if n =? 0 then gctr_refill (y, e) else (y, e)).
    assert (Hk : is_block (fst k) /\ is_block (snd k)).
    { subst k. destruct (Z.eqb_spec n 0); [|by auto]. cbn [gctr_refill fst snd]. split; [by apply inc32_put|by apply enc_block]. }
    destruct k as [y1 e1]. cbn [fst snd] in Hk. destruct Hk as [Hy1 He1].
    destruct (run gctr_step ((y1, e1), (n + 1) mod 16) l) as [[[y2 e2] n2] o] eqn:E. intros [= <- <- <- <-].
    apply IH in E as (Ho & Lo & H1 & H2 & H3); [|done|done|zarith]. refine (conj _ (conj _ (conj H1 (conj H2 H3)))); [|rewrite !zlen_cons; lia].
    constructor; [|done]. apply (lxor_range 8); [lia|done|]. apply znth_byte, He1.
Qed.

(** The output of a run is the text masked with the key stream. *)
Lemma key_stream_add m n y : key_stream block (m + n) y = key_stream block m y ++ key_stream block n (Nat.iter m inc32 y).
Proof using.
  revert y. induction m as [|m IH]; intros y; [done|]. cbn [Nat.add key_stream]. rewrite IH, <- app_assoc, Nat.iter_succ_r. done.
Qed.
Lemma gctr_run l : bytes_ok l -> forall y e, is_block y -> snd (run gctr_step ((y, e), 0) l) = GCTR block y l.
Proof using All.
  induction l as [l Hl|b l Hb IH] using (block_ind 16 ltac:(lia)); intros Hok y e Hy.
  - destruct (decide (l = [])) as [->|Hne]; [done|]. assert (0 < zlen l) by (destruct l; [done|rewrite zlen_cons; pose proof (zlen_nonneg l); lia]).
    unfold gctr_step. rewrite ks_run_block by (lia || apply zlen_gctr_refill). unfold GCTR. replace (Z.to_nat ((zlen l + 15) / 16)) with 1%nat by zarith.
    cbn [key_stream snd gctr_refill fst]. by rewrite app_nil_r.
  - apply Forall_app in Hok as [Hok1 Hok2]. rewrite run_app. pose proof (ks_run_block snd gctr_refill zlen_gctr_refill (y, e) b ltac:(lia)) as R.
    fold gctr_step in R. rewrite R, Hb. change (16 mod 16) with 0. change (gctr_refill (y, e)) with (inc32 y, block y). cbn [snd].
    specialize (IH Hok2 (inc32 y) (block y) ltac:(by apply inc32_put)). destruct (run gctr_step ((inc32 y, block y), 0) l) as [s o]. cbn [snd] in *. rewrite IH.
    unfold GCTR. rewrite zlen_app, Hb. pose proof (zlen_nonneg l). replace (Z.to_nat ((16 + zlen l + 15) / 16)) with (S (Z.to_nat ((zlen l + 15) / 16))) by zarith.
    cbn [key_stream]. unfold xor_bytes. rewrite zip_with_app; [done|]. pose proof (zlen_enc block dec y). unfold zlen in *. lia.
Qed.

(** ** Passes over whole blocks *)

Context (stream : list Z -> Z -> list Z -> list Z).
Hypothesis stream_spec : forall inp blocks ivec, 0 <= blocks <= 2 ^ 28 -> bytes_ok inp -> bytes_ok ivec -> zlen inp = 16 * blocks -> zlen ivec = 16 ->
  stream inp blocks ivec = ctr32_ref block inp blocks ivec.
Context (key : GCM128_KEY) (h : Z).
Hypothesis h_128 : is_128 h.
Hypothesis table : Htable_at (Htable key) 0 = init_key h.
Notation absorb := (absorb h).

(** What is hashed is the text that is encrypted. *)
Definition hashed (enc : bool) (inp out : list Z) : list Z := if enc then out else inp.

(** A context in which [n] bytes of the current block are used. *)
Record ctx_ok (c : GCM128_CONTEXT) (n : Z) : Prop := {
  ok_Yi : is_block (Yi c);
  ok_Xi : is_block (Xi c);
  ok_EKi : is_block (EKi c);
  ok_key : gcm_key c = key;
  ok_n : 0 <= n < 16
}.
(** From [c] to [c'], [inp] becomes [out]; the buffered key stream only counts when
    some of it is left. *)
Record crypts (enc : bool) (c : GCM128_CONTEXT) (n : Z) (c' : GCM128_CONTEXT) (n' : Z) (inp out : list Z) : Prop := {
  cr_ok : ctx_ok c' n';
  cr_run : forall e, (n <> 0 -> e = EKi c) -> exists e', run gctr_step ((Yi c, e), n) inp = (((Yi c', e'), n'), out) /\ (n' <> 0 -> e' = EKi c');
  cr_hash : absorb (Xi c, n) (hashed enc inp out) = (Xi c', n');
  cr_EK0 : EK0 c' = EK0 c;
  cr_len : len_u c' = len_u c;
  cr_ares : ares c' = ares c
}.
Lemma crypts_nil enc c n : ctx_ok c n -> crypts enc c n c n [] [].
Proof using. intros H. constructor; try done; [intros e He; by exists e|by destruct enc]. Qed.
Lemma crypts_app enc a i b j c k i1 o1 i2 o2 : crypts enc a i b j i1 o1 -> crypts enc b j c k i2 o2 -> crypts enc a i c k (i1 ++ i2) (o1 ++ o2).
Proof using.
  intros A B. constructor.
  - apply B.
  - intros e He. destruct (cr_run _ _ _ _ _ _ _ A e He) as (e1 & R1 & H1). destruct (cr_run _ _ _ _ _ _ _ B e1 H1) as (e2 & R2 & H2).
    exists e2. split; [|done]. by eapply run_app_eq.
  - replace (hashed enc (i1 ++ i2) (o1 ++ o2)) with (hashed enc i1 o1 ++ hashed enc i2 o2) by (by destruct enc).
    rewrite absorb_app, (cr_hash _ _ _ _ _ _ _ A). apply B.
  - rewrite (cr_EK0 _ _ _ _ _ _ _ B). apply A.
  - rewrite (cr_len _ _ _ _ _ _ _ B). apply A.
  - rewrite (cr_ares _ _ _ _ _ _ _ B). apply A.
Qed.

Lemma crypt_blocks_run n : forall y e inp, is_block y -> is_block e -> 16 * Z.of_nat n <= zlen inp ->
  exists out y' e', crypt_blocks block n y e (get_ctr y) inp = (out, y', e', get_ctr y') /\ is_block y' /\ is_block e' /\
    run gctr_step ((y, e), 0) (ztake (16 * Z.of_nat n) inp) = (((y', e'), 0), out).
Proof using BlockCipher0.
  induction n as [|n IH]; intros y e inp Hy He Hl; cbn [crypt_blocks].
  - exists [], y, e. by rewrite ztake_0.
  - destruct (inc32_put y Hy) as [-> Hi]. pose proof (enc_block y Hy) as Hb.
    assert (Ec : u32 (get_ctr y + 1) = get_ctr (inc32 y)).
    { rewrite (get_ctr_val (inc32 y)) by done. pose proof (inc32_with y (get_ctr y) Hy) as E. rewrite with_ctr_get in E by done. rewrite E.
      rewrite (proj2 (with_ctr_split y (get_ctr y + 1) Hy)), be_val_be_bytes. done. }
    rewrite Ec. destruct (IH (inc32 y) (block y) (zdrop 16 inp) Hi Hb) as (o & y' & e' & E & Hy' & He' & R); [rewrite zlen_zdrop; lia|]. rewrite E.
    eexists _, y', e'. split; [done|]. split; [done|]. split; [done|].
    replace (ztake (16 * Z.of_nat (S n)) inp) with (ztake 16 inp ++ ztake (16 * Z.of_nat n) (zdrop 16 inp)).
    2: { replace (16 * Z.of_nat n) with (16 * Z.of_nat (S n) - 16) by lia.
      rewrite <- (zdrop_ztake (16 * Z.of_nat (S n)) 16), <- (ztake_ztake 16 (16 * Z.of_nat (S n))), ztake_zdrop by lia. done. }
    eapply run_app_eq; [|exact R]. unfold gctr_step. rewrite ks_run_block; [|apply zlen_gctr_refill|rewrite zlen_ztake; lia].
    replace (zlen (ztake 16 inp)) with 16 by (rewrite zlen_ztake; lia). done.
Qed.

Lemma with_ctr_block y c : is_block y -> is_block (with_ctr y c).
Proof using. intros Hy. destruct (put_ctr_val y c Hy) as [E H]. by rewrite E in H. Qed.
Lemma stream_gctr k : forall l y e c, is_block y -> zlen l = 16 * Z.of_nat k ->
  exists e', run gctr_step ((with_ctr y c, e), 0) l = (((with_ctr y (c + Z.of_nat k), e'), 0), ctr32_stream block l k y c).
Proof using BlockCipher0.
  induction k as [|k IH]; intros l y e c Hy Hl.
  - apply zlen_zero in Hl as ->. exists e. by rewrite Z.add_0_r.
  - assert (Ht : zlen (ztake 16 l) = 16) by (rewrite zlen_ztake; lia). assert (Hz : zlen (zdrop 16 l) = 16 * Z.of_nat k) by (rewrite zlen_zdrop; lia).
    destruct (IH (zdrop 16 l) y (block (with_ctr y c)) (c + 1) Hy Hz) as [e' R]. exists e'. cbn [ctr32_stream].
    rewrite <- (ztake_zdrop 16 l) at 1. replace (c + Z.of_nat (S k)) with (c + 1 + Z.of_nat k) by lia. eapply run_app_eq; [|exact R].
    unfold gctr_step. rewrite ks_run_block by (apply zlen_gctr_refill || lia). rewrite Ht. unfold gctr_refill. cbn [fst snd]. by rewrite inc32_with.
Qed.

(** A pass of the code, and what it must do. *)
Definition pass_ok (enc : bool) (pass : GCM128_CONTEXT -> Z -> list Z -> Z -> list Z * GCM128_CONTEXT * Z) : Prop :=
  forall c inp len, ctx_ok c 0 -> bytes_ok inp -> 0 < len <= zlen inp -> len mod 16 = 0 -> len <= GHASH_CHUNK ->
  exists out c', pass c (get_ctr (Yi c)) inp len = (out, c', get_ctr (Yi c')) /\ crypts enc c 0 c' 0 (ztake len inp) out.

(** The hash of what goes through a pass. *)
Lemma pass_hash (enc : bool) c (inp : list Z) len y' e e' (out : list Z) : ctx_ok c 0 -> bytes_ok inp -> 0 < len <= zlen inp -> len mod 16 = 0 ->
  run gctr_step ((Yi c, e), 0) (ztake len inp) = (((y', e'), 0), out) ->
  let x := GHASH key (Xi c) (if enc then out else inp) len in
  absorb (Xi c, 0) (hashed enc (ztake len inp) out) = (x, 0) /\ is_block x /\ is_block y'.
Proof using All.
  intros [HY HX HE Hk _] Hi Hl Hm R. assert (Ht : bytes_ok (ztake len inp)) by (by apply Forall_ztake). assert (Hz : zlen (ztake len inp) = len) by (rewrite zlen_ztake; lia).
  destruct (gctr_run_ok (ztake len inp) Ht (Yi c) e 0 y' e' 0 out HY ltac:(done) ltac:(lia) R) as (Ho & Lo & Hy & _). rewrite Hz in Lo. cbv zeta.
  assert (E : absorb (Xi c, 0) (hashed enc (ztake len inp) out) = (GHASH key (Xi c) (if enc then out else inp) len, 0)).
  { destruct enc; cbn [hashed]; [|rewrite (ghash_prefix key h) by (done || lia)].
    - pose proof (ghash_spec key h h_128 table (Xi c) out HX Ho ltac:(by rewrite Lo)) as E. by rewrite Lo in E.
    - pose proof (ghash_spec key h h_128 table (Xi c) (ztake len inp) HX Ht ltac:(by rewrite Hz)) as E. by rewrite Hz in E. }
  split; [done|]. split; [|done]. pose proof (absorb_ok h (hashed enc (ztake len inp) out) ltac:(by destruct enc) (Xi c) 0 ltac:(lia) HX) as Hx. by rewrite E in Hx.
Qed.

Lemma pass_blocks_ok enc : pass_ok enc (pass_blocks block enc).
Proof using All.
  intros c inp len Hc Hi Hl Hm _. pose proof Hc as [HY HX HE Hk _].
  destruct (crypt_blocks_run (Z.to_nat (len / 16)) (Yi c) (EKi c) inp HY HE) as (out & y' & e' & E & Hy & He & R); [zarith|].
  replace (16 * Z.of_nat (Z.to_nat (len / 16))) with len in R by zarith.
  destruct (pass_hash enc c inp len y' _ e' out Hc Hi Hl Hm R) as (Hh & Hx & _).
  assert (Hne : ztake len inp <> []) by (intros Hn; pose proof (zlen_ztake len inp) as Hz; rewrite Hn, zlen_nil in Hz; lia).
  assert (Hr : forall e, run gctr_step ((Yi c, e), 0) (ztake len inp) = (((y', e'), 0), out)) by (intros e; by rewrite (gctr_forget _ _ (EKi c))).
  exists out, (set_EKi (set_Yi (set_Xi c (GHASH key (Xi c) (if enc then out else inp) len)) y') e'). unfold pass_blocks. split.
  - destruct enc; cbn [set_Xi Yi EKi]; rewrite E; cbn [set_EKi set_Yi Xi gcm_key]; by rewrite Hk.
  - constructor; try done. intros e _. by exists e'.
Qed.
Lemma pass_stream_ok enc : pass_ok enc (pass_stream stream enc).
Proof using All.
  intros c inp len Hc Hi Hl Hm Hlen. pose proof Hc as [HY HX HE Hk _]. unfold GHASH_CHUNK in Hlen.
  assert (Ht : bytes_ok (ztake len inp)) by (by apply Forall_ztake). assert (Hz : zlen (ztake len inp) = len) by (rewrite zlen_ztake; lia).
  assert (Es : stream (ztake len inp) (len / 16) (Yi c) = ctr32_stream block (ztake len inp) (Z.to_nat (len / 16)) (Yi c) (get_ctr (Yi c))).
  { destruct HY as [HY LY]. rewrite stream_spec by (done || zarith). unfold ctr32_ref. by rewrite get_ctr_val. }
  set (y' := with_ctr (Yi c) (get_ctr (Yi c) + len / 16)).
  assert (Hr : forall e, exists e', run gctr_step ((Yi c, e), 0) (ztake len inp) = (((y', e'), 0), stream (ztake len inp) (len / 16) (Yi c))).
  { intros e. destruct (stream_gctr (Z.to_nat (len / 16)) (ztake len inp) (Yi c) e (get_ctr (Yi c)) HY ltac:(rewrite Hz; zarith)) as [e' R].
    rewrite with_ctr_get, Z2Nat.id in R by (done || zarith). exists e'. by rewrite Es. }
  destruct (Hr (EKi c)) as [e0 R0]. destruct (pass_hash enc c inp len y' _ e0 _ Hc Hi Hl Hm R0) as (Hh & Hx & Hy).
  assert (Ey : put_ctr (Yi c) (u32 (get_ctr (Yi c) + u32 (len / 16))) = y').
  { rewrite (u32_small (len / 16)) by zarith. by apply put_ctr_val. }
  assert (Ec : u32 (get_ctr (Yi c) + u32 (len / 16)) = get_ctr y').
  { rewrite (u32_small (len / 16)), (get_ctr_val y') by (done || zarith). unfold y'. rewrite (proj2 (with_ctr_split (Yi c) _ HY)), be_val_be_bytes. done. }
  exists (stream (ztake len inp) (len / 16) (Yi c)), (set_Yi (set_Xi c (GHASH key (Xi c) (if enc then stream (ztake len inp) (len / 16) (Yi c) else inp) len)) y').
  unfold pass_stream. split.
  - destruct enc; cbn [set_Xi Yi EKi set_Yi Xi gcm_key]; rewrite Ey, Ec, Hk; done.
  - constructor; try done. intros e _. destruct (Hr e) as [e' R]. exists e'. split; [exact R|done].
Qed.

(** ** A call *)

Lemma crypt_tail_spec enc eki inp : forall x n, zlen eki = 16 -> 0 <= n -> n + zlen inp <= 16 ->
  crypt_tail enc eki x inp n = (xor_bytes inp (zdrop n eki), xor_into x n (hashed enc inp (xor_bytes inp (zdrop n eki))), n + zlen inp).
Proof using.
  induction inp as [|b inp IH]; intros x n He Hn Hl; cbn [crypt_tail]; [by destruct enc; rewrite zlen_nil, Z.add_0_r|].
  rewrite zlen_cons in *. pose proof (zlen_nonneg inp). rewrite IH by lia. rewrite (zdrop_znth eki n) by lia.
  change (xor_bytes (b :: inp) (znth eki n :: zdrop (n + 1) eki)) with (Z.lxor b (znth eki n) :: xor_bytes inp (zdrop (n + 1) eki)).
  destruct enc; cbn [hashed xor_into]; f_equal; lia.
Qed.
Lemma crypt_head_spec enc eki inp : forall x n, zlen eki = 16 -> 0 < n < 16 ->
  let l := ztake (16 - n) inp in
  crypt_head enc eki x inp n = (xor_bytes l (zdrop n eki), zdrop (16 - n) inp, xor_into x n (hashed enc l (xor_bytes l (zdrop n eki))), (n + zlen l) mod 16).
Proof using.
  cbv zeta. induction inp as [|b inp IH]; intros x n He Hn; cbn [crypt_head].
  - rewrite ztake_all, (zdrop_all (16 - n)) by (rewrite zlen_nil; lia). rewrite zlen_nil, Z.add_0_r, Z.mod_small by lia. by destruct enc.
  - rewrite (proj2 (Z.eqb_neq n 0)) by lia. rewrite (zdrop_znth eki n) by lia. destruct (decide (n = 15)) as [->|Hne].
    + change (16 - 15) with 1. change ((15 + 1) mod 16) with 0. replace (ztake 1 (b :: inp)) with [b] by done. replace (zdrop 1 (b :: inp)) with inp by done.
      destruct inp; by destruct enc.
    + rewrite Z.mod_small, IH by lia. replace (ztake (16 - n) (b :: inp)) with (b :: ztake (16 - (n + 1)) inp).
      2: { unfold ztake. replace (Z.to_nat (16 - n)) with (S (Z.to_nat (16 - (n + 1)))) by lia. done. }
      replace (zdrop (16 - n) (b :: inp)) with (zdrop (16 - (n + 1)) inp).
      2: { unfold zdrop. replace (Z.to_nat (16 - n)) with (S (Z.to_nat (16 - (n + 1)))) by lia. done. }
      rewrite zlen_cons. replace (n + (1 + zlen (ztake (16 - (n + 1)) inp))) with (n + 1 + zlen (ztake (16 - (n + 1)) inp)) by lia. by destruct enc.
Qed.
Lemma hashed_bytes enc l eki n : bytes_ok l -> is_block eki -> 0 <= n -> n + zlen l <= 16 ->
  bytes_ok (hashed enc l (xor_bytes l (zdrop n eki))) /\ zlen (hashed enc l (xor_bytes l (zdrop n eki))) = zlen l.
Proof using.
  intros Hl [He Le] Hn Hs. pose proof (zlen_nonneg l). destruct enc; [|done]. cbn [hashed].
  split; [apply xor_bytes_ok; [done|by apply Forall_zdrop]|apply zlen_xor_bytes; rewrite zlen_zdrop; lia].
Qed.

Lemma crypts_mres enc c n c' n' m inp out : crypts enc c n c' n' inp out -> crypts enc c n (set_mres c' m) n' inp out.
Proof using. intros [[] ]. by constructor. Qed.

Section pass.
Context (enc : bool) (pass : GCM128_CONTEXT -> Z -> list Z -> Z -> list Z * GCM128_CONTEXT * Z).
Hypothesis Hpass : pass_ok enc pass.

Lemma chunks_crypts fuel : forall c inp, ctx_ok c 0 -> bytes_ok inp -> (length inp <= fuel)%nat ->
  exists out rest c' l, crypt_chunks pass fuel c (get_ctr (Yi c)) inp = (out, rest, c', get_ctr (Yi c')) /\ inp = l ++ rest /\ zlen rest < GHASH_CHUNK /\ crypts enc c 0 c' 0 l out.
Proof using Hpass.
  induction fuel as [|fuel IH]; intros c inp Hc Hi Hf; cbn [crypt_chunks].
  - destruct inp; [|cbn in Hf; lia]. exists [], [], c, []. split_and!; try done. by apply crypts_nil.
  - destruct (Z.geb_spec (zlen inp) GHASH_CHUNK) as [Hg|Hg]; [|exists [], inp, c, []; split_and!; try done; by apply crypts_nil].
    assert (HG : GHASH_CHUNK = 3072) by done.
    destruct (Hpass c inp GHASH_CHUNK Hc Hi) as (o1 & c1 & -> & C1); [lia|done|lia|].
    destruct (IH c1 (zdrop GHASH_CHUNK inp)) as (o2 & rest & c2 & l & -> & El & Hr & C2).
    { apply C1. } { by apply Forall_zdrop. } { pose proof (zlen_zdrop GHASH_CHUNK inp). unfold zlen in *. lia. }
    exists (o1 ++ o2), rest, c2, (ztake GHASH_CHUNK inp ++ l). split_and!; try done.
    + by rewrite <- app_assoc, <- El, ztake_zdrop.
    + by eapply crypts_app.
Qed.
Lemma tail_crypts c inp : ctx_ok c 0 -> bytes_ok inp -> 0 < zlen inp < 16 ->
  let c1 := set_Yi (set_EKi c (block (Yi c))) (put_ctr (Yi c) (u32 (get_ctr (Yi c) + 1))) in
  let '(out, xi, n) := crypt_tail enc (block (Yi c)) (Xi c) inp 0 in
  crypts enc c 0 (set_mres (set_Xi c1 xi) n) n inp out.
Proof using All.
  intros [HY HX HE Hk _] Hi Hl. pose proof (enc_block (Yi c) HY) as Hb. pose proof (proj2 Hb) as Lb. cbv zeta.
  rewrite crypt_tail_spec, Z.add_0_l, zdrop_0 by lia. destruct (inc32_put (Yi c) HY) as [-> Hy].
  destruct (hashed_bytes enc inp (block (Yi c)) 0 Hi Hb ltac:(lia) ltac:(lia)) as [Hh Lh]. rewrite zdrop_0 in Hh, Lh.
  constructor; try done.
  - constructor; try done; [|cbn; lia]. apply xor_into_block; [done|done|lia|lia].
  - intros e _. exists (block (Yi c)). split; [|done]. unfold gctr_step. rewrite ks_run_block by (apply zlen_gctr_refill || lia).
    rewrite Z.mod_small by lia. done.
  - rewrite absorb_within by lia. by rewrite Lh, Z.add_0_l.
Qed.
Lemma rest_crypts c inp : ctx_ok c 0 -> bytes_ok inp -> zlen inp < 2 ^ 64 ->
  exists out c', crypt_rest block pass enc c inp 0 = (out, c') /\ crypts enc c 0 c' (mres c') inp out.
Proof using All.
  intros Hc Hi Hn. unfold crypt_rest.
  destruct (chunks_crypts (length inp) c inp Hc Hi (le_n _)) as (o1 & i1 & c1 & l1 & -> & -> & Hr & C1). apply Forall_app in Hi as [Hi0 Hi].
  rewrite zlen_app in Hn. pose proof (zlen_nonneg l1). pose proof (zlen_nonneg i1). rewrite land_blocks by lia. set (m := 16 * (zlen i1 / 16)).
  assert (Hm : 0 <= m <= zlen i1) by (subst m; zarith).
  assert (Hp : exists o2 c2, (if negb (m =? 0) then let '(out, ctx, ctr) := pass c1 (get_ctr (Yi c1)) i1 m in (out, zdrop m i1, ctx, ctr) else ([], i1, c1, get_ctr (Yi c1))) =
    (o2, zdrop m i1, c2, get_ctr (Yi c2)) /\ crypts enc c1 0 c2 0 (ztake m i1) o2).
  { destruct (Z.eqb_spec m 0) as [->|Hm0]; cbn [negb].
    - exists [], c1. rewrite zdrop_0, ztake_0. split; [done|]. apply crypts_nil, C1.
    - destruct (Hpass c1 i1 m (cr_ok _ _ _ _ _ _ _ C1) Hi) as (o2 & c2 & -> & C2); [lia|subst m; zarith|lia|]. by exists o2, c2. }
  destruct Hp as (o2 & c2 & -> & C2). pose proof (crypts_app _ _ _ _ _ _ _ _ _ _ _ C1 C2) as C12.
  destruct (Z.eqb_spec (zlen (zdrop m i1)) 0) as [E0|E0]; cbn [negb].
  - eexists _, _. split; [done|]. apply crypts_mres. cbn [mres set_mres]. rewrite <- (ztake_zdrop m i1). apply zlen_zero in E0 as ->. by rewrite app_nil_r.
  - pose proof (tail_crypts c2 (zdrop m i1) (cr_ok _ _ _ _ _ _ _ C2) ltac:(by apply Forall_zdrop)) as T.
    pose proof (zlen_nonneg (zdrop m i1)). specialize (T ltac:(rewrite zlen_zdrop in *; subst m; zarith)). cbn [set_EKi Yi EKi set_Yi Xi] in T |- *.
    destruct (crypt_tail enc (block (Yi c2)) (Xi c2) (zdrop m i1) 0) as [[o3 xi] n]. eexists _, _. split; [done|]. cbn [mres set_mres].
    rewrite <- (ztake_zdrop m i1) at 1. rewrite !app_assoc. eapply crypts_app; [exact C12|exact T].
Qed.
End pass.

Lemma finalize_ok c : ctx_ok c (mres c) -> ctx_ok (finalize_aad c) (mres c) /\
  Xi (finalize_aad c) = flush h (Xi c, ares c) /\ ares (finalize_aad c) = 0.
Proof using h_128 table.
  intros [HY HX HE Hk Hn]. unfold finalize_aad, flush. cbn [snd fst]. destruct (Z.eqb_spec (ares c) 0) as [E|E]; cbn [negb]; [done|].
  rewrite Hk, (gcm_mul_spec key h) by done. split; [|done]. constructor; try done. apply be_block.
Qed.

Lemma body_crypts enc pass c inp : pass_ok enc pass -> ctx_ok c (mres c) -> bytes_ok inp -> 0 <= snd (len_u c) -> snd (len_u c) + zlen inp <= 2 ^ 36 - 32 ->
  exists out c', crypt_body block pass enc c inp = (1, out, c') /\
    crypts enc (finalize_aad (set_len c (fst (len_u c), snd (len_u c) + zlen inp))) (mres c) c' (mres c') inp out.
Proof using All.
  intros Hpass Hc Hi H0 Hl. pose proof (zlen_nonneg inp). unfold crypt_body, message_len. rewrite u64_small by (unfold word64; lia).
  change (Z.shiftl 1 36 - 32) with (2 ^ 36 - 32). rewrite Z.gtb_ltb, !(proj2 (Z.ltb_ge _ _)) by lia. cbn [orb].
  set (c0 := set_len c _). assert (Hc0 : ctx_ok c0 (mres c0)) by (destruct Hc; by constructor). change (mres c) with (mres c0). clearbody c0.
  destruct (finalize_ok c0 Hc0) as (Hf & _ & _). assert (Em : mres (finalize_aad c0) = mres c0) by (unfold finalize_aad; by destruct (negb _)).
  rewrite Em. set (c1 := finalize_aad c0) in *. set (n := mres c0) in *. clearbody c1 n. clear Em Hc0 c0. pose proof Hf as [HY HX HE Hk Hn].
  destruct (Z.eqb_spec n 0) as [->|Hn0]; cbn [negb].
  { destruct (rest_crypts enc pass Hpass c1 inp Hf Hi ltac:(lia)) as (out & c' & -> & C). by exists out, c'. }
  rewrite crypt_head_spec by (apply HE || lia). cbv zeta. set (l := ztake (16 - n) inp).
  assert (Hlb : bytes_ok l) by (by apply Forall_ztake). assert (Hll : n + zlen l <= 16) by (subst l; rewrite zlen_ztake; lia). pose proof (zlen_nonneg l).
  set (o := xor_bytes l (zdrop n (EKi c1))). destruct (hashed_bytes enc l (EKi c1) n Hlb HE ltac:(lia) Hll) as [Hhb Hhl]. fold o in Hhb, Hhl.
  assert (Hx : is_block (xor_into (Xi c1) n (hashed enc l o))) by (apply xor_into_block; try done; lia).
  assert (Hrun : forall e, (n <> 0 -> e = EKi c1) -> run gctr_step ((Yi c1, e), n) l = (((Yi c1, EKi c1), (n + zlen l) mod 16), o)).
  { intros e He. rewrite He by done. destruct (ks_run_within snd gctr_refill (Yi c1, EKi c1) l n) as [E|[_ E]]; [apply HE|lia|lia|exact E|lia]. }
  destruct (Z.eqb_spec ((n + zlen l) mod 16) 0) as [E|E].
  - cbn [set_Xi gcm_key Xi]. rewrite Hk, (gcm_mul_spec key h), E by done. set (c2 := set_Xi _ _).
    assert (C1 : crypts enc c1 n c2 0 l o).
    { constructor; try done.
      - constructor; try done. apply be_block.
      - intros e He. exists (EKi c1). rewrite Hrun by done. by rewrite E.
      - rewrite absorb_fill by zarith. done. }
    destruct (rest_crypts enc pass Hpass c2 (zdrop (16 - n) inp) (cr_ok _ _ _ _ _ _ _ C1)) as (o2 & c3 & -> & C2); [by apply Forall_zdrop|rewrite zlen_zdrop; lia|].
    eexists _, c3. split; [done|]. rewrite <- (ztake_zdrop (16 - n) inp). by eapply crypts_app.
  - eexists _, _. split; [done|]. apply crypts_mres. cbn [mres set_mres].
    assert (El : l = inp) by (apply ztake_all; unfold l in *; rewrite zlen_ztake in *; zarith). constructor; try done.
    + constructor; try done. zarith.
    + intros e He. exists (EKi c1). rewrite <- El at 1. by rewrite Hrun.
    + rewrite <- El at 1. rewrite absorb_within by zarith. cbn [set_Xi Xi]. f_equal. rewrite Hhl, Z.mod_small by zarith. done.
Qed.
End cipher.

(** ** The words of a block *)

Lemma get_u_0 x : znth (get_u x) 0 = le_val (ztake 8 x).
Proof. done. Qed.
Lemma get_u_1 x : znth (get_u x) 1 = le_val (zdrop 8 x).
Proof. done. Qed.

Lemma le_bytes_lxor n : forall a b, le_bytes n (Z.lxor a b) = xor_bytes (le_bytes n a) (le_bytes n b).
Proof.
  induction n as [|n IH]; intros a b; [done|]. cbn [le_bytes]. unfold xor_bytes in *. cbn [zip_with]. f_equal.
  - change 256 with (2 ^ 8). rewrite <- !Z.land_ones by lia. apply Z.bits_inj'. intros i _. rewrite Z.lxor_spec, !Z.land_spec, Z.lxor_spec. ring.
  - change 256 with (2 ^ 8). rewrite <- !Z.shiftr_div_pow2, Z.shiftr_lxor by lia. apply IH.
Qed.
Lemma set_u_xor x u v : is_block x -> set_u [Z.lxor (znth (get_u x) 0) u; Z.lxor (znth (get_u x) 1) v] = xor_bytes x (le_bytes 8 u ++ le_bytes 8 v).
Proof.
  intros [Hx Lx]. unfold set_u. change (znth [?a; ?b] 0) with a. change (znth [?a; ?b] 1) with b. rewrite !le_bytes_lxor, get_u_0, get_u_1.
  assert (L1 : length (ztake 8 x) = 8%nat) by (pose proof (zlen_ztake 8 x) as E; unfold zlen in *; lia).
  assert (L2 : length (zdrop 8 x) = 8%nat) by (pose proof (zlen_zdrop 8 x) as E; unfold zlen in *; lia).
  rewrite !le_bytes_le_val by (done || (by apply Forall_ztake) || (by apply Forall_zdrop)).
  rewrite <- (ztake_zdrop 8 x) at 3. unfold xor_bytes. rewrite zip_with_app; [done|]. by rewrite length_le_bytes.
Qed.
Lemma set_u_xor_block x y : is_block x -> is_block y ->
  set_u [Z.lxor (znth (get_u x) 0) (znth (get_u y) 0); Z.lxor (znth (get_u x) 1) (znth (get_u y) 1)] = xor_bytes x y.
Proof.
  intros Hx [Hy Ly]. rewrite set_u_xor by done. f_equal. rewrite get_u_0, get_u_1.
  assert (L1 : length (ztake 8 y) = 8%nat) by (pose proof (zlen_ztake 8 y) as E; unfold zlen in *; lia).
  assert (L2 : length (zdrop 8 y) = 8%nat) by (pose proof (zlen_zdrop 8 y) as E; unfold zlen in *; lia).
  rewrite !le_bytes_le_val by (done || (by apply Forall_ztake) || (by apply Forall_zdrop)). apply ztake_zdrop.
Qed.
(** A length in bits, as the code adds it to the hash. *)
Lemma bit_length n : 0 <= n < 2 ^ 61 -> le_bytes 8 (CRYPTO_bswap8 (u64 (Z.shiftl n 3))) = be_bytes 8 (8 * n).
Proof.
  intros Hn. rewrite Z.shiftl_mul_pow2, u64_small by (unfold word64; lia). replace (n * 2 ^ 3) with (8 * n) by lia. apply store_u64_be_bytes. lia.
Qed.

(** The table of a key. *)
Lemma ghash_init_table table c : is_block c -> table <> [] -> Htable_at (snd (CRYPTO_ghash_init table c)) 0 = init_key (be_val c).
Proof.
  intros [Hc Lc] Ht. pose proof (swap_get_u c Hc Lc) as E. unfold words128 in E. unfold CRYPTO_ghash_init.
  assert (E0 : CRYPTO_bswap8 (znth (get_u c) 0) = Z.shiftr (be_val c) 64) by congruence. assert (E1 : CRYPTO_bswap8 (znth (get_u c) 1) = u64 (be_val c)) by congruence.
  rewrite E0, E1, gcm_init_key. by destruct table.
Qed.

(** ** A session *)

Section session.
Context (block dec : list Z -> list Z) `{!BlockCipher block dec} (stream : list Z -> Z -> list Z -> list Z).
Hypothesis stream_spec : forall inp blocks ivec, 0 <= blocks <= 2 ^ 28 -> bytes_ok inp -> bytes_ok ivec -> zlen inp = 16 * blocks -> zlen ivec = 16 ->
  stream inp blocks ivec = ctr32_ref block inp blocks ivec.

Notation key := (CRYPTO_gcm128_init_key block).
Notation h := (hash_key block).
Notation absorb := (absorb h).
Notation zeros := (replicate 16 0).

Lemma hash_key_128 : is_128 h.
Proof using BlockCipher0. destruct (enc_block block dec zeros zero_block) as [Hb Lb]. by apply be_val_128. Qed.
Lemma init_key_table : Htable_at (Htable key) 0 = init_key h.
Proof using BlockCipher0.
  pose proof (ghash_init_table (replicate 16 (U128 0 0)) (block zeros) (enc_block block dec zeros zero_block) ltac:(done)) as E.
  unfold CRYPTO_gcm128_init_key. destruct (CRYPTO_ghash_init _ _). exact E.
Qed.
Lemma mul_key x : is_block x -> GCM_MUL key x = mul_h h x.
Proof using BlockCipher0. apply gcm_mul_spec; [apply hash_key_128|apply init_key_table]. Qed.

(** The standard's hash is the absorbing machine's. *)
Lemma hash_absorb l : bytes_ok l -> zlen l mod 16 = 0 -> absorb (zeros, 0) l = (hash block l, 0).
Proof using BlockCipher0. intros Hl Hm. rewrite absorb_whole by (done || apply hash_key_128). done. Qed.

Lemma flush_block a : bytes_ok a -> is_block (flush h (absorb (zeros, 0) a)).
Proof using BlockCipher0.
  intros Ha. pose proof (absorb_ok h (pad16 a) (pad_bytes a Ha) zeros 0 ltac:(lia) zero_block) as Ho. by rewrite (flush_pad h zeros a Ha zero_block) in Ho.
Qed.
Lemma hash_pad a l : bytes_ok a -> bytes_ok l -> zlen l mod 16 = 0 -> hash block (pad16 a ++ l) = fst (absorb (flush h (absorb (zeros, 0) a), 0) l).
Proof using BlockCipher0.
  intros Ha Hl Hm. assert (Hb : bytes_ok (pad16 a ++ l)) by (apply Forall_app; split; [by apply pad_bytes|done]).
  assert (Hp : zlen (pad16 a ++ l) mod 16 = 0) by (rewrite zlen_app; pose proof (zlen_pad a); zarith).
  pose proof (hash_absorb _ Hb Hp) as E. rewrite absorb_app, (flush_pad h zeros a Ha zero_block) in E. by rewrite E.
Qed.

Lemma setiv_loop_absorb fuel : forall yi iv, is_block yi -> bytes_ok iv -> (length iv <= fuel)%nat ->
  exists yi', setiv_loop fuel key yi iv = (yi', leftover 16 iv) /\ is_block yi' /\ absorb (yi, 0) iv = absorb (yi', 0) (leftover 16 iv).
Proof using BlockCipher0.
  induction fuel as [|fuel IH]; intros yi iv Hy Hi Hf; cbn [setiv_loop].
  - destruct iv; [|cbn in Hf; lia]. by exists yi.
  - destruct (Z.geb_spec (zlen iv) 16) as [Hg|Hg]; [|exists yi; by rewrite leftover_short by lia].
    assert (Hb : is_block (xor_into yi 0 (ztake 16 iv))) by (apply xor_into_block; [done|by apply Forall_ztake|lia|rewrite zlen_ztake; lia]).
    rewrite mul_key by done.
    destruct (IH (mul_h h (xor_into yi 0 (ztake 16 iv))) (zdrop 16 iv)) as (y2 & -> & Hy2 & E).
    { apply be_block. } { by apply Forall_zdrop. } { pose proof (zlen_zdrop 16 iv). unfold zlen in *. lia. }
    assert (El : leftover 16 iv = leftover 16 (zdrop 16 iv)) by (rewrite <- (ztake_zdrop 16 iv) at 1; apply leftover_block; rewrite ?zlen_ztake; lia).
    exists y2. rewrite El. split; [done|]. split; [done|].
    rewrite <- E, <- (ztake_zdrop 16 iv) at 1. rewrite absorb_app, absorb_fill by (rewrite ?zlen_ztake; lia). done.
Qed.
(** The counter block of a nonce. *)
Lemma J0_block iv : bytes_ok iv -> is_block (J0 block iv).
Proof using.
  intros Hi. unfold J0. destruct (Z.eqb_spec (zlen iv) 12) as [E|]; [|apply be_block].
  split; [apply Forall_app; split; [done|]|rewrite zlen_app, E; done]. by apply (bool_decide_eq_true_1 (bytes_ok [0; 0; 0; 1])).
Qed.
Lemma setiv_spec ctx iv : gcm_key ctx = key -> bytes_ok iv -> zlen iv < 2 ^ 61 ->
  CRYPTO_gcm128_setiv block ctx iv = Ctx (inc32 (J0 block iv)) (EKi ctx) (block (J0 block iv)) (0, 0) zeros key 0 0.
Proof using BlockCipher0.
  intros Hk Hi Hl. pose proof (J0_block iv Hi) as HJ. pose proof (zlen_nonneg iv). rewrite <- (proj1 (inc32_put _ HJ)).
  unfold CRYPTO_gcm128_setiv. rewrite Hk. unfold J0 in *. destruct (Z.eqb_spec (zlen iv) 12) as [E|E].
  - assert (E1 : zwrite 15 [1] (zwrite 0 iv zeros) = iv ++ [0; 0; 0; 1]).
    { unfold zwrite at 2. rewrite Z.add_0_l, ztake_0, E. cbn [app]. change (zdrop 12 zeros) with [0; 0; 0; 0]. change [0; 0; 0; 0] with ([0; 0; 0] ++ [0] ++ []).
      rewrite app_assoc, zwrite_mid; [by rewrite <- app_assoc| |done]. by rewrite zlen_app, E. }
    rewrite E1. rewrite (get_ctr_val _ HJ), (zdrop_app 12) by done. done.
  - destruct (setiv_loop_absorb (length iv) zeros iv zero_block Hi (le_n _)) as (yi & -> & Hy & Ha).
    set (lo := leftover 16 iv) in *. pose proof (zlen_leftover 16 ltac:(lia) iv) as Hlo. fold lo in Hlo.
    assert (Hlob : bytes_ok lo) by (by apply Forall_zdrop).
    assert (E1 : (if negb (zlen lo =? 0) then GCM_MUL key (xor_into yi 0 lo) else yi) = flush h (absorb (zeros, 0) iv)).
    { rewrite Ha, absorb_within by lia. unfold flush. cbn [fst snd]. rewrite Z.add_0_l. destruct (Z.eqb_spec (zlen lo) 0) as [E0|E0]; cbn [negb].
      - by apply zlen_zero in E0 as ->.
      - apply mul_key. apply xor_into_block; (done || lia). }
    rewrite E1. set (f := flush h (absorb (zeros, 0) iv)) in *.
    assert (Hf : is_block f) by (by apply flush_block).
    rewrite <- (Z.lxor_0_r (znth (get_u f) 0)), set_u_xor, bit_length by (done || lia).
    assert (E2 : GCM_MUL key (xor_bytes f (le_bytes 8 0 ++ be_bytes 8 (8 * zlen iv))) = hash block (pad16 iv ++ replicate 8 0 ++ be_bytes 8 (8 * zlen iv))).
    { set (L := le_bytes 8 0 ++ be_bytes 8 (8 * zlen iv)).
      assert (HL : is_block L) by (split; [apply Forall_app; split; [apply le_bytes_ok|apply be_bytes_ok]|unfold L; rewrite zlen_app, zlen_be_bytes; done]).
      change (replicate 8 0 ++ be_bytes 8 (8 * zlen iv)) with L. rewrite mul_key by (by apply xor_block).
      rewrite hash_pad by (try done; try apply HL; by rewrite (proj2 HL)). fold f. by rewrite absorb_last. }
    rewrite E2. done.
Qed.

(** One of the four functions: [ctr] says whether it is given the counter-mode function. *)
Definition crypt_call (enc ctr : bool) : GCM128_CONTEXT -> list Z -> Z * list Z * GCM128_CONTEXT :=
  match enc, ctr with
  | true, false => CRYPTO_gcm128_encrypt block
  | false, false => CRYPTO_gcm128_decrypt block
  | true, true => CRYPTO_gcm128_encrypt_ctr32 block stream
  | false, true => CRYPTO_gcm128_decrypt_ctr32 block stream
  end.
(** A nonce, then calls with additional data, then calls with text; [None] when a call fails. *)
Fixpoint aad_calls (ctx : GCM128_CONTEXT) (parts : list (list Z)) : option GCM128_CONTEXT :=
  match parts with
  | [] => Some ctx
  | p :: parts' => let '(ok, ctx) := CRYPTO_gcm128_aad ctx p in if ok =? 1 then aad_calls ctx parts' else None
  end.
Fixpoint text_calls (enc : bool) (ctx : GCM128_CONTEXT) (parts : list (bool * list Z)) : option (list Z * GCM128_CONTEXT) :=
  match parts with
  | [] => Some ([], ctx)
  | (ctr, p) :: parts' =>
      let '(ok, out, ctx) := crypt_call enc ctr ctx p in
      if ok =? 1 then (fun r => (out ++ fst r, snd r)) <$> text_calls enc ctx parts' else None
  end.
Definition gcm_session (enc : bool) (ctx : GCM128_CONTEXT) (iv : list Z) (aads : list (list Z)) (texts : list (bool * list Z)) : option (list Z * GCM128_CONTEXT) :=
  match aad_calls (CRYPTO_gcm128_setiv block ctx iv) aads with
  | Some ctx => text_calls enc ctx texts
  | None => None
  end.

Lemma call_ok enc ctr : exists pass, crypt_call enc ctr = crypt_body block pass enc /\ pass_ok block key h enc pass.
Proof using BlockCipher0 stream_spec.
  destruct enc, ctr; eexists; (split; [reflexivity|]);
    first [apply (pass_stream_ok block dec stream)|apply (pass_blocks_ok block dec stream)]; try done; apply hash_key_128 || apply init_key_table.
Qed.

Context (iv : list Z).
Hypothesis iv_bytes : bytes_ok iv.

(** While additional data is absorbed. *)
Record aad_phase (a : list Z) (c : GCM128_CONTEXT) : Prop := {
  ap_ok : ctx_ok key c 0;
  ap_Yi : Yi c = inc32 (J0 block iv);
  ap_EK0 : EK0 c = block (J0 block iv);
  ap_mres : mres c = 0;
  ap_len : len_u c = (zlen a, 0);
  ap_hash : absorb (zeros, 0) a = (Xi c, ares c)
}.
(** After a call with text: [inp] has become [out]. *)
Record text_phase (enc : bool) (a inp out : list Z) (c : GCM128_CONTEXT) : Prop := {
  tp_ok : ctx_ok key c (mres c);
  tp_EK0 : EK0 c = block (J0 block iv);
  tp_ares : ares c = 0;
  tp_len : len_u c = (zlen a, zlen inp);
  tp_run : exists e, run (gctr_step block) ((inc32 (J0 block iv), []), 0) inp = (((Yi c, e), mres c), out) /\ (mres c <> 0 -> e = EKi c);
  tp_hash : absorb (flush h (absorb (zeros, 0) a), 0) (hashed enc inp out) = (Xi c, mres c)
}.
(** Before the first one, the code has not yet finished the hash of the additional data. *)
Definition text_state (enc : bool) (a inp out : list Z) (c : GCM128_CONTEXT) : Prop :=
  text_phase enc a inp out c \/ (aad_phase a c /\ inp = [] /\ out = []).

Lemma aad_calls_phase parts : forall a c, aad_phase a c -> bytes_ok a -> Forall (Forall is_byte) parts -> zlen (a ++ concat parts) <= 2 ^ 61 ->
  exists c', aad_calls c parts = Some c' /\ aad_phase (a ++ concat parts) c'.
Proof using BlockCipher0.
  induction parts as [|p parts IH]; intros a c Hc Ha Hp Hl; cbn [aad_calls concat].
  - exists c. by rewrite app_nil_r.
  - apply Forall_cons in Hp as [Hp Hps]. pose proof Hc as [[HY HX HE Hk _] H1 H2 H3 H4 H5]. cbn [concat] in Hl. rewrite !zlen_app in Hl.
    pose proof (zlen_nonneg a). pose proof (zlen_nonneg p). pose proof (zlen_nonneg (concat parts)).
    pose proof (absorb_pos h a zeros 0 ltac:(lia)) as Hpos. rewrite H5 in Hpos. cbn [snd] in Hpos.
    rewrite (aad_spec key h hash_key_128 init_key_table) by (rewrite ?H4; cbn [fst snd]; done || zarith). rewrite H4. cbn [fst snd]. change (1 =? 1) with true. cbn match.
    rewrite app_assoc. apply IH; [|by apply Forall_app|done|rewrite !zlen_app; lia]. pose proof (absorb_ok h p Hp (Xi c) (ares c) ltac:(zarith) HX) as Hx.
    constructor; try done.
    + cbn [len_u set_len set_Xi set_ares]. by rewrite zlen_app.
    + rewrite absorb_app, H5. by destruct (absorb (Xi c, ares c) p).
Qed.

Lemma text_call_phase enc ctr a inp out c p : text_state enc a inp out c -> bytes_ok a -> bytes_ok p -> zlen (inp ++ p) <= 2 ^ 36 - 32 ->
  exists o c', crypt_call enc ctr c p = (1, o, c') /\ text_phase enc a (inp ++ p) (out ++ o) c'.
Proof using BlockCipher0 stream_spec iv_bytes.
  intros Hc Ha Hp Hl. destruct (call_ok enc ctr) as (pass & -> & Hpass). rewrite zlen_app in Hl. pose proof (zlen_nonneg inp). pose proof (zlen_nonneg p).
  assert (Hlen : len_u c = (zlen a, zlen inp)) by (destruct Hc as [[]|[[] [-> _]]]; done).
  assert (Hok : ctx_ok key c (mres c)) by (destruct Hc as [[]|[[? ? ? E] _]]; [done|by rewrite E]).
  destruct (body_crypts block dec stream stream_spec key h hash_key_128 init_key_table enc pass c p Hpass Hok Hp) as (o & c' & -> & C); rewrite ?Hlen; cbn [fst snd]; try lia.
  rewrite Hlen in C. cbn [fst snd] in C. set (c0 := set_len c (zlen a, zlen inp + zlen p)) in C.
  assert (Hok0 : ctx_ok key c0 (mres c0)) by (destruct Hok; by constructor).
  destruct (finalize_ok key h hash_key_128 init_key_table c0 Hok0) as (_ & FX & FA).
  assert (Hf : Yi (finalize_aad c0) = Yi c /\ EKi (finalize_aad c0) = EKi c /\ EK0 (finalize_aad c0) = EK0 c /\ len_u (finalize_aad c0) = (zlen a, zlen inp + zlen p))
    by (unfold finalize_aad; by destruct (negb _)).
  set (c1 := finalize_aad c0) in *. destruct Hf as (FY & FE & F0 & FL). change (Xi c0) with (Xi c) in FX. change (ares c0) with (ares c) in FX. clearbody c1. clear c0 Hok0.
  assert (H1 : EK0 c = block (J0 block iv) /\ (exists e, run (gctr_step block) ((inc32 (J0 block iv), []), 0) inp = (((Yi c, e), mres c), out) /\ (mres c <> 0 -> e = EKi c)) /\
    absorb (flush h (absorb (zeros, 0) a), 0) (hashed enc inp out) = (Xi c1, mres c)).
  { rewrite FX. destruct Hc as [[]|[[] [-> ->]]].
    - split; [done|]. split; [done|]. by rewrite tp_hash0, tp_ares0.
    - split; [done|]. rewrite ap_mres0, ap_Yi0, ap_hash0. split; [by exists []|by destruct enc]. }
  destruct H1 as (HK0 & (e & R & He) & Hh). exists o, c'. split; [done|].
  destruct (cr_run _ _ _ _ _ _ _ _ _ _ C e) as (e' & R' & He'); [by rewrite FE|]. rewrite FY in R'. constructor.
  - apply C.
  - by rewrite (cr_EK0 _ _ _ _ _ _ _ _ _ _ C), F0.
  - by rewrite (cr_ares _ _ _ _ _ _ _ _ _ _ C).
  - by rewrite (cr_len _ _ _ _ _ _ _ _ _ _ C), FL, zlen_app.
  - exists e'. split; [|done]. by eapply run_app_eq.
  - replace (hashed enc (inp ++ p) (out ++ o)) with (hashed enc inp out ++ hashed enc p o) by (by destruct enc).
    rewrite absorb_app, Hh. apply C.
Qed.
Lemma text_calls_phase enc parts : forall a inp out c, text_state enc a inp out c -> bytes_ok a -> Forall (fun p => bytes_ok (snd p)) parts ->
  zlen (inp ++ concat (snd <$> parts)) <= 2 ^ 36 - 32 ->
  exists o c', text_calls enc c parts = Some (o, c') /\ text_state enc a (inp ++ concat (snd <$> parts)) (out ++ o) c'.
Proof using BlockCipher0 stream_spec iv_bytes.
  induction parts as [|[ctr p] parts IH]; intros a inp out c Hc Ha Hp Hl; cbn [text_calls fmap list_fmap concat snd] in *.
  - exists [], c. by rewrite !app_nil_r.
  - apply Forall_cons in Hp as [Hp Hps]. cbn [snd] in Hp. pose proof (zlen_nonneg (concat (snd <$> parts))).
    destruct (text_call_phase enc ctr a inp out c p Hc Ha Hp) as (o & c1 & -> & H1); [rewrite !zlen_app in *; lia|]. change (1 =? 1) with true. cbn match.
    destruct (IH a (inp ++ p) (out ++ o) c1 (or_introl H1) Ha Hps) as (o2 & c2 & -> & H2); [by rewrite <- app_assoc|].
    eexists _, c2. split; [done|]. cbn [fst]. by rewrite !app_assoc.
Qed.

(** The text that has gone through. *)
Lemma text_output enc a inp out c : text_state enc a inp out c -> bytes_ok inp ->
  out = crypt block iv inp /\ bytes_ok out /\ zlen out = zlen inp.
Proof using BlockCipher0 iv_bytes.
  intros Hc Hi. destruct (inc32_put _ (J0_block iv iv_bytes)) as [_ Hy]. destruct Hc as [H|(_ & -> & ->)]; [|done].
  destruct (tp_run _ _ _ _ _ H) as (e & R & _). pose proof (gctr_run block dec inp Hi (inc32 (J0 block iv)) [] Hy) as E. rewrite R in E. split; [done|].
  destruct (gctr_run_ok block dec inp Hi (inc32 (J0 block iv)) [] 0 (Yi c) e (mres c) out Hy ltac:(done) ltac:(lia) R) as (Ho & Lo & _). done.
Qed.
Lemma text_hash enc a inp out c : text_state enc a inp out c -> bytes_ok a ->
  (if negb (mres c =? 0) || negb (ares c =? 0) then GCM_MUL (gcm_key c) (Xi c) else Xi c) = flush h (absorb (flush h (absorb (zeros, 0) a), 0) (hashed enc inp out)) /\
  EK0 c = block (J0 block iv) /\ gcm_key c = key /\ len_u c = (zlen a, zlen inp).
Proof using BlockCipher0.
  intros [[[HY HX HE Hk Hn] HK Ha Hl _ Hh]|([[HY HX HE Hk _] _ HK Hm Hl Hh] & -> & ->)] Hb; (split; [|by rewrite ?Hl]); rewrite Hk, mul_key by done.
  - rewrite Hh, Ha. change (0 =? 0) with true. rewrite orb_false_r. unfold flush. cbn [fst snd]. by destruct (mres c =? 0).
  - rewrite Hh, Hm. replace (hashed enc [] []) with (@nil Z) by (by destruct enc). change (0 =? 0) with true. cbn [negb orb]. unfold flush. cbn [fst snd]. change (0 =? 0) with true. cbn match. by destruct (ares c =? 0).
Qed.

Lemma tag_eq a c : tag block iv a c = xor_bytes (hash block (pad16 a ++ pad16 c ++ be_bytes 8 (8 * zlen a) ++ be_bytes 8 (8 * zlen c))) (block (J0 block iv)).
Proof using.
  unfold tag, GCTR, hash. rewrite zlen_be_bytes. change (Z.to_nat ((Z.of_nat 16 + 15) / 16)) with 1%nat. cbn [key_stream]. by rewrite app_nil_r.
Qed.
Lemma tag_block a c : is_block (tag block iv a c).
Proof using BlockCipher0 iv_bytes. rewrite tag_eq. apply xor_block; [apply be_block|]. apply (enc_block block dec), J0_block, iv_bytes. Qed.
Lemma finish_tag enc a inp out c t len : text_state enc a inp out c -> bytes_ok a -> bytes_ok inp -> zlen a < 2 ^ 61 -> zlen inp <= 2 ^ 36 - 32 ->
  Xi (snd (CRYPTO_gcm128_finish c t len)) = tag block iv a (hashed enc inp out).
Proof using BlockCipher0 iv_bytes.
  intros Hc Ha Hi La Li. destruct (text_output enc a inp out c Hc Hi) as (_ & Ho & Lo). destruct (text_hash enc a inp out c Hc Ha) as (Hx & HK & Hk & Hl).
  unfold CRYPTO_gcm128_finish. cbn [snd set_Xi Xi]. rewrite Hl, Hk, HK in *. rewrite Hx. cbn [fst snd]. set (C := hashed enc inp out).
  assert (HC : bytes_ok C /\ zlen C = zlen inp) by (unfold C; by destruct enc). destruct HC as [HC LC]. pose proof (zlen_nonneg a). pose proof (zlen_nonneg inp).
  pose proof (flush_block a Ha) as Hf. set (f := flush h (absorb (zeros, 0) a)) in *.
  assert (Hg : is_block (flush h (absorb (f, 0) C))).
  { pose proof (absorb_ok h (pad16 C) (pad_bytes C HC) f 0 ltac:(lia) Hf) as E. by rewrite (flush_pad h f C HC Hf) in E. }
  rewrite (set_u_xor (flush h (absorb (f, 0) C))), !bit_length by (done || lia). rewrite tag_eq, LC. set (L := be_bytes 8 (8 * zlen a) ++ be_bytes 8 (8 * zlen inp)).
  assert (HL : is_block L) by (split; [apply Forall_app; split; apply be_bytes_ok|unfold L; rewrite zlen_app, !zlen_be_bytes; done]).
  assert (HS : hash block (pad16 a ++ pad16 C ++ L) = mul_h h (xor_bytes (flush h (absorb (f, 0) C)) L)).
  { rewrite hash_pad; [|done|apply Forall_app; split; [by apply pad_bytes|apply HL]|rewrite zlen_app, (proj2 HL); pose proof (zlen_pad C); zarith].
    fold f. by rewrite absorb_app, (flush_pad h f C HC Hf), absorb_last. }
  rewrite HS, mul_key by (by apply xor_block). by rewrite set_u_xor_block; [|apply be_block|apply (enc_block block dec), J0_block, iv_bytes].
Qed.
End session.

(** *** Limits *)

(** Text past the limit of the standard is refused, and nothing has changed. *)
Lemma text_limit block stream enc ctr ctx inp : 0 <= snd (len_u ctx) <= 2 ^ 36 - 32 -> zlen inp < 2 ^ 64 -> 2 ^ 36 - 32 < snd (len_u ctx) + zlen inp ->
  crypt_call block stream enc ctr ctx inp = (0, [], ctx).
Proof.
  intros Hs Hi Hl. assert (E : message_len ctx (zlen inp) = None).
  { unfold message_len. change (Z.shiftl 1 36 - 32) with (2 ^ 36 - 32). pose proof (zlen_nonneg inp). unfold u64.
    destruct (Z.lt_ge_cases (snd (len_u ctx) + zlen inp) (2 ^ 64)).
    - rewrite Z.mod_small, Z.gtb_ltb, (proj2 (Z.ltb_lt (2 ^ 36 - 32) _)) by lia. done.
    - replace ((snd (len_u ctx) + zlen inp) mod 2 ^ 64) with (snd (len_u ctx) + zlen inp - 2 ^ 64) by (rewrite <- (Z.mod_small (_ - _) (2 ^ 64)) by lia; by rewrite <- Zminus_mod_idemp_r, Z.mod_same, Z.sub_0_r by lia).
      rewrite (proj2 (Z.ltb_lt _ (zlen inp))) by lia. by rewrite orb_true_r. }
  destruct enc, ctr; cbn [crypt_call]; unfold CRYPTO_gcm128_encrypt, CRYPTO_gcm128_decrypt, CRYPTO_gcm128_encrypt_ctr32, CRYPTO_gcm128_decrypt_ctr32, crypt_body; by rewrite E.
Qed.
(** So is additional data after text, or past 2^61 bytes. *)
Lemma aad_refused ctx aad : 0 <= fst (len_u ctx) <= 2 ^ 61 -> zlen aad < 2 ^ 64 -> snd (len_u ctx) <> 0 \/ 2 ^ 61 < fst (len_u ctx) + zlen aad ->
  CRYPTO_gcm128_aad ctx aad = (0, ctx).
Proof.
  intros Hf Ha Hr. unfold CRYPTO_gcm128_aad. destruct (Z.eqb_spec (snd (len_u ctx)) 0) as [E|E]; cbn [negb]; [|done].
  destruct Hr as [Hr|Hr]; [done|]. change (Z.shiftl 1 61) with (2 ^ 61). pose proof (zlen_nonneg aad). unfold u64.
  destruct (Z.lt_ge_cases (fst (len_u ctx) + zlen aad) (2 ^ 64)).
  - rewrite Z.mod_small, Z.gtb_ltb, (proj2 (Z.ltb_lt (2 ^ 61) _)) by lia. done.
  - replace ((fst (len_u ctx) + zlen aad) mod 2 ^ 64) with (fst (len_u ctx) + zlen aad - 2 ^ 64) by (rewrite <- (Z.mod_small (_ - _) (2 ^ 64)) by lia; by rewrite <- Zminus_mod_idemp_r, Z.mod_same, Z.sub_0_r by lia).
    rewrite (proj2 (Z.ltb_lt _ (zlen aad))) by lia. by rewrite orb_true_r.
Qed.
(** Exactly 2^61 bytes are accepted, one more than the standard allows; their length in
    bits is hashed as 0. *)
Lemma aad_limit_wraps ctx b : len_u ctx = (2 ^ 61 - 1, 0) ->
  fst (CRYPTO_gcm128_aad ctx [b]) = 1 /\ fst (len_u (snd (CRYPTO_gcm128_aad ctx [b]))) = 2 ^ 61 /\ u64 (Z.shiftl (2 ^ 61) 3) = 0.
Proof.
  intros Hl. unfold CRYPTO_gcm128_aad. rewrite Hl. cbn [fst snd]. change (negb (0 =? 0)) with false. change (zlen [b]) with 1. change (u64 (2 ^ 61 - 1 + 1)) with (2 ^ 61).
  change ((2 ^ 61 >? Z.shiftl 1 61) || (2 ^ 61 <? 1)) with false. cbn match. set (c := set_len ctx (2 ^ 61, 0)).
  assert (R : forall x l n, len_u x = (2 ^ 61, 0) -> fst (aad_rest x l n) = 1 /\ len_u (snd (aad_rest x l n)) = (2 ^ 61, 0)).
  { intros x l n Hx. unfold aad_rest. cbv zeta. destruct (negb (Z.land (zlen l) kSizeTWithoutLower4Bits =? 0)); destruct (negb _); done. }
  destruct (negb (ares c =? 0)).
  - destruct (aad_head (Xi c) [b] (ares c)) as [[x l] n]. destruct (n =? 0); [|done].
    destruct (R (set_Xi (set_Xi c x) (GCM_MUL (gcm_key (set_Xi c x)) (Xi (set_Xi c x)))) l n) as [-> ->]; done.
  - destruct (R c [b] (ares c)) as [-> ->]; done.
Qed.

(** C15. The streaming GCM computes SP 800-38D. After a nonce of any length below 2^61,
    additional data in calls of any lengths and text in calls of any lengths, with or
    without a counter-mode function, all calls succeed; the outputs are together the
    encryption (or decryption) of the text under the standard's counter blocks; the tag
    is the standard's tag of the nonce, the data and the ciphertext, cut to the length
    that is asked for; and [CRYPTO_gcm128_finish] accepts a tag exactly when it has at
    most 16 bytes and equals that one. The block cipher and the counter-mode function
    are the caller's: any that meet their contracts. *)
Theorem gcm_correct (block dec : list Z -> list Z) `{!BlockCipher block dec} (stream : list Z -> Z -> list Z -> list Z) :
  (forall inp blocks ivec, 0 <= blocks <= 2 ^ 28 -> bytes_ok inp -> bytes_ok ivec -> zlen inp = 16 * blocks -> zlen ivec = 16 -> stream inp blocks ivec = ctr32_ref block inp blocks ivec) ->
  forall enc ctx iv aads texts, gcm_key ctx = CRYPTO_gcm128_init_key block -> zlen (EKi ctx) = 16 -> bytes_ok (EKi ctx) -> bytes_ok iv -> zlen iv < 2 ^ 61 ->
  Forall (Forall is_byte) aads -> zlen (concat aads) < 2 ^ 61 -> Forall (fun p => bytes_ok (snd p)) texts -> zlen (concat (snd <$> texts)) <= 2 ^ 36 - 32 ->
  exists out ctx', gcm_session block stream enc ctx iv aads texts = Some (out, ctx') /\
    out = crypt block iv (concat (snd <$> texts)) /\
    let T := tag block iv (concat aads) (if enc then out else concat (snd <$> texts)) in
    (forall len, fst (CRYPTO_gcm128_tag ctx' len) = ztake (Z.min len 16) T) /\
    (forall t len, bytes_ok t -> 0 <= len <= zlen t -> fst (CRYPTO_gcm128_finish ctx' (Some t) len) = if (len <=? 16) && bool_decide (ztake len t = ztake len T) then 1 else 0).
Proof.
  intros Hs enc ctx iv aads texts Hk LE HE Hi Li Ha La Ht Lt. unfold gcm_session. rewrite (setiv_spec block dec) by done.
  set (c0 := Ctx _ _ _ _ _ _ _ _). assert (H0 : aad_phase block iv [] c0).
  { constructor; try done. constructor; try done. by apply inc32_put, J0_block. }
  destruct (aad_calls_phase block dec iv aads [] c0 H0 ltac:(done) Ha) as (c1 & -> & H1); [cbn [app]; lia|]. cbn [app] in H1.
  assert (Hab : bytes_ok (concat aads)) by (by apply Forall_concat).
  destruct (text_calls_phase block dec stream Hs iv Hi enc texts (concat aads) [] [] c1) as (out & c2 & -> & H2); [by right|done|done|done|]. cbn [app] in H2.
  set (inp := concat (snd <$> texts)) in *. assert (Hib : bytes_ok inp) by (apply Forall_concat, Forall_fmap; done).
  destruct (text_output block dec iv Hi enc (concat aads) inp out c2 H2 Hib) as (Eo & Ho & _).
  exists out, c2. split; [done|]. split; [done|]. cbv zeta. set (T := tag block iv (concat aads) (if enc then out else inp)).
  assert (HT : forall t len, Xi (snd (CRYPTO_gcm128_finish c2 t len)) = T) by (intros t len; by apply (finish_tag block dec)).
  split.
  - intros len. unfold CRYPTO_gcm128_tag. specialize (HT None 0). destruct (CRYPTO_gcm128_finish c2 None 0) as [r c3]. cbn [fst snd] in *. rewrite HT.
    f_equal. destruct (Z.leb_spec len 16); lia.
  - intros t len Htb Hlen. specialize (HT (Some t) len). unfold CRYPTO_gcm128_finish in *. cbn [fst snd set_Xi Xi] in *. rewrite HT.
    destruct (Z.leb_spec len 16) as [Hle|Hle]; [|done]. cbn [andb].
    destruct (tag_block block dec iv Hi (concat aads) (if enc then out else inp)) as [HTb LT]. fold T in HTb, LT.
    assert (E : CRYPTO_memcmp (ztake len T) (ztake len t) = 0 <-> ztake len T = ztake len t).
    { apply memcmp_zero; [by apply Forall_ztake|by apply Forall_ztake|]. pose proof (zlen_ztake len T). pose proof (zlen_ztake len t). unfold zlen in *. lia. }
    case_bool_decide as Ed; [by rewrite (proj2 E)|]. destruct (Z.eqb_spec (CRYPTO_memcmp (ztake len T) (ztake len t)) 0) as [E0|]; [|done]. destruct Ed. symmetry. by apply E.
Qed.

Lemma gcm_correct_witness :
  let k := snd (AES_set_encrypt_key (zseq 16) 128 blank_key) in
  let block x := AES_encrypt x k in
  let stream inp blocks ivec := aes_nohw_ctr32_encrypt_blocks inp blocks k ivec in
  let ctx := Ctx [] (replicate 16 0) [] (0, 0) [] (CRYPTO_gcm128_init_key block) 0 0 in
  let aads := [zseq 5; zseq 20] in
  let texts := [(false, zseq 7); (true, zseq 45); (false, []); (true, zseq 3)] in
  exists out ctx', gcm_session block stream true ctx (zseq 8) aads texts = Some (out, ctx') /\
    out = crypt block (zseq 8) (concat (snd <$> texts)) /\
    let T := tag block (zseq 8) (concat aads) out in
    (forall len, fst (CRYPTO_gcm128_tag ctx' len) = ztake (Z.min len 16) T) /\
    (forall t len, bytes_ok t -> 0 <= len <= zlen t -> fst (CRYPTO_gcm128_finish ctx' (Some t) len) = if (len <=? 16) && bool_decide (ztake len t = ztake len T) then 1 else 0).
Proof.
  intros k block stream ctx aads texts. assert (Hz : forall n, bytes_ok (zseq n) <-> bool_decide (bytes_ok (zseq n)) = true) by (intros n; by rewrite bool_decide_eq_true).
  destruct (set_key_spec (zseq 16) 128 blank_key) as [_ Hs]; [by left|by apply Hz|done|done|].
  apply (gcm_correct block (fun x => AES_decrypt x k) (BlockCipher0 := aes_block_cipher (zseq 16) k Hs ltac:(done)) stream) with (enc := true).
  - intros inp blocks ivec. by apply (ctr32_blocks_ref (zseq 16)).
  - done.
  - done.
  - by apply Forall_replicate.
  - by apply Hz.
  - done.
  - repeat (apply Forall_cons; split; [first [by apply Hz|by apply Forall_nil]|]). by apply Forall_nil.
  - done.
  - repeat (apply Forall_cons; split; [first [by apply Hz|by apply Forall_nil]|]). by apply Forall_nil.
  - done.
Defined.
