(* ===== verification/Polyval.v ===== *)
(** * POLYVAL (fipsmodule/modes/polyval.c).

    The universal hash of AES-GCM-SIV, computed with the one of GCM, is the function of
    RFC 8452. *)

From S2P Require Import Prelude Blocks Mem Linear Clmul Ghash Gcm GcmCorrect.

(** ** The code *)

(** A [polyval_block] is its 16 bytes. *)
Definition byte_reverse (b : list Z) : list Z :=
  let t := CRYPTO_bswap8 (znth (get_u b) 0) in
  set_u [CRYPTO_bswap8 (znth (get_u b) 1); t].

Definition reverse_and_mulX_ghash (b : list Z) : list Z :=
  let hi := znth (get_u b) 0 in
  let lo := znth (get_u b) 1 in
  let carry := constant_time_eq_w (Z.land hi 1) 1 in
  let hi := Z.shiftr hi 1 in
  let hi := Z.lor hi (u64 (Z.shiftl lo 63)) in
  let lo := Z.shiftr lo 1 in
  let lo := Z.lxor lo (u64 (Z.shiftl (constant_time_select_w carry 0xe1 0) 56)) in
  set_u [CRYPTO_bswap8 lo; CRYPTO_bswap8 hi].

(** [gmult] and [ghash] are the functions of gcm_nohw.c. *)
Record polyval_ctx := PolyvalCtx { pv_S : list Z; pv_H : u128; pv_Htable : list u128 }.

(** [table] is what [Htable] held. *)
Definition CRYPTO_POLYVAL_init (table : list u128) (key : list Z) : polyval_ctx :=
  let H := reverse_and_mulX_ghash (ztake 16 key) in
  let '(k, table) := CRYPTO_ghash_init table H in
  PolyvalCtx (replicate 16 0) k table.

(** [for (size_t i = 0; i < blocks; i++) byte_reverse(&reversed[i]);] *)
Fixpoint reverse_blocks (blocks : nat) (reversed : list Z) : list Z :=
  match blocks with
  | O => []
  | S blocks' => byte_reverse (ztake 16 reversed) ++ reverse_blocks blocks' (zdrop 16 reversed)
  end.
(** [while (in_len > 0)] *)
Fixpoint update_loop (fuel : nat) (S : list Z) (table : list u128) (inp : list Z) (in_len : Z) : list Z :=
  match fuel with
  | O => S
  | Datatypes.S fuel' =>
      if in_len >? 0 then
        let todo := in_len in
        let todo := if todo >? 16 * 32 then 16 * 32 else todo in
        let reversed := ztake todo inp in
        let blocks := todo / 16 in
        let reversed := reverse_blocks (Z.to_nat blocks) reversed in
        let S := set_u (gcm_ghash_nohw (get_u S) table reversed todo) in
        update_loop fuel' S table (zdrop todo inp) (in_len - todo)
      else S
  end.
Definition CRYPTO_POLYVAL_update_blocks (ctx : polyval_ctx) (inp : list Z) : polyval_ctx :=
  PolyvalCtx (update_loop (length inp) (pv_S ctx) (pv_Htable ctx) inp (zlen inp)) (pv_H ctx) (pv_Htable ctx).
Definition CRYPTO_POLYVAL_finish (ctx : polyval_ctx) : list Z := byte_reverse (pv_S ctx).

(** ** RFC 8452 *)

Module Rfc8452.
(** x^128 + x^127 + x^126 + x^121 + 1; bit i of a number is the coefficient of x^i. *)
Definition P : Z := 2 ^ 128 + 2 ^ 127 + 2 ^ 126 + 2 ^ 121 + 1.
(** Division by x in the field. *)
Definition divx (V : Z) : Z := (if Z.odd V then Z.lxor V P else V) / 2.
(** The sum of x^(i - n) * V for the bits i of [a] below [n], where [V] is divided by x
    once for every bit from the highest one on. *)
Fixpoint dot_bits (n : nat) (a V : Z) : Z :=
  match n with
  | O => 0
  | S n' => Z.lxor (if Z.testbit a (Z.of_nat n') then V else 0) (dot_bits n' a (divx V))
  end.
(** dot(a, b) = a * b * x^-128 *)
Definition dot (a b : Z) : Z := dot_bits 128 a (divx b).
Definition POLYVAL (H : Z) (blocks : list (list Z)) : Z := fold_left (fun S X => dot (Z.lxor S (le_val X)) H) blocks 0.
End Rfc8452.
Import Rfc8452.

(** The example of appendix A. *)
Example polyval_example :
  let key := be_bytes 16 0x25629347589242761d31f826ba4b757b in
  let text := be_bytes 32 0x4f4f95668c83dfb6401762bb2d01a262d1a24ddd2721d006bbe45f20d3c9f362 in
  CRYPTO_POLYVAL_finish (CRYPTO_POLYVAL_update_blocks (CRYPTO_POLYVAL_init (replicate 16 (U128 0 0)) key) text) = be_bytes 16 0xf7a3b47b846119fae5b7866cf5e5b77e /\
  le_bytes 16 (POLYVAL (le_val key) (chunks 16 text)) = be_bytes 16 0xf7a3b47b846119fae5b7866cf5e5b77e.
Proof. vm_compute. done. Qed.

(** ** The field *)

Lemma divx_halve V : divx V = Sp38d.halve V.
Proof.
  unfold divx, Sp38d.halve. destruct (Z.odd V) eqn:E; [|done]. rewrite div2_lxor. done.
Qed.
(** Half of a block of GHASH is the quotient by x of the reversed block. *)
Lemma dot_mul a b : dot a b = Sp38d.mul a (Sp38d.halve b).
Proof.
  assert (H : forall n a V, dot_bits n a V = Sp38d.mul_bits n a V).
  { induction n as [|n IH]; intros c V; [done|]. cbn [dot_bits Sp38d.mul_bits]. by rewrite IH, divx_halve. }
  unfold dot, Sp38d.mul. by rewrite H, divx_halve.
Qed.
Lemma halve_128 v : is_128 v -> is_128 (Sp38d.halve v).
Proof.
  intros [H0 H1]. assert (is_128 (v / 2)) by (split; [zarith|apply Z.div_lt_upper_bound; lia]).
  unfold Sp38d.halve. destruct (Z.odd v); [|done]. apply lxor_128; done.
Qed.

(** ** Reversed blocks *)

Lemma set_u_words v : is_128 v -> set_u (words128 v) = le_bytes 16 v.
Proof.
  intros Hv. unfold set_u, words128. change (znth [?a; ?b] 0) with a. change (znth [?a; ?b] 1) with b.
  rewrite (le_bytes_add 8 8), Z.shiftr_div_pow2 by lia. f_equal. apply (le_bytes_mod 8).
Qed.
Lemma byte_reverse_rev b : is_block b -> byte_reverse b = rev b.
Proof.
  intros Hb. pose proof Hb as [Hok Hl]. unfold byte_reverse. cbv zeta. rewrite swap_get_u, set_u_words by (done || by apply be_val_128).
  rewrite <- (rev_involutive (le_bytes 16 _)), <- be_bytes_rev. f_equal. by apply block_val.
Qed.
Lemma rev_block b : is_block b -> is_block (rev b) /\ be_val (rev b) = le_val b.
Proof. intros [Hb Hl]. split; [|apply be_val_rev]. split; [by apply Forall_rev|]. unfold zlen in *. by rewrite length_rev. Qed.
Lemma le_val_128 b : is_block b -> is_128 (le_val b).
Proof. intros Hb. destruct (rev_block b Hb) as [[H1 H2] <-]. by apply be_val_128. Qed.

Lemma reverse_mulX b : is_block b -> reverse_and_mulX_ghash b = be_bytes 16 (Sp38d.halve (le_val b)).
Proof.
  intros Hb. pose proof Hb as [Hok Hl]. pose proof (le_val_128 b Hb) as Hv. set (v := le_val b) in *.
  assert (L1 : zlen (ztake 8 b) = 8) by (rewrite zlen_ztake; lia). assert (L2 : zlen (zdrop 8 b) = 8) by (rewrite zlen_zdrop; lia).
  assert (B1 : 0 <= le_val (ztake 8 b) < 2 ^ 64) by (pose proof (le_val_range (ztake 8 b) ltac:(by apply Forall_ztake)) as R; by rewrite L1 in R).
  assert (B2 : 0 <= le_val (zdrop 8 b) < 2 ^ 64) by (pose proof (le_val_range (zdrop 8 b) ltac:(by apply Forall_zdrop)) as R; by rewrite L2 in R).
  assert (Ev : v = le_val (ztake 8 b) + 2 ^ 64 * le_val (zdrop 8 b)) by (unfold v; rewrite <- (ztake_zdrop 8 b) at 1; rewrite le_val_app, L1; done).
  rewrite <- set_u_swap by (by apply halve_128). unfold reverse_and_mulX_ghash. cbv zeta. rewrite get_u_0, get_u_1.
  set (x := le_val (ztake 8 b)) in *. set (y := le_val (zdrop 8 b)) in *. clearbody x y v. subst v.
  assert (Eo : Z.odd (x + 2 ^ 64 * y) = Z.odd x) by (change (2 ^ 64) with (2 * 2 ^ 63); rewrite <- Z.mul_assoc, Z.odd_add_mul_2; done).
  assert (Ec : constant_time_select_w (constant_time_eq_w (Z.land x 1) 1) 0xe1 0 = if Z.odd x then 0xe1 else 0).
  { change 1 with (Z.ones 1) at 1. rewrite Z.land_ones by lia. change (2 ^ 1) with 2. rewrite Zmod_odd, eq_w_mask, select_w_mask by (destruct (Z.odd x); unfold is_word; lia). by destruct (Z.odd x). }
  rewrite Ec. assert (Eh : Sp38d.halve (x + 2 ^ 64 * y) = Z.lxor (x / 2 + 2 ^ 63 * y) (if Z.odd x then Sp38d.R else 0)).
  { unfold Sp38d.halve. rewrite Eo. replace ((x + 2 ^ 64 * y) / 2) with (x / 2 + 2 ^ 63 * y) by zarith. destruct (Z.odd x); [done|by rewrite Z.lxor_0_r]. }
  rewrite Eh. assert (E0 : words128 (Z.lxor (x / 2 + 2 ^ 63 * y) (if Z.odd x then Sp38d.R else 0)) =
    [Z.lor (Z.shiftr x 1) (u64 (Z.shiftl y 63)); Z.lxor (Z.shiftr y 1) (u64 (Z.shiftl (if Z.odd x then 0xe1 else 0) 56))]).
  { unfold words128. rewrite u64_lxor, Z.shiftr_lxor. f_equal; [|f_equal].
    - replace (u64 (if Z.odd x then Sp38d.R else 0)) with 0 by (by destruct (Z.odd x)). rewrite Z.lxor_0_r, !Z.shiftr_div_pow2, Z.shiftl_mul_pow2 by lia.
      assert (Em : u64 (y * 2 ^ 63) = y mod 2 * 2 ^ 63) by (unfold u64; zarith). rewrite Z.lor_comm, Em, (lor_add_mul 63) by zarith. unfold u64. zarith.
    - f_equal; [rewrite !Z.shiftr_div_pow2 by lia; zarith|by destruct (Z.odd x)]. }
  by rewrite E0.
Qed.

(** ** The hash *)

Definition polyval_step (H : Z) (S : Z) (X : list Z) : Z := dot (Z.lxor S (le_val X)) H.
Lemma step_rev H S X : is_block X -> Sp38d.ghash_step (Sp38d.halve H) S (rev X) = polyval_step H S X.
Proof. intros HX. unfold Sp38d.ghash_step, polyval_step. by rewrite (proj2 (rev_block X HX)), dot_mul. Qed.

Lemma reverse_blocks_spec H n : forall l v, bytes_ok l -> zlen l = 16 * Z.of_nat n ->
  bytes_ok (reverse_blocks n l) /\ zlen (reverse_blocks n l) = zlen l /\
  fold_left (Sp38d.ghash_step (Sp38d.halve H)) (chunks 16 (reverse_blocks n l)) v = fold_left (polyval_step H) (chunks 16 l) v.
Proof.
  induction n as [|n IH]; intros l v Hl Hz; cbn [reverse_blocks].
  - apply zlen_zero in Hz as ->. done.
  - assert (Hb : is_block (ztake 16 l)) by (split; [by apply Forall_ztake|rewrite zlen_ztake; lia]).
    destruct (rev_block _ Hb) as [Hr _]. rewrite byte_reverse_rev by done.
    destruct (IH (zdrop 16 l) (polyval_step H v (ztake 16 l))) as (H1 & H2 & H3); [by apply Forall_zdrop|rewrite zlen_zdrop; lia|].
    split; [apply Forall_app; split; [apply Hr|done]|]. split; [rewrite zlen_app, H2, (proj2 Hr), zlen_zdrop; lia|].
    rewrite <- (ztake_zdrop 16 l) at 3. rewrite !chunks_block by (apply Hr || apply Hb || lia). cbn [fold_left]. by rewrite step_rev.
Qed.

Section update.
Context (table : list u128) (H : Z).
Hypothesis H_128 : is_128 H.
Hypothesis Htable : Htable_at table 0 = init_key (Sp38d.halve H).

Lemma update_loop_spec fuel : forall v inp, is_128 v -> bytes_ok inp -> zlen inp mod 16 = 0 -> (length inp <= fuel)%nat ->
  exists w, update_loop fuel (be_bytes 16 v) table inp (zlen inp) = be_bytes 16 w /\ is_128 w /\ w = fold_left (polyval_step H) (chunks 16 inp) v.
Proof using H_128 Htable.
  induction fuel as [|fuel IH]; intros v inp Hv Hi Hm Hf; cbn [update_loop].
  - destruct inp; [|cbn in Hf; lia]. by exists v.
  - pose proof (zlen_nonneg inp). rewrite Z.gtb_ltb. destruct (Z.ltb_spec 0 (zlen inp)) as [Hp|Hp].
    2: { exists v. by rewrite chunks_short by lia. }
    set (todo := if zlen inp >? 16 * 32 then 16 * 32 else zlen inp).
    assert (Ht : 0 < todo <= zlen inp /\ todo mod 16 = 0) by (unfold todo; rewrite Z.gtb_ltb; destruct (Z.ltb_spec (16 * 32) (zlen inp)); zarith). clearbody todo.
    assert (Hz : zlen (ztake todo inp) = todo) by (rewrite zlen_ztake; lia).
    destruct (reverse_blocks_spec H (Z.to_nat (todo / 16)) (ztake todo inp) v) as (R1 & R2 & R3); [by apply Forall_ztake|rewrite Hz; zarith|].
    pose proof (halve_128 H H_128) as Hh. set (r := reverse_blocks _ _) in *. rewrite Hz in R2.
    pose proof (ghash_correct table (Sp38d.halve H) Hh Htable (be_bytes 16 v) r (be_bytes_ok 16 v) (zlen_be_bytes 16 v) R1 ltac:(rewrite R2; apply Ht)) as G.
    rewrite R2, (val_block v Hv), R3 in G. rewrite G. set (w := fold_left _ _ v).
    assert (Hw : is_128 w) by (unfold w; rewrite <- R3; by apply fold_128).
    destruct (IH w (zdrop todo inp) Hw) as (u & E & Hu & Eu); [by apply Forall_zdrop|rewrite zlen_zdrop; zarith|pose proof (zlen_zdrop todo inp); unfold zlen in *; lia|].
    exists u. replace (zlen inp - todo) with (zlen (zdrop todo inp)) by (rewrite zlen_zdrop; lia). split; [done|]. split; [done|].
    rewrite Eu. unfold w. rewrite <- fold_left_app. f_equal. rewrite <- (ztake_zdrop todo inp) at 3. rewrite chunks_app by lia. f_equal.
    assert (leftover 16 (ztake todo inp) = []) as ->; [|done]. apply zlen_zero. rewrite zlen_leftover_mod, Hz by lia. apply Ht.
Qed.
End update.

(** C16. The code hashes with POLYVAL of RFC 8452: the key set up by [CRYPTO_POLYVAL_init],
    in any table, and a message of whole blocks, in any number of calls of
    [CRYPTO_POLYVAL_update_blocks] of any number of blocks, give the 16 bytes of the
    standard's field element, although the code computes in GHASH's field, on reversed
    blocks. *)
Theorem POLYVAL_correct key table parts : is_block key -> table <> [] -> Forall (fun p => bytes_ok p /\ zlen p mod 16 = 0) parts ->
  CRYPTO_POLYVAL_finish (fold_left CRYPTO_POLYVAL_update_blocks parts (CRYPTO_POLYVAL_init table key)) = le_bytes 16 (POLYVAL (le_val key) (chunks 16 (concat parts))).
Proof.
  intros Hk Ht Hp. pose proof (le_val_128 key Hk) as Hv. set (h := le_val key) in *. pose proof (halve_128 h Hv) as Hh.
  assert (Ei : exists T k, CRYPTO_POLYVAL_init table key = PolyvalCtx (be_bytes 16 0) k T /\ Htable_at T 0 = init_key (Sp38d.halve h)).
  { unfold CRYPTO_POLYVAL_init. rewrite (ztake_all 16) by (rewrite (proj2 Hk); lia). rewrite reverse_mulX by done. fold h.
    pose proof (ghash_init_table table (be_bytes 16 (Sp38d.halve h)) (be_block _) Ht) as E. rewrite val_block in E by done.
    destruct (CRYPTO_ghash_init _ _) as [k T]. by exists T, k. }
  destruct Ei as (T & k & -> & ET). assert (G : forall v, is_128 v -> CRYPTO_POLYVAL_finish (fold_left CRYPTO_POLYVAL_update_blocks parts (PolyvalCtx (be_bytes 16 v) k T)) =
    le_bytes 16 (fold_left (polyval_step h) (chunks 16 (concat parts)) v)); [|by apply (G 0)].
  induction Hp as [|p parts [Hp Hm] Hps IH]; intros v Hw; cbn [fold_left concat].
  - unfold CRYPTO_POLYVAL_finish. cbn [pv_S]. rewrite byte_reverse_rev by apply be_block. by rewrite be_bytes_rev, rev_involutive.
  - unfold CRYPTO_POLYVAL_update_blocks at 2. cbn [pv_S pv_Htable pv_H].
    destruct (update_loop_spec T h Hv ET (length p) v p Hw Hp Hm (le_n _)) as (w & -> & Hw' & ->). rewrite IH by done.
    f_equal. rewrite chunks_app by lia. assert (leftover 16 p = []) as -> by (apply zlen_zero; by rewrite zlen_leftover_mod by lia).
    cbn [app]. by rewrite fold_left_app.
Qed.

Lemma POLYVAL_correct_witness :
  let parts := [replicate 544 7; []; zseq 16] in
  CRYPTO_POLYVAL_finish (fold_left CRYPTO_POLYVAL_update_blocks parts (CRYPTO_POLYVAL_init (replicate 16 (U128 0 0)) (zseq 16))) =
  le_bytes 16 (POLYVAL (le_val (zseq 16)) (chunks 16 (concat parts))).
Proof.
  assert (Hz : bytes_ok (zseq 16)) by (by apply (bool_decide_eq_true_1 (bytes_ok (zseq 16)))).
  apply (POLYVAL_correct (zseq 16) (replicate 16 (U128 0 0))); [by split|done|].
  repeat (apply Forall_cons; split; [split; [first [done|by apply Forall_replicate|by apply Forall_nil]|done]|]). by apply Forall_nil.
Defined.
