(* ===== verification/Sha256.v ===== *)
(** * SHA-224 and SHA-256 (fipsmodule/sha/sha256.c).

    [sha256_block_data_order] keeps the last 16 words of the message schedule
    in a circular array and renames the working variables instead of moving
    them. Module [Fips] states the function as FIPS 180-4 does, with the
    constants as roots of primes; the two are equal, and the streaming
    interface hashes the concatenation of its pieces. *)

From S2P Require Import Prelude Blocks Mem Collector Md32 Schedule.

Definition SHA256_CBLOCK : Z := 64.
Definition SHA224_DIGEST_LENGTH : Z := 28.
Definition SHA256_DIGEST_LENGTH : Z := 32.

(** [sha_state] holds the fields [h], [Nl], [Nh], [data] and [num]. *)
Record SHA256_CTX := Sha256Ctx { sha_state : md32; sha_md_len : Z }.

Definition K256 : list Z :=
  [0x428a_2f98; 0x7137_4491; 0xb5c0_fbcf; 0xe9b5_dba5; 0x3956_c25b; 0x59f1_11f1; 0x923f_82a4; 0xab1c_5ed5;
   0xd807_aa98; 0x1283_5b01; 0x2431_85be; 0x550c_7dc3; 0x72be_5d74; 0x80de_b1fe; 0x9bdc_06a7; 0xc19b_f174;
   0xe49b_69c1; 0xefbe_4786; 0x0fc1_9dc6; 0x240c_a1cc; 0x2de9_2c6f; 0x4a74_84aa; 0x5cb0_a9dc; 0x76f9_88da;
   0x983e_5152; 0xa831_c66d; 0xb003_27c8; 0xbf59_7fc7; 0xc6e0_0bf3; 0xd5a7_9147; 0x06ca_6351; 0x1429_2967;
   0x27b7_0a85; 0x2e1b_2138; 0x4d2c_6dfc; 0x5338_0d13; 0x650a_7354; 0x766a_0abb; 0x81c2_c92e; 0x9272_2c85;
   0xa2bf_e8a1; 0xa81a_664b; 0xc24b_8b70; 0xc76c_51a3; 0xd192_e819; 0xd699_0624; 0xf40e_3585; 0x106a_a070;
   0x19a4_c116; 0x1e37_6c08; 0x2748_774c; 0x34b0_bcb5; 0x391c_0cb3; 0x4ed8_aa4a; 0x5b9c_ca4f; 0x682e_6ff3;
   0x748f_82ee; 0x78a5_636f; 0x84c8_7814; 0x8cc7_0208; 0x90be_fffa; 0xa450_6ceb; 0xbef9_a3f7; 0xc671_78f2].

Definition Sigma0 (x : Z) : Z := Z.lxor (Z.lxor (CRYPTO_rotr_u32 x 2) (CRYPTO_rotr_u32 x 13)) (CRYPTO_rotr_u32 x 22).
Definition Sigma1 (x : Z) : Z := Z.lxor (Z.lxor (CRYPTO_rotr_u32 x 6) (CRYPTO_rotr_u32 x 11)) (CRYPTO_rotr_u32 x 25).
Definition sigma0 (x : Z) : Z := Z.lxor (Z.lxor (CRYPTO_rotr_u32 x 7) (CRYPTO_rotr_u32 x 18)) (Z.shiftr x 3).
Definition sigma1 (x : Z) : Z := Z.lxor (Z.lxor (CRYPTO_rotr_u32 x 17) (CRYPTO_rotr_u32 x 19)) (Z.shiftr x 10).

Definition Ch (x y z : Z) : Z := Z.lxor (Z.land x y) (Z.land (u32 (Z.lnot x)) z).
Definition Maj (x y z : Z) : Z := Z.lxor (Z.lxor (Z.land x y) (Z.land x z)) (Z.land y z).

(** The new values of [d] and [h]. *)
Definition ROUND_00_15 (i T1 a b c d e f g h : Z) : Z * Z :=
  let T1 := u32 (T1 + (h + Sigma1 e + Ch e f g + znth K256 i)) in
  let h := u32 (Sigma0 a + Maj a b c) in
  let d := u32 (d + T1) in
  let h := u32 (h + T1) in
  (d, h).

(** The new values of [d], [h] and [X]. *)
Definition ROUND_16_63 (i a b c d e f g h : Z) (X : list Z) : Z * Z * list Z :=
  let s0 := sigma0 (znth X (Z.land (i + 1) 0x0f)) in
  let s1 := sigma1 (znth X (Z.land (i + 14) 0x0f)) in
  let T1 := u32 (znth X (Z.land i 0x0f) + (s0 + s1 + znth X (Z.land (i + 9) 0x0f))) in
  let X := <[Z.to_nat (Z.land i 0x0f) := T1]> X in
  let '(d, h) := ROUND_00_15 i T1 a b c d e f g h in
  (d, h, X).

(** [T1 = X[i] = CRYPTO_load_u32_be(data); data += 4;] *)
Definition sha256_load (i : Z) (X data : list Z) : Z * list Z * list Z :=
  let T1 := CRYPTO_load_u32_be data in
  (T1, <[Z.to_nat i := T1]> X, zdrop 4 data).

(** The working variables [a] to [h]. *)
Definition regs : Type := Z * Z * Z * Z * Z * Z * Z * Z.

(** [for (i = 16; i < 64; i += 8)]. *)
Fixpoint sha256_rounds_16_63 (fuel : nat) (i : Z) (X : list Z) (r : regs) : regs :=
  match fuel with
  | O => r
  | S fuel' =>
      if i <? 64 then
        let '(a, b, c, d, e, f, g, h) := r in
        let '(d, h, X) := ROUND_16_63 (i + 0) a b c d e f g h X in
        let '(c, g, X) := ROUND_16_63 (i + 1) h a b c d e f g X in
        let '(b, f, X) := ROUND_16_63 (i + 2) g h a b c d e f X in
        let '(a, e, X) := ROUND_16_63 (i + 3) f g h a b c d e X in
        let '(h, d, X) := ROUND_16_63 (i + 4) e f g h a b c d X in
        let '(g, c, X) := ROUND_16_63 (i + 5) d e f g h a b c X in
        let '(f, b, X) := ROUND_16_63 (i + 6) c d e f g h a b X in
        let '(e, a, X) := ROUND_16_63 (i + 7) b c d e f g h a X in
        sha256_rounds_16_63 fuel' (i + 8) X (a, b, c, d, e, f, g, h)
      else r
  end.

Definition sha256_rounds_00_15 (X data : list Z) (r : regs) : list Z * regs :=
  let '(a, b, c, d, e, f, g, h) := r in
  let '(T1, X, data) := sha256_load 0 X data in
  let '(d, h) := ROUND_00_15 0 T1 a b c d e f g h in
  let '(T1, X, data) := sha256_load 1 X data in
  let '(c, g) := ROUND_00_15 1 T1 h a b c d e f g in
  let '(T1, X, data) := sha256_load 2 X data in
  let '(b, f) := ROUND_00_15 2 T1 g h a b c d e f in
  let '(T1, X, data) := sha256_load 3 X data in
  let '(a, e) := ROUND_00_15 3 T1 f g h a b c d e in
  let '(T1, X, data) := sha256_load 4 X data in
  let '(h, d) := ROUND_00_15 4 T1 e f g h a b c d in
  let '(T1, X, data) := sha256_load 5 X data in
  let '(g, c) := ROUND_00_15 5 T1 d e f g h a b c in
  let '(T1, X, data) := sha256_load 6 X data in
  let '(f, b) := ROUND_00_15 6 T1 c d e f g h a b in
  let '(T1, X, data) := sha256_load 7 X data in
  let '(e, a) := ROUND_00_15 7 T1 b c d e f g h a in
  let '(T1, X, data) := sha256_load 8 X data in
  let '(d, h) := ROUND_00_15 8 T1 a b c d e f g h in
  let '(T1, X, data) := sha256_load 9 X data in
  let '(c, g) := ROUND_00_15 9 T1 h a b c d e f g in
  let '(T1, X, data) := sha256_load 10 X data in
  let '(b, f) := ROUND_00_15 10 T1 g h a b c d e f in
  let '(T1, X, data) := sha256_load 11 X data in
  let '(a, e) := ROUND_00_15 11 T1 f g h a b c d e in
  let '(T1, X, data) := sha256_load 12 X data in
  let '(h, d) := ROUND_00_15 12 T1 e f g h a b c d in
  let '(T1, X, data) := sha256_load 13 X data in
  let '(g, c) := ROUND_00_15 13 T1 d e f g h a b c in
  let '(T1, X, data) := sha256_load 14 X data in
  let '(f, b) := ROUND_00_15 14 T1 c d e f g h a b in
  let '(T1, X, data) := sha256_load 15 X data in
  let '(e, a) := ROUND_00_15 15 T1 b c d e f g h a in
  (X, (a, b, c, d, e, f, g, h)).

(** One iteration of [while (num--)]. *)
Definition sha256_block (state data : list Z) : list Z :=
  let r := (znth state 0, znth state 1, znth state 2, znth state 3, znth state 4, znth state 5, znth state 6, znth state 7) in
  let '(X, r) := sha256_rounds_00_15 (replicate 16 0) data r in
  let '(a, b, c, d, e, f, g, h) := sha256_rounds_16_63 7 16 X r in
  [u32 (znth state 0 + a); u32 (znth state 1 + b); u32 (znth state 2 + c); u32 (znth state 3 + d);
   u32 (znth state 4 + e); u32 (znth state 5 + f); u32 (znth state 6 + g); u32 (znth state 7 + h)].

Fixpoint sha256_blocks (num : nat) (state data : list Z) : list Z :=
  match num with
  | O => state
  | S num' => sha256_blocks num' (sha256_block state data) (zdrop 64 data)
  end.
Definition sha256_block_data_order (state data : list Z) (num : Z) : list Z := sha256_blocks (Z.to_nat num) state data.

Definition SHA256_TransformBlocks (state data : list Z) (num_blocks : Z) : list Z := sha256_block_data_order state data num_blocks.

Definition SHA224_Init : SHA256_CTX :=
  let h := [0xc1059ed8; 0x367cd507; 0x3070dd17; 0xf70e5939; 0xffc00b31; 0x68581511; 0x64f98fa7; 0xbefa4fa4] in
  Sha256Ctx (Md32 h 0 0 (zeros SHA256_CBLOCK) 0) SHA224_DIGEST_LENGTH.
Definition SHA256_Init : SHA256_CTX :=
  let h := [0x6a09e667; 0xbb67ae85; 0x3c6ef372; 0xa54ff53a; 0x510e527f; 0x9b05688c; 0x1f83d9ab; 0x5be0cd19] in
  Sha256Ctx (Md32 h 0 0 (zeros SHA256_CBLOCK) 0) SHA256_DIGEST_LENGTH.

Definition SHA256_Update (c : SHA256_CTX) (data : list Z) : SHA256_CTX :=
  Sha256Ctx (crypto_md32_update SHA256_CBLOCK sha256_block_data_order (sha_state c) data) (sha_md_len c).
Definition SHA224_Update (ctx : SHA256_CTX) (data : list Z) : SHA256_CTX := SHA256_Update ctx data.

Definition SHA256_Transform (c : SHA256_CTX) (data : list Z) : SHA256_CTX :=
  let s := sha_state c in
  Sha256Ctx (Md32 (sha256_block_data_order (md_h s) data 1) (md_Nl s) (md_Nh s) (md_data s) (md_num s)) (sha_md_len c).

(** What is written to [out] ([None] for the failure) and the context. *)
Definition sha256_final_impl (c : SHA256_CTX) : option (list Z) * SHA256_CTX :=
  let s := crypto_md32_final SHA256_CBLOCK sha256_block_data_order true (sha_state c) in
  let c := Sha256Ctx s (sha_md_len c) in
  if sha_md_len c >? SHA256_DIGEST_LENGTH then (None, c)
  else
    let out_words := sha_md_len c / 4 in
    (Some (concat ((fun i => CRYPTO_store_u32_be (znth (md_h s) i)) <$> zseq out_words)), c).
Definition SHA256_Final (c : SHA256_CTX) : option (list Z) * SHA256_CTX := sha256_final_impl c.
Definition SHA224_Final (ctx : SHA256_CTX) : option (list Z) * SHA256_CTX := sha256_final_impl ctx.

Definition SHA224 (data : list Z) : option (list Z) := (SHA224_Final (SHA224_Update SHA224_Init data)).1.
Definition SHA256 (data : list Z) : option (list Z) := (SHA256_Final (SHA256_Update SHA256_Init data)).1.

(** ** The standard *)

Module Fips.
Definition K : list Z := cbrt_bits 32 <$> primes_below 312.
Definition H256 : list Z := sqrt_bits 32 <$> take 8 (primes_below 312).
(** The second 32 bits, for the ninth to sixteenth primes. *)
Definition H224 : list Z := (fun p => sqrt_bits 64 p mod 2 ^ 32) <$> take 8 (drop 8 (primes_below 312)).

Definition ROTR (n x : Z) : Z := Z.lor (Z.shiftr x n) (u32 (Z.shiftl x (32 - n))).
Definition SHR (n x : Z) : Z := Z.shiftr x n.
Definition Sum0 (x : Z) : Z := Z.lxor (Z.lxor (ROTR 2 x) (ROTR 13 x)) (ROTR 22 x).
Definition Sum1 (x : Z) : Z := Z.lxor (Z.lxor (ROTR 6 x) (ROTR 11 x)) (ROTR 25 x).
Definition sig0 (x : Z) : Z := Z.lxor (Z.lxor (ROTR 7 x) (ROTR 18 x)) (SHR 3 x).
Definition sig1 (x : Z) : Z := Z.lxor (Z.lxor (ROTR 17 x) (ROTR 19 x)) (SHR 10 x).

(** The 64 words of the schedule: those of the block, then each from earlier ones. *)
Definition next_word (W : list Z) : Z :=
  let t := zlen W in
  u32 (sig1 (znth W (t - 2)) + znth W (t - 7) + sig0 (znth W (t - 15)) + znth W (t - 16)).
Definition block_words (block : list Z) : list Z := (fun i => be_val (ztake 4 (zdrop (4 * i) block))) <$> zseq 16.
Definition schedule (block : list Z) : list Z := extend next_word (block_words block) 48.

Definition round (W : list Z) (r : regs) (t : Z) : regs :=
  let '(a, b, c, d, e, f, g, h) := r in
  let T1 := h + Sum1 e + Ch e f g + znth K t + znth W t in
  let T2 := Sum0 a + Maj a b c in
  (u32 (T1 + T2), a, b, c, u32 (d + T1), e, f, g).
Definition regs_of (H : list Z) : regs :=
  (znth H 0, znth H 1, znth H 2, znth H 3, znth H 4, znth H 5, znth H 6, znth H 7).
Definition list_of (r : regs) : list Z := let '(a, b, c, d, e, f, g, h) := r in [a; b; c; d; e; f; g; h].
Definition compress (H block : list Z) : list Z :=
  zip_with (fun x y => u32 (x + y)) (list_of (regs_of H)) (list_of (fold_left (round (schedule block)) (zseq 64) (regs_of H))).

Definition digest (H0 : list Z) (words : nat) (m : list Z) : list Z :=
  words_bytes 4 (take words (md_hash 64 8 compress true H0 m)).
Definition sha256 (m : list Z) : list Z := digest H256 8 m.
Definition sha224 (m : list Z) : list Z := digest H224 7 m.
End Fips.

Lemma K256_roots : K256 = Fips.K.
Proof. vm_compute. reflexivity. Qed.
Lemma H256_roots : md_h (sha_state SHA256_Init) = Fips.H256.
Proof. vm_compute. reflexivity. Qed.
Lemma H224_roots : md_h (sha_state SHA224_Init) = Fips.H224.
Proof. vm_compute. reflexivity. Qed.

(** ** The schedule *)

Lemma zlen_block_words block : zlen (Fips.block_words block) = 16.
Proof. unfold Fips.block_words. rewrite zlen_map. done. Qed.

Lemma schedule_first block i : 0 <= i < 16 -> znth (Fips.schedule block) i = be_val (ztake 4 (zdrop (4 * i) block)).
Proof.
  intros Hi. unfold Fips.schedule. rewrite extend_first by (apply zlen_block_words || done).
  unfold Fips.block_words. rewrite znth_map_zseq by lia. done.
Qed.

Lemma schedule_next block i : 16 <= i < 64 ->
  znth (Fips.schedule block) i =
    u32 (Fips.sig1 (znth (Fips.schedule block) (i - 2)) + znth (Fips.schedule block) (i - 7) +
         Fips.sig0 (znth (Fips.schedule block) (i - 15)) + znth (Fips.schedule block) (i - 16)).
Proof.
  intros Hi. unfold Fips.schedule.
  destruct (extend_next Fips.next_word (Fips.block_words block) (zlen_block_words block) 48 i Hi) as (W & -> & HW & Hj).
  unfold Fips.next_word. rewrite HW, !Hj by lia. done.
Qed.

(** ** The rounds *)

Lemma Sigma0_fips x : Sigma0 x = Fips.Sum0 x. Proof. reflexivity. Qed.
Lemma Sigma1_fips x : Sigma1 x = Fips.Sum1 x. Proof. reflexivity. Qed.
Lemma sigma0_fips x : sigma0 x = Fips.sig0 x. Proof. reflexivity. Qed.
Lemma sigma1_fips x : sigma1 x = Fips.sig1 x. Proof. reflexivity. Qed.

(** One macro is one round, with the variables renamed. *)
Lemma ROUND_00_15_round (W : list Z) i a b c d e f g h d' h' :
  ROUND_00_15 i (znth W i) a b c d e f g h = (d', h') ->
  Fips.round W (a, b, c, d, e, f, g, h) i = (h', a, b, c, d', e, f, g).
Proof.
  unfold ROUND_00_15, Fips.round. rewrite K256_roots, Sigma0_fips, Sigma1_fips. intros [= <- <-].
  assert (E : znth W i + (h + Fips.Sum1 e + Ch e f g + znth Fips.K i) = h + Fips.Sum1 e + Ch e f g + znth Fips.K i + znth W i) by lia.
  rewrite E, !u32_add_r, u32_add_l. do 7 f_equal. apply f_equal. lia.
Qed.

Section rounds.
Context (data0 : list Z) (Hbytes : bytes_ok data0) (Hlen : 64 <= zlen data0) (r0 : regs).
Notation W := (Fips.schedule (ztake 64 data0)).

Notation at_round := (at_round Fips.round W r0).
Notation reg_at := (reg_at Fips.round W r0).

Lemma load_step i X a b c d e f g h T1 X' data' d' h' : 0 <= i < 16 ->
  at_round i X (a, b, c, d, e, f, g, h) ->
  sha256_load i X (zdrop (4 * i) data0) = (T1, X', data') -> ROUND_00_15 i T1 a b c d e f g h = (d', h') ->
  at_round (i + 1) X' (h', a, b, c, d', e, f, g) /\ data' = zdrop (4 * (i + 1)) data0.
Proof using Hbytes Hlen.
  intros Hi Hr. unfold sha256_load. intros [= <- <- <-].
  assert (Ew : CRYPTO_load_u32_be (zdrop (4 * i) data0) = znth W i).
  { rewrite schedule_first, load_u32_be_val by first [apply Forall_zdrop; done | rewrite ?zlen_zdrop; lia].
    rewrite (block_word 4 i 64) by lia. done. }
  rewrite Ew. intros HR. split; [|rewrite zdrop_zdrop by lia; f_equal; lia].
  rewrite <- (Z.mod_small i 16) at 2 by lia. eapply at_round_next; [lia|done|done|].
  symmetry. apply ROUND_00_15_round. done.
Qed.

Lemma word_step i X a b c d e f g h X' d' h' : 16 <= i < 64 ->
  at_round i X (a, b, c, d, e, f, g, h) -> ROUND_16_63 i a b c d e f g h X = (d', h', X') ->
  at_round (i + 1) X' (h', a, b, c, d', e, f, g).
Proof using.
  intros Hi Hr. unfold ROUND_16_63. cbn zeta.
  change 15 with (2 ^ 4 - 1). rewrite !land_mask by lia. change (2 ^ 4) with 16.
  replace ((i + 1) mod 16) with ((i - 15) mod 16) by zarith.
  replace ((i + 14) mod 16) with ((i - 2) mod 16) by zarith.
  replace ((i + 9) mod 16) with ((i - 7) mod 16) by zarith.
  rewrite !(at_round_word _ _ _ _ _ _ _ Hr) by lia.
  replace (znth X (i mod 16)) with (znth W (i - 16)) by (rewrite <- (at_round_word _ _ _ _ _ _ 16 Hr) by lia; f_equal; zarith).
  match goal with |- context [ROUND_00_15 i ?v] => assert (Ew : v = znth W i) end.
  { rewrite (schedule_next _ i), sigma0_fips, sigma1_fips by lia. f_equal. lia. }
  rewrite Ew. destruct (ROUND_00_15 i _ _ _ _ _ _ _ _ _) as [d1 h1] eqn:HR. intros [= <- <- <-].
  eapply at_round_next; [lia|done|done|]. symmetry. apply ROUND_00_15_round. done.
Qed.

(** Run the next macro of the code. *)
Ltac load_round Hr Hd :=
  match goal with |- context [sha256_load ?i ?X ?data] =>
    let T1 := fresh "T1" in let X' := fresh "X" in let data' := fresh "data" in
    let EL := fresh "EL" in let ER := fresh "ER" in
    destruct (sha256_load i X data) as [[T1 X'] data'] eqn:EL;
    match goal with |- context [ROUND_00_15 i T1 ?a ?b ?c ?d ?e ?f ?g ?h] =>
      destruct (ROUND_00_15 i T1 a b c d e f g h) eqn:ER
    end;
    rewrite Hd in EL; clear Hd; eapply load_step in Hr as [Hr Hd]; [|lia|exact EL|exact ER];
    clear EL ER; cbn [Z.add Z.mul Pos.add Pos.mul Pos.succ] in Hr, Hd
  end.
Ltac word_round Hr :=
  match goal with |- context [ROUND_16_63 ?i ?a ?b ?c ?d ?e ?f ?g ?h ?X] =>
    let ER := fresh "ER" in
    destruct (ROUND_16_63 i a b c d e f g h X) as [[? ?] ?] eqn:ER;
    eapply word_step in Hr; [|lia|exact ER]; clear ER
  end.

Lemma rounds_00_15_spec X r : at_round 0 X r -> forall X' r', sha256_rounds_00_15 X data0 r = (X', r') -> at_round 16 X' r'.
Proof using Hbytes Hlen.
  intros Hr. assert (Hd : data0 = zdrop (4 * 0) data0) by (rewrite zdrop_0; done).
  unfold sha256_rounds_00_15. destruct r as [[[[[[[a b] c] d] e] f] g] h].
  do 16 load_round Hr Hd.
  intros X' r' [= <- <-]. exact Hr.
Qed.

Lemma rounds_16_63_spec fuel : forall i X r, i <= 64 -> 64 - i <= 8 * Z.of_nat fuel -> 16 <= i -> i mod 8 = 0 ->
  at_round i X r -> sha256_rounds_16_63 fuel i X r = reg_at 64.
Proof using.
  induction fuel as [|fuel IH]; intros i X r Hi Hf Hi2 Hm Hr; cbn [sha256_rounds_16_63].
  - assert (i = 64) as -> by lia. destruct Hr. done.
  - destruct (Z.ltb_spec i 64) as [H|H]; [|assert (i = 64) as -> by lia; destruct Hr; done].
    destruct r as [[[[[[[a b] c] d] e] f] g] h]. rewrite <- (Z.add_0_r i) in Hr.
    assert (H8 : i + 8 <= 64) by zarith.
    do 8 (word_round Hr; rewrite <- Z.add_assoc in Hr).
    apply (IH (i + 8)); [lia|lia|lia|zarith|exact Hr].
Qed.
End rounds.

(** One iteration of the code is the compression function of the standard. *)
Lemma sha256_block_compress state data : bytes_ok data -> 64 <= zlen data ->
  sha256_block state data = Fips.compress state (ztake 64 data).
Proof.
  intros Hb Hl. unfold sha256_block. fold (Fips.regs_of state).
  pose proof (at_round_start Fips.round (Fips.schedule (ztake 64 data)) (Fips.regs_of state) (replicate 16 0) eq_refl) as Hr.
  destruct (sha256_rounds_00_15 _ data (Fips.regs_of state)) as [X r] eqn:E.
  eapply rounds_00_15_spec in E; [|done..].
  rewrite (rounds_16_63_spec data (Fips.regs_of state) 7 16 X r) by (done || lia).
  unfold Fips.compress, reg_at. destruct (fold_left _ _ _) as [[[[[[[a b] c] d] e] f] g] h]. done.
Qed.

#[export] Instance sha256_block_func : BlockFunc SHA256_CBLOCK 8 sha256_block_data_order Fips.compress.
Proof.
  constructor; [unfold SHA256_CBLOCK; lia|]. unfold SHA256_CBLOCK, sha256_block_data_order. intros h data n Hb Hn Hl.
  rewrite <- (Z2Nat.id n) in Hl |- * by lia. rewrite Nat2Z.id.
  apply (blocks_fold 64 Fips.compress sha256_block sha256_blocks); done || lia || apply sha256_block_compress.
Qed.

(** ** The streaming interface *)

Definition state_of (h0 m : list Z) (c : SHA256_CTX) : Prop :=
  md32_rep SHA256_CBLOCK Fips.compress h0 m (sha_state c).

Lemma SHA256_updates_state h0 pieces c m : bytes_ok (concat pieces) -> state_of h0 m c ->
  state_of h0 (m ++ concat pieces) (fold_left SHA256_Update pieces c) /\
  sha_md_len (fold_left SHA256_Update pieces c) = sha_md_len c.
Proof.
  revert c m. induction pieces as [|p pieces IH]; intros c m Hb Hs; cbn [concat fold_left] in *.
  - rewrite app_nil_r. done.
  - apply Forall_app in Hb as [Hp Hps]. rewrite app_assoc.
    apply (IH (SHA256_Update c p)); [done|]. unfold state_of in *. cbn [SHA256_Update sha_state].
    apply (md32_update_rep SHA256_CBLOCK sha256_block_data_order Fips.compress); done.
Qed.

Definition good_state (h : list Z) : Prop := length h = 8%nat /\ Forall (fun x => 0 <= x < 2 ^ 32) h.

Lemma compress_good H block : good_state (Fips.compress H block).
Proof.
  unfold Fips.compress. destruct (fold_left _ _ _) as [[[[[[[a b] c] d] e] f] g] h].
  split; [done|]. cbn [Fips.list_of Fips.regs_of zip_with]. repeat constructor; apply u32_range.
Qed.
Lemma md_hash_good h0 m : good_state h0 -> good_state (md_hash 64 8 Fips.compress true h0 m).
Proof.
  unfold md_hash. generalize (chunks 64 (m ++ md_padding 64 8 true (zlen m))). intros l. revert h0.
  induction l as [|b l IH]; intros h0 Hh; [done|]. rewrite fold_left_cons. apply IH, compress_good.
Qed.

Lemma final_digest h0 m c k : good_state h0 -> state_of h0 m c -> sha_md_len c = 4 * Z.of_nat k -> (k <= 8)%nat ->
  (sha256_final_impl c).1 = Some (Fips.digest h0 k m).
Proof.
  intros Hg Hs Hl Hk. unfold sha256_final_impl. cbn zeta. cbn [sha_md_len sha_state].
  rewrite Hl. unfold SHA256_DIGEST_LENGTH. destruct (Z.gtb_spec (4 * Z.of_nat k) 32) as [?|_]; [lia|].
  rewrite (md32_final_rep SHA256_CBLOCK sha256_block_data_order Fips.compress true h0 m) by done.
  cbn [fst]. f_equal. unfold Fips.digest. change SHA256_CBLOCK with 64.
  destruct (md_hash_good h0 m Hg) as [Hl8 Hr]. set (H := md_hash 64 8 Fips.compress true h0 m) in *. clearbody H.
  rewrite Z.mul_comm, Z.div_mul by lia. apply (store_words 4 _ (2 ^ 32)); [lia|lia|done|apply store_u32_be_bytes].
Qed.

Lemma init_state_of h0 n : state_of h0 [] (Sha256Ctx (Md32 h0 0 0 (zeros SHA256_CBLOCK) 0) n).
Proof. unfold state_of. apply (md32_init_rep SHA256_CBLOCK sha256_block_data_order Fips.compress), zlen_zeros. done. Qed.

Lemma init_good : good_state Fips.H256 /\ good_state Fips.H224.
Proof. rewrite <- H256_roots, <- H224_roots. split; (split; [done|repeat constructor; lia]). Qed.

Lemma stream_digest h0 k pieces : good_state h0 -> (k <= 8)%nat -> bytes_ok (concat pieces) ->
  (sha256_final_impl (fold_left SHA256_Update pieces
     (Sha256Ctx (Md32 h0 0 0 (zeros SHA256_CBLOCK) 0) (4 * Z.of_nat k)))).1 = Some (Fips.digest h0 k (concat pieces)).
Proof.
  intros Hg Hk Hb.
  destruct (SHA256_updates_state h0 pieces _ [] Hb (init_state_of h0 (4 * Z.of_nat k))) as [Hs Hl].
  rewrite app_nil_l in Hs. apply final_digest; done.
Qed.

Lemma sha256_stream pieces : bytes_ok (concat pieces) ->
  (SHA256_Final (fold_left SHA256_Update pieces SHA256_Init)).1 = Some (Fips.sha256 (concat pieces)).
Proof. intros Hb. apply (stream_digest _ 8 pieces); [apply init_good|lia|done]. Qed.
Lemma sha224_stream pieces : bytes_ok (concat pieces) ->
  (SHA224_Final (fold_left SHA224_Update pieces SHA224_Init)).1 = Some (Fips.sha224 (concat pieces)).
Proof. intros Hb. apply (stream_digest _ 7 pieces); [apply init_good|lia|done]. Qed.

Lemma digest_length h0 k m : good_state h0 -> (k <= 8)%nat -> zlen (Fips.digest h0 k m) = 4 * Z.of_nat k.
Proof.
  intros Hg Hk. destruct (md_hash_good h0 m Hg) as [Hl _]. unfold Fips.digest. rewrite zlen_words_bytes.
  unfold zlen. rewrite length_take. lia.
Qed.
Lemma digest_bytes h0 k m : bytes_ok (Fips.digest h0 k m).
Proof. apply words_bytes_ok. Qed.

(** C10. SHA-256 and SHA-224 are the functions of FIPS 180-4, however the message is cut:
    initialising, adding the pieces one after the other and finishing writes the
    standard's digest of their concatenation, and so do the one-shot functions. *)
Theorem sha256_correct pieces : bytes_ok (concat pieces) ->
  (SHA256_Final (fold_left SHA256_Update pieces SHA256_Init)).1 = Some (Fips.sha256 (concat pieces)) /\
  (SHA224_Final (fold_left SHA224_Update pieces SHA224_Init)).1 = Some (Fips.sha224 (concat pieces)) /\
  SHA256 (concat pieces) = Some (Fips.sha256 (concat pieces)) /\
  SHA224 (concat pieces) = Some (Fips.sha224 (concat pieces)).
Proof.
  intros Hb. assert (E : concat [concat pieces] = concat pieces) by (cbn [concat]; apply app_nil_r).
  split_and!; [apply sha256_stream; done|apply sha224_stream; done|..]; rewrite <- E at 2;
    [apply (sha256_stream [concat pieces])|apply (sha224_stream [concat pieces])]; rewrite E; done.
Qed.

(** The digest of "abc" in the standard's examples. *)
Lemma sha256_correct_witness :
  (SHA256_Final (fold_left SHA256_Update [[97]; []; [98; 99]] SHA256_Init)).1 =
  Some (be_bytes 32 0xba7816bf8f01cfea414140de5dae2223b00361a396177a9cb410ff61f20015ad).
Proof.
  destruct (sha256_correct [[97]; []; [98; 99]]) as (E & _); [repeat constructor; unfold is_byte; lia|].
  rewrite E. vm_compute. reflexivity.
Defined.
