(* ===== verification/Sha512.v ===== *)
(** * SHA-384, SHA-512 and SHA-512/256 (fipsmodule/sha/sha512.c).

    The block function is that of SHA-256 with 64-bit words and 80 rounds; the
    collector is SHA-512's own, with a 128-bit counter. Module [Fips512] states
    the functions as FIPS 180-4 does, with the constants as roots of primes and
    the initial value of SHA-512/256 as the hash that generates it. *)

From S2P Require Import Prelude Blocks Mem Collector Schedule.

Definition SHA512_CBLOCK : Z := 128.
Definition SHA384_DIGEST_LENGTH : Z := 48.
Definition SHA512_DIGEST_LENGTH : Z := 64.
Definition SHA512_256_DIGEST_LENGTH : Z := 32.

Record SHA512_CTX := Sha512Ctx { s5_h : list Z; s5_Nl : Z; s5_Nh : Z; s5_p : list Z; s5_num : Z; s5_md_len : Z }.

Definition K512 : list Z :=
  [0x428a2f98d728ae22; 0x7137449123ef65cd; 0xb5c0fbcfec4d3b2f; 0xe9b5dba58189dbbc; 0x3956c25bf348b538;
   0x59f111f1b605d019; 0x923f82a4af194f9b; 0xab1c5ed5da6d8118; 0xd807aa98a3030242; 0x12835b0145706fbe;
   0x243185be4ee4b28c; 0x550c7dc3d5ffb4e2; 0x72be5d74f27b896f; 0x80deb1fe3b1696b1; 0x9bdc06a725c71235;
   0xc19bf174cf692694; 0xe49b69c19ef14ad2; 0xefbe4786384f25e3; 0x0fc19dc68b8cd5b5; 0x240ca1cc77ac9c65;
   0x2de92c6f592b0275; 0x4a7484aa6ea6e483; 0x5cb0a9dcbd41fbd4; 0x76f988da831153b5; 0x983e5152ee66dfab;
   0xa831c66d2db43210; 0xb00327c898fb213f; 0xbf597fc7beef0ee4; 0xc6e00bf33da88fc2; 0xd5a79147930aa725;
   0x06ca6351e003826f; 0x142929670a0e6e70; 0x27b70a8546d22ffc; 0x2e1b21385c26c926; 0x4d2c6dfc5ac42aed;
   0x53380d139d95b3df; 0x650a73548baf63de; 0x766a0abb3c77b2a8; 0x81c2c92e47edaee6; 0x92722c851482353b;
   0xa2bfe8a14cf10364; 0xa81a664bbc423001; 0xc24b8b70d0f89791; 0xc76c51a30654be30; 0xd192e819d6ef5218;
   0xd69906245565a910; 0xf40e35855771202a; 0x106aa07032bbd1b8; 0x19a4c116b8d2d0c8; 0x1e376c085141ab53;
   0x2748774cdf8eeb99; 0x34b0bcb5e19b48a8; 0x391c0cb3c5c95a63; 0x4ed8aa4ae3418acb; 0x5b9cca4f7763e373;
   0x682e6ff3d6b2b8a3; 0x748f82ee5defb2fc; 0x78a5636f43172f60; 0x84c87814a1f0ab72; 0x8cc702081a6439ec;
   0x90befffa23631e28; 0xa4506cebde82bde9; 0xbef9a3f7b2c67915; 0xc67178f2e372532b; 0xca273eceea26619c;
   0xd186b8c721c0c207; 0xeada7dd6cde0eb1e; 0xf57d4f7fee6ed178; 0x06f067aa72176fba; 0x0a637dc5a2c898a6;
   0x113f9804bef90dae; 0x1b710b35131c471b; 0x28db77f523047d84; 0x32caab7b40c72493; 0x3c9ebe0a15c9bebc;
   0x431d67c49c100d4c; 0x4cc5d4becb3e42b6; 0x597f299cfc657e2a; 0x5fcb6fab3ad6faec; 0x6c44198c4a475817].

Definition Sigma0 (x : Z) : Z := Z.lxor (Z.lxor (CRYPTO_rotr_u64 x 28) (CRYPTO_rotr_u64 x 34)) (CRYPTO_rotr_u64 x 39).
Definition Sigma1 (x : Z) : Z := Z.lxor (Z.lxor (CRYPTO_rotr_u64 x 14) (CRYPTO_rotr_u64 x 18)) (CRYPTO_rotr_u64 x 41).
Definition sigma0 (x : Z) : Z := Z.lxor (Z.lxor (CRYPTO_rotr_u64 x 1) (CRYPTO_rotr_u64 x 8)) (Z.shiftr x 7).
Definition sigma1 (x : Z) : Z := Z.lxor (Z.lxor (CRYPTO_rotr_u64 x 19) (CRYPTO_rotr_u64 x 61)) (Z.shiftr x 6).

Definition Ch (x y z : Z) : Z := Z.lxor (Z.land x y) (Z.land (u64 (Z.lnot x)) z).
Definition Maj (x y z : Z) : Z := Z.lxor (Z.lxor (Z.land x y) (Z.land x z)) (Z.land y z).

(** The new values of [d] and [h]. *)
Definition ROUND_00_15 (i T1 a b c d e f g h : Z) : Z * Z :=
  let T1 := u64 (T1 + (h + Sigma1 e + Ch e f g + znth K512 i)) in
  let h := u64 (Sigma0 a + Maj a b c) in
  let d := u64 (d + T1) in
  let h := u64 (h + T1) in
  (d, h).

(** The new values of [d], [h] and [X]. *)
Definition ROUND_16_80 (i j a b c d e f g h : Z) (X : list Z) : Z * Z * list Z :=
  let s0 := sigma0 (znth X (Z.land (j + 1) 0x0f)) in
  let s1 := sigma1 (znth X (Z.land (j + 14) 0x0f)) in
  let T1 := u64 (znth X (Z.land j 0x0f) + (s0 + s1 + znth X (Z.land (j + 9) 0x0f))) in
  let X := <[Z.to_nat (Z.land j 0x0f) := T1]> X in
  let '(d, h) := ROUND_00_15 (i + j) T1 a b c d e f g h in
  (d, h, X).

(** [T1 = X[i] = CRYPTO_load_u64_be(in + i * 8);] *)
Definition sha512_load (i : Z) (X inp : list Z) : Z * list Z :=
  let T1 := CRYPTO_load_u64_be (zdrop (i * 8) inp) in
  (T1, <[Z.to_nat i := T1]> X).

(** The working variables [a] to [h]. *)
Definition regs : Type := Z * Z * Z * Z * Z * Z * Z * Z.

(** [for (i = 16; i < 80; i += 16)]. *)
Fixpoint sha512_rounds_16_80 (fuel : nat) (i : Z) (X : list Z) (r : regs) : regs :=
  match fuel with
  | O => r
  | S fuel' =>
      if i <? 80 then
        let '(a, b, c, d, e, f, g, h) := r in
        let '(d, h, X) := ROUND_16_80 i 0 a b c d e f g h X in
        let '(c, g, X) := ROUND_16_80 i 1 h a b c d e f g X in
        let '(b, f, X) := ROUND_16_80 i 2 g h a b c d e f X in
        let '(a, e, X) := ROUND_16_80 i 3 f g h a b c d e X in
        let '(h, d, X) := ROUND_16_80 i 4 e f g h a b c d X in
        let '(g, c, X) := ROUND_16_80 i 5 d e f g h a b c X in
        let '(f, b, X) := ROUND_16_80 i 6 c d e f g h a b X in
        let '(e, a, X) := ROUND_16_80 i 7 b c d e f g h a X in
        let '(d, h, X) := ROUND_16_80 i 8 a b c d e f g h X in
        let '(c, g, X) := ROUND_16_80 i 9 h a b c d e f g X in
        let '(b, f, X) := ROUND_16_80 i 10 g h a b c d e f X in
        let '(a, e, X) := ROUND_16_80 i 11 f g h a b c d e X in
        let '(h, d, X) := ROUND_16_80 i 12 e f g h a b c d X in
        let '(g, c, X) := ROUND_16_80 i 13 d e f g h a b c X in
        let '(f, b, X) := ROUND_16_80 i 14 c d e f g h a b X in
        let '(e, a, X) := ROUND_16_80 i 15 b c d e f g h a X in
        sha512_rounds_16_80 fuel' (i + 16) X (a, b, c, d, e, f, g, h)
      else r
  end.

Definition sha512_rounds_00_15 (X inp : list Z) (r : regs) : list Z * regs :=
  let '(a, b, c, d, e, f, g, h) := r in
  let '(T1, X) := sha512_load 0 X inp in
  let '(d, h) := ROUND_00_15 0 T1 a b c d e f g h in
  let '(T1, X) := sha512_load 1 X inp in
  let '(c, g) := ROUND_00_15 1 T1 h a b c d e f g in
  let '(T1, X) := sha512_load 2 X inp in
  let '(b, f) := ROUND_00_15 2 T1 g h a b c d e f in
  let '(T1, X) := sha512_load 3 X inp in
  let '(a, e) := ROUND_00_15 3 T1 f g h a b c d e in
  let '(T1, X) := sha512_load 4 X inp in
  let '(h, d) := ROUND_00_15 4 T1 e f g h a b c d in
  let '(T1, X) := sha512_load 5 X inp in
  let '(g, c) := ROUND_00_15 5 T1 d e f g h a b c in
  let '(T1, X) := sha512_load 6 X inp in
  let '(f, b) := ROUND_00_15 6 T1 c d e f g h a b in
  let '(T1, X) := sha512_load 7 X inp in
  let '(e, a) := ROUND_00_15 7 T1 b c d e f g h a in
  let '(T1, X) := sha512_load 8 X inp in
  let '(d, h) := ROUND_00_15 8 T1 a b c d e f g h in
  let '(T1, X) := sha512_load 9 X inp in
  let '(c, g) := ROUND_00_15 9 T1 h a b c d e f g in
  let '(T1, X) := sha512_load 10 X inp in
  let '(b, f) := ROUND_00_15 10 T1 g h a b c d e f in
  let '(T1, X) := sha512_load 11 X inp in
  let '(a, e) := ROUND_00_15 11 T1 f g h a b c d e in
  let '(T1, X) := sha512_load 12 X inp in
  let '(h, d) := ROUND_00_15 12 T1 e f g h a b c d in
  let '(T1, X) := sha512_load 13 X inp in
  let '(g, c) := ROUND_00_15 13 T1 d e f g h a b c in
  let '(T1, X) := sha512_load 14 X inp in
  let '(f, b) := ROUND_00_15 14 T1 c d e f g h a b in
  let '(T1, X) := sha512_load 15 X inp in
  let '(e, a) := ROUND_00_15 15 T1 b c d e f g h a in
  (X, (a, b, c, d, e, f, g, h)).

(** One iteration of [while (num--)]. *)
Definition sha512_block (state inp : list Z) : list Z :=
  let r := (znth state 0, znth state 1, znth state 2, znth state 3, znth state 4, znth state 5, znth state 6, znth state 7) in
  let '(X, r) := sha512_rounds_00_15 (replicate 16 0) inp r in
  let '(a, b, c, d, e, f, g, h) := sha512_rounds_16_80 5 16 X r in
  [u64 (znth state 0 + a); u64 (znth state 1 + b); u64 (znth state 2 + c); u64 (znth state 3 + d);
   u64 (znth state 4 + e); u64 (znth state 5 + f); u64 (znth state 6 + g); u64 (znth state 7 + h)].

Fixpoint sha512_blocks (num : nat) (state inp : list Z) : list Z :=
  match num with
  | O => state
  | S num' => sha512_blocks num' (sha512_block state inp) (zdrop (16 * 8) inp)
  end.
Definition sha512_block_data_order (state inp : list Z) (num : Z) : list Z := sha512_blocks (Z.to_nat num) state inp.

(** The buffer [p] keeps the contents that it had. *)
Definition SHA384_Init (sha : SHA512_CTX) : SHA512_CTX :=
  let h := [0xcbbb9d5dc1059ed8; 0x629a292a367cd507; 0x9159015a3070dd17; 0x152fecd8f70e5939;
   0x67332667ffc00b31; 0x8eb44a8768581511; 0xdb0c2e0d64f98fa7; 0x47b5481dbefa4fa4] in
  Sha512Ctx h 0 0 (s5_p sha) 0 SHA384_DIGEST_LENGTH.
Definition SHA512_Init (sha : SHA512_CTX) : SHA512_CTX :=
  let h := [0x6a09e667f3bcc908; 0xbb67ae8584caa73b; 0x3c6ef372fe94f82b; 0xa54ff53a5f1d36f1;
   0x510e527fade682d1; 0x9b05688c2b3e6c1f; 0x1f83d9abfb41bd6b; 0x5be0cd19137e2179] in
  Sha512Ctx h 0 0 (s5_p sha) 0 SHA512_DIGEST_LENGTH.
Definition SHA512_256_Init (sha : SHA512_CTX) : SHA512_CTX :=
  let h := [0x22312194fc2bf72c; 0x9f555fa3c84c64c2; 0x2393b86b6f53b151; 0x963877195940eabd;
   0x96283ee2a88effe3; 0xbe5e1e2553863992; 0x2b0199fc2c85b8aa; 0x0eb72ddc81c52ca2] in
  Sha512Ctx h 0 0 (s5_p sha) 0 SHA512_256_DIGEST_LENGTH.

(** The two counters after [len] more bytes. *)
Definition sha512_count (Nl Nh len : Z) : Z * Z :=
  let l := Z.land (u64 (Nl + u64 (Z.shiftl len 3))) 0xffffffffffffffff in
  let Nh := if l <? Nl then u64 (Nh + 1) else Nh in
  (l, u64 (Nh + Z.shiftr len 61)).

(** What is left to do once there is no partial block. *)
Definition sha512_update_blocks (h : list Z) (Nl Nh : Z) (p : list Z) (num md_len : Z) (data : list Z) : SHA512_CTX :=
  let len := zlen data in
  let '(h, data) :=
    if len >=? 128 then (sha512_block_data_order h data (len / 128), zdrop (len - len mod 128) data) else (h, data) in
  let len := if len >=? 128 then len mod 128 else len in
  if negb (len =? 0) then Sha512Ctx h Nl Nh (zwrite 0 data p) (s32 len) md_len
  else Sha512Ctx h Nl Nh p num md_len.

Definition SHA512_Update (c : SHA512_CTX) (data : list Z) : SHA512_CTX :=
  let len := zlen data in
  if len =? 0 then c
  else
    let '(Nl, Nh) := sha512_count (s5_Nl c) (s5_Nh c) len in
    if negb (s5_num c =? 0) then
      let n := 128 - s5_num c in
      if len <? n then Sha512Ctx (s5_h c) Nl Nh (zwrite (s5_num c) data (s5_p c)) (u32 (s5_num c + len)) (s5_md_len c)
      else
        let p := zwrite (s5_num c) (ztake n data) (s5_p c) in
        sha512_update_blocks (sha512_block_data_order (s5_h c) p 1) Nl Nh p 0 (s5_md_len c) (zdrop n data)
    else sha512_update_blocks (s5_h c) Nl Nh (s5_p c) (s5_num c) (s5_md_len c) data.
Definition SHA384_Update (sha : SHA512_CTX) (data : list Z) : SHA512_CTX := SHA512_Update sha data.
Definition SHA512_256_Update (sha : SHA512_CTX) (data : list Z) : SHA512_CTX := SHA512_Update sha data.

Definition SHA512_Transform (c : SHA512_CTX) (block : list Z) : SHA512_CTX :=
  Sha512Ctx (sha512_block_data_order (s5_h c) block 1) (s5_Nl c) (s5_Nh c) (s5_p c) (s5_num c) (s5_md_len c).

(** What is written to [out], [None] where [out] is NULL, and the context. *)
Definition sha512_final_impl (out_is_null : bool) (sha : SHA512_CTX) : option (list Z) * SHA512_CTX :=
  let n := s5_num sha in
  let p := zwrite n [0x80] (s5_p sha) in
  let n := n + 1 in
  let '(h, p, n) :=
    if n >? 128 - 16 then
      let p := zwrite n (zeros (128 - n)) p in
      (sha512_block_data_order (s5_h sha) p 1, p, 0)
    else (s5_h sha, p, n) in
  let p := zwrite n (zeros (128 - 16 - n)) p in
  let p := zwrite (128 - 8) (CRYPTO_store_u64_be (s5_Nl sha)) (zwrite (128 - 16) (CRYPTO_store_u64_be (s5_Nh sha)) p) in
  let h := sha512_block_data_order h p 1 in
  let sha := Sha512Ctx h (s5_Nl sha) (s5_Nh sha) p (s5_num sha) (s5_md_len sha) in
  if out_is_null then (None, sha)
  else
    let out_words := s5_md_len sha / 8 in
    (Some (concat ((fun i => CRYPTO_store_u64_be (znth (s5_h sha) i)) <$> zseq out_words)), sha).
Definition SHA512_Final (sha : SHA512_CTX) : option (list Z) * SHA512_CTX := sha512_final_impl false sha.
Definition SHA384_Final (sha : SHA512_CTX) : option (list Z) * SHA512_CTX := sha512_final_impl false sha.
Definition SHA512_256_Final (sha : SHA512_CTX) : option (list Z) * SHA512_CTX := sha512_final_impl false sha.

(** [ctx] is the local context, not yet initialised. *)
Definition SHA384 (ctx : SHA512_CTX) (data : list Z) : option (list Z) := (SHA384_Final (SHA384_Update (SHA384_Init ctx) data)).1.
Definition SHA512 (ctx : SHA512_CTX) (data : list Z) : option (list Z) := (SHA512_Final (SHA512_Update (SHA512_Init ctx) data)).1.
Definition SHA512_256 (ctx : SHA512_CTX) (data : list Z) : option (list Z) :=
  (SHA512_256_Final (SHA512_256_Update (SHA512_256_Init ctx) data)).1.

(** ** The standard *)

Module Fips512.
Definition K : list Z := cbrt_bits 64 <$> primes_below 410.
Definition H512 : list Z := sqrt_bits 64 <$> take 8 (primes_below 410).
Definition H384 : list Z := sqrt_bits 64 <$> take 8 (drop 8 (primes_below 410)).

Definition ROTR (n x : Z) : Z := Z.lor (Z.shiftr x n) (u64 (Z.shiftl x (64 - n))).
Definition SHR (n x : Z) : Z := Z.shiftr x n.
Definition Sum0 (x : Z) : Z := Z.lxor (Z.lxor (ROTR 28 x) (ROTR 34 x)) (ROTR 39 x).
Definition Sum1 (x : Z) : Z := Z.lxor (Z.lxor (ROTR 14 x) (ROTR 18 x)) (ROTR 41 x).
Definition sig0 (x : Z) : Z := Z.lxor (Z.lxor (ROTR 1 x) (ROTR 8 x)) (SHR 7 x).
Definition sig1 (x : Z) : Z := Z.lxor (Z.lxor (ROTR 19 x) (ROTR 61 x)) (SHR 6 x).

(** The 80 words of the schedule: those of the block, then each from earlier ones. *)
Definition next_word (W : list Z) : Z :=
  let t := zlen W in
  u64 (sig1 (znth W (t - 2)) + znth W (t - 7) + sig0 (znth W (t - 15)) + znth W (t - 16)).
Definition block_words (block : list Z) : list Z := (fun i => be_val (ztake 8 (zdrop (8 * i) block))) <$> zseq 16.
Definition schedule (block : list Z) : list Z := extend next_word (block_words block) 64.

Definition round (W : list Z) (r : regs) (t : Z) : regs :=
  let '(a, b, c, d, e, f, g, h) := r in
  let T1 := h + Sum1 e + Ch e f g + znth K t + znth W t in
  let T2 := Sum0 a + Maj a b c in
  (u64 (T1 + T2), a, b, c, u64 (d + T1), e, f, g).
Definition regs_of (H : list Z) : regs :=
  (znth H 0, znth H 1, znth H 2, znth H 3, znth H 4, znth H 5, znth H 6, znth H 7).
Definition list_of (r : regs) : list Z := let '(a, b, c, d, e, f, g, h) := r in [a; b; c; d; e; f; g; h].
Definition compress (H block : list Z) : list Z :=
  zip_with (fun x y => u64 (x + y)) (list_of (regs_of H)) (list_of (fold_left (round (schedule block)) (zseq 80) (regs_of H))).

Definition hash (H0 m : list Z) : list Z := md_hash 128 16 compress true H0 m.
Definition digest (H0 : list Z) (words : nat) (m : list Z) : list Z := words_bytes 8 (take words (hash H0 m)).
(** The initial value of SHA-512/256, from the name of the function (5.3.6). *)
Definition H512_256 : list Z :=
  hash ((fun x => Z.lxor x 0xa5a5a5a5a5a5a5a5) <$> H512) [0x53; 0x48; 0x41; 0x2d; 0x35; 0x31; 0x32; 0x2f; 0x32; 0x35; 0x36].

Definition sha512 (m : list Z) : list Z := digest H512 8 m.
Definition sha384 (m : list Z) : list Z := digest H384 6 m.
Definition sha512_256 (m : list Z) : list Z := digest H512_256 4 m.
End Fips512.

Lemma K512_roots : K512 = Fips512.K.
Proof. vm_compute. reflexivity. Qed.
Lemma H512_roots sha : s5_h (SHA512_Init sha) = Fips512.H512.
Proof. vm_compute. reflexivity. Qed.
Lemma H384_roots sha : s5_h (SHA384_Init sha) = Fips512.H384.
Proof. vm_compute. reflexivity. Qed.
Lemma H512_256_generated sha : s5_h (SHA512_256_Init sha) = Fips512.H512_256.
Proof. vm_compute. reflexivity. Qed.

(** ** The schedule *)

Lemma zlen_block_words_512 block : zlen (Fips512.block_words block) = 16.
Proof. unfold Fips512.block_words. rewrite zlen_map. done. Qed.

Lemma schedule_first_512 block i : 0 <= i < 16 -> znth (Fips512.schedule block) i = be_val (ztake 8 (zdrop (8 * i) block)).
Proof.
  intros Hi. unfold Fips512.schedule. rewrite extend_first by (apply zlen_block_words_512 || done).
  unfold Fips512.block_words. rewrite znth_map_zseq by lia. done.
Qed.

Lemma schedule_next_512 block i : 16 <= i < 80 ->
  znth (Fips512.schedule block) i =
    u64 (Fips512.sig1 (znth (Fips512.schedule block) (i - 2)) + znth (Fips512.schedule block) (i - 7) +
         Fips512.sig0 (znth (Fips512.schedule block) (i - 15)) + znth (Fips512.schedule block) (i - 16)).
Proof.
  intros Hi. unfold Fips512.schedule.
  destruct (extend_next Fips512.next_word (Fips512.block_words block) (zlen_block_words_512 block) 64 i Hi) as (W & -> & HW & Hj).
  unfold Fips512.next_word. rewrite HW, !Hj by lia. done.
Qed.

(** ** The rounds *)

Lemma Sigma0_fips_512 x : Sigma0 x = Fips512.Sum0 x. Proof. reflexivity. Qed.
Lemma Sigma1_fips_512 x : Sigma1 x = Fips512.Sum1 x. Proof. reflexivity. Qed.
Lemma sigma0_fips_512 x : sigma0 x = Fips512.sig0 x. Proof. reflexivity. Qed.
Lemma sigma1_fips_512 x : sigma1 x = Fips512.sig1 x. Proof. reflexivity. Qed.

(** One macro is one round, with the variables renamed. *)
Lemma ROUND_00_15_round_512 (W : list Z) i a b c d e f g h d' h' :
  ROUND_00_15 i (znth W i) a b c d e f g h = (d', h') ->
  Fips512.round W (a, b, c, d, e, f, g, h) i = (h', a, b, c, d', e, f, g).
Proof.
  unfold ROUND_00_15, Fips512.round. rewrite K512_roots, Sigma0_fips_512, Sigma1_fips_512. intros [= <- <-].
  assert (E : znth W i + (h + Fips512.Sum1 e + Ch e f g + znth Fips512.K i) =
              h + Fips512.Sum1 e + Ch e f g + znth Fips512.K i + znth W i) by lia.
  rewrite E, !u64_add_r, u64_add_l. do 7 f_equal. apply f_equal. lia.
Qed.

Section rounds.
Context (data0 : list Z) (Hbytes : bytes_ok data0) (Hlen : 128 <= zlen data0) (r0 : regs).
Notation W := (Fips512.schedule (ztake 128 data0)).

Notation at_round := (at_round Fips512.round W r0).
Notation reg_at := (reg_at Fips512.round W r0).

Lemma load_step_512 i X a b c d e f g h T1 X' d' h' : 0 <= i < 16 ->
  at_round i X (a, b, c, d, e, f, g, h) ->
  sha512_load i X data0 = (T1, X') -> ROUND_00_15 i T1 a b c d e f g h = (d', h') ->
  at_round (i + 1) X' (h', a, b, c, d', e, f, g).
Proof using Hbytes Hlen.
  intros Hi Hr. unfold sha512_load. rewrite (Z.mul_comm i 8). intros [= <- <-].
  assert (Ew : CRYPTO_load_u64_be (zdrop (8 * i) data0) = znth W i).
  { rewrite schedule_first_512, load_u64_be_val by first [apply Forall_zdrop; done | rewrite ?zlen_zdrop; lia].
    rewrite (block_word 8 i 128) by lia. done. }
  rewrite Ew. intros HR.
  rewrite <- (Z.mod_small i 16) at 2 by lia. eapply at_round_next; [lia|done|done|].
  symmetry. apply ROUND_00_15_round_512. done.
Qed.

Lemma word_step_512 i j X a b c d e f g h X' d' h' : i mod 16 = 0 -> 0 <= j -> 16 <= i + j < 80 ->
  at_round (i + j) X (a, b, c, d, e, f, g, h) -> ROUND_16_80 i j a b c d e f g h X = (d', h', X') ->
  at_round (i + (j + 1)) X' (h', a, b, c, d', e, f, g).
Proof using.
  intros Hm Hj Hi Hr. unfold ROUND_16_80. cbn zeta.
  change 15 with (2 ^ 4 - 1). rewrite !land_mask by lia. change (2 ^ 4) with 16.
  replace ((j + 1) mod 16) with ((i + j - 15) mod 16) by zarith.
  replace ((j + 14) mod 16) with ((i + j - 2) mod 16) by zarith.
  replace ((j + 9) mod 16) with ((i + j - 7) mod 16) by zarith.
  replace (j mod 16) with ((i + j) mod 16) by zarith.
  rewrite !(at_round_word _ _ _ _ _ _ _ Hr) by lia.
  replace (znth X ((i + j) mod 16)) with (znth W (i + j - 16)) by (rewrite <- (at_round_word _ _ _ _ _ _ 16 Hr) by lia; f_equal; zarith).
  match goal with |- context [ROUND_00_15 (i + j) ?v] => assert (Ew : v = znth W (i + j)) end.
  { rewrite (schedule_next_512 _ (i + j)), sigma0_fips_512, sigma1_fips_512 by lia. apply (f_equal u64). generalize W. intros. ring. }
  rewrite Ew. destruct (ROUND_00_15 (i + j) _ _ _ _ _ _ _ _ _) as [d1 h1] eqn:HR. intros [= <- <- <-].
  rewrite Z.add_assoc. eapply at_round_next; [lia|done|done|]. symmetry. apply ROUND_00_15_round_512. done.
Qed.

(** Run the next macro of the code. *)
Ltac load_round Hr :=
  match goal with |- context [sha512_load ?i ?X ?data] =>
    let T1 := fresh "T1" in let X' := fresh "X" in let EL := fresh "EL" in let ER := fresh "ER" in
    destruct (sha512_load i X data) as [T1 X'] eqn:EL;
    match goal with |- context [ROUND_00_15 i T1 ?a ?b ?c ?d ?e ?f ?g ?h] =>
      destruct (ROUND_00_15 i T1 a b c d e f g h) eqn:ER
    end;
    eapply load_step_512 in Hr; [|lia|exact EL|exact ER];
    clear EL ER; cbn [Z.add Pos.add Pos.succ] in Hr
  end.
Ltac word_round Hm Hr :=
  match goal with |- context [ROUND_16_80 ?i ?j ?a ?b ?c ?d ?e ?f ?g ?h ?X] =>
    let ER := fresh "ER" in
    destruct (ROUND_16_80 i j a b c d e f g h X) as [[? ?] ?] eqn:ER;
    eapply word_step_512 in Hr; [|exact Hm|lia|lia|exact ER]; clear ER; cbn [Z.add Pos.add Pos.succ] in Hr
  end.

Lemma rounds_00_15_spec_512 X r : at_round 0 X r -> forall X' r', sha512_rounds_00_15 X data0 r = (X', r') -> at_round 16 X' r'.
Proof using Hbytes Hlen.
  intros Hr. unfold sha512_rounds_00_15. destruct r as [[[[[[[a b] c] d] e] f] g] h].
  do 16 load_round Hr. intros X' r' [= <- <-]. exact Hr.
Qed.

Lemma rounds_16_80_spec fuel : forall i X r, i <= 80 -> 80 - i <= 16 * Z.of_nat fuel -> 16 <= i -> i mod 16 = 0 ->
  at_round i X r -> sha512_rounds_16_80 fuel i X r = reg_at 80.
Proof using.
  induction fuel as [|fuel IH]; intros i X r Hi Hf Hi2 Hm Hr; cbn [sha512_rounds_16_80].
  - assert (i = 80) as -> by lia. destruct Hr. done.
  - destruct (Z.ltb_spec i 80) as [H|H]; [|assert (i = 80) as -> by lia; destruct Hr; done].
    destruct r as [[[[[[[a b] c] d] e] f] g] h]. rewrite <- (Z.add_0_r i) in Hr.
    assert (H16 : i + 16 <= 80) by zarith.
    do 16 word_round Hm Hr. apply (IH (i + 16)); [lia|lia|lia|zarith|exact Hr].
Qed.
End rounds.

(** One iteration of the code is the compression function of the standard. *)
Lemma sha512_block_compress state data : bytes_ok data -> 128 <= zlen data ->
  sha512_block state data = Fips512.compress state (ztake 128 data).
Proof.
  intros Hb Hl. unfold sha512_block. fold (Fips512.regs_of state).
  pose proof (at_round_start Fips512.round (Fips512.schedule (ztake 128 data)) (Fips512.regs_of state) (replicate 16 0) eq_refl) as Hr.
  destruct (sha512_rounds_00_15 _ data (Fips512.regs_of state)) as [X r] eqn:E.
  eapply rounds_00_15_spec_512 in E; [|done..].
  rewrite (rounds_16_80_spec data (Fips512.regs_of state) 5 16 X r) by (done || lia).
  unfold Fips512.compress, reg_at. destruct (fold_left _ _ _) as [[[[[[[a b] c] d] e] f] g] h]. done.
Qed.

#[export] Instance sha512_block_func : BlockFunc 128 16 sha512_block_data_order Fips512.compress.
Proof.
  constructor; [lia|]. unfold sha512_block_data_order. intros h data n Hb Hn Hl.
  rewrite <- (Z2Nat.id n) in Hl |- * by lia. rewrite Nat2Z.id.
  apply (blocks_fold 128 Fips512.compress sha512_block sha512_blocks); done || lia || apply sha512_block_compress.
Qed.

(** ** The collector *)

(** The state after the message [m], from the initial value [h0]. *)
Record state_of (h0 m : list Z) (md_len : Z) (c : SHA512_CTX) : Prop := {
  so_collected : collected 128 Fips512.compress h0 m (s5_h c) (s5_p c) (s5_num c);
  so_Nl : s5_Nl c = u64 (8 * zlen m);
  so_Nh : s5_Nh c = u64 (8 * zlen m / 2 ^ 64);
  so_md_len : s5_md_len c = md_len
}.

Lemma sha512_count_spec a len : 0 <= a -> 0 <= len ->
  sha512_count (u64 (8 * a)) (u64 (8 * a / 2 ^ 64)) len = (u64 (8 * (a + len)), u64 (8 * (a + len) / 2 ^ 64)).
Proof.
  intros Ha Hlen. unfold sha512_count. change 0xffffffffffffffff with (2 ^ 64 - 1). rewrite land_mask by lia.
  rewrite Z.shiftl_mul_pow2, Z.shiftr_div_pow2 by lia. change (2 ^ 3) with 8. rewrite u64_add_l, u64_add_r.
  set (x := 8 * a). replace (8 * (a + len)) with (x + 8 * len) by lia.
  replace (len * 8) with (8 * len) by lia. set (y := 8 * len).
  replace (len / 2 ^ 61) with (y / 2 ^ 64) by (unfold y; change (2 ^ 64) with (8 * 2 ^ 61); rewrite Z.div_mul_cancel_l; lia).
  assert (E : u64 (x + y) mod 2 ^ 64 = u64 (x + y)) by (apply Zmod_mod).
  rewrite E. f_equal. clear E. unfold u64. change (2 ^ 64) with 18446744073709551616.
  destruct (Z.ltb_spec ((x + y) mod 18446744073709551616) (x mod 18446744073709551616)); zarith.
Qed.

(** From a block boundary. *)
Lemma update_blocks_state h0 m h Nl Nh p md_len data : bytes_ok data -> collected 128 Fips512.compress h0 m h p 0 ->
  Nl = u64 (8 * zlen (m ++ data)) -> Nh = u64 (8 * zlen (m ++ data) / 2 ^ 64) ->
  state_of h0 (m ++ data) md_len (sha512_update_blocks h Nl Nh p 0 md_len data).
Proof.
  intros Hd Hc HNl HNh. unfold sha512_update_blocks. cbn zeta. pose proof (zlen_nonneg data) as Hl0.
  destruct (collect_blocks 128 16 sha512_block_data_order Fips512.compress h0 m h p data Hd Hc) as (Hq & Hr & Hrm & Hcol).
  set (n := zlen data / 128) in *. pose proof (Z.div_mod (zlen data) 128 ltac:(lia)) as Hdiv. fold n in Hdiv.
  pose proof (Z.mod_pos_bound (zlen data) 128 ltac:(lia)) as Hmb.
  replace (zlen data - zlen data mod 128) with (n * 128) by lia. rewrite Hrm in Hcol.
  assert (Eh : (zlen data >=? 128) = (n >? 0)).
  { destruct (Z.gtb_spec n 0); [apply Z.geb_le|rewrite Z.geb_leb; apply Z.leb_gt]; lia. }
  rewrite Eh. set (rest := zdrop (n * 128) data) in *.
  assert (E : (if n >? 0 then (sha512_block_data_order h data n, rest) else (h, data)) =
    (if n >? 0 then sha512_block_data_order h data n else h, rest)).
  { destruct (Z.gtb_spec n 0); [done|]. unfold rest. assert (n = 0) as -> by lia. rewrite Z.mul_0_l, zdrop_0. done. }
  assert (El : (if n >? 0 then zlen data mod 128 else zlen data) = zlen data mod 128).
  { destruct (Z.gtb_spec n 0); [done|]. assert (n = 0) by lia. lia. }
  rewrite E, El. destruct (Z.eqb_spec (zlen data mod 128) 0) as [Hz|Hz]; cbn [negb].
  - rewrite Hz in *. assert (Hr0 : rest = []) by (apply zlen_zero; lia). rewrite Hr0 in Hcol.
    change (zwrite 0 [] p) with p in Hcol. constructor; done.
  - constructor; [|done..]. cbn [s5_h s5_p s5_num]. unfold s32. rewrite signed_small by (change (2 ^ (32 - 1)) with 2147483648; lia). done.
Qed.

Lemma update_state h0 m md_len c data : bytes_ok data -> state_of h0 m md_len c -> state_of h0 (m ++ data) md_len (SHA512_Update c data).
Proof.
  intros Hd [Hc HNl HNh Hmd]. unfold SHA512_Update. pose proof (zlen_nonneg data) as Hl0. pose proof (zlen_nonneg m) as Hm0.
  pose proof (collected_range 128 16 sha512_block_data_order _ _ _ _ _ _ Hc) as Hn.
  destruct (Z.eqb_spec (zlen data) 0) as [Hz|Hz]; [apply zlen_zero in Hz as ->; rewrite app_nil_r; done|].
  rewrite HNl, HNh, Hmd, sha512_count_spec, <- zlen_app by lia.
  destruct (Z.eqb_spec (s5_num c) 0) as [Hn0|Hn0]; cbn [negb].
  - rewrite Hn0 in *. apply update_blocks_state; done.
  - cbn zeta. destruct (Z.ltb_spec (zlen data) (128 - s5_num c)) as [Hs|Hs].
    + rewrite (u32_small (s5_num c + zlen data)) by lia. constructor; [|done..]. cbn [s5_h s5_p s5_num].
      apply (collect_short 128 16 sha512_block_data_order Fips512.compress); [done|done|lia].
    + set (p := zwrite (s5_num c) (ztake (128 - s5_num c) data) (s5_p c)).
      assert (Hp : zlen p = 128).
      { destruct Hc as [_ _ _ _ Hl]. unfold p. rewrite zlen_zwrite; rewrite ?zlen_ztake; lia. }
      pose proof (collect_fill 128 16 sha512_block_data_order Fips512.compress h0 m _ _ _ data Hd Hc Hs p Hp) as Hc2.
      assert (E : m ++ data = (m ++ ztake (128 - s5_num c) data) ++ zdrop (128 - s5_num c) data)
        by (rewrite <- app_assoc, ztake_zdrop; done).
      rewrite E. apply update_blocks_state; [apply Forall_zdrop; done|exact Hc2|rewrite <- E; done..].
Qed.

(** The buffer keeps its size, in any state. *)
Definition ctx_sized (c : SHA512_CTX) : Prop := 0 <= s5_num c < 128 /\ zlen (s5_p c) = 128.
Lemma update_blocks_sized h Nl Nh p md_len data : zlen p = 128 -> ctx_sized (sha512_update_blocks h Nl Nh p 0 md_len data).
Proof.
  intros Hp. unfold sha512_update_blocks. cbn zeta. pose proof (zlen_nonneg data) as Hl0.
  pose proof (Z.mod_pos_bound (zlen data) 128 ltac:(lia)) as Hmb.
  assert (Hs : forall x, 0 <= x < 128 -> 0 <= s32 x < 128).
  { intros x Hx. unfold s32. rewrite signed_small by (change (2 ^ (32 - 1)) with 2147483648; lia). done. }
  destruct (Z.geb_spec (zlen data) 128) as [H|H].
  - destruct (Z.eqb_spec (zlen data mod 128) 0) as [Hz|Hz]; cbn [negb]; split; cbn [s5_num s5_p].
    + lia.
    + done.
    + apply Hs. lia.
    + rewrite zlen_zwrite; rewrite ?zlen_zdrop; lia.
  - destruct (Z.eqb_spec (zlen data) 0) as [Hz|Hz]; cbn [negb]; split; cbn [s5_num s5_p].
    + lia.
    + done.
    + apply Hs. lia.
    + rewrite zlen_zwrite; lia.
Qed.
Lemma update_sized c data : ctx_sized c -> ctx_sized (SHA512_Update c data).
Proof.
  intros [Hn Hp]. unfold SHA512_Update. pose proof (zlen_nonneg data) as Hl0.
  destruct (zlen data =? 0); [done|]. destruct (sha512_count _ _ _) as [Nl Nh].
  destruct (Z.eqb_spec (s5_num c) 0) as [H0|H0]; cbn [negb]; cbn zeta.
  - rewrite H0. apply update_blocks_sized. done.
  - destruct (Z.ltb_spec (zlen data) (128 - s5_num c)) as [Hs|Hs].
    + split; cbn [s5_num s5_p]; [rewrite u32_small; lia|rewrite zlen_zwrite; lia].
    + apply update_blocks_sized. rewrite zlen_zwrite; rewrite ?zlen_ztake; lia.
Qed.

Lemma updates_state h0 md_len pieces : forall c m, bytes_ok (concat pieces) -> state_of h0 m md_len c ->
  state_of h0 (m ++ concat pieces) md_len (fold_left SHA512_Update pieces c).
Proof.
  induction pieces as [|p pieces IH]; intros c m Hb Hs; cbn [concat fold_left] in *; [rewrite app_nil_r; done|].
  apply Forall_app in Hb as [Hp Hps]. rewrite app_assoc. apply IH; [done|]. apply update_state; done.
Qed.

Definition good_state (h : list Z) : Prop := length h = 8%nat /\ Forall (fun x => 0 <= x < 2 ^ 64) h.

Lemma compress_good_512 H block : good_state (Fips512.compress H block).
Proof.
  unfold Fips512.compress. destruct (fold_left _ _ _) as [[[[[[[a b] c] d] e] f] g] h].
  split; [done|]. cbn [Fips512.list_of Fips512.regs_of zip_with]. repeat constructor; apply u64_range.
Qed.
Lemma hash_good_512 h0 m : good_state h0 -> good_state (Fips512.hash h0 m).
Proof.
  unfold Fips512.hash, md_hash. generalize (chunks 128 (m ++ md_padding 128 16 true (zlen m))). intros l. revert h0.
  induction l as [|b l IH]; intros h0 Hh; [done|]. rewrite fold_left_cons. apply IH, compress_good_512.
Qed.

(** The two stores of the 128-bit length. *)
Lemma store_length_512 a p data : zlen p = 128 - 16 -> ztake (128 - 16) data = p -> zlen data = 128 ->
  zwrite (128 - 8) (CRYPTO_store_u64_be (u64 a)) (zwrite (128 - 16) (CRYPTO_store_u64_be (u64 (a / 2 ^ 64))) data) =
  p ++ be_bytes 16 a.
Proof.
  intros Hp Hd Hl. rewrite !store_u64_be_bytes by apply u64_range.
  rewrite (zwrite_after (128 - 16) p _ data) by done.
  rewrite (zwrite_after (128 - 8) (p ++ be_bytes 8 (u64 (a / 2 ^ 64)))).
  - rewrite zdrop_all, app_nil_r by (rewrite !zlen_app, zlen_zdrop, !zlen_be_bytes, Hp; lia).
    rewrite (be_bytes_add 8 8), <- app_assoc. do 2 f_equal; apply (be_bytes_mod 8).
  - rewrite app_assoc. apply ztake_app. rewrite zlen_app, zlen_be_bytes. lia.
Qed.

Lemma final_digest_512 h0 m c k : good_state h0 -> state_of h0 m (8 * Z.of_nat k) c -> (k <= 8)%nat ->
  (sha512_final_impl false c).1 = Some (Fips512.digest h0 k m).
Proof.
  intros Hg [Hc HNl HNh Hl] Hk.
  pose proof (collect_finish 128 16 sha512_block_data_order Fips512.compress true
    (fun p => zwrite (128 - 8) (CRYPTO_store_u64_be (s5_Nl c)) (zwrite (128 - 16) (CRYPTO_store_u64_be (s5_Nh c)) p))
    h0 m _ _ _ ltac:(intros q d Hq Hd Hlen; rewrite HNl, HNh; apply store_length_512; done) Hc) as Hf.
  fold (Fips512.hash h0 m) in Hf. destruct (hash_good_512 h0 m Hg) as [Hl8 Hr].
  assert (E : (sha512_final_impl false c).1 =
    Some (concat ((fun i => CRYPTO_store_u64_be (znth (Fips512.hash h0 m) i)) <$> zseq (s5_md_len c / 8)))).
  { rewrite <- Hf. unfold sha512_final_impl, md_finish. destruct (s5_num c + 1 >? 128 - 16); done. }
  rewrite E, Hl, Z.mul_comm, Z.div_mul by lia. f_equal. unfold Fips512.digest.
  apply (store_words 8 _ (2 ^ 64)); [lia|lia|done|apply store_u64_be_bytes].
Qed.

Lemma init_state_of_512 h0 p n : zlen p = 128 -> state_of h0 [] n (Sha512Ctx h0 0 0 p 0 n).
Proof. intros Hp. constructor; [|done..]. exact (collected_init 128 16 sha512_block_data_order Fips512.compress h0 p Hp). Qed.

Lemma stream_digest_512 h0 k p pieces : good_state h0 -> (k <= 8)%nat -> zlen p = 128 -> bytes_ok (concat pieces) ->
  (sha512_final_impl false (fold_left SHA512_Update pieces (Sha512Ctx h0 0 0 p 0 (8 * Z.of_nat k)))).1 =
  Some (Fips512.digest h0 k (concat pieces)).
Proof.
  intros Hg Hk Hp Hb. pose proof (updates_state h0 _ pieces _ [] Hb (init_state_of_512 h0 p (8 * Z.of_nat k) Hp)) as Hs.
  rewrite app_nil_l in Hs. apply final_digest_512; done.
Qed.

Lemma init_good_512 : good_state Fips512.H512 /\ good_state Fips512.H384 /\ good_state Fips512.H512_256.
Proof.
  set (c := Sha512Ctx [] 0 0 [] 0 0). rewrite <- (H512_roots c), <- (H384_roots c), <- (H512_256_generated c).
  split_and!; (split; [done|repeat constructor; lia]).
Qed.

(** An initialised context, with its initial value as the standard has it. *)
Lemma sha512_init_ctx c : SHA512_Init c = Sha512Ctx Fips512.H512 0 0 (s5_p c) 0 (8 * Z.of_nat 8).
Proof. rewrite <- (H512_roots c). done. Qed.
Lemma sha384_init_ctx c : SHA384_Init c = Sha512Ctx Fips512.H384 0 0 (s5_p c) 0 (8 * Z.of_nat 6).
Proof. rewrite <- (H384_roots c). done. Qed.
Lemma sha512_256_init_ctx c : SHA512_256_Init c = Sha512Ctx Fips512.H512_256 0 0 (s5_p c) 0 (8 * Z.of_nat 4).
Proof. rewrite <- (H512_256_generated c). done. Qed.

Section stream.
Context (c : SHA512_CTX) (pieces : list (list Z)) (Hp : zlen (s5_p c) = 128) (Hb : bytes_ok (concat pieces)).
Lemma sha512_stream : (SHA512_Final (fold_left SHA512_Update pieces (SHA512_Init c))).1 = Some (Fips512.sha512 (concat pieces)).
Proof using Hp Hb. rewrite sha512_init_ctx. apply (stream_digest_512 Fips512.H512 8 (s5_p c) pieces (proj1 init_good_512)); done || lia. Qed.
Lemma sha384_stream : (SHA384_Final (fold_left SHA384_Update pieces (SHA384_Init c))).1 = Some (Fips512.sha384 (concat pieces)).
Proof using Hp Hb. rewrite sha384_init_ctx. apply (stream_digest_512 Fips512.H384 6 (s5_p c) pieces (proj1 (proj2 init_good_512))); done || lia. Qed.
Lemma sha512_256_stream :
  (SHA512_256_Final (fold_left SHA512_256_Update pieces (SHA512_256_Init c))).1 = Some (Fips512.sha512_256 (concat pieces)).
Proof using Hp Hb. rewrite sha512_256_init_ctx. apply (stream_digest_512 Fips512.H512_256 4 (s5_p c) pieces (proj2 (proj2 init_good_512))); done || lia. Qed.
End stream.

Lemma digest_length_512 h0 k m : good_state h0 -> (k <= 8)%nat -> zlen (Fips512.digest h0 k m) = 8 * Z.of_nat k.
Proof.
  intros Hg Hk. destruct (hash_good_512 h0 m Hg) as [Hl _]. unfold Fips512.digest. rewrite zlen_words_bytes.
  unfold zlen. rewrite length_take. lia.
Qed.
Lemma digest_bytes_512 h0 k m : bytes_ok (Fips512.digest h0 k m).
Proof. apply words_bytes_ok. Qed.

(** C11. SHA-512, SHA-384 and SHA-512/256 are the functions of FIPS 180-4, however the message is
    cut and whatever the context held before: initialising, adding the pieces one after the
    other and finishing writes the standard's digest of their concatenation, and so do the
    one-shot functions. *)
Theorem sha512_correct c pieces : zlen (s5_p c) = 128 -> bytes_ok (concat pieces) ->
  (SHA512_Final (fold_left SHA512_Update pieces (SHA512_Init c))).1 = Some (Fips512.sha512 (concat pieces)) /\
  (SHA384_Final (fold_left SHA384_Update pieces (SHA384_Init c))).1 = Some (Fips512.sha384 (concat pieces)) /\
  (SHA512_256_Final (fold_left SHA512_256_Update pieces (SHA512_256_Init c))).1 = Some (Fips512.sha512_256 (concat pieces)) /\
  SHA512 c (concat pieces) = Some (Fips512.sha512 (concat pieces)) /\
  SHA384 c (concat pieces) = Some (Fips512.sha384 (concat pieces)) /\
  SHA512_256 c (concat pieces) = Some (Fips512.sha512_256 (concat pieces)).
Proof.
  intros Hp Hb. assert (E : concat [concat pieces] = concat pieces) by (cbn [concat]; apply app_nil_r).
  assert (Hb1 : bytes_ok (concat [concat pieces])) by (rewrite E; done).
  pose proof (sha512_stream c _ Hp Hb1) as A. pose proof (sha384_stream c _ Hp Hb1) as B.
  pose proof (sha512_256_stream c _ Hp Hb1) as C. rewrite E in A, B, C.
  split_and!; [apply sha512_stream; done|apply sha384_stream; done|apply sha512_256_stream; done|exact A|exact B|exact C].
Qed.

(** The digest of "abc" in the standard's examples. *)
Lemma sha512_correct_witness :
  (SHA512_Final (fold_left SHA512_Update [[97]; []; [98; 99]] (SHA512_Init (Sha512Ctx [] 0 0 (zeros 128) 0 0)))).1 =
  Some (be_bytes 64 0xddaf35a193617abacc417349ae20413112e6fa4e89a97ea20a9eeee64b55d39a2192992a274fc1a836ba3c23a3feebbd454d4423643ce80e2a9ac94fa54ca49f).
Proof.
  destruct (sha512_correct (Sha512Ctx [] 0 0 (zeros 128) 0 0) [[97]; []; [98; 99]]) as (E & _);
    [reflexivity|repeat constructor; unfold is_byte; lia|].
  rewrite E. vm_compute. reflexivity.
Defined.
