(* ===== verification/Quad.v ===== *)
(** * Digests of 16 little-endian words and four variables.

    MD4 and MD5 read a block as 16 little-endian words and update four working
    variables in turn, one in each step. This file has what the two share: loading
    the words, the steps as a fold over renamed variables, and the digest as
    little-endian bytes. *)

From S2P Require Import Prelude Blocks Mem Collector Md32 Schedule.

(** The working variables, in the order of the next step. *)
Definition quad : Type := Z * Z * Z * Z.

(** [X(i) = CRYPTO_load_u32_le(data); data += 4;] *)
Definition load_word (i : Z) (X data : list Z) : list Z * list Z :=
  (<[Z.to_nat i := CRYPTO_load_u32_le data]> X, zdrop 4 data).

(** ** The standards' view *)

(** Rotation of a word: the [n] bits that leave it come back at the bottom. *)
Definition rotate_left (n x : Z) : Z := x * 2 ^ n mod 2 ^ 32 + x / 2 ^ (32 - n).
(** The words of a block. *)
Definition le_words (block : list Z) : list Z := (fun i => le_val (ztake 4 (zdrop (4 * i) block))) <$> zseq 16.
(** Step [i] replaces the first variable, which then comes second. *)
Definition quad_step (op : Z -> quad -> Z -> Z) (key : Z -> Z) (W : list Z) (r : quad) (i : Z) : quad :=
  let '(a, b, c, d) := r in (d, op i r (znth W (key i)), b, c).
Definition quad_of (h : list Z) : quad := (znth h 0, znth h 1, znth h 2, znth h 3).
Definition list_of_quad (r : quad) : list Z := let '(a, b, c, d) := r in [a; b; c; d].
(** The variables after [n] steps are added to the state. *)
Definition quad_compress (op : Z -> quad -> Z -> Z) (key : Z -> Z) (n : Z) (h block : list Z) : list Z :=
  zip_with (fun x y => u32 (x + y)) (list_of_quad (quad_of h))
    (list_of_quad (reg_at (quad_step op key) (le_words block) (quad_of h) n)).
Definition words_bytes_le (h : list Z) : list Z := concat (le_bytes 4 <$> h).

(** ** Lemmas *)

Lemma rotl_rotate n x : 0 < n < 32 -> 0 <= x < 2 ^ 32 -> CRYPTO_rotl_u32 x n = rotate_left n x.
Proof.
  intros Hn Hx. unfold CRYPTO_rotl_u32, rotate_left. change 31 with (2 ^ 5 - 1). rewrite land_mask by lia. change (2 ^ 5) with 32.
  replace ((- n) mod 32) with (32 - n) by (apply (Z.mod_unique _ _ (-1)); lia).
  rewrite Z.shiftl_mul_pow2, Z.shiftr_div_pow2 by lia. unfold u32.
  assert (E : 2 ^ 32 = 2 ^ n * 2 ^ (32 - n)) by (rewrite <- Z.pow_add_r by lia; f_equal; lia).
  assert (Hq : 0 <= x / 2 ^ (32 - n) < 2 ^ n) by (split; [apply Z.div_pos|apply Z.div_lt_upper_bound]; lia).
  rewrite E, (Z.mul_comm x), Zmult_mod_distr_l, (Z.mul_comm (2 ^ n)). apply (lor_add_mul n); lia.
Qed.

Lemma words_bytes_le_ok h : bytes_ok (words_bytes_le h).
Proof. unfold words_bytes_le. induction h as [|x h IH]; [constructor|]. cbn [fmap list_fmap concat]. apply Forall_app. split; [apply le_bytes_ok|done]. Qed.

Section steps.
Context (op : Z -> quad -> Z -> Z) (key : Z -> Z) (data0 : list Z) (Hlen : 64 <= zlen data0) (r0 : quad).
Notation W := (le_words (ztake 64 data0)).

(** [X] holds the first [k] words, and [data] is what follows them. *)
Record words_loaded (k : Z) (X data : list Z) : Prop := {
  wl_len : zlen X = 16;
  wl_data : data = zdrop (4 * k) data0;
  wl_words : forall j, 0 <= j < k -> znth X j = znth W j
}.

Lemma words_loaded_start X : zlen X = 16 -> words_loaded 0 X data0.
Proof using. intros HX. constructor; [done|rewrite zdrop_0; done|lia]. Qed.

Lemma load_word_step k X data X' data' : 0 <= k < 16 -> words_loaded k X data -> load_word k X data = (X', data') ->
  words_loaded (k + 1) X' data'.
Proof using Hlen.
  intros Hk [HX -> Hw]. unfold load_word. intros [= <- <-]. constructor.
  - rewrite zlen_insert. done.
  - rewrite zdrop_zdrop by lia. f_equal. lia.
  - intros j Hj. rewrite znth_insert by lia. destruct (Z.eqb_spec k j) as [->|Hne]; [|apply Hw; lia].
    unfold le_words. rewrite znth_map_zseq by lia. rewrite (block_word 4 j 64) by lia. unfold CRYPTO_load_u32_le, ztake. done.
Qed.

(** The variables before step [i]. *)
Notation quad_at := (reg_at (quad_step op key) W r0).

(** A step of the code, which computes [op] on the word with number [key i]. *)
Lemma quad_step_at i k X data a b c d a' : 0 <= i -> words_loaded k X data -> (a, b, c, d) = quad_at i -> 0 <= key i < k ->
  a' = op i (a, b, c, d) (znth X (key i)) -> (d, a', b, c) = quad_at (i + 1).
Proof using. intros Hi [_ _ Hw] Hr Hk ->. rewrite reg_at_next, <- Hr by lia. unfold quad_step. rewrite Hw by lia. done. Qed.
End steps.

(** Run the next statement of the code: a load, or a step with the lemma [lem]. *)
Ltac eval_index k H := let k' := eval vm_compute in k in change k with k' in H.
Ltac run_load H :=
  lazymatch goal with |- context [load_word ?k ?X ?data] =>
    let X' := fresh "X" in let data' := fresh "data" in let E := fresh "E" in
    destruct (load_word k X data) as [X' data'] eqn:E;
    eapply load_word_step in H; [|done|lia|exact E]; clear E;
    lazymatch type of H with words_loaded _ ?n _ _ => eval_index n H end
  end.
Ltac run_step lem H Hr :=
  lazymatch goal with |- (let x := ?v in @?body x) = ?rhs -> ?concl =>
    let a := fresh "a" in let E := fresh "E" in
    pose (a := v); change (body a = rhs -> concl); cbv beta;
    assert (E : a = v) by reflexivity; clearbody a;
    lazymatch type of Hr with _ = reg_at _ _ _ ?i =>
      eapply (quad_step_at _ _ _ _ i) with (a' := a) in Hr; [|lia|exact H|vm_compute; done|rewrite E; apply (lem i); vm_compute; done]; clear E;
      lazymatch type of Hr with _ = reg_at _ _ _ ?n => eval_index n Hr end
    end
  end.

(** ** The streaming interface *)

(** The initial state of both digests. *)
Definition quad_H0 : list Z := [0x67452301; 0xefcdab89; 0x98badcfe; 0x10325476].

Section stream.
Context (op : Z -> quad -> Z -> Z) (key : Z -> Z) (n : Z).
Context (block_func : list Z -> list Z -> Z -> list Z) {HB : BlockFunc 64 8 block_func (quad_compress op key n)}.

Definition quad_hash (m : list Z) : list Z := md_hash 64 8 (quad_compress op key n) false quad_H0 m.

Lemma quad_hash_length m : length (quad_hash m) = 4%nat.
Proof using.
  unfold quad_hash, md_hash. generalize (chunks 64 (m ++ md_padding 64 8 false (zlen m))). intros l.
  assert (H : forall h, length h = 4%nat -> length (fold_left (quad_compress op key n) l h) = 4%nat); [|by apply H].
  induction l as [|b l IH]; intros h Hh; [done|]. rewrite fold_left_cons. apply IH. unfold quad_compress, quad_of.
  destruct (reg_at _ _ _ _) as [[[a' b'] c'] d']. done.
Qed.

Lemma quad_stream pieces : bytes_ok (concat pieces) ->
  let h := md_h (crypto_md32_final 64 block_func false (fold_left (crypto_md32_update 64 block_func) pieces (Md32 quad_H0 0 0 (zeros 64) 0))) in
  CRYPTO_store_u32_le (znth h 0) ++ CRYPTO_store_u32_le (znth h 1) ++ CRYPTO_store_u32_le (znth h 2) ++ CRYPTO_store_u32_le (znth h 3) =
  words_bytes_le (quad_hash (concat pieces)).
Proof using HB.
  intros Hb. cbv zeta.
  pose proof (md32_updates_rep 64 block_func (quad_compress op key n) quad_H0 pieces Hb [] _
    (md32_init_rep 64 block_func (quad_compress op key n) quad_H0 (zeros 64) eq_refl)) as Hr.
  pose proof (md32_final_rep 64 block_func (quad_compress op key n) false _ _ _ Hr) as ->. cbn [app].
  fold (quad_hash (concat pieces)). pose proof (quad_hash_length (concat pieces)) as Hl.
  destruct (quad_hash (concat pieces)) as [|w [|x [|y [|z []]]]]; done.
Qed.

Lemma quad_digest_length m : zlen (words_bytes_le (quad_hash m)) = 16.
Proof using.
  pose proof (quad_hash_length m) as Hl. destruct (quad_hash m) as [|w [|x [|y [|z []]]]]; try done.
Qed.
End stream.
