(* ===== verification/Md4.v ===== *)
(** * MD4 (fipsmodule/md4/md4.c).

    Module [Rfc1320] states the function as the RFC does; the collector is that of
    Md32.v, and Quad.v has what MD4 shares with MD5. *)

From S2P Require Import Prelude Blocks Mem Collector Md32 Schedule Quad.

Definition MD4_CBLOCK : Z := 64.
Definition MD4_DIGEST_LENGTH : Z := 16.

(** [md4_state_st] has the fields of the collector only. *)
Definition MD4_CTX : Type := md32.

Definition md4_F (b c d : Z) : Z := Z.lxor (Z.land (Z.lxor c d) b) d.
Definition md4_G (b c d : Z) : Z := Z.lor (Z.lor (Z.land b c) (Z.land b d)) (Z.land c d).
Definition md4_H (b c d : Z) : Z := Z.lxor (Z.lxor b c) d.

(** The new value of [a]. *)
Definition md4_R0 (a b c d k s t : Z) : Z :=
  let a := u32 (a + (k + t + md4_F b c d)) in CRYPTO_rotl_u32 a s.
Definition md4_R1 (a b c d k s t : Z) : Z :=
  let a := u32 (a + (k + t + md4_G b c d)) in CRYPTO_rotl_u32 a s.
Definition md4_R2 (a b c d k s t : Z) : Z :=
  let a := u32 (a + (k + t + md4_H b c d)) in CRYPTO_rotl_u32 a s.

Definition md4_round_0 (X data : list Z) (r : quad) : list Z * quad :=
  let '(A, B, C, D) := r in
  let '(X, data) := load_word 0 X data in
  let '(X, data) := load_word 1 X data in
  let A := md4_R0 A B C D (znth X 0) 3 0 in
  let '(X, data) := load_word 2 X data in
  let D := md4_R0 D A B C (znth X 1) 7 0 in
  let '(X, data) := load_word 3 X data in
  let C := md4_R0 C D A B (znth X 2) 11 0 in
  let '(X, data) := load_word 4 X data in
  let B := md4_R0 B C D A (znth X 3) 19 0 in
  let '(X, data) := load_word 5 X data in
  let A := md4_R0 A B C D (znth X 4) 3 0 in
  let '(X, data) := load_word 6 X data in
  let D := md4_R0 D A B C (znth X 5) 7 0 in
  let '(X, data) := load_word 7 X data in
  let C := md4_R0 C D A B (znth X 6) 11 0 in
  let '(X, data) := load_word 8 X data in
  let B := md4_R0 B C D A (znth X 7) 19 0 in
  let '(X, data) := load_word 9 X data in
  let A := md4_R0 A B C D (znth X 8) 3 0 in
  let '(X, data) := load_word 10 X data in
  let D := md4_R0 D A B C (znth X 9) 7 0 in
  let '(X, data) := load_word 11 X data in
  let C := md4_R0 C D A B (znth X 10) 11 0 in
  let '(X, data) := load_word 12 X data in
  let B := md4_R0 B C D A (znth X 11) 19 0 in
  let '(X, data) := load_word 13 X data in
  let A := md4_R0 A B C D (znth X 12) 3 0 in
  let '(X, data) := load_word 14 X data in
  let D := md4_R0 D A B C (znth X 13) 7 0 in
  let '(X, data) := load_word 15 X data in
  let C := md4_R0 C D A B (znth X 14) 11 0 in
  let B := md4_R0 B C D A (znth X 15) 19 0 in
  (X, (A, B, C, D)).
Definition md4_round_1 (X : list Z) (r : quad) : quad :=
  let '(A, B, C, D) := r in
  let A := md4_R1 A B C D (znth X 0) 3 0x5a827999 in
  let D := md4_R1 D A B C (znth X 4) 5 0x5a827999 in
  let C := md4_R1 C D A B (znth X 8) 9 0x5a827999 in
  let B := md4_R1 B C D A (znth X 12) 13 0x5a827999 in
  let A := md4_R1 A B C D (znth X 1) 3 0x5a827999 in
  let D := md4_R1 D A B C (znth X 5) 5 0x5a827999 in
  let C := md4_R1 C D A B (znth X 9) 9 0x5a827999 in
  let B := md4_R1 B C D A (znth X 13) 13 0x5a827999 in
  let A := md4_R1 A B C D (znth X 2) 3 0x5a827999 in
  let D := md4_R1 D A B C (znth X 6) 5 0x5a827999 in
  let C := md4_R1 C D A B (znth X 10) 9 0x5a827999 in
  let B := md4_R1 B C D A (znth X 14) 13 0x5a827999 in
  let A := md4_R1 A B C D (znth X 3) 3 0x5a827999 in
  let D := md4_R1 D A B C (znth X 7) 5 0x5a827999 in
  let C := md4_R1 C D A B (znth X 11) 9 0x5a827999 in
  let B := md4_R1 B C D A (znth X 15) 13 0x5a827999 in
  (A, B, C, D).
Definition md4_round_2 (X : list Z) (r : quad) : quad :=
  let '(A, B, C, D) := r in
  let A := md4_R2 A B C D (znth X 0) 3 0x6ed9eba1 in
  let D := md4_R2 D A B C (znth X 8) 9 0x6ed9eba1 in
  let C := md4_R2 C D A B (znth X 4) 11 0x6ed9eba1 in
  let B := md4_R2 B C D A (znth X 12) 15 0x6ed9eba1 in
  let A := md4_R2 A B C D (znth X 2) 3 0x6ed9eba1 in
  let D := md4_R2 D A B C (znth X 10) 9 0x6ed9eba1 in
  let C := md4_R2 C D A B (znth X 6) 11 0x6ed9eba1 in
  let B := md4_R2 B C D A (znth X 14) 15 0x6ed9eba1 in
  let A := md4_R2 A B C D (znth X 1) 3 0x6ed9eba1 in
  let D := md4_R2 D A B C (znth X 9) 9 0x6ed9eba1 in
  let C := md4_R2 C D A B (znth X 5) 11 0x6ed9eba1 in
  let B := md4_R2 B C D A (znth X 13) 15 0x6ed9eba1 in
  let A := md4_R2 A B C D (znth X 3) 3 0x6ed9eba1 in
  let D := md4_R2 D A B C (znth X 11) 9 0x6ed9eba1 in
  let C := md4_R2 C D A B (znth X 7) 11 0x6ed9eba1 in
  let B := md4_R2 B C D A (znth X 15) 15 0x6ed9eba1 in
  (A, B, C, D).

(** One iteration of the loop: [A = state[0] += A], and so on. *)
Definition md4_block (state data : list Z) : list Z :=
  let r := (znth state 0, znth state 1, znth state 2, znth state 3) in
  let '(X, r) := md4_round_0 (replicate 16 0) data r in
  let r := md4_round_1 X r in
  let r := md4_round_2 X r in
  let '(A, B, C, D) := r in
  [u32 (znth state 0 + A); u32 (znth state 1 + B); u32 (znth state 2 + C); u32 (znth state 3 + D)].
(** [for (; num--;)]. *)
Fixpoint md4_blocks (num : nat) (state data : list Z) : list Z :=
  match num with
  | O => state
  | S num' => md4_blocks num' (md4_block state data) (zdrop 64 data)
  end.
Definition md4_block_data_order (state data : list Z) (num : Z) : list Z := md4_blocks (Z.to_nat num) state data.

Definition MD4_Init : MD4_CTX := Md32 [0x67452301; 0xefcdab89; 0x98badcfe; 0x10325476] 0 0 (zeros MD4_CBLOCK) 0.
Definition MD4_Update (c : MD4_CTX) (data : list Z) : MD4_CTX := crypto_md32_update MD4_CBLOCK md4_block_data_order c data.
Definition MD4_Transform (c : MD4_CTX) (data : list Z) : MD4_CTX :=
  Md32 (md4_block_data_order (md_h c) data 1) (md_Nl c) (md_Nh c) (md_data c) (md_num c).
(** What is written to [out], and the context. *)
Definition MD4_Final (c : MD4_CTX) : list Z * MD4_CTX :=
  let c := crypto_md32_final MD4_CBLOCK md4_block_data_order false c in
  (CRYPTO_store_u32_le (znth (md_h c) 0) ++ CRYPTO_store_u32_le (znth (md_h c) 1) ++
   CRYPTO_store_u32_le (znth (md_h c) 2) ++ CRYPTO_store_u32_le (znth (md_h c) 3), c).
Definition MD4 (data : list Z) : list Z := (MD4_Final (MD4_Update MD4_Init data)).1.

(** ** The RFC *)

Module Rfc1320.
Definition F (x y z : Z) : Z := Z.lor (Z.land x y) (Z.land (Z.lnot x) z).
Definition G (x y z : Z) : Z := Z.lor (Z.land x y) (Z.lor (Z.land x z) (Z.land y z)).
Definition H (x y z : Z) : Z := Z.lxor x (Z.lxor y z).
(** The constants are 2^30 times the square roots of 2 and 3. *)
Definition op (i : Z) (r : quad) (x : Z) : Z :=
  let '(a, b, c, d) := r in
  let s := znth [3; 7; 11; 19; 3; 5; 9; 13; 3; 9; 11; 15] (4 * (i / 16) + i mod 4) in
  rotate_left s (u32 (a + (if i <? 16 then F b c d else if i <? 32 then G b c d + Z.sqrt (2 * 2 ^ 60) else H b c d + Z.sqrt (3 * 2 ^ 60)) + x)).
(** The order of the words: by rows, by columns, and by bit-reversed index. *)
Definition key (i : Z) : Z :=
  let j := i mod 16 in
  if i <? 16 then j else if i <? 32 then 4 * (j mod 4) + j / 4
  else 8 * (j mod 2) + 4 * (j / 2 mod 2) + 2 * (j / 4 mod 2) + j / 8.
Definition md4 (m : list Z) : list Z := words_bytes_le (quad_hash op key 48 m).
End Rfc1320.

(** ** Equivalence *)

Lemma md4_F_rfc b c d : md4_F b c d = Rfc1320.F b c d.
Proof.
  unfold md4_F, Rfc1320.F. apply Z.bits_inj'. intros n Hn. rewrite Z.lor_spec, Z.lxor_spec, !Z.land_spec, Z.lnot_spec, Z.lxor_spec by done.
  destruct (Z.testbit b n), (Z.testbit c n), (Z.testbit d n); done.
Qed.
Lemma md4_G_rfc b c d : md4_G b c d = Rfc1320.G b c d.
Proof. unfold md4_G, Rfc1320.G. symmetry. apply Z.lor_assoc. Qed.
Lemma md4_H_rfc b c d : md4_H b c d = Rfc1320.H b c d.
Proof. apply Z.lxor_assoc. Qed.

Section steps.
Context (i s : Z) (Hs : s = znth [3; 7; 11; 19; 3; 5; 9; 13; 3; 9; 11; 15] (4 * (i / 16) + i mod 4)) (Hs0 : 0 < s < 32).
Lemma md4_R0_step a b c d x t : i < 16 -> t = 0 -> md4_R0 a b c d x s t = Rfc1320.op i (a, b, c, d) x.
Proof using Hs Hs0.
  intros Hi ->. unfold md4_R0, Rfc1320.op. rewrite (proj2 (Z.ltb_lt i 16)), <- Hs, rotl_rotate by (done || lia || apply u32_range).
  cbv zeta. rewrite md4_F_rfc. do 2 f_equal. ring.
Qed.
Lemma md4_R1_step a b c d x t : 16 <= i < 32 -> t = 0x5a827999 -> md4_R1 a b c d x s t = Rfc1320.op i (a, b, c, d) x.
Proof using Hs Hs0.
  intros Hi ->. unfold md4_R1, Rfc1320.op. rewrite (proj2 (Z.ltb_ge i 16)), (proj2 (Z.ltb_lt i 32)), <- Hs, rotl_rotate by (done || lia || apply u32_range).
  cbv zeta. rewrite md4_G_rfc. change (Z.sqrt (2 * 2 ^ 60)) with 0x5a827999. do 2 f_equal. ring.
Qed.
Lemma md4_R2_step a b c d x t : 32 <= i -> t = 0x6ed9eba1 -> md4_R2 a b c d x s t = Rfc1320.op i (a, b, c, d) x.
Proof using Hs Hs0.
  intros Hi ->. unfold md4_R2, Rfc1320.op. rewrite (proj2 (Z.ltb_ge i 16)), (proj2 (Z.ltb_ge i 32)), <- Hs, rotl_rotate by (done || lia || apply u32_range).
  cbv zeta. rewrite md4_H_rfc. change (Z.sqrt (3 * 2 ^ 60)) with 0x6ed9eba1. do 2 f_equal. ring.
Qed.
End steps.

Section rounds.
Context (data0 : list Z) (Hlen : 64 <= zlen data0) (r0 : quad).
Notation quad_at := (reg_at (quad_step Rfc1320.op Rfc1320.key) (le_words (ztake 64 data0)) r0).
Notation words_loaded := (words_loaded data0).

Lemma md4_round_0_spec X X' r' : zlen X = 16 -> md4_round_0 X data0 r0 = (X', r') -> words_loaded 16 X' (zdrop 64 data0) /\ r' = quad_at 16.
Proof using Hlen.
  intros HX. assert (H : words_loaded 0 X data0) by (apply words_loaded_start; done).
  assert (Hr : r0 = reg_at (quad_step Rfc1320.op Rfc1320.key) (le_words (ztake 64 data0)) r0 0) by done.
  revert Hr. generalize r0 at 1 3. intros [[[a b] c] d] Hr. cbv beta iota delta [md4_round_0].
  do 2 run_load H. run_step md4_R0_step H Hr. do 14 (run_load H; run_step md4_R0_step H Hr). run_step md4_R0_step H Hr.
  intros [= <- <-]. split; [destruct H as [HX' Hd Hw]; constructor; done|exact Hr].
Qed.
Lemma md4_round_1_spec X data r r' : words_loaded 16 X data -> r = quad_at 16 -> md4_round_1 X r = r' -> r' = quad_at 32.
Proof using.
  intros H Hr. destruct r as [[[a b] c] d]. cbv beta iota delta [md4_round_1]. do 16 run_step md4_R1_step H Hr. intros <-. exact Hr.
Qed.
Lemma md4_round_2_spec X data r r' : words_loaded 16 X data -> r = quad_at 32 -> md4_round_2 X r = r' -> r' = quad_at 48.
Proof using.
  intros H Hr. destruct r as [[[a b] c] d]. cbv beta iota delta [md4_round_2]. do 16 run_step md4_R2_step H Hr. intros <-. exact Hr.
Qed.
End rounds.

(** One iteration of the code is the compression function of the RFC. *)
Lemma md4_block_compress state data : bytes_ok data -> 64 <= zlen data -> md4_block state data = quad_compress Rfc1320.op Rfc1320.key 48 state (ztake 64 data).
Proof.
  intros _ Hl. unfold md4_block. fold (quad_of state).
  destruct (md4_round_0 _ data (quad_of state)) as [X r] eqn:E. apply md4_round_0_spec in E as [H Hr]; [|done..].
  destruct (md4_round_1 X _) as [[[a1 b1] c1] d1] eqn:E1. eapply md4_round_1_spec in E1; [|exact H|exact Hr].
  destruct (md4_round_2 X _) as [[[a2 b2] c2] d2] eqn:E2. eapply md4_round_2_spec in E2; [|exact H|exact E1].
  cbv zeta. unfold quad_compress. rewrite <- E2. reflexivity.
Qed.

#[export] Instance md4_block_func : BlockFunc 64 8 md4_block_data_order (quad_compress Rfc1320.op Rfc1320.key 48).
Proof.
  constructor; [lia|]. unfold md4_block_data_order. intros h data n Hb Hn Hl.
  rewrite <- (Z2Nat.id n) in Hl |- * by lia. rewrite Nat2Z.id.
  apply (blocks_fold 64 (quad_compress Rfc1320.op Rfc1320.key 48) md4_block md4_blocks); done || lia || apply md4_block_compress.
Qed.

Lemma md4_stream pieces : bytes_ok (concat pieces) ->
  (MD4_Final (fold_left MD4_Update pieces MD4_Init)).1 = Rfc1320.md4 (concat pieces).
Proof.
  intros Hb. pose proof (quad_stream Rfc1320.op Rfc1320.key 48 md4_block_data_order (HB := md4_block_func) pieces Hb) as H. cbv zeta in H.
  change (fold_left (crypto_md32_update 64 md4_block_data_order)) with (fold_left MD4_Update) in H. exact H.
Qed.
Lemma md4_length m : zlen (Rfc1320.md4 m) = 16.
Proof. apply quad_digest_length. Qed.
Lemma md4_bytes m : bytes_ok (Rfc1320.md4 m).
Proof. apply words_bytes_le_ok. Qed.
