(* ===== verification/Md5.v ===== *)
(** * MD5 (fipsmodule/md5/md5.c).

    Module [Rfc1321] states the function as the RFC does, with the constants
    derived from the sine; the collector is that of Md32.v, and Quad.v has what
    MD5 shares with MD4. *)

From S2P Require Import Prelude Blocks Mem Collector Md32 Schedule Quad Md4.

Definition MD5_CBLOCK : Z := 64.
Definition MD5_DIGEST_LENGTH : Z := 16.

(** [md5_state_st] has the fields of the collector only. *)
Definition MD5_CTX : Type := md32.

Definition md5_F (b c d : Z) : Z := Z.lxor (Z.land (Z.lxor c d) b) d.
Definition md5_G (b c d : Z) : Z := Z.lxor (Z.land (Z.lxor b c) d) c.
Definition md5_H (b c d : Z) : Z := Z.lxor (Z.lxor b c) d.
Definition md5_I (b c d : Z) : Z := Z.lxor (Z.lor (u32 (Z.lnot d)) b) c.

(** The new value of [a]. *)
Definition md5_R0 (a b c d k s t : Z) : Z :=
  let a := u32 (a + (k + t + md5_F b c d)) in
  let a := CRYPTO_rotl_u32 a s in
  u32 (a + b).
Definition md5_R1 (a b c d k s t : Z) : Z :=
  let a := u32 (a + (k + t + md5_G b c d)) in
  let a := CRYPTO_rotl_u32 a s in
  u32 (a + b).
Definition md5_R2 (a b c d k s t : Z) : Z :=
  let a := u32 (a + (k + t + md5_H b c d)) in
  let a := CRYPTO_rotl_u32 a s in
  u32 (a + b).
Definition md5_R3 (a b c d k s t : Z) : Z :=
  let a := u32 (a + (k + t + md5_I b c d)) in
  let a := CRYPTO_rotl_u32 a s in
  u32 (a + b).

Definition md5_round_0 (X data : list Z) (r : quad) : list Z * quad :=
  let '(A, B, C, D) := r in
  let '(X, data) := load_word 0 X data in
  let '(X, data) := load_word 1 X data in
  let A := md5_R0 A B C D (znth X 0) 7 0xd76aa478 in
  let '(X, data) := load_word 2 X data in
  let D := md5_R0 D A B C (znth X 1) 12 0xe8c7b756 in
  let '(X, data) := load_word 3 X data in
  let C := md5_R0 C D A B (znth X 2) 17 0x242070db in
  let '(X, data) := load_word 4 X data in
  let B := md5_R0 B C D A (znth X 3) 22 0xc1bdceee in
  let '(X, data) := load_word 5 X data in
  let A := md5_R0 A B C D (znth X 4) 7 0xf57c0faf in
  let '(X, data) := load_word 6 X data in
  let D := md5_R0 D A B C (znth X 5) 12 0x4787c62a in
  let '(X, data) := load_word 7 X data in
  let C := md5_R0 C D A B (znth X 6) 17 0xa8304613 in
  let '(X, data) := load_word 8 X data in
  let B := md5_R0 B C D A (znth X 7) 22 0xfd469501 in
  let '(X, data) := load_word 9 X data in
  let A := md5_R0 A B C D (znth X 8) 7 0x698098d8 in
  let '(X, data) := load_word 10 X data in
  let D := md5_R0 D A B C (znth X 9) 12 0x8b44f7af in
  let '(X, data) := load_word 11 X data in
  let C := md5_R0 C D A B (znth X 10) 17 0xffff5bb1 in
  let '(X, data) := load_word 12 X data in
  let B := md5_R0 B C D A (znth X 11) 22 0x895cd7be in
  let '(X, data) := load_word 13 X data in
  let A := md5_R0 A B C D (znth X 12) 7 0x6b901122 in
  let '(X, data) := load_word 14 X data in
  let D := md5_R0 D A B C (znth X 13) 12 0xfd987193 in
  let '(X, data) := load_word 15 X data in
  let C := md5_R0 C D A B (znth X 14) 17 0xa679438e in
  let B := md5_R0 B C D A (znth X 15) 22 0x49b40821 in
  (X, (A, B, C, D)).
Definition md5_round_1 (X : list Z) (r : quad) : quad :=
  let '(A, B, C, D) := r in
  let A := md5_R1 A B C D (znth X 1) 5 0xf61e2562 in
  let D := md5_R1 D A B C (znth X 6) 9 0xc040b340 in
  let C := md5_R1 C D A B (znth X 11) 14 0x265e5a51 in
  let B := md5_R1 B C D A (znth X 0) 20 0xe9b6c7aa in
  let A := md5_R1 A B C D (znth X 5) 5 0xd62f105d in
  let D := md5_R1 D A B C (znth X 10) 9 0x02441453 in
  let C := md5_R1 C D A B (znth X 15) 14 0xd8a1e681 in
  let B := md5_R1 B C D A (znth X 4) 20 0xe7d3fbc8 in
  let A := md5_R1 A B C D (znth X 9) 5 0x21e1cde6 in
  let D := md5_R1 D A B C (znth X 14) 9 0xc33707d6 in
  let C := md5_R1 C D A B (znth X 3) 14 0xf4d50d87 in
  let B := md5_R1 B C D A (znth X 8) 20 0x455a14ed in
  let A := md5_R1 A B C D (znth X 13) 5 0xa9e3e905 in
  let D := md5_R1 D A B C (znth X 2) 9 0xfcefa3f8 in
  let C := md5_R1 C D A B (znth X 7) 14 0x676f02d9 in
  let B := md5_R1 B C D A (znth X 12) 20 0x8d2a4c8a in
  (A, B, C, D).
Definition md5_round_2 (X : list Z) (r : quad) : quad :=
  let '(A, B, C, D) := r in
  let A := md5_R2 A B C D (znth X 5) 4 0xfffa3942 in
  let D := md5_R2 D A B C (znth X 8) 11 0x8771f681 in
  let C := md5_R2 C D A B (znth X 11) 16 0x6d9d6122 in
  let B := md5_R2 B C D A (znth X 14) 23 0xfde5380c in
  let A := md5_R2 A B C D (znth X 1) 4 0xa4beea44 in
  let D := md5_R2 D A B C (znth X 4) 11 0x4bdecfa9 in
  let C := md5_R2 C D A B (znth X 7) 16 0xf6bb4b60 in
  let B := md5_R2 B C D A (znth X 10) 23 0xbebfbc70 in
  let A := md5_R2 A B C D (znth X 13) 4 0x289b7ec6 in
  let D := md5_R2 D A B C (znth X 0) 11 0xeaa127fa in
  let C := md5_R2 C D A B (znth X 3) 16 0xd4ef3085 in
  let B := md5_R2 B C D A (znth X 6) 23 0x04881d05 in
  let A := md5_R2 A B C D (znth X 9) 4 0xd9d4d039 in
  let D := md5_R2 D A B C (znth X 12) 11 0xe6db99e5 in
  let C := md5_R2 C D A B (znth X 15) 16 0x1fa27cf8 in
  let B := md5_R2 B C D A (znth X 2) 23 0xc4ac5665 in
  (A, B, C, D).
Definition md5_round_3 (X : list Z) (r : quad) : quad :=
  let '(A, B, C, D) := r in
  let A := md5_R3 A B C D (znth X 0) 6 0xf4292244 in
  let D := md5_R3 D A B C (znth X 7) 10 0x432aff97 in
  let C := md5_R3 C D A B (znth X 14) 15 0xab9423a7 in
  let B := md5_R3 B C D A (znth X 5) 21 0xfc93a039 in
  let A := md5_R3 A B C D (znth X 12) 6 0x655b59c3 in
  let D := md5_R3 D A B C (znth X 3) 10 0x8f0ccc92 in
  let C := md5_R3 C D A B (znth X 10) 15 0xffeff47d in
  let B := md5_R3 B C D A (znth X 1) 21 0x85845dd1 in
  let A := md5_R3 A B C D (znth X 8) 6 0x6fa87e4f in
  let D := md5_R3 D A B C (znth X 15) 10 0xfe2ce6e0 in
  let C := md5_R3 C D A B (znth X 6) 15 0xa3014314 in
  let B := md5_R3 B C D A (znth X 13) 21 0x4e0811a1 in
  let A := md5_R3 A B C D (znth X 4) 6 0xf7537e82 in
  let D := md5_R3 D A B C (znth X 11) 10 0xbd3af235 in
  let C := md5_R3 C D A B (znth X 2) 15 0x2ad7d2bb in
  let B := md5_R3 B C D A (znth X 9) 21 0xeb86d391 in
  (A, B, C, D).

(** One iteration of the loop: [A = state[0] += A], and so on. *)
Definition md5_block (state data : list Z) : list Z :=
  let r := (znth state 0, znth state 1, znth state 2, znth state 3) in
  let '(X, r) := md5_round_0 (replicate 16 0) data r in
  let r := md5_round_1 X r in
  let r := md5_round_2 X r in
  let r := md5_round_3 X r in
  let '(A, B, C, D) := r in
  [u32 (znth state 0 + A); u32 (znth state 1 + B); u32 (znth state 2 + C); u32 (znth state 3 + D)].
(** [for (; num--;)]. *)
Fixpoint md5_blocks (num : nat) (state data : list Z) : list Z :=
  match num with
  | O => state
  | S num' => md5_blocks num' (md5_block state data) (zdrop 64 data)
  end.
Definition md5_block_data_order (state data : list Z) (num : Z) : list Z := md5_blocks (Z.to_nat num) state data.

Definition MD5_Init : MD5_CTX := Md32 [0x67452301; 0xefcdab89; 0x98badcfe; 0x10325476] 0 0 (zeros MD5_CBLOCK) 0.
Definition MD5_Update (c : MD5_CTX) (data : list Z) : MD5_CTX := crypto_md32_update MD5_CBLOCK md5_block_data_order c data.
Definition MD5_Transform (c : MD5_CTX) (data : list Z) : MD5_CTX :=
  Md32 (md5_block_data_order (md_h c) data 1) (md_Nl c) (md_Nh c) (md_data c) (md_num c).
(** What is written to [out], and the context. *)
Definition MD5_Final (c : MD5_CTX) : list Z * MD5_CTX :=
  let c := crypto_md32_final MD5_CBLOCK md5_block_data_order false c in
  (CRYPTO_store_u32_le (znth (md_h c) 0) ++ CRYPTO_store_u32_le (znth (md_h c) 1) ++
   CRYPTO_store_u32_le (znth (md_h c) 2) ++ CRYPTO_store_u32_le (znth (md_h c) 3), c).
Definition MD5 (data : list Z) : list Z := (MD5_Final (MD5_Update MD5_Init data)).1.

(** ** The RFC *)

Module Rfc1321.
Definition F (x y z : Z) : Z := Z.lor (Z.land x y) (Z.land (Z.lnot x) z).
Definition G (x y z : Z) : Z := Z.lor (Z.land x z) (Z.land y (Z.lnot z)).
Definition H (x y z : Z) : Z := Z.lxor x (Z.lxor y z).
Definition I (x y z : Z) : Z := Z.lxor y (Z.lor x (u32 (Z.lnot z))).

(** The integer part of 2^32 |sin x|: the sum of the Taylor series of the sine at
    [x], with 384 fractional bits; the terms that are left out are below the last
    bit for [x] up to 64. *)
Fixpoint sin_series (n : nat) (x k term sum : Z) : Z :=
  match n with
  | O => sum
  | S n' => sin_series n' x (k + 2) (- (term * x * x / ((k + 1) * (k + 2)))) (sum + term)
  end.
Definition T (i : Z) : Z := Z.abs (sin_series 200 i 1 (i * 2 ^ 384) 0) / 2 ^ 352.

(** Step [i], counted from 0. *)
Definition op (i : Z) (r : quad) (x : Z) : Z :=
  let '(a, b, c, d) := r in
  let f := if i <? 16 then F b c d else if i <? 32 then G b c d else if i <? 48 then H b c d else I b c d in
  let s := znth [7; 12; 17; 22; 5; 9; 14; 20; 4; 11; 16; 23; 6; 10; 15; 21] (4 * (i / 16) + i mod 4) in
  u32 (b + rotate_left s (u32 (a + f + x + T (i + 1)))).
Definition key (i : Z) : Z :=
  (if i <? 16 then i else if i <? 32 then 5 * i + 1 else if i <? 48 then 3 * i + 5 else 7 * i) mod 16.
Definition md5 (m : list Z) : list Z := words_bytes_le (quad_hash op key 64 m).
End Rfc1321.

(** ** Equivalence *)

Lemma md5_F_rfc b c d : md5_F b c d = Rfc1321.F b c d.
Proof. exact (md4_F_rfc b c d). Qed.
Lemma md5_G_rfc b c d : md5_G b c d = Rfc1321.G b c d.
Proof.
  unfold md5_G, Rfc1321.G. apply Z.bits_inj'. intros n Hn. rewrite Z.lor_spec, Z.lxor_spec, !Z.land_spec, Z.lnot_spec, Z.lxor_spec by done.
  destruct (Z.testbit b n), (Z.testbit c n), (Z.testbit d n); done.
Qed.
Lemma md5_H_rfc b c d : md5_H b c d = Rfc1321.H b c d.
Proof. apply Z.lxor_assoc. Qed.
Lemma md5_I_rfc b c d : md5_I b c d = Rfc1321.I b c d.
Proof. unfold md5_I, Rfc1321.I. rewrite Z.lxor_comm, Z.lor_comm. done. Qed.

Section steps.
Context (i s t : Z) (Hs0 : 0 < s < 32) (Ht : t = Rfc1321.T (i + 1)).
Context (Hs : s = znth [7; 12; 17; 22; 5; 9; 14; 20; 4; 11; 16; 23; 6; 10; 15; 21] (4 * (i / 16) + i mod 4)).

(** Every round does this with its own function. *)
Lemma md5_step f a b c d x :
  f = (if i <? 16 then Rfc1321.F b c d else if i <? 32 then Rfc1321.G b c d else if i <? 48 then Rfc1321.H b c d else Rfc1321.I b c d) ->
  (let a := u32 (a + (x + t + f)) in let a := CRYPTO_rotl_u32 a s in u32 (a + b)) = Rfc1321.op i (a, b, c, d) x.
Proof using Hs Hs0 Ht.
  intros ->. cbv zeta. unfold Rfc1321.op. rewrite <- Hs, <- Ht, rotl_rotate by (exact Hs0 || apply u32_range).
  cbv zeta. rewrite (Z.add_comm _ b). do 3 f_equal. f_equal. ring.
Qed.
Lemma md5_R0_step a b c d x : i < 16 -> md5_R0 a b c d x s t = Rfc1321.op i (a, b, c, d) x.
Proof using Hs Hs0 Ht. intros Hi. apply md5_step. rewrite (proj2 (Z.ltb_lt i 16)) by lia. apply md5_F_rfc. Qed.
Lemma md5_R1_step a b c d x : 16 <= i < 32 -> md5_R1 a b c d x s t = Rfc1321.op i (a, b, c, d) x.
Proof using Hs Hs0 Ht. intros Hi. apply md5_step. rewrite (proj2 (Z.ltb_ge i 16)), (proj2 (Z.ltb_lt i 32)) by lia. apply md5_G_rfc. Qed.
Lemma md5_R2_step a b c d x : 32 <= i < 48 -> md5_R2 a b c d x s t = Rfc1321.op i (a, b, c, d) x.
Proof using Hs Hs0 Ht.
  intros Hi. apply md5_step. rewrite (proj2 (Z.ltb_ge i 16)), (proj2 (Z.ltb_ge i 32)), (proj2 (Z.ltb_lt i 48)) by lia. apply md5_H_rfc.
Qed.
Lemma md5_R3_step a b c d x : 48 <= i -> md5_R3 a b c d x s t = Rfc1321.op i (a, b, c, d) x.
Proof using Hs Hs0 Ht.
  intros Hi. apply md5_step. rewrite (proj2 (Z.ltb_ge i 16)), (proj2 (Z.ltb_ge i 32)), (proj2 (Z.ltb_ge i 48)) by lia. apply md5_I_rfc.
Qed.
End steps.

Section rounds.
Context (data0 : list Z) (Hlen : 64 <= zlen data0) (r0 : quad).
Notation quad_at := (reg_at (quad_step Rfc1321.op Rfc1321.key) (le_words (ztake 64 data0)) r0).
Notation words_loaded := (words_loaded data0).

Lemma md5_round_0_spec X X' r' : zlen X = 16 -> md5_round_0 X data0 r0 = (X', r') -> words_loaded 16 X' (zdrop 64 data0) /\ r' = quad_at 16.
Proof using Hlen.
  intros HX. assert (H : words_loaded 0 X data0) by (apply words_loaded_start; done).
  assert (Hr : r0 = reg_at (quad_step Rfc1321.op Rfc1321.key) (le_words (ztake 64 data0)) r0 0) by done.
  revert Hr. generalize r0 at 1 3. intros [[[a b] c] d] Hr. cbv beta iota delta [md5_round_0].
  do 2 run_load H. run_step md5_R0_step H Hr. do 14 (run_load H; run_step md5_R0_step H Hr). run_step md5_R0_step H Hr.
  intros [= <- <-]. split; [destruct H as [HX' Hd Hw]; constructor; done|exact Hr].
Qed.
Lemma md5_round_1_spec X data r r' : words_loaded 16 X data -> r = quad_at 16 -> md5_round_1 X r = r' -> r' = quad_at 32.
Proof using.
  intros H Hr. destruct r as [[[a b] c] d]. cbv beta iota delta [md5_round_1]. do 16 run_step md5_R1_step H Hr. intros <-. exact Hr.
Qed.
Lemma md5_round_2_spec X data r r' : words_loaded 16 X data -> r = quad_at 32 -> md5_round_2 X r = r' -> r' = quad_at 48.
Proof using.
  intros H Hr. destruct r as [[[a b] c] d]. cbv beta iota delta [md5_round_2]. do 16 run_step md5_R2_step H Hr. intros <-. exact Hr.
Qed.
Lemma md5_round_3_spec X data r r' : words_loaded 16 X data -> r = quad_at 48 -> md5_round_3 X r = r' -> r' = quad_at 64.
Proof using.
  intros H Hr. destruct r as [[[a b] c] d]. cbv beta iota delta [md5_round_3]. do 16 run_step md5_R3_step H Hr. intros <-. exact Hr.
Qed.
End rounds.

(** One iteration of the code is the compression function of the RFC. *)
Lemma md5_block_compress state data : bytes_ok data -> 64 <= zlen data -> md5_block state data = quad_compress Rfc1321.op Rfc1321.key 64 state (ztake 64 data).
Proof.
  intros _ Hl. unfold md5_block. fold (quad_of state).
  destruct (md5_round_0 _ data (quad_of state)) as [X r] eqn:E. apply md5_round_0_spec in E as [H Hr]; [|done..].
  destruct (md5_round_1 X _) as [[[a1 b1] c1] d1] eqn:E1. eapply md5_round_1_spec in E1; [|exact H|exact Hr].
  destruct (md5_round_2 X _) as [[[a2 b2] c2] d2] eqn:E2. eapply md5_round_2_spec in E2; [|exact H|exact E1].
  destruct (md5_round_3 X _) as [[[a3 b3] c3] d3] eqn:E3. eapply md5_round_3_spec in E3; [|exact H|exact E2].
  cbv zeta. unfold quad_compress. rewrite <- E3. reflexivity.
Qed.

#[export] Instance md5_block_func : BlockFunc 64 8 md5_block_data_order (quad_compress Rfc1321.op Rfc1321.key 64).
Proof.
  constructor; [lia|]. unfold md5_block_data_order. intros h data n Hb Hn Hl.
  rewrite <- (Z2Nat.id n) in Hl |- * by lia. rewrite Nat2Z.id.
  apply (blocks_fold 64 (quad_compress Rfc1321.op Rfc1321.key 64) md5_block md5_blocks); done || lia || apply md5_block_compress.
Qed.

Lemma md5_stream pieces : bytes_ok (concat pieces) ->
  (MD5_Final (fold_left MD5_Update pieces MD5_Init)).1 = Rfc1321.md5 (concat pieces).
Proof.
  intros Hb. pose proof (quad_stream Rfc1321.op Rfc1321.key 64 md5_block_data_order (HB := md5_block_func) pieces Hb) as H. cbv zeta in H.
  change (fold_left (crypto_md32_update 64 md5_block_data_order)) with (fold_left MD5_Update) in H. exact H.
Qed.
Lemma md5_length m : zlen (Rfc1321.md5 m) = 16.
Proof. apply quad_digest_length. Qed.
Lemma md5_bytes m : bytes_ok (Rfc1321.md5 m).
Proof. apply words_bytes_le_ok. Qed.

(** C13. MD5 and MD4 are the functions of RFC 1321 and RFC 1320, however the message is
    cut: initialising, adding the pieces one after the other and finishing writes the
    RFC's digest of their concatenation, and so do the one-shot functions. *)
Theorem md5_correct pieces : bytes_ok (concat pieces) ->
  (MD5_Final (fold_left MD5_Update pieces MD5_Init)).1 = Rfc1321.md5 (concat pieces) /\
  (MD4_Final (fold_left MD4_Update pieces MD4_Init)).1 = Rfc1320.md4 (concat pieces) /\
  MD5 (concat pieces) = Rfc1321.md5 (concat pieces) /\ MD4 (concat pieces) = Rfc1320.md4 (concat pieces).
Proof.
  intros Hb. assert (E : concat [concat pieces] = concat pieces) by (cbn [concat]; apply app_nil_r).
  split_and!; [apply md5_stream; done|apply md4_stream; done|..]; rewrite <- E at 2;
    [apply (md5_stream [concat pieces])|apply (md4_stream [concat pieces])]; rewrite E; done.
Qed.

(** The digests of "abc" in the RFCs. *)
Lemma md5_correct_witness :
  (MD5_Final (fold_left MD5_Update [[97]; []; [98; 99]] MD5_Init)).1 = be_bytes 16 0x900150983cd24fb0d6963f7d28e17f72 /\
  (MD4_Final (fold_left MD4_Update [[97]; []; [98; 99]] MD4_Init)).1 = be_bytes 16 0xa448017aaf21d8525fc10ae87aa6729d.
Proof.
  destruct (md5_correct [[97]; []; [98; 99]]) as (E5 & E4 & _); [repeat constructor; unfold is_byte; lia|].
  rewrite E5, E4. split; vm_compute; reflexivity.
Defined.
