(* ===== verification/Sha1.v ===== *)
(** * SHA-1 (fipsmodule/sha/sha1.c).

    The block function renames six working variables instead of moving five,
    and keeps the last 16 words of the schedule in place. Module [Fips1] states
    the function as FIPS 180-4 does; the collector is that of Md32.v. *)

From S2P Require Import Prelude Blocks Mem Collector Md32 Schedule.

Definition SHA_CBLOCK : Z := 64.
Definition SHA_DIGEST_LENGTH : Z := 20.

(** [sha_state_st] has the fields of the collector only. *)
Definition SHA_CTX : Type := md32.

(** The variables [XX0] to [XX15] are an array. [Xupdate] returns the new value
    of [a] and the array. *)
Definition Xupdate (ix ia ib ic id : Z) (X : list Z) : Z * list Z :=
  let a := Z.lxor (Z.lxor (Z.lxor (znth X ia) (znth X ib)) (znth X ic)) (znth X id) in
  let a := CRYPTO_rotl_u32 a 1 in
  (a, <[Z.to_nat ix := a]> X).

Definition K_00_19 : Z := 0x5a827999.
Definition K_20_39 : Z := 0x6ed9eba1.
Definition K_40_59 : Z := 0x8f1bbcdc.
Definition K_60_79 : Z := 0xca62c1d6.

Definition F_00_19 (b c d : Z) : Z := Z.lxor (Z.land (Z.lxor c d) b) d.
Definition F_20_39 (b c d : Z) : Z := Z.lxor (Z.lxor b c) d.
Definition F_40_59 (b c d : Z) : Z := Z.lor (Z.land b c) (Z.land (Z.lor b c) d).
Definition F_60_79 (b c d : Z) : Z := F_20_39 b c d.

(** The new values of [b], [f] and, from round 16, the array. *)
Definition BODY_00_15 (i a b c d e xi : Z) : Z * Z :=
  let f := u32 (xi + e + K_00_19 + CRYPTO_rotl_u32 a 5 + F_00_19 b c d) in
  (CRYPTO_rotl_u32 b 30, f).
Definition BODY_16_19 (i a b c d e xi xa xb xc xd : Z) (X : list Z) : Z * Z * list Z :=
  let '(f, X) := Xupdate xi xa xb xc xd X in
  let f := u32 (f + (e + K_00_19 + CRYPTO_rotl_u32 a 5 + F_00_19 b c d)) in
  (CRYPTO_rotl_u32 b 30, f, X).
Definition BODY_20_31 (i a b c d e xi xa xb xc xd : Z) (X : list Z) : Z * Z * list Z :=
  let '(f, X) := Xupdate xi xa xb xc xd X in
  let f := u32 (f + (e + K_20_39 + CRYPTO_rotl_u32 a 5 + F_20_39 b c d)) in
  (CRYPTO_rotl_u32 b 30, f, X).
Definition BODY_32_39 (i a b c d e xa xb xc xd : Z) (X : list Z) : Z * Z * list Z :=
  let '(f, X) := Xupdate xa xa xb xc xd X in
  let f := u32 (f + (e + K_20_39 + CRYPTO_rotl_u32 a 5 + F_20_39 b c d)) in
  (CRYPTO_rotl_u32 b 30, f, X).
Definition BODY_40_59 (i a b c d e xa xb xc xd : Z) (X : list Z) : Z * Z * list Z :=
  let '(f, X) := Xupdate xa xa xb xc xd X in
  let f := u32 (f + (e + K_40_59 + CRYPTO_rotl_u32 a 5 + F_40_59 b c d)) in
  (CRYPTO_rotl_u32 b 30, f, X).
Definition BODY_60_79 (i a b c d e xa xb xc xd : Z) (X : list Z) : Z * Z * list Z :=
  let '(f, X) := Xupdate xa xa xb xc xd X in
  let f := u32 (znth X xa + e + K_60_79 + CRYPTO_rotl_u32 a 5 + F_60_79 b c d) in
  (CRYPTO_rotl_u32 b 30, f, X).

(** [X(i) = CRYPTO_load_u32_be(data); data += 4;] *)
Definition sha1_load (i : Z) (X data : list Z) : list Z * list Z :=
  (<[Z.to_nat i := CRYPTO_load_u32_be data]> X, zdrop 4 data).

(** The five live variables, in the order of the standard. *)
Definition regs : Type := Z * Z * Z * Z * Z.

Definition sha1_rounds_00_15 (X data : list Z) (r : regs) : list Z * regs :=
  let '(A, B, C, D, E) := r in
  let '(X, data) := sha1_load 0 X data in
  let '(X, data) := sha1_load 1 X data in
  let '(B, T) := BODY_00_15 0 A B C D E (znth X 0) in
  let '(X, data) := sha1_load 2 X data in
  let '(A, E) := BODY_00_15 1 T A B C D (znth X 1) in
  let '(X, data) := sha1_load 3 X data in
  let '(T, D) := BODY_00_15 2 E T A B C (znth X 2) in
  let '(X, data) := sha1_load 4 X data in
  let '(E, C) := BODY_00_15 3 D E T A B (znth X 3) in
  let '(X, data) := sha1_load 5 X data in
  let '(D, B) := BODY_00_15 4 C D E T A (znth X 4) in
  let '(X, data) := sha1_load 6 X data in
  let '(C, A) := BODY_00_15 5 B C D E T (znth X 5) in
  let '(X, data) := sha1_load 7 X data in
  let '(B, T) := BODY_00_15 6 A B C D E (znth X 6) in
  let '(X, data) := sha1_load 8 X data in
  let '(A, E) := BODY_00_15 7 T A B C D (znth X 7) in
  let '(X, data) := sha1_load 9 X data in
  let '(T, D) := BODY_00_15 8 E T A B C (znth X 8) in
  let '(X, data) := sha1_load 10 X data in
  let '(E, C) := BODY_00_15 9 D E T A B (znth X 9) in
  let '(X, data) := sha1_load 11 X data in
  let '(D, B) := BODY_00_15 10 C D E T A (znth X 10) in
  let '(X, data) := sha1_load 12 X data in
  let '(C, A) := BODY_00_15 11 B C D E T (znth X 11) in
  let '(X, data) := sha1_load 13 X data in
  let '(B, T) := BODY_00_15 12 A B C D E (znth X 12) in
  let '(X, data) := sha1_load 14 X data in
  let '(A, E) := BODY_00_15 13 T A B C D (znth X 13) in
  let '(X, data) := sha1_load 15 X data in
  let '(T, D) := BODY_00_15 14 E T A B C (znth X 14) in
  let '(E, C) := BODY_00_15 15 D E T A B (znth X 15) in
  (X, (C, D, E, T, A)).
Definition sha1_rounds_16_19 (X : list Z) (r : regs) : list Z * regs :=
  let '(C, D, E, T, A) := r in
  let '(D, B, X) := BODY_16_19 16 C D E T A 0 0 2 8 13 X in
  let '(C, A, X) := BODY_16_19 17 B C D E T 1 1 3 9 14 X in
  let '(B, T, X) := BODY_16_19 18 A B C D E 2 2 4 10 15 X in
  let '(A, E, X) := BODY_16_19 19 T A B C D 3 3 5 11 0 X in
  (X, (E, T, A, B, C)).
Definition sha1_rounds_20_31 (X : list Z) (r : regs) : list Z * regs :=
  let '(E, T, A, B, C) := r in
  let '(T, D, X) := BODY_20_31 20 E T A B C 4 4 6 12 1 X in
  let '(E, C, X) := BODY_20_31 21 D E T A B 5 5 7 13 2 X in
  let '(D, B, X) := BODY_20_31 22 C D E T A 6 6 8 14 3 X in
  let '(C, A, X) := BODY_20_31 23 B C D E T 7 7 9 15 4 X in
  let '(B, T, X) := BODY_20_31 24 A B C D E 8 8 10 0 5 X in
  let '(A, E, X) := BODY_20_31 25 T A B C D 9 9 11 1 6 X in
  let '(T, D, X) := BODY_20_31 26 E T A B C 10 10 12 2 7 X in
  let '(E, C, X) := BODY_20_31 27 D E T A B 11 11 13 3 8 X in
  let '(D, B, X) := BODY_20_31 28 C D E T A 12 12 14 4 9 X in
  let '(C, A, X) := BODY_20_31 29 B C D E T 13 13 15 5 10 X in
  let '(B, T, X) := BODY_20_31 30 A B C D E 14 14 0 6 11 X in
  let '(A, E, X) := BODY_20_31 31 T A B C D 15 15 1 7 12 X in
  (X, (E, T, A, B, C)).
Definition sha1_rounds_32_39 (X : list Z) (r : regs) : list Z * regs :=
  let '(E, T, A, B, C) := r in
  let '(T, D, X) := BODY_32_39 32 E T A B C 0 2 8 13 X in
  let '(E, C, X) := BODY_32_39 33 D E T A B 1 3 9 14 X in
  let '(D, B, X) := BODY_32_39 34 C D E T A 2 4 10 15 X in
  let '(C, A, X) := BODY_32_39 35 B C D E T 3 5 11 0 X in
  let '(B, T, X) := BODY_32_39 36 A B C D E 4 6 12 1 X in
  let '(A, E, X) := BODY_32_39 37 T A B C D 5 7 13 2 X in
  let '(T, D, X) := BODY_32_39 38 E T A B C 6 8 14 3 X in
  let '(E, C, X) := BODY_32_39 39 D E T A B 7 9 15 4 X in
  (X, (C, D, E, T, A)).
Definition sha1_rounds_40_59 (X : list Z) (r : regs) : list Z * regs :=
  let '(C, D, E, T, A) := r in
  let '(D, B, X) := BODY_40_59 40 C D E T A 8 10 0 5 X in
  let '(C, A, X) := BODY_40_59 41 B C D E T 9 11 1 6 X in
  let '(B, T, X) := BODY_40_59 42 A B C D E 10 12 2 7 X in
  let '(A, E, X) := BODY_40_59 43 T A B C D 11 13 3 8 X in
  let '(T, D, X) := BODY_40_59 44 E T A B C 12 14 4 9 X in
  let '(E, C, X) := BODY_40_59 45 D E T A B 13 15 5 10 X in
  let '(D, B, X) := BODY_40_59 46 C D E T A 14 0 6 11 X in
  let '(C, A, X) := BODY_40_59 47 B C D E T 15 1 7 12 X in
  let '(B, T, X) := BODY_40_59 48 A B C D E 0 2 8 13 X in
  let '(A, E, X) := BODY_40_59 49 T A B C D 1 3 9 14 X in
  let '(T, D, X) := BODY_40_59 50 E T A B C 2 4 10 15 X in
  let '(E, C, X) := BODY_40_59 51 D E T A B 3 5 11 0 X in
  let '(D, B, X) := BODY_40_59 52 C D E T A 4 6 12 1 X in
  let '(C, A, X) := BODY_40_59 53 B C D E T 5 7 13 2 X in
  let '(B, T, X) := BODY_40_59 54 A B C D E 6 8 14 3 X in
  let '(A, E, X) := BODY_40_59 55 T A B C D 7 9 15 4 X in
  let '(T, D, X) := BODY_40_59 56 E T A B C 8 10 0 5 X in
  let '(E, C, X) := BODY_40_59 57 D E T A B 9 11 1 6 X in
  let '(D, B, X) := BODY_40_59 58 C D E T A 10 12 2 7 X in
  let '(C, A, X) := BODY_40_59 59 B C D E T 11 13 3 8 X in
  (X, (A, B, C, D, E)).
Definition sha1_rounds_60_79 (X : list Z) (r : regs) : list Z * regs :=
  let '(A, B, C, D, E) := r in
  let '(B, T, X) := BODY_60_79 60 A B C D E 12 14 4 9 X in
  let '(A, E, X) := BODY_60_79 61 T A B C D 13 15 5 10 X in
  let '(T, D, X) := BODY_60_79 62 E T A B C 14 0 6 11 X in
  let '(E, C, X) := BODY_60_79 63 D E T A B 15 1 7 12 X in
  let '(D, B, X) := BODY_60_79 64 C D E T A 0 2 8 13 X in
  let '(C, A, X) := BODY_60_79 65 B C D E T 1 3 9 14 X in
  let '(B, T, X) := BODY_60_79 66 A B C D E 2 4 10 15 X in
  let '(A, E, X) := BODY_60_79 67 T A B C D 3 5 11 0 X in
  let '(T, D, X) := BODY_60_79 68 E T A B C 4 6 12 1 X in
  let '(E, C, X) := BODY_60_79 69 D E T A B 5 7 13 2 X in
  let '(D, B, X) := BODY_60_79 70 C D E T A 6 8 14 3 X in
  let '(C, A, X) := BODY_60_79 71 B C D E T 7 9 15 4 X in
  let '(B, T, X) := BODY_60_79 72 A B C D E 8 10 0 5 X in
  let '(A, E, X) := BODY_60_79 73 T A B C D 9 11 1 6 X in
  let '(T, D, X) := BODY_60_79 74 E T A B C 10 12 2 7 X in
  let '(E, C, X) := BODY_60_79 75 D E T A B 11 13 3 8 X in
  let '(D, B, X) := BODY_60_79 76 C D E T A 12 14 4 9 X in
  let '(C, A, X) := BODY_60_79 77 B C D E T 13 15 5 10 X in
  let '(B, T, X) := BODY_60_79 78 A B C D E 14 0 6 11 X in
  let '(A, E, X) := BODY_60_79 79 T A B C D 15 1 7 12 X in
  (X, (E, T, A, B, C)).

(** One iteration of the loop. *)
Definition sha1_block (state data : list Z) : list Z :=
  let r := (znth state 0, znth state 1, znth state 2, znth state 3, znth state 4) in
  let '(X, r) := sha1_rounds_00_15 (replicate 16 0) data r in
  let '(X, r) := sha1_rounds_16_19 X r in
  let '(X, r) := sha1_rounds_20_31 X r in
  let '(X, r) := sha1_rounds_32_39 X r in
  let '(X, r) := sha1_rounds_40_59 X r in
  let '(X, r) := sha1_rounds_60_79 X r in
  let '(E, T, A, B, C) := r in
  [Z.land (u32 (znth state 0 + E)) 0xffffffff; Z.land (u32 (znth state 1 + T)) 0xffffffff;
   Z.land (u32 (znth state 2 + A)) 0xffffffff; Z.land (u32 (znth state 3 + B)) 0xffffffff;
   Z.land (u32 (znth state 4 + C)) 0xffffffff].

(** The loop ends when [--num == 0]; the callers pass at least one block. *)
Fixpoint sha1_blocks (num : nat) (state data : list Z) : list Z :=
  match num with
  | O => state
  | S num' => sha1_blocks num' (sha1_block state data) (zdrop 64 data)
  end.
Definition sha1_block_data_order (state data : list Z) (num : Z) : list Z := sha1_blocks (Z.to_nat num) state data.

Definition SHA1_Init : SHA_CTX :=
  Md32 [0x67452301; 0xefcdab89; 0x98badcfe; 0x10325476; 0xc3d2e1f0] 0 0 (zeros SHA_CBLOCK) 0.
Definition SHA1_Update (c : SHA_CTX) (data : list Z) : SHA_CTX := crypto_md32_update SHA_CBLOCK sha1_block_data_order c data.
Definition SHA1_Transform (c : SHA_CTX) (data : list Z) : SHA_CTX :=
  Md32 (sha1_block_data_order (md_h c) data 1) (md_Nl c) (md_Nh c) (md_data c) (md_num c).
(** What is written to [out], and the context. *)
Definition SHA1_Final (c : SHA_CTX) : list Z * SHA_CTX :=
  let c := crypto_md32_final SHA_CBLOCK sha1_block_data_order true c in
  (CRYPTO_store_u32_be (znth (md_h c) 0) ++ CRYPTO_store_u32_be (znth (md_h c) 1) ++ CRYPTO_store_u32_be (znth (md_h c) 2) ++
   CRYPTO_store_u32_be (znth (md_h c) 3) ++ CRYPTO_store_u32_be (znth (md_h c) 4), c).
Definition SHA1 (data : list Z) : list Z := (SHA1_Final (SHA1_Update SHA1_Init data)).1.

(** ** The standard *)

Module Fips1.
(** The constants are 2^30 times the square roots of 2, 3, 5 and 10. *)
Definition K (t : Z) : Z :=
  Z.sqrt (2 ^ 60 * (if t <? 20 then 2 else if t <? 40 then 3 else if t <? 60 then 5 else 10)).
Definition ROTL (n x : Z) : Z := Z.lor (u32 (Z.shiftl x n)) (Z.shiftr x (32 - n)).
Definition Ch (x y z : Z) : Z := Z.lxor (Z.land x y) (Z.land (Z.lnot x) z).
Definition Parity (x y z : Z) : Z := Z.lxor (Z.lxor x y) z.
Definition Maj (x y z : Z) : Z := Z.lxor (Z.lxor (Z.land x y) (Z.land x z)) (Z.land y z).
Definition f (t x y z : Z) : Z :=
  if t <? 20 then Ch x y z else if t <? 40 then Parity x y z else if t <? 60 then Maj x y z else Parity x y z.

Definition next_word (W : list Z) : Z :=
  let t := zlen W in
  ROTL 1 (Z.lxor (Z.lxor (Z.lxor (znth W (t - 3)) (znth W (t - 8))) (znth W (t - 14))) (znth W (t - 16))).
Definition block_words (block : list Z) : list Z := (fun i => be_val (ztake 4 (zdrop (4 * i) block))) <$> zseq 16.
Definition schedule (block : list Z) : list Z := extend next_word (block_words block) 64.

Definition round (W : list Z) (r : regs) (t : Z) : regs :=
  let '(a, b, c, d, e) := r in
  (u32 (ROTL 5 a + f t b c d + e + K t + znth W t), a, ROTL 30 b, c, d).
Definition regs_of (H : list Z) : regs := (znth H 0, znth H 1, znth H 2, znth H 3, znth H 4).
Definition list_of (r : regs) : list Z := let '(a, b, c, d, e) := r in [a; b; c; d; e].
Definition compress (H block : list Z) : list Z :=
  zip_with (fun x y => u32 (x + y)) (list_of (regs_of H)) (list_of (fold_left (round (schedule block)) (zseq 80) (regs_of H))).

Definition H0 : list Z := [0x67452301; 0xefcdab89; 0x98badcfe; 0x10325476; 0xc3d2e1f0].
Definition hash (h0 m : list Z) : list Z := md_hash 64 8 compress true h0 m.
Definition sha1 (m : list Z) : list Z := words_bytes 4 (hash H0 m).
End Fips1.

(** ** The functions and constants of the rounds *)

Lemma F_00_19_ch b c d : F_00_19 b c d = Fips1.Ch b c d.
Proof.
  unfold F_00_19, Fips1.Ch. apply Z.bits_inj'. intros n Hn. rewrite !Z.lxor_spec, !Z.land_spec, Z.lnot_spec, Z.lxor_spec by done.
  destruct (Z.testbit b n), (Z.testbit c n), (Z.testbit d n); done.
Qed.
Lemma F_40_59_maj b c d : F_40_59 b c d = Fips1.Maj b c d.
Proof.
  unfold F_40_59, Fips1.Maj. apply Z.bits_inj'. intros n Hn. rewrite Z.lor_spec, !Z.lxor_spec, !Z.land_spec, Z.lor_spec.
  destruct (Z.testbit b n), (Z.testbit c n), (Z.testbit d n); done.
Qed.

Lemma K_roots : K_00_19 = Fips1.K 0 /\ K_20_39 = Fips1.K 20 /\ K_40_59 = Fips1.K 40 /\ K_60_79 = Fips1.K 60.
Proof. vm_compute. done. Qed.

Lemma rotl_fips n x : 0 < n < 32 -> CRYPTO_rotl_u32 x n = Fips1.ROTL n x.
Proof.
  intros Hn. unfold CRYPTO_rotl_u32, Fips1.ROTL. change 31 with (2 ^ 5 - 1). rewrite land_mask by lia. change (2 ^ 5) with 32.
  do 2 f_equal. symmetry. apply (Z.mod_unique _ _ (-1)); lia.
Qed.

(** The round function and constant, by the macro. *)
Lemma f_K t b c d : 0 <= t < 80 ->
  (Fips1.f t b c d, Fips1.K t) =
  (if t <? 20 then (F_00_19 b c d, K_00_19) else if t <? 40 then (F_20_39 b c d, K_20_39)
   else if t <? 60 then (F_40_59 b c d, K_40_59) else (F_60_79 b c d, K_60_79)).
Proof.
  intros Ht. destruct K_roots as (E1 & E2 & E3 & E4). rewrite F_00_19_ch, F_40_59_maj, E1, E2, E3, E4. unfold Fips1.f, Fips1.K.
  destruct (t <? 20), (t <? 40), (t <? 60); done.
Qed.

(** ** The schedule *)

Lemma zlen_block_words_1 block : zlen (Fips1.block_words block) = 16.
Proof. unfold Fips1.block_words. rewrite zlen_map. done. Qed.

Lemma schedule_first_1 block i : 0 <= i < 16 -> znth (Fips1.schedule block) i = be_val (ztake 4 (zdrop (4 * i) block)).
Proof.
  intros Hi. unfold Fips1.schedule. rewrite extend_first by (apply zlen_block_words_1 || done).
  unfold Fips1.block_words. rewrite znth_map_zseq by lia. done.
Qed.

Lemma schedule_next_1 block i : 16 <= i < 80 ->
  znth (Fips1.schedule block) i =
    Fips1.ROTL 1 (Z.lxor (Z.lxor (Z.lxor (znth (Fips1.schedule block) (i - 3)) (znth (Fips1.schedule block) (i - 8)))
      (znth (Fips1.schedule block) (i - 14))) (znth (Fips1.schedule block) (i - 16))).
Proof.
  intros Hi. unfold Fips1.schedule.
  destruct (extend_next Fips1.next_word (Fips1.block_words block) (zlen_block_words_1 block) 64 i Hi) as (W & -> & HW & Hj).
  unfold Fips1.next_word. rewrite HW, !Hj by lia. done.
Qed.

(** ** The rounds *)

Section rounds.
Context (data0 : list Z) (Hbytes : bytes_ok data0) (Hlen : 64 <= zlen data0) (r0 : regs).
Notation W := (Fips1.schedule (ztake 64 data0)).
Notation at_round := (at_round Fips1.round W r0).
Notation reg_at := (reg_at Fips1.round W r0).

(** [X] holds the first [k] words, and [data] is what follows them. *)
Definition loaded (k : Z) (X data : list Z) : Prop :=
  zlen X = 16 /\ data = zdrop (4 * k) data0 /\ forall j, 0 <= j < k -> znth X j = znth W j.

Lemma load_step_1 k X data X' data' : 0 <= k < 16 -> loaded k X data -> sha1_load k X data = (X', data') -> loaded (k + 1) X' data'.
Proof using Hbytes Hlen.
  intros Hk (HX & -> & Hw). unfold sha1_load. intros [= <- <-]. split_and!.
  - rewrite zlen_insert. done.
  - rewrite zdrop_zdrop by lia. f_equal. lia.
  - intros j Hj. rewrite znth_insert by lia. destruct (Z.eqb_spec k j) as [->|Hne]; [|apply Hw; lia].
    rewrite schedule_first_1, load_u32_be_val by first [apply Forall_zdrop; done | rewrite ?zlen_zdrop; lia].
    rewrite (block_word 4 j 64) by lia. done.
Qed.

Lemma body_00_15_step i k X data a b c d e b' f' : 0 <= i < k -> i < 16 -> loaded k X data ->
  (a, b, c, d, e) = reg_at i -> BODY_00_15 i a b c d e (znth X i) = (b', f') -> (f', a, b', c, d) = reg_at (i + 1).
Proof using.
  intros Hi Hi2 (_ & _ & Hw) Hr. unfold BODY_00_15. intros [= <- <-]. rewrite reg_at_next, <- Hr by lia.
  unfold Fips1.round. pose proof (f_K i b c d ltac:(lia)) as E. rewrite (proj2 (Z.ltb_lt i 20)) in E by lia. injection E as -> ->.
  rewrite !rotl_fips, Hw by lia. repeat (apply (f_equal2 pair); [|done]). apply (f_equal u32). generalize W. intros. ring.
Qed.

Lemma loaded_at_round X data r : loaded 16 X data -> r = reg_at 16 -> at_round 16 X r.
Proof using. intros (HX & _ & Hw) Hr. constructor; [done|done|]. intros j Hj _. rewrite Z.mod_small by lia. apply Hw. lia. Qed.

(** What [Xupdate] does in round [t]. *)
Lemma Xupdate_step t X r : 16 <= t < 80 -> at_round t X r ->
  Xupdate (t mod 16) (t mod 16) ((t + 2) mod 16) ((t + 8) mod 16) ((t + 13) mod 16) X =
  (znth W t, <[Z.to_nat (t mod 16) := znth W t]> X).
Proof using.
  intros Ht Hr. unfold Xupdate. cbn zeta. rewrite rotl_fips by lia.
  match goal with |- (?v, _) = _ => assert (v = znth W t) as -> end; [|done].
  rewrite (schedule_next_1 _ t) by lia. f_equal.
  replace (znth X (t mod 16)) with (znth W (t - 16)) by (rewrite <- (at_round_word _ _ _ _ _ _ 16 Hr) by lia; f_equal; zarith).
  replace ((t + 2) mod 16) with ((t - 14) mod 16) by zarith. replace ((t + 8) mod 16) with ((t - 8) mod 16) by zarith.
  replace ((t + 13) mod 16) with ((t - 3) mod 16) by zarith.
  rewrite !(at_round_word _ _ _ _ _ _ _ Hr) by lia. generalize W. intros w.
  generalize (znth w (t - 16)), (znth w (t - 14)), (znth w (t - 8)), (znth w (t - 3)). clear. intros p q r s.
  rewrite (Z.lxor_comm (Z.lxor (Z.lxor p q) r)), (Z.lxor_comm (Z.lxor p q)), (Z.lxor_comm p), !Z.lxor_assoc. done.
Qed.

(** Round [t] of the macros from 16 on: the indices are those of the code. *)
Lemma macro_step F K t X a b c d e b' f' X' :
  (Fips1.f t b c d, Fips1.K t) = (F b c d, K) -> 16 <= t < 80 -> at_round t X (a, b, c, d, e) ->
  (let '(f, X) := Xupdate (t mod 16) (t mod 16) ((t + 2) mod 16) ((t + 8) mod 16) ((t + 13) mod 16) X in
   (CRYPTO_rotl_u32 b 30, u32 (f + (e + K + CRYPTO_rotl_u32 a 5 + F b c d)), X)) = (b', f', X') ->
  at_round (t + 1) X' (f', a, b', c, d).
Proof using.
  intros [= HF HK] Ht Hr. rewrite (Xupdate_step t X _ Ht Hr). intros [= <- <- <-].
  eapply at_round_next; [lia|exact Hr|done|]. unfold Fips1.round. rewrite HF, HK, !rotl_fips by lia.
  repeat (apply (f_equal2 pair); [|done]). apply (f_equal u32). generalize W. intros. ring.
Qed.

Lemma f_K_range t b c d : 0 <= t < 80 ->
  (t < 20 -> (Fips1.f t b c d, Fips1.K t) = (F_00_19 b c d, K_00_19)) /\
  (20 <= t < 40 -> (Fips1.f t b c d, Fips1.K t) = (F_20_39 b c d, K_20_39)) /\
  (40 <= t < 60 -> (Fips1.f t b c d, Fips1.K t) = (F_40_59 b c d, K_40_59)) /\
  (60 <= t -> (Fips1.f t b c d, Fips1.K t) = (F_60_79 b c d, K_60_79)).
Proof using.
  intros Ht. pose proof (f_K t b c d Ht) as E.
  split_and!; intros H; rewrite E;
    destruct (Z.ltb_spec t 20), (Z.ltb_spec t 40), (Z.ltb_spec t 60); (done || lia).
Qed.

Notation idx t k := ((t + k) mod 16).
Lemma body_16_19_step t X a b c d e b' f' X' : 16 <= t < 20 -> at_round t X (a, b, c, d, e) ->
  BODY_16_19 t a b c d e (t mod 16) (t mod 16) (idx t 2) (idx t 8) (idx t 13) X = (b', f', X') -> at_round (t + 1) X' (f', a, b', c, d).
Proof using. intros Ht. apply (macro_step F_00_19 K_00_19); [apply f_K_range; lia|lia]. Qed.
Lemma body_20_31_step t X a b c d e b' f' X' : 20 <= t < 32 -> at_round t X (a, b, c, d, e) ->
  BODY_20_31 t a b c d e (t mod 16) (t mod 16) (idx t 2) (idx t 8) (idx t 13) X = (b', f', X') -> at_round (t + 1) X' (f', a, b', c, d).
Proof using. intros Ht. apply (macro_step F_20_39 K_20_39); [apply f_K_range; lia|lia]. Qed.
Lemma body_32_39_step t X a b c d e b' f' X' : 32 <= t < 40 -> at_round t X (a, b, c, d, e) ->
  BODY_32_39 t a b c d e (t mod 16) (idx t 2) (idx t 8) (idx t 13) X = (b', f', X') -> at_round (t + 1) X' (f', a, b', c, d).
Proof using. intros Ht. apply (macro_step F_20_39 K_20_39); [apply f_K_range; lia|lia]. Qed.
Lemma body_40_59_step t X a b c d e b' f' X' : 40 <= t < 60 -> at_round t X (a, b, c, d, e) ->
  BODY_40_59 t a b c d e (t mod 16) (idx t 2) (idx t 8) (idx t 13) X = (b', f', X') -> at_round (t + 1) X' (f', a, b', c, d).
Proof using. intros Ht. apply (macro_step F_40_59 K_40_59); [apply f_K_range; lia|lia]. Qed.
Lemma body_60_79_step t X a b c d e b' f' X' : 60 <= t < 80 -> at_round t X (a, b, c, d, e) ->
  BODY_60_79 t a b c d e (t mod 16) (idx t 2) (idx t 8) (idx t 13) X = (b', f', X') -> at_round (t + 1) X' (f', a, b', c, d).
Proof using.
  intros Ht Hr E. apply (macro_step F_60_79 K_60_79 t X a b c d e); [apply f_K_range; lia|lia|done|]. rewrite <- E. unfold BODY_60_79.
  rewrite (Xupdate_step t X _ ltac:(lia) Hr). destruct Hr as [HX _ _]. rewrite znth_insert by (rewrite ?HX; zarith). rewrite Z.eqb_refl.
  do 2 f_equal. f_equal. generalize W. intros. ring.
Qed.

(** Run the next macro of the code. *)
Ltac run_load H :=
  match goal with |- context [sha1_load ?k ?X ?data] =>
    let X' := fresh "X" in let data' := fresh "data" in let E := fresh "E" in
    destruct (sha1_load k X data) as [X' data'] eqn:E;
    eapply load_step_1 in H; [|lia|exact E]; clear E; cbn [Z.add Pos.add Pos.succ] in H
  end.
Ltac run_first H Hr :=
  match goal with |- context [BODY_00_15 ?i ?a ?b ?c ?d ?e ?x] =>
    let E := fresh "E" in
    destruct (BODY_00_15 i a b c d e x) eqn:E;
    eapply body_00_15_step in Hr; [|..|exact H|exact E]; [|lia|lia]; clear E; cbn [Z.add Pos.add Pos.succ] in Hr
  end.
Ltac run_round lem Hr :=
  match goal with |- match ?body with _ => _ end = _ -> _ =>
    let E := fresh "E" in
    destruct body as [[? ?] ?] eqn:E;
    eapply lem in Hr; [|lia|exact E]; clear E; cbn [Z.add Pos.add Pos.succ] in Hr
  end.

Lemma rounds_00_15_spec_1 X r : zlen X = 16 -> r = r0 -> forall X' r',
  sha1_rounds_00_15 X data0 r = (X', r') -> at_round 16 X' r'.
Proof using Hbytes Hlen.
  intros HX Hr0. assert (H : loaded 0 X data0) by (split_and!; [done|rewrite zdrop_0; done|lia]).
  assert (Hr : r = reg_at 0) by exact Hr0. clear Hr0. destruct r as [[[[a b] c] d] e]. unfold sha1_rounds_00_15.
  do 2 run_load H. run_first H Hr. do 14 (run_load H; run_first H Hr). run_first H Hr.
  intros X' r' [= <- <-]. apply (loaded_at_round _ _ _ H Hr).
Qed.

Lemma rounds_16_19_spec X r X' r' : at_round 16 X r -> sha1_rounds_16_19 X r = (X', r') -> at_round 20 X' r'.
Proof using.
  intros Hr. unfold sha1_rounds_16_19. destruct r as [[[[a b] c] d] e].
  do 4 run_round body_16_19_step Hr. intros [= <- <-]. exact Hr.
Qed.
Lemma rounds_20_31_spec X r X' r' : at_round 20 X r -> sha1_rounds_20_31 X r = (X', r') -> at_round 32 X' r'.
Proof using.
  intros Hr. unfold sha1_rounds_20_31. destruct r as [[[[a b] c] d] e].
  do 12 run_round body_20_31_step Hr. intros [= <- <-]. exact Hr.
Qed.
Lemma rounds_32_39_spec X r X' r' : at_round 32 X r -> sha1_rounds_32_39 X r = (X', r') -> at_round 40 X' r'.
Proof using.
  intros Hr. unfold sha1_rounds_32_39. destruct r as [[[[a b] c] d] e].
  do 8 run_round body_32_39_step Hr. intros [= <- <-]. exact Hr.
Qed.
Lemma rounds_40_59_spec X r X' r' : at_round 40 X r -> sha1_rounds_40_59 X r = (X', r') -> at_round 60 X' r'.
Proof using.
  intros Hr. unfold sha1_rounds_40_59. destruct r as [[[[a b] c] d] e].
  do 20 run_round body_40_59_step Hr. intros [= <- <-]. exact Hr.
Qed.
Lemma rounds_60_79_spec X r X' r' : at_round 60 X r -> sha1_rounds_60_79 X r = (X', r') -> at_round 80 X' r'.
Proof using.
  intros Hr. unfold sha1_rounds_60_79. destruct r as [[[[a b] c] d] e].
  do 20 run_round body_60_79_step Hr. intros [= <- <-]. exact Hr.
Qed.
End rounds.

Lemma state_update (state : list Z) r :
  (let '(E, T, A, B, C) := r in
   [Z.land (u32 (znth state 0 + E)) 0xffffffff; Z.land (u32 (znth state 1 + T)) 0xffffffff;
    Z.land (u32 (znth state 2 + A)) 0xffffffff; Z.land (u32 (znth state 3 + B)) 0xffffffff;
    Z.land (u32 (znth state 4 + C)) 0xffffffff]) =
  zip_with (fun x y => u32 (x + y)) (Fips1.list_of (Fips1.regs_of state)) (Fips1.list_of r).
Proof.
  destruct r as [[[[a b] c] d] e]. assert (M : forall x, Z.land (u32 x) 0xffffffff = u32 x).
  { intros x. change 0xffffffff with (2 ^ 32 - 1). rewrite land_mask by lia. apply Zmod_mod. }
  rewrite !M. reflexivity.
Qed.

(** One iteration of the code is the compression function of the standard. *)
Lemma sha1_block_compress state data : bytes_ok data -> 64 <= zlen data ->
  sha1_block state data = Fips1.compress state (ztake 64 data).
Proof.
  intros Hb Hl. unfold sha1_block. fold (Fips1.regs_of state).
  destruct (sha1_rounds_00_15 _ data (Fips1.regs_of state)) as [X1 r1] eqn:E1.
  eapply (rounds_00_15_spec_1 data Hb Hl) in E1; [|done|reflexivity].
  destruct (sha1_rounds_16_19 X1 r1) as [X2 r2] eqn:E2. eapply rounds_16_19_spec in E2; [|exact E1].
  destruct (sha1_rounds_20_31 X2 r2) as [X3 r3] eqn:E3. eapply rounds_20_31_spec in E3; [|exact E2].
  destruct (sha1_rounds_32_39 X3 r3) as [X4 r4] eqn:E4. eapply rounds_32_39_spec in E4; [|exact E3].
  destruct (sha1_rounds_40_59 X4 r4) as [X5 r5] eqn:E5. eapply rounds_40_59_spec in E5; [|exact E4].
  destruct (sha1_rounds_60_79 X5 r5) as [X6 r6] eqn:E6. eapply rounds_60_79_spec in E6; [|exact E5].
  destruct E6 as [_ Hr _]. rewrite state_update, Hr. unfold Fips1.compress, reg_at. reflexivity.
Qed.

#[export] Instance sha1_block_func : BlockFunc SHA_CBLOCK 8 sha1_block_data_order Fips1.compress.
Proof.
  constructor; [unfold SHA_CBLOCK; lia|]. unfold SHA_CBLOCK, sha1_block_data_order. intros h data n Hb Hn Hl.
  rewrite <- (Z2Nat.id n) in Hl |- * by lia. rewrite Nat2Z.id.
  apply (blocks_fold 64 Fips1.compress sha1_block sha1_blocks); done || lia || apply sha1_block_compress.
Qed.

(** ** The streaming interface *)

Definition good_state (h : list Z) : Prop := length h = 5%nat /\ Forall (fun x => 0 <= x < 2 ^ 32) h.

Lemma compress_good_1 H block : good_state (Fips1.compress H block).
Proof.
  unfold Fips1.compress. destruct (fold_left _ _ _) as [[[[a b] c] d] e].
  split; [done|]. cbn [Fips1.list_of Fips1.regs_of zip_with]. repeat constructor; apply u32_range.
Qed.
Lemma H0_good : good_state Fips1.H0.
Proof. split; [done|repeat constructor; lia]. Qed.
Lemma hash_good_1 h0 m : good_state h0 -> good_state (Fips1.hash h0 m).
Proof.
  unfold Fips1.hash, md_hash. generalize (chunks 64 (m ++ md_padding 64 8 true (zlen m))). intros l. revert h0.
  induction l as [|b l IH]; intros h0 Hh; [done|]. rewrite fold_left_cons. apply IH, compress_good_1.
Qed.

Lemma sha1_stream pieces : bytes_ok (concat pieces) ->
  (SHA1_Final (fold_left SHA1_Update pieces SHA1_Init)).1 = Fips1.sha1 (concat pieces).
Proof.
  intros Hb.
  pose proof (md32_updates_rep SHA_CBLOCK sha1_block_data_order Fips1.compress Fips1.H0 pieces Hb [] SHA1_Init
    (md32_init_rep SHA_CBLOCK sha1_block_data_order Fips1.compress Fips1.H0 (zeros SHA_CBLOCK) eq_refl)) as Hr.
  pose proof (md32_final_rep SHA_CBLOCK sha1_block_data_order Fips1.compress true _ _ _ Hr) as Hf.
  rewrite app_nil_l in Hf. change (md_hash SHA_CBLOCK 8 Fips1.compress true) with Fips1.hash in Hf.
  change (fold_left (crypto_md32_update SHA_CBLOCK sha1_block_data_order)) with (fold_left SHA1_Update) in Hf.
  unfold SHA1_Final. cbn zeta. cbn [fst]. rewrite Hf. clear Hf Hr. unfold Fips1.sha1.
  destruct (hash_good_1 _ (concat pieces) H0_good) as [Hl Hr].
  set (h := Fips1.hash Fips1.H0 (concat pieces)) in *. clearbody h.
  pose proof (store_words 4 CRYPTO_store_u32_be (2 ^ 32) h 5 ltac:(lia) ltac:(lia) Hr store_u32_be_bytes) as E.
  rewrite take_ge in E by lia. rewrite <- E.
  change (zseq (Z.of_nat 5)) with [0; 1; 2; 3; 4]. cbn [fmap list_fmap concat]. rewrite app_nil_r. reflexivity.
Qed.

Lemma sha1_length m : zlen (Fips1.sha1 m) = 20.
Proof. unfold Fips1.sha1. rewrite zlen_words_bytes. destruct (hash_good_1 _ m H0_good) as [Hl _]. unfold zlen. rewrite Hl. done. Qed.
Lemma sha1_bytes m : bytes_ok (Fips1.sha1 m).
Proof. apply words_bytes_ok. Qed.

(** C12. SHA-1 is the function of FIPS 180-4, however the message is cut: initialising, adding the
    pieces one after the other and finishing writes the standard's digest of their
    concatenation, and so does the one-shot function. *)
Theorem sha1_correct pieces : bytes_ok (concat pieces) ->
  (SHA1_Final (fold_left SHA1_Update pieces SHA1_Init)).1 = Fips1.sha1 (concat pieces) /\
  SHA1 (concat pieces) = Fips1.sha1 (concat pieces).
Proof.
  intros Hb. split; [apply sha1_stream; done|].
  assert (E : concat [concat pieces] = concat pieces) by (cbn [concat]; apply app_nil_r).
  pose proof (sha1_stream [concat pieces] ltac:(rewrite E; done)) as A. rewrite E in A. exact A.
Qed.

(** The digest of "abc" in the standard's examples. *)
Lemma sha1_correct_witness :
  (SHA1_Final (fold_left SHA1_Update [[97]; []; [98; 99]] SHA1_Init)).1 =
  be_bytes 20 0xa9993e364706816aba3e25717850c26c9cd0d89d.
Proof.
  destruct (sha1_correct [[97]; []; [98; 99]]) as (E & _); [repeat constructor; unfold is_byte; lia|].
  rewrite E. vm_compute. reflexivity.
Defined.
