(* ===== verification/Digest.v ===== *)
(** * Digest contexts (fipsmodule/digest/digest.c and digests.c).

    An [EVP_MD_CTX] owns the state of one digest, which it drives through the
    function table of its [EVP_MD]. Class [DigestLaws] is what a table
    promises; the theorems about contexts, and the code built on them, use
    nothing else. The tables of digests.c are an instance. *)

From S2P Require Import Prelude Mem Collector Md32 Quad Md4 Md5 Sha1 Sha256 Sha512.

Definition EVP_MAX_MD_SIZE : Z := 64.
Definition EVP_MAX_MD_BLOCK_SIZE : Z := 128.

(** [env_md_st]. The functions act on [ctx->md_data], of type [ST]. *)
Record EVP_MD (ST : Type) := EvpMd {
  md_type : Z; md_size : Z; md_flags : Z;
  md_init : ST -> ST; md_update : ST -> list Z -> ST; md_final : ST -> list Z * ST;
  md_block_size : Z; md_ctx_size : Z
}.
Arguments EvpMd {ST}. Arguments md_type {ST}. Arguments md_size {ST}. Arguments md_flags {ST}. Arguments md_init {ST}.
Arguments md_update {ST}. Arguments md_final {ST}. Arguments md_block_size {ST}. Arguments md_ctx_size {ST}.

(** [MD] are the pointers to the tables, compared by identity. [zero_data] is
    the state of zero bytes, [md_malloc_ok] and [fresh_data] are the answer of
    [malloc] and the contents of what it returns; [state_ok] says that a value
    has the C type of the state of a digest (the lengths of its arrays). *)
Class DigestEnv (MD ST : Type) := {
  MD_eq_dec :: EqDecision MD;
  evp_md : MD -> EVP_MD ST;
  zero_data : MD -> ST;
  md_malloc_ok : Z -> bool;
  fresh_data : MD -> ST;
  state_ok : MD -> ST -> Prop
}.

(** [evp_md_pctx_ops], without [free], which changes no state modelled here. *)
Record evp_md_pctx_ops (PCTX : Type) := PctxOps { pctx_dup : PCTX -> option PCTX }.
Arguments PctxOps {PCTX}. Arguments pctx_dup {PCTX}.

Definition isnull {A} (o : option A) : bool := match o with None => true | Some _ => false end.

Section digest.
Context {MD ST PCTX : Type} {DE : DigestEnv MD ST}.

Record EVP_MD_CTX := EvpMdCtx {
  ctx_digest : option MD; ctx_md_data : option ST;
  ctx_pctx : option PCTX; ctx_pctx_ops : option (evp_md_pctx_ops PCTX)
}.

Definition EVP_MD_type (md : MD) : Z := md_type (evp_md md).
Definition EVP_MD_flags (md : MD) : Z := md_flags (evp_md md).
Definition EVP_MD_size (md : MD) : Z := md_size (evp_md md).
Definition EVP_MD_block_size (md : MD) : Z := md_block_size (evp_md md).

(** The context after [EVP_MD_CTX_init], whatever it was. *)
Definition EVP_MD_CTX_init : EVP_MD_CTX := EvpMdCtx None None None None.
(** Frees what the context owns. *)
Definition EVP_MD_CTX_cleanup (ctx : EVP_MD_CTX) : EVP_MD_CTX := EVP_MD_CTX_init.

(** [in->pctx_ops->dup(in->pctx)], when there is a [pctx]; [None] is a failure. *)
Definition dup_pctx (inp : EVP_MD_CTX) : option (option PCTX) :=
  match ctx_pctx inp, ctx_pctx_ops inp with
  | None, _ => Some None
  | Some p, Some ops => Some <$> pctx_dup ops p
  | Some _, None => None
  end.

(** [OPENSSL_memcpy(out->md_data, in->md_data, in->digest->ctx_size)]. *)
Definition memcpy_data (dst src : option ST) : option ST :=
  match dst, src with Some _, Some s => Some s | _, _ => None end.

Definition EVP_MD_CTX_copy_ex (inp : option EVP_MD_CTX) : M EVP_MD_CTX unit := fun out =>
  match inp with
  | None => (None, out)
  | Some inp =>
      if isnull (ctx_pctx inp) && isnull (ctx_digest inp) then (None, out)
      else
        match dup_pctx inp with
        | None => (None, out)
        | Some pctx =>
            match ctx_digest inp with
            | Some d =>
                if negb (bool_decide (ctx_digest out = Some d)) then
                  if OPENSSL_malloc_ok md_malloc_ok (md_ctx_size (evp_md d)) then
                    let tmp_buf := Some (fresh_data d) in
                    (Some tt, EvpMdCtx (Some d) (memcpy_data tmp_buf (ctx_md_data inp)) pctx (ctx_pctx_ops inp))
                  else (None, out)
                else
                  let tmp_buf := ctx_md_data out in
                  (Some tt, EvpMdCtx (Some d) (memcpy_data tmp_buf (ctx_md_data inp)) pctx (ctx_pctx_ops inp))
            | None => (Some tt, EvpMdCtx None None pctx (ctx_pctx_ops inp))
            end
        end
  end.

Definition EVP_MD_CTX_copy (inp : option EVP_MD_CTX) : M EVP_MD_CTX unit := putst EVP_MD_CTX_init ;; EVP_MD_CTX_copy_ex inp.

(** The new contexts [out] and [in]. *)
Definition EVP_MD_CTX_move (out inp : EVP_MD_CTX) : EVP_MD_CTX * EVP_MD_CTX := (inp, EVP_MD_CTX_init).

Definition EVP_MD_CTX_reset (ctx : EVP_MD_CTX) : EVP_MD_CTX := EVP_MD_CTX_init.

(** A call through the table of a context; with no digest or no state it would
    dereference NULL, which the model also answers with [None]. *)
Definition call_digest {A} (f : MD -> ST -> A * ST) : M EVP_MD_CTX A := fun ctx =>
  match ctx_digest ctx, ctx_md_data ctx with
  | Some d, Some s => let '(a, s) := f d s in (Some a, EvpMdCtx (Some d) (Some s) (ctx_pctx ctx) (ctx_pctx_ops ctx))
  | _, _ => (None, ctx)
  end.

Definition EVP_DigestInit_ex (type : MD) : M EVP_MD_CTX unit :=
  let* ctx := getst in
  (if negb (bool_decide (ctx_digest ctx = Some type)) then
     require (OPENSSL_malloc_ok md_malloc_ok (md_ctx_size (evp_md type))) ;;
     putst (EvpMdCtx (Some type) (Some (fresh_data type)) (ctx_pctx ctx) (ctx_pctx_ops ctx))
   else ret tt) ;;
  call_digest (fun d s => (tt, md_init (evp_md d) s)).

Definition EVP_DigestInit (type : MD) : M EVP_MD_CTX unit := putst EVP_MD_CTX_init ;; EVP_DigestInit_ex type.

Definition EVP_DigestUpdate (data : list Z) : M EVP_MD_CTX unit :=
  call_digest (fun d s => (tt, md_update (evp_md d) s data)).

(** [md_out] and [*size]. The state is cleansed. *)
Definition EVP_DigestFinal_ex : M EVP_MD_CTX (list Z * Z) :=
  call_digest (fun d s =>
    let '(md_out, _) := md_final (evp_md d) s in ((md_out, md_size (evp_md d)), zero_data d)).

Definition EVP_DigestFinal : M EVP_MD_CTX (list Z * Z) :=
  let* r := EVP_DigestFinal_ex in
  let* ctx := getst in
  putst (EVP_MD_CTX_cleanup ctx) ;; ret r.

Definition EVP_Digest (data : list Z) (type : MD) : option (list Z * Z) :=
  fst ((EVP_DigestInit_ex type ;; EVP_DigestUpdate data ;; EVP_DigestFinal_ex) EVP_MD_CTX_init).

Definition EVP_MD_CTX_md (ctx : option EVP_MD_CTX) : option MD := ctx ≫= ctx_digest.
Definition EVP_MD_CTX_size (ctx : EVP_MD_CTX) : option Z := EVP_MD_size <$> EVP_MD_CTX_md (Some ctx).
Definition EVP_MD_CTX_block_size (ctx : EVP_MD_CTX) : option Z := EVP_MD_block_size <$> EVP_MD_CTX_md (Some ctx).
Definition EVP_MD_CTX_type (ctx : EVP_MD_CTX) : option Z := EVP_MD_type <$> EVP_MD_CTX_md (Some ctx).
End digest.
Arguments EVP_MD_CTX : clear implicits.

(** ** What a table promises: it computes [hash], however the message is cut. *)

Class DigestLaws {MD ST : Type} (DE : DigestEnv MD ST) (hash : MD -> list Z -> list Z) : Prop := {
  law_sizes md : 0 < EVP_MD_size md <= EVP_MD_block_size md /\
    EVP_MD_size md <= EVP_MAX_MD_SIZE /\ EVP_MD_block_size md <= EVP_MAX_MD_BLOCK_SIZE;
  law_fresh md : state_ok md (fresh_data md);
  law_zero md : state_ok md (zero_data md);
  law_init md s : state_ok md s -> state_ok md (md_init (evp_md md) s);
  law_update md s data : bytes_ok data -> state_ok md s -> state_ok md (md_update (evp_md md) s data);
  law_hash md s pieces : state_ok md s -> bytes_ok (concat pieces) ->
    (md_final (evp_md md) (fold_left (md_update (evp_md md)) pieces (md_init (evp_md md) s))).1 = hash md (concat pieces);
  law_hash_len md m : zlen (hash md m) = EVP_MD_size md;
  law_hash_bytes md m : bytes_ok (hash md m)
}.

(** [malloc] succeeds for the state of a digest. *)
Definition md_alloc_ok {MD ST} {DE : DigestEnv MD ST} (md : MD) : Prop :=
  OPENSSL_malloc_ok md_malloc_ok (md_ctx_size (evp_md md)) = true.

Section laws.
Context {MD ST PCTX : Type} {DE : DigestEnv MD ST} {hash : MD -> list Z -> list Z} {DL : DigestLaws DE hash}.
Implicit Types ctx out : EVP_MD_CTX MD ST PCTX.

(** A context owns a state exactly when it has a digest. *)
Definition ctx_wf ctx : Prop := ctx_pctx ctx = None /\
  match ctx_digest ctx, ctx_md_data ctx with Some d, Some s => state_ok d s | None, None => True | _, _ => False end.
(** It can be initialised for [md]: it has that digest already, or [malloc] succeeds. *)
Definition ctx_ready md ctx : Prop := ctx_wf ctx /\ (ctx_digest ctx = Some md \/ md_alloc_ok md).
(** The context of [md] after the message [m]. *)
Definition ctx_state md (m : list Z) ctx : Prop :=
  ctx_pctx ctx = None /\ ctx_digest ctx = Some md /\ bytes_ok m /\
  exists s pieces, state_ok md s /\
    ctx_md_data ctx = Some (fold_left (md_update (evp_md md)) pieces (md_init (evp_md md) s)) /\ concat pieces = m.

Lemma updates_state_ok md pieces : forall s, bytes_ok (concat pieces) -> state_ok md s ->
  state_ok md (fold_left (md_update (evp_md md)) pieces s).
Proof using DL.
  induction pieces as [|p pieces IH]; intros s Hb Hs; cbn [concat fold_left] in *; [done|].
  apply Forall_app in Hb as [Hp Hb]. apply IH; [done|]. apply law_update; done.
Qed.

Lemma ctx_state_ready md m ctx : ctx_state md m ctx -> ctx_ready md ctx.
Proof using DL.
  intros (Hp & Hd & Hb & s & ps & Hok & Hs & Hm). split; [|auto]. split; [done|]. rewrite Hd, Hs.
  apply updates_state_ok; [rewrite Hm; done|]. apply law_init. done.
Qed.

Lemma init_wf : ctx_wf (EVP_MD_CTX_init (MD := MD) (ST := ST) (PCTX := PCTX)).
Proof. done. Qed.

Lemma ctx_state_init md s ops : state_ok md s -> ctx_state md [] (EvpMdCtx (Some md) (Some (md_init (evp_md md) s)) None ops).
Proof. intros Hs. do 2 (split; [done|]). split; [apply Forall_nil_2|]. exists s, []. done. Qed.

Lemma digest_init_ok md ctx : ctx_ready md ctx -> wp (EVP_DigestInit_ex md) (fun _ => ctx_state md []) ctx.
Proof using DL.
  intros [[Hp Hw] Hr]. unfold EVP_DigestInit_ex, wp, bind, getst, putst, require, call_digest, ret, fail.
  destruct ctx as [d s p ops]; cbn [ctx_pctx ctx_digest ctx_md_data ctx_pctx_ops] in *. subst p.
  case_bool_decide as Hd; cbn [negb].
  - subst d. destruct s as [s|]; [|done]. eexists tt, _. split; [reflexivity|]. apply ctx_state_init. done.
  - destruct Hr as [->|Ha]; [done|]. unfold md_alloc_ok in Ha. rewrite Ha. cbn. eexists tt, _. split; [reflexivity|].
    apply ctx_state_init. apply law_fresh.
Qed.

Lemma digest_update_ok md m x ctx : bytes_ok x -> ctx_state md m ctx -> wp (EVP_DigestUpdate x) (fun _ => ctx_state md (m ++ x)) ctx.
Proof.
  intros Hx (Hp & Hd & Hb & s & ps & Hok & Hs & Hm). unfold EVP_DigestUpdate, wp, call_digest. rewrite Hd, Hs.
  eexists tt, _. split; [reflexivity|]. cbn. split_and!; try done; [apply Forall_app; done|].
  exists s, (ps ++ [x]). rewrite fold_left_app, concat_app, Hm. cbn. rewrite app_nil_r. done.
Qed.

Lemma digest_final_ok md m ctx : ctx_state md m ctx ->
  wp EVP_DigestFinal_ex (fun r c => r = (hash md m, EVP_MD_size md) /\ ctx_wf c /\ ctx_digest c = Some md) ctx.
Proof using DL.
  intros (Hp & Hd & Hb & s & ps & Hok & Hs & Hm). unfold EVP_DigestFinal_ex, wp, call_digest. rewrite Hd, Hs.
  pose proof (law_hash md s ps Hok) as Hl. rewrite Hm in Hl. specialize (Hl Hb).
  destruct (md_final (evp_md md) _) as [o s']. cbn in Hl. subst o.
  eexists _, _. split; [reflexivity|]. split_and!; [done| |done]. split; [done|]. cbn. apply law_zero.
Qed.

Lemma digest_copy_ok md m inp out : ctx_state md m inp -> ctx_ready md out ->
  wp (EVP_MD_CTX_copy_ex (Some inp)) (fun _ => ctx_state md m) out.
Proof.
  intros (Hp & Hd & Hb & s & ps & Hok & Hs & Hm) [[Hp' Hw] Hr]. unfold wp, EVP_MD_CTX_copy_ex, dup_pctx.
  rewrite Hp, Hd, Hs. cbn [isnull andb].
  destruct (bool_decide (ctx_digest out = Some md)) eqn:E; cbn [negb].
  - apply bool_decide_eq_true in E. rewrite E in Hw. destruct (ctx_md_data out); [|done].
    eexists tt, _. split; [reflexivity|]. cbn. split_and!; try done. eauto.
  - apply bool_decide_eq_false in E. destruct Hr as [?|Ha]; [done|]. unfold md_alloc_ok in Ha. rewrite Ha.
    eexists tt, _. split; [reflexivity|]. cbn. split_and!; try done. eauto.
Qed.

Lemma digest_updates_ok md pieces : forall m ctx, bytes_ok (concat pieces) -> ctx_state md m ctx ->
  wp (mfor EVP_DigestUpdate pieces) (fun _ => ctx_state md (m ++ concat pieces)) ctx.
Proof.
  induction pieces as [|x pieces IH]; intros m ctx Hb Hs; cbn [mfor concat] in *.
  - rewrite app_nil_r. apply wp_ret. done.
  - apply Forall_app in Hb as [Hx Hb]. eapply wp_seq; [apply digest_update_ok; done|].
    intros [] c Hc. rewrite app_assoc. apply IH; done.
Qed.

Lemma digest_finish md pieces m ctx : bytes_ok (concat pieces) -> ctx_state md m ctx ->
  fst ((mfor EVP_DigestUpdate pieces ;; EVP_DigestFinal_ex) ctx) = Some (hash md (m ++ concat pieces), EVP_MD_size md).
Proof using DL.
  intros Hb Hs.
  assert (W : wp (mfor EVP_DigestUpdate pieces ;; EVP_DigestFinal_ex)
    (fun r _ => r = (hash md (m ++ concat pieces), EVP_MD_size md)) ctx).
  { eapply wp_seq; [apply digest_updates_ok; done|]. intros [] c Hc.
    eapply wp_mono; [apply digest_final_ok; exact Hc|]. intros r s' (-> & _). done. }
  destruct W as (r & s' & E & ->). rewrite E. done.
Qed.

End laws.

(** ** The tables (digests.c) *)

Inductive builtin_md := EVP_md4 | EVP_md5 | EVP_md5_sha1 | EVP_sha1 | EVP_sha224 | EVP_sha256 | EVP_sha384 | EVP_sha512 | EVP_sha512_256.
#[export] Instance builtin_md_eq_dec : EqDecision builtin_md.
Proof. solve_decision. Defined.

Definition NID_md5 : Z := 4.
Definition NID_sha1 : Z := 64.
Definition NID_md5_sha1 : Z := 114.
Definition NID_md4 : Z := 257.
Definition NID_sha256 : Z := 672.
Definition NID_sha384 : Z := 673.
Definition NID_sha512 : Z := 674.
Definition NID_sha224 : Z := 675.
Definition NID_sha512_256 : Z := 962.
Definition sizeof_MD4_CTX : Z := 92.
Definition sizeof_MD5_CTX : Z := 92.
Definition sizeof_SHA_CTX : Z := 96.
Definition sizeof_SHA256_CTX : Z := 112.
Definition sizeof_SHA512_CTX : Z := 216.
Definition sizeof_MD5_SHA1_CTX : Z := sizeof_MD5_CTX + sizeof_SHA_CTX.

Record MD5_SHA1_CTX := Md5Sha1Ctx { ms_md5 : MD5_CTX; ms_sha1 : SHA_CTX }.

(** [md_data], seen as the state that it is. *)
Inductive builtin_data :=
  Md4Data (c : MD4_CTX) | Md5Data (c : MD5_CTX) | Md5Sha1Data (c : MD5_SHA1_CTX) | Sha1Data (c : SHA_CTX) | Sha256Data (c : SHA256_CTX) | Sha512Data (c : SHA512_CTX).
(** The casts of [ctx->md_data]. A state of another digest is not cast: the tables keep them apart. *)
Definition as_md4 (s : builtin_data) : MD4_CTX := match s with Md4Data c => c | _ => Md32 [] 0 0 [] 0 end.
Definition as_md5 (s : builtin_data) : MD5_CTX := match s with Md5Data c => c | _ => Md32 [] 0 0 [] 0 end.
Definition as_md5_sha1 (s : builtin_data) : MD5_SHA1_CTX :=
  match s with Md5Sha1Data c => c | _ => Md5Sha1Ctx (Md32 [] 0 0 [] 0) (Md32 [] 0 0 [] 0) end.
Definition as_sha1 (s : builtin_data) : SHA_CTX := match s with Sha1Data c => c | _ => Md32 [] 0 0 [] 0 end.
Definition as_sha256 (s : builtin_data) : SHA256_CTX := match s with Sha256Data c => c | _ => Sha256Ctx (Md32 [] 0 0 [] 0) 0 end.
Definition as_sha512 (s : builtin_data) : SHA512_CTX := match s with Sha512Data c => c | _ => Sha512Ctx [] 0 0 [] 0 0 end.

Definition md4_init (_ : builtin_data) : builtin_data := Md4Data MD4_Init.
Definition md4_update (ctx : builtin_data) (data : list Z) : builtin_data := Md4Data (MD4_Update (as_md4 ctx) data).
Definition md4_final (ctx : builtin_data) : list Z * builtin_data := let '(md, c) := MD4_Final (as_md4 ctx) in (md, Md4Data c).
Definition md5_init (_ : builtin_data) : builtin_data := Md5Data MD5_Init.
Definition md5_update (ctx : builtin_data) (data : list Z) : builtin_data := Md5Data (MD5_Update (as_md5 ctx) data).
Definition md5_final (ctx : builtin_data) : list Z * builtin_data := let '(md, c) := MD5_Final (as_md5 ctx) in (md, Md5Data c).
(** Two digests side by side. *)
Definition md5_sha1_ctx_update (ctx : MD5_SHA1_CTX) (data : list Z) : MD5_SHA1_CTX :=
  Md5Sha1Ctx (MD5_Update (ms_md5 ctx) data) (SHA1_Update (ms_sha1 ctx) data).
Definition md5_sha1_init (_ : builtin_data) : builtin_data := Md5Sha1Data (Md5Sha1Ctx MD5_Init SHA1_Init).
Definition md5_sha1_update (md_ctx : builtin_data) (data : list Z) : builtin_data :=
  Md5Sha1Data (md5_sha1_ctx_update (as_md5_sha1 md_ctx) data).
Definition md5_sha1_final (md_ctx : builtin_data) : list Z * builtin_data :=
  let ctx := as_md5_sha1 md_ctx in
  let '(out5, c5) := MD5_Final (ms_md5 ctx) in
  let '(out1, c1) := SHA1_Final (ms_sha1 ctx) in
  (out5 ++ out1, Md5Sha1Data (Md5Sha1Ctx c5 c1)).
Definition sha1_init (_ : builtin_data) : builtin_data := Sha1Data SHA1_Init.
Definition sha1_update (ctx : builtin_data) (data : list Z) : builtin_data := Sha1Data (SHA1_Update (as_sha1 ctx) data).
Definition sha1_final (ctx : builtin_data) : list Z * builtin_data := let '(md, c) := SHA1_Final (as_sha1 ctx) in (md, Sha1Data c).
Definition sha224_init (_ : builtin_data) : builtin_data := Sha256Data SHA224_Init.
Definition sha224_update (ctx : builtin_data) (data : list Z) : builtin_data := Sha256Data (SHA224_Update (as_sha256 ctx) data).
Definition sha224_final (ctx : builtin_data) : list Z * builtin_data :=
  let '(md, c) := SHA224_Final (as_sha256 ctx) in (default [] md, Sha256Data c).
Definition sha256_init (_ : builtin_data) : builtin_data := Sha256Data SHA256_Init.
Definition sha256_update (ctx : builtin_data) (data : list Z) : builtin_data := Sha256Data (SHA256_Update (as_sha256 ctx) data).
Definition sha256_final (ctx : builtin_data) : list Z * builtin_data :=
  let '(md, c) := SHA256_Final (as_sha256 ctx) in (default [] md, Sha256Data c).
Definition sha384_init (ctx : builtin_data) : builtin_data := Sha512Data (SHA384_Init (as_sha512 ctx)).
Definition sha384_update (ctx : builtin_data) (data : list Z) : builtin_data := Sha512Data (SHA384_Update (as_sha512 ctx) data).
Definition sha384_final (ctx : builtin_data) : list Z * builtin_data :=
  let '(md, c) := SHA384_Final (as_sha512 ctx) in (default [] md, Sha512Data c).
Definition sha512_init (ctx : builtin_data) : builtin_data := Sha512Data (SHA512_Init (as_sha512 ctx)).
Definition sha512_update (ctx : builtin_data) (data : list Z) : builtin_data := Sha512Data (SHA512_Update (as_sha512 ctx) data).
Definition sha512_final (ctx : builtin_data) : list Z * builtin_data :=
  let '(md, c) := SHA512_Final (as_sha512 ctx) in (default [] md, Sha512Data c).
Definition sha512_256_init (ctx : builtin_data) : builtin_data := Sha512Data (SHA512_256_Init (as_sha512 ctx)).
Definition sha512_256_update (ctx : builtin_data) (data : list Z) : builtin_data := Sha512Data (SHA512_256_Update (as_sha512 ctx) data).
Definition sha512_256_final (ctx : builtin_data) : list Z * builtin_data :=
  let '(md, c) := SHA512_256_Final (as_sha512 ctx) in (default [] md, Sha512Data c).

Definition builtin_table (md : builtin_md) : EVP_MD builtin_data :=
  match md with
  | EVP_md4 => EvpMd NID_md4 MD4_DIGEST_LENGTH 0 md4_init md4_update md4_final 64 sizeof_MD4_CTX
  | EVP_md5 => EvpMd NID_md5 MD5_DIGEST_LENGTH 0 md5_init md5_update md5_final 64 sizeof_MD5_CTX
  | EVP_md5_sha1 =>
      EvpMd NID_md5_sha1 (MD5_DIGEST_LENGTH + SHA_DIGEST_LENGTH) 0 md5_sha1_init md5_sha1_update md5_sha1_final 64 sizeof_MD5_SHA1_CTX
  | EVP_sha1 => EvpMd NID_sha1 SHA_DIGEST_LENGTH 0 sha1_init sha1_update sha1_final 64 sizeof_SHA_CTX
  | EVP_sha224 => EvpMd NID_sha224 SHA224_DIGEST_LENGTH 0 sha224_init sha224_update sha224_final 64 sizeof_SHA256_CTX
  | EVP_sha256 => EvpMd NID_sha256 SHA256_DIGEST_LENGTH 0 sha256_init sha256_update sha256_final 64 sizeof_SHA256_CTX
  | EVP_sha384 => EvpMd NID_sha384 SHA384_DIGEST_LENGTH 0 sha384_init sha384_update sha384_final 128 sizeof_SHA512_CTX
  | EVP_sha512 => EvpMd NID_sha512 SHA512_DIGEST_LENGTH 0 sha512_init sha512_update sha512_final 128 sizeof_SHA512_CTX
  | EVP_sha512_256 =>
      EvpMd NID_sha512_256 SHA512_256_DIGEST_LENGTH 0 sha512_256_init sha512_256_update sha512_256_final 128 sizeof_SHA512_CTX
  end.

(** The state of zero bytes. *)
Definition builtin_zero (md : builtin_md) : builtin_data :=
  match md with
  | EVP_md4 => Md4Data (Md32 (zeros 4) 0 0 (zeros 64) 0)
  | EVP_md5 => Md5Data (Md32 (zeros 4) 0 0 (zeros 64) 0)
  | EVP_md5_sha1 => Md5Sha1Data (Md5Sha1Ctx (Md32 (zeros 4) 0 0 (zeros 64) 0) (Md32 (zeros 5) 0 0 (zeros 64) 0))
  | EVP_sha1 => Sha1Data (Md32 (zeros 5) 0 0 (zeros 64) 0)
  | EVP_sha224 | EVP_sha256 => Sha256Data (Sha256Ctx (Md32 (zeros 8) 0 0 (zeros 64) 0) 0)
  | EVP_sha384 | EVP_sha512 | EVP_sha512_256 => Sha512Data (Sha512Ctx (zeros 8) 0 0 (zeros 128) 0 0)
  end.

(** MD4, MD5, SHA-1 and SHA-256 initialise all of their state, SHA-512 leaves its buffer
    as it is, which therefore has to have its size. *)
Definition builtin_ok (md : builtin_md) (s : builtin_data) : Prop :=
  match md, s with
  | EVP_md4, Md4Data _ | EVP_md5, Md5Data _ | EVP_md5_sha1, Md5Sha1Data _ => True
  | EVP_sha1, Sha1Data _ => True
  | (EVP_sha224 | EVP_sha256), Sha256Data _ => True
  | (EVP_sha384 | EVP_sha512 | EVP_sha512_256), Sha512Data c => ctx_sized c
  | _, _ => False
  end.

#[export] Instance builtin_env (malloc_ok : Z -> bool) (fresh : builtin_md -> builtin_data) : DigestEnv builtin_md builtin_data := {|
  evp_md := builtin_table;
  zero_data := builtin_zero;
  md_malloc_ok := malloc_ok;
  fresh_data := fresh;
  state_ok := builtin_ok
|}.

Definition builtin_hash (md : builtin_md) : list Z -> list Z :=
  match md with
  | EVP_md4 => Rfc1320.md4 | EVP_md5 => Rfc1321.md5 | EVP_md5_sha1 => fun m => Rfc1321.md5 m ++ Fips1.sha1 m
  | EVP_sha1 => Fips1.sha1 | EVP_sha224 => Fips.sha224 | EVP_sha256 => Fips.sha256
  | EVP_sha384 => Fips512.sha384 | EVP_sha512 => Fips512.sha512 | EVP_sha512_256 => Fips512.sha512_256
  end.

(** The tables keep the promise, with the functions of the standard. *)
Section builtin_laws.
Context (malloc_ok : Z -> bool) (fresh : builtin_md -> builtin_data) (Hfresh : forall md, builtin_ok md (fresh md)).

(** Updates of the state in [md_data]. *)
Lemma fold_data {C} (wrap : C -> builtin_data) (cast : builtin_data -> C) (update : C -> list Z -> C) ps : (forall c, cast (wrap c) = c) ->
  forall c, fold_left (fun s d => wrap (update (cast s) d)) ps (wrap c) = wrap (fold_left update ps c).
Proof using. intros Hc. induction ps as [|p ps IH]; intros c; cbn [fold_left]; [done|]. rewrite Hc. apply IH. Qed.

Lemma fold_pair ps : forall c5 c1, fold_left md5_sha1_ctx_update ps (Md5Sha1Ctx c5 c1) =
  Md5Sha1Ctx (fold_left MD5_Update ps c5) (fold_left SHA1_Update ps c1).
Proof using. induction ps as [|p ps IH]; intros c5 c1; cbn [fold_left]; [done|]. apply IH. Qed.

Lemma builtin_law_hash md s ps : builtin_ok md s -> bytes_ok (concat ps) ->
  (md_final (builtin_table md) (fold_left (md_update (builtin_table md)) ps (md_init (builtin_table md) s))).1 = builtin_hash md (concat ps).
Proof using.
  intros Hs Hb.
  assert (D : forall (o : option (list Z) * SHA256_CTX), (let '(md, c) := o in (default [] md, Sha256Data c)).1 = default [] o.1)
    by (intros []; done).
  assert (D5 : forall (o : option (list Z) * SHA512_CTX), (let '(md, c) := o in (default [] md, Sha512Data c)).1 = default [] o.1)
    by (intros []; done).
  assert (D4 : forall {C} (wrap : C -> builtin_data) (o : list Z * C), (let '(md, c) := o in (md, wrap c)).1 = o.1) by (intros ? ? []; done).
  destruct md, s as [c|c|c|c|c|c]; try done; cbn [builtin_table md_final md_update md_init builtin_hash].
  - unfold md4_init, md4_final. rewrite D4. unfold md4_update. rewrite (fold_data Md4Data as_md4 MD4_Update) by done. apply md4_stream. done.
  - unfold md5_init, md5_final. rewrite D4. unfold md5_update. rewrite (fold_data Md5Data as_md5 MD5_Update) by done. apply md5_stream. done.
  - unfold md5_sha1_init, md5_sha1_update. rewrite (fold_data Md5Sha1Data as_md5_sha1 md5_sha1_ctx_update) by done.
    unfold md5_sha1_final. cbn [as_md5_sha1]. cbv zeta. rewrite fold_pair. cbn [ms_md5 ms_sha1].
    rewrite <- md5_stream, <- sha1_stream by done. destruct (MD5_Final _), (SHA1_Final _). done.
  - unfold sha1_init, sha1_final. rewrite D4. unfold sha1_update. rewrite (fold_data Sha1Data as_sha1 SHA1_Update) by done. apply sha1_stream. done.
  - unfold sha224_init, sha224_final. rewrite D. unfold sha224_update. rewrite (fold_data Sha256Data as_sha256 SHA224_Update) by done.
    cbn [as_sha256]. rewrite sha224_stream by done. done.
  - unfold sha256_init, sha256_final. rewrite D. unfold sha256_update. rewrite (fold_data Sha256Data as_sha256 SHA256_Update) by done.
    cbn [as_sha256]. rewrite sha256_stream by done. done.
  - unfold sha384_init, sha384_final. rewrite D5. unfold sha384_update. rewrite (fold_data Sha512Data as_sha512 SHA384_Update) by done.
    cbn [as_sha512]. destruct Hs as [_ Hp]. rewrite sha384_stream by done. done.
  - unfold sha512_init, sha512_final. rewrite D5. unfold sha512_update. rewrite (fold_data Sha512Data as_sha512 SHA512_Update) by done.
    cbn [as_sha512]. destruct Hs as [_ Hp]. rewrite sha512_stream by done. done.
  - unfold sha512_256_init, sha512_256_final. rewrite D5. unfold sha512_256_update.
    rewrite (fold_data Sha512Data as_sha512 SHA512_256_Update) by done.
    cbn [as_sha512]. destruct Hs as [_ Hp]. rewrite sha512_256_stream by done. done.
Qed.

#[export] Instance builtin_laws : DigestLaws (builtin_env malloc_ok fresh) builtin_hash.
Proof using Hfresh.
  split.
  - intros []; vm_compute; done.
  - exact Hfresh.
  - intros []; try done; split; done.
  - intros [] [c|c|c|c|c|c] Hs; try done; destruct Hs as [_ Hp]; split; (done || (cbn; lia)).
  - intros [] [c|c|c|c|c|c] data _ Hs; try done; apply update_sized; done.
  - exact builtin_law_hash.
  - intros [] m; cbn [builtin_hash].
    + apply md4_length.
    + apply md5_length.
    + rewrite zlen_app, md5_length, sha1_length. done.
    + apply sha1_length.
    + apply (Sha256.digest_length _ 7); [apply Sha256.init_good|lia].
    + apply (Sha256.digest_length _ 8); [apply Sha256.init_good|lia].
    + apply (Sha512.digest_length_512 Fips512.H384 6 m (proj1 (proj2 Sha512.init_good_512))). lia.
    + apply (Sha512.digest_length_512 Fips512.H512 8 m (proj1 Sha512.init_good_512)). lia.
    + apply (Sha512.digest_length_512 Fips512.H512_256 4 m (proj2 (proj2 Sha512.init_good_512))). lia.
  - intros [] m; cbn [builtin_hash]; first [apply md4_bytes | apply md5_bytes | apply Forall_app; split; [apply md5_bytes|apply sha1_bytes] | apply sha1_bytes | apply Sha256.digest_bytes | apply Sha512.digest_bytes_512].
Qed.
End builtin_laws.

(** An environment in which [malloc] succeeds and returns cleared memory. *)
Definition builtin_test : DigestEnv builtin_md builtin_data := builtin_env (fun _ => true) builtin_zero.
Lemma builtin_zero_ok md : builtin_ok md (builtin_zero md).
Proof. destruct md; try done; split; done. Qed.
#[export] Instance builtin_test_laws : DigestLaws builtin_test builtin_hash.
Proof. apply builtin_laws, builtin_zero_ok. Qed.

