(* ===== verification/Hmac.v ===== *)
(** * HMAC (fipsmodule/hmac/hmac.c).

    An [HMAC_CTX] holds the digest contexts after the two pads, [i_ctx] and
    [o_ctx], and the running one, [md_ctx]. Against [DigestLaws], a keyed
    context authenticates any number of messages, each cut in any way, with the
    HMAC of RFC 2104. *)

From S2P Require Import Prelude Mem Collector Digest.

Section hmac.
Context {MD ST PCTX : Type} {DE : DigestEnv MD ST}.
Notation EVP_MD_CTX := (EVP_MD_CTX MD ST PCTX).

Record HMAC_CTX := HmacCtx { hm_md : option MD; i_ctx : EVP_MD_CTX; o_ctx : EVP_MD_CTX; md_ctx : EVP_MD_CTX }.

Definition HMAC_CTX_init : HMAC_CTX := HmacCtx None EVP_MD_CTX_init EVP_MD_CTX_init EVP_MD_CTX_init.
(** The three contexts are cleaned up and every byte is cleared. *)
Definition HMAC_CTX_cleanup (ctx : HMAC_CTX) : HMAC_CTX := HMAC_CTX_init.
Definition HMAC_CTX_reset (ctx : HMAC_CTX) : HMAC_CTX := HMAC_CTX_init.

(** Calls on [&ctx->i_ctx], [&ctx->o_ctx] and [&ctx->md_ctx]. *)
Definition on_i {A} (m : M EVP_MD_CTX A) : M HMAC_CTX A := fun ctx =>
  let '(r, c) := m (i_ctx ctx) in (r, HmacCtx (hm_md ctx) c (o_ctx ctx) (md_ctx ctx)).
Definition on_o {A} (m : M EVP_MD_CTX A) : M HMAC_CTX A := fun ctx =>
  let '(r, c) := m (o_ctx ctx) in (r, HmacCtx (hm_md ctx) (i_ctx ctx) c (md_ctx ctx)).
Definition on_md {A} (m : M EVP_MD_CTX A) : M HMAC_CTX A := fun ctx =>
  let '(r, c) := m (md_ctx ctx) in (r, HmacCtx (hm_md ctx) (i_ctx ctx) (o_ctx ctx) c).
Definition set_md (md : MD) : M HMAC_CTX unit := fun ctx => (Some tt, HmacCtx (Some md) (i_ctx ctx) (o_ctx ctx) (md_ctx ctx)).

(** The contents of [key_block]: the key, or its digest, padded with zeros. *)
Definition hmac_key_block (md : MD) (key : list Z) : M HMAC_CTX (list Z) :=
  let block_size := EVP_MD_block_size md in
  let* key_block :=
    (if block_size <? zlen key then
       on_md (EVP_DigestInit_ex md) ;;
       on_md (EVP_DigestUpdate key) ;;
       let* '(key_block, key_block_len) := on_md EVP_DigestFinal_ex in
       ret (ztake key_block_len key_block)
     else ret key) in
  ret (key_block ++ zeros (EVP_MAX_MD_BLOCK_SIZE - zlen key_block)).

(** [key] is [None] for [NULL]; a [NULL] [md] where it is used would be
    dereferenced, which the model answers with [None] as well. *)
Definition HMAC_Init_ex (key : option (list Z)) (md : option MD) : M HMAC_CTX unit :=
  let* ctx := getst in
  let md := match md with None => hm_md ctx | Some md => Some md end in
  (if negb (bool_decide (md = hm_md ctx)) || negb (isnull key) then
     let* md := lift md in
     let* key_block := hmac_key_block md (default [] key) in
     let pad := Z.lxor 0x36 <$> key_block in
     on_i (EVP_DigestInit_ex md) ;;
     on_i (EVP_DigestUpdate (ztake (EVP_MD_block_size md) pad)) ;;
     let pad := Z.lxor 0x5c <$> key_block in
     on_o (EVP_DigestInit_ex md) ;;
     on_o (EVP_DigestUpdate (ztake (EVP_MD_block_size md) pad)) ;;
     set_md md
   else ret tt) ;;
  let* ctx := getst in
  on_md (EVP_MD_CTX_copy_ex (Some (i_ctx ctx))).

Definition HMAC_Update (data : list Z) : M HMAC_CTX unit := on_md (EVP_DigestUpdate data).

(** [out] and [*out_len]. *)
Definition HMAC_Final : M HMAC_CTX (list Z * Z) :=
  let* '(buf, i) := on_md EVP_DigestFinal_ex in
  let* ctx := getst in
  on_md (EVP_MD_CTX_copy_ex (Some (o_ctx ctx))) ;;
  on_md (EVP_DigestUpdate (ztake i buf)) ;;
  on_md EVP_DigestFinal_ex.

Definition HMAC (evp_md : option MD) (key : option (list Z)) (data : list Z) : option (list Z * Z) :=
  fst ((HMAC_Init_ex key evp_md ;; HMAC_Update data ;; HMAC_Final) HMAC_CTX_init).

Definition HMAC_size (ctx : HMAC_CTX) : option Z := EVP_MD_size <$> hm_md ctx.

Definition HMAC_CTX_copy_ex (src : HMAC_CTX) : M HMAC_CTX unit :=
  on_i (EVP_MD_CTX_copy_ex (Some (i_ctx src))) ;;
  on_o (EVP_MD_CTX_copy_ex (Some (o_ctx src))) ;;
  on_md (EVP_MD_CTX_copy_ex (Some (md_ctx src))) ;;
  let* dest := getst in
  putst (HmacCtx (hm_md src) (i_ctx dest) (o_ctx dest) (md_ctx dest)).

Definition HMAC_CTX_copy (src : HMAC_CTX) : M HMAC_CTX unit := putst HMAC_CTX_init ;; HMAC_CTX_copy_ex src.

Definition HMAC_Init (key : option (list Z)) (md : option MD) : M HMAC_CTX unit :=
  (if negb (isnull key) && negb (isnull md) then putst HMAC_CTX_init else ret tt) ;;
  HMAC_Init_ex key md.
End hmac.
Arguments HMAC_CTX : clear implicits.

(** ** RFC 2104 *)

(** [B] is the block size and [H] the hash. *)
Definition hmac_key (B : Z) (H : list Z -> list Z) (K : list Z) : list Z :=
  let K := if B <? zlen K then H K else K in K ++ zeros (B - zlen K).
Definition xor_all (x : Z) (l : list Z) : list Z := (fun b => Z.lxor b x) <$> l.
Definition rfc2104 (B : Z) (H : list Z -> list Z) (K text : list Z) : list Z :=
  H (xor_all 0x5c (hmac_key B H K) ++ H (xor_all 0x36 (hmac_key B H K) ++ text)).

Section correct.
Context {MD ST PCTX : Type} {DE : DigestEnv MD ST} {hash : MD -> list Z -> list Z} {DL : DigestLaws DE hash}.
Implicit Types ctx : HMAC_CTX MD ST PCTX.

Definition ipad (md : MD) (K : list Z) : list Z := xor_all 0x36 (hmac_key (EVP_MD_block_size md) (hash md) K).
Definition opad (md : MD) (K : list Z) : list Z := xor_all 0x5c (hmac_key (EVP_MD_block_size md) (hash md) K).
Definition hmac (md : MD) (K text : list Z) : list Z := rfc2104 (EVP_MD_block_size md) (hash md) K text.

(** Keyed with [K]; and keyed, with the message [m] so far. *)
Record hmac_keyed (md : MD) (K : list Z) ctx : Prop := {
  hk_md : hm_md ctx = Some md;
  hk_i : ctx_state md (ipad md K) (i_ctx ctx);
  hk_o : ctx_state md (opad md K) (o_ctx ctx);
  hk_ready : ctx_ready md (md_ctx ctx)
}.
Definition hmac_state (md : MD) (K m : list Z) ctx : Prop :=
  hmac_keyed md K ctx /\ ctx_state md (ipad md K ++ m) (md_ctx ctx).
(** The three contexts can be initialised for [md]. *)
Definition hmac_ready (md : MD) ctx : Prop :=
  ctx_ready md (i_ctx ctx) /\ ctx_ready md (o_ctx ctx) /\ ctx_ready md (md_ctx ctx).

(** A call on one of the contexts, by what is known of the call. *)
Lemma wp_on_i {A B} (m : M (EVP_MD_CTX MD ST PCTX) A) (k : A -> M (HMAC_CTX MD ST PCTX) B) P Q ctx :
  wp m P (i_ctx ctx) -> (forall a c, P a c -> wp (k a) Q (HmacCtx (hm_md ctx) c (o_ctx ctx) (md_ctx ctx))) ->
  wp (bind (on_i m) k) Q ctx.
Proof. intros (a & c & E & H) Hk. apply wp_bind. unfold wp at 1, on_i. rewrite E. eauto. Qed.
Lemma wp_on_o {A B} (m : M (EVP_MD_CTX MD ST PCTX) A) (k : A -> M (HMAC_CTX MD ST PCTX) B) P Q ctx :
  wp m P (o_ctx ctx) -> (forall a c, P a c -> wp (k a) Q (HmacCtx (hm_md ctx) (i_ctx ctx) c (md_ctx ctx))) ->
  wp (bind (on_o m) k) Q ctx.
Proof. intros (a & c & E & H) Hk. apply wp_bind. unfold wp at 1, on_o. rewrite E. eauto. Qed.
Lemma wp_on_md {A B} (m : M (EVP_MD_CTX MD ST PCTX) A) (k : A -> M (HMAC_CTX MD ST PCTX) B) P Q ctx :
  wp m P (md_ctx ctx) -> (forall a c, P a c -> wp (k a) Q (HmacCtx (hm_md ctx) (i_ctx ctx) (o_ctx ctx) c)) ->
  wp (bind (on_md m) k) Q ctx.
Proof. intros (a & c & E & H) Hk. apply wp_bind. unfold wp at 1, on_md. rewrite E. eauto. Qed.
Lemma wp_last_md {A} (m : M (EVP_MD_CTX MD ST PCTX) A) P (Q : A -> HMAC_CTX MD ST PCTX -> Prop) ctx :
  wp m P (md_ctx ctx) -> (forall a c, P a c -> Q a (HmacCtx (hm_md ctx) (i_ctx ctx) (o_ctx ctx) c)) ->
  wp (on_md m) Q ctx.
Proof. intros (a & c & E & H) Hk. unfold wp, on_md. rewrite E. eauto. Qed.

Lemma xor_all_bytes x l : is_byte x -> bytes_ok l -> bytes_ok (xor_all x l).
Proof.
  intros Hx Hl. unfold xor_all. apply Forall_fmap. eapply Forall_impl; [exact Hl|]. intros b Hb. cbn.
  unfold is_byte in *. apply (lxor_range 8); lia.
Qed.

Lemma hmac_key_bytes md K : bytes_ok K -> bytes_ok (hmac_key (EVP_MD_block_size md) (hash md) K).
Proof using DL.
  intros HK. unfold hmac_key. apply Forall_app. split.
  - destruct (_ <? _); [apply law_hash_bytes|done].
  - apply Forall_replicate. unfold is_byte. lia.
Qed.

(** The first block of a pad of the code is the pad of the RFC. *)
Lemma pad_block md K x : let B := EVP_MD_block_size md in let K0 := if B <? zlen K then hash md K else K in
  ztake B (Z.lxor x <$> (K0 ++ zeros (EVP_MAX_MD_BLOCK_SIZE - zlen K0))) = xor_all x (hmac_key B (hash md) K).
Proof using DL.
  intros B K0. destruct (law_sizes md) as ((Hs & HsB) & _ & HB). fold B in HsB, HB.
  assert (H0 : 0 <= zlen K0 <= B).
  { unfold K0. destruct (Z.ltb_spec B (zlen K)); [rewrite law_hash_len; lia|pose proof (zlen_nonneg K); lia]. }
  unfold xor_all, hmac_key. fold K0.
  assert (E : zeros (EVP_MAX_MD_BLOCK_SIZE - zlen K0) = zeros (B - zlen K0) ++ zeros (EVP_MAX_MD_BLOCK_SIZE - B)).
  { unfold zeros. rewrite <- replicate_add. f_equal. lia. }
  rewrite E, app_assoc, fmap_app. rewrite ztake_app.
  - apply list_fmap_ext. intros. apply Z.lxor_comm.
  - rewrite zlen_map, zlen_app. unfold zeros. rewrite zlen_replicate. lia.
Qed.

Lemma hmac_key_block_ok md K ctx : bytes_ok K -> hmac_ready md ctx ->
  let K0 := if EVP_MD_block_size md <? zlen K then hash md K else K in
  wp (hmac_key_block md K) (fun kb c => kb = K0 ++ zeros (EVP_MAX_MD_BLOCK_SIZE - zlen K0) /\ hmac_ready md c) ctx.
Proof using DL.
  intros HK (Hi & Ho & Hm) K0. unfold hmac_key_block. cbn zeta.
  destruct (EVP_MD_block_size md <? zlen K) eqn:E.
  - eapply wp_seq with (P := fun kb c => kb = hash md K /\ hmac_ready md c).
    + eapply wp_on_md; [apply digest_init_ok; exact Hm|]. intros [] c1 H1.
      eapply wp_on_md; [apply digest_update_ok; [exact HK|exact H1]|]. intros [] c2 H2.
      eapply wp_on_md; [apply digest_final_ok; exact H2|]. intros r c3 (-> & Hw & Hd).
      apply wp_ret. rewrite ztake_all by (rewrite law_hash_len; lia). split; [done|]. split_and!; [done..|].
      split; auto.
    + intros kb c (-> & Hc). apply wp_ret. done.
  - eapply wp_seq; [apply (wp_ret K (fun a c => a = K /\ c = ctx)); done|]. intros a c (-> & ->). apply wp_ret. done.
Qed.

Lemma wp_getst {S A} (k : S -> M S A) Q (s : S) : wp (k s) Q s -> wp (bind getst k) Q s.
Proof. done. Qed.

(** A new key; a NULL key with a new digest is the empty key. *)
Lemma hmac_init_ok md key ctx : bytes_ok (default [] key) -> hmac_ready md ctx -> key <> None \/ hm_md ctx <> Some md ->
  wp (HMAC_Init_ex key (Some md)) (fun _ => hmac_state md (default [] key) []) ctx.
Proof using DL.
  intros HK Hr Hnew. unfold HMAC_Init_ex. apply wp_getst.
  assert (E : negb (bool_decide (Some md = hm_md ctx)) || negb (isnull key) = true).
  { destruct key; [rewrite orb_true_r; done|]. destruct Hnew as [?|Hn]; [done|].
    rewrite bool_decide_false by (intros E; symmetry in E; done). done. }
  rewrite E. set (K := default [] key) in *. clearbody K.
  eapply wp_seq with (P := fun _ => hmac_keyed md K).
  - apply wp_bind. unfold lift. exists md, ctx. split; [done|].
    eapply wp_seq; [apply hmac_key_block_ok; done|]. intros kb c (-> & (Hi & Ho & Hm)).
    rewrite !(pad_block md K).
    eapply wp_on_i; [apply digest_init_ok; exact Hi|]. intros [] c1 H1.
    eapply wp_on_i; [eapply digest_update_ok; [|exact H1]; apply xor_all_bytes; [unfold is_byte; lia|apply hmac_key_bytes; done]|].
    intros [] c2 H2.
    eapply wp_on_o; [apply digest_init_ok; exact Ho|]. intros [] c3 H3.
    eapply wp_on_o; [eapply digest_update_ok; [|exact H3]; apply xor_all_bytes; [unfold is_byte; lia|apply hmac_key_bytes; done]|].
    intros [] c4 H4. eexists tt, _. split; [reflexivity|]. constructor; done.
  - intros [] c Hc. apply wp_getst. eapply wp_last_md; [apply digest_copy_ok; apply Hc|].
    intros [] c2 H2. destruct Hc as [Hk Hi Ho _]. split; [|rewrite app_nil_r; done].
    constructor; [done..|]. apply (ctx_state_ready _ _ _ H2).
Qed.

Lemma hmac_rewind_ok md K ctx : hmac_keyed md K ctx -> wp (HMAC_Init_ex None None) (fun _ => hmac_state md K []) ctx.
Proof.
  intros [Hk Hi Ho Hr]. unfold HMAC_Init_ex. apply wp_getst. rewrite bool_decide_true by done. cbn [isnull negb orb].
  eapply wp_seq; [apply (wp_ret tt (fun _ c => c = ctx)); done|]. intros [] c ->. apply wp_getst.
  eapply wp_last_md; [apply digest_copy_ok; done|]. intros [] c2 H2. split; [|rewrite app_nil_r; done].
  constructor; [done..|]. apply (ctx_state_ready _ _ _ H2).
Qed.

Lemma hmac_update_ok md K m x ctx : bytes_ok x -> hmac_state md K m ctx ->
  wp (HMAC_Update x) (fun _ => hmac_state md K (m ++ x)) ctx.
Proof.
  intros Hx [[Hk Hi Ho Hr] Hm]. unfold HMAC_Update. eapply wp_last_md; [apply digest_update_ok; [exact Hx|exact Hm]|].
  intros [] c Hc. rewrite <- app_assoc in Hc. split; [|done]. constructor; [done..|]. apply (ctx_state_ready _ _ _ Hc).
Qed.

Lemma hmac_updates_ok md K pieces : forall m ctx, bytes_ok (concat pieces) -> hmac_state md K m ctx ->
  wp (mfor HMAC_Update pieces) (fun _ => hmac_state md K (m ++ concat pieces)) ctx.
Proof.
  induction pieces as [|x pieces IH]; intros m ctx Hb Hs; cbn [mfor concat] in *.
  - rewrite app_nil_r. apply wp_ret. done.
  - apply Forall_app in Hb as [Hx Hb]. eapply wp_seq; [apply hmac_update_ok; done|].
    intros [] c Hc. rewrite app_assoc. apply IH; done.
Qed.

Lemma hmac_final_ok md K m ctx : hmac_state md K m ctx ->
  wp HMAC_Final (fun r c => r = (hmac md K m, EVP_MD_size md) /\ hmac_keyed md K c) ctx.
Proof using DL.
  intros [[Hk Hi Ho Hr] Hm]. unfold HMAC_Final.
  eapply wp_on_md; [apply digest_final_ok; exact Hm|]. intros r c1 (-> & Hw & Hd).
  apply wp_getst. eapply wp_on_md; [apply digest_copy_ok; [exact Ho|split; auto]|]. intros [] c2 H2.
  eapply wp_on_md; [eapply digest_update_ok; [|exact H2]|].
  { rewrite ztake_all by (rewrite law_hash_len; lia). apply law_hash_bytes. }
  intros [] c3 H3. eapply wp_last_md; [apply digest_final_ok; exact H3|]. intros r c4 (-> & Hw4 & Hd4).
  rewrite ztake_all by (rewrite law_hash_len; lia). split; [done|]. constructor; [done..|]. split; auto.
Qed.

Lemma hmac_copy_ok md K m src ctx : hmac_state md K m src -> hmac_ready md ctx ->
  wp (HMAC_CTX_copy_ex src) (fun _ => hmac_state md K m) ctx.
Proof.
  intros [[Hk Hi Ho Hr] Hm] (Ri & Ro & Rm). unfold HMAC_CTX_copy_ex.
  eapply wp_on_i; [apply digest_copy_ok; [exact Hi|exact Ri]|]. intros [] c1 H1.
  eapply wp_on_o; [apply digest_copy_ok; [exact Ho|exact Ro]|]. intros [] c2 H2.
  eapply wp_on_md; [apply digest_copy_ok; [exact Hm|exact Rm]|]. intros [] c3 H3.
  apply wp_getst. eexists tt, _. split; [reflexivity|]. split; [|done].
  constructor; [done..|]. apply (ctx_state_ready _ _ _ H3).
Qed.

Lemma hmac_init_ready md : md_alloc_ok md -> hmac_ready md (HMAC_CTX_init (PCTX := PCTX)).
Proof. intros Ha. split_and!; (split; [done|auto]). Qed.

(** A message on a keyed context, and several messages one after the other. *)
Definition hmac_message (pieces : list (list Z)) : M (HMAC_CTX MD ST PCTX) (list Z * Z) :=
  HMAC_Init_ex None None ;; mfor HMAC_Update pieces ;; HMAC_Final.
Fixpoint hmac_messages (msgs : list (list (list Z))) : M (HMAC_CTX MD ST PCTX) (list (list Z * Z)) :=
  match msgs with
  | [] => ret []
  | p :: msgs' => let* r := hmac_message p in let* rs := hmac_messages msgs' in ret (r :: rs)
  end.

Lemma hmac_message_ok md K pieces ctx : bytes_ok (concat pieces) -> hmac_keyed md K ctx ->
  wp (hmac_message pieces) (fun r c => r = (hmac md K (concat pieces), EVP_MD_size md) /\ hmac_keyed md K c) ctx.
Proof using DL.
  intros Hb Hk. unfold hmac_message. eapply wp_seq; [apply hmac_rewind_ok; exact Hk|]. intros [] c1 H1.
  eapply wp_seq; [apply hmac_updates_ok; [exact Hb|exact H1]|]. intros [] c2 H2. apply hmac_final_ok. exact H2.
Qed.

Lemma hmac_messages_ok md K msgs : forall ctx, bytes_ok (concat (concat msgs)) -> hmac_keyed md K ctx ->
  wp (hmac_messages msgs) (fun rs _ => rs = (fun p => (hmac md K (concat p), EVP_MD_size md)) <$> msgs) ctx.
Proof using DL.
  induction msgs as [|p msgs IH]; intros ctx Hb Hk; cbn [hmac_messages concat] in *; [apply wp_ret; done|].
  rewrite concat_app in Hb. apply Forall_app in Hb as [Hp Hb].
  eapply wp_seq; [apply hmac_message_ok; done|]. intros r c (-> & Hc).
  eapply wp_seq; [apply IH; done|]. intros rs c2 ->. apply wp_ret. done.
Qed.

Lemma hmac_oneshot md key m : md_alloc_ok md -> bytes_ok (default [] key) -> bytes_ok m ->
  HMAC (PCTX := PCTX) (Some md) key m = Some (hmac md (default [] key) m, EVP_MD_size md).
Proof using DL.
  intros Ha HK Hm. unfold HMAC.
  assert (W : wp (HMAC_Init_ex key (Some md) ;; HMAC_Update m ;; HMAC_Final)
    (fun r _ => r = (hmac md (default [] key) m, EVP_MD_size md)) (HMAC_CTX_init (PCTX := PCTX))).
  { eapply wp_seq; [apply hmac_init_ok; [done|apply hmac_init_ready; done|right; done]|]. intros [] c1 H1.
    eapply wp_seq; [apply hmac_update_ok; [exact Hm|exact H1]|]. intros [] c2 H2.
    eapply wp_mono; [apply hmac_final_ok; exact H2|]. intros r c3 (-> & _). done. }
  destruct W as (r & s & E & ->). rewrite E. done.
Qed.

(** C19. HMAC is the function of RFC 2104: a context keyed once authenticates any sequence of
    messages, each rewound with [HMAC_Init_ex(ctx, NULL, 0, NULL, NULL)] and added in any
    pieces, with the HMAC of that key; and the one-shot [HMAC] gives the same, a NULL key
    being the empty one. *)
Theorem hmac_correct md key msgs m : md_alloc_ok md -> bytes_ok (default [] key) ->
  bytes_ok (concat (concat msgs)) -> bytes_ok m ->
  fst ((HMAC_Init_ex key (Some md) ;; hmac_messages msgs) HMAC_CTX_init) =
    Some ((fun p => (rfc2104 (EVP_MD_block_size md) (hash md) (default [] key) (concat p), EVP_MD_size md)) <$> msgs) /\
  HMAC (PCTX := PCTX) (Some md) key m =
    Some (rfc2104 (EVP_MD_block_size md) (hash md) (default [] key) m, EVP_MD_size md).
Proof using DL.
  intros Ha HK Hb Hm. split; [|apply hmac_oneshot; done].
  assert (W : wp (HMAC_Init_ex key (Some md) ;; hmac_messages msgs)
    (fun rs _ => rs = (fun p => (hmac md (default [] key) (concat p), EVP_MD_size md)) <$> msgs) (HMAC_CTX_init (PCTX := PCTX))).
  { eapply wp_seq; [apply hmac_init_ok; [done|apply hmac_init_ready; done|right; done]|]. intros [] c1 [H1 _].
    apply hmac_messages_ok; done. }
  destruct W as (r & s & E & ->). rewrite E. done.
Qed.
End correct.

(** RFC 4231, test case 2. *)
Lemma hmac_correct_witness :
  HMAC (DE := builtin_test) (PCTX := unit) (Some EVP_sha256)
    (Some [0x4a; 0x65; 0x66; 0x65])
    [0x77; 0x68; 0x61; 0x74; 0x20; 0x64; 0x6f; 0x20; 0x79; 0x61; 0x20; 0x77; 0x61; 0x6e; 0x74; 0x20; 0x66; 0x6f; 0x72;
     0x20; 0x6e; 0x6f; 0x74; 0x68; 0x69; 0x6e; 0x67; 0x3f] =
  Some (be_bytes 32 0x5bdcc146bf60754e6a042426089575c75a003f089d2739839dec58b964ec3843, 32).
Proof.
  destruct (hmac_correct (DE := builtin_test) (PCTX := unit) EVP_sha256
    (Some [0x4a; 0x65; 0x66; 0x65]) []
    [0x77; 0x68; 0x61; 0x74; 0x20; 0x64; 0x6f; 0x20; 0x79; 0x61; 0x20; 0x77; 0x61; 0x6e; 0x74; 0x20; 0x66; 0x6f; 0x72;
     0x20; 0x6e; 0x6f; 0x74; 0x68; 0x69; 0x6e; 0x67; 0x3f]) as [_ E];
    [reflexivity|repeat constructor; lia|constructor|repeat constructor; lia|].
  rewrite E. vm_compute. reflexivity.
Defined.
