(* ===== verification/Kdf.v ===== *)
(** * Key derivation: HKDF (hkdf/hkdf.c) and PBKDF2 (evp/pbkdf.c).

    Both are loops over one keyed [HMAC_CTX]. They derive the keys of RFC 5869
    and RFC 8018; the proofs use what Hmac.v states of a keyed context only. *)

From S2P Require Import Prelude Mem Collector Digest Hmac.

Section kdf.
Context {MD ST PCTX : Type} {DE : DigestEnv MD ST}.
Notation HMAC_CTX := (HMAC_CTX MD ST PCTX).

(** ** hkdf.c *)

(** [out_key] and [*out_len]; [None] is the return value 0. *)
Definition HKDF_extract (digest : MD) (secret : list Z) (salt : option (list Z)) : option (list Z * Z) :=
  HMAC (PCTX := PCTX) (Some digest) salt secret.

(** [for (i = 0; i < n; i++)] with [count] iterations left; [out] is what was
    written to [out_key], so that [done] is its length. *)
Fixpoint hkdf_loop (digest_len out_len : Z) (info : list Z) (count : nat) (i : Z) (previous out : list Z) : M HMAC_CTX (list Z) :=
  match count with
  | O => ret out
  | S count' =>
      let ctr := u8 (u32 (i + 1)) in
      (if negb (i =? 0) then HMAC_Init_ex None None ;; HMAC_Update (ztake digest_len previous) else ret tt) ;;
      HMAC_Update info ;;
      HMAC_Update [ctr] ;;
      let* '(previous, _) := HMAC_Final in
      let todo := if size_t (zlen out + digest_len) >? out_len then out_len - zlen out else digest_len in
      hkdf_loop digest_len out_len info count' (i + 1) previous (out ++ ztake todo previous)
  end.

Definition HKDF_expand (out_len : Z) (digest : MD) (prk info : list Z) : option (list Z) :=
  let digest_len := EVP_MD_size digest in
  let n := size_t (size_t (out_len + digest_len) - 1) / digest_len in
  if (size_t (out_len + digest_len) <? out_len) || (n >? 255) then None
  else
    fst ((HMAC_Init_ex (Some prk) (Some digest) ;; hkdf_loop digest_len out_len info (Z.to_nat n) 0 [] []) HMAC_CTX_init).

Definition HKDF (out_len : Z) (digest : MD) (secret : list Z) (salt : option (list Z)) (info : list Z) : option (list Z) :=
  match HKDF_extract digest secret salt with
  | None => None
  | Some (prk, prk_len) => HKDF_expand out_len digest (ztake prk_len prk) info
  end.

(** ** pbkdf.c *)

(** [i_buf]. *)
Definition pbkdf2_i_buf (i : Z) : list Z :=
  [u8 (Z.land (Z.shiftr i 24) 0xff); u8 (Z.land (Z.shiftr i 16) 0xff); u8 (Z.land (Z.shiftr i 8) 0xff); u8 (Z.land i 0xff)].

(** [for (unsigned j = 1; j < iterations; j++)] with [count] iterations left;
    [out] are the [todo] bytes at [out_key]. *)
Fixpoint pbkdf2_inner (md_len : Z) (count : nat) (digest_tmp out : list Z) : M HMAC_CTX (list Z) :=
  match count with
  | O => ret out
  | S count' =>
      HMAC_Init_ex None None ;;
      HMAC_Update (ztake md_len digest_tmp) ;;
      let* '(digest_tmp, _) := HMAC_Final in
      pbkdf2_inner md_len count' digest_tmp (zip_with Z.lxor out digest_tmp)
  end.

(** [while (key_len > 0)]; the result is what is written from here on. *)
Fixpoint pbkdf2_loop (md_len : Z) (salt : list Z) (iterations : Z) (fuel : nat) (key_len i : Z) : M HMAC_CTX (list Z) :=
  match fuel with
  | O => fail
  | S fuel' =>
      if key_len >? 0 then
        let todo := if md_len >? key_len then key_len else md_len in
        HMAC_Init_ex None None ;;
        HMAC_Update salt ;;
        HMAC_Update (pbkdf2_i_buf i) ;;
        let* '(digest_tmp, _) := HMAC_Final in
        let* block := pbkdf2_inner md_len (Z.to_nat (iterations - 1)) digest_tmp (ztake todo digest_tmp) in
        let* rest := pbkdf2_loop md_len salt iterations fuel' (key_len - todo) (u32 (i + 1)) in
        ret (block ++ rest)
      else ret []
  end.

(** The return value and [out_key]; [None] when a call failed, which returns 0
    with [out_key] not completely written. *)
Definition PKCS5_PBKDF2_HMAC (password salt : list Z) (iterations : Z) (digest : MD) (key_len : Z) : option (bool * list Z) :=
  let md_len := EVP_MD_size digest in
  fst ((HMAC_Init_ex (Some password) (Some digest) ;;
        let* out_key := pbkdf2_loop md_len salt iterations (S (Z.to_nat key_len)) key_len 1 in
        ret (negb (iterations =? 0), out_key)) HMAC_CTX_init).
End kdf.

(** ** RFC 5869 and RFC 8018, for a pseudorandom function [prf] with outputs of [hLen] bytes *)

Section rfc.
Context (hLen : Z) (prf : list Z -> list Z -> list Z).

Definition ceil_div (a b : Z) : Z := (a + b - 1) / b.

(** [T(1)], [T(2)], ... *)
Fixpoint hkdf_T (PRK info : list Z) (n : nat) : list Z :=
  match n with
  | O => []
  | S n' => prf PRK (hkdf_T PRK info n' ++ info ++ [Z.of_nat n])
  end.
Definition rfc5869_expand (PRK info : list Z) (L : Z) : list Z :=
  ztake L (concat ((fun i => hkdf_T PRK info (Z.to_nat i)) <$> seqZ 1 (ceil_div L hLen))).
(** Without a salt, [hLen] zeros. *)
Definition rfc5869 (salt : option (list Z)) (IKM info : list Z) (L : Z) : list Z :=
  rfc5869_expand (prf (default (zeros hLen) salt) IKM) info L.

(** [U_1] is [pbkdf2_U 0]. *)
Fixpoint pbkdf2_U (P S : list Z) (i : Z) (j : nat) : list Z :=
  match j with
  | O => prf P (S ++ be_bytes 4 i)
  | Datatypes.S j' => prf P (pbkdf2_U P S i j')
  end.
Definition pbkdf2_F (P S : list Z) (c i : Z) : list Z :=
  fold_left (fun acc j => zip_with Z.lxor acc (pbkdf2_U P S i j)) (seq 1 (Z.to_nat (c - 1))) (pbkdf2_U P S i 0).
Definition rfc8018_pbkdf2 (P S : list Z) (c dkLen : Z) : list Z :=
  ztake dkLen (concat (pbkdf2_F P S c <$> seqZ 1 (ceil_div dkLen hLen))).
End rfc.

Section correct.
Context {MD ST PCTX : Type} {DE : DigestEnv MD ST} {hash : MD -> list Z -> list Z} {DL : DigestLaws DE hash}.
Context (md : MD).
Notation h := (EVP_MD_size md).
Notation prf := (hmac (hash := hash) md).
Implicit Types ctx : HMAC_CTX MD ST PCTX.

Lemma hmac_len K m : zlen (prf K m) = h.
Proof using DL. unfold hmac, rfc2104. apply law_hash_len. Qed.
Lemma hmac_bytes K m : bytes_ok (prf K m).
Proof using DL. unfold hmac, rfc2104. apply law_hash_bytes. Qed.
Lemma h_pos : 0 < h <= 64.
Proof using DL. destruct (law_sizes md) as ((? & ?) & ? & ?). unfold EVP_MAX_MD_SIZE in *. lia. Qed.

Lemma wp_result {S A} (m : M S A) s v : wp m (fun a _ => a = v) s -> fst (m s) = Some v.
Proof. intros (a & s' & E & ->). rewrite E. done. Qed.

Lemma ceil_div_step L : h < L -> ceil_div L h = 1 + ceil_div (L - h) h.
Proof using DL.
  intros HL. pose proof h_pos. unfold ceil_div. replace (L + h - 1) with (L - h + h - 1 + 1 * h) by lia.
  rewrite Z.div_add by lia. lia.
Qed.
Lemma ceil_div_one L : 0 < L <= h -> ceil_div L h = 1.
Proof using DL. intros HL. unfold ceil_div. symmetry. apply (Z.div_unique _ _ _ (L - 1)); lia. Qed.

(** The first bytes of blocks numbered from [i]. *)
Lemma take_blocks (f : Z -> list Z) L i : zlen (f i) = h -> 0 < L ->
  ztake L (concat (f <$> seqZ i (ceil_div L h))) =
  ztake (Z.min L h) (f i) ++ ztake (L - Z.min L h) (concat (f <$> seqZ (i + 1) (ceil_div (L - Z.min L h) h))).
Proof using DL.
  intros Hf HL. pose proof h_pos as Hh. destruct (Z.le_gt_cases L h) as [H|H].
  - rewrite Z.min_l, ceil_div_one, Z.sub_diag, ztake_0, app_nil_r, seqZ_cons by lia.
    rewrite (seqZ_nil _ (Z.pred 1)) by lia. cbn [fmap list_fmap concat]. rewrite app_nil_r. done.
  - rewrite Z.min_r, (ceil_div_step L) by lia.
    assert (0 <= ceil_div (L - h) h) by (apply Z.div_pos; lia).
    rewrite seqZ_cons by lia. cbn [fmap list_fmap concat]. rewrite ztake_app_ge by lia. rewrite Hf, (ztake_all h (f i)) by lia.
    do 5 f_equal; lia.
Qed.

(** *** PBKDF2 *)

Lemma i_buf_bytes i : 0 <= i < 2 ^ 32 -> pbkdf2_i_buf i = be_bytes 4 i.
Proof.
  intros Hi. unfold pbkdf2_i_buf. change 255 with (2 ^ 8 - 1). rewrite !land_mask by lia. rewrite !Z.shiftr_div_pow2 by lia.
  cbn [be_bytes app]. unfold u8. change (2 ^ 8) with 256. rewrite !Zmod_mod.
  change (2 ^ 24) with (256 * 256 * 256). change (2 ^ 16) with (256 * 256). rewrite !Z.div_div by lia. done.
Qed.

Lemma inner_ok P S i count : forall j out ctx, hmac_keyed (hash := hash) md P ctx ->
  wp (pbkdf2_inner h count (pbkdf2_U prf P S i j) out) (fun r c =>
    r = fold_left (fun acc j => zip_with Z.lxor acc (pbkdf2_U prf P S i j)) (seq (1 + j) count) out /\
    hmac_keyed (hash := hash) md P c) ctx.
Proof using DL.
  induction count as [|count IH]; intros j out ctx Hk; cbn [pbkdf2_inner seq fold_left]; [apply wp_ret; done|].
  assert (Hu : zlen (pbkdf2_U prf P S i j) = h /\ bytes_ok (pbkdf2_U prf P S i j)) by
    (destruct j; split; apply hmac_len || apply hmac_bytes).
  rewrite ztake_all by lia.
  eapply wp_seq; [eapply hmac_rewind_ok; exact Hk|]. intros [] c1 H1.
  eapply wp_seq; [eapply hmac_update_ok; [apply Hu|exact H1]|]. intros [] c2 H2.
  eapply wp_seq; [eapply hmac_final_ok; exact H2|]. intros r c3 (-> & H3).
  apply (IH (Datatypes.S j)). done.
Qed.

(** Cutting a block to its first bytes commutes with the exclusive or. *)
Lemma ztake_fold_xor {A} n (f : A -> list Z) l : forall acc,
  ztake n (fold_left (fun a j => zip_with Z.lxor a (f j)) l acc) =
  fold_left (fun a j => zip_with Z.lxor a (f j)) l (ztake n acc).
Proof.
  induction l as [|j l IH]; intros acc; cbn [fold_left]; [done|]. rewrite IH. f_equal.
  unfold ztake. rewrite zip_with_take. apply list_eq. intros i. rewrite !lookup_zip_with.
  destruct (decide (i < Z.to_nat n)%nat) as [Hi|Hi].
  - rewrite (lookup_take_lt (f j)) by lia. done.
  - rewrite !lookup_take_ge by lia. done.
Qed.

Lemma pbkdf2_F_len P S c i : zlen (pbkdf2_F prf P S c i) = h.
Proof using DL.
  unfold pbkdf2_F. assert (H0 : zlen (pbkdf2_U prf P S i 0) = h) by apply hmac_len. revert H0.
  generalize (pbkdf2_U prf P S i 0). generalize (seq 1 (Z.to_nat (c - 1))). intros l.
  induction l as [|j l IH]; intros acc Hacc; cbn [fold_left]; [done|]. apply IH.
  assert (Hj : zlen (pbkdf2_U prf P S i j) = h) by (destruct j; apply hmac_len).
  unfold zlen in *. rewrite length_zip_with. lia.
Qed.

Lemma pbkdf2_loop_ok P S c fuel : bytes_ok S -> forall key_len i ctx, hmac_keyed (hash := hash) md P ctx ->
  0 <= key_len < Z.of_nat fuel -> 0 <= i -> i + ceil_div key_len h <= 2 ^ 32 ->
  wp (pbkdf2_loop h S c fuel key_len i) (fun r c' =>
    r = ztake key_len (concat (pbkdf2_F prf P S c <$> seqZ i (ceil_div key_len h))) /\ hmac_keyed (hash := hash) md P c') ctx.
Proof using DL.
  intros HS. pose proof h_pos as Hh. induction fuel as [|fuel IH]; intros key_len i ctx Hk Hf Hi Hmax; [lia|].
  cbn [pbkdf2_loop]. destruct (Z.gtb_spec key_len 0) as [H0|H0].
  - assert (Ht : (if h >? key_len then key_len else h) = Z.min key_len h) by (destruct (Z.gtb_spec h key_len); lia).
    rewrite Ht. rewrite (take_blocks (pbkdf2_F prf P S c)) by (apply pbkdf2_F_len || lia).
    assert (Hi32 : 0 <= i < 2 ^ 32).
    { assert (1 <= ceil_div key_len h) by (apply Z.div_le_lower_bound; lia). lia. }
    eapply wp_seq; [eapply hmac_rewind_ok; exact Hk|]. intros [] c1 H1.
    eapply wp_seq; [eapply hmac_update_ok; [exact HS|exact H1]|]. intros [] c2 H2.
    rewrite i_buf_bytes by done. eapply wp_seq; [eapply hmac_update_ok; [apply be_bytes_ok|exact H2]|]. intros [] c3 H3.
    eapply wp_seq; [eapply hmac_final_ok; exact H3|]. intros r c4 (-> & H4).
    eapply wp_seq; [apply (inner_ok P S i _ 0); exact H4|]. intros r c5 (-> & H5).
    assert (Hr : wp (pbkdf2_loop h S c fuel (key_len - Z.min key_len h) (u32 (i + 1))) (fun r c' =>
      r = ztake (key_len - Z.min key_len h)
            (concat (pbkdf2_F prf P S c <$> seqZ (i + 1) (ceil_div (key_len - Z.min key_len h) h))) /\
      hmac_keyed (hash := hash) md P c') c5).
    { destruct (Z.le_gt_cases key_len h) as [Hle|Hle].
      - rewrite Z.min_l, Z.sub_diag, ztake_0 by lia. destruct fuel; [lia|]. cbn [pbkdf2_loop]. apply wp_ret. done.
      - rewrite ceil_div_step in Hmax by lia.
        assert (1 <= ceil_div (key_len - h) h) by (apply Z.div_le_lower_bound; lia).
        rewrite u32_small by lia. rewrite Z.min_r by lia. apply IH; (done || lia). }
    eapply wp_seq; [exact Hr|]. intros r c6 (-> & H6). apply wp_ret. split; [|done]. f_equal.
    unfold pbkdf2_F. rewrite ztake_fold_xor. done.
  - apply wp_ret. assert (key_len = 0) as -> by lia. rewrite ztake_0. done.
Qed.

Lemma hmac_init_wp P ctx : bytes_ok P -> hmac_ready md ctx ->
  wp (HMAC_Init_ex (Some P) (Some md)) (fun _ => hmac_state (hash := hash) md P []) ctx.
Proof using DL. intros HP Hr. apply (hmac_init_ok md (Some P)); [done|done|left; done]. Qed.

(** C21. PBKDF2 derives the key of RFC 8018: for an output of at most (2^32 - 1) blocks, the bytes
    written are the first [key_len] of the blocks F(P, S, c, 1), F(P, S, c, 2), ... with HMAC as
    the pseudorandom function. A count of 0 writes what a count of 1 does, and returns 0. *)
Theorem pbkdf2_correct P S c key_len : md_alloc_ok md -> bytes_ok P -> bytes_ok S -> 0 <= c ->
  0 <= key_len <= (2 ^ 32 - 1) * h ->
  PKCS5_PBKDF2_HMAC (PCTX := PCTX) P S c md key_len =
  Some (negb (c =? 0),
        rfc8018_pbkdf2 h (rfc2104 (EVP_MD_block_size md) (hash md)) P S (Z.max 1 c) key_len).
Proof using DL.
  intros Ha HP HS Hc Hlen. pose proof h_pos as Hh. apply wp_result.
  eapply wp_seq; [apply hmac_init_wp; [exact HP|apply hmac_init_ready; exact Ha]|]. intros [] c1 [H1 _].
  assert (Hd : ceil_div key_len h <= 2 ^ 32 - 1) by (apply Z.lt_succ_r, Z.div_lt_upper_bound; lia).
  eapply wp_seq; [apply (pbkdf2_loop_ok P S c _ HS); [exact H1|lia|lia|lia]|]. intros r c2 (-> & _).
  apply wp_ret. f_equal. unfold rfc8018_pbkdf2. do 2 f_equal. apply list_fmap_ext. intros _ i _. unfold pbkdf2_F.
  replace (Z.to_nat (Z.max 1 c - 1)) with (Z.to_nat (c - 1)) by lia. done.
Qed.

(** *** HKDF *)

Notation T PRK info i := (hkdf_T prf PRK info (Z.to_nat i)).

Lemma hkdf_T_len PRK info n : 1 <= n -> zlen (T PRK info n) = h.
Proof using DL. intros Hn. destruct (Z.to_nat n) as [|k] eqn:E; [lia|]. apply hmac_len. Qed.

(** The context before round [i]: just keyed, or to be rewound. *)
Definition hkdf_ctx (PRK : list Z) (i : Z) ctx : Prop :=
  if i =? 0 then hmac_state (hash := hash) md PRK [] ctx else hmac_keyed (hash := hash) md PRK ctx.

(** What precedes [info] in the message of round [i]. *)
Lemma hkdf_previous_ok PRK info i ctx : 0 <= i -> hkdf_ctx PRK i ctx ->
  wp (if negb (i =? 0) then HMAC_Init_ex None None ;; HMAC_Update (ztake h (T PRK info i)) else ret tt)
    (fun _ => hmac_state (hash := hash) md PRK (T PRK info i)) ctx.
Proof using DL.
  unfold hkdf_ctx. intros Hi Hk. destruct (Z.eqb_spec i 0) as [->|Hi0]; cbn [negb]; [apply wp_ret; exact Hk|].
  assert (Hb : bytes_ok (T PRK info i)) by (destruct (Z.to_nat i) eqn:E; [lia|apply hmac_bytes]).
  rewrite ztake_all by (rewrite hkdf_T_len; lia).
  eapply wp_seq; [eapply hmac_rewind_ok; exact Hk|]. intros [] c1 H1. exact (hmac_update_ok md PRK [] _ c1 Hb H1).
Qed.

Lemma hkdf_T_next PRK info i : 0 <= i -> T PRK info (i + 1) = prf PRK ((T PRK info i ++ info) ++ [i + 1]).
Proof using.
  intros Hi. replace (Z.to_nat (i + 1)) with (S (Z.to_nat i)) by lia. cbn [hkdf_T]. rewrite <- app_assoc.
  do 4 f_equal. lia.
Qed.

(** [left] bytes are missing before round [i]. *)
Lemma hkdf_loop_ok PRK info count : bytes_ok info -> forall i left out ctx, hkdf_ctx PRK i ctx ->
  0 <= i -> i + Z.of_nat count <= 255 -> 0 <= left -> Z.of_nat count = ceil_div left h -> zlen out + left < 2 ^ 64 - 64 ->
  wp (hkdf_loop h (zlen out + left) info count i (T PRK info i) out) (fun r _ =>
    r = out ++ ztake left (concat ((fun i => T PRK info i) <$> seqZ (i + 1) (ceil_div left h)))) ctx.
Proof using DL.
  intros Hinfo. pose proof h_pos as Hh. induction count as [|count IH]; intros i left out ctx Hk Hi Hc Hl Hn Hmax;
    cbn [hkdf_loop]; pose proof (zlen_nonneg out) as Hout.
  - assert (left = 0) as ->.
    { destruct (Z.eq_dec left 0) as [?|?]; [done|]. assert (1 <= ceil_div left h) by (apply Z.div_le_lower_bound; lia). lia. }
    apply wp_ret. rewrite ztake_0, app_nil_r. done.
  - assert (Hl0 : 0 < left).
    { destruct (Z.eq_dec left 0) as [->|?]; [|lia]. unfold ceil_div in Hn. rewrite Z.div_small in Hn by lia. lia. }
    assert (Ht : (if size_t (zlen out + h) >? zlen out + left then zlen out + left - zlen out else h) = Z.min left h).
    { rewrite size_t_small by lia. destruct (Z.gtb_spec (zlen out + h) (zlen out + left)); lia. }
    assert (Hn' : Z.of_nat count = ceil_div (left - Z.min left h) h).
    { destruct (Z.le_gt_cases left h) as [Hle|Hle].
      - rewrite Z.min_l, Z.sub_diag by lia. rewrite ceil_div_one in Hn by lia. unfold ceil_div. rewrite Z.div_small by lia. lia.
      - rewrite Z.min_r by lia. rewrite ceil_div_step in Hn by lia. lia. }
    rewrite Ht, u32_small, u8_small by lia. rewrite (take_blocks (fun i => T PRK info i)) by first [apply hkdf_T_len; lia | lia].
    eapply wp_seq; [apply (hkdf_previous_ok PRK info i); [lia|exact Hk]|]. intros [] c1 H1.
    eapply wp_seq; [eapply hmac_update_ok; [exact Hinfo|exact H1]|]. intros [] c2 H2.
    eapply wp_seq; [eapply hmac_update_ok; [|exact H2]; repeat constructor; lia|]. intros [] c3 H3.
    eapply wp_seq; [eapply hmac_final_ok; exact H3|]. intros r c4 (-> & H4).
    rewrite <- hkdf_T_next by lia. set (t := ztake (Z.min left h) (T PRK info (i + 1))).
    assert (Ez : zlen (out ++ t) = zlen out + Z.min left h) by (unfold t; rewrite zlen_app, zlen_ztake, hkdf_T_len; lia).
    assert (Hk' : hkdf_ctx PRK (i + 1) c4) by (unfold hkdf_ctx; destruct (Z.eqb_spec (i + 1) 0); [lia|done]).
    specialize (IH (i + 1) (left - Z.min left h) (out ++ t) c4 Hk').
    rewrite Ez in IH. replace (zlen out + Z.min left h + (left - Z.min left h)) with (zlen out + left) in IH by lia.
    eapply wp_mono; [apply IH; lia|]. intros r _ ->. rewrite <- app_assoc. done.
Qed.

(** The bound of the standard, in the arithmetic of the code. *)
Lemma hkdf_bound L : 0 <= L < 2 ^ 64 ->
  (size_t (L + h) <? L) || (size_t (size_t (L + h) - 1) / h >? 255) = (255 * h <? L).
Proof using DL.
  intros HL. pose proof h_pos as Hh. destruct (Z.ltb_spec (L + h) (2 ^ 64)) as [Hs|Hs].
  - rewrite !size_t_small by (rewrite ?size_t_small; lia). rewrite (proj2 (Z.ltb_ge (L + h) L)) by lia. cbn [orb].
    destruct (Z.ltb_spec (255 * h) L) as [H|H]; [apply Z.gtb_lt|rewrite Z.gtb_ltb; apply Z.ltb_ge].
    + enough (256 <= (L + h - 1) / h) by lia. apply Z.div_le_lower_bound; lia.
    + apply Z.lt_succ_r, Z.div_lt_upper_bound; lia.
  - assert (E : size_t (L + h) = L + h - 2 ^ 64) by (unfold size_t, u64; symmetry; apply (Z.mod_unique _ _ 1); lia).
    rewrite (proj2 (Z.ltb_lt (255 * h) L)) by lia. rewrite E, (proj2 (Z.ltb_lt _ L)) by lia. done.
Qed.

Lemma hkdf_expand_ok L PRK info : md_alloc_ok md -> bytes_ok PRK -> bytes_ok info -> 0 <= L < 2 ^ 64 ->
  HKDF_expand (PCTX := PCTX) L md PRK info =
  if 255 * h <? L then None else Some (rfc5869_expand h prf PRK info L).
Proof using DL.
  intros Ha HP Hinfo HL. pose proof h_pos as Hh. unfold HKDF_expand. rewrite hkdf_bound by done.
  destruct (Z.ltb_spec (255 * h) L) as [H|H]; [done|]. apply wp_result.
  rewrite !size_t_small by (rewrite ?size_t_small; lia).
  eapply wp_seq; [apply hmac_init_wp; [exact HP|apply hmac_init_ready; exact Ha]|]. intros [] c1 H1.
  change ((L + h - 1) / h) with (ceil_div L h).
  assert (Hn : 0 <= ceil_div L h <= 255).
  { split; [apply Z.div_pos; lia|apply Z.lt_succ_r, Z.div_lt_upper_bound; lia]. }
  eapply wp_mono; [apply (hkdf_loop_ok PRK info (Z.to_nat (ceil_div L h)) Hinfo 0 L [] c1 H1); rewrite ?zlen_nil; lia|].
  intros r _ ->. done.
Qed.

(** A key of zeros shorter than a block is the empty key. *)
Lemma hmac_zero_key n m : 0 <= n <= EVP_MD_block_size md -> prf (zeros n) m = prf [] m.
Proof using DL.
  intros Hn. destruct (law_sizes md) as ((Hs & HsB) & _ & _). unfold hmac, rfc2104.
  assert (E : forall K, zlen K <= EVP_MD_block_size md ->
    hmac_key (EVP_MD_block_size md) (hash md) K = K ++ zeros (EVP_MD_block_size md - zlen K)).
  { intros K HK. unfold hmac_key. rewrite (proj2 (Z.ltb_ge _ _)) by lia. done. }
  rewrite !E by (rewrite ?zlen_nil, ?zlen_zeros; lia). rewrite zlen_zeros, zlen_nil, Z.sub_0_r by lia. cbn [app].
  unfold zeros. rewrite <- replicate_add, <- Z2Nat.inj_add by lia.
  replace (n + (EVP_MD_block_size md - n)) with (EVP_MD_block_size md) by lia. done.
Qed.

(** C20. HKDF derives the key of RFC 5869 with the HMAC of the digest: of [L] bytes when [L] is
    at most 255 blocks, and none beyond that, also where [L] is so large that the sums of
    the check wrap; without a salt, as with a salt of [HashLen] zeros. *)
Theorem hkdf_correct L secret salt info : md_alloc_ok md -> bytes_ok secret -> bytes_ok (default [] salt) -> bytes_ok info ->
  0 <= L < 2 ^ 64 ->
  HKDF (PCTX := PCTX) L md secret salt info =
  if 255 * h <? L then None else Some (rfc5869 h (rfc2104 (EVP_MD_block_size md) (hash md)) salt secret info L).
Proof using DL.
  intros Ha Hs Hsalt Hinfo HL. pose proof h_pos as Hh. destruct (law_sizes md) as ((? & ?) & _ & _).
  unfold HKDF, HKDF_extract. rewrite (hmac_oneshot md) by done. rewrite ztake_all by (rewrite hmac_len; lia).
  rewrite hkdf_expand_ok by (done || apply hmac_bytes). unfold rfc5869.
  destruct salt as [salt|]; [done|]. cbn [default]. rewrite <- (hmac_zero_key h) by lia. done.
Qed.
End correct.

(** RFC 5869, test case 3. *)
Lemma hkdf_correct_witness :
  HKDF (DE := builtin_test) (PCTX := unit) 42 EVP_sha256 (replicate 22 0x0b) None [] =
  Some (be_bytes 42 0x8da4e775a563c18f715f802a063c5a31b8a11f5c5ee1879ec3454e5f3c738d2d9d201395faa4b61a96c8).
Proof.
  rewrite (hkdf_correct (DE := builtin_test) (PCTX := unit) EVP_sha256 42 (replicate 22 0x0b) None []);
    [vm_compute; reflexivity|reflexivity|repeat constructor; unfold is_byte; lia|constructor|constructor|lia].
Defined.

(** One iteration, with the password "passwd" and the salt "salt" (RFC 7914, section 11). *)
Lemma pbkdf2_correct_witness :
  PKCS5_PBKDF2_HMAC (DE := builtin_test) (PCTX := unit) [0x70; 0x61; 0x73; 0x73; 0x77; 0x64] [0x73; 0x61; 0x6c; 0x74] 1 EVP_sha256 64 =
  Some (true, be_bytes 64 0x55ac046e56e3089fec1691c22544b605f94185216dde0465e68b9d57c20dacbc49ca9cccf179b645991664b39d77ef317c71b845b1e30bd509112041d3a19783).
Proof.
  rewrite (pbkdf2_correct (DE := builtin_test) (PCTX := unit) EVP_sha256 [0x70; 0x61; 0x73; 0x73; 0x77; 0x64] [0x73; 0x61; 0x6c; 0x74] 1 64);
    [vm_compute; reflexivity|reflexivity|repeat constructor; unfold is_byte; lia..|lia|change (EVP_MD_size EVP_sha256) with 32; lia].
Defined.
