(* ===== verification/PQueue.v ===== *)
(** * The interface of a priority queue.

    What [timer.c] relies on: the operations of [heap-inl.h], with their laws
    over the set of elements that the queue holds. [Heap.v] implements it. *)

From S2P Require Import Prelude.

(** [less_than] need not be total: timers that start at the same time and with
    the same number are equivalent. *)
Class WeakOrder (lt : positive -> positive -> bool) : Prop := {
  lt_asym a b : lt a b = true -> lt b a = false;
  lt_negtrans a b c : lt a b = false -> lt b c = false -> lt a c = false
}.

Class PQueue (Q : Type) := {
  pq_init : M Q unit;
  pq_min : M Q (option positive);
  pq_insert : (positive -> positive -> bool) -> positive -> M Q unit;
  pq_remove : (positive -> positive -> bool) -> positive -> M Q unit;
  (** [pq_holds lt q X]: [q] is well formed, ordered by [lt], and holds [X]. *)
  pq_holds : (positive -> positive -> bool) -> Q -> gset positive -> Prop;
  pq_init_ok lt q : exists q', pq_init q = (Some tt, q') /\ pq_holds lt q' ∅;
  pq_min_ok lt q X : WeakOrder lt -> pq_holds lt q X ->
    exists m, pq_min q = (Some m, q) /\
      match m with
      | None => X = ∅
      | Some p => p ∈ X /\ forall r, r ∈ X -> lt r p = false
      end;
  pq_insert_ok lt q X p : WeakOrder lt -> pq_holds lt q X -> p ∉ X -> Z.of_nat (size X) + 1 < 2 ^ 32 ->
    exists q', pq_insert lt p q = (Some tt, q') /\ pq_holds lt q' ({[p]} ∪ X);
  pq_remove_ok lt q X p : WeakOrder lt -> pq_holds lt q X -> p ∈ X ->
    exists q', pq_remove lt p q = (Some tt, q') /\ pq_holds lt q' (X ∖ {[p]});
  pq_ext lt lt' q X : (forall a b, a ∈ X -> b ∈ X -> lt a b = lt' a b) ->
    pq_holds lt q X -> pq_holds lt' q X
}.

Lemma lt_irrefl lt `{!WeakOrder lt} a : lt a a = false.
Proof. destruct (lt a a) eqn:E; [|done]. rewrite (lt_asym _ _ E) in E. done. Qed.

Lemma lt_negtrans_l lt `{!WeakOrder lt} a b c : lt a b = false -> lt c b = true -> lt a c = false.
Proof. intros H1 H2%lt_asym. eapply lt_negtrans; eauto. Qed.
