(* ===== verification/Heap.v ===== *)
(** * libuv heap-inl.h: the intrusive binary min-heap.

    The nodes live inside other objects and are linked by pointers. The model is
    the memory: a map from addresses to nodes. A call that would dereference
    NULL or a dangling address has no result ([None]); the theorems show that
    this does not happen. *)

From S2P Require Import Prelude PQueue.
From Stdlib Require Import ZifyNat Sorted.

Record heap_node := Node { left : option positive; right : option positive; parent : option positive }.

(** [min] and [nelts] of [struct heap], and the memory of the nodes. *)
Record heap := Heap { min : option positive; nelts : Z; nodes : gmap positive heap_node }.

Definition get_node (p : positive) : M heap heap_node := fun h => (nodes h !! p, h).
Definition put_node (p : positive) (n : heap_node) : M heap unit := fun h =>
  (Some tt, Heap (min h) (nelts h) (<[p := n]> (nodes h))).
Definition get_min : M heap (option positive) := fun h => (Some (min h), h).
Definition put_min (v : option positive) : M heap unit := fun h => (Some tt, Heap v (nelts h) (nodes h)).
Definition put_nelts (v : Z) : M heap unit := fun h => (Some tt, Heap (min h) v (nodes h)).
Definition get_nelts : M heap Z := fun h => (Some (nelts h), h).

Definition set_left (p : positive) (v : option positive) : M heap unit :=
  let* n := get_node p in put_node p (Node v (right n) (parent n)).
Definition set_right (p : positive) (v : option positive) : M heap unit :=
  let* n := get_node p in put_node p (Node (left n) v (parent n)).
Definition set_parent (p : positive) (v : option positive) : M heap unit :=
  let* n := get_node p in put_node p (Node (left n) (right n) v).
(** [if (o != NULL) o->parent = v;] *)
Definition set_parent_if (o : option positive) (v : option positive) : M heap unit :=
  match o with Some p => set_parent p v | None => ret tt end.
(** [a == b] for pointers. *)
Definition is_ptr (a : option positive) (b : positive) : bool := bool_decide (a = Some b).

Definition heap_init : M heap unit := put_min None ;; put_nelts 0.

Definition heap_min : M heap (option positive) := get_min.

(** The store of [child] where [old] was, below [above] or as the root. *)
Definition replace_child (above : option positive) (old new : positive) : M heap unit :=
  match above with
  | None => put_min (Some new)
  | Some q =>
      let* n := get_node q in
      if is_ptr (left n) old then set_left q (Some new) else set_right q (Some new)
  end.

Definition heap_node_swap (p c : positive) : M heap unit :=
  let* t := get_node p in
  let* nc := get_node c in
  put_node p nc ;;
  put_node c t ;;
  set_parent p (Some c) ;;
  let* n := get_node c in
  let* sibling :=
    if is_ptr (left n) c then set_left c (Some p) ;; ret (right n)
    else set_right c (Some p) ;; ret (left n) in
  set_parent_if sibling (Some c) ;;
  let* n := get_node p in
  set_parent_if (left n) (Some p) ;;
  set_parent_if (right n) (Some p) ;;
  let* n := get_node c in
  replace_child (parent n) p c.

(** A [struct heap_node **]. *)
Inductive loc := LMin | LLeft (p : positive) | LRight (p : positive).

Definition load (a : loc) : M heap (option positive) :=
  match a with
  | LMin => get_min
  | LLeft p => let* n := get_node p in ret (left n)
  | LRight p => let* n := get_node p in ret (right n)
  end.
Definition store (a : loc) (v : option positive) : M heap unit :=
  match a with
  | LMin => put_min v
  | LLeft p => set_left p v
  | LRight p => set_right p v
  end.

(** [for (k = 0; n >= 2; k += 1, n /= 2) path = (path << 1) | (n & 1);] an
    [unsigned int] has at most 31 such bits. *)
Fixpoint path_loop (fuel : nat) (n path : Z) (k : nat) : Z * nat :=
  match fuel with
  | O => (path, k)
  | S fuel' =>
      if n >=? 2 then path_loop fuel' (n / 2) (Z.lor (u32 (Z.shiftl path 1)) (Z.land n 1)) (S k)
      else (path, k)
  end.
Definition path_to (n : Z) : Z * nat := path_loop 32 n 0 0.

(** The loop that follows the path; it returns [parent] and [child]. *)
Fixpoint walk (k : nat) (path : Z) (par child : loc) : M heap (loc * loc) :=
  match k with
  | O => ret (par, child)
  | S k' =>
      let* p := load child in
      let* q := lift p in
      walk k' (Z.shiftr path 1) child (if negb (Z.land path 1 =? 0) then LRight q else LLeft q)
  end.

Section heap.
Context (less_than : positive -> positive -> bool).

(** [while (node->parent != NULL && less_than(node, node->parent)) swap;] *)
Fixpoint walk_up (fuel : nat) (node : positive) : M heap unit :=
  match fuel with
  | O => fail
  | S fuel' =>
      let* n := get_node node in
      match parent n with
      | Some p => if less_than node p then heap_node_swap p node ;; walk_up fuel' node else ret tt
      | None => ret tt
      end
  end.

Definition heap_insert (newnode : positive) : M heap unit :=
  put_node newnode (Node None None None) ;;
  let* n := get_nelts in
  let '(path, k) := path_to (u32 (1 + n)) in
  let* '(par, child) := walk k path LMin LMin in
  let* p := load par in
  set_parent newnode p ;;
  store child (Some newnode) ;;
  put_nelts (u32 (n + 1)) ;;
  walk_up (S (Z.to_nat (n + 1))) newnode.

(** The [smallest] of [child] and its two children. *)
Definition pick (o : option positive) (smallest : positive) : positive :=
  match o with
  | Some q => if less_than q smallest then q else smallest
  | None => smallest
  end.

(** [for (;;)]: down to the smallest child. *)
Fixpoint walk_down (fuel : nat) (child : positive) : M heap unit :=
  match fuel with
  | O => fail
  | S fuel' =>
      let* n := get_node child in
      let smallest := pick (right n) (pick (left n) child) in
      if bool_decide (smallest = child) then ret tt
      else heap_node_swap child smallest ;; walk_down fuel' child
  end.

Definition heap_remove (node : option positive) : M heap unit :=
  let* n := get_nelts in
  if n =? 0 then ret tt
  else
    let '(path, k) := path_to n in
    let* '(_, mx) := walk k path LMin LMin in
    put_nelts (n - 1) ;;
    let* c := load mx in
    let* child := lift c in
    store mx None ;;
    if is_ptr node child then
      let* m := get_min in
      if is_ptr m child then put_min None else ret tt
    else
      let* old := lift node in
      let* nd := get_node old in
      put_node child nd ;;
      set_parent_if (left nd) (Some child) ;;
      set_parent_if (right nd) (Some child) ;;
      replace_child (parent nd) old child ;;
      walk_down (S (Z.to_nat n)) child ;;
      walk_up (S (Z.to_nat n)) child.

Definition heap_dequeue : M heap unit :=
  let* m := get_min in
  heap_remove m.
End heap.

(** ** The pointers against a list

    A complete binary tree is the list of its nodes row by row: the children of
    slot [i] are in the slots [2 i + 1] and [2 i + 2]. *)

#[local] Ltac Zify.zify_post_hook ::= Z.div_mod_to_equations.

Definition up_of (i : nat) : nat := (i - 1) / 2.
Definition parent_at (l : list positive) (i : nat) : option positive :=
  match i with O => None | S _ => l !! up_of i end.
Definition node_of (l : list positive) (i : nat) : heap_node :=
  Node (l !! (2 * i + 1)%nat) (l !! (2 * i + 2)%nat) (parent_at l i).

Record rep (l : list positive) (h : heap) : Prop := {
  rep_nodup : NoDup l;
  rep_min : min h = l !! 0%nat;
  rep_nelts : nelts h = zlen l;
  rep_bound : zlen l < 2 ^ 32;
  rep_node : forall i p, l !! i = Some p -> nodes h !! p = Some (node_of l i)
}.

(** The list with the contents of two slots exchanged. *)
Definition lswap (l : list positive) (i j : nat) : list positive :=
  match l !! i, l !! j with
  | Some p, Some c => <[i := c]> (<[j := p]> l)
  | _, _ => l
  end.

(** *** Running single reads and writes *)

Definition with_nodes (h : heap) (m : gmap positive heap_node) : heap := Heap (min h) (nelts h) m.
Definition setl v n := Node v (right n) (parent n).
Definition setr v n := Node (left n) v (parent n).
Definition setp v n := Node (left n) (right n) v.
Definition spif (o : option positive) v (m : gmap positive heap_node) :=
  match o with Some q => alter (setp v) q m | None => m end.

Lemma get_node_ok p n h : nodes h !! p = Some n -> get_node p h = (Some n, h).
Proof. unfold get_node. intros ->. done. Qed.
Lemma set_left_ok p v h : is_Some (nodes h !! p) ->
  set_left p v h = (Some tt, with_nodes h (alter (setl v) p (nodes h))).
Proof.
  intros [n Hn]. unfold set_left, bind, get_node. rewrite Hn. unfold put_node, with_nodes.
  do 2 f_equal. apply map_eq. intros k. rewrite lookup_insert, lookup_alter. case_decide; subst; by rewrite ?Hn.
Qed.
Lemma set_right_ok p v h : is_Some (nodes h !! p) ->
  set_right p v h = (Some tt, with_nodes h (alter (setr v) p (nodes h))).
Proof.
  intros [n Hn]. unfold set_right, bind, get_node. rewrite Hn. unfold put_node, with_nodes.
  do 2 f_equal. apply map_eq. intros k. rewrite lookup_insert, lookup_alter. case_decide; subst; by rewrite ?Hn.
Qed.
Lemma set_parent_ok p v h : is_Some (nodes h !! p) ->
  set_parent p v h = (Some tt, with_nodes h (alter (setp v) p (nodes h))).
Proof.
  intros [n Hn]. unfold set_parent, bind, get_node. rewrite Hn. unfold put_node, with_nodes.
  do 2 f_equal. apply map_eq. intros k. rewrite lookup_insert, lookup_alter. case_decide; subst; by rewrite ?Hn.
Qed.
Lemma set_parent_if_ok o v h : (forall q, o = Some q -> is_Some (nodes h !! q)) ->
  set_parent_if o v h = (Some tt, with_nodes h (spif o v (nodes h))).
Proof.
  destruct o as [q|]; intros H; [apply set_parent_ok; eauto|]. destruct h. done.
Qed.
Lemma lookup_spif o v m q :
  spif o v m !! q = if decide (o = Some q) then setp v <$> m !! q else m !! q.
Proof.
  destruct o as [r|]; simpl; [|done]. rewrite lookup_alter.
  repeat case_decide; simplify_eq; done.
Qed.
Lemma is_Some_alter (f : heap_node -> heap_node) p (m : gmap positive heap_node) q :
  is_Some (m !! q) -> is_Some (alter f p m !! q).
Proof. intros [n Hn]. rewrite lookup_alter. case_decide; subst; rewrite Hn; simpl; eauto. Qed.
Lemma is_Some_spif o v (m : gmap positive heap_node) q : is_Some (m !! q) -> is_Some (spif o v m !! q).
Proof. destruct o; [apply is_Some_alter|done]. Qed.
Lemma is_Some_insert p n (m : gmap positive heap_node) q : is_Some (m !! q) -> is_Some (<[p := n]> m !! q).
Proof. intros. rewrite lookup_insert. case_decide; eauto. Qed.

Create HintDb heap.
#[export] Hint Resolve is_Some_alter is_Some_spif is_Some_insert : heap.

(** Two slots with the same node are the same slot. *)
Ltac same_slot := repeat match goal with
  | ND : NoDup ?l, H1 : ?l !! ?a = Some ?x, H2 : ?l !! ?b = Some ?x |- _ =>
      lazymatch goal with
      | E : a = b |- _ => fail
      | E : b = a |- _ => fail
      | _ => tryif constr_eq a b then fail else
               (assert (a = b) by (eapply NoDup_lookup; [exact ND|exact H1|exact H2]))
      end
  end.
Ltac slots := same_slot; try (exfalso; first [congruence | unfold up_of in *; lia]).

Section rep.
Context (l : list positive) (h : heap) (R : rep l h).

Lemma rep_is_Some i q : l !! i = Some q -> is_Some (nodes h !! q).
Proof. intros H. rewrite (rep_node _ _ R i q H). eauto. Qed.

Lemma parent_at_not k x : l !! k = Some x -> parent_at l k <> Some x.
Proof using R.
  pose proof (rep_nodup _ _ R) as ND. destruct k; simpl; [done|]. intros Hk E. slots.
Qed.

End rep.

(** The side of the parent on which slot [j] hangs, and its sibling. *)
Definition side (j : nat) : option positive -> heap_node -> heap_node :=
  if Nat.odd j then setl else setr.
Definition sibling (l : list positive) (j : nat) : option positive :=
  if Nat.odd j then l !! S j else l !! (j - 1)%nat.

Definition swap_nodes (l : list positive) (i j : nat) (p c : positive) (m : gmap positive heap_node) :=
  let m1 := alter (side j (Some p)) c (alter (setp (Some c)) p (<[c := node_of l i]> (<[p := node_of l j]> m))) in
  spif (l !! (2 * j + 2)%nat) (Some p) (spif (l !! (2 * j + 1)%nat) (Some p) (spif (sibling l j) (Some c) m1)).

Ltac nlook := cbn [nodes with_nodes]; repeat first
  [rewrite lookup_spif | rewrite lookup_alter | rewrite lookup_insert];
  repeat (case_decide; try (exfalso; congruence)); slots.

Lemma child_cases j : (0 < j)%nat ->
  (Nat.odd j = true /\ j = 2 * up_of j + 1 \/ Nat.odd j = false /\ j = 2 * up_of j + 2)%nat.
Proof.
  intros Hj. unfold up_of. pose proof (Nat.div2_odd j) as E. rewrite Nat.div2_div in E.
  destruct (Nat.odd j); simpl Nat.b2n in E; [left|right]; split; try done; lia.
Qed.

(** The last step: the parent of slot [i], or the root, points to [new]. *)
Definition replaced (l : list positive) (i : nat) (new : option positive) (h : heap) : heap :=
  match parent_at l i with
  | None => Heap new (nelts h) (nodes h)
  | Some q => with_nodes h (alter (side i new) q (nodes h))
  end.

Lemma replace_child_ok l i p new h : NoDup l -> l !! i = Some p ->
  (forall q, parent_at l i = Some q -> exists n, nodes h !! q = Some n /\ left n = l !! (2 * up_of i + 1)%nat) ->
  replace_child (parent_at l i) p new h = (Some tt, replaced l i (Some new) h).
Proof.
  intros ND Hi Hn. unfold replaced, replace_child. destruct (parent_at l i) as [q|] eqn:Eq; [|done].
  destruct (Hn q eq_refl) as (n & Hq & Hl). erewrite bind_ok by (apply get_node_ok; exact Hq).
  assert (Hi0 : (0 < i)%nat) by (destruct i; [discriminate|lia]).
  unfold is_ptr, side. rewrite Hl. destruct (child_cases i Hi0) as [[-> Ej]|[-> Ej]].
  - rewrite bool_decide_true by (rewrite <- Hi; f_equal; lia). apply set_left_ok. eauto.
  - rewrite bool_decide_false by (intros ?; slots). apply set_right_ok. eauto.
Qed.

Lemma lookup_replaced l i new h q : nodes (replaced l i new h) !! q =
  if decide (parent_at l i = Some q) then side i new <$> nodes h !! q else nodes h !! q.
Proof.
  unfold replaced. destruct (parent_at l i) as [r|]; simpl; [|done]. rewrite lookup_alter.
  repeat case_decide; simplify_eq; done.
Qed.

Lemma parent_at_iff l i k q : NoDup l -> l !! k = Some q ->
  parent_at l i = Some q <-> (0 < i)%nat /\ k = up_of i.
Proof.
  intros ND Hk. destruct i as [|i]; cbn [parent_at]; split; try done; [lia|intros H; slots; split; lia|].
  intros [_ <-]. done.
Qed.

Lemma children_iff (l : list positive) j k q : NoDup l -> l !! k = Some q ->
  l !! (2 * j + 1)%nat = Some q \/ l !! (2 * j + 2)%nat = Some q <-> (0 < k /\ up_of k = j)%nat.
Proof.
  intros ND Hk. split.
  - intros [Hs|Hs]; slots; unfold up_of in *; lia.
  - intros [H1 H2]. assert (k = 2 * j + 1 \/ k = 2 * j + 2)%nat as [<-|<-] by (unfold up_of in *; lia); tauto.
Qed.

Lemma left_iff k i : (2 * k + 1 = i <-> (0 < i /\ k = up_of i) /\ Nat.odd i = true)%nat.
Proof. destruct (decide (i = 0)%nat); [lia|]. destruct (child_cases i) as [[-> ?]|[-> ?]]; lia. Qed.
Lemma right_iff k i : (2 * k + 2 = i <-> (0 < i /\ k = up_of i) /\ Nat.odd i = false)%nat.
Proof. destruct (decide (i = 0)%nat); [lia|]. destruct (child_cases i) as [[-> ?]|[-> ?]]; lia. Qed.

Section swap.
Context (l : list positive) (h : heap) (R : rep l h).
Context (i j : nat) (p c : positive) (Hi : l !! i = Some p) (Hj : l !! j = Some c).
Context (Hj0 : (0 < j)%nat) (Hij : up_of j = i).

Lemma swap_neq : p <> c.
Proof. intros E. subst. pose proof (rep_nodup _ _ R) as ND. slots. Qed.

Definition swap_nodes1 : gmap positive heap_node :=
  alter (setp (Some c)) p (<[c := node_of l i]> (<[p := node_of l j]> (nodes h))).

Lemma swap_nodes1_some k q : l !! k = Some q -> is_Some (swap_nodes1 !! q).
Proof using R. intros. unfold swap_nodes1. pose proof (rep_is_Some _ _ R k q). eauto 10 with heap. Qed.

(** The branch that finds the sibling. *)
Lemma swap_sibling :
  (if is_ptr (left (node_of l i)) c then set_left c (Some p) ;; ret (right (node_of l i))
   else set_right c (Some p) ;; ret (left (node_of l i))) (with_nodes h swap_nodes1)
  = (Some (sibling l j), with_nodes h (alter (side j (Some p)) c swap_nodes1)).
Proof using Hi Hij Hj Hj0 R.
  pose proof (rep_nodup _ _ R) as ND. pose proof swap_neq as Hpc.
  assert (is_Some (swap_nodes1 !! c)) by (unfold swap_nodes1; apply is_Some_alter; rewrite lookup_insert_eq; eauto).
  unfold sibling, side, is_ptr. destruct (child_cases j Hj0) as [[-> Ej]|[-> Ej]]; simpl.
  - rewrite bool_decide_true by (rewrite <- Hj; f_equal; lia).
    erewrite bind_ok by (apply set_left_ok; done). unfold ret. do 3 f_equal. lia.
  - rewrite bool_decide_false by (intros ?; slots).
    erewrite bind_ok by (apply set_right_ok; done). unfold ret. do 3 f_equal. lia.
Qed.

Lemma sibling_some q : sibling l j = Some q -> exists k, l !! k = Some q /\ k <> i /\ k <> j.
Proof using Hij Hj0.
  unfold sibling. destruct (child_cases j Hj0) as [[-> Ej]|[-> Ej]]; intros; eexists; split; eauto; lia.
Qed.

Lemma sibling_ne : sibling l j <> Some p /\ sibling l j <> Some c.
Proof using Hi Hij Hj Hj0 R.
  pose proof (rep_nodup _ _ R) as ND. split; intros (k & ? & ? & ?)%sibling_some; slots.
Qed.

Lemma swap_exec :
  let m := swap_nodes l i j p c (nodes h) in
  heap_node_swap p c h = replace_child (parent_at l i) p c (with_nodes h m).
Proof using Hi Hij Hj Hj0 R.
  pose proof (rep_nodup _ _ R) as ND. pose proof swap_neq as Hpc. pose proof sibling_ne as [Hsp Hsc].
  pose proof (rep_node _ _ R _ _ Hi) as Ni. pose proof (rep_node _ _ R _ _ Hj) as Nj.
  pose proof swap_nodes1_some as Hsome.
  unfold heap_node_swap.
  erewrite bind_ok by (apply get_node_ok; exact Ni).
  erewrite bind_ok by (apply get_node_ok; exact Nj).
  erewrite bind_ok by reflexivity. erewrite bind_ok by reflexivity. simpl.
  pose proof (rep_is_Some _ _ R) as Hsome0.
  erewrite bind_ok by (apply set_parent_ok; simpl; eauto with heap).
  erewrite bind_ok by (apply get_node_ok; simpl; nlook; reflexivity).
  erewrite bind_ok by exact swap_sibling. clear Hsome0.
  erewrite bind_ok by (apply set_parent_if_ok; simpl; intros ? [? [? ?]]%sibling_some; eauto 10 with heap).
  set (m1 := spif _ _ _).
  assert (Hp : exists n, m1 !! p = Some n /\ left n = l !! (2 * j + 1)%nat /\ right n = l !! (2 * j + 2)%nat).
  { unfold m1, swap_nodes1. nlook. simpl. eauto. }
  assert (Hc : exists n, m1 !! c = Some n /\ parent n = parent_at l i).
  { unfold m1, swap_nodes1. nlook. simpl. unfold side. destruct (Nat.odd j); eauto. }
  destruct Hp as (np & Hp & Lp & Rp). destruct Hc as (nc & Hc & Pc).
  erewrite bind_ok by (apply get_node_ok; exact Hp). rewrite Lp, Rp.
  erewrite bind_ok by (apply set_parent_if_ok; unfold m1; simpl; eauto 10 with heap).
  erewrite bind_ok by (apply set_parent_if_ok; unfold m1; simpl; eauto 10 with heap).
  erewrite bind_ok.
  2: { apply get_node_ok. cbn [nodes with_nodes]. rewrite !lookup_spif, Hc, !decide_False by (intros ?; slots). done. }
  rewrite Pc. f_equal.
Qed.

Lemma swap_above q : parent_at l i = Some q ->
  exists n, swap_nodes l i j p c (nodes h) !! q = Some n /\ left n = l !! (2 * up_of i + 1)%nat.
Proof using Hi Hij Hj Hj0 R.
  pose proof (rep_nodup _ _ R) as ND. pose proof swap_neq as Hpc.
  destruct i as [|i'] eqn:Ei; [done|]. cbn [parent_at]. rewrite <- Ei in *. intros Hq.
  assert (q <> p /\ q <> c) as [? ?] by (split; intros ->; slots).
  pose proof (rep_node _ _ R _ _ Hq) as Nq.
  unfold swap_nodes. nlook; rewrite Nq; simpl; eauto.
Qed.

Lemma lookup_lswap k : lswap l i j !! k =
  if decide (k = i) then Some c else if decide (k = j) then Some p else l !! k.
Proof using Hi Hj Hj0 Hij.
  unfold lswap. rewrite Hi, Hj. pose proof (lookup_lt_Some _ _ _ Hi). pose proof (lookup_lt_Some _ _ _ Hj).
  rewrite !list_lookup_insert, length_insert. repeat case_decide; try done; lia.
Qed.

Lemma lswap_perm : lswap l i j ≡ₚ l.
Proof using Hi Hj.
  unfold lswap. rewrite Hi, Hj. apply Permutation_insert_swap; done.
Qed.

Lemma parent_at_lswap k : parent_at (lswap l i j) k =
  if decide (k = 0)%nat then None else
  if decide (up_of k = i) then Some c else if decide (up_of k = j) then Some p else parent_at l k.
Proof using Hi Hj Hj0 Hij.
  destruct k as [|k]; simpl; [done|]. rewrite lookup_lswap. repeat case_decide; done.
Qed.

Lemma parent_at_0 k : k = 0%nat -> parent_at l k = None.
Proof using. intros ->. done. Qed.

Ltac fields := unfold node_of; rewrite !lookup_lswap, parent_at_lswap;
  repeat case_decide; try (exfalso; unfold up_of in *; lia);
  rewrite ?parent_at_0 by done; try done.

(** The slot that [child] moves to, and the one that [parent] moves to. *)
Lemma swap_slot_i : swap_nodes l i j p c (nodes h) !! c = Some (node_of (lswap l i j) i).
Proof using Hi Hij Hj Hj0 R.
  pose proof (rep_nodup _ _ R) as ND. pose proof swap_neq as Hpc. pose proof sibling_ne as [Hsp Hsc].
  unfold swap_nodes. nlook. simpl. f_equal. unfold side.
  destruct (child_cases j Hj0) as [[-> Ej]|[-> Ej]]; unfold setl, setr; simpl; fields.
Qed.
Lemma swap_slot_j : swap_nodes l i j p c (nodes h) !! p = Some (node_of (lswap l i j) j).
Proof using Hi Hij Hj Hj0 R.
  pose proof (rep_nodup _ _ R) as ND. pose proof swap_neq as Hpc. pose proof sibling_ne as [Hsp Hsc].
  unfold swap_nodes. nlook. simpl. f_equal. unfold setp. simpl. fields.
Qed.

(** The links of a third slot change where a neighbour has moved. *)
Lemma node_of_lswap k : k <> i -> k <> j ->
  node_of (lswap l i j) k =
    (if decide (0 < i /\ k = up_of i)%nat then side i (Some c) else id)
      ((if decide (0 < k /\ up_of k = i)%nat then setp (Some c)
        else if decide (0 < k /\ up_of k = j)%nat then setp (Some p) else id) (node_of l k)).
Proof using Hi Hj Hj0 Hij.
  intros Hki Hkj. unfold node_of. rewrite !lookup_lswap, parent_at_lswap.
  rewrite (decide_False (P := (2 * k + 1 = j)%nat)), (decide_False (P := (2 * k + 2 = j)%nat)) by (unfold up_of in *; lia).
  pose proof (left_iff k i) as Hl. pose proof (right_iff k i) as Hr.
  unfold side. clear - Hl Hr.
  destruct (decide (0 < i /\ k = up_of i)%nat) as [Hu|Hu]; [destruct (Nat.odd i)|].
  all: rewrite ?(decide_True (P := (2 * k + 1 = i)%nat)) by tauto; rewrite ?(decide_False (P := (2 * k + 1 = i)%nat)) by intuition congruence.
  all: rewrite ?(decide_True (P := (2 * k + 2 = i)%nat)) by tauto; rewrite ?(decide_False (P := (2 * k + 2 = i)%nat)) by intuition congruence.
  all: unfold setl, setr, setp, id; repeat case_decide; simpl; try done; try (exfalso; lia).
  all: rewrite ?parent_at_0 by done; done.
Qed.

Lemma sibling_iff k q : l !! k = Some q -> k <> j ->
  sibling l j = Some q <-> (0 < k /\ up_of k = i)%nat.
Proof using Hi Hij Hj Hj0 R.
  pose proof (rep_nodup _ _ R) as ND. intros Hk Hkj.
  unfold sibling. destruct (child_cases j Hj0) as [[-> Ej]|[-> Ej]]; split.
  - intros Hs. slots. unfold up_of in *. lia.
  - intros [? ?]. rewrite <- Hk. f_equal. unfold up_of in *. lia.
  - intros Hs. slots. unfold up_of in *. lia.
  - intros [? ?]. rewrite <- Hk. f_equal. unfold up_of in *. lia.
Qed.

Lemma swap_slot_other k q : l !! k = Some q -> k <> i -> k <> j ->
  nodes (replaced l i (Some c) (with_nodes h (swap_nodes l i j p c (nodes h)))) !! q = Some (node_of (lswap l i j) k).
Proof using Hi Hij Hj Hj0 R.
  pose proof (rep_nodup _ _ R) as ND. intros Hk Hki Hkj.
  assert (p <> q /\ c <> q) as [? ?] by (split; intros <-; slots).
  rewrite node_of_lswap by done. rewrite lookup_replaced. cbn [nodes with_nodes].
  rewrite (decide_ext _ _ _ _ (parent_at_iff l i k q ND Hk)).
  assert (swap_nodes l i j p c (nodes h) !! q = Some ((if decide (0 < k /\ up_of k = i)%nat then setp (Some c)
        else if decide (0 < k /\ up_of k = j)%nat then setp (Some p) else id) (node_of l k))) as ->.
  2: case_decide; done.
  unfold swap_nodes. rewrite !lookup_spif, !lookup_alter_ne, !lookup_insert_ne by done.
  rewrite (rep_node _ _ R _ _ Hk). rewrite (decide_ext _ _ _ _ (sibling_iff k q Hk Hkj)).
  pose proof (children_iff l j k q ND Hk) as Hc.
  destruct (decide (0 < k /\ up_of k = i)%nat) as [H1|H1].
  { rewrite !decide_False by (intros ?; slots). done. }
  destruct (decide (0 < k /\ up_of k = j)%nat) as [H2|H2].
  - apply Hc in H2 as H3. destruct (decide (l !! (2 * j + 2)%nat = Some q)) as [E|E].
    + rewrite decide_False by (intros ?; slots). done.
    + rewrite decide_True by tauto. done.
  - rewrite !decide_False by (intros ?; apply H2, Hc; tauto). done.
Qed.

Lemma swap_rep : rep (lswap l i j) (replaced l i (Some c) (with_nodes h (swap_nodes l i j p c (nodes h)))).
Proof using Hi Hij Hj Hj0 R.
  split.
  - rewrite lswap_perm. apply R.
  - unfold replaced. rewrite lookup_lswap. destruct i as [|i'] eqn:E; simpl; [done|].
    destruct (lookup_lt_is_Some_2 l (up_of (S i'))) as [q Hq].
    { apply lookup_lt_Some in Hi. unfold up_of. lia. }
    rewrite Hq. simpl. rewrite decide_False by lia. apply R.
  - transitivity (nelts h); [unfold replaced; destruct (parent_at l i); done|].
    rewrite (rep_nelts _ _ R). unfold zlen. rewrite lswap_perm. done.
  - unfold zlen. rewrite lswap_perm. apply R.
  - intros k q. pose proof (rep_nodup _ _ R) as ND. rewrite lookup_lswap.
    pose proof (parent_at_iff l i) as Hup.
    case_decide as H1; [intros [= <-]; subst k|case_decide as H2; [intros [= <-]; subst k|intros; by apply swap_slot_other]].
    + rewrite lookup_replaced, (decide_ext _ _ _ _ (Hup j c ND Hj)), decide_False by (unfold up_of in *; lia).
      apply swap_slot_i.
    + rewrite lookup_replaced, (decide_ext _ _ _ _ (Hup i p ND Hi)), decide_False by (unfold up_of in *; lia).
      apply swap_slot_j.
Qed.
End swap.

(** [heap_node_swap] exchanges the contents of two slots. *)
Lemma heap_node_swap_ok l h i j p c : rep l h -> l !! i = Some p -> l !! j = Some c ->
  (0 < j)%nat -> up_of j = i ->
  exists h', heap_node_swap p c h = (Some tt, h') /\ rep (lswap l i j) h'.
Proof.
  intros R Hi Hj Hj0 Hij. eexists. split; [|eapply swap_rep; eassumption].
  rewrite (swap_exec l h R i j p c) by done. apply replace_child_ok; [apply R|done|].
  intros q Hq. eapply swap_above; eassumption.
Qed.

(** *** The path to a slot *)

(** Slots are numbered from 1 here, so that [n] has the parent [n / 2]. *)
Definition idx (n : Z) : nat := Z.to_nat (n - 1).
Definition slot (l : list positive) (i : nat) : loc :=
  match i, l !! up_of i with
  | S _, Some q => if Nat.odd i then LLeft q else LRight q
  | _, _ => LMin
  end.

(** Where [k] steps along [path] lead. *)
Fixpoint reach (k : nat) (path s : Z) : Z :=
  match k with
  | O => s
  | S k' => reach k' (Z.shiftr path 1) (2 * s + Z.land path 1)
  end.

Lemma land_1 x : Z.land x 1 = x mod 2.
Proof. apply (land_mask 1). lia. Qed.
Lemma shiftr_1 x : Z.shiftr x 1 = x / 2.
Proof. rewrite Z.shiftr_div_pow2 by lia. done. Qed.

Lemma path_loop_reach fuel : forall n path k path' k', 1 <= n < 2 ^ Z.of_nat fuel -> 0 <= path < 2 ^ Z.of_nat k ->
  (fuel + k <= 32)%nat ->
  path_loop fuel n path k = (path', k') -> reach k' path' 1 = reach k path n.
Proof.
  induction fuel as [|fuel IH]; intros n path k path' k' Hn Hp Hk; [lia|]. cbn [path_loop].
  rewrite Nat2Z.inj_succ, Z.pow_succ_r in Hn by lia.
  destruct (Z.geb_spec n 2) as [H|H]; [|intros [= <- <-]; assert (n = 1) as -> by lia; done].
  assert (2 ^ Z.of_nat k <= 2 ^ 31) by (apply Z.pow_le_mono_r; lia).
  rewrite Z.shiftl_mul_pow2, (u32_small (path * 2 ^ 1)), land_1, (lor_add_mul 1 2) by (change (2 ^ 1) with 2; zarith).
  change (2 ^ 1) with 2. intros E. apply IH in E; [|zarith|rewrite Nat2Z.inj_succ, Z.pow_succ_r by lia; zarith|lia].
  rewrite E. cbn [reach]. rewrite land_1, shiftr_1. f_equal; zarith.
Qed.

Lemma path_to_reach n path k : 1 <= n < 2 ^ 32 -> path_to n = (path, k) -> reach k path 1 = n.
Proof. intros Hn E. apply path_loop_reach in E; [done|done|simpl; lia|lia]. Qed.

Lemma path_loop_nonneg fuel : forall n path k path' k', 0 <= path ->
  path_loop fuel n path k = (path', k') -> 0 <= path'.
Proof.
  induction fuel as [|fuel IH]; intros n path k path' k' Hp; cbn [path_loop]; [intros [= <- <-]; done|].
  destruct (n >=? 2); [|intros [= <- <-]; done]. apply IH. rewrite land_1.
  apply Z.lor_nonneg. split; [apply u32_range|zarith].
Qed.
Lemma path_to_nonneg n path k : path_to n = (path, k) -> 0 <= path.
Proof. apply path_loop_nonneg. lia. Qed.

Lemma reach_ge k : forall path s, 0 <= path -> 1 <= s -> s * 2 ^ Z.of_nat k <= reach k path s.
Proof.
  induction k as [|k IH]; intros path s Hp Hs; cbn [reach]; [simpl; lia|].
  rewrite land_1, shiftr_1, Nat2Z.inj_succ, Z.pow_succ_r by lia.
  etransitivity; [|apply IH; zarith]. assert (0 < 2 ^ Z.of_nat k) by (apply Z.pow_pos_nonneg; lia).
  pose proof (Z.mod_pos_bound path 2). nia.
Qed.

Lemma load_slot l h i : rep l h -> (i <= length l)%nat ->
  forall n, load (slot l i) (Heap (min h) n (nodes h)) = (Some (l !! i), Heap (min h) n (nodes h)).
Proof.
  intros R Hi n. unfold slot. destruct i as [|i'] eqn:E.
  - unfold load, get_min. cbn [min]. rewrite (rep_min _ _ R). done.
  - destruct (lookup_lt_is_Some_2 l (up_of (S i'))) as [q Hq]; [unfold up_of; lia|]. rewrite Hq.
    pose proof (get_node_ok q _ (Heap (min h) n (nodes h)) (rep_node _ _ R _ _ Hq)) as G.
    destruct (child_cases (S i')) as [[-> Ei]|[-> Ei]]; [lia| |]; unfold load.
    all: erewrite bind_ok by exact G; unfold ret; simpl; do 3 f_equal; lia.
Qed.

Lemma slot_child l n q b : 1 <= n -> l !! idx n = Some q -> 0 <= b < 2 ->
  slot l (idx (2 * n + b)) = if negb (b =? 0) then LRight q else LLeft q.
Proof.
  intros Hn Hq Hb. assert (Hu : up_of (idx (2 * n + b)) = idx n) by (unfold up_of, idx; zarith).
  assert (0 < idx (2 * n + b))%nat as H0 by (unfold idx; lia).
  unfold slot. pose proof (child_cases _ H0) as HC. destruct (idx (2 * n + b)) as [|m] eqn:E1; [lia|].
  rewrite Hu, Hq in *. destruct HC as [[-> E]|[-> E]].
  all: destruct (Z.eqb_spec b 0); simpl; try done; unfold up_of, idx in *; zarith.
Qed.

Lemma walk_reach l h : rep l h -> forall k path par s, 0 <= path -> 1 <= s -> reach k path s <= zlen l + 1 ->
  walk k path par (slot l (idx s)) h =
    (Some (if decide (k = 0)%nat then par else slot l (up_of (idx (reach k path s))), slot l (idx (reach k path s))), h).
Proof.
  intros R. induction k as [|k IH]; intros path par s Hp Hs Hr; [done|].
  pose proof (reach_ge (S k) path s Hp Hs) as Hge. rewrite Nat2Z.inj_succ, Z.pow_succ_r in Hge by lia.
  assert (0 < 2 ^ Z.of_nat k) by (apply Z.pow_pos_nonneg; lia).
  cbn [walk]. cbn [reach] in *. 
  assert (s <= zlen l) by nia. unfold zlen in *.
  destruct h as [mn ne m]. erewrite bind_ok by (apply (load_slot l _ _ R); unfold idx; lia).
  destruct (lookup_lt_is_Some_2 l (idx s)) as [q Hq]; [unfold idx; lia|]. rewrite Hq.
  erewrite bind_ok by reflexivity.
  rewrite land_1 in *. rewrite <- (slot_child l s q) by (done || apply Z.mod_pos_bound; lia).
  rewrite IH; [|rewrite shiftr_1; zarith|zarith|done].
  rewrite (decide_False (P := S k = 0%nat)) by lia. destruct k as [|k]; [|done].
  cbn [reach decide]. do 3 f_equal. f_equal. unfold up_of, idx. zarith.
Qed.

(** *** The last slot *)

Lemma store_slot l h i v : rep l h -> (i <= length l)%nat ->
  forall n, store (slot l i) v (Heap (min h) n (nodes h)) = (Some tt, replaced l i v (Heap (min h) n (nodes h))).
Proof.
  intros R Hi n. unfold slot, replaced. destruct i as [|i'] eqn:E; [done|]. cbn [parent_at].
  destruct (lookup_lt_is_Some_2 l (up_of (S i'))) as [q Hq]; [unfold up_of; lia|]. rewrite Hq.
  pose proof (rep_is_Some _ _ R _ _ Hq). unfold side. destruct (Nat.odd (S i')); simpl store.
  - apply set_left_ok. done.
  - apply set_right_ok. done.
Qed.

Lemma node_of_snoc l p k : (k < length l)%nat ->
  node_of (l ++ [p]) k =
    (if decide (0 < length l /\ k = up_of (length l))%nat then side (length l) (Some p) else id) (node_of l k).
Proof.
  intros Hk. unfold node_of.
  assert (parent_at (l ++ [p]) k = parent_at l k) as ->.
  { destruct k; [done|]. simpl. rewrite lookup_app_l; [done|unfold up_of; lia]. }
  assert (HL : forall x, (l ++ [p]) !! x = if decide (x = length l) then Some p else l !! x).
  { intros x. rewrite lookup_app, list_lookup_singleton. case_decide.
    - subst. rewrite lookup_ge_None_2 by lia. rewrite Nat.sub_diag. done.
    - destruct (l !! x) eqn:E; [done|]. apply lookup_ge_None in E. destruct (x - length l)%nat eqn:?; [lia|done]. }
  rewrite !HL. unfold side. destruct (decide (0 < length l /\ k = up_of (length l))%nat) as [H1|H1].
  - destruct (child_cases (length l)) as [[-> E]|[-> E]]; [lia| |]; unfold setl, setr; simpl.
    + rewrite decide_True, decide_False by lia. done.
    + rewrite decide_False, decide_True by lia. done.
  - rewrite !decide_False by (unfold up_of in *; lia). done.
Qed.

Lemma parent_at_snoc l p k : (k <= length l)%nat -> parent_at (l ++ [p]) k = parent_at l k.
Proof. intros Hk. destruct k; [done|]. simpl. rewrite lookup_app_l; [done|unfold up_of; lia]. Qed.

Lemma node_of_last l p : node_of (l ++ [p]) (length l) = Node None None (parent_at l (length l)).
Proof.
  unfold node_of. rewrite parent_at_snoc by lia. f_equal; apply lookup_ge_None; rewrite length_app; simpl; lia.
Qed.

Lemma rep_fresh l h p m : rep l h -> p ∉ l -> (forall q, q <> p -> m !! q = nodes h !! q) ->
  rep l (with_nodes h m).
Proof.
  intros [] Hp Hm. split; try done. intros i q Hq. simpl. rewrite Hm; [auto|].
  intros ->. apply Hp. eapply list_elem_of_lookup_2; eauto.
Qed.

Lemma rep_snoc l h p : rep l h -> p ∉ l -> zlen l + 1 < 2 ^ 32 ->
  nodes h !! p = Some (Node None None (parent_at l (length l))) ->
  let h' := replaced l (length l) (Some p) h in
  rep (l ++ [p]) (Heap (min h') (zlen l + 1) (nodes h')).
Proof.
  intros R Hp Hb Hn h'. pose proof (rep_nodup _ _ R) as ND. split; simpl.
  - apply NoDup_app. split_and!; [done|set_solver|apply NoDup_singleton].
  - unfold h', replaced. destruct l as [|x l]; [done|]. cbn [parent_at length].
    destruct (lookup_lt_is_Some_2 (x :: l) (up_of (S (length l)))) as [q ->]; [cbn [length]; unfold up_of; lia|].
    simpl. apply R.
  - rewrite zlen_app. done.
  - rewrite zlen_app. done.
  - intros i q Hi. unfold h'. rewrite lookup_replaced.
    assert (Hpar : forall x, parent_at l (length l) = Some x -> x <> p).
    { intros x Hx ->. destruct l as [|y l]; [done|]. apply Hp. eapply list_elem_of_lookup_2, Hx. }
    apply lookup_app_Some in Hi as [Hi|[Hi1 Hi2]].
    + pose proof (lookup_lt_Some _ _ _ Hi). rewrite node_of_snoc by done.
      rewrite (decide_ext _ _ _ _ (parent_at_iff l (length l) i q ND Hi)), (rep_node _ _ R _ _ Hi).
      case_decide; done.
    + apply list_lookup_singleton_Some in Hi2 as [Hi2 ->]. assert (i = length l) as -> by lia.
      rewrite node_of_last, decide_False, Hn; [done|]. intros E%Hpar. done.
Qed.

Lemma rep_unsnoc l h p : rep (l ++ [p]) h ->
  rep l (replaced (l ++ [p]) (length l) None (Heap (min h) (zlen l) (nodes h))).
Proof.
  intros R. pose proof (rep_nodup _ _ R) as ND. pose proof (rep_bound _ _ R) as Hb. rewrite zlen_app in Hb.
  change (zlen [p]) with 1 in Hb.
  assert (NDl : NoDup l) by (apply NoDup_app in ND; tauto).
  split.
  - done.
  - unfold replaced. rewrite parent_at_snoc by lia. destruct l as [|x l]; [done|]. cbn [parent_at length].
    destruct (lookup_lt_is_Some_2 (x :: l) (up_of (S (length l)))) as [q ->]; [cbn [length]; unfold up_of; lia|].
    simpl. apply (rep_min _ _ R).
  - unfold replaced. destruct (parent_at _ _); done.
  - lia.
  - intros i q Hi. rewrite lookup_replaced, parent_at_snoc by lia. simpl nodes.
    rewrite (decide_ext _ _ _ _ (parent_at_iff l (length l) i q NDl Hi)).
    rewrite (rep_node _ _ R i q) by (apply lookup_app_l_Some; done).
    pose proof (lookup_lt_Some _ _ _ Hi). rewrite node_of_snoc by done. case_decide; [|done].
    simpl. f_equal. unfold side, node_of.
    destruct (child_cases (length l)) as [[-> E]|[-> E]]; [lia| |]; unfold setl, setr; simpl; f_equal;
      symmetry; apply lookup_ge_None; lia.
Qed.

(** ** The order *)

(** Slot [k] is not below its parent. *)
Definition ord (lt : positive -> positive -> bool) (l : list positive) (k : nat) : Prop :=
  forall c p, (0 < k)%nat -> l !! k = Some c -> l !! up_of k = Some p -> lt c p = false.
Definition ordered lt l : Prop := forall k, ord lt l k.
(** The children of slot [i] are not below its parent. *)
Definition grand (lt : positive -> positive -> bool) (l : list positive) (i : nat) : Prop :=
  forall k c g, (0 < i)%nat -> (0 < k)%nat -> up_of k = i -> l !! k = Some c -> l !! up_of i = Some g -> lt c g = false.

Section order.
Context (lt : positive -> positive -> bool) `{!WeakOrder lt}.

(** The root of an ordered tree is a minimum. *)
Lemma ordered_min l m : ordered lt l -> l !! 0%nat = Some m -> forall q, q ∈ l -> lt q m = false.
Proof.
  intros HO Hm q [k Hk]%list_elem_of_lookup. revert q Hk.
  induction k as [k IH] using lt_wf_ind; intros q Hk.
  destruct k as [|k]; [assert (q = m) as -> by congruence; apply (lt_irrefl lt)|].
  destruct (lookup_lt_is_Some_2 l (up_of (S k))) as [p Hp].
  { apply lookup_lt_Some in Hk. unfold up_of. lia. }
  apply lt_negtrans with p; [apply (HO (S k)); [lia|done..]|]. eapply IH, Hp. unfold up_of. lia.
Qed.

Section step.
Context (l : list positive) (ND : NoDup l) (i j : nat) (p c : positive).
Context (Hi : l !! i = Some p) (Hj : l !! j = Some c) (Hj0 : (0 < j)%nat) (Hij : up_of j = i).

Ltac lsw := rewrite !(lookup_lswap l i j p c) by assumption.

(** Moving [c] up past [p]. *)
Lemma swap_up : lt c p = true -> (forall k, k <> j -> ord lt l k) -> grand lt l j ->
  (forall k, k <> i -> ord lt (lswap l i j) k) /\ grand lt (lswap l i j) i.
Proof using All.
  intros Hlt HO HG. split.
  - intros k Hk x y Hk0. lsw. rewrite (decide_False (P := k = i)) by done. intros Hx Hy.
    destruct (decide (k = j)) as [->|Hkj].
    + rewrite decide_True in Hy by done. simplify_eq. apply lt_asym. done.
    + destruct (decide (up_of k = i)) as [E|E].
      { simplify_eq. eapply (lt_negtrans_l lt); [apply (HO k Hkj); [done|done|rewrite E; done]|done]. }
      case_decide; [simplify_eq; apply (HG k); done|apply (HO k Hkj); done].
  - intros k x g Hi0 Hk0 Hk. lsw. rewrite (decide_False (P := up_of i = i)), (decide_False (P := up_of i = j)), (decide_False (P := k = i)) by (unfold up_of in *; lia).
    intros Hx Hg. assert (HP : lt p g = false) by (apply (HO i); [unfold up_of in *; lia|done..]).
    case_decide; [simplify_eq; done|]. eapply (lt_negtrans (lt := lt)); [apply (HO k); [done..|rewrite Hk; exact Hi]|done].
Qed.

(** Moving [p] down past its smallest child [c]. *)
Lemma swap_down :
  (forall k, (0 < k)%nat -> k <> i -> up_of k <> i -> ord lt l k) -> grand lt l i ->
  (forall k x, (0 < k)%nat -> up_of k = i -> l !! k = Some x -> lt x c = false) ->
  (forall k, (0 < k)%nat -> k <> j -> up_of k <> j -> ord lt (lswap l i j) k) /\ grand lt (lswap l i j) j.
Proof using All.
  intros HO HG HS. split.
  - intros k Hk0 Hkj Huj x y _. lsw.
    rewrite (decide_False (P := k = j)), (decide_False (P := up_of k = j)) by done.
    intros Hx Hy. destruct (decide (k = i)) as [Hki|Hki].
    + subst k. simplify_eq. rewrite decide_False in Hy by (unfold up_of in *; lia).
      eapply HG; [lia| | |exact Hj|]; eauto.
    + destruct (decide (up_of k = i)) as [E|E]; [simplify_eq; eauto|eapply HO; eauto].
  - intros k x g _ Hk0 Hk. lsw.
    rewrite (decide_False (P := k = j)), (decide_False (P := k = i)), (decide_True (P := up_of j = i)) by (unfold up_of in *; lia).
    intros Hx [= <-]. eapply (HO k); eauto; [unfold up_of in *; lia..|congruence].
Qed.
End step.

(** *** The loops *)

Lemma walk_up_ok fuel : forall l h i x, rep l h -> l !! i = Some x -> (i < fuel)%nat ->
  (forall k, k <> i -> ord lt l k) -> grand lt l i ->
  exists h' l', walk_up lt fuel x h = (Some tt, h') /\ rep l' h' /\ l' ≡ₚ l /\ ordered lt l'.
Proof using All.
  induction fuel as [|fuel IH]; intros l h i x R Hi Hf HO HG; [lia|]. cbn [walk_up].
  pose proof (rep_nodup _ _ R) as ND.
  erewrite bind_ok by (apply get_node_ok, (rep_node _ _ R _ _ Hi)). unfold node_of. cbn [parent].
  destruct (parent_at l i) as [p|] eqn:Ep.
  - destruct i as [|i']; [done|]. cbn [parent_at] in Ep.
    destruct (lt x p) eqn:Elt; cbn match.
    + destruct (heap_node_swap_ok l h _ _ p x R Ep Hi) as (h1 & E1 & R1); try (done || lia).
      erewrite bind_ok by exact E1.
      destruct (swap_up l ND (up_of (S i')) (S i') p x) as [HO1 HG1]; try (done || lia).
      destruct (IH _ _ (up_of (S i')) x R1) as (h2 & l2 & E2 & R2 & P2 & O2); try done; [|unfold up_of in *; lia|].
      { rewrite (lookup_lswap l _ _ p x) by (done || lia). rewrite decide_True; done. }
      exists h2, l2. split_and!; [done|done| |done]. rewrite P2. apply (lswap_perm l _ _ p x); done.
    + exists h, l. split_and!; [done..|]. intros k. destruct (decide (k = S i')) as [->|]; [|auto].
      intros c q _ ? ?. simplify_eq. done.
  - exists h, l. split_and!; [done..|]. intros k. destruct (decide (k = i)) as [->|]; [|auto].
    intros c q H0 _ Hq. destruct i; [lia|]. cbn [parent_at] in Ep. congruence.
Qed.

(** [pick] over both children of a slot. *)
Lemma pick_spec (l : list positive) i x q : q = pick lt (l !! (2 * i + 2)%nat) (pick lt (l !! (2 * i + 1)%nat) x) ->
  (forall k y, (0 < k)%nat -> up_of k = i -> l !! k = Some y -> lt y q = false) /\
  (q = x \/ lt q x = true /\ exists j, (0 < j)%nat /\ up_of j = i /\ l !! j = Some q).
Proof using All.
  intros Hq. assert (HC : forall k, (0 < k)%nat -> up_of k = i -> k = (2 * i + 1)%nat \/ k = (2 * i + 2)%nat)
    by (unfold up_of; lia).
  assert (HL : forall k, k = (2 * i + 1)%nat \/ k = (2 * i + 2)%nat -> (0 < k)%nat /\ up_of k = i)
    by (unfold up_of; lia).
  pose proof (lt_irrefl lt) as Irr. unfold pick in Hq.
  destruct (l !! (2 * i + 1)%nat) as [a|] eqn:Ea, (l !! (2 * i + 2)%nat) as [b|] eqn:Eb.
  - destruct (lt a x) eqn:Eax; [destruct (lt b a) eqn:Eba|destruct (lt b x) eqn:Ebx]; subst q; split.
    all: try (intros k y Hk Hu Hy; destruct (HC k Hk Hu) as [->| ->]; simplify_eq; eauto using lt_asym, lt_negtrans_l).
    + right. split; [|exists (2 * i + 2)%nat; split_and!; [apply HL; tauto..|done]].
      destruct (lt b x) eqn:Ebx; [done|]. rewrite (lt_negtrans_l lt _ _ _ Ebx Eax) in Eba. done.
    + right. split; [done|]. exists (2 * i + 1)%nat. split_and!; [apply HL; tauto..|done].
    + right. split; [done|]. exists (2 * i + 2)%nat. split_and!; [apply HL; tauto..|done].
    + left. done.
  - destruct (lt a x) eqn:Eax; subst q; split.
    all: try (intros k y Hk Hu Hy; destruct (HC k Hk Hu) as [->| ->]; simplify_eq; eauto).
    + right. split; [done|]. exists (2 * i + 1)%nat. split_and!; [apply HL; tauto..|done].
    + left. done.
  - destruct (lt b x) eqn:Ebx; subst q; split.
    all: try (intros k y Hk Hu Hy; destruct (HC k Hk Hu) as [->| ->]; simplify_eq; eauto).
    + right. split; [done|]. exists (2 * i + 2)%nat. split_and!; [apply HL; tauto..|done].
    + left. done.
  - subst q. split; [|left; done]. intros k y Hk Hu Hy; destruct (HC k Hk Hu) as [->| ->]; simplify_eq.
Qed.

Lemma walk_down_ok fuel : forall l h i x, rep l h -> l !! i = Some x -> (length l - i < fuel)%nat ->
  (forall k, (0 < k)%nat -> k <> i -> up_of k <> i -> ord lt l k) -> grand lt l i ->
  exists h' l' i', walk_down lt fuel x h = (Some tt, h') /\ rep l' h' /\ l' ≡ₚ l /\ l' !! i' = Some x /\
    (forall k, k <> i' -> ord lt l' k) /\ grand lt l' i'.
Proof using All.
  induction fuel as [|fuel IH]; intros l h i x R Hi Hf HO HG; [lia|]. cbn [walk_down].
  pose proof (rep_nodup _ _ R) as ND.
  erewrite bind_ok by (apply get_node_ok, (rep_node _ _ R _ _ Hi)). unfold node_of. cbn [left right].
  destruct (pick_spec l i x _ eq_refl) as [HS HQ]. set (q := pick _ _ _) in *. clearbody q.
  destruct HQ as [->|(Hlt & j & Hj0 & Hij & Hj)].
  - rewrite bool_decide_true by done. exists h, l, i. split_and!; try done.
    intros k Hki c p Hk0 Hc Hp. destruct (decide (up_of k = i)) as [E|E]; [|apply (HO k); done].
    subst i. simplify_eq. apply (HS k); done.
  - rewrite bool_decide_false by (intros ->; rewrite (lt_irrefl lt) in Hlt; done).
    destruct (heap_node_swap_ok l h i j x q R Hi Hj Hj0 Hij) as (h1 & E1 & R1).
    erewrite bind_ok by exact E1.
    destruct (swap_down l ND i j x q) as [HO1 HG1]; [done..|].
    assert (length (lswap l i j) = length l) as Hlen by (apply Permutation_length, (lswap_perm l i j x q); done).
    destruct (IH _ _ j x R1) as (h2 & l2 & i2 & E2 & R2 & P2 & L2 & O2 & G2); try done; [|apply lookup_lt_Some in Hj; unfold up_of in *; lia|].
    { rewrite (lookup_lswap l i j x q) by done. rewrite decide_False, decide_True; [done..|unfold up_of in *; lia]. }
    exists h2, l2, i2. split_and!; try done. rewrite P2. apply (lswap_perm l i j x q); done.
Qed.
End order.

(** *** Putting one node in the place of another *)

Section subst.
Context (l : list positive) (h : heap) (R : rep l h).
Context (i : nat) (p c : positive) (Hi : l !! i = Some p) (Hc : c ∉ l).

Definition subst_nodes : gmap positive heap_node :=
  spif (l !! (2 * i + 2)%nat) (Some c) (spif (l !! (2 * i + 1)%nat) (Some c) (<[c := node_of l i]> (nodes h))).

Lemma lookup_subst k : <[i := c]> l !! k = if decide (k = i) then Some c else l !! k.
Proof using Hi.
  apply lookup_lt_Some in Hi. rewrite list_lookup_insert. repeat case_decide; naive_solver.
Qed.

Lemma node_of_subst k :
  node_of (<[i := c]> l) k =
    (if decide (0 < i /\ k = up_of i)%nat then side i (Some c) else id)
      ((if decide (0 < k /\ up_of k = i)%nat then setp (Some c) else id) (node_of l k)).
Proof using Hi.
  unfold node_of. rewrite !lookup_subst.
  assert (parent_at (<[i := c]> l) k = if decide (0 < k /\ up_of k = i)%nat then Some c else parent_at l k) as ->.
  { destruct k; cbn [parent_at]; [rewrite decide_False by lia; done|].
    rewrite lookup_subst. repeat case_decide; try done; lia. }
  pose proof (left_iff k i) as Hl. pose proof (right_iff k i) as Hr. unfold side. clear - Hl Hr.
  destruct (decide (0 < i /\ k = up_of i)%nat) as [Hu|Hu]; [destruct (Nat.odd i)|].
  all: rewrite ?(decide_True (P := (2 * k + 1 = i)%nat)) by tauto; rewrite ?(decide_False (P := (2 * k + 1 = i)%nat)) by intuition congruence.
  all: rewrite ?(decide_True (P := (2 * k + 2 = i)%nat)) by tauto; rewrite ?(decide_False (P := (2 * k + 2 = i)%nat)) by intuition congruence.
  all: unfold setl, setr, setp, id; case_decide; done.
Qed.

Lemma lookup_subst_nodes k q : l !! k = Some q ->
  subst_nodes !! q = Some ((if decide (0 < k /\ up_of k = i)%nat then setp (Some c) else id) (node_of l k)).
Proof using R Hc.
  intros Hk. pose proof (rep_nodup _ _ R) as ND.
  assert (c <> q) by (intros ->; apply Hc; eapply list_elem_of_lookup_2; done).
  unfold subst_nodes. rewrite !lookup_spif, !lookup_insert_ne by done. rewrite (rep_node _ _ R _ _ Hk).
  pose proof (children_iff l i k q ND Hk) as HC.
  destruct (decide (0 < k /\ up_of k = i)%nat) as [H2|H2].
  - apply HC in H2 as H3. destruct (decide (l !! (2 * i + 2)%nat = Some q)) as [E|E].
    + rewrite decide_False by (intros ?; slots). done.
    + rewrite decide_True by tauto. done.
  - rewrite !decide_False by (intros ?; apply H2, HC; tauto). done.
Qed.

Lemma subst_nodes_new : subst_nodes !! c = Some (node_of l i).
Proof using Hc.
  assert (H : forall x, l !! x <> Some c) by (intros x E; apply Hc; eapply list_elem_of_lookup_2; done).
  unfold subst_nodes. rewrite !lookup_spif, !decide_False by auto. apply lookup_insert_eq.
Qed.

Lemma subst_rep : rep (<[i := c]> l) (replaced l i (Some c) (with_nodes h subst_nodes)).
Proof using All.
  pose proof (rep_nodup _ _ R) as ND. pose proof (lookup_lt_Some _ _ _ Hi) as Hlt.
  assert (Hnc : forall x, parent_at l x <> Some c).
  { intros [|x] E; [done|]. apply Hc. eapply list_elem_of_lookup_2; done. }
  split.
  - apply NoDup_alt. intros a b x. rewrite !lookup_subst. repeat case_decide; intros Ha Hb; simplify_eq; try done.
    + exfalso. apply Hc. eapply list_elem_of_lookup_2; done.
    + exfalso. apply Hc. eapply list_elem_of_lookup_2; done.
    + eapply NoDup_lookup; done.
  - unfold replaced. rewrite lookup_subst. destruct i as [|i'] eqn:E; simpl; [done|].
    destruct (lookup_lt_is_Some_2 l (up_of (S i'))) as [q ->]; [unfold up_of; lia|]. apply R.
  - transitivity (nelts h); [unfold replaced; destruct (parent_at l i); done|].
    rewrite (rep_nelts _ _ R). unfold zlen. rewrite length_insert. done.
  - unfold zlen. rewrite length_insert. apply R.
  - intros k q. rewrite lookup_subst, lookup_replaced, node_of_subst. cbn [nodes with_nodes].
    destruct (decide (k = i)) as [->|Hki]; [intros [= <-]|intros Hk].
    + rewrite decide_False by done. rewrite subst_nodes_new, !decide_False by (unfold up_of; lia). done.
    + rewrite (decide_ext _ _ _ _ (parent_at_iff l i k q ND Hk)), (lookup_subst_nodes _ _ Hk).
      case_decide; done.
Qed.
End subst.

(** ** The operations *)

Section ops.
Context (lt : positive -> positive -> bool) `{!WeakOrder lt}.

Lemma nelts_eta (h : heap) : h = Heap (min h) (nelts h) (nodes h).
Proof. destruct h. done. Qed.

(** The two searches for the end of the bottom row. *)
Lemma walk_last l h path k : rep l h -> zlen l + 1 < 2 ^ 32 -> path_to (zlen l + 1) = (path, k) ->
  exists par, walk k path LMin LMin h = (Some (par, slot l (length l)), h) /\
    load par h = (Some (parent_at l (length l)), h).
Proof using .
  intros R Hb Ep. pose proof (zlen_nonneg l).
  pose proof (path_to_reach (zlen l + 1) path k ltac:(lia) Ep) as Hr.
  assert (Hp0 : 0 <= path) by (eapply path_to_nonneg; done).
  pose proof (walk_reach l h R k path LMin 1 Hp0 ltac:(lia) ltac:(lia)) as W.
  rewrite Hr in W. change (slot l (idx 1)) with LMin in W.
  assert (idx (zlen l + 1) = length l) as Ei by (unfold idx, zlen; lia). rewrite Ei in W.
  eexists. split; [exact W|]. destruct (decide (k = 0)%nat) as [->|Hk].
  - cbn [reach] in Hr. assert (l = []) as -> by (apply zlen_zero; lia). simpl. unfold get_min. rewrite (rep_min _ _ R). done.
  - assert (0 < length l)%nat as Hl.
    { pose proof (reach_ge k path 1 Hp0 ltac:(lia)) as G. destruct k as [|k]; [done|].
      rewrite Nat2Z.inj_succ, Z.pow_succ_r in G by lia. assert (0 < 2 ^ Z.of_nat k) by (apply Z.pow_pos_nonneg; lia).
      unfold zlen in *. lia. }
    rewrite (nelts_eta h). rewrite (load_slot l h) by (done || unfold up_of; lia).
    destruct (length l); [lia|done].
Qed.

Lemma heap_insert_refines l h p : rep l h -> ordered lt l -> p ∉ l -> zlen l + 1 < 2 ^ 32 ->
  exists h' l', heap_insert lt p h = (Some tt, h') /\ rep l' h' /\ l' ≡ₚ p :: l /\ ordered lt l'.
Proof using All.
  intros R HO Hp Hb. pose proof (zlen_nonneg l). unfold heap_insert.
  erewrite bind_ok by reflexivity. erewrite bind_ok by reflexivity. cbn [nelts].
  rewrite (rep_nelts _ _ R), u32_small, Z.add_comm, u32_small by lia.
  set (h0 := Heap _ _ _).
  assert (R0 : rep l h0).
  { apply (rep_fresh l h p (nodes h0)) in R as R0; [|done|intros; apply lookup_insert_ne; done].
    unfold with_nodes in R0. rewrite (rep_nelts _ _ R) in R0. done. }
  destruct (path_to (zlen l + 1)) as [path k] eqn:Ep.
  destruct (walk_last l h0 path k R0 Hb Ep) as (par & W & L).
  erewrite bind_ok by exact W. cbn match. erewrite bind_ok by exact L.
  erewrite bind_ok by (apply set_parent_ok; simpl; rewrite lookup_insert_eq; eauto).
  set (h1 := with_nodes h0 _).
  assert (R1 : rep l h1).
  { eapply rep_fresh; [exact R0|exact Hp|]. intros. rewrite lookup_alter_ne; done. }
  erewrite bind_ok by (apply (store_slot l h1 (length l) (Some p) R1); lia).
  erewrite bind_ok by reflexivity.
  assert (p ∉ l ++ []) by (rewrite app_nil_r; done).
  pose proof (rep_snoc l h1 p R1 Hp Hb) as R2.
  edestruct (walk_up_ok lt (S (Z.to_nat (zlen l + 1))) (l ++ [p])) with (i := length l) (x := p) as (h3 & l3 & E3 & R3 & P3 & O3).
  - apply R2. unfold h1, h0. simpl. rewrite lookup_alter_eq, lookup_insert_eq. done.
  - rewrite lookup_app_r, Nat.sub_diag by lia. done.
  - unfold zlen. lia.
  - intros k' Hk c q Hk0 Hc Hq. pose proof (lookup_lt_Some _ _ _ Hc) as Hl. rewrite length_app in Hl. cbn [length] in Hl.
    rewrite lookup_app_l in Hc by lia. rewrite lookup_app_l in Hq by (unfold up_of; lia). apply (HO k'); done.
  - intros k' c g _ Hk0 Hu Hc. apply lookup_lt_Some in Hc. rewrite length_app in Hc. cbn [length] in Hc. unfold up_of in Hu. lia.
  - exists h3, l3. split_and!; try done. rewrite P3. apply (Permutation_app_comm l [p]).
Qed.

(** The copy of the links and the re-linking of the neighbours. *)
Lemma replace_node_ok l h i p c (K : M heap unit) : rep l h -> l !! i = Some p -> c ∉ l ->
  exists h', (let* nd := get_node p in put_node c nd ;; set_parent_if (left nd) (Some c) ;;
      set_parent_if (right nd) (Some c) ;; replace_child (parent nd) p c ;; K) h = K h' /\ rep (<[i := c]> l) h'.
Proof using .
  intros R Hi Hc. pose proof (rep_nodup _ _ R) as ND. eexists. split; [|eapply subst_rep; eassumption].
  erewrite bind_ok by (apply get_node_ok, (rep_node _ _ R _ _ Hi)).
  erewrite bind_ok by reflexivity. unfold node_of at 2 3 4. cbn [left right parent].
  assert (HS : forall x q, l !! x = Some q -> is_Some (<[c := node_of l i]> (nodes h) !! q)).
  { intros x q Hq. apply is_Some_insert, (rep_is_Some _ _ R _ _ Hq). }
  erewrite bind_ok by (apply set_parent_if_ok; intros q Hq; apply (HS _ _ Hq)).
  erewrite bind_ok by (apply set_parent_if_ok; intros q Hq; apply is_Some_spif, (HS _ _ Hq)).
  erewrite bind_ok; [reflexivity|]. apply replace_child_ok; [done..|].
  intros q Hq. assert (l !! up_of i = Some q) as Hu by (destruct i; [done|exact Hq]).
  eexists. split; [eapply (lookup_subst_nodes l h R i c Hc _ _ Hu)|].
  assert (0 < i)%nat by (destruct i; [done|lia]).
  rewrite decide_False by (unfold up_of; lia). done.
Qed.

(** The tree with another node in slot [i] is ordered except around it. *)
Lemma subst_hole l i p c : ordered lt l -> l !! i = Some p ->
  (forall k, (0 < k)%nat -> k <> i -> up_of k <> i -> ord lt (<[i := c]> l) k) /\ grand lt (<[i := c]> l) i.
Proof using All.
  intros HO Hi. split.
  - intros k Hk0 Hki Hu x y _. rewrite !(lookup_subst l i p) by done. rewrite !decide_False by done. apply (HO k). done.
  - intros k x g Hi0 Hk0 Hk. rewrite !(lookup_subst l i p) by done. rewrite !decide_False by (unfold up_of in *; lia).
    intros Hx Hg. apply lt_negtrans with p; [apply (HO k); try done; congruence|apply (HO i); done].
Qed.

Lemma ordered_prefix l1 l2 : ordered lt (l1 ++ l2) -> ordered lt l1.
Proof using .
  intros HO k c p Hk Hc Hp. apply (HO k); [done|apply lookup_app_l_Some; done..].
Qed.

Lemma heap_remove_refines l h p : rep l h -> ordered lt l -> p ∈ l ->
  exists h' l', heap_remove lt (Some p) h = (Some tt, h') /\ rep l' h' /\ p :: l' ≡ₚ l /\ ordered lt l'.
Proof using All.
  intros R HO Hp. destruct l as [|c l0 _] using rev_ind; [set_solver|].
  pose proof (zlen_nonneg l0). pose proof (rep_bound _ _ R) as Hb. pose proof (rep_nodup _ _ R) as ND.
  assert (Hc0 : c ∉ l0) by (apply NoDup_app in ND; set_solver).
  unfold heap_remove. erewrite bind_ok by reflexivity. rewrite (rep_nelts _ _ R).
  rewrite zlen_app in *. change (zlen [c]) with 1 in *.
  destruct (Z.eqb_spec (zlen l0 + 1) 0); [lia|].
  destruct (path_to (zlen l0 + 1)) as [path k] eqn:Ep.
  pose proof (path_to_reach (zlen l0 + 1) path k ltac:(lia) Ep) as Hr.
  pose proof (walk_reach _ h R k path LMin 1 (path_to_nonneg _ _ _ Ep) ltac:(lia)) as W.
  rewrite Hr, zlen_app in W. change (zlen [c]) with 1 in W. specialize (W ltac:(lia)).
  change (slot _ (idx 1)) with LMin in W.
  replace (idx (zlen l0 + 1)) with (length l0) in W by (unfold idx, zlen; lia).
  erewrite bind_ok by exact W. cbn match. erewrite bind_ok by reflexivity. rewrite Z.add_simpl_r.
  erewrite bind_ok by (apply (load_slot _ h (length l0) R); rewrite length_app; lia).
  rewrite lookup_app_r, Nat.sub_diag by lia. cbn [lookup list_lookup].
  erewrite bind_ok by reflexivity.
  erewrite bind_ok by (apply (store_slot _ h (length l0) None R); rewrite length_app; lia).
  pose proof (rep_unsnoc l0 h c R) as R0. set (h1 := replaced _ _ _ _) in *. clearbody h1.
  pose proof (ordered_prefix l0 [c] HO) as HO0.
  unfold is_ptr at 1. case_bool_decide as Hcp.
  - injection Hcp as <-. exists h1, l0. erewrite bind_ok by reflexivity.
    unfold is_ptr. rewrite bool_decide_false.
    2: { rewrite (rep_min _ _ R0). intros E. apply Hc0. eapply list_elem_of_lookup_2, E. }
    split_and!; try done. apply (Permutation_app_comm [p] l0).
  - erewrite bind_ok by reflexivity. assert (p ∈ l0) as Hp0 by set_solver. apply list_elem_of_lookup in Hp0 as [i Hi].
    destruct (replace_node_ok l0 h1 i p c (walk_down lt (S (Z.to_nat (zlen l0 + 1))) c ;;
       walk_up lt (S (Z.to_nat (zlen l0 + 1))) c) R0 Hi Hc0) as (h2 & -> & R2).
    destruct (subst_hole l0 i p c HO0 Hi) as [HO2 HG2]. pose proof (lookup_lt_Some _ _ _ Hi) as Hil.
    assert (Hlen : length (<[i := c]> l0) = length l0) by apply length_insert.
    edestruct (walk_down_ok lt (S (Z.to_nat (zlen l0 + 1))) _ _ i c R2) as (h3 & l3 & i3 & E3 & R3 & P3 & L3 & O3 & G3); try done.
    { apply list_lookup_insert_eq. done. }
    { rewrite Hlen. unfold zlen. lia. }
    erewrite bind_ok by exact E3.
    edestruct (walk_up_ok lt (S (Z.to_nat (zlen l0 + 1))) _ _ i3 c R3) as (h4 & l4 & E4 & R4 & P4 & O4); try done.
    { apply lookup_lt_Some in L3. rewrite P3, Hlen in L3. unfold zlen. lia. }
    exists h4, l4. split_and!; try done. rewrite P4, P3.
    rewrite (Permutation_app_comm l0 [c]). change ([c] ++ l0) with (c :: l0).
    rewrite insert_take_drop by done. rewrite <- (take_drop_middle l0 i p Hi) at 3. solve_Permutation.
Qed.
End ops.

(** ** The heap as a priority queue *)

(** The heap holds the set [X]: its links are those of a complete tree in heap
    order. *)
Definition holds (lt : positive -> positive -> bool) (h : heap) (X : gset positive) : Prop :=
  exists l, rep l h /\ ordered lt l /\ list_to_set l = X.

Lemma holds_size lt h X : holds lt h X -> nelts h = Z.of_nat (size X).
Proof.
  intros (l & R & _ & <-). rewrite (rep_nelts _ _ R). unfold zlen.
  rewrite size_list_to_set; [done|apply R].
Qed.

Lemma holds_init lt h : exists h', heap_init h = (Some tt, h') /\ holds lt h' ∅.
Proof.
  eexists. split; [reflexivity|]. exists []. split_and!; [|by intros k ? ? ?|done].
  split; try done. constructor.
Qed.

Lemma holds_min lt h X : WeakOrder lt -> holds lt h X ->
  exists m, heap_min h = (Some m, h) /\
    match m with
    | None => X = ∅
    | Some p => p ∈ X /\ forall r, r ∈ X -> lt r p = false
    end.
Proof.
  intros W (l & R & HO & <-). exists (min h). split; [done|]. rewrite (rep_min _ _ R).
  destruct l as [|p l0] eqn:E; simpl; [done|]. rewrite <- E in *. split; [set_solver|].
  intros r Hr. eapply (ordered_min lt); [exact HO|by subst|set_solver].
Qed.

Lemma holds_insert lt h X p : WeakOrder lt -> holds lt h X -> p ∉ X -> Z.of_nat (size X) + 1 < 2 ^ 32 ->
  exists h', heap_insert lt p h = (Some tt, h') /\ holds lt h' ({[p]} ∪ X).
Proof.
  intros W HX Hp Hs. rewrite <- (holds_size _ _ _ HX) in Hs. destruct HX as (l & R & HO & <-).
  rewrite (rep_nelts _ _ R) in Hs.
  destruct (heap_insert_refines lt l h p R HO) as (h' & l' & E & R' & P & O); [set_solver|done|].
  exists h'. split; [done|]. exists l'. split_and!; [done..|]. rewrite P. done.
Qed.

Lemma holds_remove lt h X p : WeakOrder lt -> holds lt h X -> p ∈ X ->
  exists h', heap_remove lt (Some p) h = (Some tt, h') /\ holds lt h' (X ∖ {[p]}).
Proof.
  intros W (l & R & HO & <-) Hp.
  destruct (heap_remove_refines lt l h p R HO) as (h' & l' & E & R' & P & O); [set_solver|].
  exists h'. split; [done|]. exists l'. split_and!; [done..|].
  pose proof (rep_nodup _ _ R) as ND. rewrite <- P in ND |- *. apply NoDup_cons in ND as [? _]. set_solver.
Qed.

Lemma holds_ext lt lt' h X : (forall a b, a ∈ X -> b ∈ X -> lt a b = lt' a b) ->
  holds lt h X -> holds lt' h X.
Proof.
  intros Hlt (l & R & HO & <-). exists l. split_and!; [done| |done].
  intros k c p Hk Hc Hp. rewrite <- Hlt; [apply (HO k); done| |];
    apply elem_of_list_to_set; eapply list_elem_of_lookup_2; done.
Qed.

#[export] Instance heap_pqueue : PQueue heap := {
  pq_init := heap_init;
  pq_min := heap_min;
  pq_insert := heap_insert;
  pq_remove lt p := heap_remove lt (Some p);
  pq_holds := holds;
  pq_init_ok := holds_init;
  pq_min_ok := holds_min;
  pq_insert_ok := holds_insert;
  pq_remove_ok := holds_remove;
  pq_ext := holds_ext
}.

(** The order on the numbers of the nodes, for the examples. *)
#[export] Instance pos_weak_order : WeakOrder Pos.ltb.
Proof. split; intros; rewrite ?Pos.ltb_lt, ?Pos.ltb_ge in *; lia. Qed.

(** ** Sequences of operations *)

Inductive op := OInsert (p : positive) | ORemove (p : positive) | ODequeue.

Definition run_op (lt : positive -> positive -> bool) (o : op) : M heap unit :=
  match o with
  | OInsert p => heap_insert lt p
  | ORemove p => heap_remove lt (Some p)
  | ODequeue => heap_dequeue lt
  end.
Definition run_ops lt (ops : list op) : M heap unit := mfor (run_op lt) ops.

(** What the operations mean for the set of elements. *)
Inductive op_spec (lt : positive -> positive -> bool) : gset positive -> op -> gset positive -> Prop :=
  | spec_insert X p : p ∉ X -> op_spec lt X (OInsert p) ({[p]} ∪ X)
  | spec_remove X p : p ∈ X -> op_spec lt X (ORemove p) (X ∖ {[p]})
  | spec_dequeue X p : p ∈ X -> (forall r, r ∈ X -> lt r p = false) -> op_spec lt X ODequeue (X ∖ {[p]})
  | spec_dequeue_empty : op_spec lt ∅ ODequeue ∅.

Inductive ops_spec lt : gset positive -> list op -> gset positive -> Prop :=
  | specs_nil X : ops_spec lt X [] X
  | specs_cons X o Y ops Z : op_spec lt X o Y -> ops_spec lt Y ops Z -> ops_spec lt X (o :: ops) Z.

(** The caller's side: a node is inserted once, and removed when it is there. *)
Definition op_legal (X : gset positive) (o : op) : Prop :=
  match o with
  | OInsert p => p ∉ X /\ Z.of_nat (size X) + 1 < 2 ^ 32
  | ORemove p => p ∈ X
  | ODequeue => True
  end.
Fixpoint ops_legal lt (X : gset positive) (ops : list op) : Prop :=
  match ops with
  | [] => True
  | o :: ops' => op_legal X o /\ forall Y, op_spec lt X o Y -> ops_legal lt Y ops'
  end.

Lemma heap_dequeue_ok lt h X : WeakOrder lt -> holds lt h X ->
  exists h' Y, heap_dequeue lt h = (Some tt, h') /\ op_spec lt X ODequeue Y /\ holds lt h' Y /\
    match min h with None => X = ∅ | Some p => p ∈ X /\ (forall r, r ∈ X -> lt r p = false) /\ Y = X ∖ {[p]} end.
Proof.
  intros W HX. destruct (holds_min lt h X W HX) as (m & Em & Hm). unfold heap_min, get_min in Em.
  injection Em as Em. unfold heap_dequeue. erewrite bind_ok by reflexivity. rewrite Em. destruct m as [p|].
  - destruct Hm as [Hp Hmin]. destruct (holds_remove lt h X p W HX Hp) as (h' & E & H').
    exists h', (X ∖ {[p]}). split_and!; try done. constructor; done.
  - subst X. exists h, ∅. split_and!; try done; [|constructor].
    unfold heap_remove. erewrite bind_ok by reflexivity. rewrite (holds_size _ _ _ HX). done.
Qed.

Lemma run_op_ok lt h X o : WeakOrder lt -> holds lt h X -> op_legal X o ->
  exists h' Y, run_op lt o h = (Some tt, h') /\ op_spec lt X o Y /\ holds lt h' Y.
Proof.
  intros W HX HL. destruct o as [p|p|]; simpl in *.
  - destruct HL as [Hp Hs]. destruct (holds_insert lt h X p W HX Hp Hs) as (h' & E & H').
    exists h', ({[p]} ∪ X). split_and!; [done|by constructor|done].
  - destruct (holds_remove lt h X p W HX HL) as (h' & E & H').
    exists h', (X ∖ {[p]}). split_and!; [done|by constructor|done].
  - destruct (heap_dequeue_ok lt h X W HX) as (h' & Y & E & HS & H' & _). eauto.
Qed.

Lemma run_ops_ok lt : WeakOrder lt -> forall ops h X, holds lt h X -> ops_legal lt X ops ->
  exists h' Y, run_ops lt ops h = (Some tt, h') /\ ops_spec lt X ops Y /\ holds lt h' Y.
Proof.
  intros W. induction ops as [|o ops IH]; intros h X HX HL.
  - exists h, X. split_and!; [done|constructor|done].
  - destruct HL as [HL1 HL2]. destruct (run_op_ok lt h X o W HX HL1) as (h1 & Y & E1 & S1 & H1).
    destruct (IH h1 Y H1 (HL2 Y S1)) as (h2 & V & E2 & S2 & H2).
    exists h2, V. split_and!; [|econstructor; done|done].
    unfold run_ops. cbn [mfor]. erewrite bind_ok by exact E1. exact E2.
Qed.

(** C7. Any sequence of heap operations on an initialised heap, in which a node
    is inserted only while it is out of the heap and removed only while it is in
    it, runs without following a NULL or dangling link and has the effect of
    the same operations on a set: [heap_dequeue] takes out a minimum, and
    [heap_min] is a minimum afterwards. *)
Theorem heap_refines_set lt h ops : WeakOrder lt -> ops_legal lt ∅ ops ->
  exists h' X, (heap_init ;; run_ops lt ops) h = (Some tt, h') /\ ops_spec lt ∅ ops X /\
    nelts h' = Z.of_nat (size X) /\
    match min h' with None => X = ∅ | Some p => p ∈ X /\ forall r, r ∈ X -> lt r p = false end.
Proof.
  intros W HL. destruct (holds_init lt h) as (h0 & E0 & H0).
  destruct (run_ops_ok lt W ops h0 ∅ H0 HL) as (h' & X & E & HS & HX).
  exists h', X. split_and!; [erewrite bind_ok by exact E0; exact E|done|eapply holds_size; done|].
  destruct (holds_min lt h' X W HX) as (m & Em & Hm). injection Em as <-. done.
Qed.

(** ** Draining the heap *)

Fixpoint drain (lt : positive -> positive -> bool) (n : nat) : M heap (list positive) :=
  match n with
  | O => ret []
  | S n' =>
      let* m := heap_min in
      let* p := lift m in
      heap_dequeue lt ;;
      let* rest := drain lt n' in
      ret (p :: rest)
  end.

Lemma drain_ok lt : WeakOrder lt -> forall n h X, holds lt h X -> size X = n ->
  exists h' l, drain lt n h = (Some l, h') /\ l ≡ₚ elements X /\
    StronglySorted (fun a b => lt b a = false) l /\ holds lt h' ∅.
Proof.
  intros W. induction n as [|n IH]; intros h X HX Hs.
  - apply size_empty_inv in Hs. fold_leibniz. subst. exists h, []. split_and!; [done|by rewrite elements_empty|constructor|done].
  - cbn [drain]. destruct (heap_dequeue_ok lt h X W HX) as (h1 & Y & E1 & _ & H1 & Hm).
    destruct (min h) as [p|] eqn:Em; [|subst; rewrite size_empty in Hs; done].
    destruct Hm as (Hp & Hmin & ->).
    destruct (IH h1 _ H1) as (h2 & l & E2 & P2 & S2 & H2).
    { rewrite size_difference by set_solver. rewrite size_singleton. lia. }
    exists h2, (p :: l). split_and!; [| | |done].
    + unfold heap_min. erewrite bind_ok by reflexivity. rewrite Em. erewrite bind_ok by reflexivity.
      erewrite bind_ok by exact E1. erewrite bind_ok by exact E2. done.
    + rewrite P2, <- elements_union_singleton by set_solver. rewrite <- union_difference_singleton_L by done. done.
    + constructor; [done|]. apply Forall_forall. intros q Hq. apply Hmin. rewrite P2 in Hq. set_solver.
Qed.

(** Taking the elements out one by one with [heap_min] and [heap_dequeue]
    gives every element once, in increasing order, and leaves the heap empty. *)
Theorem heap_drain_sorted lt h X : WeakOrder lt -> holds lt h X ->
  exists h' l, drain lt (size X) h = (Some l, h') /\ l ≡ₚ elements X /\
    StronglySorted (fun a b => lt b a = false) l /\ min h' = None /\ nelts h' = 0.
Proof.
  intros W HX. destruct (drain_ok lt W _ h X HX eq_refl) as (h' & l & E & P & HS & H').
  exists h', l. split_and!; [done..| |rewrite (holds_size _ _ _ H'), size_empty; done].
  destruct (holds_min lt h' ∅ W H') as (m & [= <-] & Hm). destruct (min h'); [set_solver|done].
Qed.

(** Inserting 4, 2, 5 and removing 2. *)
Lemma heap_ops_legal : ops_legal Pos.ltb ∅ [OInsert 4; OInsert 2; OInsert 5; ORemove 2; ODequeue]%positive.
Proof.
  repeat (split; [first [exact I | set_solver | split; [set_solver|vm_compute; done]]|];
          let Y := fresh in let HS := fresh in intros Y HS; inversion HS; subst; clear HS).
  all: done.
Qed.

Lemma heap_refines_set_witness : exists h' (X : gset positive),
  (heap_init ;; run_ops Pos.ltb [OInsert 4; OInsert 2; OInsert 5; ORemove 2; ODequeue]%positive) (Heap None 7 ∅) = (Some tt, h') /\
  min h' = Some 5%positive /\ nelts h' = Z.of_nat (size X).
Proof.
  destruct (heap_refines_set Pos.ltb (Heap None 7 ∅) [OInsert 4; OInsert 2; OInsert 5; ORemove 2; ODequeue]%positive)
    as (h' & X & E & _ & N & _); [exact _|exact heap_ops_legal|].
  exists h', X. split_and!; [done| |done].
  vm_compute in E. injection E as <-. done.
Defined.

Lemma heap_with_two : exists h, holds Pos.ltb h {[2; 4]}%positive.
Proof.
  destruct (holds_init Pos.ltb (Heap None 0 ∅)) as (h0 & _ & H0).
  destruct (holds_insert Pos.ltb h0 ∅ 4%positive _ H0) as (h1 & _ & H1); [set_solver|vm_compute; done|].
  destruct (holds_insert Pos.ltb h1 _ 2%positive _ H1) as (h2 & _ & H2); [set_solver|vm_compute; done|].
  exists h2. replace ({[2; 4]}%positive : gset positive) with ({[2]} ∪ ({[4]} ∪ ∅) : gset positive)%positive by set_solver. done.
Qed.

Lemma heap_drain_sorted_witness : exists h h' l, holds Pos.ltb h {[2; 4]}%positive /\
  drain Pos.ltb (size ({[2; 4]}%positive : gset positive)) h = (Some l, h') /\
  StronglySorted (fun a b => Pos.ltb b a = false) l.
Proof.
  destruct heap_with_two as [h H].
  destruct (heap_drain_sorted Pos.ltb h {[2; 4]}%positive _ H) as (h' & l & E & _ & HS & _).
  exists h, h', l. split_and!; done.
Defined.
