(* ===== verification/Timer.v ===== *)
(** * libuv timer.c: timers, and the life cycle of their handles.

    The timers of a loop wait in a priority queue ordered by expiry time and by
    the order of their starts. The queue is used through its interface
    ([PQueue]); [Heap.v] implements it. *)

From S2P Require Import Prelude PQueue.
From Stdlib Require Import Sorted.

(** ** State *)

(** The fields of [uv_timer_t] that the code reads; a callback is a number. *)
Record uv_timer := Timer {
  flags : Z;
  timer_cb : option Z;
  close_cb : option Z;
  timeout : Z;
  repeat_ms : Z;
  start_id : Z
}.

(** [uv_loop_t]: the part that the timers use. [handles] is the memory of the
    handles, [closing_handles] the list linked by [next_closing], [data] the
    state of the program that the callbacks run in. *)
Record uv_loop (Q W : Type) := Loop {
  time : Z;
  timer_counter : Z;
  timer_heap : Q;
  active_handles : Z;
  handle_queue : list positive;
  closing_handles : list positive;
  handles : gmap positive uv_timer;
  data : W
}.
Arguments Loop {Q W}.
Arguments time {Q W}.
Arguments timer_counter {Q W}.
Arguments timer_heap {Q W}.
Arguments active_handles {Q W}.
Arguments handle_queue {Q W}.
Arguments closing_handles {Q W}.
Arguments handles {Q W}.
Arguments data {Q W}.

Definition UV_HANDLE_CLOSING : Z := 0x1.
Definition UV_HANDLE_CLOSED : Z := 0x2.
Definition UV_HANDLE_ACTIVE : Z := 0x4.
Definition UV_HANDLE_REF : Z := 0x8.
(** [-EINVAL]. *)
Definition UV_EINVAL : Z := -22.

Definition has_flag (f : Z) (t : uv_timer) : bool := negb (Z.land (flags t) f =? 0).
Definition set_flag (f : Z) (t : uv_timer) : uv_timer :=
  Timer (Z.lor (flags t) f) (timer_cb t) (close_cb t) (timeout t) (repeat_ms t) (start_id t).
Definition clear_flag (f : Z) (t : uv_timer) : uv_timer :=
  Timer (Z.land (flags t) (u32 (Z.lnot f))) (timer_cb t) (close_cb t) (timeout t) (repeat_ms t) (start_id t).
Definition uv__is_active (t : uv_timer) : bool := has_flag UV_HANDLE_ACTIVE t.
Definition uv__is_closing (t : uv_timer) : bool := has_flag (Z.lor UV_HANDLE_CLOSING UV_HANDLE_CLOSED) t.
Definition uv__has_ref (t : uv_timer) : bool := has_flag UV_HANDLE_REF t.

(** The key of a timer in the heap. *)
Definition blank : uv_timer := Timer 0 None None 0 0 0.
Definition timer_at (hs : gmap positive uv_timer) (p : positive) : uv_timer := default blank (hs !! p).

Definition timer_before (a b : uv_timer) : bool :=
  if timeout a <? timeout b then true
  else if timeout b <? timeout a then false
  else start_id a <? start_id b.
Definition timer_less_than (hs : gmap positive uv_timer) (ha hb : positive) : bool :=
  timer_before (timer_at hs ha) (timer_at hs hb).

Section timer.
Context {Q W : Type} `{!PQueue Q}.
Abbreviation loop := (uv_loop Q W).
Implicit Types L : loop.

Definition set_handles (L : loop) hs : loop :=
  Loop (time L) (timer_counter L) (timer_heap L) (active_handles L) (handle_queue L) (closing_handles L) hs (data L).
Definition set_heap (L : loop) q : loop :=
  Loop (time L) (timer_counter L) q (active_handles L) (handle_queue L) (closing_handles L) (handles L) (data L).
Definition set_active (L : loop) n : loop :=
  Loop (time L) (timer_counter L) (timer_heap L) n (handle_queue L) (closing_handles L) (handles L) (data L).
Definition set_counter (L : loop) n : loop :=
  Loop (time L) n (timer_heap L) (active_handles L) (handle_queue L) (closing_handles L) (handles L) (data L).
Definition set_queue (L : loop) l : loop :=
  Loop (time L) (timer_counter L) (timer_heap L) (active_handles L) l (closing_handles L) (handles L) (data L).
Definition set_closing (L : loop) l : loop :=
  Loop (time L) (timer_counter L) (timer_heap L) (active_handles L) (handle_queue L) l (handles L) (data L).

(** A handle that is not there is a dangling pointer: the call has no result. *)
Definition get_handle (p : positive) : M loop uv_timer := fun L => (handles L !! p, L).
Definition put_handle (p : positive) (t : uv_timer) : M loop unit := fun L =>
  (Some tt, set_handles L (<[p := t]> (handles L))).
(** An operation of the timer heap, with the comparison of the present fields. *)
Definition on_heap {A} (f : (positive -> positive -> bool) -> M Q A) : M loop A := fun L =>
  match f (timer_less_than (handles L)) (timer_heap L) with
  | (o, q) => (o, set_heap L q)
  end.

(** ** Handles *)

Definition uv__active_handle_add : M loop unit := fun L => (Some tt, set_active L (u32 (active_handles L + 1))).
Definition uv__active_handle_rm : M loop unit := fun L => (Some tt, set_active L (u32 (active_handles L - 1))).

Definition uv__handle_start (p : positive) : M loop unit :=
  let* t := get_handle p in
  if uv__is_active t then ret tt
  else
    put_handle p (set_flag UV_HANDLE_ACTIVE t) ;;
    if uv__has_ref t then uv__active_handle_add else ret tt.

Definition uv__handle_stop (p : positive) : M loop unit :=
  let* t := get_handle p in
  if negb (uv__is_active t) then ret tt
  else
    put_handle p (clear_flag UV_HANDLE_ACTIVE t) ;;
    if uv__has_ref t then uv__active_handle_rm else ret tt.

Definition uv_ref (p : positive) : M loop unit :=
  let* t := get_handle p in
  if uv__has_ref t then ret tt
  else
    put_handle p (set_flag UV_HANDLE_REF t) ;;
    if has_flag UV_HANDLE_CLOSING t then ret tt
    else if uv__is_active t then uv__active_handle_add else ret tt.

Definition uv_unref (p : positive) : M loop unit :=
  let* t := get_handle p in
  if negb (uv__has_ref t) then ret tt
  else
    put_handle p (clear_flag UV_HANDLE_REF t) ;;
    if has_flag UV_HANDLE_CLOSING t then ret tt
    else if uv__is_active t then uv__active_handle_rm else ret tt.

(** ** timer.c *)

(** [uv__handle_init] and the fields of the timer; the memory need not have been
    a timer before. *)
Definition uv_timer_init (p : positive) : M loop Z := fun L =>
  let t := timer_at (handles L) p in
  let L := set_handles L (<[p := Timer UV_HANDLE_REF None (close_cb t) (timeout t) 0 (start_id t)]> (handles L)) in
  (Some 0, set_queue L (handle_queue L ++ [p])).

Definition uv_timer_stop (p : positive) : M loop Z :=
  let* t := get_handle p in
  if negb (uv__is_active t) then ret 0
  else
    on_heap (fun lt => pq_remove lt p) ;;
    uv__handle_stop p ;;
    ret 0.

(** [handle->loop->timer_counter++]. *)
Definition next_start_id : M loop Z := fun L =>
  (Some (timer_counter L), set_counter L (u64 (timer_counter L + 1))).

Definition uv_timer_start (p : positive) (cb : option Z) (timeout rep : Z) : M loop Z :=
  let* t := get_handle p in
  if uv__is_closing t || bool_decide (cb = None) then ret UV_EINVAL
  else
    (if uv__is_active t then uv_timer_stop p ;; ret tt else ret tt) ;;
    let* L := getst in
    let clamped := u64 (time L + timeout) in
    let clamped := if clamped <? timeout then u64 (-1) else clamped in
    let* id := next_start_id in
    let* t := get_handle p in
    put_handle p (Timer (flags t) cb (close_cb t) clamped rep id) ;;
    on_heap (fun lt => pq_insert lt p) ;;
    uv__handle_start p ;;
    ret 0.

Definition uv_timer_again (p : positive) : M loop Z :=
  let* t := get_handle p in
  if bool_decide (timer_cb t = None) then ret UV_EINVAL
  else
    (if negb (repeat_ms t =? 0) then
       uv_timer_stop p ;;
       uv_timer_start p (timer_cb t) (repeat_ms t) (repeat_ms t) ;;
       ret tt
     else ret tt) ;;
    ret 0.

Definition uv_timer_set_repeat (p : positive) (rep : Z) : M loop unit :=
  let* t := get_handle p in
  put_handle p (Timer (flags t) (timer_cb t) (close_cb t) (timeout t) rep (start_id t)).

Definition uv_timer_get_repeat (p : positive) : M loop Z :=
  let* t := get_handle p in ret (repeat_ms t).

Definition uv__next_timeout : M loop Z :=
  let* m := on_heap (fun _ => pq_min) in
  match m with
  | None => ret (-1)
  | Some p =>
      let* t := get_handle p in
      let* L := getst in
      if timeout t <=? time L then ret 0
      else
        let diff := u64 (timeout t - time L) in
        let diff := if diff >? INT_MAX then INT_MAX else diff in
        ret (s32 diff)
  end.

Definition uv__timer_close (p : positive) : M loop unit := uv_timer_stop p ;; ret tt.

Section callbacks.
(** A callback is the program's own code: it may call the functions above. *)
Context (run_cb : Z -> positive -> M loop unit).

(** The loop ends when no timer is due; [fuel] bounds the number of callbacks. *)
Fixpoint uv__run_timers (fuel : nat) : M loop unit :=
  match fuel with
  | O => fail
  | S fuel' =>
      let* m := on_heap (fun _ => pq_min) in
      match m with
      | None => ret tt
      | Some p =>
          let* t := get_handle p in
          let* L := getst in
          if timeout t >? time L then ret tt
          else
            uv_timer_stop p ;;
            uv_timer_again p ;;
            let* t := get_handle p in
            let* cb := lift (timer_cb t) in
            run_cb cb p ;;
            uv__run_timers fuel'
      end
  end.

(** ** Closing (core.c), for handles of type [UV_TIMER] *)

Definition uv__make_close_pending (p : positive) : M loop unit :=
  let* t := get_handle p in
  require (has_flag UV_HANDLE_CLOSING t) ;;
  require (negb (has_flag UV_HANDLE_CLOSED t)) ;;
  let* L := getst in
  putst (set_closing L (p :: closing_handles L)).

Definition uv_close (p : positive) (cb : option Z) : M loop unit :=
  let* t := get_handle p in
  require (negb (uv__is_closing t)) ;;
  put_handle p (Timer (Z.lor (flags t) UV_HANDLE_CLOSING) (timer_cb t) cb (timeout t) (repeat_ms t) (start_id t)) ;;
  uv__timer_close p ;;
  uv__make_close_pending p.

Definition uv__finish_close (p : positive) : M loop unit :=
  let* t := get_handle p in
  require (has_flag UV_HANDLE_CLOSING t) ;;
  require (negb (has_flag UV_HANDLE_CLOSED t)) ;;
  put_handle p (set_flag UV_HANDLE_CLOSED t) ;;
  uv_unref p ;;
  let* L := getst in
  putst (set_queue L (filter (fun q => q <> p) (handle_queue L))) ;;
  let* t := get_handle p in
  match close_cb t with
  | Some cb => run_cb cb p
  | None => ret tt
  end.

Definition uv__run_closing_handles : M loop unit :=
  let* L := getst in
  putst (set_closing L []) ;;
  mfor uv__finish_close (closing_handles L).
End callbacks.
End timer.

(** ** Flags *)

Lemma has_flag_bit k t : 0 <= k -> has_flag (2 ^ k) t = Z.testbit (flags t) k.
Proof.
  intros Hk. unfold has_flag. destruct (Z.testbit (flags t) k) eqn:E.
  - apply negb_true_iff, Z.eqb_neq. intros H0. apply (f_equal (fun z => Z.testbit z k)) in H0.
    rewrite Z.land_spec, E, Z.pow2_bits_true, Z.bits_0 in H0 by lia. done.
  - apply negb_false_iff, Z.eqb_eq. apply Z.bits_inj'. intros i Hi.
    rewrite Z.land_spec, Z.bits_0. destruct (decide (i = k)) as [->|]; [rewrite E; done|].
    rewrite Z.pow2_bits_false by lia. apply andb_false_r.
Qed.

Lemma active_bit t : uv__is_active t = Z.testbit (flags t) 2.
Proof. apply (has_flag_bit 2). lia. Qed.
Lemma ref_bit t : uv__has_ref t = Z.testbit (flags t) 3.
Proof. apply (has_flag_bit 3). lia. Qed.
Lemma closing_flag_bit t : has_flag UV_HANDLE_CLOSING t = Z.testbit (flags t) 0.
Proof. apply (has_flag_bit 0). lia. Qed.
Lemma closed_flag_bit t : has_flag UV_HANDLE_CLOSED t = Z.testbit (flags t) 1.
Proof. apply (has_flag_bit 1). lia. Qed.
Lemma closing_bit t : uv__is_closing t = Z.testbit (flags t) 0 || Z.testbit (flags t) 1.
Proof.
  rewrite <- closing_flag_bit, <- closed_flag_bit. unfold uv__is_closing, has_flag.
  rewrite Z.land_lor_distr_r. destruct (Z.land (flags t) UV_HANDLE_CLOSING =? 0) eqn:E1.
  - apply Z.eqb_eq in E1. rewrite E1, Z.lor_0_l. done.
  - apply negb_true_iff, Z.eqb_neq. intros H0%Z.lor_eq_0_iff. apply Z.eqb_neq in E1. tauto.
Qed.

(** [flagsimp]: which flags are set after setting and clearing some. *)
Ltac flagsimp := rewrite ?active_bit, ?ref_bit, ?closing_bit, ?closing_flag_bit, ?closed_flag_bit in *;
  cbn [flags timer_cb close_cb timeout repeat_ms start_id set_flag clear_flag] in *;
  rewrite ?Z.land_spec, ?Z.lor_spec, ?Z.land_spec, ?Z.lor_spec in *;
  repeat match goal with
    | |- context [Z.testbit ?c ?i] => is_const_bit c i
    | H : context [Z.testbit ?c ?i] |- _ => is_const_bit_in H c i
    end;
  rewrite ?orb_true_r, ?orb_false_r in *; rewrite ?andb_true_r, ?andb_false_r in *; rewrite ?orb_false_r in *; try done
with is_const_bit c i := lazymatch c with
  | flags _ => fail
  | _ => let b := eval vm_compute in (Z.testbit c i) in change (Z.testbit c i) with b
  end
with is_const_bit_in H c i := lazymatch c with
  | flags _ => fail
  | _ => let b := eval vm_compute in (Z.testbit c i) in change (Z.testbit c i) with b in H
  end.

(** ** Sets of handles *)

Definition counted (t : uv_timer) : bool := uv__is_active t && uv__has_ref t.
(** The handles with a property. *)
Definition handle_set (P : uv_timer -> bool) (hs : gmap positive uv_timer) : gset positive :=
  dom (filter (fun x => P x.2 = true) hs).

Lemma elem_of_handle_set P hs p : p ∈ handle_set P hs <-> exists t, hs !! p = Some t /\ P t = true.
Proof.
  unfold handle_set. rewrite elem_of_dom. split.
  - intros [t [Ht HP]%map_lookup_filter_Some]. eauto.
  - intros (t & Ht & HP). exists t. apply map_lookup_filter_Some. done.
Qed.
Lemma handle_set_insert P hs p t : handle_set P (<[p := t]> hs) =
  if P t then {[p]} ∪ handle_set P hs else handle_set P hs ∖ {[p]}.
Proof.
  apply set_eq. intros q. rewrite elem_of_handle_set, lookup_insert.
  destruct (decide (p = q)) as [->|Hpq].
  - destruct (P t) eqn:E; [set_solver|]. split; [intros (? & [= <-] & ?); congruence|set_solver].
  - assert (Hq : (exists t', hs !! q = Some t' /\ P t' = true) <-> q ∈ handle_set P hs) by (symmetry; apply elem_of_handle_set).
    destruct (P t); rewrite Hq; set_solver.
Qed.

Lemma size_add (X : gset positive) p : p ∉ X -> Z.of_nat (size ({[p]} ∪ X)) = Z.of_nat (size X) + 1.
Proof. intros. rewrite size_union by set_solver. rewrite size_singleton. lia. Qed.
Lemma size_sub (X : gset positive) p : p ∈ X -> Z.of_nat (size (X ∖ {[p]})) = Z.of_nat (size X) - 1.
Proof.
  intros. assert (0 < size X)%nat by (apply Nat.neq_0_lt_0, size_non_empty_iff; set_solver).
  rewrite size_difference, size_singleton by set_solver. lia.
Qed.

(** A handle that is not in a set of handles leaves room for one more. *)
Lemma handle_set_room P hs p t : hs !! p = Some t -> P t = false ->
  Z.of_nat (size hs) < 2 ^ 32 -> Z.of_nat (size (handle_set P hs)) + 1 < 2 ^ 32.
Proof.
  intros Hp HP Hs. assert (p ∉ handle_set P hs) as Hn.
  { rewrite elem_of_handle_set. intros (? & ? & ?). congruence. }
  rewrite <- (size_add _ p) by done. enough (size ({[p]} ∪ handle_set P hs) <= size hs)%nat by lia.
  rewrite <- size_dom. apply subseteq_size. intros q [->%elem_of_singleton|(t' & Hq & _)%elem_of_handle_set]%elem_of_union;
    apply elem_of_dom; eauto.
Qed.

(** ** The order of timers *)

#[export] Instance timer_weak_order hs : WeakOrder (timer_less_than hs).
Proof.
  split; unfold timer_less_than, timer_before; intros *; decide_cmp; try done; intros; try lia.
Qed.

Section invariant.
Context {Q W : Type} `{!PQueue Q}.
Abbreviation loop := (uv_loop Q W).

(** The heap holds the active timers; [active_handles] counts the active handles
    with a reference: those of the timers and [k] others. *)
Record core (k : Z) (L : loop) : Prop := {
  core_heap : pq_holds (timer_less_than (handles L)) (timer_heap L) (handle_set uv__is_active (handles L));
  core_size : Z.of_nat (size (handles L)) < 2 ^ 32;
  core_count : active_handles L = u32 (k + Z.of_nat (size (handle_set counted (handles L))))
}.

Definition is_u64 (x : Z) : Prop := 0 <= x < 2 ^ 64.
(** A timer as the functions leave it: its words are in range, and if it is
    active it has a callback and is not closing. *)
Definition timer_ok (t : uv_timer) : Prop :=
  is_u64 (timeout t) /\ is_u64 (repeat_ms t) /\
  (uv__is_active t = true -> timer_cb t <> None /\ uv__is_closing t = false).

(** What is in the list of closing handles is closing. *)
Record inv (k : Z) (L : loop) : Prop := {
  inv_core : core k L;
  inv_time : is_u64 (time L) /\ is_u64 (timer_counter L);
  inv_timers : forall p t, handles L !! p = Some t -> timer_ok t;
  inv_closing : NoDup (closing_handles L) /\ forall p, p ∈ closing_handles L ->
    exists t, handles L !! p = Some t /\ has_flag UV_HANDLE_CLOSING t = true /\ has_flag UV_HANDLE_CLOSED t = false
}.

(** What the timer functions leave alone. *)
Definition frame (L L' : loop) : Prop :=
  time L' = time L /\ handle_queue L' = handle_queue L /\
  closing_handles L' = closing_handles L /\ data L' = data L.

Lemma get_handle_ok p t (L : loop) : handles L !! p = Some t -> get_handle p L = (Some t, L).
Proof. unfold get_handle. intros ->. done. Qed.

(** A change of a handle that the heap and the counter do not depend on. *)
Lemma core_put k (L : loop) p t t' : core k L -> handles L !! p = Some t ->
  uv__is_active t' = uv__is_active t -> counted t' = counted t ->
  (uv__is_active t = true -> timeout t' = timeout t /\ start_id t' = start_id t) ->
  core k (set_handles L (<[p := t']> (handles L))).
Proof.
  intros [HH HS HC] Hp Ha Hc Hk.
  assert (E : forall P, P t' = P t -> handle_set P (<[p := t']> (handles L)) = handle_set P (handles L)).
  { intros P HP. rewrite handle_set_insert, HP. pose proof (elem_of_handle_set P (handles L) p) as Hin.
    destruct (P t) eqn:EP; [assert (p ∈ handle_set P (handles L)) by (apply Hin; eauto); set_solver|].
    assert (p ∉ handle_set P (handles L)); [|set_solver]. rewrite Hin. intros (? & ? & ?). congruence. }
  split; cbn [handles timer_heap active_handles set_handles].
  - rewrite E by done. eapply pq_ext; [|exact HH].
    intros a b Ha' Hb'. unfold timer_less_than.
    assert (K : forall x, x ∈ handle_set uv__is_active (handles L) ->
      timeout (timer_at (<[p := t']> (handles L)) x) = timeout (timer_at (handles L) x) /\
      start_id (timer_at (<[p := t']> (handles L)) x) = start_id (timer_at (handles L) x)).
    { intros x (tx & Hx & Hax)%elem_of_handle_set. unfold timer_at. rewrite lookup_insert.
      case_decide; [subst x; rewrite Hp; simplify_eq; apply Hk; done|done]. }
    unfold timer_before. destruct (K a Ha') as [-> ->]. destruct (K b Hb') as [-> ->]. done.
  - rewrite map_size_insert_Some by eauto. done.
  - rewrite E by done. done.
Qed.

(** A change of the flags of one handle does not change the order. *)
Lemma less_than_flags hs p t t' a b : hs !! p = Some t -> timeout t' = timeout t -> start_id t' = start_id t ->
  timer_less_than (<[p := t']> hs) a b = timer_less_than hs a b.
Proof.
  intros Hp H1 H2.
  assert (K : forall x, timeout (timer_at (<[p := t']> hs) x) = timeout (timer_at hs x) /\
                        start_id (timer_at (<[p := t']> hs) x) = start_id (timer_at hs x)).
  { intros x. unfold timer_at. rewrite lookup_insert. case_decide; [subst x; rewrite Hp; done|done]. }
  unfold timer_less_than, timer_before. destruct (K a) as [-> ->]. destruct (K b) as [-> ->]. done.
Qed.

(** Inserting an inactive timer and marking it active. *)
Lemma activate_ok {A} (k : Z) (L : loop) p t (K : M loop A) : core k L -> handles L !! p = Some t -> uv__is_active t = false ->
  exists L', (on_heap (fun lt => pq_insert lt p) ;; uv__handle_start p ;; K) L = K L' /\ core k L' /\
    handles L' = <[p := set_flag UV_HANDLE_ACTIVE t]> (handles L) /\ frame L L' /\ timer_counter L' = timer_counter L.
Proof using All.
  intros [HH HS HC] Hp Ha.
  assert (Hn : forall P, P t = false -> p ∉ handle_set P (handles L))
    by (intros P HP (? & ? & ?)%elem_of_handle_set; congruence).
  destruct (pq_insert_ok _ _ _ p _ HH) as (q & Eq & HH'); [auto|eapply handle_set_room; done|].
  assert (counted t = false) as Hct by (unfold counted; rewrite Ha; done).
  assert (uv__is_active (set_flag UV_HANDLE_ACTIVE t) = true) as Ha' by flagsimp.
  assert (uv__has_ref (set_flag UV_HANDLE_ACTIVE t) = uv__has_ref t) as Hr' by flagsimp.
  eexists. split; [|split; [|split; [|split]]].
  - erewrite bind_ok by (unfold on_heap; rewrite Eq; reflexivity).
    erewrite bind_ok; [reflexivity|].
    unfold uv__handle_start. erewrite bind_ok by (apply get_handle_ok; exact Hp). rewrite Ha.
    erewrite bind_ok by reflexivity.
    instantiate (1 := if uv__has_ref t then _ else _). destruct (uv__has_ref t); reflexivity.
  - assert (counted (set_flag UV_HANDLE_ACTIVE t) = uv__has_ref t) as Hc' by (unfold counted; rewrite Ha', Hr'; done).
    split.
    + destruct (uv__has_ref t); cbn; rewrite handle_set_insert, Ha';
        (eapply pq_ext; [|exact HH']; intros; symmetry; eapply less_than_flags; done).
    + destruct (uv__has_ref t); cbn; rewrite map_size_insert_Some by eauto; done.
    + destruct (uv__has_ref t); cbn; rewrite handle_set_insert, Hc', HC.
      * rewrite size_add by auto. unfold u32. rewrite Zplus_mod_idemp_l. f_equal. lia.
      * f_equal. do 2 f_equal. f_equal. pose proof (Hn counted Hct). set_solver.
  - destruct (uv__has_ref t); done.
  - destruct (uv__has_ref t); done.
  - destruct (uv__has_ref t); done.
Qed.

(** [uv_timer_stop] on any handle. *)
Lemma uv_timer_stop_core k (L : loop) p t : core k L -> handles L !! p = Some t ->
  exists L', uv_timer_stop p L = (Some 0, L') /\ core k L' /\
    handles L' = (if uv__is_active t then <[p := clear_flag UV_HANDLE_ACTIVE t]> (handles L) else handles L) /\
    frame L L' /\ timer_counter L' = timer_counter L.
Proof using All.
  intros HK Hp. unfold uv_timer_stop. erewrite bind_ok by (apply get_handle_ok; exact Hp).
  destruct (uv__is_active t) eqn:Ha; cbn [negb]; [|exists L; split_and!; done].
  destruct HK as [HH HS HC].
  assert (Hin : forall P, P t = true -> p ∈ handle_set P (handles L)) by (intros; apply elem_of_handle_set; eauto).
  destruct (pq_remove_ok _ _ _ p _ HH) as (q & Eq & HH'); [auto|].
  assert (uv__is_active (clear_flag UV_HANDLE_ACTIVE t) = false) as Ha' by flagsimp.
  assert (counted (clear_flag UV_HANDLE_ACTIVE t) = false) as Hc' by (unfold counted; rewrite Ha'; done).
  assert (counted t = uv__has_ref t) as Hct by (unfold counted; rewrite Ha; done).
  eexists. split; [|split; [|split; [|split]]].
  - erewrite bind_ok by (unfold on_heap; rewrite Eq; reflexivity).
    erewrite bind_ok; [reflexivity|].
    unfold uv__handle_stop. erewrite bind_ok by (apply get_handle_ok; exact Hp). rewrite Ha. cbn [negb].
    erewrite bind_ok by reflexivity.
    instantiate (1 := if uv__has_ref t then _ else _). destruct (uv__has_ref t); reflexivity.
  - split.
    + destruct (uv__has_ref t); cbn; rewrite handle_set_insert, Ha';
        (eapply pq_ext; [|exact HH']; intros; symmetry; eapply less_than_flags; done).
    + destruct (uv__has_ref t); cbn; rewrite map_size_insert_Some by eauto; done.
    + destruct (uv__has_ref t); cbn; rewrite handle_set_insert, Hc', HC.
      * rewrite size_sub by auto. unfold u32. rewrite Zminus_mod_idemp_l. f_equal. lia.
      * f_equal. do 2 f_equal. f_equal. pose proof (elem_of_handle_set counted (handles L) p) as Hc.
        assert (p ∉ handle_set counted (handles L)); [|set_solver]. intros (? & ? & ?)%Hc. congruence.
  - destruct (uv__has_ref t); done.
  - destruct (uv__has_ref t); done.
  - destruct (uv__has_ref t); done.
Qed.

Lemma inv_put k (L L' : loop) p t t' : inv k L -> core k L' -> handles L !! p = Some t ->
  handles L' = <[p := t']> (handles L) -> frame L L' -> is_u64 (timer_counter L') -> timer_ok t' ->
  has_flag UV_HANDLE_CLOSING t' = has_flag UV_HANDLE_CLOSING t ->
  has_flag UV_HANDLE_CLOSED t' = has_flag UV_HANDLE_CLOSED t -> inv k L'.
Proof.
  intros [HC HT HA [HN HL]] HC' Hp Hh (Ft & Fq & Fc & Fd) Hcnt Hok Hc0 Hc1. split; [done|..].
  - rewrite Ft. tauto.
  - intros q tq. rewrite Hh, lookup_insert. case_decide; [by intros [= <-]|apply HA].
  - rewrite Fc. split; [done|]. intros q Hq. destruct (HL q Hq) as (tq & Hqt & ? & ?).
    rewrite Hh, lookup_insert. case_decide; [subst q; simplify_eq; exists t'; split_and!; congruence|eauto].
Qed.

(** What [uv_timer_stop] leaves of a timer. *)
Definition stopped (t : uv_timer) : uv_timer :=
  if uv__is_active t then clear_flag UV_HANDLE_ACTIVE t else t.

Lemma stopped_ok t : timer_ok t ->
  timer_ok (stopped t) /\ uv__is_active (stopped t) = false /\
  has_flag UV_HANDLE_CLOSING (stopped t) = has_flag UV_HANDLE_CLOSING t /\
  has_flag UV_HANDLE_CLOSED (stopped t) = has_flag UV_HANDLE_CLOSED t.
Proof.
  intros Hok. unfold stopped. destruct (uv__is_active t) eqn:E; [|done]. destruct Hok as (? & ? & _).
  assert (uv__is_active (clear_flag UV_HANDLE_ACTIVE t) = false) as E' by flagsimp.
  split_and!; try done; try (flagsimp; fail). split_and!; [done..|congruence].
Qed.

Lemma uv_timer_stop_inv k (L : loop) p t : inv k L -> handles L !! p = Some t ->
  exists L', uv_timer_stop p L = (Some 0, L') /\ inv k L' /\
    handles L' = <[p := stopped t]> (handles L) /\ frame L L' /\ timer_counter L' = timer_counter L.
Proof.
  intros HI Hp. destruct (uv_timer_stop_core k L p t (inv_core _ _ HI) Hp) as (L' & E & HK & Hh & HF & Hc).
  assert (handles L' = <[p := stopped t]> (handles L)) as Hh'.
  { rewrite Hh. unfold stopped. destruct (uv__is_active t); [done|]. rewrite insert_id; done. }
  destruct (stopped_ok t (inv_timers _ _ HI p t Hp)) as (? & ? & ? & ?).
  exists L'. split_and!; try done. eapply inv_put; try done. rewrite Hc. apply HI.
Qed.

(** The expiry time that [uv_timer_start] computes: saturating addition. *)
Definition expiry (now timeout : Z) : Z := Z.min (now + timeout) UINT64_MAX.

Lemma clamp_expiry now timeout : is_u64 now -> is_u64 timeout ->
  (if u64 (now + timeout) <? timeout then u64 (-1) else u64 (now + timeout)) = expiry now timeout.
Proof.
  unfold is_u64, expiry, UINT64_MAX, u64. intros Hn Ht. change (-1 mod 2 ^ 64) with (2 ^ 64 - 1).
  destruct (Z.ltb_spec ((now + timeout) mod 2 ^ 64) timeout); zarith.
Qed.

(** What [uv_timer_start] makes of a timer. *)
Definition started (L : loop) (cb : option Z) (timeout rep : Z) (t : uv_timer) : uv_timer :=
  set_flag UV_HANDLE_ACTIVE (Timer (flags (stopped t)) cb (close_cb t) (expiry (time L) timeout) rep (timer_counter L)).

Lemma started_ok (L : loop) cb timeout rep t : timer_ok t -> is_u64 (time L) -> is_u64 timeout -> is_u64 rep ->
  uv__is_closing t = false -> cb <> None ->
  timer_ok (started L cb timeout rep t) /\ uv__is_active (started L cb timeout rep t) = true /\
  has_flag UV_HANDLE_CLOSING (started L cb timeout rep t) = has_flag UV_HANDLE_CLOSING t /\
  has_flag UV_HANDLE_CLOSED (started L cb timeout rep t) = has_flag UV_HANDLE_CLOSED t.
Proof.
  intros Hok Hn Ht Hr Hc Hcb. destruct (stopped_ok t Hok) as (_ & _ & H0 & H1).
  assert (has_flag UV_HANDLE_CLOSING (started L cb timeout rep t) = has_flag UV_HANDLE_CLOSING (stopped t)) as E0
    by (unfold started; flagsimp).
  assert (has_flag UV_HANDLE_CLOSED (started L cb timeout rep t) = has_flag UV_HANDLE_CLOSED (stopped t)) as E1
    by (unfold started; flagsimp).
  split_and!; [|unfold started; flagsimp|congruence|congruence].
  split_and!; [|done|].
  - unfold started, is_u64, expiry, UINT64_MAX in *. cbn. lia.
  - intros _. split; [done|]. rewrite closing_bit, <- closing_flag_bit, <- closed_flag_bit, E0, E1, H0, H1 in *. exact Hc.
Qed.

Lemma uv_timer_start_inv k (L : loop) p t cb timeout rep : inv k L -> handles L !! p = Some t ->
  is_u64 timeout -> is_u64 rep -> uv__is_closing t = false -> cb <> None ->
  exists L', uv_timer_start p cb timeout rep L = (Some 0, L') /\ inv k L' /\
    handles L' = <[p := started L cb timeout rep t]> (handles L) /\ frame L L' /\
    timer_counter L' = u64 (timer_counter L + 1).
Proof.
  intros HI Hp Ht Hr Hcl Hcb. unfold uv_timer_start.
  erewrite bind_ok by (apply get_handle_ok; exact Hp). rewrite Hcl, bool_decide_false by done. cbn [orb].
  destruct (uv_timer_stop_inv k L p t HI Hp) as (L1 & E1 & HI1 & Hh1 & (Ft & Fq & Fc & Fd) & Hc1).
  assert ((if uv__is_active t then uv_timer_stop p ;; ret tt else ret tt) L = (Some tt, L1)) as ES.
  { destruct (uv__is_active t) eqn:Ha; [erewrite bind_ok by exact E1; done|].
    revert E1. unfold uv_timer_stop. erewrite bind_ok by (apply get_handle_ok; exact Hp). rewrite Ha.
    intros [= <-]. done. }
  erewrite bind_ok by exact ES. erewrite bind_ok by reflexivity. erewrite bind_ok by reflexivity.
  assert (Hp1 : handles L1 !! p = Some (stopped t)) by (rewrite Hh1; apply lookup_insert_eq).
  erewrite bind_ok by (apply get_handle_ok; exact Hp1). erewrite bind_ok by reflexivity.
  destruct (inv_time _ _ HI) as [Hnow Hcnt]. rewrite Ft, Hc1, clamp_expiry by done.
  set (t2 := Timer (flags (stopped t)) cb _ _ _ _). set (L2 := set_handles _ _).
  destruct (stopped_ok t (inv_timers _ _ HI p t Hp)) as (Hok1 & Hact1 & _).
  assert (uv__is_active t2 = false) as Ha2 by exact Hact1.
  assert (core k L2) as HK2.
  { unfold L2. eapply (core_put k (set_counter L1 _) p (stopped t) t2); [|exact Hp1| | |].
    - destruct HI1 as [[] ? ? ?]. split; done.
    - rewrite Ha2, Hact1. done.
    - unfold counted. rewrite Ha2, Hact1. done.
    - rewrite Hact1. done. }
  assert (handles L2 !! p = Some t2) as Hp2 by (unfold L2; apply lookup_insert_eq).
  destruct (activate_ok k L2 p t2 (ret 0) HK2 Hp2 Ha2) as (L3 & E3 & HK3 & Hh3 & (Gt & Gq & Gc & Gd) & Hc3).
  exists L3. assert (handles L3 = <[p := started L cb timeout rep t]> (handles L)) as HhF.
  { rewrite Hh3. unfold L2. cbn [handles set_handles set_counter]. rewrite Hh1, !insert_insert_eq. f_equal.
    unfold started, t2. f_equal. f_equal. unfold stopped. destruct (uv__is_active t); done. }
  assert (frame L L3) as HF by (unfold L2 in *; cbn in *; split_and!; congruence).
  assert (timer_counter L3 = u64 (timer_counter L + 1)) as HcF by (rewrite Hc3; unfold L2; cbn; congruence).
  destruct (started_ok L cb timeout rep t (inv_timers _ _ HI p t Hp) Hnow Ht Hr Hcl Hcb) as (? & ? & ? & ?).
  split_and!; try done. apply (inv_put k L L3 p t _ HI HK3 Hp HhF HF); try done. rewrite HcF. apply u64_range.
Qed.

(** What [uv_timer_again] makes of a timer. *)
Definition rearmed (L : loop) (t : uv_timer) : uv_timer :=
  if negb (repeat_ms t =? 0) then started L (timer_cb t) (repeat_ms t) (repeat_ms t) (stopped t) else t.

Lemma started_stopped L cb timeout rep t : timer_ok t ->
  started L cb timeout rep (stopped t) = started L cb timeout rep t.
Proof.
  intros Hok. unfold started. destruct (stopped_ok t Hok) as (_ & Ha & _). unfold stopped at 1. rewrite Ha.
  do 2 f_equal. unfold stopped. destruct (uv__is_active t); done.
Qed.

Lemma uv_timer_again_inv k (L : loop) p t : inv k L -> handles L !! p = Some t ->
  timer_cb t <> None -> uv__is_closing t = false ->
  exists L', uv_timer_again p L = (Some 0, L') /\ inv k L' /\
    handles L' = <[p := rearmed L t]> (handles L) /\ frame L L'.
Proof.
  intros HI Hp Hcb Hcl. unfold uv_timer_again, rearmed.
  erewrite bind_ok by (apply get_handle_ok; exact Hp). rewrite bool_decide_false by done.
  destruct (repeat_ms t =? 0); cbn [negb].
  { exists L. split_and!; try done. rewrite insert_id; done. }
  destruct (uv_timer_stop_inv k L p t HI Hp) as (L1 & E1 & HI1 & Hh1 & (Ft & Fq & Fc & Fd) & Hc1).
  pose proof (inv_timers _ _ HI p t Hp) as Hok. destruct (stopped_ok t Hok) as (Hok1 & _ & H0 & H1).
  assert (Hp1 : handles L1 !! p = Some (stopped t)) by (rewrite Hh1; apply lookup_insert_eq).
  destruct (uv_timer_start_inv k L1 p (stopped t) (timer_cb t) (repeat_ms t) (repeat_ms t) HI1 Hp1)
    as (L2 & E2 & HI2 & Hh2 & (Gt & Gq & Gc & Gd) & Hc2); [apply Hok..| |done|].
  { rewrite closing_bit, <- closing_flag_bit, <- closed_flag_bit, H0, H1, closing_flag_bit, closed_flag_bit, <- closing_bit. done. }
  exists L2. erewrite bind_ok; [|erewrite bind_ok by exact E1; erewrite bind_ok by exact E2; reflexivity].
  split_and!; try done; [|split_and!; congruence].
  rewrite Hh2, Hh1, insert_insert_eq. f_equal. unfold started. rewrite Ft, Hc1. done.
Qed.

(** ** The next timeout *)

(** The heap gives a timer that no active timer precedes. *)
Lemma heap_min_ok k (L : loop) : core k L ->
  exists m, on_heap (fun _ => pq_min) L = (Some m, L) /\
    match m with
    | None => handle_set uv__is_active (handles L) = ∅
    | Some p => exists t, handles L !! p = Some t /\ uv__is_active t = true /\
        forall q tq, handles L !! q = Some tq -> uv__is_active tq = true -> timer_before tq t = false
    end.
Proof.
  intros [HH _ _]. destruct (pq_min_ok _ _ _ _ HH) as (m & E & Hm). exists m.
  split; [unfold on_heap; rewrite E; destruct L; done|].
  destruct m as [p|]; [|done]. destruct Hm as [(t & Hp & Ha)%elem_of_handle_set Hmin].
  exists t. split_and!; [done..|]. intros q tq Hq Haq. specialize (Hmin q).
  unfold timer_less_than, timer_at in Hmin. rewrite Hp, Hq in Hmin. apply Hmin, elem_of_handle_set. eauto.
Qed.

Lemma timer_before_timeout t t' : timer_before t' t = false -> timeout t <= timeout t'.
Proof. unfold timer_before. decide_cmp; try done. Qed.

(** ** Running the timers *)

(** A timer is due when it is active and its time has come. *)
Definition is_due (now : Z) (t : uv_timer) : bool := uv__is_active t && (timeout t <=? now).
Definition due (L : loop) : gset positive := handle_set (is_due (time L)) (handles L).

(** A timer that has just run is not due, unless the clock is at its end. *)
Lemma rearmed_not_due k (L : loop) p t : inv k L -> handles L !! p = Some t -> time L < UINT64_MAX ->
  is_due (time L) (rearmed L (stopped t)) = false.
Proof.
  intros HI Hp Hnow. destruct (inv_timers _ _ HI p t Hp) as (_ & Hr & _).
  destruct (stopped_ok t (inv_timers _ _ HI p t Hp)) as (_ & Ha & _).
  assert (repeat_ms (stopped t) = repeat_ms t) as Er by (unfold stopped; destruct (uv__is_active t); done).
  unfold rearmed, is_due. rewrite Er. destruct (Z.eqb_spec (repeat_ms t) 0); cbn [negb].
  - rewrite Ha. done.
  - apply andb_false_intro2. destruct (inv_time _ _ HI) as [Hn _]. unfold is_u64, UINT64_MAX in *.
    cbn. unfold expiry, UINT64_MAX. apply Z.leb_gt. lia.
Qed.

Lemma stop_again_ok k (L : loop) p t : inv k L -> handles L !! p = Some t -> uv__is_active t = true ->
  exists L1 L2, uv_timer_stop p L = (Some 0, L1) /\ uv_timer_again p L1 = (Some 0, L2) /\ inv k L2 /\
    handles L2 = <[p := rearmed L (stopped t)]> (handles L) /\ frame L L2.
Proof.
  intros HI Hp Ha. destruct (uv_timer_stop_inv k L p t HI Hp) as (L1 & E1 & HI1 & Hh1 & (Ft & Fq & Fc & Fd) & Hc1).
  pose proof (inv_timers _ _ HI p t Hp) as Hok. destruct (stopped_ok t Hok) as (_ & _ & H0 & H1).
  destruct Hok as (_ & _ & [Hcb Hcl]%(fun f => f Ha)).
  destruct (uv_timer_again_inv k L1 p (stopped t) HI1) as (L2 & E2 & HI2 & Hh2 & (Gt & Gq & Gc & Gd)).
  - rewrite Hh1. apply lookup_insert_eq.
  - unfold stopped. destruct (uv__is_active t); done.
  - rewrite closing_bit, <- closing_flag_bit, <- closed_flag_bit, H0, H1, closing_flag_bit, closed_flag_bit, <- closing_bit. done.
  - exists L1, L2. split_and!; try done; [|split_and!; congruence]. rewrite Hh2, Hh1, insert_insert_eq.
    unfold rearmed, started. rewrite Ft, Hc1. done.
Qed.

Section run.
Context (run_cb : Z -> positive -> M loop unit).

(** One round of the loop: nothing is due, or the first due timer is stopped,
    armed again if it repeats, and its callback runs. *)
Lemma run_timers_step k (L : loop) fuel : inv k L -> time L < UINT64_MAX ->
  (due L = ∅ /\ uv__run_timers run_cb (S fuel) L = (Some tt, L)) \/
  (exists p t cb L2, handles L !! p = Some t /\ is_due (time L) t = true /\
     (forall q tq, handles L !! q = Some tq -> uv__is_active tq = true -> timer_before tq t = false) /\
     timer_cb t = Some cb /\ inv k L2 /\
     handles L2 = <[p := rearmed L (stopped t)]> (handles L) /\ frame L L2 /\ due L2 = due L ∖ {[p]} /\
     uv__run_timers run_cb (S fuel) L = (run_cb cb p ;; uv__run_timers run_cb fuel) L2).
Proof.
  intros HI Hnow. destruct (heap_min_ok k L (inv_core _ _ HI)) as (m & E & Hm).
  cbn [uv__run_timers]. destruct m as [p|].
  2: { left. erewrite bind_ok by exact E. split; [|done]. apply set_eq. intros q. split; [|set_solver].
       intros (t & Hq & [Ha _]%andb_prop)%elem_of_handle_set.
       assert (q ∈ handle_set uv__is_active (handles L)) by (apply elem_of_handle_set; eauto). set_solver. }
  destruct Hm as (t & Hp & Ha & Hmin). destruct (decide (timeout t <= time L)) as [Hle|Hgt].
  - right. destruct (stop_again_ok k L p t HI Hp Ha) as (L1 & L2 & E1 & E2 & HI2 & Hh2 & (Ft & Fq & Fc & Fd)).
    pose proof (inv_timers _ _ HI p t Hp) as Hok. destruct Hok as (_ & _ & [Hcb Hcl]%(fun f => f Ha)).
    destruct (timer_cb t) as [cb|] eqn:Ecb; [|done].
    assert (Hp2 : handles L2 !! p = Some (rearmed L (stopped t))) by (rewrite Hh2; apply lookup_insert_eq).
    assert (Hcb2 : timer_cb (rearmed L (stopped t)) = Some cb).
    { unfold rearmed, started, stopped. destruct (uv__is_active t), (negb _); simpl; done. }
    exists p, t, cb, L2. split_and!; try done.
    + unfold is_due. rewrite Ha. apply Z.leb_le. done.
    + unfold due. rewrite Hh2, Ft, handle_set_insert, (rearmed_not_due k L p t) by done. done.
    + set (R := bind (run_cb cb p) _ L2).
      erewrite bind_ok by exact E. cbn match. erewrite bind_ok by (apply get_handle_ok; exact Hp).
      erewrite bind_ok by reflexivity. destruct (Z.gtb_spec (timeout t) (time L)); [lia|].
      erewrite bind_ok by exact E1. erewrite bind_ok by exact E2.
      erewrite bind_ok by (apply get_handle_ok; exact Hp2). rewrite Hcb2. erewrite bind_ok by reflexivity. done.
  - left. split.
    + apply set_eq. intros q. split; [|set_solver].
      intros (tq & Hq & [Haq Hdq%Z.leb_le]%andb_prop)%elem_of_handle_set.
      pose proof (timer_before_timeout _ _ (Hmin q tq Hq Haq)). lia.
    + erewrite bind_ok by exact E. cbn match. erewrite bind_ok by (apply get_handle_ok; exact Hp).
      erewrite bind_ok by reflexivity. destruct (Z.gtb_spec (timeout t) (time L)); [done|lia].
Qed.

(** A callback that keeps the loop in order and arms no timer that is due. *)
Definition callback_ok (k : Z) : Prop := forall cb p (L : loop), inv k L -> is_Some (handles L !! p) ->
  exists L', run_cb cb p L = (Some tt, L') /\ inv k L' /\ time L' = time L /\ due L' ⊆ due L.

Lemma run_timers_ok k : callback_ok k -> forall fuel (L : loop), inv k L -> time L < UINT64_MAX ->
  (size (due L) < fuel)%nat ->
  exists L', uv__run_timers run_cb fuel L = (Some tt, L') /\ inv k L' /\ time L' = time L /\ due L' = ∅.
Proof.
  intros Hcb. induction fuel as [|fuel IH]; intros L HI Hnow Hf; [lia|].
  destruct (run_timers_step k L fuel HI Hnow) as [[HD E]|(p & t & cb & L2 & Hp & Hd & _ & _ & HI2 & Hh2 & (Ft & _) & Hdue & E)].
  - exists L. done.
  - destruct (Hcb cb p L2 HI2) as (L3 & E3 & HI3 & Ht3 & Hd3); [rewrite Hh2, lookup_insert_eq; eauto|].
    destruct (IH L3 HI3) as (L4 & E4 & HI4 & Ht4 & Hd4); [lia| |].
    + assert (p ∈ due L) as Hpd by (apply elem_of_handle_set; eauto).
      pose proof (size_sub _ _ Hpd). apply subseteq_size in Hd3. rewrite Hdue in Hd3. lia.
    + exists L4. split_and!; try done; [|lia]. rewrite E. erewrite bind_ok by exact E3. done.
Qed.
End run.

(** ** Programs of API calls *)

Inductive call :=
  | CInit (p : positive)
  | CStart (p : positive) (cb : option Z) (timeout rep : Z)
  | CStop (p : positive)
  | CAgain (p : positive)
  | CSetRepeat (p : positive) (rep : Z)
  | CRef (p : positive)
  | CUnref (p : positive)
  | CClose (p : positive) (cb : option Z)
  | CTick (now : Z).

Definition uv__update_time (now : Z) : M loop unit := fun L =>
  (Some tt, Loop now (timer_counter L) (timer_heap L) (active_handles L) (handle_queue L) (closing_handles L) (handles L) (data L)).

Definition run_call (c : call) : M loop unit :=
  match c with
  | CInit p => uv_timer_init p ;; ret tt
  | CStart p cb timeout rep => uv_timer_start p cb timeout rep ;; ret tt
  | CStop p => uv_timer_stop p ;; ret tt
  | CAgain p => uv_timer_again p ;; ret tt
  | CSetRepeat p rep => uv_timer_set_repeat p rep
  | CRef p => uv_ref p
  | CUnref p => uv_unref p
  | CClose p cb => uv_close p cb
  | CTick now => uv__update_time now
  end.

(** The caller's side: a handle is initialised once, the words are 64 bits wide,
    and [uv_close] is called once, as its assertion says. *)
Definition call_legal (L : loop) (c : call) : Prop :=
  match c with
  | CInit p => handles L !! p = None /\ Z.of_nat (size (handles L)) + 1 < 2 ^ 32
  | CStart p _ timeout rep => is_Some (handles L !! p) /\ is_u64 timeout /\ is_u64 rep
  | CSetRepeat p rep => is_Some (handles L !! p) /\ is_u64 rep
  | CClose p _ => exists t, handles L !! p = Some t /\ uv__is_closing t = false
  | CTick now => is_u64 now
  | CStop p | CAgain p | CRef p | CUnref p => is_Some (handles L !! p)
  end.

(** A change of the flags that only affects the number of counted handles. *)
Lemma core_recount k (L : loop) p t t' : core k L -> handles L !! p = Some t ->
  uv__is_active t' = uv__is_active t -> timeout t' = timeout t -> start_id t' = start_id t ->
  core k (set_active (set_handles L (<[p := t']> (handles L)))
            (u32 (active_handles L + (Z.b2z (counted t') - Z.b2z (counted t))))).
Proof.
  intros [HH HS HC] Hp Ha Ht Hi.
  pose proof (elem_of_handle_set counted (handles L) p) as Hc.
  pose proof (elem_of_handle_set uv__is_active (handles L) p) as Hac.
  split; cbn [handles timer_heap active_handles set_handles set_active].
  - rewrite handle_set_insert, Ha. eapply pq_ext; [intros; symmetry; eapply less_than_flags; done|].
    destruct (uv__is_active t) eqn:E.
    + assert (p ∈ handle_set uv__is_active (handles L)) by (apply Hac; eauto).
      replace ({[p]} ∪ _) with (handle_set uv__is_active (handles L)) by set_solver. done.
    + assert (p ∉ handle_set uv__is_active (handles L)) by (intros (? & ? & ?)%Hac; congruence).
      replace (_ ∖ {[p]}) with (handle_set uv__is_active (handles L)) by set_solver. done.
  - rewrite map_size_insert_Some by eauto. done.
  - rewrite HC, handle_set_insert. unfold u32. rewrite Zplus_mod_idemp_l. f_equal.
    destruct (counted t) eqn:E.
    + assert (p ∈ handle_set counted (handles L)) by (apply Hc; eauto).
      destruct (counted t'); cbn [Z.b2z]; [replace ({[p]} ∪ _) with (handle_set counted (handles L)) by set_solver; lia|].
      rewrite size_sub by done. lia.
    + assert (p ∉ handle_set counted (handles L)) by (intros (? & ? & ?)%Hc; congruence).
      destruct (counted t'); cbn [Z.b2z]; [rewrite size_add by done; lia|].
      replace (_ ∖ {[p]}) with (handle_set counted (handles L)) by set_solver. lia.
Qed.

(** A new handle that is not active. *)
Lemma core_init k (L : loop) p t : core k L -> handles L !! p = None -> uv__is_active t = false ->
  Z.of_nat (size (handles L)) + 1 < 2 ^ 32 -> core k (set_handles L (<[p := t]> (handles L))).
Proof.
  intros [HH HS HC] Hp Ha Hs.
  assert (HN : forall P, P t = false -> handle_set P (<[p := t]> (handles L)) = handle_set P (handles L)).
  { intros P HP. rewrite handle_set_insert, HP. pose proof (elem_of_handle_set P (handles L) p) as Hin.
    assert (p ∉ handle_set P (handles L)) by (rewrite Hin; intros (? & ? & ?); congruence). set_solver. }
  split; cbn [handles timer_heap active_handles set_handles].
  - rewrite HN by done. eapply pq_ext; [|exact HH]. intros a b (ta & Ea & _)%elem_of_handle_set (tb & Eb & _)%elem_of_handle_set.
    unfold timer_less_than, timer_at. rewrite !lookup_insert_ne by congruence. done.
  - rewrite map_size_insert_None by done. lia.
  - rewrite HN; [done|]. unfold counted. rewrite Ha. done.
Qed.

Lemma init_inv k (L : loop) p : inv k L -> call_legal L (CInit p) ->
  exists L', run_call (CInit p) L = (Some tt, L') /\ inv k L'.
Proof.
  intros HI [Hp Hs]. eexists. split; [reflexivity|].
  unfold timer_at. rewrite Hp. cbn [default]. set (t := Timer _ _ _ _ _ _).
  pose proof (core_init k L p t (inv_core _ _ HI) Hp eq_refl Hs) as HC. destruct HI as [_ HT HA [HN HL]].
  split; cbn [time timer_counter handles closing_handles set_queue set_handles] in *.
  - destruct HC as [H1 H2 H3]. split; [exact H1|exact H2|exact H3].
  - done.
  - intros q tq. rewrite lookup_insert. case_decide; [|apply HA]. intros [= <-]. split_and!; done.
  - split; [done|]. intros q Hq. destruct (HL q Hq) as (tq & Hqt & ? & ?).
    rewrite lookup_insert_ne by congruence. eauto.
Qed.

Lemma start_einval (L : loop) p t cb timeout rep : handles L !! p = Some t ->
  uv__is_closing t = true \/ cb = None -> uv_timer_start p cb timeout rep L = (Some UV_EINVAL, L).
Proof.
  intros Hp Hc. unfold uv_timer_start. erewrite bind_ok by (apply get_handle_ok; exact Hp).
  destruct Hc as [-> | ->]; [done|]. rewrite bool_decide_true, orb_true_r by done. done.
Qed.

Lemma stopped_closing t : uv__is_closing (stopped t) = uv__is_closing t.
Proof. unfold stopped. destruct (uv__is_active t); [|done]. flagsimp. Qed.

Lemma start_inv k (L : loop) p cb timeout rep : inv k L -> call_legal L (CStart p cb timeout rep) ->
  exists r L', uv_timer_start p cb timeout rep L = (Some r, L') /\ inv k L'.
Proof.
  intros HI ([t Hp] & Ht & Hr).
  destruct (uv__is_closing t) eqn:Hcl; [exists UV_EINVAL, L; split; [eapply start_einval; eauto|done]|].
  destruct cb as [cb|]; [|exists UV_EINVAL, L; split; [eapply start_einval; eauto|done]].
  destruct (uv_timer_start_inv k L p t (Some cb) timeout rep HI Hp Ht Hr Hcl) as (L' & E & HI' & _); [done|eauto].
Qed.

Lemma again_inv k (L : loop) p : inv k L -> is_Some (handles L !! p) ->
  exists r L', uv_timer_again p L = (Some r, L') /\ inv k L'.
Proof.
  intros HI [t Hp]. destruct (uv__is_closing t) eqn:Hcl, (timer_cb t) as [cb|] eqn:Hcb.
  2, 4: exists UV_EINVAL, L; split; [|done]; unfold uv_timer_again;
        erewrite bind_ok by (apply get_handle_ok; exact Hp); rewrite Hcb; done.
  - destruct (uv_timer_stop_inv k L p t HI Hp) as (L1 & E1 & HI1 & Hh1 & _).
    unfold uv_timer_again. erewrite bind_ok by (apply get_handle_ok; exact Hp). rewrite Hcb. cbn match.
    rewrite bool_decide_false by done. destruct (negb _); [|exists 0, L; done].
    exists 0, L1. split; [|done]. erewrite bind_ok; [done|]. erewrite bind_ok by exact E1.
    erewrite bind_ok by (eapply start_einval; [rewrite Hh1; apply lookup_insert_eq|left; rewrite stopped_closing; done]).
    done.
  - destruct (uv_timer_again_inv k L p t HI Hp) as (L' & E & HI' & _); [congruence|done|eauto].
Qed.

Lemma set_repeat_inv k (L : loop) p rep : inv k L -> call_legal L (CSetRepeat p rep) ->
  exists L', uv_timer_set_repeat p rep L = (Some tt, L') /\ inv k L'.
Proof.
  intros HI ([t Hp] & Hr). eexists. split.
  { unfold uv_timer_set_repeat. erewrite bind_ok by (apply get_handle_ok; exact Hp). reflexivity. }
  destruct (inv_timers _ _ HI p t Hp) as (? & ? & ?).
  eapply (inv_put k L _ p t); try done; [|apply HI].
  eapply core_put; try done. apply HI.
Qed.

Lemma core_active k (L : loop) : core k L -> u32 (active_handles L + 0) = active_handles L.
Proof. intros [_ _ ->]. rewrite Z.add_0_r. apply Z.mod_mod. done. Qed.

Lemma ref_inv k (L : loop) p : inv k L -> is_Some (handles L !! p) ->
  exists L', uv_ref p L = (Some tt, L') /\ inv k L'.
Proof.
  intros HI [t Hp]. pose proof (inv_core _ _ HI) as HC. pose proof (inv_timers _ _ HI p t Hp) as (H0 & H1 & H2).
  unfold uv_ref. erewrite bind_ok by (apply get_handle_ok; exact Hp).
  destruct (uv__has_ref t) eqn:Hr; [exists L; done|]. erewrite bind_ok by reflexivity.
  set (t' := set_flag UV_HANDLE_REF t).
  assert (uv__is_active t' = uv__is_active t) as Ha by (unfold t'; flagsimp).
  assert (counted t' = uv__is_active t) as Hc' by (unfold counted; rewrite Ha; unfold t'; flagsimp).
  assert (counted t = false) as Hc by (unfold counted; rewrite Hr; apply andb_false_r).
  pose proof (core_recount k L p t t' HC Hp Ha eq_refl eq_refl) as HC'. rewrite Hc', Hc in HC'.
  assert (Hd : has_flag UV_HANDLE_CLOSING t = true -> uv__is_active t = false).
  { intros Hcl. destruct (uv__is_active t) eqn:E; [|done]. destruct (H2 eq_refl) as [_ Hn].
    rewrite closing_bit, <- closing_flag_bit, Hcl in Hn. done. }
  eexists. split.
  { instantiate (1 := set_active (set_handles L (<[p := t']> (handles L))) (u32 (active_handles L + (Z.b2z (uv__is_active t) - Z.b2z false)))).
    destruct (has_flag UV_HANDLE_CLOSING t); [|destruct (uv__is_active t)]; [rewrite Hd by done| |];
      cbn [Z.b2z]; rewrite ?Z.sub_0_r, ?(core_active k L HC); done. }
  eapply (inv_put k L _ p t t'); try done; [apply HI|split_and!; try done|unfold t'; flagsimp|unfold t'; flagsimp].
  rewrite Ha. intros Hac. destruct (H2 Hac). split; [done|unfold t'; flagsimp].
Qed.

Lemma unref_inv k (L : loop) p : inv k L -> is_Some (handles L !! p) ->
  exists L', uv_unref p L = (Some tt, L') /\ inv k L'.
Proof.
  intros HI [t Hp]. pose proof (inv_core _ _ HI) as HC. pose proof (inv_timers _ _ HI p t Hp) as (H0 & H1 & H2).
  unfold uv_unref. erewrite bind_ok by (apply get_handle_ok; exact Hp).
  destruct (uv__has_ref t) eqn:Hr; [|exists L; done]. cbn [negb]. erewrite bind_ok by reflexivity.
  set (t' := clear_flag UV_HANDLE_REF t).
  assert (uv__is_active t' = uv__is_active t) as Ha by (unfold t'; flagsimp).
  assert (counted t' = false) as Hc' by (unfold counted, t'; flagsimp).
  assert (counted t = uv__is_active t) as Hc by (unfold counted; rewrite Hr; apply andb_true_r).
  pose proof (core_recount k L p t t' HC Hp Ha eq_refl eq_refl) as HC'. rewrite Hc', Hc in HC'.
  assert (Hd : has_flag UV_HANDLE_CLOSING t = true -> uv__is_active t = false).
  { intros Hcl. destruct (uv__is_active t) eqn:E; [|done]. destruct (H2 eq_refl) as [_ Hn].
    rewrite closing_bit, <- closing_flag_bit, Hcl in Hn. done. }
  eexists. split.
  { instantiate (1 := set_active (set_handles L (<[p := t']> (handles L))) (u32 (active_handles L + (Z.b2z false - Z.b2z (uv__is_active t))))).
    destruct (has_flag UV_HANDLE_CLOSING t); [|destruct (uv__is_active t)]; [rewrite Hd by done| |];
      cbn [Z.b2z]; rewrite ?Z.sub_0_r, ?(core_active k L HC); done. }
  eapply (inv_put k L _ p t t'); try done; [apply HI|split_and!; try done|unfold t'; flagsimp|unfold t'; flagsimp].
  rewrite Ha. intros Hac. destruct (H2 Hac). split; [done|unfold t'; flagsimp].
Qed.

Lemma close_inv k (L : loop) p cb : inv k L -> call_legal L (CClose p cb) ->
  exists L', uv_close p cb L = (Some tt, L') /\ inv k L'.
Proof.
  intros HI (t & Hp & Hcl). pose proof (inv_timers _ _ HI p t Hp) as (H0 & H1 & H2).
  unfold uv_close. erewrite bind_ok by (apply get_handle_ok; exact Hp). rewrite Hcl.
  erewrite bind_ok by reflexivity. erewrite bind_ok by reflexivity.
  set (t1 := Timer _ _ _ _ _ _). set (L1 := set_handles L _).
  assert (uv__is_active t1 = uv__is_active t) as Ha1 by (unfold t1; flagsimp).
  assert (uv__has_ref t1 = uv__has_ref t) as Hr1 by (unfold t1; flagsimp).
  assert (core k L1) as HC1 by (eapply core_put; [apply HI|done|done|unfold counted; congruence|done]).
  assert (handles L1 !! p = Some t1) as Hp1 by apply lookup_insert_eq.
  destruct (uv_timer_stop_core k L1 p t1 HC1 Hp1) as (L2 & E2 & HC2 & Hh2 & (Ft & Fq & Fc & Fd) & Hc2).
  assert (handles L2 = <[p := stopped t1]> (handles L)) as HhF.
  { rewrite Hh2. unfold stopped, L1. cbn. destruct (uv__is_active t1); [apply insert_insert_eq|done]. }
  assert (uv__is_active (stopped t1) = false) as Hs by (unfold stopped; destruct (uv__is_active t1) eqn:E; [flagsimp|done]).
  assert (has_flag UV_HANDLE_CLOSING (stopped t1) = true) as Hs0.
  { unfold stopped. destruct (uv__is_active t1); unfold t1; flagsimp. }
  assert (has_flag UV_HANDLE_CLOSED (stopped t1) = false) as Hs1.
  { rewrite closing_bit in Hcl. apply orb_false_elim in Hcl as [_ Hcl].
    unfold stopped. destruct (uv__is_active t1); unfold t1; flagsimp; rewrite Hcl; done. }
  exists (set_closing L2 (p :: closing_handles L2)). split.
  - unfold uv__timer_close. erewrite bind_ok by (erewrite bind_ok by exact E2; reflexivity).
    unfold uv__make_close_pending. erewrite bind_ok by (apply get_handle_ok; rewrite HhF; apply lookup_insert_eq).
    rewrite Hs0, Hs1. done.
  - destruct HI as [_ HT HA [HN HL]]. split; cbn [time timer_counter handles closing_handles set_closing].
    + destruct HC2. split; done.
    + rewrite Ft, Hc2. done.
    + intros q tq. rewrite HhF, lookup_insert. case_decide; [intros [= <-]|apply HA].
      split_and!; [| |congruence]; unfold stopped; destruct (uv__is_active t1); done.
    + rewrite Fc. cbn [closing_handles L1 set_handles]. split.
      * apply NoDup_cons. split; [|done]. intros (t' & Hp' & Hcl' & _)%HL. simplify_eq.
        rewrite closing_bit, <- closing_flag_bit, Hcl' in Hcl. done.
      * intros q [->|Hq]%elem_of_cons; [exists (stopped t1); rewrite HhF, lookup_insert_eq; done|].
        destruct (HL q Hq) as (tq & Hqt & Hq0 & Hq1). exists tq. rewrite HhF, lookup_insert_ne; [done|].
        intros <-. simplify_eq. rewrite closing_bit, <- closing_flag_bit, Hq0 in Hcl. done.
Qed.

(** ** Reachable loops *)

(** The part of [uv_loop_init] that the timers need. *)
Definition uv_loop_init (now : Z) : M loop unit :=
  let* L := getst in
  putst (Loop (time L) (timer_counter L) (timer_heap L) (active_handles L) (handle_queue L) (closing_handles L) ∅ (data L)) ;;
  on_heap (fun _ => pq_init) ;;
  let* L := getst in
  putst (Loop now 0 (timer_heap L) 0 [] [] (handles L) (data L)).

(** The loops that API calls lead to, while [k] handles of other types are
    active. *)
Inductive reachable : Z -> loop -> Prop :=
  | reach_init L L' now : is_u64 now -> uv_loop_init now L = (Some tt, L') -> reachable 0 L'
  | reach_call k L c L' : reachable k L -> call_legal L c -> run_call c L = (Some tt, L') -> reachable k L'
  | reach_others k k' L : reachable k L -> reachable k' (set_active L (u32 (active_handles L + (k' - k)))).

Lemma run_call_inv k (L : loop) c : inv k L -> call_legal L c ->
  exists L', run_call c L = (Some tt, L') /\ inv k L'.
Proof.
  intros HI HL. destruct c; cbn [run_call].
  - apply init_inv; done.
  - destruct (start_inv k L p cb timeout0 rep HI HL) as (r & L' & E & H').
    exists L'. erewrite bind_ok by exact E. done.
  - destruct HL as [t Hp]. destruct (uv_timer_stop_inv k L p t HI Hp) as (L' & E & H' & _).
    exists L'. erewrite bind_ok by exact E. done.
  - destruct (again_inv k L p HI HL) as (r & L' & E & H'). exists L'. erewrite bind_ok by exact E. done.
  - apply set_repeat_inv; done.
  - apply ref_inv; done.
  - apply unref_inv; done.
  - apply close_inv; done.
  - eexists. split; [reflexivity|]. destruct HI as [[] [? ?] ? ?]. split; [split; done|split; done|done|done].
Qed.

Lemma reachable_inv k (L : loop) : reachable k L -> inv k L.
Proof.
  induction 1 as [L L' now Hn E|k L c L' _ IH HL E|k k' L _ IH].
  - destruct (pq_init_ok (timer_less_than ∅) (timer_heap L)) as (q & Eq & HH).
    unfold uv_loop_init in E. erewrite bind_ok in E by reflexivity. erewrite bind_ok in E by reflexivity.
    erewrite bind_ok in E by (unfold on_heap; cbn [timer_heap]; rewrite Eq; reflexivity).
    injection E as <-. split; cbn.
    + split; cbn; [|done|]; unfold handle_set; rewrite map_filter_empty, dom_empty_L; [exact HH|done].
    + done.
    + done.
    + split; [constructor|set_solver].
  - destruct (run_call_inv k L c IH HL) as (L2 & E2 & H2). congruence.
  - destruct IH as [[HH HS HC] ? ? ?]. split; [|done..]. split; [done..|]. cbn.
    rewrite HC. unfold u32. rewrite Zplus_mod_idemp_l. f_equal. lia.
Qed.

(** C8. Whatever legal sequence of API calls has been made on a loop, every legal
    call returns - it follows no dangling pointer and no assertion fails - and
    afterwards the timer heap holds exactly the active timers, each of which has
    a callback and is not closing, and [active_handles] counts the active timers
    with a reference (and the [k] handles of other types). *)
Theorem timer_api_safe k (L : loop) c : reachable k L -> call_legal L c ->
  exists L', run_call c L = (Some tt, L') /\ reachable k L' /\
    pq_holds (timer_less_than (handles L')) (timer_heap L') (handle_set uv__is_active (handles L')) /\
    (forall p t, handles L' !! p = Some t -> uv__is_active t = true -> timer_cb t <> None /\ uv__is_closing t = false) /\
    active_handles L' = u32 (k + Z.of_nat (size (handle_set counted (handles L')))).
Proof.
  intros HR HL. destruct (run_call_inv k L c (reachable_inv _ _ HR) HL) as (L' & E & HI).
  exists L'. split_and!; [done|econstructor; done|apply HI| |apply HI].
  intros p t Hp. apply (inv_timers _ _ HI p t Hp).
Qed.

(** [uv_timer_start] on an initialised handle: UV_EINVAL and no change when
    the handle is closing or the callback is NULL; otherwise 0, and the timer is
    active with the given callback and repeat, expires at [time + timeout],
    saturated at 2^64 - 1, comes after all timers that expire at the same time
    and were started before (its start number is the counter), and no other
    timer changes. *)
Lemma uv_timer_start_spec k (L : loop) p t cb timeout rep :
  reachable k L -> handles L !! p = Some t -> is_u64 timeout -> is_u64 rep ->
  if uv__is_closing t || bool_decide (cb = None)
  then uv_timer_start p cb timeout rep L = (Some UV_EINVAL, L)
  else exists L' t', uv_timer_start p cb timeout rep L = (Some 0, L') /\
    handles L' = <[p := t']> (handles L) /\
    uv__is_active t' = true /\ timer_cb t' = cb /\ repeat_ms t' = rep /\
    Timer.timeout t' = Z.min (time L + timeout) UINT64_MAX /\ start_id t' = timer_counter L /\
    uv__has_ref t' = uv__has_ref t /\
    timer_counter L' = u64 (timer_counter L + 1) /\ time L' = time L /\ data L' = data L.
Proof.
  intros HR Hp Ht Hr. apply reachable_inv in HR as HI.
  destruct (uv__is_closing t) eqn:Hcl; cbn [orb]; [eapply start_einval; eauto|].
  case_bool_decide as Hcb; [eapply start_einval; eauto|].
  destruct (uv_timer_start_inv k L p t cb timeout rep HI Hp Ht Hr Hcl Hcb) as (L' & E & _ & Hh & (Ft & _ & _ & Fd) & Hc).
  exists L', (started L cb timeout rep t). split_and!; try done.
  - unfold started. flagsimp.
  - unfold started, stopped. destruct (uv__is_active t); flagsimp.
Qed.

(** [uv__next_timeout], the time that the loop may sleep: -1 when no timer is
    active, and otherwise the time to the earliest expiry, 0 if it has passed,
    at most INT_MAX. *)
Lemma uv__next_timeout_spec k (L : loop) : reachable k L ->
  exists r, uv__next_timeout L = (Some r, L) /\
   ((handle_set uv__is_active (handles L) = ∅ /\ r = -1) \/
    (exists p t, handles L !! p = Some t /\ uv__is_active t = true /\
       (forall q tq, handles L !! q = Some tq -> uv__is_active tq = true -> timeout t <= timeout tq) /\
       r = Z.max 0 (Z.min INT_MAX (timeout t - time L)))).
Proof.
  intros HR. apply reachable_inv in HR as HI. destruct (heap_min_ok k L (inv_core _ _ HI)) as (m & E & Hm).
  unfold uv__next_timeout. destruct m as [p|].
  2: { exists (-1). split; [erewrite bind_ok by exact E; done|]. left. done. }
  destruct Hm as (t & Hp & Ha & Hmin). exists (Z.max 0 (Z.min INT_MAX (timeout t - time L))). split.
  - erewrite bind_ok by exact E. cbn match. erewrite bind_ok by (apply get_handle_ok; exact Hp).
    erewrite bind_ok by reflexivity. destruct (inv_timers _ _ HI p t Hp) as (H1 & _). destruct (inv_time _ _ HI) as [H2 _].
    unfold is_u64 in *. destruct (Z.leb_spec (timeout t) (time L)); [unfold ret; do 2 f_equal; lia|].
    rewrite u64_small by lia. unfold ret, INT_MAX in *. do 2 f_equal. destruct (Z.gtb_spec (timeout t - time L) (2 ^ 31 - 1)).
    + rewrite Z.min_l, Z.max_r by lia. done.
    + rewrite Z.min_r, Z.max_r by lia. apply signed_small; lia.
  - right. exists p, t. split_and!; try done. intros q tq Hq Haq.
    apply timer_before_timeout. eapply Hmin; done.
Qed.

(** C38. [uv__run_timers] returns, and then no timer is due, if the clock is not at
    its end and every callback leaves the loop in order and arms no timer that
    is due at once. *)
Theorem uv__run_timers_returns run_cb k fuel (L : loop) : callback_ok run_cb k -> reachable k L ->
  time L < UINT64_MAX -> (size (due L) < fuel)%nat ->
  exists L', uv__run_timers run_cb fuel L = (Some tt, L') /\ inv k L' /\
    forall p t, handles L' !! p = Some t -> uv__is_active t = true -> time L < timeout t.
Proof.
  intros Hcb HR Hn Hf. destruct (run_timers_ok run_cb k Hcb fuel L (reachable_inv _ _ HR) Hn Hf) as (L' & E & HI & Ht & Hd).
  exists L'. split_and!; [done..|]. intros p t Hp Ha.
  destruct (Z.lt_ge_cases (time L) (timeout t)); [done|].
  assert (p ∈ due L'); [|set_solver]. apply elem_of_handle_set. exists t. split; [done|].
  unfold is_due. rewrite Ha, Ht. apply Z.leb_le. done.
Qed.

(** ** The order of the callbacks *)

(** A callback that only changes the state of the program. *)
Definition data_cb (eff : Z -> positive -> W -> W) : Z -> positive -> M loop unit := fun cb p L =>
  (Some tt, Loop (time L) (timer_counter L) (timer_heap L) (active_handles L) (handle_queue L)
     (closing_handles L) (handles L) (eff cb p (data L))).

(** The order of expiry and, for equal expiry, of the starts. *)
Definition fires_before (a b : uv_timer) : Prop :=
  timeout a < timeout b \/ timeout a = timeout b /\ start_id a <= start_id b.

Lemma timer_before_fires a b : timer_before b a = false -> fires_before a b.
Proof. unfold timer_before, fires_before. decide_cmp; try done; intros; lia. Qed.

(** The callback number of a timer of [hs]. *)
Definition cb_of (hs : gmap positive uv_timer) (p : positive) : Z := default 0 (timer_cb (timer_at hs p)).
(** What running the timers [ps] in turn does to the state of the program. *)
Definition run_all (eff : Z -> positive -> W -> W) hs (ps : list positive) (w : W) : W :=
  fold_left (fun w p => eff (cb_of hs p) p w) ps w.

(** A timer after it has run at the time [now]. *)
Definition after_run (now : Z) (t t' : uv_timer) : Prop :=
  if repeat_ms t =? 0 then uv__is_active t' = false
  else uv__is_active t' = true /\ timeout t' = Z.min (now + repeat_ms t) UINT64_MAX /\
       timer_cb t' = timer_cb t /\ repeat_ms t' = repeat_ms t.

Lemma data_cb_inv k (L : loop) eff cb p : inv k L ->
  exists L', data_cb eff cb p L = (Some tt, L') /\ inv k L' /\ handles L' = handles L /\ time L' = time L /\
    data L' = eff cb p (data L).
Proof.
  intros [[] ? ? ?]. eexists. split; [reflexivity|]. split; [split; [split; done|done..]|done].
Qed.

Lemma after_run_ok k (L : loop) p t : inv k L -> handles L !! p = Some t ->
  after_run (time L) t (rearmed L (stopped t)).
Proof.
  intros HI Hp. destruct (stopped_ok t (inv_timers _ _ HI p t Hp)) as (_ & Ha & _).
  assert (repeat_ms (stopped t) = repeat_ms t /\ timer_cb (stopped t) = timer_cb t) as [Er Ec]
    by (unfold stopped; destruct (uv__is_active t); done).
  unfold after_run, rearmed. rewrite Er, Ec. destruct (repeat_ms t =? 0); [done|]. cbn [negb].
  split_and!; try done. unfold started. flagsimp.
Qed.

Lemma run_timers_order_aux eff k hs0 : forall fuel (L : loop), inv k L -> time L < UINT64_MAX ->
  (size (due L) < fuel)%nat -> (forall p, p ∈ due L -> handles L !! p = hs0 !! p) ->
  exists L' ps, uv__run_timers (data_cb eff) fuel L = (Some tt, L') /\
    ps ≡ₚ elements (due L) /\
    StronglySorted (fun a b => fires_before (timer_at hs0 a) (timer_at hs0 b)) ps /\
    data L' = run_all eff hs0 ps (data L) /\
    (forall p, p ∉ due L -> handles L' !! p = handles L !! p) /\
    (forall p t, p ∈ due L -> handles L !! p = Some t ->
       exists t', handles L' !! p = Some t' /\ after_run (time L) t t').
Proof.
  induction fuel as [|fuel IH]; intros L HI Hn Hf Hsame; [lia|].
  destruct (run_timers_step (data_cb eff) k L fuel HI Hn) as
    [[HD E]|(p & t & cb & L2 & Hp & Hd & Hmin & Hcb & HI2 & Hh2 & (Ft & _ & _ & Fd) & Hdue & E)].
  { exists L, []. rewrite HD, elements_empty. split_and!; try done. constructor. }
  assert (p ∈ due L) as Hpd by (apply elem_of_handle_set; eauto).
  destruct (data_cb_inv k L2 eff cb p HI2) as (L3 & E3 & HI3 & Hh3 & Ht3 & Hd3).
  assert (due L3 = due L ∖ {[p]}) as Hdue3 by (rewrite <- Hdue; unfold due; rewrite Hh3, Ht3; done).
  pose proof (size_sub _ _ Hpd) as Hsz.
  assert (Hother : forall q, q <> p -> handles L3 !! q = handles L !! q)
    by (intros q Hq; rewrite Hh3, Hh2, lookup_insert_ne by done; done).
  destruct (IH L3) as (L4 & ps & E4 & P4 & S4 & D4 & N4 & A4); [done|lia|rewrite Hdue3; lia| |].
  { intros q Hq. rewrite Hdue3 in Hq. rewrite Hother by set_solver. apply Hsame. set_solver. }
  exists L4, (p :: ps). split_and!.
  - rewrite E. erewrite bind_ok by exact E3. exact E4.
  - rewrite P4, Hdue3, <- elements_union_singleton by set_solver. rewrite <- union_difference_singleton_L by done. done.
  - constructor; [done|]. apply Forall_forall. intros q Hq. rewrite P4, Hdue3 in Hq.
    assert (q ∈ due L) as (tq & Hqt & [Haq _]%andb_prop)%elem_of_handle_set by set_solver.
    apply timer_before_fires. unfold timer_at. rewrite <- !Hsame, Hp, Hqt by set_solver. eapply Hmin; done.
  - assert (cb_of hs0 p = cb) as Hc by (unfold cb_of, timer_at; rewrite <- Hsame, Hp by done; cbn; rewrite Hcb; done).
    rewrite D4, Hd3, Fd. unfold run_all. cbn [fold_left]. rewrite Hc. done.
  - intros q Hq. assert (q <> p) by set_solver. rewrite N4 by (rewrite Hdue3; set_solver). apply Hother. done.
  - intros q tq Hq Hqt. destruct (decide (q = p)) as [->|Hne].
    + simplify_eq. exists (rearmed L (stopped t)). split; [|eapply after_run_ok; done].
      rewrite N4 by (rewrite Hdue3; set_solver). rewrite Hh3, Hh2. apply lookup_insert_eq.
    + destruct (A4 q tq) as (t' & Ht' & Ha'); [rewrite Hdue3; set_solver|rewrite Hother; done|].
      exists t'. split; [done|]. rewrite Ht3, Ft in Ha'. done.
Qed.

(** C9. [uv__run_timers] runs the callback of every due timer exactly once, and of
    no other timer, in the order of expiry and, for equal expiry, of the starts.
    A timer without repeat is inactive afterwards, one with a repeat is armed
    for [time + repeat], and the timers that were not due are as before. (The
    callbacks here only change the state of the program.) *)
Theorem uv__run_timers_order eff k fuel (L : loop) : reachable k L -> time L < UINT64_MAX ->
  (size (due L) < fuel)%nat ->
  exists L' ps, uv__run_timers (data_cb eff) fuel L = (Some tt, L') /\
    ps ≡ₚ elements (due L) /\
    StronglySorted (fun a b => fires_before (timer_at (handles L) a) (timer_at (handles L) b)) ps /\
    data L' = run_all eff (handles L) ps (data L) /\
    (forall p, p ∉ due L -> handles L' !! p = handles L !! p) /\
    (forall p t, p ∈ due L -> handles L !! p = Some t ->
       exists t', handles L' !! p = Some t' /\ after_run (time L) t t').
Proof.
  intros HR Hn Hf. apply (run_timers_order_aux eff k (handles L) fuel L (reachable_inv _ _ HR) Hn Hf). done.
Qed.
End invariant.
