(* ===== verification/TimerHeap.v ===== *)
(** * The timers over the binary heap: a concrete loop.

    [Timer.v] is proved against the interface of the queue, [Heap.v] implements
    it. Here the two are put together, and the theorems of [Timer.v] are applied
    to loops that a sequence of calls leads to. *)

From S2P Require Import Prelude PQueue Heap Timer.
From Stdlib Require Import Sorted.

(** The calls that the caller may make are decidable, so that a program of calls
    can be run and checked. *)
#[export] Instance is_u64_dec x : Decision (is_u64 x).
Proof. unfold is_u64. apply _. Defined.

#[export] Instance call_legal_dec {Q W : Type} `{!PQueue Q} (L : uv_loop Q W) c : Decision (call_legal L c).
Proof.
  destruct c; cbn; try apply _.
  destruct (handles L !! p) as [t|] eqn:E.
  - destruct (uv__is_closing t) eqn:Ht; [right; intros (? & ? & ?); congruence|left; eauto].
  - right. intros (? & ? & _). congruence.
Defined.

Section program.
Context {Q W : Type} `{!PQueue Q}.

Fixpoint run_program (cs : list call) (L : uv_loop Q W) : option (uv_loop Q W) :=
  match cs with
  | [] => Some L
  | c :: cs' =>
      if decide (call_legal L c) then
        match run_call c L with
        | (Some _, L') => run_program cs' L'
        | (None, _) => None
        end
      else None
  end.

Lemma run_program_reachable k cs : forall L L', reachable k L -> run_program cs L = Some L' -> reachable k L'.
Proof.
  induction cs as [|c cs IH]; intros L L' HR; cbn [run_program]; [intros [= <-]; done|].
  case_decide as HL; [|done]. destruct (run_call c L) as [[[]|] L1] eqn:E; [|done].
  apply IH. eapply reach_call; done.
Qed.

(** A legal program never gets stuck. *)
Lemma run_program_total k cs : forall L, reachable k L ->
  (exists L', run_program cs L = Some L') \/
  (exists cs1 c cs2 L1, cs = cs1 ++ c :: cs2 /\ run_program cs1 L = Some L1 /\ ~ call_legal L1 c).
Proof.
  induction cs as [|c cs IH]; intros L HR; cbn [run_program]; [left; eauto|].
  case_decide as HL.
  - destruct (run_call_inv k L c (reachable_inv _ _ HR) HL) as (L1 & E & _). rewrite E.
    destruct (IH L1) as [?|(cs1 & c' & cs2 & L2 & -> & E2 & HN)]; [eapply reach_call; done|left; done|].
    right. exists (c :: cs1), c', cs2, L2. split_and!; [done| |done]. cbn. rewrite decide_True by done. rewrite E. done.
  - right. exists [], c, cs, L. done.
Qed.
End program.

(** A loop whose program keeps the list of the timers that fired. *)
Definition log_eff (cb : Z) (p : positive) (w : list positive) : list positive := w ++ [p].
Definition fresh_loop : uv_loop heap (list positive) := Loop 0 0 (Heap None 0 ∅) 0 [] [] ∅ [].

(** Timers 1 and 3 are armed for 10 ms, timer 2 for 5 ms with a repeat of 3 ms,
    timer 4 for 20 ms; then 12 ms pass. *)
Definition calls : list call :=
  [CInit 1%positive; CInit 2%positive; CInit 3%positive; CInit 4%positive;
   CStart 3%positive (Some 9) 10 0; CStart 2%positive (Some 8) 5 3;
   CStart 1%positive (Some 7) 10 0; CStart 4%positive (Some 7) 20 0; CUnref 4%positive; CTick 12].
Definition loop_12 : uv_loop heap (list positive) :=
  default fresh_loop (run_program calls (snd (uv_loop_init 0 fresh_loop))).

Lemma loop_12_reachable : reachable 0 loop_12.
Proof.
  eapply (run_program_reachable 0 calls (snd (uv_loop_init 0 fresh_loop))); [|vm_compute; done].
  eapply (reach_init fresh_loop _ 0); [done|vm_compute; done].
Qed.

Lemma timer_api_safe_witness : exists L', run_call (CStop 3) loop_12 = (Some tt, L') /\
  active_handles L' = 2.
Proof.
  destruct (timer_api_safe 0 loop_12 (CStop 3) loop_12_reachable) as (L' & E & _ & _ & _ & HA).
  { vm_compute. eauto. }
  exists L'. split; [exact E|]. vm_compute in E. injection E as <-. done.
Defined.

Lemma uv_timer_start_spec_witness : exists t L' t', handles loop_12 !! 4%positive = Some t /\
  uv_timer_start 4 (Some 5) (2 ^ 64 - 2) 1 loop_12 = (Some 0, L') /\ handles L' !! 4%positive = Some t' /\
  timeout t' = UINT64_MAX.
Proof.
  assert (Ht : handles loop_12 !! 4%positive = Some (Timer 4 (Some 7) None 20 0 3)) by (vm_compute; done).
  set (t := Timer 4 (Some 7) None 20 0 3) in *.
  pose proof (uv_timer_start_spec 0 loop_12 4%positive t (Some 5) (2 ^ 64 - 2) 1 loop_12_reachable Ht
    ltac:(unfold is_u64; lia) ltac:(unfold is_u64; lia)) as H.
  change (uv__is_closing t || bool_decide (Some 5 = None)) with false in H.
  destruct H as (L' & t' & E & Hh & _ & _ & _ & HT & _).
  exists t, L', t'. split_and!; [exact Ht|exact E|rewrite Hh; apply lookup_insert_eq|].
  rewrite HT. vm_compute. reflexivity.
Defined.

Lemma uv__next_timeout_spec_witness : exists r, uv__next_timeout loop_12 = (Some r, loop_12) /\ r = 0.
Proof.
  destruct (uv__next_timeout_spec 0 loop_12 loop_12_reachable) as (r & E & _).
  exists r. split; [exact E|]. vm_compute in E. injection E as <-. done.
Defined.

Lemma log_callback_ok : callback_ok (Q := heap) (data_cb log_eff) 0.
Proof.
  intros cb p L HI _. destruct (data_cb_inv 0 L log_eff cb p HI) as (L' & E & HI' & Hh & Ht & _).
  exists L'. split_and!; try done. unfold due. rewrite Hh, Ht. done.
Qed.

Lemma uv__run_timers_returns_witness : exists L', uv__run_timers (data_cb log_eff) 4 loop_12 = (Some tt, L') /\
  inv 0 L'.
Proof.
  destruct (uv__run_timers_returns (data_cb log_eff) 0 4 loop_12 log_callback_ok loop_12_reachable) as (L' & E & HI & _).
  - reflexivity.
  - vm_compute. lia.
  - eauto.
Defined.

(** Timer 2 fires first, then 3 and 1 in the order of their starts. *)
Lemma uv__run_timers_order_witness : exists L' ps, uv__run_timers (data_cb log_eff) 4 loop_12 = (Some tt, L') /\
  data L' = [2; 3; 1]%positive /\ data L' = run_all log_eff (handles loop_12) ps [] /\ ps ≡ₚ elements (due loop_12).
Proof.
  destruct (uv__run_timers_order log_eff 0 4 loop_12 loop_12_reachable) as (L' & ps & E & P & _ & D & _).
  - reflexivity.
  - vm_compute. lia.
  - exists L', ps. split_and!; [exact E| |exact D|exact P]. vm_compute in E. injection E as <- . done.
Defined.
