(* ===== verification/PbMem.v ===== *)
(** * The memory that nanopb messages live in.

    A finite map from addresses to bytes, little endian, with 8-byte pointers.
    A load or a store that touches an address that is not mapped has no result.
    [within lo hi] relates two memories that differ only in [lo, hi): what a
    decoder of a struct may do. *)

From S2P Require Import Prelude.

Abbreviation mem := (gmap Z Z).

Fixpoint load (m : mem) (a : Z) (n : nat) : option (list Z) :=
  match n with
  | O => Some []
  | S n' => b ← m !! a; l ← load m (a + 1) n'; Some (b :: l)
  end.
Fixpoint store (m : mem) (a : Z) (l : list Z) : option mem :=
  match l with
  | [] => Some m
  | b :: l' => match m !! a with Some _ => store (<[a := b]> m) (a + 1) l' | None => None end
  end.

Definition load_u32 (m : mem) (a : Z) : option Z := le_val <$> load m a 4.
Definition load_ptr (m : mem) (a : Z) : option Z := le_val <$> load m a 8.
Definition store_u32 (m : mem) (a v : Z) : option mem := store m a (le_bytes 4 v).
Definition store_ptr (m : mem) (a v : Z) : option mem := store m a (le_bytes 8 v).

(** Every address of [lo, hi) is mapped, to a byte. *)
Definition mapped (m : mem) (lo hi : Z) : Prop := forall a, lo <= a < hi -> exists b, m !! a = Some b /\ is_byte b.

Definition within (lo hi : Z) (m m' : mem) : Prop :=
  forall a, (a < lo \/ hi <= a -> m' !! a = m !! a) /\
            (lo <= a < hi -> (exists b, m !! a = Some b /\ is_byte b) -> exists b, m' !! a = Some b /\ is_byte b).

#[export] Instance within_refl lo hi : Reflexive (within lo hi).
Proof. intros m a. split; auto. Qed.
#[export] Instance within_trans lo hi : Transitive (within lo hi).
Proof.
  intros m1 m2 m3 H1 H2 a. destruct (H1 a) as [O1 I1], (H2 a) as [O2 I2]. split.
  - intros Ha. rewrite O2, O1; done.
  - intros Ha Hb. apply I2; [done|]. apply I1; done.
Qed.

Lemma within_mono lo hi lo' hi' m m' : within lo hi m m' -> lo' <= lo -> hi <= hi' -> within lo' hi' m m'.
Proof.
  intros H Hl Hh a. destruct (H a) as [HO HI]. split; [intros Ha; apply HO; lia|].
  intros Ha Hb. destruct (decide (lo <= a < hi)); [auto|]. rewrite HO by lia. done.
Qed.

Lemma within_mapped lo hi m m' l h : within lo hi m m' -> mapped m l h -> mapped m' l h.
Proof.
  intros H Hm a Ha. destruct (H a) as [HO HI]. destruct (decide (lo <= a < hi)); [auto|].
  rewrite HO by lia. auto.
Qed.

Lemma mapped_mono m lo hi lo' hi' : mapped m lo hi -> lo <= lo' -> hi' <= hi -> mapped m lo' hi'.
Proof. intros H Hl Hh a Ha. apply H. lia. Qed.

Lemma load_ok m a n : mapped m a (a + Z.of_nat n) -> exists l, load m a n = Some l /\ zlen l = Z.of_nat n /\ bytes_ok l.
Proof.
  revert a. induction n as [|n IH]; intros a Hm; cbn [load].
  - exists []. done.
  - destruct (Hm a) as (b & -> & Hb); [lia|]. destruct (IH (a + 1)) as (l & -> & Hl & Hok).
    { apply (mapped_mono _ _ _ _ _ Hm); lia. }
    exists (b :: l). cbn. rewrite zlen_cons. split_and!; [done|lia|by constructor].
Qed.

Lemma store_ok l : forall m a, mapped m a (a + zlen l) -> bytes_ok l ->
  exists m', store m a l = Some m' /\ within a (a + zlen l) m m'.
Proof.
  induction l as [|b l IH]; intros m a Hm Hb; cbn [store].
  - exists m. done.
  - rewrite zlen_cons in *. pose proof (zlen_nonneg l). apply Forall_cons in Hb as [Hb Hl].
    destruct (Hm a) as (b0 & -> & _); [lia|].
    assert (W : within a (a + (1 + zlen l)) m (<[a:=b]> m)).
    { intros x. split; intros Hx; [rewrite lookup_insert_ne by lia; done|]. intros Hbx.
      destruct (decide (x = a)) as [->|]; [rewrite lookup_insert_eq; eauto|rewrite lookup_insert_ne by done; done]. }
    destruct (IH (<[a:=b]> m) (a + 1)) as (m' & -> & W'); [|done|].
    { apply (mapped_mono _ a (a + (1 + zlen l))); [|lia..]. apply (within_mapped _ _ _ _ _ _ W). done. }
    exists m'. split; [done|]. etransitivity; [exact W|]. apply (within_mono _ _ _ _ _ _ W'); lia.
Qed.

(** A memory that holds [l] from address [a] on. *)
Fixpoint mem_of (a : Z) (l : list Z) : mem :=
  match l with
  | [] => ∅
  | b :: l' => <[a := b]> (mem_of (a + 1) l')
  end.

Definition mem_ok (m : mem) : Prop := map_Forall (fun _ b => is_byte b) m.

Lemma mem_of_ok a l : bytes_ok l -> mem_ok (mem_of a l).
Proof.
  revert a. induction l as [|b l IH]; intros a H; cbn [mem_of]; [apply map_Forall_empty|].
  apply Forall_cons in H as [Hb Hl]. apply map_Forall_insert_2; [done|]. apply IH. done.
Qed.
Lemma mem_union_ok m1 m2 : mem_ok m1 -> mem_ok m2 -> mem_ok (m1 ∪ m2).
Proof.
  intros H1 H2 a b H. apply lookup_union_Some_raw in H as [H|[_ H]]; [by apply (H1 a)|by apply (H2 a)].
Qed.

Lemma mapped_mem_of a l : bytes_ok l -> mapped (mem_of a l) a (a + zlen l).
Proof.
  revert a. induction l as [|b l IH]; intros a Hl x Hx; [rewrite zlen_nil in Hx; lia|]. rewrite zlen_cons in Hx. apply Forall_cons in Hl as [Hb Hl]. cbn [mem_of].
  destruct (decide (x = a)) as [->|]; [rewrite lookup_insert_eq; eauto|]. rewrite lookup_insert_ne by done. apply IH; [done|lia].
Qed.
