(* ===== verification/PbStream.v ===== *)
(** * nanopb streams and wire values: the stream half of pb_encode.c and
    pb_decode.c, and the scalar field encoders and decoders.

    A stream's callback and its state are one value: NULL (a stream that only
    counts), the library's buffer functions, or a user's function with its own
    state. The value of a C variable in memory is its list of bytes (little
    endian); a decoder returns the bytes it stores in [*dest]. *)

From stdpp Require Import strings.
From S2P Require Import Prelude.

(** ** Constants (pb.h) *)

Definition PB_LTYPE_BOOL : Z := 0x00.
Definition PB_LTYPE_VARINT : Z := 0x01.
Definition PB_LTYPE_UVARINT : Z := 0x02.
Definition PB_LTYPE_SVARINT : Z := 0x03.
Definition PB_LTYPE_FIXED32 : Z := 0x04.
Definition PB_LTYPE_FIXED64 : Z := 0x05.
Definition PB_LTYPE_BYTES : Z := 0x06.
Definition PB_LTYPE_STRING : Z := 0x07.
Definition PB_LTYPE_SUBMESSAGE : Z := 0x08.
Definition PB_LTYPE_FIXED_LENGTH_BYTES : Z := 0x0A.
Definition PB_LTYPE_MASK : Z := 0x0F.
Definition PB_WT_VARINT : Z := 0.
Definition PB_WT_64BIT : Z := 1.
Definition PB_WT_STRING : Z := 2.
Definition PB_WT_32BIT : Z := 5.
Definition PB_LTYPE_LAST_PACKABLE : Z := 0x05.
Definition PB_LTYPE_EXTENSION : Z := 0x09.
Definition PB_HTYPE_REQUIRED : Z := 0x00.
Definition PB_HTYPE_OPTIONAL : Z := 0x10.
Definition PB_HTYPE_REPEATED : Z := 0x20.
Definition PB_HTYPE_ONEOF : Z := 0x30.
Definition PB_HTYPE_MASK : Z := 0x30.
Definition PB_ATYPE_STATIC : Z := 0x00.
Definition PB_ATYPE_POINTER : Z := 0x80.
Definition PB_ATYPE_CALLBACK : Z := 0x40.
Definition PB_ATYPE_MASK : Z := 0xC0.
Definition PB_ATYPE (x : Z) : Z := Z.land x PB_ATYPE_MASK.
Definition PB_HTYPE (x : Z) : Z := Z.land x PB_HTYPE_MASK.
Definition PB_LTYPE (x : Z) : Z := Z.land x PB_LTYPE_MASK.
(** The pod is built with PB_FIELD_32BIT. *)
Definition PB_SIZE_MAX : Z := 2 ^ 32 - 1.

(** [pb_field_s]; [f_ptr] is an address, 0 for NULL. *)
Record pb_field := PbField {
  f_tag : Z; f_type : Z; f_data_offset : Z; f_size_offset : Z; f_data_size : Z; f_array_size : Z; f_ptr : Z }.
Definition PB_LAST_FIELD : pb_field := PbField 0 0 0 0 0 0 0.

Section nanopb.
Context {U : Type}.
(** A user's stream callbacks: the bytes given, or the number of bytes asked. *)
Context (user_write : U -> list Z -> bool * U) (user_read : U -> Z -> option (list Z) * U).

(** ** Output streams *)

Inductive ocallback := ONull | OBuf (mem : list Z) (pos : Z) | OUser (u : U).

Record pb_ostream := OStream {
  os_callback : ocallback; max_size : Z; bytes_written : Z; os_errmsg : option string }.

(** [PB_RETURN_ERROR]: the first message is kept. *)
Definition os_error {A} (msg : string) : M pb_ostream A := fun s =>
  (None, OStream (os_callback s) (max_size s) (bytes_written s)
           (match os_errmsg s with Some m => Some m | None => Some msg end)).

Definition PB_OSTREAM_SIZING : pb_ostream := OStream ONull 0 0 None.

Definition pb_ostream_from_buffer (mem : list Z) (bufsize : Z) : pb_ostream :=
  OStream (OBuf mem 0) bufsize 0 None.

Definition buf_write (mem : list Z) (pos : Z) (buf : list Z) : ocallback :=
  OBuf (zwrite pos buf mem) (pos + zlen buf).

(** [stream->callback(stream, buf, count)]. *)
Definition call_write (cb : ocallback) (buf : list Z) : bool * ocallback :=
  match cb with
  | ONull => (true, ONull)
  | OBuf mem pos => (true, buf_write mem pos buf)
  | OUser u => let '(r, u) := user_write u buf in (r, OUser u)
  end.

Definition is_null (cb : ocallback) : bool := match cb with ONull => true | _ => false end.

(** [buf] is NULL only on streams that count. *)
Definition pb_write (buf : list Z) (count : Z) : M pb_ostream unit := fun s =>
  if (count >? 0) && negb (is_null (os_callback s)) then
    if (size_t (bytes_written s + count) <? bytes_written s) ||
       (size_t (bytes_written s + count) >? max_size s) then os_error "stream full" s
    else
      let '(r, cb) := call_write (os_callback s) (ztake count buf) in
      let s := OStream cb (max_size s) (bytes_written s) (os_errmsg s) in
      if negb r then os_error "io error" s
      else (Some tt, OStream cb (max_size s) (size_t (bytes_written s + count)) (os_errmsg s))
  else (Some tt, OStream (os_callback s) (max_size s) (size_t (bytes_written s + count)) (os_errmsg s)).

(** [while (value) { buffer[i] = (value & 0x7F) | 0x80; value >>= 7; i++; }];
    ten iterations suffice. *)
Fixpoint varint_loop (n : nat) (value : Z) : list Z :=
  match n with
  | O => []
  | S n' =>
      if value =? 0 then []
      else u8 (Z.lor (Z.land value 0x7F) 0x80) :: varint_loop n' (Z.shiftr value 7)
  end.

(** [buffer[i-1] &= 0x7F]. *)
Fixpoint clear_last (l : list Z) : list Z :=
  match l with
  | [] => []
  | [b] => [Z.land b 0x7F]
  | b :: l' => b :: clear_last l'
  end.

Definition pb_encode_varint (value : Z) : M pb_ostream unit :=
  if value <=? 0x7F then pb_write [u8 value] 1
  else
    let buffer := clear_last (varint_loop 10 value) in
    pb_write buffer (zlen buffer).

Definition zigzag (value : Z) : Z :=
  if value <? 0 then u64 (Z.lnot (u64 (Z.shiftl (u64 value) 1))) else u64 (Z.shiftl (u64 value) 1).

Definition pb_encode_svarint (value : Z) : M pb_ostream unit := pb_encode_varint (zigzag value).

Definition pb_encode_fixed32 (value : list Z) : M pb_ostream unit :=
  let val := le_val (ztake 4 value) in
  pb_write ((fun i => u8 (Z.land (Z.shiftr val (8 * i)) 0xFF)) <$> zseq 4) 4.

Definition pb_encode_fixed64 (value : list Z) : M pb_ostream unit :=
  let val := le_val (ztake 8 value) in
  pb_write ((fun i => u8 (Z.land (Z.shiftr val (8 * i)) 0xFF)) <$> zseq 8) 8.

Definition pb_encode_tag (wiretype field_number : Z) : M pb_ostream unit :=
  pb_encode_varint (Z.lor (u64 (Z.shiftl field_number 3)) wiretype).

(** The wire type of a field type. *)
Definition wire_type_of (ltype : Z) : option Z :=
  if (ltype =? PB_LTYPE_BOOL) || (ltype =? PB_LTYPE_VARINT) || (ltype =? PB_LTYPE_UVARINT) ||
     (ltype =? PB_LTYPE_SVARINT) then Some PB_WT_VARINT
  else if ltype =? PB_LTYPE_FIXED32 then Some PB_WT_32BIT
  else if ltype =? PB_LTYPE_FIXED64 then Some PB_WT_64BIT
  else if (ltype =? PB_LTYPE_BYTES) || (ltype =? PB_LTYPE_STRING) || (ltype =? PB_LTYPE_SUBMESSAGE) ||
          (ltype =? PB_LTYPE_FIXED_LENGTH_BYTES) then Some PB_WT_STRING
  else None.

Definition pb_encode_tag_for_field (field : pb_field) : M pb_ostream unit :=
  match wire_type_of (PB_LTYPE (f_type field)) with
  | Some wiretype => pb_encode_tag wiretype (f_tag field)
  | None => os_error "invalid field type"
  end.

Definition pb_encode_string (buffer : list Z) (size : Z) : M pb_ostream unit :=
  pb_encode_varint size ;; pb_write buffer size.

(** *** Field encoders *)

Definition safe_read_bool (p : list Z) : bool := negb (znth p 0 =? 0).

Definition pb_enc_bool (field : pb_field) (src : list Z) : M pb_ostream unit :=
  pb_encode_varint (if safe_read_bool src then 1 else 0).

(** The signed integer of [data_size] bytes at [src]. *)
Definition read_int (size : Z) (src : list Z) : Z := signed (8 * size) (le_val (ztake size src)).
Definition read_uint (size : Z) (src : list Z) : Z := le_val (ztake size src).

Definition int_size (size : Z) : bool := (size =? 1) || (size =? 2) || (size =? 4) || (size =? 8).

Definition pb_enc_varint (field : pb_field) (src : list Z) : M pb_ostream unit :=
  if int_size (f_data_size field) then pb_encode_varint (u64 (read_int (f_data_size field) src))
  else os_error "invalid data_size".

Definition pb_enc_uvarint (field : pb_field) (src : list Z) : M pb_ostream unit :=
  if int_size (f_data_size field) then pb_encode_varint (read_uint (f_data_size field) src)
  else os_error "invalid data_size".

Definition pb_enc_svarint (field : pb_field) (src : list Z) : M pb_ostream unit :=
  if int_size (f_data_size field) then pb_encode_svarint (read_int (f_data_size field) src)
  else os_error "invalid data_size".

Definition pb_enc_fixed32 (field : pb_field) (src : list Z) : M pb_ostream unit := pb_encode_fixed32 src.

Definition pb_enc_fixed64 (field : pb_field) (src : list Z) : M pb_ostream unit := pb_encode_fixed64 src.

Definition pb_enc_fixed_length_bytes (field : pb_field) (src : list Z) : M pb_ostream unit :=
  pb_encode_string src (f_data_size field).

(** The scalar rows of [PB_ENCODERS]. *)
Definition PB_ENCODERS (ltype : Z) : option (pb_field -> list Z -> M pb_ostream unit) :=
  if ltype =? PB_LTYPE_BOOL then Some pb_enc_bool
  else if ltype =? PB_LTYPE_VARINT then Some pb_enc_varint
  else if ltype =? PB_LTYPE_UVARINT then Some pb_enc_uvarint
  else if ltype =? PB_LTYPE_SVARINT then Some pb_enc_svarint
  else if ltype =? PB_LTYPE_FIXED32 then Some pb_enc_fixed32
  else if ltype =? PB_LTYPE_FIXED64 then Some pb_enc_fixed64
  else None.

(** ** Input streams *)

(** [IBuf l]: the memory from the pointer in [state] on. *)
Inductive icallback := IBuf (mem : list Z) | IUser (u : U).

Record pb_istream := IStream {
  is_callback : icallback; bytes_left : Z; is_errmsg : option string }.

Definition is_error {A} (msg : string) : M pb_istream A := fun s =>
  (None, IStream (is_callback s) (bytes_left s)
           (match is_errmsg s with Some m => Some m | None => Some msg end)).

(** Setting the message without returning yet. *)
Definition is_report (msg : string) : M pb_istream unit := fun s =>
  let '(_, s) := is_error (A := unit) msg s in (Some tt, s).

Definition pb_istream_from_buffer (buf : list Z) (bufsize : Z) : pb_istream := IStream (IBuf buf) bufsize None.

Definition buf_read (mem : list Z) (count : Z) : list Z * icallback := (ztake count mem, IBuf (zdrop count mem)).

(** [stream->callback(stream, buf, count)]: the bytes stored in [buf]. *)
Definition call_read (cb : icallback) (count : Z) : option (list Z) * icallback :=
  match cb with
  | IBuf mem => let '(l, cb) := buf_read mem count in (Some l, cb)
  | IUser u => let '(r, u) := user_read u count in (r, IUser u)
  end.

(** The part of [pb_read] after the NULL buffer was dealt with. *)
Definition read_bytes (count : Z) : M pb_istream (list Z) := fun s =>
  if bytes_left s <? count then is_error "end-of-stream" s
  else
    let '(r, cb) := call_read (is_callback s) count in
    match r with
    | None => is_error "io error" (IStream cb (bytes_left s) (is_errmsg s))
    | Some l => (Some l, IStream cb (bytes_left s - count) (is_errmsg s))
    end.

(** The loop that skips the input of a user's callback, 16 bytes at a time. *)
Fixpoint skip_loop (n : nat) (count : Z) : M pb_istream unit :=
  if count >? 16 then
    match n with
    | O => fail
    | S n' => read_bytes 16 ;; skip_loop n' (count - 16)
    end
  else if count =? 0 then ret tt else read_bytes count ;; ret tt.

(** [null]: [buf == NULL]; the bytes read are then dropped. *)
Definition pb_read (null : bool) (count : Z) : M pb_istream (list Z) := fun s =>
  if count =? 0 then (Some [], s)
  else
    match is_callback s with
    | IUser _ => if null then (skip_loop (Z.to_nat count) count ;; ret []) s else read_bytes count s
    | IBuf _ => read_bytes count s
    end.

Definition pb_readbyte : M pb_istream Z := fun s =>
  if bytes_left s =? 0 then is_error "end-of-stream" s
  else
    let '(r, cb) := call_read (is_callback s) 1 in
    match r with
    | None => is_error "io error" (IStream cb (bytes_left s) (is_errmsg s))
    | Some l => (Some (znth l 0), IStream cb (bytes_left s - 1) (is_errmsg s))
    end.

(** The [do] loop of [pb_decode_varint32_eof]; [n] bounds the bytes it reads.
    [bitpos] is a [uint_fast8_t], 8 bits wide. It returns [result], [bitpos] and
    the last byte. *)
Fixpoint varint32_loop (n : nat) (result bitpos : Z) : M pb_istream (Z * Z * Z) :=
  match n with
  | O => fail
  | S n' =>
      let* byte := pb_readbyte in
      let* result :=
        if bitpos >=? 32 then
          let sign_extension := if bitpos <? 63 then 0xFF else 0x01 in
          if negb (Z.land byte 0x7F =? 0) &&
             ((Z.shiftr result 31 =? 0) || negb (byte =? sign_extension))
          then is_error "varint overflow"
          else ret result
        else ret (Z.lor result (u32 (Z.shiftl (Z.land byte 0x7F) bitpos))) in
      let bitpos := u8 (bitpos + 7) in
      if Z.land byte 0x80 =? 0 then ret (result, bitpos, byte) else varint32_loop n' result bitpos
  end.

(** On failure the second component of the state is [*eof], when it was set. *)
Definition pb_decode_varint32_eof : pb_istream -> option Z * bool * pb_istream := fun s =>
  match pb_readbyte s with
  | (None, s') => (None, bytes_left s' =? 0, s')
  | (Some byte, s') =>
      if Z.land byte 0x80 =? 0 then (Some byte, false, s')
      else
        match varint32_loop (S (Z.to_nat (bytes_left s'))) (Z.land byte 0x7F) 7 s' with
        | (None, s'') => (None, false, s'')
        | (Some (result, bitpos, byte), s'') =>
            if (bitpos =? 35) && negb (Z.land byte 0x70 =? 0)
            then let '(_, s''') := is_error (A := Z) "varint overflow" s'' in (None, false, s''')
            else (Some result, false, s'')
        end
  end.

Definition pb_decode_varint32 : M pb_istream Z := fun s =>
  let '(r, _, s') := pb_decode_varint32_eof s in (r, s').

(** At most ten bytes are read: the eleventh iteration has [bitpos >= 64]. *)
Fixpoint decode_varint_loop (n : nat) (result bitpos : Z) : M pb_istream Z :=
  match n with
  | O => fail
  | S n' =>
      if bitpos >=? 64 then is_error "varint overflow"
      else
        let* byte := pb_readbyte in
        let result := Z.lor result (u64 (Z.shiftl (Z.land byte 0x7F) bitpos)) in
        let bitpos := u8 (bitpos + 7) in
        if Z.land byte 0x80 =? 0 then ret result else decode_varint_loop n' result bitpos
  end.
Definition pb_decode_varint : M pb_istream Z := decode_varint_loop 11 0 0.

Fixpoint skip_varint_loop (n : nat) : M pb_istream unit :=
  match n with
  | O => fail
  | S n' =>
      let* byte := pb_read false 1 in
      if Z.land (znth byte 0) 0x80 =? 0 then ret tt else skip_varint_loop n'
  end.
Definition pb_skip_varint : M pb_istream unit := fun s => skip_varint_loop (S (Z.to_nat (bytes_left s))) s.

Definition pb_skip_string : M pb_istream unit :=
  let* length := pb_decode_varint32 in
  pb_read true length ;; ret tt.

(** [*wire_type], [*tag] on success; [*eof] otherwise. *)
Definition pb_decode_tag : pb_istream -> option (Z * Z) * bool * pb_istream := fun s =>
  match pb_decode_varint32_eof s with
  | (None, eof, s') => (None, eof, s')
  | (Some temp, _, s') =>
      if temp =? 0 then (None, true, s')
      else (Some (Z.land temp 7, Z.shiftr temp 3), false, s')
  end.

Definition pb_skip_field (wire_type : Z) : M pb_istream unit :=
  if wire_type =? PB_WT_VARINT then pb_skip_varint
  else if wire_type =? PB_WT_64BIT then pb_read true 8 ;; ret tt
  else if wire_type =? PB_WT_STRING then pb_skip_string
  else if wire_type =? PB_WT_32BIT then pb_read true 4 ;; ret tt
  else is_error "invalid wire_type".

(** The varint case of [read_raw_value]; [room] is what is left of [*size]. *)
Fixpoint read_raw_varint (room : nat) : M pb_istream (list Z) :=
  match room with
  | O => fail
  | S room' =>
      let* l := pb_read false 1 in
      let byte := znth l 0 in
      if Z.land byte 0x80 =? 0 then ret [byte]
      else let* rest := read_raw_varint room' in ret (byte :: rest)
  end.

(** The raw bytes; their number is the new [*size]. *)
Definition read_raw_value (wire_type max_size : Z) : M pb_istream (list Z) :=
  if wire_type =? PB_WT_VARINT then read_raw_varint (Z.to_nat max_size)
  else if wire_type =? PB_WT_64BIT then pb_read false 8
  else if wire_type =? PB_WT_32BIT then pb_read false 4
  else is_error "invalid wire_type".

(** The substream of a length-delimited value. *)
Definition pb_make_string_substream : M pb_istream pb_istream :=
  let* size := pb_decode_varint32 in
  let* substream := getst in
  if bytes_left substream <? size then is_error "parent stream too short"
  else
    putst (IStream (is_callback substream) (bytes_left substream - size) (is_errmsg substream)) ;;
    ret (IStream (is_callback substream) size (is_errmsg substream)).

(** The rest of the substream is skipped and its state goes back to the stream. *)
Definition pb_close_string_substream (substream : pb_istream) : M pb_istream unit :=
  let* '(_, substream) :=
    if negb (bytes_left substream =? 0) then on substream (pb_read true (bytes_left substream))
    else ret ([], substream) in
  let* s := getst in
  putst (IStream (is_callback substream) (bytes_left s) (is_errmsg substream)).

(** *** Field decoders: the bytes stored in [*dest], and the value returned

    A value that is too large is stored, truncated, before the error. *)

Definition pb_decode_svarint : M pb_istream Z :=
  let* value := pb_decode_varint in
  ret (if negb (Z.land value 1 =? 0) then s64 (u64 (Z.lnot (Z.shiftr value 1))) else s64 (Z.shiftr value 1)).

Definition pb_decode_fixed32 : M pb_istream (list Z) :=
  let* bytes := pb_read false 4 in
  ret (le_bytes 4 (Z.lor (Z.lor (Z.lor (Z.shiftl (znth bytes 0) 0) (Z.shiftl (znth bytes 1) 8))
                     (Z.shiftl (znth bytes 2) 16)) (Z.shiftl (znth bytes 3) 24))).

Definition pb_decode_fixed64 : M pb_istream (list Z) :=
  let* bytes := pb_read false 8 in
  ret (le_bytes 8 (fold_left (fun r i => Z.lor r (Z.shiftl (znth bytes i) (8 * i))) (zseq 8) 0)).

(** [clamped]: what was stored; [value]: what was decoded. *)
Definition check_clamped (clamped value : Z) (bytes : list Z) : M pb_istream (list Z * bool) :=
  if negb (clamped =? value) then is_report "integer too large" ;; ret (bytes, false) else ret (bytes, true).

Definition pb_dec_bool (field : pb_field) : M pb_istream (list Z * bool) :=
  let* value := pb_decode_varint32 in ret ([if negb (value =? 0) then 1 else 0], true).

Definition pb_decode_bool : M pb_istream (list Z * bool) := pb_dec_bool PB_LAST_FIELD.

Definition pb_dec_varint (field : pb_field) : M pb_istream (list Z * bool) :=
  let* value := pb_decode_varint in
  let size := f_data_size field in
  let svalue := if size =? 8 then s64 value else s32 value in
  if int_size size then
    let clamped := signed (8 * size) svalue in
    check_clamped clamped svalue (le_bytes (Z.to_nat size) svalue)
  else is_error "invalid data_size".

Definition pb_dec_uvarint (field : pb_field) : M pb_istream (list Z * bool) :=
  let* value := pb_decode_varint in
  let size := f_data_size field in
  if int_size size then
    let clamped := value mod 2 ^ (8 * size) in
    check_clamped clamped value (le_bytes (Z.to_nat size) value)
  else is_error "invalid data_size".

Definition pb_dec_svarint (field : pb_field) : M pb_istream (list Z * bool) :=
  let* value := pb_decode_svarint in
  let size := f_data_size field in
  if int_size size then
    let clamped := signed (8 * size) value in
    check_clamped clamped value (le_bytes (Z.to_nat size) value)
  else is_error "invalid data_size".

Definition pb_dec_fixed32 (field : pb_field) : M pb_istream (list Z * bool) :=
  let* bytes := pb_decode_fixed32 in ret (bytes, true).

Definition pb_dec_fixed64 (field : pb_field) : M pb_istream (list Z * bool) :=
  let* bytes := pb_decode_fixed64 in ret (bytes, true).

Definition pb_dec_fixed_length_bytes (field : pb_field) : M pb_istream (list Z * bool) :=
  let* size := pb_decode_varint32 in
  if size >? PB_SIZE_MAX then is_error "bytes overflow"
  else if size =? 0 then ret (replicate (Z.to_nat (f_data_size field)) 0, true)
  else if negb (size =? f_data_size field) then is_error "incorrect fixed length bytes size"
  else let* bytes := pb_read false (f_data_size field) in ret (bytes, true).

(** The scalar rows of [PB_DECODERS]. *)
Definition PB_DECODERS (ltype : Z) : option (pb_field -> M pb_istream (list Z * bool)) :=
  if ltype =? PB_LTYPE_BOOL then Some pb_dec_bool
  else if ltype =? PB_LTYPE_VARINT then Some pb_dec_varint
  else if ltype =? PB_LTYPE_UVARINT then Some pb_dec_uvarint
  else if ltype =? PB_LTYPE_SVARINT then Some pb_dec_svarint
  else if ltype =? PB_LTYPE_FIXED32 then Some pb_dec_fixed32
  else if ltype =? PB_LTYPE_FIXED64 then Some pb_dec_fixed64
  else None.
End nanopb.
