(* ===== verification/PbWire.v ===== *)
(** * nanopb: correctness of the streams and of the wire format.

    Encoders are described by the bytes they emit ([emits]), whatever the stream
    counts or stores; decoders by what they consume of a buffer. *)

From stdpp Require Import strings.
From S2P Require Import Prelude PbStream.

(** ** Varints *)

(** The minimal base-128 encoding, least significant group first. *)
Fixpoint leb (n : nat) (v : Z) : list Z :=
  match n with
  | O => [v]
  | S n' => if v <? 128 then [v] else 128 + v mod 128 :: leb n' (v / 128)
  end.
(** Of [0 <= v < 2^64]: at most ten bytes. *)
Definition varint (v : Z) : list Z := leb 9 v.

(** The value of varint bytes: seven bits of each. *)
Fixpoint leb_val (l : list Z) : Z :=
  match l with
  | [] => 0
  | b :: l' => b mod 128 + 128 * leb_val l'
  end.

Example varint_300 : varint 300 = [0xac; 0x02].
Proof. reflexivity. Qed.

Lemma varint_byte v : 0 <= v -> u8 (Z.lor (Z.land v 0x7F) 0x80) = 128 + v mod 128.
Proof.
  intros Hv. change 0x7F with (2 ^ 7 - 1). rewrite land_mask by lia. change (2 ^ 7) with 128.
  rewrite Z.lor_comm. change 0x80 with (1 * 128). rewrite (lor_add_mul 7) by (done || zarith).
  rewrite u8_small by zarith. lia.
Qed.

Lemma last_byte d : 0 <= d < 128 -> Z.land (128 + d) 0x7F = d.
Proof.
  intros Hd. change 0x7F with (2 ^ 7 - 1). rewrite land_mask by lia. change (2 ^ 7) with 128. zarith.
Qed.

Lemma varint_loop_zero n : varint_loop n 0 = [].
Proof. destruct n; done. Qed.

Lemma clear_varint_loop n v : 0 < v < 128 ^ Z.of_nat (S n) -> clear_last (varint_loop (S n) v) = leb n v.
Proof.
  revert v. induction n as [|n IH]; intros v Hv; cbn [varint_loop leb];
    destruct (Z.eqb_spec v 0); try lia; rewrite varint_byte, ?(Z.shiftr_div_pow2 v) by lia; change (2 ^ 7) with 128.
  - change (128 ^ Z.of_nat 1) with 128 in Hv. cbn [clear_last]. rewrite last_byte by zarith. f_equal. zarith.
  - destruct (Z.ltb_spec v 128) as [Hs|Hs].
    + rewrite Z.div_small by lia. cbn [Z.eqb]. cbn [clear_last]. rewrite last_byte by zarith. f_equal. zarith.
    + rewrite (Nat2Z.inj_succ (S n)), Z.pow_succ_r in Hv by lia. specialize (IH (v / 128)).
      rewrite <- IH by zarith. cbn [varint_loop]. destruct (Z.eqb_spec (v / 128) 0); [zarith|done].
Qed.

Lemma leb_bytes_ok n v : 0 <= v < 128 ^ Z.of_nat (S n) -> bytes_ok (leb n v).
Proof.
  revert v. induction n as [|n IH]; intros v Hv; cbn [leb].
  - change (128 ^ Z.of_nat 1) with 128 in Hv. repeat constructor; lia.
  - destruct (Z.ltb_spec v 128); [repeat constructor; lia|].
    rewrite (Nat2Z.inj_succ (S n)), Z.pow_succ_r in Hv by lia.
    constructor; [unfold is_byte; zarith|apply IH; zarith].
Qed.

Lemma varint_ok v : 0 <= v < 2 ^ 64 -> bytes_ok (varint v).
Proof. intros Hv. apply leb_bytes_ok. simpl Z.of_nat. lia. Qed.
#[export] Hint Resolve varint_ok : bytes.

Lemma zlen_leb n v : 1 <= zlen (leb n v) <= Z.of_nat n + 1.
Proof.
  revert v. induction n as [|n IH]; intros v; cbn [leb]; [done|].
  destruct (v <? 128); [unfold zlen; simpl; lia|]. rewrite zlen_cons. specialize (IH (v / 128)). lia.
Qed.

Section encoders.
Context {U : Type} (user_write : U -> list Z -> bool * U).
#[local] Abbreviation ostream := (@pb_ostream U).

(** ** Encoders *)

(** [s] has written [l] to a buffer, after [p], and [q] is the memory that
    follows; the stream may take [max_size] bytes in all. *)
Record out_rep (s : ostream) (p l q : list Z) : Prop := {
  out_pos : os_callback s = OBuf (p ++ l ++ q) (zlen p + zlen l);
  out_written : bytes_written s = zlen l;
  out_room : zlen l <= max_size s <= zlen l + zlen q;
  out_max : max_size s < 2 ^ 63 }.

(** [m] emits the bytes [d]: a counting stream counts them, a buffer stores them
    and nothing else is written, and a buffer that is too small reports it. *)
Record emits (m : M ostream unit) (d : list Z) : Prop := {
  emits_count s : os_callback s = ONull -> 0 <= bytes_written s -> bytes_written s + zlen d < 2 ^ 64 ->
    m s = (Some tt, OStream ONull (max_size s) (bytes_written s + zlen d) (os_errmsg s));
  emits_store s p l q : out_rep s p l q -> zlen l + zlen d <= max_size s ->
    exists s', m s = (Some tt, s') /\ out_rep s' p (l ++ d) (zdrop (zlen d) q) /\ max_size s' = max_size s;
  emits_full s p l q : out_rep s p l q -> zlen d < 2 ^ 62 -> max_size s < zlen l + zlen d -> fst (m s) = None }.

Lemma emits_seq m1 m2 d1 d2 : emits m1 d1 -> emits m2 d2 -> emits (m1 ;; m2) (d1 ++ d2).
Proof.
  intros H1 H2. pose proof (zlen_nonneg d1). pose proof (zlen_nonneg d2).
  constructor; unfold bind; [intros s Hs Hb0 Hlt|intros s p l q Hs Hlt|intros s p l q Hs Hz Hlt];
    rewrite zlen_app in *.
  - rewrite (emits_count _ _ H1 s) by (done || lia). rewrite (emits_count _ _ H2); cbn; [|done|lia|lia].
    do 2 f_equal. lia.
  - destruct (emits_store _ _ H1 s p l q Hs) as (s1 & -> & Hs1 & Hm1); [lia|].
    destruct (emits_store _ _ H2 s1 _ _ _ Hs1) as (s2 & -> & Hs2 & Hm2); [rewrite zlen_app; lia|].
    exists s2. rewrite app_assoc, <- zdrop_zdrop by lia. split_and!; [done|done|congruence].
  - destruct (Z.le_gt_cases (zlen l + zlen d1) (max_size s)) as [Hle|Hgt].
    + destruct (emits_store _ _ H1 s p l q Hs) as (s1 & -> & Hs1 & Hm1); [lia|].
      apply (emits_full _ _ H2 s1 _ _ _ Hs1); rewrite ?zlen_app; lia.
    + pose proof (emits_full _ _ H1 s p l q Hs) as Hf. destruct (m1 s) as [[|] s1]; [|done].
      discriminate Hf; lia.
Qed.

Lemma emits_nil : emits (ret tt) [].
Proof.
  constructor; [intros s Hs _ _|intros s p l q Hs _|intros s p l q Hs _ Hlt]; unfold ret.
  - destruct s; cbn in *. rewrite zlen_nil, Z.add_0_r. congruence.
  - exists s. rewrite app_nil_r, zdrop_0. done.
  - pose proof (out_room _ _ _ _ Hs). rewrite zlen_nil in Hlt. lia.
Qed.

Lemma emits_write d n : n = zlen d -> emits (pb_write user_write d n) d.
Proof.
  intros ->. pose proof (zlen_nonneg d) as Hd.
  constructor; [intros s Hs Hb0 Hlt|intros s p l q Hs Hlt|intros s p l q Hs Hz Hlt]; unfold pb_write.
  - rewrite Hs. cbn [is_null negb]. rewrite andb_false_r, size_t_small by lia. done.
  - destruct Hs as [Hc Hb Hr Hm]. rewrite Hc, Hb, Z.gtb_ltb. cbn [is_null negb].
    pose proof (zlen_nonneg l). pose proof (zlen_nonneg p). rewrite andb_true_r, size_t_small by lia.
    destruct (Z.ltb_spec 0 (zlen d)) as [Hp|Hp].
    + rewrite Z.gtb_ltb. destruct (Z.ltb_spec (zlen l + zlen d) (zlen l)); [lia|].
      destruct (Z.ltb_spec (max_size s) (zlen l + zlen d)); [lia|]. cbn [orb call_write buf_write negb].
      rewrite ztake_all by lia. eexists. split; [reflexivity|]. split; [|done].
      constructor; cbn [os_callback max_size bytes_written os_errmsg]; rewrite ?zlen_app, ?size_t_small, ?zlen_zdrop by lia;
        [|lia|lia|lia].
      unfold buf_write. rewrite <- (ztake_zdrop (zlen d) q) at 1.
      rewrite app_assoc, zwrite_mid by (rewrite ?zlen_app, ?zlen_ztake; lia).
      rewrite <- !app_assoc. f_equal. lia.
    + assert (d = []) as -> by (apply zlen_zero; lia). rewrite app_nil_r, zdrop_0. eexists. split; [reflexivity|].
      split; [|done]. constructor; cbn; rewrite ?zlen_nil; lia || done.
  - destruct Hs as [Hc Hb Hr Hm]. rewrite Hc, Hb, Z.gtb_ltb. cbn [is_null negb].
    pose proof (zlen_nonneg l). rewrite andb_true_r, size_t_small by lia.
    destruct (Z.ltb_spec 0 (zlen d)) as [Hp|Hp]; [|lia]. rewrite Z.gtb_ltb.
    destruct (Z.ltb_spec (max_size s) (zlen l + zlen d)); [|lia]. rewrite orb_true_r. done.
Qed.

Lemma emits_varint v : 0 <= v < 2 ^ 64 -> emits (pb_encode_varint user_write v) (varint v).
Proof.
  intros Hv. unfold pb_encode_varint, varint. destruct (Z.leb_spec v 0x7F) as [Hs|Hs].
  - rewrite u8_small by lia. change (leb 9 v) with (if v <? 128 then [v] else 128 + v mod 128 :: leb 8 (v / 128)).
    destruct (Z.ltb_spec v 128); [|lia]. by apply emits_write.
  - rewrite clear_varint_loop by (simpl Z.of_nat; lia). by apply emits_write.
Qed.

Lemma emits_svarint v : - 2 ^ 63 <= v < 2 ^ 63 -> emits (pb_encode_svarint user_write v) (varint (zigzag v)).
Proof.
  intros Hv. apply emits_varint. unfold zigzag. destruct (v <? 0); apply u64_range.
Qed.

Lemma emits_string l : zlen l < 2 ^ 64 -> emits (pb_encode_string user_write l (zlen l)) (varint (zlen l) ++ l).
Proof. intros Hl. pose proof (zlen_nonneg l). apply emits_seq; [apply emits_varint; lia|by apply emits_write]. Qed.

Lemma fixed_bytes n v : (fun i => u8 (Z.land (Z.shiftr v (8 * i)) 0xFF)) <$> zseq (Z.of_nat n) = le_bytes n v.
Proof.
  unfold zseq. rewrite Nat2Z.id.
  assert (G : forall k, (fun i => u8 (Z.land (Z.shiftr v (8 * i)) 0xFF)) <$> (Z.of_nat <$> seq k n) =
    le_bytes n (v / 256 ^ Z.of_nat k)); [|rewrite G, Z.div_1_r; done].
  induction n as [|n IH]; intros k; [done|]. cbn [seq fmap list_fmap le_bytes]. f_equal.
  - rewrite Z.shiftr_div_pow2, Z.pow_mul_r by lia. change (2 ^ 8) with 256.
    change 0xFF with (2 ^ 8 - 1). rewrite land_mask by lia. unfold u8. change (2 ^ 8) with 256. zarith.
  - change (list_fmap nat Z Z.of_nat) with (fmap (M := list) Z.of_nat). 
    specialize (IH (S k)). rewrite Nat2Z.inj_succ, Z.pow_succ_r, Z.mul_comm, <- Z.div_div in IH by lia. exact IH.
Qed.
End encoders.

(** ** Decoders *)

Section decoders.
Context {U : Type} (user_read : U -> Z -> option (list Z) * U).
#[local] Abbreviation istream := (@pb_istream U).

(** A stream with the bytes [l] left, in a memory that goes on with [mem]. *)
Definition buf_in (l mem : list Z) (e : option string) : istream := IStream (IBuf (l ++ mem)) (zlen l) e.

Lemma readbyte_cons b l mem e : pb_readbyte user_read (buf_in (b :: l) mem e) = (Some b, buf_in l mem e).
Proof.
  unfold pb_readbyte, buf_in. cbn [bytes_left is_callback is_errmsg]. rewrite zlen_cons.
  pose proof (zlen_nonneg l). destruct (Z.eqb_spec (1 + zlen l) 0); [lia|]. cbn. do 2 f_equal. lia.
Qed.

Lemma readbyte_nil mem e : fst (pb_readbyte user_read (buf_in [] mem e)) = None.
Proof. done. Qed.

Lemma read_app null n l1 l2 mem e : n = zlen l1 ->
  pb_read user_read null n (buf_in (l1 ++ l2) mem e) = (Some l1, buf_in l2 mem e).
Proof.
  intros ->. unfold pb_read, buf_in. cbn [is_callback]. destruct (Z.eqb_spec (zlen l1) 0) as [E|E].
  - apply zlen_zero in E as ->. done.
  - unfold read_bytes. cbn [bytes_left is_callback is_errmsg]. rewrite zlen_app.
    pose proof (zlen_nonneg l2). destruct (Z.ltb_spec (zlen l1 + zlen l2) (zlen l1)); [lia|].
    cbn [call_read buf_read]. rewrite <- app_assoc, ztake_app, zdrop_app by done. do 2 f_equal. lia.
Qed.

(** Bytes of the varint form: all but the last have the continuation bit. *)
Fixpoint is_varint (l : list Z) : bool :=
  match l with
  | [] => false
  | b :: l' => match l' with [] => (0 <=? b) && (b <? 128) | _ => (128 <=? b) && (b <? 256) && is_varint l' end
  end.

Lemma cont_bits b : is_byte b -> (Z.land b 0x80 =? 0) = (b <? 128) /\ Z.land b 0x7F = b mod 128.
Proof.
  unfold is_byte. intros Hb.
  byte_check (fun b => Bool.eqb (Z.land b 0x80 =? 0) (b <? 128) && (Z.land b 0x7F =? b mod 128)) b as H.
  bool_hyps. split; [by apply Bool.eqb_prop|done].
Qed.

(** The head of varint bytes. *)
Lemma is_varint_cons b l : is_varint (b :: l) = true ->
  is_byte b /\ ((b < 128 /\ l = []) \/ (128 <= b /\ is_varint l = true)).
Proof. unfold is_byte. destruct l; cbn [is_varint]; intros H; bool_hyps; split; try lia; [left|right]; (split; [lia|done]). Qed.

Lemma is_varint_leb n v : 0 <= v < 128 ^ Z.of_nat (S n) -> is_varint (leb n v) = true /\ leb_val (leb n v) = v.
Proof.
  revert v. induction n as [|n IH]; intros v Hv; cbn [leb].
  - change (128 ^ Z.of_nat 1) with 128 in Hv. cbn [is_varint leb_val]. split; [decide_cmp; done|zarith].
  - destruct (Z.ltb_spec v 128).
    + cbn [is_varint leb_val]. split; [decide_cmp; done|zarith].
    + rewrite (Nat2Z.inj_succ (S n)), Z.pow_succ_r in Hv by lia.
      destruct (IH (v / 128)) as [H1 H2]; [zarith|]. cbn [leb_val]. rewrite H2. split; [|zarith].
      cbn [is_varint]. rewrite H1. destruct (leb n (v / 128)) eqn:E; [done|].
      destruct (Z.leb_spec 128 (128 + v mod 128)), (Z.ltb_spec (128 + v mod 128) 256); first [done|zarith].
Qed.

Lemma leb_val_nonneg l : 0 <= leb_val l.
Proof. induction l as [|b l IH]; cbn [leb_val]; [done|zarith]. Qed.

(** Setting the bits of a group above the bits of [r]. *)
Lemma group_or r d k : 0 <= k <= 63 -> 0 <= r < 2 ^ k -> 0 <= d < 128 ->
  Z.lor r (u64 (Z.shiftl d k)) = (r + 2 ^ k * d) mod 2 ^ 64.
Proof.
  intros Hk Hr Hd. assert (Hp : 2 ^ 64 = 2 ^ k * 2 ^ (64 - k)) by (rewrite <- Z.pow_add_r by lia; f_equal; lia).
  assert (0 < 2 ^ (64 - k)) by (apply Z.pow_pos_nonneg; lia).
  unfold u64. rewrite Z.shiftl_mul_pow2, (Z.mul_comm d), Hp, Z.mul_mod_distr_l by lia.
  rewrite Z.lor_comm, (Z.mul_comm (2 ^ k)), (lor_add_mul k) by lia.
  rewrite (Z.mul_comm _ (2 ^ k)). rewrite <- (Z.mod_small (2 ^ k * (d mod 2 ^ (64 - k)) + r) (2 ^ k * 2 ^ (64 - k))).
  - rewrite (Z.add_comm r). rewrite <- Z.mul_mod_distr_l by lia. rewrite Z.add_mod_idemp_l by lia. done.
  - pose proof (Z.mod_pos_bound d (2 ^ (64 - k))). nia.
Qed.

Lemma decode_varint_loop_spec l n r k rest mem e : is_varint l = true -> (length l <= n)%nat ->
  0 <= k -> k + zlen l <= 10 -> 0 <= r < 2 ^ (7 * k) ->
  decode_varint_loop user_read n r (7 * k) (buf_in (l ++ rest) mem e) =
    (Some ((r + 2 ^ (7 * k) * leb_val l) mod 2 ^ 64), buf_in rest mem e).
Proof.
  revert n r k. induction l as [|b l IH]; intros n r k Hl Hn Hk Hlen Hr; [done|].
  rewrite zlen_cons in Hlen. pose proof (zlen_nonneg l). destruct n as [|n]; [simpl in Hn; lia|].
  apply is_varint_cons in Hl as [Hb Hl]. destruct (cont_bits b Hb) as [E80 E7F]. unfold is_byte in Hb.
  cbn [decode_varint_loop app]. rewrite Z.geb_leb. destruct (Z.leb_spec 64 (7 * k)); [lia|].
  unfold bind. rewrite readbyte_cons, E80, E7F, group_or by (lia || zarith).
  rewrite u8_small by lia. replace (7 * k + 7) with (7 * (k + 1)) by lia. cbn [leb_val].
  destruct Hl as [[Hs ->]|[Hs Hl]].
  - destruct (Z.ltb_spec b 128); [|lia]. unfold ret. cbn [leb_val app]. do 3 f_equal. lia.
  - destruct (Z.ltb_spec b 128); [lia|].
    assert (Hk63 : 7 * (k + 1) <= 63) by (destruct l; [done|rewrite zlen_cons in Hlen; pose proof (zlen_nonneg l); lia]).
    assert (Hpow : 2 ^ (7 * (k + 1)) = 2 ^ (7 * k) * 128) by (rewrite Z.mul_add_distr_l, Z.pow_add_r by lia; done).
    assert (2 ^ (7 * (k + 1)) <= 2 ^ 63) by (apply Z.pow_le_mono_r; lia).
    assert (Hsum : 0 <= r + 2 ^ (7 * k) * (b mod 128) < 2 ^ (7 * (k + 1))) by (rewrite Hpow; pose proof (Z.mod_pos_bound b 128); nia).
    rewrite Z.mod_small by lia. rewrite IH by (done || lia || (simpl in Hn; lia)).
    do 3 f_equal. rewrite Hpow. lia.
Qed.

Lemma decode_varint_spec l rest mem e : is_varint l = true -> zlen l <= 10 ->
  pb_decode_varint user_read (buf_in (l ++ rest) mem e) = (Some (leb_val l mod 2 ^ 64), buf_in rest mem e).
Proof.
  intros Hl Hz. unfold pb_decode_varint. change 0 with (7 * 0) at 2.
  rewrite decode_varint_loop_spec by (done || lia || (unfold zlen in Hz; lia)).
  do 3 f_equal. lia.
Qed.

Lemma decode_varint_varint v rest mem e : 0 <= v < 2 ^ 64 ->
  pb_decode_varint user_read (buf_in (varint v ++ rest) mem e) = (Some v, buf_in rest mem e).
Proof.
  intros Hv. destruct (is_varint_leb 9 v) as [H1 H2]; [simpl Z.of_nat; lia|]. pose proof (zlen_leb 9 v).
  unfold varint. rewrite decode_varint_spec, H2, Z.mod_small by (done || lia). done.
Qed.

Lemma varint32_loop_spec l n r k rest mem e : is_varint l = true -> (length l <= n)%nat ->
  1 <= k -> k + zlen l <= 5 -> 0 <= r < 2 ^ (7 * k) -> r + 2 ^ (7 * k) * leb_val l < 2 ^ 32 ->
  varint32_loop user_read n r (7 * k) (buf_in (l ++ rest) mem e) =
    (Some (r + 2 ^ (7 * k) * leb_val l, 7 * (k + zlen l), List.last l 0), buf_in rest mem e).
Proof.
  revert n r k. induction l as [|b l IH]; intros n r k Hl Hn Hk Hlen Hr H32; [done|].
  rewrite zlen_cons in *. pose proof (zlen_nonneg l). destruct n as [|n]; [simpl in Hn; lia|].
  apply is_varint_cons in Hl as [Hb Hl]. destruct (cont_bits b Hb) as [E80 E7F]. unfold is_byte in Hb.
  cbn [leb_val] in *. pose proof (leb_val_nonneg l).
  assert (Hpow : 2 ^ (7 * (k + 1)) = 2 ^ (7 * k) * 128) by (rewrite Z.mul_add_distr_l, Z.pow_add_r by lia; done).
  assert (0 < 2 ^ (7 * k)) by (apply Z.pow_pos_nonneg; lia).
  cbn [varint32_loop app]. unfold bind at 1. rewrite readbyte_cons, E80, E7F, Z.geb_leb.
  destruct (Z.leb_spec 32 (7 * k)); [lia|]. unfold bind, ret.
  rewrite u8_small by lia. replace (7 * k + 7) with (7 * (k + 1)) by lia.
  pose proof (Z.mod_pos_bound b 128 ltac:(lia)).
  assert (Hor : Z.lor r (u32 (Z.shiftl (b mod 128) (7 * k))) = r + 2 ^ (7 * k) * (b mod 128)).
  { rewrite Z.shiftl_mul_pow2, u32_small, Z.lor_comm, (lor_add_mul (7 * k)) by (lia || nia). lia. }
  rewrite Hor. destruct Hl as [[Hs ->]|[Hs Hl]].
  - destruct (Z.ltb_spec b 128); [|lia]. change (zlen (@nil Z)) with 0. cbn [leb_val List.last app]. do 4 f_equal; lia.
  - destruct (Z.ltb_spec b 128); [lia|].
    assert (r + 2 ^ (7 * k) * (b mod 128) < 2 ^ (7 * (k + 1))) by (rewrite Hpow; nia).
    rewrite IH by (done || lia || (simpl in Hn; lia) || (rewrite Hpow; nia)).
    replace (List.last (b :: l) 0) with (List.last l 0) by (destruct l; done).
    do 4 f_equal; [rewrite Hpow|]; lia.
Qed.

(** The last group of a varint of at most five bytes that fits in 32 bits. *)
Lemma leb_val_last l : is_varint l = true -> 2 ^ (7 * (zlen l - 1)) * List.last l 0 <= leb_val l.
Proof.
  induction l as [|b l IH]; intros Hl; [done|]. apply is_varint_cons in Hl as [Hb Hl].
  unfold is_byte in Hb. destruct Hl as [[Hs ->]|[Hs Hl]].
  - change (2 ^ (7 * (zlen [b] - 1))) with 1. cbn [leb_val List.last]. zarith.
  - specialize (IH Hl). cbn [leb_val]. rewrite zlen_cons.
    assert (1 <= zlen l) by (destruct l; [done|rewrite zlen_cons; pose proof (zlen_nonneg l); lia]).
    replace (List.last (b :: l) 0) with (List.last l 0) by (destruct l; done).
    replace (7 * (1 + zlen l - 1)) with (7 * (zlen l - 1) + 7) by lia. rewrite Z.pow_add_r by lia.
    change (2 ^ 7) with 128. pose proof (Z.mod_pos_bound b 128). nia.
Qed.

Lemma last_is_varint l : is_varint l = true -> 0 <= List.last l 0 < 128.
Proof.
  induction l as [|b l IH]; intros Hl; [done|]. apply is_varint_cons in Hl as [Hb Hl].
  unfold is_byte in Hb. destruct Hl as [[Hs ->]|[Hs Hl]]; [cbn; lia|]. destruct l; [done|by apply IH].
Qed.

Lemma varint32_eof_spec l rest mem e : is_varint l = true -> zlen l <= 5 -> leb_val l < 2 ^ 32 ->
  pb_decode_varint32_eof user_read (buf_in (l ++ rest) mem e) = (Some (leb_val l), false, buf_in rest mem e).
Proof.
  intros Hl Hz Hv. pose proof (leb_val_last l Hl) as Hlast. pose proof (last_is_varint l Hl) as H128.
  destruct l as [|b l]; [done|]. rewrite zlen_cons in *. pose proof (zlen_nonneg l).
  apply is_varint_cons in Hl as [Hb Hl]. destruct (cont_bits b Hb) as [E80 E7F]. unfold is_byte in Hb.
  unfold pb_decode_varint32_eof. cbn [app]. rewrite readbyte_cons, E80, E7F. cbn [leb_val] in *.
  destruct Hl as [[Hs ->]|[Hs Hl]].
  - destruct (Z.ltb_spec b 128); [|lia]. cbn [leb_val app]. do 3 f_equal. zarith.
  - destruct (Z.ltb_spec b 128); [lia|]. pose proof (Z.mod_pos_bound b 128 ltac:(lia)).
    change 7 with (7 * 1) at 1. rewrite varint32_loop_spec; try done; try lia.
    + change (2 ^ (7 * 1)) with 128.
      assert (Hlast' : (7 * (1 + zlen l) =? 35) && negb (Z.land (List.last l 0) 112 =? 0) = false).
      { destruct (Z.eqb_spec (7 * (1 + zlen l)) 35) as [E|E]; [|done]. cbn [andb].
        replace (List.last (b :: l) 0) with (List.last l 0) in * by (destruct l; done).
        replace (7 * (1 + zlen l - 1)) with 28 in Hlast by lia.
        set (x := List.last l 0) in *. assert (0 <= x < 16) by lia.
        byte_check (fun x => (16 <=? x) || (Z.land x 112 =? 0)) x as Hx.
        apply orb_prop in Hx as [Hx|Hx]; [bool_hyps; lia|]. rewrite Hx. done. }
      rewrite Hlast'. done.
    + unfold buf_in. cbn [bytes_left]. rewrite zlen_app. pose proof (zlen_nonneg rest). unfold zlen in *. lia.
Qed.

Lemma varint32_varint v rest mem e : 0 <= v < 2 ^ 32 ->
  pb_decode_varint32_eof user_read (buf_in (varint v ++ rest) mem e) = (Some v, false, buf_in rest mem e).
Proof.
  intros Hv. assert (E : varint v = leb 4 v).
  { unfold varint. do 4 (cbn [leb]; destruct (_ <? 128); [done|]; f_equal).
    cbn [leb]. destruct (Z.ltb_spec (v / 128 / 128 / 128 / 128) 128); [done|zarith]. }
  destruct (is_varint_leb 4 v) as [H1 H2]; [simpl Z.of_nat; lia|]. pose proof (zlen_leb 4 v).
  rewrite E, varint32_eof_spec, H2 by (done || lia). done.
Qed.

Lemma decode_varint32_varint v rest mem e : 0 <= v < 2 ^ 32 ->
  pb_decode_varint32 user_read (buf_in (varint v ++ rest) mem e) = (Some v, buf_in rest mem e).
Proof. intros Hv. unfold pb_decode_varint32. rewrite varint32_varint by done. done. Qed.

Lemma skip_varint_spec l n rest mem e : is_varint l = true -> (length l <= n)%nat ->
  skip_varint_loop user_read n (buf_in (l ++ rest) mem e) = (Some tt, buf_in rest mem e).
Proof.
  revert n. induction l as [|b l IH]; intros n Hl Hn; [done|].
  apply is_varint_cons in Hl as [Hb Hl]. destruct (cont_bits b Hb) as [E80 _]. unfold is_byte in Hb.
  destruct n as [|n]; [simpl in Hn; lia|]. cbn [skip_varint_loop]. unfold bind.
  change ((b :: l) ++ rest) with ([b] ++ l ++ rest). rewrite read_app by done.
  change (znth [b] 0) with b. rewrite E80. destruct Hl as [[Hs ->]|[Hs Hl]].
  - destruct (Z.ltb_spec b 128); [done|lia].
  - destruct (Z.ltb_spec b 128); [lia|]. apply IH; [done|simpl in Hn; lia].
Qed.
End decoders.

(** ** Scalar fields *)

(** A value in memory that a scalar field of type [ltype] can have. *)
Definition scalar_ok (ltype : Z) (f : pb_field) (src : list Z) : Prop :=
  bytes_ok src /\ zlen src = f_data_size f /\
  (ltype = PB_LTYPE_BOOL /\ (src = [0] \/ src = [1]) \/
   (ltype = PB_LTYPE_VARINT \/ ltype = PB_LTYPE_UVARINT \/ ltype = PB_LTYPE_SVARINT) /\ int_size (zlen src) = true \/
   ltype = PB_LTYPE_FIXED32 /\ zlen src = 4 \/ ltype = PB_LTYPE_FIXED64 /\ zlen src = 8).

(** Its wire format (protobuf encoding guide). *)
Definition scalar_wire (ltype : Z) (src : list Z) : list Z :=
  if ltype =? PB_LTYPE_BOOL then varint (le_val src)
  else if ltype =? PB_LTYPE_VARINT then varint (signed (8 * zlen src) (le_val src) mod 2 ^ 64)
  else if ltype =? PB_LTYPE_UVARINT then varint (le_val src)
  else if ltype =? PB_LTYPE_SVARINT then
    let v := signed (8 * zlen src) (le_val src) in varint (if v <? 0 then - 2 * v - 1 else 2 * v)
  else src.

Lemma zigzag_spec v : - 2 ^ 63 <= v < 2 ^ 63 -> zigzag v = if v <? 0 then - 2 * v - 1 else 2 * v.
Proof.
  intros Hv. unfold zigzag. rewrite !Z.shiftl_mul_pow2 by lia. change (2 ^ 1) with 2. unfold Z.lnot, u64.
  destruct (Z.ltb_spec v 0); zarith.
Qed.

Lemma int_sizes n : int_size n = true -> n = 1 \/ n = 2 \/ n = 4 \/ n = 8.
Proof. unfold int_size. rewrite !orb_true_iff, !Z.eqb_eq. tauto. Qed.

Lemma int_pow n : int_size n = true -> 256 ^ n = 2 ^ (8 * n) /\ 0 < 8 * n <= 64.
Proof. intros H. destruct (int_sizes n H) as [->|[->|[->| ->]]]; done. Qed.

(** The integer at [src]. *)
Lemma read_int_val src : int_size (zlen src) = true -> bytes_ok src ->
  read_int (zlen src) src = signed (8 * zlen src) (le_val src) /\ read_uint (zlen src) src = le_val src /\
  0 <= le_val src < 2 ^ (8 * zlen src) /\ - 2 ^ 63 <= signed (8 * zlen src) (le_val src) < 2 ^ 63 /\
  le_val src < 2 ^ 64.
Proof.
  intros Hz Hok. destruct (int_pow _ Hz) as [Hp Hr]. pose proof (le_val_range src Hok) as Hv. rewrite Hp in Hv.
  unfold read_int, read_uint. rewrite ztake_all by lia.
  pose proof (signed_range (8 * zlen src) (le_val src) ltac:(lia)).
  assert (2 ^ (8 * zlen src - 1) <= 2 ^ 63) by (apply Z.pow_le_mono_r; lia).
  assert (2 ^ (8 * zlen src) <= 2 ^ 64) by (apply Z.pow_le_mono_r; lia). lia.
Qed.

(** Storing an integer that is congruent to the one at [src]. *)
Lemma store_int src v : int_size (zlen src) = true -> bytes_ok src ->
  v mod 2 ^ (8 * zlen src) = le_val src -> le_bytes (Z.to_nat (zlen src)) v = src.
Proof.
  intros Hz Hok Hv. destruct (int_pow _ Hz) as [Hp Hr]. rewrite <- le_bytes_mod, Z2Nat.id, Hp, Hv by lia.
  apply le_bytes_le_val; [done|]. unfold zlen. lia.
Qed.

Section scalar_encoders.
Context {U : Type} (user_write : U -> list Z -> bool * U).

Lemma scalar_emits ltype f src enc : scalar_ok ltype f src -> PB_ENCODERS user_write ltype = Some enc ->
  emits (enc f src) (scalar_wire ltype src).
Proof.
  intros (Hok & Hsz & Ht) He. unfold scalar_wire.
  destruct Ht as [[-> Hb]|[[Ht Hi]|[[-> H4]|[-> H8]]]].
  - injection He as <-. destruct Hb as [-> | ->]; apply emits_varint; done.
  - destruct (read_int_val src Hi Hok) as (E1 & E2 & R1 & R2 & R3).
    destruct Ht as [-> | [-> | ->]]; injection He as <-;
      unfold pb_enc_varint, pb_enc_uvarint, pb_enc_svarint; rewrite <- Hsz, Hi, ?E1, ?E2; cbn [Z.eqb Pos.eqb
        PB_LTYPE_VARINT PB_LTYPE_UVARINT PB_LTYPE_SVARINT PB_LTYPE_BOOL].
    + apply emits_varint. apply u64_range.
    + apply emits_varint. lia.
    + cbv zeta. rewrite <- zigzag_spec by done. by apply emits_svarint.
  - injection He as <-. unfold pb_enc_fixed32, pb_encode_fixed32. rewrite ztake_all by lia.
    rewrite (fixed_bytes 4), le_bytes_le_val by (done || unfold zlen in H4; lia). by apply emits_write.
  - injection He as <-. unfold pb_enc_fixed64, pb_encode_fixed64. rewrite ztake_all by lia.
    rewrite (fixed_bytes 8), le_bytes_le_val by (done || unfold zlen in H8; lia). by apply emits_write.
Qed.

End scalar_encoders.

(** Setting a byte above the bits of [r]. *)
Lemma or_byte r b k : 0 <= k -> 0 <= r < 2 ^ k -> Z.lor r (Z.shiftl b k) = r + b * 2 ^ k.
Proof. intros Hk Hr. rewrite Z.lor_comm, lor_add by done. lia. Qed.

Ltac or_bytes := repeat match goal with
  | |- context [Z.lor ?r (Z.shiftl ?b ?k)] =>
      lazymatch r with context [Z.lor _ _] => fail | _ => rewrite (or_byte r b k) by lia end
  end.

Section scalar_decoders.
Context {U : Type} (user_read : U -> Z -> option (list Z) * U).

Lemma decode_fixed32_spec src rest mem e : bytes_ok src -> zlen src = 4 ->
  pb_decode_fixed32 user_read (buf_in (src ++ rest) mem e) = (Some src, buf_in rest mem e).
Proof.
  intros Hok Hz. unfold pb_decode_fixed32, bind, ret. rewrite read_app by done.
  assert (Hlen : length src = 4%nat) by (unfold zlen in Hz; lia).
  destruct src as [|a [|b [|c [|d [|]]]]]; try discriminate Hlen.
  set (l := [a; b; c; d]) in *. assert (E : le_bytes 4 (le_val l) = l) by (by apply le_bytes_le_val).
  transitivity (Some (le_bytes 4 (le_val l)), @buf_in U rest mem e); [do 3 f_equal|by rewrite E].
  change (znth l 0) with a. change (znth l 1) with b. change (znth l 2) with c. change (znth l 3) with d.
  unfold l in *. rewrite !Forall_cons in Hok. unfold is_byte in Hok. destruct Hok as (Ha & Hb & Hc & Hd & _).
  rewrite Z.shiftl_0_r. or_bytes. cbn [le_val]. lia.
Qed.

Lemma decode_fixed64_spec src rest mem e : bytes_ok src -> zlen src = 8 ->
  pb_decode_fixed64 user_read (buf_in (src ++ rest) mem e) = (Some src, buf_in rest mem e).
Proof.
  intros Hok Hz. unfold pb_decode_fixed64, bind, ret. rewrite read_app by done.
  assert (Hlen : length src = 8%nat) by (unfold zlen in Hz; lia).
  destruct src as [|a0 [|a1 [|a2 [|a3 [|a4 [|a5 [|a6 [|a7 [|]]]]]]]]]; try discriminate Hlen.
  set (l := [a0; a1; a2; a3; a4; a5; a6; a7]) in *.
  assert (E : le_bytes 8 (le_val l) = l) by (by apply le_bytes_le_val).
  transitivity (Some (le_bytes 8 (le_val l)), @buf_in U rest mem e); [do 3 f_equal|by rewrite E]. change (zseq 8) with [0; 1; 2; 3; 4; 5; 6; 7].
  cbn [fold_left]. change (8 * 0) with 0. change (8 * 1) with 8. change (8 * 2) with 16.
  change (8 * 3) with 24. change (8 * 4) with 32. change (8 * 5) with 40. change (8 * 6) with 48.
  change (8 * 7) with 56. change (Z.lor 0 (Z.shiftl (znth l 0) 0)) with a0.
  change (znth l 1) with a1. change (znth l 2) with a2. change (znth l 3) with a3. change (znth l 4) with a4.
  change (znth l 5) with a5. change (znth l 6) with a6. change (znth l 7) with a7.
  unfold l in *. rewrite !Forall_cons in Hok. unfold is_byte in Hok.
  destruct Hok as (H0 & H1 & H2 & H3 & H4 & H5 & H6 & H7 & _). or_bytes. cbn [le_val]. lia.
Qed.

Lemma s64_congr v : signed 64 (v mod 2 ^ 64) = signed 64 v.
Proof. apply signed_wide. lia. Qed.

(** The conversions of [pb_dec_varint] recover a sign-extended integer. *)
Lemma narrow_int n x : int_size n = true ->
  (if n =? 8 then s64 (signed (8 * n) x mod 2 ^ 64) else s32 (signed (8 * n) x mod 2 ^ 64)) = signed (8 * n) x.
Proof.
  intros Hi. destruct (int_pow _ Hi) as [_ Hr]. unfold s64, s32.
  pose proof (signed_range (8 * n) x ltac:(lia)) as Hrg.
  destruct (int_sizes _ Hi) as [E|[E|[E|E]]]; rewrite E in *; cbn [Z.eqb Pos.eqb];
    rewrite signed_wide by lia; apply signed_small; try lia;
    change (8 * 1 - 1) with 7 in Hrg; change (8 * 2 - 1) with 15 in Hrg; lia.
Qed.

Lemma decode_svarint_spec v rest mem e : - 2 ^ 63 <= v < 2 ^ 63 ->
  pb_decode_svarint user_read (buf_in (varint (if v <? 0 then - 2 * v - 1 else 2 * v) ++ rest) mem e) =
    (Some v, buf_in rest mem e).
Proof.
  intros Hv. unfold pb_decode_svarint, bind. rewrite decode_varint_varint by (destruct (Z.ltb_spec v 0); lia).
  unfold ret. do 2 f_equal. change 1 with (2 ^ 1 - 1) at 2. rewrite land_mask, !Z.shiftr_div_pow2 by lia.
  change (2 ^ 1) with 2. unfold s64, Z.lnot, u64. destruct (Z.ltb_spec v 0).
  - replace ((-2 * v - 1) mod 2) with 1 by zarith. cbn [Z.eqb negb]. rewrite s64_congr.
    rewrite signed_small by (lia || zarith). zarith.
  - replace (2 * v mod 2) with 0 by zarith. cbn [Z.eqb negb].
    rewrite signed_small by (lia || zarith). zarith.
Qed.

(** Decoding what a field encoder wrote. *)
Lemma scalar_decodes ltype f src dec rest mem e : scalar_ok ltype f src ->
  PB_DECODERS user_read ltype = Some dec ->
  dec f (buf_in (scalar_wire ltype src ++ rest) mem e) = (Some (src, true), buf_in rest mem e).
Proof.
  intros (Hok & Hsz & Ht) He. unfold scalar_wire.
  destruct Ht as [[-> Hb]|[[Ht Hi]|[[-> H4]|[-> H8]]]].
  - injection He as <-. unfold pb_dec_bool, bind.
    destruct Hb as [-> | ->]; cbn [Z.eqb PB_LTYPE_BOOL]; rewrite decode_varint32_varint by done; done.
  - destruct (read_int_val src Hi Hok) as (_ & _ & R1 & R2 & R3).
    destruct (int_pow _ Hi) as [Hp Hr]. set (w := 8 * zlen src) in *. set (x := le_val src) in *.
    assert (Hst : le_bytes (Z.to_nat (zlen src)) (signed w x) = src).
    { apply store_int; [done..|]. fold w. rewrite signed_congr by lia. by apply Z.mod_small. }
    assert (Hsg : signed w (signed w x) = signed w x) by (apply signed_small; [lia|apply signed_range; lia]).
    destruct Ht as [-> | [-> | ->]]; injection He as <-;
      unfold pb_dec_varint, pb_dec_uvarint, pb_dec_svarint, check_clamped, bind; cbn [Z.eqb Pos.eqb
        PB_LTYPE_VARINT PB_LTYPE_UVARINT PB_LTYPE_SVARINT PB_LTYPE_BOOL]; cbv zeta; rewrite <- Hsz.
    + rewrite decode_varint_varint by apply u64_range. rewrite Hi.
      pose proof (narrow_int (zlen src) x Hi) as En. fold w in En |- *. rewrite En.
      rewrite Hsg, Z.eqb_refl. cbn [negb]. rewrite Hst. done.
    + rewrite decode_varint_varint by lia. rewrite Hi. fold w.
      rewrite (Z.mod_small x) by lia. rewrite Z.eqb_refl. cbn [negb].
      rewrite store_int; [done..|]. fold w. by apply Z.mod_small.
    + unfold bind. rewrite decode_svarint_spec by done. rewrite Hi. fold w.
      rewrite Hsg, Z.eqb_refl. cbn [negb]. rewrite Hst. done.
  - injection He as <-. unfold pb_dec_fixed32, bind. rewrite decode_fixed32_spec by done. done.
  - injection He as <-. unfold pb_dec_fixed64, bind. rewrite decode_fixed64_spec by done. done.
Qed.
End scalar_decoders.

(** ** Correctness *)

Section roundtrips.
Context {U : Type} (user_write : U -> list Z -> bool * U) (user_read : U -> Z -> option (list Z) * U).
#[local] Abbreviation ostream := (@pb_ostream U).

Lemma out_rep_init mem : zlen mem < 2 ^ 63 -> out_rep (pb_ostream_from_buffer mem (zlen mem) : ostream) [] [] mem.
Proof. intros H. pose proof (zlen_nonneg mem). constructor; cbn; rewrite ?zlen_nil; done || lia. Qed.

Lemma scalar_wire_short ltype f src : scalar_ok ltype f src -> zlen (scalar_wire ltype src) < 16.
Proof.
  intros (_ & _ & Ht). unfold scalar_wire, varint. pose proof (zlen_leb 9) as Hz.
  repeat case_match; cbv zeta; try (match goal with |- zlen (leb 9 ?v) < 16 => specialize (Hz v); lia end).
  destruct Ht as [[_ [-> | ->]]|[[_ Hi]|[[_ ->]|[_ ->]]]]; try done.
  destruct (int_sizes _ Hi) as [->|[->|[->| ->]]]; done.
Qed.

(** What is in the buffer can be read back. *)
Lemma out_rep_read (s : ostream) l q : out_rep s [] l q -> os_callback s = OBuf (l ++ q) (zlen l) /\
  @pb_istream_from_buffer U (l ++ q) (zlen l) = buf_in (l ++ []) q None.
Proof. intros [Hc _ _ _]. split; [done|]. unfold pb_istream_from_buffer, buf_in. rewrite app_nil_r. done. Qed.

(** Every scalar field type: the size that a counting stream computes is
    the size of what is written; a buffer of at least this size takes the value,
    a smaller one is refused; and the decoder reads the value back from the
    buffer, all of it and nothing else. *)
Theorem scalar_field_roundtrip ltype f src enc dec mem : scalar_ok ltype f src ->
  PB_ENCODERS user_write ltype = Some enc -> PB_DECODERS user_read ltype = Some dec -> zlen mem < 2 ^ 62 ->
  let size := bytes_written (snd (enc f src PB_OSTREAM_SIZING)) in
  match enc f src (pb_ostream_from_buffer mem (zlen mem)) with
  | (Some _, s) => size <= zlen mem /\ exists mem', os_callback s = OBuf mem' size /\ zlen mem' = zlen mem /\
      exists s', dec f (pb_istream_from_buffer mem' size) = (Some (src, true), s') /\ bytes_left s' = 0
  | (None, _) => zlen mem < size
  end.
Proof.
  intros Hok He Hd Hm. pose proof (scalar_emits user_write ltype f src enc Hok He) as Hem.
  pose proof (scalar_wire_short ltype f src Hok) as Hw. pose proof (zlen_nonneg (scalar_wire ltype src)).
  cbv zeta. rewrite (emits_count _ _ Hem PB_OSTREAM_SIZING) by (done || (cbn; lia)). cbn [snd bytes_written].
  change (bytes_written PB_OSTREAM_SIZING) with 0. rewrite Z.add_0_l.
  pose proof (out_rep_init mem ltac:(lia)) as Hi. pose proof (zlen_nonneg mem).
  destruct (Z.le_gt_cases (zlen (scalar_wire ltype src)) (zlen mem)) as [Hle|Hgt].
  - destruct (emits_store _ _ Hem _ _ _ _ Hi) as (s & -> & Hs & Hmax); [done|]. cbn [app] in Hs.
    split; [done|]. destruct (out_rep_read s _ _ Hs) as [Hc Hr].
    eexists. split; [exact Hc|]. split; [rewrite zlen_app, zlen_zdrop by lia; lia|].
    rewrite Hr, (scalar_decodes user_read ltype f src dec) by done. eexists. split; [reflexivity|]. done.
  - pose proof (emits_full _ _ Hem _ _ _ _ Hi) as Hf. destruct (enc f src _) as [[|] s]; [|lia].
    discriminate Hf; [lia|rewrite zlen_nil; cbn; lia].
Qed.

(** Field keys: what [pb_encode_tag] emits, [pb_decode_tag] splits into the
    same wire type and field number, for every field number of protobuf. *)
Theorem tag_roundtrip wt tag rest mem e s q : 0 <= wt < 8 -> 1 <= tag < 2 ^ 29 ->
  out_rep s [] [] q -> 10 <= max_size s ->
  exists s' l mem', pb_encode_tag user_write wt tag s = (Some tt, s') /\ os_callback s' = OBuf mem' (zlen l) /\
    ztake (zlen l) mem' = l /\
    pb_decode_tag user_read (buf_in (l ++ rest) mem e) = (Some (wt, tag), false, buf_in rest mem e).
Proof.
  intros Hwt Htag Hs Hmax. unfold pb_encode_tag.
  assert (E : Z.lor (u64 (Z.shiftl tag 3)) wt = tag * 8 + wt).
  { rewrite u64_small, lor_add by (rewrite ?Z.shiftl_mul_pow2 by lia; lia). done. }
  rewrite E. pose proof (zlen_leb 9 (tag * 8 + wt)) as Hz.
  destruct (emits_store _ _ (emits_varint user_write (tag * 8 + wt) ltac:(lia)) s [] [] q Hs) as (s' & Hw & [Hc _ _ _] & _);
    [unfold varint; rewrite zlen_nil; lia|].
  exists s', (varint (tag * 8 + wt)), (varint (tag * 8 + wt) ++ zdrop (zlen (varint (tag * 8 + wt))) q).
  split_and!; [done|done|apply ztake_app; done|].
  unfold pb_decode_tag. rewrite varint32_varint by lia. destruct (Z.eqb_spec (tag * 8 + wt) 0); [lia|].
  change 7 with (2 ^ 3 - 1). rewrite land_mask, Z.shiftr_div_pow2 by lia. change (2 ^ 3) with 8.
  do 3 f_equal. f_equal; zarith.
Qed.

End roundtrips.

Section readers.
Context {U : Type} (user_read : U -> Z -> option (list Z) * U).

(** The bytes of a value of wire type [wt]. *)
Definition wire_value (wt : Z) (l : list Z) : Prop :=
  (wt = PB_WT_VARINT /\ is_varint l = true) \/ (wt = PB_WT_64BIT /\ zlen l = 8) \/
  (wt = PB_WT_32BIT /\ zlen l = 4) \/
  (wt = PB_WT_STRING /\ exists d, zlen d < 2 ^ 32 /\ l = varint (zlen d) ++ d).

(** [pb_skip_field] skips one value of an unknown field, whatever its wire
    type, and leaves the stream at the next key; the wire types that protobuf
    does not define are refused. *)
Theorem skip_field_exact wt l rest mem e :
  (wire_value wt l ->
   pb_skip_field user_read wt (buf_in (l ++ rest) mem e) = (Some tt, buf_in rest mem e)) /\
  (wt <> PB_WT_VARINT -> wt <> PB_WT_64BIT -> wt <> PB_WT_32BIT -> wt <> PB_WT_STRING ->
   fst (pb_skip_field user_read wt (buf_in l mem e)) = None).
Proof.
  unfold pb_skip_field. split.
  - intros [[-> Hl]|[[-> Hl]|[[-> Hl]|[-> (d & Hd & ->)]]]]; cbn [Z.eqb Pos.eqb PB_WT_VARINT PB_WT_64BIT
      PB_WT_STRING PB_WT_32BIT]; unfold bind.
    + apply skip_varint_spec; [done|]. unfold buf_in. cbn [bytes_left]. unfold zlen. rewrite length_app. lia.
    + rewrite read_app by done. done.
    + rewrite read_app by done. done.
    + pose proof (zlen_nonneg d). unfold pb_skip_string, bind. rewrite <- app_assoc, decode_varint32_varint by lia.
      rewrite read_app by done. done.
  - intros H0 H1 H5 H2. apply Z.eqb_neq in H0, H1, H2, H5. rewrite H0, H1, H2, H5. done.
Qed.

(** C34. A length-delimited value is read through a substream that holds exactly
    its contents, reading more than them fails, and closing the substream after
    any number of its bytes were read leaves the stream after the value. *)
Theorem substream_exact l1 l2 rest mem e : zlen (l1 ++ l2) < 2 ^ 32 ->
  exists s, pb_make_string_substream user_read
      (buf_in (varint (zlen (l1 ++ l2)) ++ (l1 ++ l2) ++ rest) mem e) = (Some (buf_in (l1 ++ l2) (rest ++ mem) e), s) /\
    (forall n, zlen (l1 ++ l2) < n -> fst (pb_read user_read false n (buf_in (l1 ++ l2) (rest ++ mem) e)) = None) /\
    exists sub, pb_read user_read false (zlen l1) (buf_in (l1 ++ l2) (rest ++ mem) e) = (Some l1, sub) /\
      pb_close_string_substream user_read sub s = (Some tt, buf_in rest mem e).
Proof.
  intros Hl. pose proof (zlen_nonneg (l1 ++ l2)). pose proof (zlen_nonneg rest). eexists. split; [|split].
  - unfold pb_make_string_substream, bind. rewrite decode_varint32_varint by lia.
    cbn [getst]. unfold getst, buf_in at 1. cbn [bytes_left]. rewrite (zlen_app (l1 ++ l2) rest).
    destruct (Z.ltb_spec (zlen (l1 ++ l2) + zlen rest) (zlen (l1 ++ l2))); [lia|].
    unfold putst, ret, buf_in. cbn [is_callback is_errmsg]. rewrite <- !app_assoc. reflexivity.
  - intros n Hn. unfold pb_read, buf_in. cbn [is_callback]. destruct (Z.eqb_spec n 0); [lia|].
    unfold read_bytes. cbn [bytes_left]. destruct (Z.ltb_spec (zlen (l1 ++ l2)) n); [done|lia].
  - eexists. split; [apply read_app; done|]. unfold pb_close_string_substream, bind.
    change (bytes_left (buf_in l2 (rest ++ mem) e)) with (zlen l2). destruct (Z.eqb_spec (zlen l2) 0) as [E|E]; cbn [negb].
    + apply zlen_zero in E as ->. unfold ret, getst, putst. cbn. unfold buf_in. do 2 f_equal.
      rewrite app_nil_r. unfold varint. rewrite !zlen_app, ?zlen_nil. lia.
    + unfold on. rewrite <- (app_nil_r l2) at 2. rewrite read_app by done. unfold getst, putst. cbn.
      unfold buf_in. do 2 f_equal. rewrite !zlen_app. lia.
Qed.

Lemma decode_varint_overflow l n r k rest mem e : Forall (fun b => 128 <= b < 256) l -> (length l < n)%nat ->
  0 <= k -> k + zlen l = 10 ->
  fst (decode_varint_loop user_read n r (7 * k) (buf_in (l ++ rest) mem e)) = None.
Proof.
  intros Hl. revert n r k. induction Hl as [|b l Hb Hl IH]; intros n r k Hn Hk Hlen.
  - rewrite zlen_nil in Hlen. destruct n; [done|]. replace k with 10 by lia. done.
  - rewrite zlen_cons in Hlen. pose proof (zlen_nonneg l). destruct n as [|n]; [simpl in Hn; lia|].
    cbn [decode_varint_loop app]. rewrite Z.geb_leb. destruct (Z.leb_spec 64 (7 * k)); [done|].
    unfold bind. rewrite readbyte_cons. destruct (cont_bits b ltac:(unfold is_byte; lia)) as [-> _].
    destruct (Z.ltb_spec b 128); [lia|]. rewrite u8_small by lia.
    replace (7 * k + 7) with (7 * (k + 1)) by lia. apply IH; simpl in Hn; lia.
Qed.

(** [pb_decode_varint] reads any varint of up to ten bytes, minimal or not,
    as its value modulo 2^64 and stops after its last byte; ten bytes that all
    ask for another one are refused. *)
Lemma decode_varint_total l rest mem e :
  (is_varint l = true -> zlen l <= 10 ->
   pb_decode_varint user_read (buf_in (l ++ rest) mem e) = (Some (leb_val l mod 2 ^ 64), buf_in rest mem e)) /\
  (Forall (fun b => 128 <= b < 256) l -> zlen l = 10 ->
   fst (pb_decode_varint user_read (buf_in (l ++ rest) mem e)) = None).
Proof.
  split; [apply decode_varint_spec|]. intros Hl Hz. unfold pb_decode_varint. change 0 with (7 * 0) at 2.
  apply decode_varint_overflow; [done|unfold zlen in Hz; lia|lia..].
Qed.
End readers.

(** The varint32 decoder has no bound on the number of bytes, and its
    [uint_fast8_t bitpos] wraps: the 38th byte of an overlong varint is put at
    bit 3 of the result. *)
Theorem varint32_overlong :
  fst (pb_decode_varint32 (fun (u : unit) _ => (None, u))
    (pb_istream_from_buffer ([0x81] ++ replicate 36 0x80 ++ [0x01]) 38)) = Some 9.
Proof. reflexivity. Qed.

(** ** Witnesses *)

Section witnesses.
#[local] Abbreviation uw := (fun (u : unit) (_ : list Z) => (true, u)).
#[local] Abbreviation ur := (fun (u : unit) (_ : Z) => (@None (list Z), u)).

(** A sint32 field that holds -3. *)
Lemma scalar_field_roundtrip_witness :
  let f := PbField 1 PB_LTYPE_SVARINT 0 0 4 0 0 in
  let src := [0xfd; 0xff; 0xff; 0xff] in
  let size := bytes_written (snd (pb_enc_svarint uw f src PB_OSTREAM_SIZING)) in
  match pb_enc_svarint uw f src (pb_ostream_from_buffer [0; 0] (zlen [0; 0])) with
  | (Some _, s) => size <= zlen [0; 0] /\ exists mem', os_callback s = OBuf mem' size /\ zlen mem' = zlen [0; 0] /\
      exists s', pb_dec_svarint ur f (pb_istream_from_buffer mem' size) = (Some (src, true), s') /\ bytes_left s' = 0
  | (None, _) => zlen [0; 0] < size
  end.
Proof.
  apply (scalar_field_roundtrip uw ur PB_LTYPE_SVARINT (PbField 1 PB_LTYPE_SVARINT 0 0 4 0 0) [0xfd; 0xff; 0xff; 0xff]
    (pb_enc_svarint uw) (pb_dec_svarint ur) [0; 0]).
  - split; [repeat constructor; discriminate|]. split; [reflexivity|]. right. left. split; [tauto|reflexivity].
  - reflexivity.
  - reflexivity.
  - reflexivity.
Defined.

Lemma tag_roundtrip_witness :
  exists s' l mem', pb_encode_tag uw 2 1000 (pb_ostream_from_buffer (replicate 10 0) 10) = (Some tt, s') /\
    os_callback s' = OBuf mem' (zlen l) /\ ztake (zlen l) mem' = l /\
    pb_decode_tag ur (buf_in (l ++ [1; 2]) [] None) = (Some (2, 1000), false, buf_in [1; 2] [] None).
Proof.
  apply (tag_roundtrip uw ur 2 1000 [1; 2] [] None (pb_ostream_from_buffer (replicate 10 0) 10) (replicate 10 0)).
  - lia.
  - lia.
  - apply (out_rep_init (replicate 10 0)). reflexivity.
  - discriminate.
Defined.

Lemma skip_field_exact_witness :
  pb_skip_field ur PB_WT_STRING (buf_in ([2; 7; 8] ++ [9]) [] None) = (Some tt, buf_in [9] [] None).
Proof.
  apply (skip_field_exact ur PB_WT_STRING [2; 7; 8] [9] [] None).
  right. right. right. split; [reflexivity|]. exists [7; 8]. split; reflexivity.
Defined.

Lemma substream_exact_witness :
  exists s, pb_make_string_substream ur (buf_in (varint (zlen ([1] ++ [2])) ++ ([1] ++ [2]) ++ [3]) [] None) =
      (Some (buf_in ([1] ++ [2]) ([3] ++ []) None), s) /\
    (forall n, zlen ([1] ++ [2]) < n -> fst (pb_read ur false n (buf_in ([1] ++ [2]) ([3] ++ []) None)) = None) /\
    exists sub, pb_read ur false (zlen [1]) (buf_in ([1] ++ [2]) ([3] ++ []) None) = (Some [1], sub) /\
      pb_close_string_substream ur sub s = (Some tt, buf_in [3] [] None).
Proof. apply (substream_exact ur [1] [2] [3] [] None). reflexivity. Defined.

Lemma decode_varint_total_witness :
  pb_decode_varint ur (buf_in ([0x80; 0x80; 0] ++ [5]) [] None) = (Some (0 mod 2 ^ 64), buf_in [5] [] None).
Proof. apply (decode_varint_total ur [0x80; 0x80; 0] [5] [] None); [reflexivity|discriminate]. Defined.
End witnesses.
