(* ===== verification/PbIter.v ===== *)
(** * nanopb messages: tables of fields and the iterator over them (pb_common.c, pb.h).

    A message is a C struct in memory, described by a table of [pb_field_t]. The
    tables are generated code, a parameter: [tables a] are the entries of the
    table at address [a], before its [PB_LAST_FIELD]. The iterator is shown to
    step through [members], the fields with the addresses of their data. *)

From S2P Require Import Prelude PbMem PbStream.

Definition sizeof_ptr : Z := 8.

(** ** The iterator *)

(** Where [iter->pSize] points: into the message, or to the local variable
    [fixed_count_size] of [pb_decode_noinit]. *)
Inductive size_loc := InStruct (a : Z) | Local.

Record pb_field_iter := FieldIter {
  it_start : Z; it_pos : nat; required_field_index : Z; dest_struct : Z; pData : Z; pSize : size_loc }.

Section iter.
Context (tables : Z -> list pb_field).

(** [fields[pos]]. *)
Definition field_at (fields : Z) (pos : nat) : pb_field := nth pos (tables fields) PB_LAST_FIELD.
(** [*iter->pos]. *)
Definition pos (it : pb_field_iter) : pb_field := field_at (it_start it) (it_pos it).

Definition pb_field_iter_begin (fields dest : Z) : pb_field_iter * bool :=
  let f := field_at fields 0 in
  let data := dest + f_data_offset f in
  (FieldIter fields 0 0 dest data (InStruct (data + f_size_offset f)), negb (f_tag f =? 0)).

Definition pb_field_iter_next (it : pb_field_iter) : pb_field_iter * bool :=
  let prev_field := pos it in
  if f_tag prev_field =? 0 then (it, false)
  else
    let f := field_at (it_start it) (S (it_pos it)) in
    if f_tag f =? 0 then (fst (pb_field_iter_begin (it_start it) (dest_struct it)), false)
    else if (PB_HTYPE (f_type prev_field) =? PB_HTYPE_ONEOF) && (PB_HTYPE (f_type f) =? PB_HTYPE_ONEOF) &&
            (f_data_offset f =? PB_SIZE_MAX) then
      (FieldIter (it_start it) (S (it_pos it)) (required_field_index it) (dest_struct it) (pData it) (pSize it), true)
    else
      let prev_size :=
        if (PB_ATYPE (f_type prev_field) =? PB_ATYPE_STATIC) && (PB_HTYPE (f_type prev_field) =? PB_HTYPE_REPEATED)
        then size_t (f_data_size prev_field * f_array_size prev_field)
        else if PB_ATYPE (f_type prev_field) =? PB_ATYPE_POINTER then sizeof_ptr
        else f_data_size prev_field in
      let required :=
        if PB_HTYPE (f_type prev_field) =? PB_HTYPE_REQUIRED then u32 (required_field_index it + 1)
        else required_field_index it in
      let data := pData it + prev_size + f_data_offset f in
      (FieldIter (it_start it) (S (it_pos it)) required (dest_struct it) data (InStruct (data + f_size_offset f)), true).

(** The [do] loop; it comes back to [start] after as many steps as there are fields. *)
Fixpoint find_loop (n : nat) (wanted : pb_field -> bool) (start : nat) (it : pb_field_iter) : pb_field_iter * bool :=
  if wanted (pos it) then (it, true)
  else
    let it := fst (pb_field_iter_next it) in
    if (it_pos it =? start)%nat then (it, false)
    else match n with O => (it, false) | S n' => find_loop n' wanted start it end.

Definition pb_field_iter_find (it : pb_field_iter) (tag : Z) : pb_field_iter * bool :=
  find_loop (length (tables (it_start it)))
    (fun f => (f_tag f =? tag) && negb (PB_LTYPE (f_type f) =? PB_LTYPE_EXTENSION)) (it_pos it) it.
End iter.

(** [for (i = 0; i < count; i++) { f(p); p += data_size; }]. *)
Fixpoint each_item {S} (n : nat) (f : Z -> M S unit) (data_size p : Z) : M S unit :=
  match n with
  | O => ret tt
  | S n' => f p ;; each_item n' f data_size (p + data_size)
  end.

(** ** Structs of pb.h: offsets of their members *)

Definition callback_funcs (p : Z) : Z := p.
Definition callback_arg (p : Z) : Z := p + 8.
Definition extension_type (p : Z) : Z := p.
Definition extension_dest (p : Z) : Z := p + 8.
Definition extension_next (p : Z) : Z := p + 16.
Definition extension_found (p : Z) : Z := p + 24.
Definition type_decode (p : Z) : Z := p.
Definition type_encode (p : Z) : Z := p + 8.
Definition type_arg (p : Z) : Z := p + 16.
(** [offsetof(pb_bytes_array_t, bytes)]. *)
Definition bytes_offset : Z := 4.
Definition PB_BYTES_ARRAY_T_ALLOCSIZE (n : Z) : Z := size_t (n + bytes_offset).

Definition packable (ltype : Z) : bool := ltype <=? PB_LTYPE_LAST_PACKABLE.

(** ** Tables *)

Lemma ltype_cases t : 0 <= PB_LTYPE t < 16.
Proof. unfold PB_LTYPE. change PB_LTYPE_MASK with (2 ^ 4 - 1). rewrite land_mask by lia. zarith. Qed.

Lemma htype_cases t : PB_HTYPE t = PB_HTYPE_REQUIRED \/ PB_HTYPE t = PB_HTYPE_OPTIONAL \/ PB_HTYPE t = PB_HTYPE_REPEATED \/
  PB_HTYPE t = PB_HTYPE_ONEOF.
Proof.
  unfold PB_HTYPE. change PB_HTYPE_MASK with (Z.shiftl 3 4).
  replace (Z.land t (Z.shiftl 3 4)) with (Z.shiftl (Z.land (Z.shiftr t 4) 3) 4).
  - change 3 with (2 ^ 2 - 1) at 1 2 3 4. rewrite land_mask by lia. rewrite Z.shiftl_mul_pow2 by lia.
    pose proof (Z.mod_pos_bound (Z.shiftr t 4) (2 ^ 2)).
    assert (Z.shiftr t 4 mod 2 ^ 2 = 0 \/ Z.shiftr t 4 mod 2 ^ 2 = 1 \/ Z.shiftr t 4 mod 2 ^ 2 = 2 \/ Z.shiftr t 4 mod 2 ^ 2 = 3)
      as [->|[->|[->| ->]]] by lia; auto.
  - apply Z.bits_inj'. intros n Hn. rewrite Z.land_spec, !Z.shiftl_spec by done.
    destruct (Z.leb_spec 4 n).
    + rewrite Z.land_spec, Z.shiftr_spec by lia. f_equal. f_equal. lia.
    + rewrite !(Z.testbit_neg_r _ (n - 4)) by lia. rewrite andb_false_r. done.
Qed.

(** A field of the C type: its members are 32-bit unsigned. *)
Definition field_ok (f : pb_field) : Prop :=
  0 <= f_tag f < 2 ^ 32 /\ 0 <= f_data_size f < 2 ^ 32 /\ 0 <= f_array_size f < 2 ^ 32.

(** ** The members of a struct *)

(** The space that a field takes, and the address of the data of the next one. *)
Definition extent (f : pb_field) : Z :=
  if (PB_ATYPE (f_type f) =? PB_ATYPE_STATIC) && (PB_HTYPE (f_type f) =? PB_HTYPE_REPEATED)
  then size_t (f_data_size f * f_array_size f)
  else if PB_ATYPE (f_type f) =? PB_ATYPE_POINTER then sizeof_ptr
  else f_data_size f.
Definition same_union (prev f : pb_field) : bool :=
  (PB_HTYPE (f_type prev) =? PB_HTYPE_ONEOF) && (PB_HTYPE (f_type f) =? PB_HTYPE_ONEOF) && (f_data_offset f =? PB_SIZE_MAX).
Definition next_data (prev : pb_field) (a : Z) (f : pb_field) : Z :=
  if same_union prev f then a else a + extent prev + f_data_offset f.

Fixpoint members_after (prev : pb_field) (a : Z) (l : list pb_field) : list (pb_field * Z) :=
  match l with
  | [] => []
  | f :: l' => if f_tag f =? 0 then [] else let a' := next_data prev a f in (f, a') :: members_after f a' l'
  end.
Definition members (l : list pb_field) (src : Z) : list (pb_field * Z) :=
  match l with
  | [] => []
  | f :: l' =>
      if f_tag f =? 0 then [] else let a := src + f_data_offset f in (f, a) :: members_after f a l'
  end.

Lemma nth_hd_drop {A} (d : A) l i : nth i l d = hd d (drop i l).
Proof. revert i. induction l as [|x l IH]; intros [|i]; [done..|apply IH]. Qed.

Lemma drop_S_next {A} (l : list A) i x rest : drop i l = x :: rest -> drop (S i) l = rest.
Proof. intros H. replace (S i) with (i + 1)%nat by lia. rewrite <- drop_drop, H. done. Qed.

Section iteration.
Context (tables : Z -> list pb_field).

Lemma field_at_ok t i : (forall t, Forall field_ok (tables t)) -> field_ok (field_at tables t i).
Proof.
  intros tables_ok. unfold field_at. destruct (nth_in_or_default i (tables t) PB_LAST_FIELD) as [H| ->].
  - apply list_elem_of_In in H. by apply (proj1 (Forall_forall _ _) (tables_ok t)).
  - unfold field_ok, PB_LAST_FIELD. cbn. lia.
Qed.

Lemma iter_begin t a : match tables t with
  | [] => snd (pb_field_iter_begin tables t a) = false
  | f :: _ => if f_tag f =? 0 then snd (pb_field_iter_begin tables t a) = false
              else exists it, pb_field_iter_begin tables t a = (it, true) /\ it_start it = t /\ it_pos it = O /\
                     pos tables it = f /\ pData it = a + f_data_offset f
  end.
Proof.
  unfold pb_field_iter_begin, pos, field_at. destruct (tables t) as [|f l] eqn:E; [done|]. cbn [nth].
  destruct (f_tag f =? 0); [done|]. eexists. split; [reflexivity|]. cbn. rewrite E. done.
Qed.

Lemma iter_next it f rest : pos tables it = f -> f_tag f <> 0 -> drop (S (it_pos it)) (tables (it_start it)) = rest ->
  match rest with
  | [] => snd (pb_field_iter_next tables it) = false
  | g :: _ =>
      if f_tag g =? 0 then snd (pb_field_iter_next tables it) = false
      else exists it', pb_field_iter_next tables it = (it', true) /\ it_start it' = it_start it /\
             it_pos it' = S (it_pos it) /\ pos tables it' = g /\ pData it' = next_data f (pData it) g
  end.
Proof.
  intros Hp Hf Hd. unfold pb_field_iter_next. rewrite Hp. destruct (Z.eqb_spec (f_tag f) 0); [done|].
  assert (E : field_at tables (it_start it) (S (it_pos it)) = hd PB_LAST_FIELD rest).
  { unfold field_at. rewrite <- Hd. apply nth_hd_drop. }
  destruct rest as [|g rest]; cbn [hd] in E; rewrite E; [done|].
  destruct (f_tag g =? 0); [done|]. unfold next_data, same_union.
  destruct (_ && _ && _); (eexists; split; [reflexivity|]); cbn; done.
Qed.
End iteration.
