(* ===== verification/PbMessage.v ===== *)
(** * nanopb messages: the encoder (pb_encode.c).

    Encoding does not write the message, so the memory is fixed. The callbacks of
    the user, which write to the stream, are parameters. *)

From stdpp Require Import strings.
From S2P Require Import Prelude PbMem PbStream PbIter.

Section encode.
Context {U : Type} (user_write : U -> list Z -> bool * U).
Context (tables : Z -> list pb_field) (m : mem).
(** [funcs.encode(stream, field, arg)] and [type->encode(stream, extension)]:
    the first argument is the address of the function. *)
Context (encode_cb : Z -> pb_field -> Z -> M (@pb_ostream U) unit) (encode_ext : Z -> Z -> M (@pb_ostream U) unit).
#[local] Abbreviation ostream := (@pb_ostream U).

(** ** [pb_check_proto3_default_value] *)

Definition all_zero (l : list Z) : bool := forallb (fun b => b =? 0) l.

(** The loop over the fields of a submessage. *)
Fixpoint default_loop (check : pb_field -> Z -> option bool) (n : nat) (it : pb_field_iter) : option bool :=
  b ← check (pos tables it) (pData it);
  if negb b then Some false
  else
    let '(it, more) := pb_field_iter_next tables it in
    if more then match n with O => None | S n' => default_loop check n' it end else Some true.

Fixpoint pb_check_proto3_default_value (fuel : nat) (field : pb_field) (data : Z) : option bool :=
  let type := f_type field in
  let size := data + f_size_offset field in
  let rest :=
    if (PB_ATYPE type =? PB_ATYPE_STATIC) && (PB_LTYPE type =? PB_LTYPE_BYTES) then
      n ← load_u32 m data; Some (n =? 0)
    else if (PB_ATYPE type =? PB_ATYPE_STATIC) && (PB_LTYPE type =? PB_LTYPE_STRING) then
      c ← load m data 1; Some (znth c 0 =? 0)
    else if (PB_ATYPE type =? PB_ATYPE_STATIC) && (PB_LTYPE type =? PB_LTYPE_FIXED_LENGTH_BYTES) then
      Some (f_data_size field =? 0)
    else if (PB_ATYPE type =? PB_ATYPE_STATIC) && (PB_LTYPE type =? PB_LTYPE_SUBMESSAGE) then
      match fuel with
      | O => None
      | S fuel' =>
          let '(it, ok) := pb_field_iter_begin tables (f_ptr field) data in
          if ok then default_loop (pb_check_proto3_default_value fuel') (length (tables (f_ptr field))) it else Some true
      end
    else if (PB_ATYPE type =? PB_ATYPE_POINTER) && negb (packable (PB_LTYPE type)) then
      p ← load_ptr m data; Some (p =? 0)
    else l ← load m data (Z.to_nat (f_data_size field)); Some (all_zero l) in
  if PB_HTYPE type =? PB_HTYPE_REQUIRED then Some false
  else if PB_HTYPE type =? PB_HTYPE_REPEATED then
    if negb (f_size_offset field =? 0) then n ← load_u32 m size; Some (n =? 0)
    else if PB_ATYPE type =? PB_ATYPE_STATIC then Some false
    else rest
  else if PB_HTYPE type =? PB_HTYPE_ONEOF then n ← load_u32 m size; Some (n =? 0)
  else if negb (f_size_offset field =? 0) then l ← load m size 1; Some (negb (safe_read_bool l))
  else rest.

(** ** Encoders of a value at an address *)

(** The bytes that a scalar encoder reads. *)
Definition scalar_extent (ltype : Z) (field : pb_field) : Z :=
  if ltype =? PB_LTYPE_BOOL then 1
  else if ltype =? PB_LTYPE_FIXED32 then 4
  else if ltype =? PB_LTYPE_FIXED64 then 8
  else if int_size (f_data_size field) then f_data_size field else 0.

Definition pb_enc_bytes (field : pb_field) (src : Z) : M ostream unit :=
  if src =? 0 then pb_encode_string user_write [] 0
  else
    let* size := lift (load_u32 m src) in
    let allocsize := PB_BYTES_ARRAY_T_ALLOCSIZE size in
    if (allocsize <? size) || ((PB_ATYPE (f_type field) =? PB_ATYPE_STATIC) && (allocsize >? f_data_size field))
    then os_error "bytes size exceeded"
    else let* l := lift (load m (src + bytes_offset) (Z.to_nat size)) in pb_encode_string user_write l size.

(** [while (size < max_size && *p != '\0')]: the memory ends before the fuel does. *)
Fixpoint string_loop (n : nat) (p size max_size : Z) : option Z :=
  if size <? max_size then
    c ← m !! p;
    if c =? 0 then Some size
    else match n with O => None | S n' => string_loop n' (p + 1) (size + 1) max_size end
  else Some size.

Definition pb_enc_string (field : pb_field) (src : Z) : M ostream unit :=
  let max_size := if PB_ATYPE (f_type field) =? PB_ATYPE_POINTER then SIZE_MAX else f_data_size field in
  if src =? 0 then pb_encode_string user_write [] 0
  else
    let* size := lift (string_loop (size m) src 0 max_size) in
    let* l := lift (load m src (Z.to_nat size)) in
    pb_encode_string user_write l size.

(** [pb_encode] of the submessages. *)
Section submessages.
Context (encode : Z -> Z -> M ostream unit).

(** The part after the size was written: the message goes to a substream that
    takes [size] bytes. *)
Definition write_submessage (fields src_struct size : Z) : M ostream unit :=
  let* s := getst in
  if is_null (os_callback s) then pb_write user_write [] size
  else if size_t (bytes_written s + size) >? max_size s then os_error "stream full"
  else fun s =>
    let '(status, substream) := encode fields src_struct (OStream (os_callback s) size 0 None) in
    let s := OStream (os_callback substream) (max_size s) (size_t (bytes_written s + bytes_written substream))
               (os_errmsg substream) in
    if negb (bytes_written substream =? size) then os_error "submsg size changed" s
    else (status, s).

Definition pb_encode_submessage (fields src_struct : Z) : M ostream unit :=
  let* size := (fun s =>
    match encode fields src_struct PB_OSTREAM_SIZING with
    | (Some _, substream) => (Some (bytes_written substream), s)
    | (None, substream) => (None, OStream (os_callback s) (max_size s) (bytes_written s) (os_errmsg substream))
    end) in
  pb_encode_varint user_write size ;; write_submessage fields src_struct size.

Definition pb_enc_submessage (field : pb_field) (src : Z) : M ostream unit :=
  if f_ptr field =? 0 then os_error "invalid field descriptor" else pb_encode_submessage (f_ptr field) src.

(** All of [PB_ENCODERS]. *)
Definition pb_encoder (ltype : Z) : option (pb_field -> Z -> M ostream unit) :=
  match PB_ENCODERS user_write ltype with
  | Some enc => Some (fun field src =>
      let* l := lift (load m src (Z.to_nat (scalar_extent ltype field))) in enc field l)
  | None =>
      if ltype =? PB_LTYPE_BYTES then Some pb_enc_bytes
      else if ltype =? PB_LTYPE_STRING then Some pb_enc_string
      else if ltype =? PB_LTYPE_SUBMESSAGE then Some pb_enc_submessage
      else if ltype =? PB_LTYPE_FIXED_LENGTH_BYTES then Some (fun field src =>
        let* l := lift (load m src (Z.to_nat (f_data_size field))) in pb_enc_fixed_length_bytes user_write field l)
      else None
  end.

(** [func(stream, field, p)]; a NULL function has no result. *)
Definition call_encoder (field : pb_field) (p : Z) : M ostream unit :=
  match pb_encoder (PB_LTYPE (f_type field)) with Some func => func field p | None => fail end.

Definition encode_array (field : pb_field) (data count : Z) : M ostream unit :=
  let type := f_type field in
  if count =? 0 then ret tt
  else if negb (PB_ATYPE type =? PB_ATYPE_POINTER) && (count >? f_array_size field) then os_error "array max size exceeded"
  else if packable (PB_LTYPE type) then
    pb_encode_tag user_write PB_WT_STRING (f_tag field) ;;
    let* size :=
      if PB_LTYPE type =? PB_LTYPE_FIXED32 then ret (4 * count)
      else if PB_LTYPE type =? PB_LTYPE_FIXED64 then ret (8 * count)
      else
        let* '(_, sizestream) :=
          on PB_OSTREAM_SIZING (each_item (Z.to_nat count) (call_encoder field) (f_data_size field) data) in
        ret (bytes_written sizestream) in
    pb_encode_varint user_write size ;;
    let* s := getst in
    if is_null (os_callback s) then pb_write user_write [] size
    else each_item (Z.to_nat count) (call_encoder field) (f_data_size field) data
  else
    each_item (Z.to_nat count) (fun p =>
      pb_encode_tag_for_field user_write field ;;
      if (PB_ATYPE type =? PB_ATYPE_POINTER) &&
         ((PB_LTYPE type =? PB_LTYPE_STRING) || (PB_LTYPE type =? PB_LTYPE_BYTES))
      then let* q := lift (load_ptr m p) in call_encoder field q
      else call_encoder field p) (f_data_size field) data.

(** [fuel] is for [pb_check_proto3_default_value]. *)
Definition encode_basic_field (fuel : nat) (field : pb_field) (data : Z) : M ostream unit :=
  let type := f_type field in
  let size := data + f_size_offset field in
  let* implicit_has :=
    if negb (f_size_offset field =? 0) then ret false
    else if PB_HTYPE type =? PB_HTYPE_OPTIONAL then
      let* b := lift (pb_check_proto3_default_value fuel field data) in ret (negb b)
    else ret true in
  let* '(data, implicit_has) :=
    if PB_ATYPE type =? PB_ATYPE_POINTER then
      let* p := lift (load_ptr m data) in ret (p, negb (p =? 0))
    else ret (data, implicit_has) in
  if PB_HTYPE type =? PB_HTYPE_REQUIRED then
    if data =? 0 then os_error "missing required field"
    else pb_encode_tag_for_field user_write field ;; call_encoder field data
  else if PB_HTYPE type =? PB_HTYPE_OPTIONAL then
    let* has :=
      if negb (f_size_offset field =? 0) then let* l := lift (load m size 1) in ret (safe_read_bool l)
      else ret implicit_has in
    if has : bool then pb_encode_tag_for_field user_write field ;; call_encoder field data else ret tt
  else if PB_HTYPE type =? PB_HTYPE_REPEATED then
    let* count := if negb (f_size_offset field =? 0) then lift (load_u32 m size) else ret (f_array_size field) in
    encode_array field data count
  else
    (** [PB_HTYPE_ONEOF]; without a [size_offset] it would read a [bool] as a [pb_size_t] *)
    let* which := if negb (f_size_offset field =? 0) then lift (load_u32 m size) else fail in
    if which =? f_tag field then pb_encode_tag_for_field user_write field ;; call_encoder field data else ret tt.

Definition encode_callback_field (field : pb_field) (data : Z) : M ostream unit := fun s =>
  match load_ptr m (callback_funcs data) with
  | None => (None, s)
  | Some encode =>
      if negb (encode =? 0) then
        match encode_cb encode field (callback_arg data) s with
        | (Some _, s) => (Some tt, s)
        | (None, s) => os_error "callback error" s
        end
      else (Some tt, s)
  end.

Definition encode_field (fuel : nat) (field : pb_field) (data : Z) : M ostream unit :=
  if (PB_ATYPE (f_type field) =? PB_ATYPE_STATIC) || (PB_ATYPE (f_type field) =? PB_ATYPE_POINTER)
  then encode_basic_field fuel field data
  else if PB_ATYPE (f_type field) =? PB_ATYPE_CALLBACK then encode_callback_field field data
  else os_error "invalid field type".

Definition default_extension_encoder (fuel : nat) (extension : Z) : M ostream unit :=
  let* type := lift (load_ptr m (extension_type extension)) in
  let* arg := lift (load_ptr m (type_arg type)) in
  let field := field_at tables arg 0 in
  if PB_ATYPE (f_type field) =? PB_ATYPE_POINTER then encode_field fuel field (extension_dest extension)
  else let* dest := lift (load_ptr m (extension_dest extension)) in encode_field fuel field dest.

(** The linked list of extensions. *)
Fixpoint extension_loop (n : nat) (fuel : nat) (extension : Z) : M ostream unit :=
  if extension =? 0 then ret tt
  else match n with
       | O => fail
       | S n' =>
           let* type := lift (load_ptr m (extension_type extension)) in
           let* encode := lift (load_ptr m (type_encode type)) in
           (if negb (encode =? 0) then encode_ext encode extension else default_extension_encoder fuel extension) ;;
           let* next := lift (load_ptr m (extension_next extension)) in
           extension_loop n' fuel next
       end.
Definition encode_extension_field (fuel : nat) (data : Z) : M ostream unit :=
  let* extension := lift (load_ptr m data) in extension_loop (size m) fuel extension.

(** The loop of [pb_encode]. *)
Fixpoint encode_loop (n : nat) (fuel : nat) (it : pb_field_iter) : M ostream unit :=
  (if PB_LTYPE (f_type (pos tables it)) =? PB_LTYPE_EXTENSION then encode_extension_field fuel (pData it)
   else encode_field fuel (pos tables it) (pData it)) ;;
  let '(it, more) := pb_field_iter_next tables it in
  if more then match n with O => fail | S n' => encode_loop n' fuel it end else ret tt.
End submessages.

(** [fuel]: how deep submessages nest. *)
Fixpoint pb_encode (fuel : nat) (fields src_struct : Z) : M ostream unit :=
  match fuel with
  | O => fail
  | S fuel' =>
      let '(it, ok) := pb_field_iter_begin tables fields src_struct in
      if ok then encode_loop (pb_encode fuel') (length (tables fields)) fuel it else ret tt
  end.

Definition pb_encode_delimited (fuel : nat) (fields src_struct : Z) : M ostream unit :=
  pb_encode_submessage (pb_encode fuel) fields src_struct.

Definition pb_encode_nullterminated (fuel : nat) (fields src_struct : Z) : M ostream unit :=
  pb_encode fuel fields src_struct ;; pb_write user_write [0] 1.

Definition pb_get_encoded_size (fuel : nat) (fields src_struct : Z) : option Z :=
  match pb_encode fuel fields src_struct PB_OSTREAM_SIZING with
  | (Some _, stream) => Some (bytes_written stream)
  | (None, _) => None
  end.
End encode.
