(* ===== verification/PbEncode.v ===== *)
(** * nanopb messages: what [pb_encode] writes.

    A message in memory is a list of records in the sense of the protobuf
    encoding guide: a field number, a wire type and a payload ([msg_items]). The
    encoder emits the wire form of this list, whatever the stream: it counts it,
    or stores it in a buffer that has room, or reports that it has not. *)

From stdpp Require Import strings.
From S2P Require Import Prelude PbMem PbStream PbWire PbIter PbMessage.

(** ** Records *)

(** [Raw]: what a callback of the user writes. *)
Inductive item := Rec (tag wt : Z) (payload : list Z) | Raw (l : list Z).

Definition wire_item (i : item) : list Z :=
  match i with
  | Rec tag wt l => varint (tag * 8 + wt) ++ (if wt =? PB_WT_STRING then varint (zlen l) ++ l else l)
  | Raw l => l
  end.
Definition wire (l : list item) : list Z := concat (wire_item <$> l).

Lemma wire_app l1 l2 : wire (l1 ++ l2) = wire l1 ++ wire l2.
Proof. unfold wire. rewrite fmap_app. apply concat_app. Qed.

Lemma wire_concat l : wire (concat l) = concat (wire <$> l).
Proof.
  induction l as [|x l IH]; [done|]. change (wire (x ++ concat l) = wire x ++ concat (wire <$> l)).
  rewrite wire_app, IH. done.
Qed.

(** ** Outcomes *)

(** [Error]: the encoder reports an error. [Undef]: it reads memory that is not
    mapped, or submessages nest deeper than the fuel; then nothing is claimed. *)
Inductive outcome (A : Type) := Done (a : A) | Error | Undef.
Arguments Done {A} _.
Arguments Error {A}.
Arguments Undef {A}.
#[export] Instance outcome_ret : MRet outcome := fun _ a => Done a.
#[export] Instance outcome_bind : MBind outcome := fun _ _ f o =>
  match o with Done a => f a | Error => Error | Undef => Undef end.
#[export] Instance outcome_fmap : FMap outcome := fun _ _ f o =>
  match o with Done a => Done (f a) | Error => Error | Undef => Undef end.
Definition get {A} (o : option A) : outcome A := match o with Some a => Done a | None => Undef end.

(** ** The records of a message *)

(** [n] consecutive entries of an array. *)
Fixpoint entries {A} (n : nat) (f : Z -> outcome A) (data_size p : Z) : outcome (list A) :=
  match n with
  | O => Done []
  | S n' => x ← f p; l ← entries n' f data_size (p + data_size); Done (x :: l)
  end.

Definition scalar_payload (ltype : Z) (l : list Z) : list Z :=
  if ltype =? PB_LTYPE_BOOL then [if znth l 0 =? 0 then 0 else 1] else scalar_wire ltype l.

Section items.
Context (tables : Z -> list pb_field) (m : mem).
(** What a callback writes. *)
Context (cb_wire : Z -> pb_field -> Z -> outcome (list Z)) (ext_wire : Z -> Z -> outcome (list Z)).

Section members.
Context (submessage : Z -> Z -> outcome (list Z)).

(** The payload of the value at [p]. *)
Definition payload (field : pb_field) (p : Z) : outcome (list Z) :=
  let ltype := PB_LTYPE (f_type field) in
  if packable ltype then
    l ← get (load m p (Z.to_nat (scalar_extent ltype field)));
    if zlen l =? 0 then Error else Done (scalar_payload ltype l)
  else if ltype =? PB_LTYPE_BYTES then
    if p =? 0 then Done []
    else
      n ← get (load_u32 m p);
      if (PB_ATYPE (f_type field) =? PB_ATYPE_STATIC) && (n + bytes_offset >? f_data_size field) then Error
      else get (load m (p + bytes_offset) (Z.to_nat n))
  else if ltype =? PB_LTYPE_STRING then
    if p =? 0 then Done []
    else
      n ← get (string_loop m (size m) p 0
                 (if PB_ATYPE (f_type field) =? PB_ATYPE_POINTER then SIZE_MAX else f_data_size field));
      get (load m p (Z.to_nat n))
  else if ltype =? PB_LTYPE_SUBMESSAGE then if f_ptr field =? 0 then Error else submessage (f_ptr field) p
  else if ltype =? PB_LTYPE_FIXED_LENGTH_BYTES then get (load m p (Z.to_nat (f_data_size field)))
  else Undef.

Definition record (field : pb_field) (p : Z) : outcome (list item) :=
  match wire_type_of (PB_LTYPE (f_type field)) with
  | Some wt => l ← payload field p; Done [Rec (f_tag field) wt l]
  | None => Error
  end.

(** Repeated scalars are packed into one record. *)
Definition array_items (field : pb_field) (p count : Z) : outcome (list item) :=
  let type := f_type field in
  if count =? 0 then Done []
  else if negb (PB_ATYPE type =? PB_ATYPE_POINTER) && (count >? f_array_size field) then Error
  else if packable (PB_LTYPE type) then
    l ← entries (Z.to_nat count) (payload field) (f_data_size field) p;
    Done [Rec (f_tag field) PB_WT_STRING (concat l)]
  else
    (fun l => concat l) <$> entries (Z.to_nat count) (fun p =>
      q ← (if (PB_ATYPE type =? PB_ATYPE_POINTER) &&
              ((PB_LTYPE type =? PB_LTYPE_STRING) || (PB_LTYPE type =? PB_LTYPE_BYTES)) then get (load_ptr m p) else Done p);
      record field q) (f_data_size field) p.

(** Whether an optional field is there: its [has_] member, or a pointer that is
    not NULL, or a value that is not the default of proto3. *)
Definition present (fuel : nat) (field : pb_field) (data : Z) : outcome bool :=
  if negb (f_size_offset field =? 0) then
    _ ← (if PB_ATYPE (f_type field) =? PB_ATYPE_POINTER then get (load_ptr m data) else Done 0);
    l ← get (load m (data + f_size_offset field) 1); Done (safe_read_bool l)
  else
    b ← get (pb_check_proto3_default_value tables m fuel field data);
    if PB_ATYPE (f_type field) =? PB_ATYPE_POINTER then p ← get (load_ptr m data); Done (negb (p =? 0)) else Done (negb b).

Definition field_items (fuel : nat) (field : pb_field) (data : Z) : outcome (list item) :=
  let type := f_type field in
  let pointer := PB_ATYPE type =? PB_ATYPE_POINTER in
  let value := if pointer then get (load_ptr m data) else Done data in
  if PB_HTYPE type =? PB_HTYPE_REQUIRED then
    p ← value; if p =? 0 then Error else record field p
  else if PB_HTYPE type =? PB_HTYPE_OPTIONAL then
    has ← present fuel field data; if has : bool then p ← value; record field p else Done []
  else if PB_HTYPE type =? PB_HTYPE_REPEATED then
    p ← value;
    count ← (if negb (f_size_offset field =? 0) then get (load_u32 m (data + f_size_offset field)) else Done (f_array_size field));
    array_items field p count
  else
    p ← value;
    which ← (if negb (f_size_offset field =? 0) then get (load_u32 m (data + f_size_offset field)) else Undef);
    if which =? f_tag field then record field p else Done [].

Definition callback_items (field : pb_field) (data : Z) : outcome (list item) :=
  encode ← get (load_ptr m (callback_funcs data));
  if encode =? 0 then Done [] else l ← cb_wire encode field (callback_arg data); Done [Raw l].

Definition member_items (fuel : nat) (field : pb_field) (data : Z) : outcome (list item) :=
  let atype := PB_ATYPE (f_type field) in
  if (atype =? PB_ATYPE_STATIC) || (atype =? PB_ATYPE_POINTER) then field_items fuel field data
  else if atype =? PB_ATYPE_CALLBACK then callback_items field data
  else Error.

Fixpoint extension_items (n : nat) (fuel : nat) (extension : Z) : outcome (list item) :=
  if extension =? 0 then Done []
  else match n with
       | O => Undef
       | S n' =>
           type ← get (load_ptr m (extension_type extension));
           encode ← get (load_ptr m (type_encode type));
           l ← (if negb (encode =? 0) then l ← ext_wire encode extension; Done [Raw l]
                else
                  arg ← get (load_ptr m (type_arg type));
                  let field := field_at tables arg 0 in
                  if PB_ATYPE (f_type field) =? PB_ATYPE_POINTER then member_items fuel field (extension_dest extension)
                  else dest ← get (load_ptr m (extension_dest extension)); member_items fuel field dest);
           next ← get (load_ptr m (extension_next extension));
           l' ← extension_items n' fuel next;
           Done (l ++ l')
       end.

(** The records of one member. *)
Definition items_of (fuel : nat) (fa : pb_field * Z) : outcome (list item) :=
  if PB_LTYPE (f_type fa.1) =? PB_LTYPE_EXTENSION then
    extension ← get (load_ptr m fa.2); extension_items (size m) fuel extension
  else member_items fuel fa.1 fa.2.
End members.

Fixpoint items_all {A} (f : A -> outcome (list item)) (l : list A) : outcome (list item) :=
  match l with
  | [] => Done []
  | x :: l' => i ← f x; r ← items_all f l'; Done (i ++ r)
  end.

Fixpoint msg_items (fuel : nat) (fields src : Z) : outcome (list item) :=
  match fuel with
  | O => Undef
  | S fuel' => items_all (items_of (fun t p => wire <$> msg_items fuel' t p) fuel) (members (tables fields) src)
  end.
End items.

(** ** Calls that emit what a specification says *)

Section encodes.
Context {U : Type} (user_write : U -> list Z -> bool * U).
#[local] Abbreviation ostream := (@pb_ostream U).

(** [mm] does what the specification says: it emits the bytes, or it fails on
    every stream. *)
Definition encodes (mm : M ostream unit) (o : outcome (list Z)) : Prop :=
  match o with
  | Done d => zlen d < 2 ^ 62 -> emits mm d
  | Error => forall s, fst (mm s) = None
  | Undef => True
  end.

Lemma encodes_ret : encodes (ret tt) (Done []).
Proof. intros _. apply emits_nil. Qed.
Lemma encodes_error msg : encodes (os_error msg) Error.
Proof. intros s. done. Qed.

Lemma encodes_seq m1 m2 o1 o2 : encodes m1 o1 -> encodes m2 o2 ->
  encodes (m1 ;; m2) (d1 ← o1; d2 ← o2; Done (d1 ++ d2)).
Proof.
  intros H1 H2. destruct o1 as [d1| |]; cbn [mbind outcome_bind]; [|intros s|done].
  - destruct o2 as [d2| |]; cbn [mbind outcome_bind]; [intros Hz|intros s|done].
    + rewrite zlen_app in Hz. pose proof (zlen_nonneg d1). pose proof (zlen_nonneg d2).
      apply emits_seq; [apply H1|apply H2]; lia.
    + unfold bind. destruct (m1 s) as [[|] s1]; [apply H2|done].
  - unfold bind. specialize (H1 s). destruct (m1 s) as [[|] s1]; done.
Qed.

Lemma encodes_lift {A} (o : option A) k (w : A -> outcome (list Z)) :
  (forall a, o = Some a -> encodes (k a) (w a)) -> encodes (let* a := lift o in k a) (a ← get o; w a).
Proof. intros H. destruct o as [a|]; cbn [mbind outcome_bind get]; [exact (H a eq_refl)|done]. Qed.

Lemma encodes_varint v : 0 <= v < 2 ^ 64 -> encodes (pb_encode_varint user_write v) (Done (varint v)).
Proof. intros Hv _. by apply emits_varint. Qed.

Lemma encodes_string l : encodes (pb_encode_string user_write l (zlen l)) (Done (varint (zlen l) ++ l)).
Proof.
  intros Hz. rewrite zlen_app in Hz. pose proof (zlen_nonneg (varint (zlen l))). apply emits_string. lia.
Qed.

Lemma encodes_tag wt tag : 0 <= wt < 8 -> 0 <= tag < 2 ^ 32 ->
  encodes (pb_encode_tag user_write wt tag) (Done (varint (tag * 8 + wt))).
Proof.
  intros Hw Ht. unfold pb_encode_tag.
  rewrite u64_small, lor_add by (rewrite ?Z.shiftl_mul_pow2 by lia; lia). apply encodes_varint. lia.
Qed.

Lemma wire_type_range ltype wt : wire_type_of ltype = Some wt -> 0 <= wt < 8.
Proof. unfold wire_type_of. intros H. unfold PB_WT_VARINT, PB_WT_32BIT, PB_WT_64BIT, PB_WT_STRING in H. repeat case_match; simplify_eq; lia. Qed.

Lemma encodes_tag_for_field field : 0 <= f_tag field < 2 ^ 32 ->
  encodes (pb_encode_tag_for_field user_write field)
    (match wire_type_of (PB_LTYPE (f_type field)) with Some wt => Done (varint (f_tag field * 8 + wt)) | None => Error end).
Proof.
  intros Ht. unfold pb_encode_tag_for_field. destruct (wire_type_of _) as [wt|] eqn:E.
  - apply encodes_tag; [|done]. by eapply wire_type_range.
  - apply encodes_error.
Qed.

(** The prefix with the length of what follows is computed by encoding it to a
    stream that counts. *)
Lemma encodes_count (mm : M ostream unit) d : emits mm d -> zlen d < 2 ^ 64 ->
  mm PB_OSTREAM_SIZING = (Some tt, OStream ONull 0 (zlen d) None).
Proof.
  intros H Hz. rewrite (emits_count _ _ H) by (done || (cbn; lia)). done.
Qed.

Lemma emits_skip (d : list Z) (s : ostream) : os_callback s = ONull -> 0 <= bytes_written s -> bytes_written s + zlen d < 2 ^ 64 ->
  pb_write user_write [] (zlen d) s = (Some tt, OStream ONull (max_size s) (bytes_written s + zlen d) (os_errmsg s)).
Proof.
  intros Hs Hb Hz. pose proof (zlen_nonneg d). unfold pb_write. rewrite Hs. cbn [is_null negb].
  rewrite andb_false_r, size_t_small by lia. done.
Qed.

(** Counting the items instead of writing them, once their size is known. *)
Lemma emits_or_count (mm : M ostream unit) d : emits mm d ->
  emits (let* s := getst in if is_null (os_callback s) then pb_write user_write [] (zlen d) else mm) d.
Proof.
  intros H. constructor; unfold bind, getst.
  - intros s Hs Hb Hz. rewrite Hs. cbn [is_null]. by apply emits_skip.
  - intros s p l q Hs Hz. rewrite (out_pos _ _ _ _ Hs). cbn [is_null]. by apply (emits_store _ _ H).
  - intros s p l q Hs Hz Hl. rewrite (out_pos _ _ _ _ Hs). cbn [is_null]. by apply (emits_full _ _ H s p l q).
Qed.

Lemma emits_substream encode fields src d : emits (encode fields src) d ->
  emits (write_submessage user_write encode fields src (zlen d)) d.
Proof.
  intros He. pose proof (zlen_nonneg d). constructor; unfold write_submessage, bind, getst.
  - intros s Hs Hb Hl. rewrite Hs. cbn [is_null]. by apply emits_skip.
  - intros s p l q Hs Hl. pose proof (zlen_nonneg l). destruct Hs as [Hp Hw Hr Hm]. rewrite Hp, Hw. cbn [is_null].
    rewrite Z.gtb_ltb. rewrite size_t_small by lia. destruct (Z.ltb_spec (max_size s) (zlen l + zlen d)); [lia|].
    cbv beta. rewrite Hp, Hw.
    destruct (emits_store _ _ He (OStream (OBuf (p ++ l ++ q) (zlen p + zlen l)) (zlen d) 0 None) (p ++ l) [] q)
      as (s' & -> & [Hp' Hw' Hr' Hm'] & _).
    { constructor; cbn [os_callback bytes_written max_size]; rewrite ?zlen_nil; [|done|lia|lia].
      cbn [app]. rewrite <- app_assoc, zlen_app, Z.add_0_r. done. }
    { cbn [max_size]. rewrite zlen_nil. lia. }
    cbn [app] in Hp', Hw'. rewrite Hw', Z.eqb_refl. cbn [negb]. eexists. split; [reflexivity|]. split; [|done].
    constructor; cbn [os_callback bytes_written max_size].
    + rewrite Hp', !zlen_app. f_equal; [rewrite <- !app_assoc; done|lia].
    + rewrite zlen_app. apply size_t_small. lia.
    + rewrite zlen_app, zlen_zdrop by lia. lia.
    + done.
  - intros s p l q Hs Hz' Hl. pose proof (zlen_nonneg l). destruct Hs as [Hp Hw Hr Hm]. rewrite Hp, Hw. cbn [is_null].
    rewrite Z.gtb_ltb. rewrite size_t_small by lia. destruct (Z.ltb_spec (max_size s) (zlen l + zlen d)); [done|lia].
Qed.

Lemma emits_ext (m1 m2 : M ostream unit) d : (forall s, m1 s = m2 s) -> emits m2 d -> emits m1 d.
Proof. intros E [A B C]. constructor; intros; rewrite E; eauto. Qed.

Lemma encodes_submessage encode fields src o : encodes (encode fields src) o ->
  encodes (pb_encode_submessage user_write encode fields src) (d ← o; Done (varint (zlen d) ++ d)).
Proof.
  intros H. destruct o as [d| |]; cbn [mbind outcome_bind]; [|intros s|done].
  2: { unfold pb_encode_submessage, bind. specialize (H PB_OSTREAM_SIZING).
       destruct (encode fields src PB_OSTREAM_SIZING) as [[|] s1]; done. }
  intros Hz. rewrite zlen_app in Hz. pose proof (zlen_nonneg d). pose proof (zlen_nonneg (varint (zlen d))).
  assert (He : emits (encode fields src) d) by (apply H; lia).
  apply (emits_ext _ (pb_encode_varint user_write (zlen d) ;; write_submessage user_write encode fields src (zlen d))).
  - intros s. unfold pb_encode_submessage. unfold bind at 1. rewrite (encodes_count _ _ He) by lia. done.
  - apply emits_seq; [apply emits_varint; lia|by apply emits_substream].
Qed.
End encodes.

(** ** Bytes in memory *)

Lemma load_bytes m a n l : mem_ok m -> load m a n = Some l -> bytes_ok l /\ zlen l = Z.of_nat n.
Proof.
  intros Hm. revert a l. induction n as [|n IH]; intros a l H; cbn [load] in H; [by simplify_eq|].
  destruct (m !! a) as [b|] eqn:E; [|done]. cbn [mbind option_bind] in H.
  destruct (load m (a + 1) n) as [l'|] eqn:El; [|done]. simplify_eq/=. destruct (IH _ _ El) as [Hb Hz].
  split; [constructor; [exact (Hm _ _ E)|done]|rewrite zlen_cons; lia].
Qed.

Lemma load_u32_range m a v : mem_ok m -> load_u32 m a = Some v -> 0 <= v < 2 ^ 32.
Proof.
  intros Hm H. unfold load_u32 in H. apply fmap_Some in H as (l & E & ->).
  destruct (load_bytes _ _ _ _ Hm E) as [Hb Hz]. pose proof (le_val_range l Hb) as Hr. rewrite Hz in Hr.
  change (256 ^ Z.of_nat 4) with (2 ^ 32) in Hr. lia.
Qed.

Ltac ltype_split n := repeat match goal with |- context[n =? ?k] => destruct (Z.eqb_spec n k); [lia|] end.

(** Scalars are the packable types. *)
Lemma encoders_scalar {U} (user_write : U -> list Z -> bool * U) n : 0 <= n < 16 ->
  if packable n then is_Some (PB_ENCODERS user_write n) else PB_ENCODERS user_write n = None.
Proof.
  intros H. unfold packable, PB_ENCODERS. destruct (Z.leb_spec n PB_LTYPE_LAST_PACKABLE) as [Hn|Hn]; unfold PB_LTYPE_LAST_PACKABLE in Hn.
  - assert (n = 0 \/ n = 1 \/ n = 2 \/ n = 3 \/ n = 4 \/ n = 5) as [->|[->|[->|[->|[->| ->]]]]] by lia; eauto.
  - unfold PB_LTYPE_BOOL, PB_LTYPE_VARINT, PB_LTYPE_UVARINT, PB_LTYPE_SVARINT, PB_LTYPE_FIXED32, PB_LTYPE_FIXED64.
    ltype_split n. done.
Qed.

Lemma wire_type_packable n wt : 0 <= n < 16 -> wire_type_of n = Some wt -> (wt =? PB_WT_STRING) = negb (packable n).
Proof.
  intros H Hw.
  assert (Hall : forallb (fun n => match wire_type_of n with
    | Some wt => Bool.eqb (wt =? PB_WT_STRING) (negb (packable n)) | None => true end) (zseq 16) = true) by reflexivity.
  rewrite forallb_forall in Hall. specialize (Hall n). rewrite Hw in Hall. apply Bool.eqb_prop, Hall.
  unfold zseq. apply in_map_iff. exists (Z.to_nat n). rewrite in_seq. lia.
Qed.

Lemma scalar_encodes {U} (user_write : U -> list Z -> bool * U) n field l enc : 0 <= n < 16 ->
  PB_ENCODERS user_write n = Some enc -> bytes_ok l -> zlen l = scalar_extent n field ->
  encodes (enc field l) (if zlen l =? 0 then Error else Done (scalar_payload n l)).
Proof.
  intros Hn He Hl Hz. pose proof (encoders_scalar user_write n Hn) as Hp. destruct (packable n) eqn:En; [|congruence].
  unfold packable in En. apply Z.leb_le in En. unfold PB_LTYPE_LAST_PACKABLE in En.
  assert (n = 0 \/ n = 4 \/ n = 5 \/ (n = 1 \/ n = 2 \/ n = 3)) as [->|[->|[->|Hi]]] by lia.
  - cbn in Hz, He. simplify_eq. rewrite Hz. cbn [Z.eqb]. intros _. unfold pb_enc_bool, safe_read_bool.
    destruct (Z.eqb_spec (znth l 0) 0) as [E|E]; unfold scalar_payload; cbn; (rewrite E || rewrite (proj2 (Z.eqb_neq _ _) E)); by apply emits_write.
  - cbn in Hz, He. simplify_eq. rewrite Hz. intros _. apply (scalar_emits user_write PB_LTYPE_FIXED32 (PbField 0 0 0 0 4 0 0) l (pb_enc_fixed32 user_write)); [|done].
    split_and!; [done|done|tauto].
  - cbn in Hz, He. simplify_eq. rewrite Hz. intros _. apply (scalar_emits user_write PB_LTYPE_FIXED64 (PbField 0 0 0 0 8 0 0) l (pb_enc_fixed64 user_write)); [|done].
    split_and!; [done|done|tauto].
  - assert (Hs : scalar_extent n field = if int_size (f_data_size field) then f_data_size field else 0).
    { destruct Hi as [->|[->| ->]]; done. }
    rewrite Hs in Hz. destruct (int_size (f_data_size field)) eqn:Ei.
    + destruct (Z.eqb_spec (zlen l) 0) as [E|_]; [destruct (int_sizes _ Ei); lia|]. intros _.
      replace (scalar_payload n l) with (scalar_wire n l) by (destruct Hi as [->|[->| ->]]; done).
      apply (scalar_emits user_write n field l enc); [|done]. split_and!; [done|done|]. right. left. rewrite Hz. done.
    + rewrite Hz. cbn [Z.eqb]. destruct Hi as [->|[->| ->]]; cbn in He; simplify_eq;
        unfold pb_enc_varint, pb_enc_uvarint, pb_enc_svarint; rewrite Ei; apply encodes_error.
Qed.

(** ** Messages *)

(** What the callbacks of the user promise: each writes the same bytes whatever
    the stream, or fails. *)
Class EncodeCallbacks {U} (encode_cb : Z -> pb_field -> Z -> M (@pb_ostream U) unit) (encode_ext : Z -> Z -> M (@pb_ostream U) unit)
  (cb_wire : Z -> pb_field -> Z -> outcome (list Z)) (ext_wire : Z -> Z -> outcome (list Z)) : Prop := {
  callback_encodes fn field arg : encodes (encode_cb fn field arg) (cb_wire fn field arg);
  extension_encodes fn e : encodes (encode_ext fn e) (ext_wire fn e) }.

Section messages.
Context {U : Type} (user_write : U -> list Z -> bool * U).
Context (tables : Z -> list pb_field) (m : mem).
Context (encode_cb : Z -> pb_field -> Z -> M (@pb_ostream U) unit) (encode_ext : Z -> Z -> M (@pb_ostream U) unit).
Context (cb_wire : Z -> pb_field -> Z -> outcome (list Z)) (ext_wire : Z -> Z -> outcome (list Z)).
Context {callbacks : EncodeCallbacks encode_cb encode_ext cb_wire ext_wire}.
Hypothesis tables_ok : forall t, Forall field_ok (tables t).
Hypothesis bytes_in_mem : mem_ok m.
#[local] Abbreviation ostream := (@pb_ostream U).

Lemma encodes_items (m1 m2 : M ostream unit) o1 o2 : encodes m1 (wire <$> o1) -> encodes m2 (wire <$> o2) ->
  encodes (m1 ;; m2) (wire <$> (i ← o1; r ← o2; Done (i ++ r))).
Proof.
  intros H1 H2. pose proof (encodes_seq _ _ _ _ H1 H2) as H.
  destruct o1 as [i| |], o2 as [r| |]; cbn in *; rewrite ?wire_app; exact H.
Qed.

Section with_submessages.
Context (encode : Z -> Z -> M ostream unit) (submessage : Z -> Z -> outcome (list Z)).
Hypothesis sub_encodes : forall t p, encodes (encode t p) (submessage t p).
#[local] Abbreviation call := (call_encoder user_write m encode).
#[local] Abbreviation pay := (payload m submessage).

(** A payload as a record holds it. *)
Definition payload_delimited (ltype : Z) (l : list Z) : list Z := if packable ltype then l else varint (zlen l) ++ l.

Lemma encodes_loaded a n (k : list Z -> M ostream unit) : 0 <= n -> (forall l, k l = pb_encode_string user_write l n) ->
  encodes (let* l := lift (load m a (Z.to_nat n)) in k l) (l ← get (load m a (Z.to_nat n)); Done (varint (zlen l) ++ l)).
Proof.
  intros Hn Hk. apply encodes_lift. intros l E. destruct (load_bytes _ _ _ _ bytes_in_mem E) as [_ Hz].
  rewrite Hk. replace n with (zlen l) by lia. apply encodes_string.
Qed.

Lemma string_loop_range n p s mx r : string_loop m n p s mx = Some r -> s <= r.
Proof.
  revert p s. induction n as [|n IH]; intros p s H; cbn [string_loop] in H; (destruct (s <? mx); [|simplify_eq; lia]);
    (destruct (m !! p) as [c|]; [|done]); cbn [mbind option_bind] in H; (destruct (c =? 0); [simplify_eq; lia|]).
  - done.
  - apply IH in H. lia.
Qed.

Lemma call_encodes field p : field_ok field ->
  encodes (call field p) (l ← pay field p; Done (payload_delimited (PB_LTYPE (f_type field)) l)).
Proof.
  intros (_ & Hs & _). unfold call_encoder, pb_encoder, payload, payload_delimited.
  pose proof (ltype_cases (f_type field)) as Hn. set (n := PB_LTYPE (f_type field)) in *.
  pose proof (encoders_scalar user_write n Hn) as He. destruct (packable n).
  - destruct He as [enc Ee]. rewrite Ee.
    destruct (load m p (Z.to_nat (scalar_extent n field))) as [l|] eqn:El; cbn [mbind outcome_bind get]; [|done].
    destruct (load_bytes _ _ _ _ bytes_in_mem El) as [Hb Hz].
    assert (0 <= scalar_extent n field) by (unfold scalar_extent; repeat case_match; lia).
    pose proof (scalar_encodes user_write n field l enc Hn Ee Hb ltac:(lia)) as S.
    destruct (zlen l =? 0); exact S.
  - rewrite He. destruct (n =? PB_LTYPE_BYTES); [|destruct (n =? PB_LTYPE_STRING);
      [|destruct (n =? PB_LTYPE_SUBMESSAGE); [|destruct (n =? PB_LTYPE_FIXED_LENGTH_BYTES)]]].
    + unfold pb_enc_bytes. destruct (p =? 0); cbn [mbind outcome_bind]; [apply (encodes_string user_write [])|].
      destruct (load_u32 m p) as [v|] eqn:Ev; cbn [mbind outcome_bind get]; [|done].
      pose proof (load_u32_range _ _ _ bytes_in_mem Ev) as Hv.
      change (let* size := lift (Some v) in ?k size) with (k v). unfold bind at 1, lift at 1. cbv zeta.
      unfold PB_BYTES_ARRAY_T_ALLOCSIZE. rewrite size_t_small by (unfold bytes_offset; lia).
      destruct (Z.ltb_spec (v + bytes_offset) v); [unfold bytes_offset in *; lia|]. cbn [orb].
      destruct ((_ =? _) && _); [apply encodes_error|]. apply encodes_loaded; [lia|done].
    + unfold pb_enc_string. destruct (p =? 0); cbn [mbind outcome_bind]; [apply (encodes_string user_write [])|].
      destruct (string_loop _ _ _ _ _) as [v|] eqn:Ev; cbn [mbind outcome_bind get]; [|done].
      apply string_loop_range in Ev. by apply encodes_loaded.
    + unfold pb_enc_submessage. destruct (f_ptr field =? 0); [apply encodes_error|].
      apply encodes_submessage, sub_encodes.
    + apply encodes_loaded; [lia|done].
    + done.
Qed.

Lemma record_encodes field p : field_ok field ->
  encodes (pb_encode_tag_for_field user_write field ;; call field p) (wire <$> record m submessage field p).
Proof.
  intros Hf. pose proof (encodes_seq _ _ _ _ (encodes_tag_for_field user_write field (proj1 Hf)) (call_encodes field p Hf)) as H.
  unfold record. destruct (wire_type_of _) as [wt|] eqn:Ew; cbn [mbind outcome_bind] in *; [|exact H].
  pose proof (wire_type_packable _ _ (ltype_cases (f_type field)) Ew) as Hw.
  destruct (pay field p) as [l| |]; cbn [mbind outcome_bind fmap outcome_fmap] in *; [|exact H..].
  unfold wire, payload_delimited in *. cbn [fmap list_fmap concat wire_item map]. rewrite app_nil_r, Hw.
  destruct (packable _); exact H.
Qed.

Lemma each_encodes {A} (f : Z -> M ostream unit) (g : Z -> outcome A) (w : A -> list Z) size n : forall p,
  (forall p, encodes (f p) (w <$> g p)) ->
  encodes (each_item n f size p) ((fun l => concat (w <$> l)) <$> entries n g size p).
Proof.
  induction n as [|n IH]; intros p H; cbn [each_item entries]; [apply encodes_ret|].
  pose proof (encodes_seq _ _ _ _ (H p) (IH (p + size) H)) as Hs.
  destruct (g p) as [x| |]; cbn [mbind outcome_bind fmap outcome_fmap] in *; [|exact Hs..].
  destruct (entries n g size (p + size)) as [l| |]; exact Hs.
Qed.

(** Entries of a fixed width. *)
Lemma entries_width n f size p (l : list (list Z)) k : entries n f size p = Done l -> (forall p l, f p = Done l -> zlen l = k) ->
  zlen (concat l) = k * Z.of_nat n.
Proof.
  intros H Hf. revert p l H. induction n as [|n IH]; intros p l; cbn [entries]; [intros [= <-]; rewrite Z.mul_0_r; done|].
  destruct (f p) as [x| |] eqn:E; cbn [mbind outcome_bind]; [|done..].
  destruct (entries n f size (p + size)) as [l'| |] eqn:El; [|done..]. intros [= <-]. cbn [concat].
  rewrite zlen_app, (IH _ _ El), (Hf _ _ E). lia.
Qed.

Lemma payload_fixed field p l k : (PB_LTYPE (f_type field) = PB_LTYPE_FIXED32 /\ k = 4 \/ PB_LTYPE (f_type field) = PB_LTYPE_FIXED64 /\ k = 8) ->
  pay field p = Done l -> zlen l = k.
Proof.
  unfold payload. intros [[-> ->]|[-> ->]] H;
    [change (packable PB_LTYPE_FIXED32) with true in H|change (packable PB_LTYPE_FIXED64) with true in H];
    cbv iota in H; (destruct (load m p _) as [l'|] eqn:E; [|done]); cbn [mbind outcome_bind get] in H;
    destruct (load_bytes _ _ _ _ bytes_in_mem E) as [_ Hz]; rewrite Hz in H; injection H as <-; exact Hz.
Qed.

Lemma entries_encodes field n p : field_ok field -> packable (PB_LTYPE (f_type field)) = true ->
  encodes (each_item n (call field) (f_data_size field) p)
    ((fun l => concat l) <$> entries n (pay field) (f_data_size field) p).
Proof.
  intros Hf Hp. pose proof (each_encodes (call field) (pay field) id (f_data_size field) n p) as H.
  destruct (entries _ _ _ _) as [l| |]; cbn [fmap outcome_fmap] in *; [rewrite list_fmap_id in H|..];
    apply H; intros q; pose proof (call_encodes field q Hf) as Hc; unfold payload_delimited in Hc; rewrite Hp in Hc;
    destruct (pay field q); exact Hc.
Qed.

Lemma entries_no_error {A} n (f : Z -> outcome A) size p : (forall p, f p <> Error) -> entries n f size p <> Error.
Proof.
  intros H. revert p. induction n as [|n IH]; intros p; cbn [entries]; [done|].
  specialize (H p). destruct (f p); cbn [mbind outcome_bind]; [|done..].
  specialize (IH (p + size)). destruct (entries _ _ _ _); done.
Qed.

Lemma fixed_no_error field p : PB_LTYPE (f_type field) = PB_LTYPE_FIXED32 \/ PB_LTYPE (f_type field) = PB_LTYPE_FIXED64 ->
  pay field p <> Error.
Proof.
  unfold payload. intros [-> | ->];
    [change (packable PB_LTYPE_FIXED32) with true|change (packable PB_LTYPE_FIXED64) with true]; cbv iota;
    (destruct (load m p _) as [l'|] eqn:E; [|done]); cbn [mbind outcome_bind get];
    destruct (load_bytes _ _ _ _ bytes_in_mem E) as [_ Hz]; rewrite Hz; done.
Qed.

(** The size of a packed array, as [encode_array] computes it. *)
Lemma packed_size field count data (l : list (list Z)) (k : Z -> M ostream unit) s : field_ok field -> packable (PB_LTYPE (f_type field)) = true ->
  0 <= count -> entries (Z.to_nat count) (pay field) (f_data_size field) data = Done l -> zlen (concat l) < 2 ^ 62 ->
  (let* size :=
     if PB_LTYPE (f_type field) =? PB_LTYPE_FIXED32 then ret (4 * count)
     else if PB_LTYPE (f_type field) =? PB_LTYPE_FIXED64 then ret (8 * count)
     else
       let* '(_, sizestream) := on PB_OSTREAM_SIZING (each_item (Z.to_nat count) (call field) (f_data_size field) data) in
       ret (bytes_written sizestream) in k size) s = k (zlen (concat l)) s.
Proof.
  intros Hf Hp Hc El Hz. pose proof (zlen_nonneg (concat l)).
  destruct (Z.eqb_spec (PB_LTYPE (f_type field)) PB_LTYPE_FIXED32) as [E4|_].
  { rewrite (entries_width _ _ _ _ _ 4 El), Z2Nat.id by (done || intros; eapply payload_fixed; eauto). done. }
  destruct (Z.eqb_spec (PB_LTYPE (f_type field)) PB_LTYPE_FIXED64) as [E8|_].
  { rewrite (entries_width _ _ _ _ _ 8 El), Z2Nat.id by (done || intros; eapply payload_fixed; eauto). done. }
  pose proof (entries_encodes field (Z.to_nat count) data Hf Hp) as He. rewrite El in He. cbn [fmap outcome_fmap] in He.
  unfold bind, on. rewrite (encodes_count _ _ (He Hz)) by lia. done.
Qed.

Lemma array_encodes field data count : field_ok field -> 0 <= count ->
  encodes (encode_array user_write m encode field data count) (wire <$> array_items m submessage field data count).
Proof.
  intros Hf Hc. unfold encode_array, array_items. cbv zeta. destruct (count =? 0); [apply encodes_ret|].
  destruct (negb _ && _); [apply encodes_error|]. destruct (packable _) eqn:Hp.
  - pose proof (entries_encodes field (Z.to_nat count) data Hf Hp) as He.
    destruct (entries (Z.to_nat count) (pay field) (f_data_size field) data) as [l| |] eqn:El; cbn [fmap outcome_fmap mbind outcome_bind] in *.
    + intros Hz. unfold wire in Hz |- *. cbn [fmap list_fmap concat wire_item map] in Hz |- *. rewrite app_nil_r in Hz |- *.
      change (PB_WT_STRING =? PB_WT_STRING) with true in Hz |- *. cbv iota in Hz |- *.
      rewrite !zlen_app in Hz. pose proof (zlen_nonneg (varint (f_tag field * 8 + PB_WT_STRING))).
      pose proof (zlen_nonneg (varint (zlen (concat l)))). pose proof (zlen_nonneg (concat l)).
      apply emits_seq; [apply (encodes_tag user_write); [done|apply Hf|unfold PB_WT_STRING in *; lia]|].
      eapply emits_ext; [intros s; apply (packed_size field count data l _ s); (done || lia)|].
      apply emits_seq; [apply emits_varint; lia|]. apply emits_or_count, He. lia.
    + intros s. unfold bind at 1. destruct (pb_encode_tag _ _ _ s) as [[|] s1]; [|done].
      destruct (Z.eqb_spec (PB_LTYPE (f_type field)) PB_LTYPE_FIXED32) as [E4|_].
      { destruct (entries_no_error _ _ _ _ (fun p => fixed_no_error field p (or_introl E4)) El). }
      destruct (Z.eqb_spec (PB_LTYPE (f_type field)) PB_LTYPE_FIXED64) as [E8|_].
      { destruct (entries_no_error _ _ _ _ (fun p => fixed_no_error field p (or_intror E8)) El). }
      unfold bind, on. specialize (He PB_OSTREAM_SIZING).
      destruct (each_item _ _ _ _ PB_OSTREAM_SIZING) as [[|] s2]; done.
    + done.
  - pose proof (each_encodes (fun p =>
        pb_encode_tag_for_field user_write field ;;
        if (PB_ATYPE (f_type field) =? PB_ATYPE_POINTER) &&
           ((PB_LTYPE (f_type field) =? PB_LTYPE_STRING) || (PB_LTYPE (f_type field) =? PB_LTYPE_BYTES))
        then let* q := lift (load_ptr m p) in call field q else call field p) (fun p =>
        q ← (if (PB_ATYPE (f_type field) =? PB_ATYPE_POINTER) &&
              ((PB_LTYPE (f_type field) =? PB_LTYPE_STRING) || (PB_LTYPE (f_type field) =? PB_LTYPE_BYTES))
             then get (load_ptr m p) else Done p); record m submessage field q)
      wire (f_data_size field) (Z.to_nat count) data) as He.
    lapply He; clear He.
    + intros He. destruct (entries _ _ _ _) as [l| |] in He |- *; cbn [fmap outcome_fmap] in *; [rewrite wire_concat|..]; exact He.
    + intros p. destruct (_ && _); [|apply record_encodes; done].
      destruct (load_ptr m p) as [q|]; cbn [mbind outcome_bind get]; [|done].
      apply (record_encodes field q Hf).
Qed.

(** Running what is known of a call. *)
Lemma bind_lift_some {A B} (a : A) (k : A -> M ostream B) : bind (lift (Some a)) k = k a.
Proof. done. Qed.
Lemma bind_ret_l {A B} (a : A) (k : A -> M ostream B) : bind (ret a) k = k a.
Proof. done. Qed.

#[local] Ltac run := repeat first [rewrite bind_lift_some | rewrite bind_ret_l]; cbn [mbind outcome_bind get]; cbv beta iota.
#[local] Ltac load_step := match goal with
  | |- encodes (bind (lift ?o) _) _ => destruct o eqn:?; run; [|done]
  | |- encodes (bind (bind (lift ?o) _) _) _ => destruct o eqn:?; run; [|done]
  end.
#[local] Ltac record_step field Hf := repeat case_match; try apply encodes_ret; try apply encodes_error;
  try apply record_encodes; try done.

Lemma basic_field_encodes fuel field data : field_ok field ->
  encodes (encode_basic_field user_write tables m encode fuel field data)
    (wire <$> field_items tables m submessage fuel field data).
Proof.
  intros Hf. unfold encode_basic_field, field_items, present. cbv zeta.
  destruct (htype_cases (f_type field)) as [E|[E|[E|E]]]; rewrite E;
    cbn [Z.eqb Pos.eqb PB_HTYPE_REQUIRED PB_HTYPE_OPTIONAL PB_HTYPE_REPEATED PB_HTYPE_ONEOF];
    destruct (f_size_offset field =? 0), (PB_ATYPE (f_type field) =? PB_ATYPE_POINTER); cbn [negb]; run; repeat load_step;
    record_step field Hf; apply array_encodes; try done; try apply Hf; eapply load_u32_range; eauto.
Qed.

Lemma field_encodes fuel field data : field_ok field ->
  encodes (encode_field user_write tables m encode_cb encode fuel field data)
    (wire <$> member_items tables m cb_wire submessage fuel field data).
Proof.
  intros Hf. unfold encode_field, member_items. cbv zeta. destruct (_ || _); [by apply basic_field_encodes|].
  destruct (_ =? _); [|apply encodes_error]. unfold encode_callback_field, callback_items.
  destruct (load_ptr m (callback_funcs data)) as [fn|]; cbn [mbind outcome_bind get]; [|done].
  destruct (fn =? 0); cbn [negb]; [apply encodes_ret|].
  pose proof (callback_encodes fn field (callback_arg data)) as H.
  destruct (cb_wire fn field (callback_arg data)) as [d| |]; cbn [mbind outcome_bind fmap outcome_fmap encodes] in *; [|intros s|done].
  - unfold wire. cbn [fmap list_fmap concat wire_item map]. rewrite app_nil_r. intros Hz. specialize (H Hz).
    destruct H as [A B C]. constructor.
    + intros s Hs Hb Hl. rewrite (A s Hs Hb Hl). done.
    + intros s p l q Hs Hl. destruct (B s p l q Hs Hl) as (s' & -> & Hs'). eauto.
    + intros s p l q Hs H1 H2. specialize (C s p l q Hs H1 H2). destruct (encode_cb _ _ _ s) as [[|] s']; done.
  - specialize (H s). destruct (encode_cb _ _ _ s) as [[|] s']; done.
Qed.

Lemma extension_loop_encodes n fuel e :
  encodes (extension_loop user_write tables m encode_cb encode_ext encode n fuel e)
    (wire <$> extension_items tables m cb_wire ext_wire submessage n fuel e).
Proof.
  revert e. induction n as [|n IH]; intros e; cbn [extension_loop extension_items]; (destruct (e =? 0); [apply encodes_ret|]); [done|].
  destruct (load_ptr m (extension_type e)) as [type|] eqn:Et; run; [|done].
  destruct (load_ptr m (type_encode type)) as [fn|]; run; [|done].
  set (m1 := if negb (fn =? 0) then _ else _). set (o1 := if negb (fn =? 0) then _ else _).
  assert (H1 : encodes m1 (wire <$> o1)).
  { unfold m1, o1. destruct (negb _).
    - pose proof (extension_encodes fn e) as H. destruct (ext_wire fn e) as [d| |]; cbn in *; [|exact H..].
      unfold wire. cbn [fmap list_fmap concat wire_item map]. rewrite app_nil_r. exact H.
    - unfold default_extension_encoder. rewrite Et. run. load_step.
      pose proof (fun data => field_encodes fuel _ data (field_at_ok tables z 0 tables_ok)) as Hf.
      destruct (_ =? PB_ATYPE_POINTER); [apply Hf|]. load_step. apply Hf. }
  set (m2 := let* next := lift (load_ptr m (extension_next e)) in _).
  pose proof (encodes_items m1 m2 o1 (next ← get (load_ptr m (extension_next e));
    extension_items tables m cb_wire ext_wire submessage n fuel next) H1) as H.
  lapply H; clear H.
  - destruct (load_ptr m (extension_next e)) as [next|]; cbn [mbind outcome_bind get]; exact id.
  - unfold m2. load_step. apply IH.
Qed.

#[local] Abbreviation items := (items_of tables m cb_wire ext_wire submessage).

Lemma member_encodes fuel f a : field_ok f ->
  encodes (if PB_LTYPE (f_type f) =? PB_LTYPE_EXTENSION
           then encode_extension_field user_write tables m encode_cb encode_ext encode fuel a
           else encode_field user_write tables m encode_cb encode fuel f a) (wire <$> items fuel (f, a)).
Proof.
  intros Hf. unfold items_of. cbn [fst snd]. destruct (_ =? _); [|by apply field_encodes].
  unfold encode_extension_field. load_step. apply extension_loop_encodes.
Qed.

Lemma encode_loop_encodes fuel rest : forall n it f, pos tables it = f -> f_tag f <> 0 ->
  drop (S (it_pos it)) (tables (it_start it)) = rest -> (length rest <= n)%nat ->
  encodes (encode_loop user_write tables m encode_cb encode_ext encode n fuel it)
    (wire <$> items_all (items fuel) ((f, pData it) :: members_after f (pData it) rest)).
Proof.
  induction rest as [|g rest IH]; intros n it f Hp Hf Hd Hn; pose proof (iter_next tables it f _ Hp Hf Hd) as Hnext;
    (assert (Hok : field_ok f) by (rewrite <- Hp; apply field_at_ok; done)).
  - cbn [items_all members_after]. destruct n; cbn [encode_loop]; rewrite Hp;
      destruct (pb_field_iter_next tables it) as [it' more]; cbn [snd] in Hnext; subst more;
      (apply encodes_items; [by apply member_encodes|apply encodes_ret]).
  - destruct n as [|n]; [cbn in Hn; lia|]. cbn [encode_loop members_after]. rewrite Hp. cbv iota in Hnext. destruct (Z.eqb_spec (f_tag g) 0) as [_|Hg].
    + destruct (pb_field_iter_next tables it) as [it' more]. cbn [snd] in Hnext. subst more.
      apply encodes_items; [by apply member_encodes|apply encodes_ret].
    + destruct Hnext as (it' & -> & Hs & Hi & Hp' & <-). apply encodes_items; [by apply member_encodes|].
      apply IH; [done|done| |cbn in Hn; lia]. rewrite Hs, Hi. rewrite (drop_S_next _ _ _ _ Hd). done.
Qed.
End with_submessages.

Lemma pb_encode_encodes fuel : forall fields src,
  encodes (pb_encode user_write tables m encode_cb encode_ext fuel fields src)
    (wire <$> msg_items tables m cb_wire ext_wire fuel fields src).
Proof.
  induction fuel as [|fuel IH]; intros fields src; [done|]. cbn [pb_encode msg_items].
  pose proof (iter_begin tables fields src) as Hb. unfold members.
  destruct (tables fields) as [|f rest] eqn:E.
  - destruct (pb_field_iter_begin tables fields src) as [it ok]. cbn [snd] in Hb. subst ok. apply encodes_ret.
  - destruct (Z.eqb_spec (f_tag f) 0) as [_|Hf].
    + destruct (pb_field_iter_begin tables fields src) as [it ok]. cbn [snd] in Hb. subst ok. apply encodes_ret.
    + destruct Hb as (it & -> & Hs & Hi & Hp & <-).
      apply (encode_loop_encodes _ _ IH); [done|done| |cbn; lia]. rewrite Hs, Hi, E. done.
Qed.

(** ** Enough fuel *)

Definition refines {A} (o o' : outcome A) : Prop := o = Undef \/ o = o'.

Lemma refines_refl {A} (o : outcome A) : refines o o.
Proof. right. done. Qed.
Lemma refines_bind {A B} (o o' : outcome A) (f f' : A -> outcome B) :
  refines o o' -> (forall a, refines (f a) (f' a)) -> refines (o ≫= f) (o' ≫= f').
Proof. intros [->| ->] Hf; [left; done|]. destruct o' as [a| |]; cbn; [apply Hf|right; done..]. Qed.
Lemma refines_fmap {A B} (o o' : outcome A) (f : A -> B) : refines o o' -> refines (f <$> o) (f <$> o').
Proof. intros [->| ->]; [left|right]; done. Qed.

Lemma default_loop_mono (check check' : pb_field -> Z -> option bool) n : forall it b,
  (forall f a b, check f a = Some b -> check' f a = Some b) ->
  default_loop tables check n it = Some b -> default_loop tables check' n it = Some b.
Proof.
  induction n as [|n IH]; intros it b H; cbn [default_loop];
    (destruct (check _ _) as [c|] eqn:E; [|done]); rewrite (H _ _ _ E); cbn [mbind option_bind];
    (destruct c; cbn [negb]; [|done]); destruct (pb_field_iter_next tables it) as [it' []]; try done. by apply IH.
Qed.

Lemma check_fuel fuel : forall fuel' field data b, (fuel <= fuel')%nat ->
  pb_check_proto3_default_value tables m fuel field data = Some b ->
  pb_check_proto3_default_value tables m fuel' field data = Some b.
Proof.
  induction fuel as [|fuel IH]; intros fuel' field data b Hf; (destruct fuel' as [|fuel']; [done || lia|]);
    cbn [pb_check_proto3_default_value]; cbv zeta;
    repeat (match goal with |- (if ?c then _ else _) = _ -> _ => destruct c end; try done).
  all: destruct (pb_field_iter_begin _ _ _) as [it []]; try done; apply default_loop_mono; intros; apply IH; (done || lia).
Qed.

Section more_fuel.
Context (sub sub' : Z -> Z -> outcome (list Z)).
Hypothesis sub_refines : forall t p, refines (sub t p) (sub' t p).

Lemma payload_refines field p : refines (payload m sub field p) (payload m sub' field p).
Proof. unfold payload. cbv zeta. repeat case_match; try apply refines_refl. apply sub_refines. Qed.

Lemma record_refines field p : refines (record m sub field p) (record m sub' field p).
Proof.
  unfold record. case_match; [|apply refines_refl]. apply refines_bind; [apply payload_refines|]. intros. apply refines_refl.
Qed.

Lemma entries_refines {A} n (f f' : Z -> outcome A) size : forall p, (forall p, refines (f p) (f' p)) ->
  refines (entries n f size p) (entries n f' size p).
Proof.
  induction n as [|n IH]; intros p H; cbn [entries]; [apply refines_refl|].
  apply refines_bind; [apply H|]. intros x. apply refines_bind; [by apply IH|]. intros. apply refines_refl.
Qed.

Lemma array_refines field p count : refines (array_items m sub field p count) (array_items m sub' field p count).
Proof.
  unfold array_items. cbv zeta. destruct (count =? 0); [apply refines_refl|].
  destruct (_ && _); [apply refines_refl|]. destruct (packable _).
  - apply refines_bind; [apply entries_refines; intros; apply payload_refines|]. intros. apply refines_refl.
  - apply refines_fmap, entries_refines. intros q. apply refines_bind; [apply refines_refl|]. intros. apply record_refines.
Qed.

Lemma present_refines fuel fuel' field data : (fuel <= fuel')%nat ->
  refines (present tables m fuel field data) (present tables m fuel' field data).
Proof.
  intros Hf. unfold present. destruct (negb _); [apply refines_refl|]. apply refines_bind; [|intros; apply refines_refl].
  destruct (pb_check_proto3_default_value tables m fuel field data) as [b|] eqn:E; [|left; done].
  rewrite (check_fuel _ _ _ _ _ Hf E). apply refines_refl.
Qed.

Lemma member_refines fuel fuel' field data : (fuel <= fuel')%nat ->
  refines (member_items tables m cb_wire sub fuel field data) (member_items tables m cb_wire sub' fuel' field data).
Proof.
  intros Hf. unfold member_items, field_items. cbv zeta. destruct (_ || _); [|apply refines_refl].
  destruct (_ =? PB_HTYPE_REQUIRED); [|destruct (_ =? PB_HTYPE_OPTIONAL); [|destruct (_ =? PB_HTYPE_REPEATED)]];
    (apply refines_bind; [by apply refines_refl || by apply present_refines|]); intros x.
  - destruct (x =? 0); [apply refines_refl|apply record_refines].
  - destruct x; [|apply refines_refl]. apply refines_bind; [apply refines_refl|]. intros. apply record_refines.
  - apply refines_bind; [apply refines_refl|]. intros. apply array_refines.
  - apply refines_bind; [apply refines_refl|]. intros w. destruct (w =? _); [apply record_refines|apply refines_refl].
Qed.

Lemma extensions_refine n fuel fuel' e : (fuel <= fuel')%nat ->
  refines (extension_items tables m cb_wire ext_wire sub n fuel e) (extension_items tables m cb_wire ext_wire sub' n fuel' e).
Proof.
  intros Hf. revert e. induction n as [|n IH]; intros e; cbn [extension_items]; (destruct (e =? 0); [apply refines_refl|]);
    [apply refines_refl|].
  do 2 (apply refines_bind; [apply refines_refl|]; intros ?). apply refines_bind.
  - destruct (negb _); [apply refines_refl|]. apply refines_bind; [apply refines_refl|]. intros arg. cbv zeta.
    destruct (_ =? _); [by apply member_refines|]. apply refines_bind; [apply refines_refl|]. intros. by apply member_refines.
  - intros l. apply refines_bind; [apply refines_refl|]. intros. apply refines_bind; [apply IH|]. intros. apply refines_refl.
Qed.

Lemma items_refine fuel fuel' l : (fuel <= fuel')%nat ->
  refines (items_all (items_of tables m cb_wire ext_wire sub fuel) l) (items_all (items_of tables m cb_wire ext_wire sub' fuel') l).
Proof.
  intros Hf. induction l as [|[f a] l IH]; cbn [items_all]; [apply refines_refl|]. apply refines_bind.
  - unfold items_of. cbn [fst snd]. destruct (_ =? _); [|by apply member_refines].
    apply refines_bind; [apply refines_refl|]. intros. by apply extensions_refine.
  - intros i. apply refines_bind; [apply IH|]. intros. apply refines_refl.
Qed.
End more_fuel.

Lemma msg_items_fuel fuel : forall fuel' fields src, (fuel <= fuel')%nat ->
  refines (msg_items tables m cb_wire ext_wire fuel fields src) (msg_items tables m cb_wire ext_wire fuel' fields src).
Proof.
  induction fuel as [|fuel IH]; intros fuel' fields src Hf; [left; done|]. destruct fuel' as [|fuel']; [lia|].
  cbn [msg_items]. apply items_refine; [|lia]. intros t p. apply refines_fmap, IH. lia.
Qed.

End messages.

(** ** An example *)

Section example.
(** A struct with a flagged int64, a pointer to bytes, an array of sint32 and a
    submessage; the tables are at addresses 1 and 2. *)
Definition sample_tables (t : Z) : list pb_field :=
  if t =? 1 then
    [PbField 1 0x11 8 (-8) 8 0 0; PbField 6 0x96 0 0 0 0 0; PbField 3 0x23 8 (-8) 4 2 0; PbField 4 0x18 0 0 4 0 2]
  else if t =? 2 then [PbField 1 0x12 0 0 4 0 0]
  else [].
Definition sample_mem : mem :=
  mem_of 1000 ([1; 0; 0; 0; 0; 0; 0; 0] ++ le_bytes 8 300 ++ le_bytes 8 2000 ++ le_bytes 8 2 ++
    le_bytes 4 (-3) ++ le_bytes 4 5 ++ le_bytes 4 7) ∪ mem_of 2000 [2; 0; 0; 0; 0xAA; 0xBB].
Definition sample_wire : list Z := [8; 0xAC; 2; 0x32; 2; 0xAA; 0xBB; 0x1A; 2; 5; 10; 0x22; 2; 8; 7].
#[local] Abbreviation uw := (fun (u : unit) (_ : list Z) => (true, u)).
#[local] Abbreviation no_cb := (fun (_ : Z) (_ : pb_field) (_ : Z) => @fail (@pb_ostream unit) unit).
#[local] Abbreviation no_ext := (fun (_ _ : Z) => @fail (@pb_ostream unit) unit).

Instance no_callbacks : EncodeCallbacks no_cb no_ext (fun _ _ _ => Error) (fun _ _ => Error).
Proof. constructor; done. Qed.

Lemma sample_tables_ok t : Forall field_ok (sample_tables t).
Proof. unfold sample_tables. repeat case_match; repeat constructor; unfold field_ok; cbn; lia. Qed.
Lemma sample_mem_ok : mem_ok sample_mem.
Proof.
  apply mem_union_ok; apply mem_of_ok; match goal with |- Forall _ ?l => let l' := eval vm_compute in l in change l with l' end;
    repeat (constructor; [unfold is_byte; lia|]); constructor.
Qed.

End example.
