(* ===== verification/PbDecode.v ===== *)
(** * nanopb messages: the decoder (pb_decode.c).

    A decoder works on the memory of the message, the heap and the stream
    ([dec]). A C function that returns [bool] is a call whose result is a [bool];
    [None] is left for what has no meaning in C (an access to memory that is not
    mapped, a call through NULL) and for running out of fuel. The callbacks of
    the user and the allocator are parameters. *)

From stdpp Require Import strings.
From S2P Require Import Prelude PbMem PbStream PbIter.

(** ** State *)

(** [d_blocks]: the blocks of the heap with their sizes; [fixed_count_size]: the
    local variable of [pb_decode_noinit] that counts a fixed-count array. *)
Record dec {U : Type} := Dec {
  d_mem : mem; d_blocks : gmap Z Z; fixed_count_size : Z; d_stream : @pb_istream U }.
Arguments dec : clear implicits.
Arguments Dec {U} _ _ _ _.

Definition PB_MAX_REQUIRED_FIELDS : Z := 64.

(** What a pass of the loop of [pb_decode_noinit] ends with. *)
Inductive flow (A : Type) := Continue (a : A) | Break (a : A) | ReturnFalse.
Arguments Continue {A} _.
Arguments Break {A} _.
Arguments ReturnFalse {A}.

(** The other local variables of [pb_decode_noinit]; [fixed_count_field] is the
    position of the field in the table. *)
Record noinit := NoInit {
  n_iter : pb_field_iter; fields_seen : list Z; extension_range_start : Z; fixed_count_field : option nat }.

Section decode.
Context {U : Type} (user_read : U -> Z -> option (list Z) * U).
Context (tables : Z -> list pb_field).
(** [funcs.decode(stream, field, arg)] and [type->decode(stream, extension, tag,
    wire_type)]: the first argument is the address of the function. *)
Context (decode_cb : Z -> pb_field -> Z -> M (dec U) bool) (decode_ext : Z -> Z -> Z -> Z -> M (dec U) bool).
(** The allocator: where a block of this size is, and what is in it. *)
Context (alloc : mem -> gmap Z Z -> Z -> option (Z * list Z)).
#[local] Abbreviation istream := (@pb_istream U).
#[local] Abbreviation D := (M (dec U)).

(** ** Access to the parts of the state *)

Definition on_stream {A} (m : M istream A) : D (option A) := fun s =>
  let '(r, stream) := m (d_stream s) in (Some r, Dec (d_mem s) (d_blocks s) (fixed_count_size s) stream).
(** [if (!m) return false;], for calls that deliver a value or do not. *)
Definition or_false {A} (m : D (option A)) (k : A -> D bool) : D bool :=
  let* r := m in match r with Some a => k a | None => ret false end.
Definition succeeds {A} (m : D (option A)) : D bool := or_false m (fun _ => ret true).
(** [if (!m) return false; k]. *)
Definition and_then (m k : D bool) : D bool := let* ok := m in if ok : bool then k else ret false.
Definition return_error (msg : string) : D bool := succeeds (on_stream (is_error (A := unit) msg)).
(** A call on another stream, a local variable. *)
Definition with_stream {A} (substream : istream) (m : D A) : D (A * istream) := fun s =>
  match m (Dec (d_mem s) (d_blocks s) (fixed_count_size s) substream) with
  | (Some a, s') => (Some (a, d_stream s'), Dec (d_mem s') (d_blocks s') (fixed_count_size s') (d_stream s))
  | (None, s') => (None, s')
  end.
Definition stream_left : D Z := fun s => (Some (bytes_left (d_stream s)), s).

Definition load_bytes (a : Z) (n : nat) : D (list Z) := fun s => (load (d_mem s) a n, s).
Definition store_bytes (a : Z) (l : list Z) : D unit := fun s =>
  match store (d_mem s) a l with
  | Some m => (Some tt, Dec m (d_blocks s) (fixed_count_size s) (d_stream s))
  | None => (None, s)
  end.
Definition load_pointer (a : Z) : D Z := let* l := load_bytes a 8 in ret (le_val l).
Definition store_pointer (a v : Z) : D unit := store_bytes a (le_bytes 8 v).
Definition memset_zero (a n : Z) : D unit := store_bytes a (replicate (Z.to_nat n) 0).
(** [*(pb_size_t* )iter->pSize]. *)
Definition load_size (p : size_loc) : D Z :=
  match p with
  | InStruct a => let* l := load_bytes a 4 in ret (le_val l)
  | Local => fun s => (Some (fixed_count_size s), s)
  end.
Definition store_size (p : size_loc) (v : Z) : D unit :=
  match p with
  | InStruct a => store_bytes a (le_bytes 4 v)
  | Local => fun s => (Some tt, Dec (d_mem s) (d_blocks s) v (d_stream s))
  end.
(** [*(bool* )iter->pSize]; optional fields do not use the local variable. *)
Definition store_has (p : size_loc) (v : Z) : D unit :=
  match p with InStruct a => store_bytes a [v] | Local => fail end.
(** [iter->pSize == iter->pData]. *)
Definition size_is_data (it : pb_field_iter) : bool :=
  match pSize it with InStruct a => a =? pData it | Local => false end.

(** *** realloc and free *)

Fixpoint unmap (m : mem) (a : Z) (n : nat) : mem :=
  match n with O => m | S n' => delete a (unmap m (a + 1) n') end.

Definition pb_free (ptr : Z) : D unit := fun s =>
  if ptr =? 0 then (Some tt, s)
  else match d_blocks s !! ptr with
       | Some n => (Some tt, Dec (unmap (d_mem s) ptr (Z.to_nat n)) (delete ptr (d_blocks s)) (fixed_count_size s) (d_stream s))
       | None => (None, s)
       end.

(** The new address, or 0; the contents move. *)
Definition pb_realloc (ptr size : Z) : D Z := fun s =>
  match (if ptr =? 0 then Some [] else n ← d_blocks s !! ptr; load (d_mem s) ptr (Z.to_nat (Z.min n size))) with
  | None => (None, s)
  | Some old =>
      let m := match d_blocks s !! ptr with Some n => unmap (d_mem s) ptr (Z.to_nat n) | None => d_mem s end in
      let blocks := delete ptr (d_blocks s) in
      match alloc m blocks size with
      | None => (Some 0, s)
      | Some (p, contents) =>
          (Some p, Dec (mem_of p (old ++ zdrop (zlen old) contents) ∪ m) (<[p := size]> blocks) (fixed_count_size s) (d_stream s))
      end
  end.

Definition allocate_field (p data_size array_size : Z) : D bool :=
  let* ptr := load_pointer p in
  if (data_size =? 0) || (array_size =? 0) then return_error "invalid size"
  else
    let check_limit := 2 ^ 32 in
    if ((data_size >=? check_limit) || (array_size >=? check_limit)) && (SIZE_MAX / array_size <? data_size)
    then return_error "size too large"
    else
      let* ptr := pb_realloc ptr (size_t (array_size * data_size)) in
      if ptr =? 0 then return_error "realloc failed"
      else store_pointer p ptr ;; ret true.

(** ** The loop over the fields of a message *)

Fixpoint fields_loop (f : pb_field_iter -> D unit) (n : nat) (it : pb_field_iter) : D unit :=
  f it ;;
  let '(it, more) := pb_field_iter_next tables it in
  if more then match n with O => fail | S n' => fields_loop f n' it end else ret tt.

Definition for_fields (f : pb_field_iter -> D unit) (fields dest_struct : Z) : D unit :=
  let '(it, ok) := pb_field_iter_begin tables fields dest_struct in
  if ok then fields_loop f (length (tables fields)) it else ret tt.

(** ** Extensions *)

Definition iter_from_extension (extension : Z) : D pb_field_iter :=
  let* type := load_pointer (extension_type extension) in
  let* field := load_pointer (type_arg type) in
  let* dest := load_pointer (extension_dest extension) in
  let '(it, _) := pb_field_iter_begin tables field dest in
  let data := if PB_ATYPE (f_type (field_at tables field 0)) =? PB_ATYPE_POINTER then extension_dest extension else dest in
  ret (FieldIter (it_start it) (it_pos it) (required_field_index it) (dest_struct it) data (InStruct (extension_found extension))).

(** [while (ext != NULL) { f(ext); ext = ext->next; }]. *)
Fixpoint extensions (f : Z -> D unit) (n : nat) (ext : Z) : D unit :=
  if ext =? 0 then ret tt
  else match n with
       | O => fail
       | S n' => f ext ;; let* next := load_pointer (extension_next ext) in extensions f n' next
       end.
Definition for_extensions (f : Z -> D unit) (ext : Z) : D unit := fun s => extensions f (size (d_mem s)) ext s.

(** ** Defaults *)

Fixpoint pb_field_set_to_default (fuel : nat) (it : pb_field_iter) : D unit :=
  match fuel with
  | O => fail
  | S fuel' =>
      let field := pos tables it in
      let type := f_type field in
      if PB_LTYPE type =? PB_LTYPE_EXTENSION then
        let* ext := load_pointer (pData it) in
        for_extensions (fun ext =>
          store_bytes (extension_found ext) [0] ;;
          let* ext_iter := iter_from_extension ext in
          pb_field_set_to_default fuel' ext_iter) ext
      else if PB_ATYPE type =? PB_ATYPE_STATIC then
        let* init_data :=
          if (PB_HTYPE type =? PB_HTYPE_OPTIONAL) && negb (size_is_data it) then store_has (pSize it) 0 ;; ret true
          else if (PB_HTYPE type =? PB_HTYPE_REPEATED) || (PB_HTYPE type =? PB_HTYPE_ONEOF) then
            store_size (pSize it) 0 ;; ret false
          else ret true in
        if init_data : bool then
          if PB_LTYPE type =? PB_LTYPE_SUBMESSAGE then for_fields (pb_field_set_to_default fuel') (f_ptr field) (pData it)
          else if negb (f_ptr field =? 0) then
            let* l := load_bytes (f_ptr field) (Z.to_nat (f_data_size field)) in store_bytes (pData it) l
          else memset_zero (pData it) (f_data_size field)
        else ret tt
      else if PB_ATYPE type =? PB_ATYPE_POINTER then
        store_pointer (pData it) 0 ;;
        if (PB_HTYPE type =? PB_HTYPE_REPEATED) || (PB_HTYPE type =? PB_HTYPE_ONEOF) then store_size (pSize it) 0 else ret tt
      else ret tt
  end.

(** [fuel]: how deep static submessages nest. *)
Definition pb_message_set_to_defaults (fuel : nat) (fields dest_struct : Z) : D unit :=
  for_fields (pb_field_set_to_default fuel) fields dest_struct.

(** ** Releasing what a message points to *)

(** [pb_free( *pItem); *pItem++ = NULL;]. *)
Definition free_entry (p : Z) : D unit :=
  let* q := load_pointer p in pb_free q ;; store_pointer p 0.

Fixpoint pb_release_single_field (fuel : nat) (it : pb_field_iter) : D unit :=
  match fuel with
  | O => fail
  | S fuel' =>
      let pb_release fields dest :=
        if dest =? 0 then ret tt else for_fields (pb_release_single_field fuel') fields dest in
      let field := pos tables it in
      let type := f_type field in
      let* current :=
        if PB_HTYPE type =? PB_HTYPE_ONEOF then let* which := load_size (pSize it) in ret (which =? f_tag field)
        else ret true in
      if negb current then ret tt
      else
        (if PB_LTYPE type =? PB_LTYPE_EXTENSION then
           let* ext := load_pointer (pData it) in
           for_extensions (fun ext =>
             let* ext_iter := iter_from_extension ext in pb_release_single_field fuel' ext_iter) ext
         else if (PB_LTYPE type =? PB_LTYPE_SUBMESSAGE) && negb (PB_ATYPE type =? PB_ATYPE_CALLBACK) then
           let* pItem := if PB_ATYPE type =? PB_ATYPE_POINTER then load_pointer (pData it) else ret (pData it) in
           let* count :=
             if PB_HTYPE type =? PB_HTYPE_REPEATED then
               let* count :=
                 if (PB_ATYPE type =? PB_ATYPE_STATIC) && size_is_data it then ret (f_array_size field)
                 else load_size (pSize it) in
               ret (if (PB_ATYPE type =? PB_ATYPE_STATIC) && (count >? f_array_size field) then f_array_size field else count)
             else ret 1 in
           if negb (pItem =? 0) then each_item (Z.to_nat count) (pb_release (f_ptr field)) (f_data_size field) pItem else ret tt
         else ret tt) ;;
        if PB_ATYPE type =? PB_ATYPE_POINTER then
          (if (PB_HTYPE type =? PB_HTYPE_REPEATED) && ((PB_LTYPE type =? PB_LTYPE_STRING) || (PB_LTYPE type =? PB_LTYPE_BYTES)) then
             let* pItem := load_pointer (pData it) in
             let* count := load_size (pSize it) in
             each_item (Z.to_nat count) free_entry sizeof_ptr pItem
           else ret tt) ;;
          (if PB_HTYPE type =? PB_HTYPE_REPEATED then store_size (pSize it) 0 else ret tt) ;;
          free_entry (pData it)
        else ret tt
  end.

(** [fuel]: how deep the message that is released nests. *)
Definition pb_release (fuel : nat) (fields dest_struct : Z) : D unit :=
  if dest_struct =? 0 then ret tt else for_fields (pb_release_single_field fuel) fields dest_struct.

(** The iterator comes back, as its pointer is shared with the caller. *)
Definition pb_release_union_field (fuel : nat) (it : pb_field_iter) : D (bool * pb_field_iter) :=
  let* old_tag := load_size (pSize it) in
  let new_tag := f_tag (pos tables it) in
  if (old_tag =? 0) || (old_tag =? new_tag) then ret (true, it)
  else
    let '(it, found) := pb_field_iter_find tables it old_tag in
    if negb found then let* ok := return_error "invalid union tag" in ret (ok, it)
    else
      pb_release_single_field fuel it ;;
      let '(it, found) := pb_field_iter_find tables it new_tag in
      if negb found then let* ok := return_error "iterator error" in ret (ok, it)
      else
        (if PB_ATYPE (f_type (pos tables it)) =? PB_ATYPE_POINTER then store_pointer (pData it) 0 else ret tt) ;;
        ret (true, it).

(** ** Decoders of a value at an address *)

Definition pb_dec_bytes (field : pb_field) (dest : Z) : D bool :=
  or_false (on_stream (pb_decode_varint32 user_read)) (fun size =>
  let alloc_size := PB_BYTES_ARRAY_T_ALLOCSIZE size in
  if size >? PB_SIZE_MAX then return_error "bytes overflow"
  else if size >? alloc_size then return_error "size too large"
  else
    let read bdest :=
      store_bytes bdest (le_bytes 4 size) ;;
      or_false (on_stream (pb_read user_read false size)) (fun l => store_bytes (bdest + bytes_offset) l ;; ret true) in
    if PB_ATYPE (f_type field) =? PB_ATYPE_POINTER then
      let* left := stream_left in
      if left <? size then return_error "end-of-stream"
      else and_then (allocate_field dest alloc_size 1) (let* bdest := load_pointer dest in read bdest)
    else if alloc_size >? f_data_size field then return_error "bytes overflow"
    else read dest).

(** [alloc_size] is a [size_t]: [size + 1] is a [uint32_t] first. *)
Definition pb_dec_string (field : pb_field) (dest : Z) : D bool :=
  or_false (on_stream (pb_decode_varint32 user_read)) (fun size =>
  let alloc_size := u32 (size + 1) in
  let read dest :=
    let* l := on_stream (pb_read user_read false size) in
    match l with Some l => store_bytes dest l | None => ret tt end ;;
    store_bytes (dest + size) [0] ;;
    ret (match l with Some _ => true | None => false end) in
  if alloc_size <? size then return_error "size too large"
  else if PB_ATYPE (f_type field) =? PB_ATYPE_POINTER then
    let* left := stream_left in
    if left <? size then return_error "end-of-stream"
    else and_then (allocate_field dest alloc_size 1) (let* dest := load_pointer dest in read dest)
  else if alloc_size >? f_data_size field then return_error "string overflow"
  else read dest).

Definition dec_scalar (func : pb_field -> M istream (list Z * bool)) (field : pb_field) (dest : Z) : D bool :=
  or_false (on_stream (func field)) (fun '(l, ok) => store_bytes dest l ;; ret ok).

(** The two functions of the library that decode a submessage. *)
Section submessages.
Context (decode decode_noinit : Z -> Z -> D bool).

Definition pb_dec_submessage (field : pb_field) (dest : Z) : D bool :=
  or_false (on_stream (pb_make_string_substream user_read)) (fun substream =>
  if f_ptr field =? 0 then return_error "invalid field descriptor"
  else
    let* '(status, substream) :=
      with_stream substream
        (if PB_HTYPE (f_type field) =? PB_HTYPE_REPEATED then decode (f_ptr field) dest
         else decode_noinit (f_ptr field) dest) in
    and_then (succeeds (on_stream (pb_close_string_substream user_read substream))) (ret status)).

(** All of [PB_DECODERS]. *)
Definition pb_decoder (ltype : Z) : option (pb_field -> Z -> D bool) :=
  match PB_DECODERS user_read ltype with
  | Some func => Some (dec_scalar func)
  | None =>
      if ltype =? PB_LTYPE_BYTES then Some pb_dec_bytes
      else if ltype =? PB_LTYPE_STRING then Some pb_dec_string
      else if ltype =? PB_LTYPE_SUBMESSAGE then Some pb_dec_submessage
      else if ltype =? PB_LTYPE_FIXED_LENGTH_BYTES then Some (dec_scalar (pb_dec_fixed_length_bytes user_read))
      else None
  end.

(** [func(stream, field, p)]; a NULL function has no result. *)
Definition call_decoder (field : pb_field) (p : Z) : D bool :=
  match pb_decoder (PB_LTYPE (f_type field)) with Some func => func field p | None => fail end.

(** [(char* )base + data_size * ( *size)]: the product is 32 bits wide. *)
Definition item_at (field : pb_field) (base size : Z) : Z := base + u32 (f_data_size field * size).

(** ** Static fields *)

(** The packed array: [while (substream.bytes_left > 0 && *size < array_size)]. *)
Fixpoint static_packed_loop (n : nat) (it : pb_field_iter) (substream : istream) : D (bool * istream) :=
  let field := pos tables it in
  if bytes_left substream >? 0 then
    let* size := load_size (pSize it) in
    if size <? f_array_size field then
      let* '(ok, substream) := with_stream substream (call_decoder field (item_at field (pData it) size)) in
      if negb ok then ret (false, substream)
      else
        let* size := load_size (pSize it) in
        store_size (pSize it) (u32 (size + 1)) ;;
        match n with O => fail | S n' => static_packed_loop n' it substream end
    else ret (true, substream)
  else ret (true, substream).

Definition decode_static_field (fuel : nat) (wire_type : Z) (it : pb_field_iter) : D bool :=
  let field := pos tables it in
  let type := f_type field in
  let htype := PB_HTYPE type in
  if htype =? PB_HTYPE_REQUIRED then call_decoder field (pData it)
  else if htype =? PB_HTYPE_OPTIONAL then
    (if negb (size_is_data it) then store_has (pSize it) 1 else ret tt) ;;
    call_decoder field (pData it)
  else if htype =? PB_HTYPE_REPEATED then
    if (wire_type =? PB_WT_STRING) && packable (PB_LTYPE type) then
      or_false (on_stream (pb_make_string_substream user_read)) (fun substream =>
      let* '(status, substream) := static_packed_loop (S (Z.to_nat (bytes_left substream))) it substream in
      if negb (bytes_left substream =? 0) then return_error "array overflow"
      else and_then (succeeds (on_stream (pb_close_string_substream user_read substream))) (ret status))
    else
      let* size := load_size (pSize it) in
      store_size (pSize it) (u32 (size + 1)) ;;
      if size >=? f_array_size field then return_error "array overflow"
      else call_decoder field (item_at field (pData it) size)
  else
    let* which := load_size (pSize it) in
    (if (PB_LTYPE type =? PB_LTYPE_SUBMESSAGE) && negb (which =? f_tag field) then
       memset_zero (pData it) (f_data_size field) ;;
       pb_message_set_to_defaults fuel (f_ptr field) (pData it)
     else ret tt) ;;
    store_size (pSize it) (f_tag field) ;;
    call_decoder field (pData it).

(** ** Pointer fields *)

Definition initialize_pointer_field (fuel : nat) (pItem : Z) (field : pb_field) : D unit :=
  let ltype := PB_LTYPE (f_type field) in
  if (ltype =? PB_LTYPE_STRING) || (ltype =? PB_LTYPE_BYTES) then store_pointer pItem 0
  else if ltype =? PB_LTYPE_SUBMESSAGE then
    memset_zero pItem (f_data_size field) ;; pb_message_set_to_defaults fuel (f_ptr field) pItem
  else ret tt.

(** The packed array: [while (substream.bytes_left)]. *)
Fixpoint pointer_packed_loop (n : nat) (fuel : nat) (it : pb_field_iter) (allocated_size : Z) (substream : istream)
    : D (bool * istream) :=
  let field := pos tables it in
  if negb (bytes_left substream =? 0) then
    let* size := load_size (pSize it) in
    if size =? PB_SIZE_MAX then
      on_stream (fun s => (Some tt, IStream (is_callback s) (bytes_left s) (Some "too many array entries"%string))) ;;
      ret (false, substream)
    else
      let* '(ok, allocated_size, substream) :=
        if size + 1 >? allocated_size then
          if f_data_size field =? 0 then fail
          else
            let remain := (bytes_left substream - 1) / f_data_size field + 1 in
            let allocated_size :=
              if remain <? size_t (PB_SIZE_MAX - allocated_size) then size_t (allocated_size + remain)
              else size_t (allocated_size + 1) in
            let* '(ok, substream) := with_stream substream (allocate_field (pData it) (f_data_size field) allocated_size) in
            ret (ok, allocated_size, substream)
        else ret (true, allocated_size, substream) in
      if negb ok then ret (false, substream)
      else
        let* base := load_pointer (pData it) in
        let* size := load_size (pSize it) in
        let pItem := item_at field base size in
        initialize_pointer_field fuel pItem field ;;
        let* '(ok, substream) := with_stream substream (call_decoder field pItem) in
        if negb ok then ret (false, substream)
        else
          let* size := load_size (pSize it) in
          store_size (pSize it) (u32 (size + 1)) ;;
          match n with O => fail | S n' => pointer_packed_loop n' fuel it allocated_size substream end
  else ret (true, substream).

Definition decode_pointer_field (fuel : nat) (wire_type : Z) (it : pb_field_iter) : D bool :=
  let field := pos tables it in
  let type := f_type field in
  let htype := PB_HTYPE type in
  if negb (htype =? PB_HTYPE_REPEATED) then
    let* old := if PB_LTYPE type =? PB_LTYPE_SUBMESSAGE then load_pointer (pData it) else ret 0 in
    (if negb (old =? 0) then pb_release_single_field fuel it else ret tt) ;;
    (if htype =? PB_HTYPE_ONEOF then store_size (pSize it) (f_tag field) else ret tt) ;;
    if (PB_LTYPE type =? PB_LTYPE_STRING) || (PB_LTYPE type =? PB_LTYPE_BYTES) then call_decoder field (pData it)
    else
      and_then (allocate_field (pData it) (f_data_size field) 1)
        (let* p := load_pointer (pData it) in
         initialize_pointer_field fuel p field ;;
         let* p := load_pointer (pData it) in
         call_decoder field p)
  else if (wire_type =? PB_WT_STRING) && packable (PB_LTYPE type) then
    let* allocated_size := load_size (pSize it) in
    or_false (on_stream (pb_make_string_substream user_read)) (fun substream =>
    let* '(status, substream) :=
      pointer_packed_loop (S (Z.to_nat (bytes_left substream))) fuel it allocated_size substream in
    and_then (succeeds (on_stream (pb_close_string_substream user_read substream))) (ret status))
  else
    let* size := load_size (pSize it) in
    if size =? PB_SIZE_MAX then return_error "too many array entries"
    else
      and_then (allocate_field (pData it) (f_data_size field) (u32 (size + 1)))
        (let* base := load_pointer (pData it) in
         let* size := load_size (pSize it) in
         let pItem := item_at field base size in
         store_size (pSize it) (u32 (size + 1)) ;;
         initialize_pointer_field fuel pItem field ;;
         call_decoder field pItem).

(** ** Callback fields *)

(** [do { ... } while (substream.bytes_left)]: a callback that returns true without
    reading would be called for ever. *)
Fixpoint callback_loop (n : nat) (decode : Z) (field : pb_field) (arg : Z) (substream : istream) : D (bool * istream) :=
  let* '(ok, substream) := with_stream substream (decode_cb decode field arg) in
  if negb ok then ret (false, substream)
  else if bytes_left substream =? 0 then ret (true, substream)
  else match n with O => fail | S n' => callback_loop n' decode field arg substream end.

Definition decode_callback_field (wire_type : Z) (it : pb_field_iter) : D bool :=
  let field := pos tables it in
  let* decode := if pData it =? 0 then ret 0 else load_pointer (callback_funcs (pData it)) in
  if decode =? 0 then succeeds (on_stream (pb_skip_field user_read wire_type))
  else
    let arg := callback_arg (pData it) in
    if wire_type =? PB_WT_STRING then
      or_false (on_stream (pb_make_string_substream user_read)) (fun substream =>
      let* '(ok, substream) := callback_loop (S (Z.to_nat (bytes_left substream))) decode field arg substream in
      if negb ok then return_error "callback failed"
      else succeeds (on_stream (pb_close_string_substream user_read substream)))
    else
      or_false (on_stream (read_raw_value user_read wire_type 10)) (fun buffer =>
      let* '(ok, _) := with_stream (pb_istream_from_buffer buffer (zlen buffer)) (decode_cb decode field arg) in
      ret ok).

(** The iterator that the caller goes on with is returned too. *)
Definition decode_field (fuel : nat) (wire_type : Z) (it : pb_field_iter) : D (bool * pb_field_iter) :=
  let* '(ok, it) :=
    if PB_HTYPE (f_type (pos tables it)) =? PB_HTYPE_ONEOF then pb_release_union_field fuel it else ret (true, it) in
  if negb ok then ret (false, it)
  else
    let atype := PB_ATYPE (f_type (pos tables it)) in
    let* ok :=
      if atype =? PB_ATYPE_STATIC then decode_static_field fuel wire_type it
      else if atype =? PB_ATYPE_POINTER then decode_pointer_field fuel wire_type it
      else if atype =? PB_ATYPE_CALLBACK then decode_callback_field wire_type it
      else return_error "invalid field type" in
    ret (ok, it).

(** ** Extension fields *)

Definition default_extension_decoder (fuel : nat) (extension tag wire_type : Z) : D bool :=
  let* type := load_pointer (extension_type extension) in
  let* field := load_pointer (type_arg type) in
  if negb (f_tag (field_at tables field 0) =? tag) then ret true
  else
    let* it := iter_from_extension extension in
    store_bytes (extension_found extension) [1] ;;
    let* '(ok, _) := decode_field fuel wire_type it in
    ret ok.

(** [while (extension != NULL && pos == stream->bytes_left)]. *)
Fixpoint decode_extension_loop (n : nat) (fuel : nat) (tag wire_type start extension : Z) : D bool :=
  let* left := stream_left in
  if (extension =? 0) || negb (start =? left) then ret true
  else match n with
       | O => fail
       | S n' =>
           let* type := load_pointer (extension_type extension) in
           let* decode := load_pointer (type_decode type) in
           let* status :=
             if negb (decode =? 0) then decode_ext decode extension tag wire_type
             else default_extension_decoder fuel extension tag wire_type in
           if negb status then ret false
           else
             let* next := load_pointer (extension_next extension) in
             decode_extension_loop n' fuel tag wire_type start next
       end.

Definition decode_extension (fuel : nat) (tag wire_type : Z) (it : pb_field_iter) : D bool := fun s =>
  (let* extension := load_pointer (pData it) in
   decode_extension_loop (size (d_mem s)) fuel tag wire_type (bytes_left (d_stream s)) extension) s.

Definition find_extension_field (it : pb_field_iter) : pb_field_iter * bool :=
  find_loop tables (length (tables (it_start it))) (fun f => PB_LTYPE (f_type f) =? PB_LTYPE_EXTENSION) (it_pos it) it.

(** ** Messages *)

(** A key that is not in the table. *)
Definition unknown_field (fuel : nat) (tag wire_type : Z) (st : noinit) : D (flow noinit) :=
  let skip st :=
    let* ok := succeeds (on_stream (pb_skip_field user_read wire_type)) in
    ret (if ok : bool then Continue st else ReturnFalse) in
  if tag >=? extension_range_start st then
    let '(it, found) := find_extension_field (n_iter st) in
    let start := if found then f_tag (pos tables it) else u32 (-1) in
    let st := NoInit it (fields_seen st) start (fixed_count_field st) in
    if tag >=? start then
      let* before := stream_left in
      let* ok := decode_extension fuel tag wire_type it in
      if negb ok then ret ReturnFalse
      else
        let* left := stream_left in
        if negb (before =? left) then ret (Continue st) else skip st
    else skip st
  else skip st.

(** [fixed_count_size != fixed_count_field->array_size]. *)
Definition fixed_count_wrong (st : noinit) : D bool := fun s =>
  (Some (match fixed_count_field st with
         | Some p => negb (fixed_count_size s =? f_array_size (field_at tables (it_start (n_iter st)) p))
         | None => false
         end), s).

(** The iterator of a repeated field without a count counts in the local variable. *)
Definition use_fixed_count (st : noinit) : D (option noinit) :=
  let it := n_iter st in
  if (PB_HTYPE (f_type (pos tables it)) =? PB_HTYPE_REPEATED) && size_is_data it then
    let count st := NoInit (FieldIter (it_start it) (it_pos it) (required_field_index it) (dest_struct it) (pData it) Local)
                      (fields_seen st) (extension_range_start st) (fixed_count_field st) in
    if negb (bool_decide (fixed_count_field st = Some (it_pos it))) then
      let* wrong := fixed_count_wrong st in
      if wrong : bool then let* _ := return_error "wrong size for fixed count field" in ret None
      else
        store_size Local 0 ;;
        ret (Some (count (NoInit it (fields_seen st) (extension_range_start st) (Some (it_pos it)))))
    else ret (Some (count st))
  else ret (Some st).

Definition mark_seen (st : noinit) : noinit :=
  let it := n_iter st in
  let index := required_field_index it in
  if (PB_HTYPE (f_type (pos tables it)) =? PB_HTYPE_REQUIRED) && (index <? PB_MAX_REQUIRED_FIELDS) then
    let tmp := u32 (Z.shiftl 1 (Z.land index 31)) in
    let word := Z.shiftr index 5 in
    NoInit it (<[Z.to_nat word := Z.lor (znth (fields_seen st) word) tmp]> (fields_seen st))
      (extension_range_start st) (fixed_count_field st)
  else st.

(** One field of the stream. *)
Definition decode_one (fuel : nat) (st : noinit) : D (flow noinit) := fun s =>
  let '(key, eof, stream) := pb_decode_tag user_read (d_stream s) in
  let s := Dec (d_mem s) (d_blocks s) (fixed_count_size s) stream in
  match key with
  | None => (Some (if eof then Break st else ReturnFalse), s)
  | Some (wire_type, tag) =>
      let '(it, found) := pb_field_iter_find tables (n_iter st) tag in
      let st := NoInit it (fields_seen st) (extension_range_start st) (fixed_count_field st) in
      if negb found then unknown_field fuel tag wire_type st s
      else
        (let* st := use_fixed_count st in
         match st with
         | None => ret ReturnFalse
         | Some st =>
             let st := mark_seen st in
             let* '(ok, it) := decode_field fuel wire_type (n_iter st) in
             ret (if ok : bool then Continue (NoInit it (fields_seen st) (extension_range_start st) (fixed_count_field st))
                  else ReturnFalse)
         end) s
  end.

(** [while (stream->bytes_left)]; [None]: the function returned false. *)
Fixpoint noinit_loop (n : nat) (fuel : nat) (st : noinit) : D (option noinit) :=
  let* left := stream_left in
  if left =? 0 then ret (Some st)
  else match n with
       | O => fail
       | S n' =>
           let* r := decode_one fuel st in
           match r with
           | Continue st => noinit_loop n' fuel st
           | Break st => ret (Some st)
           | ReturnFalse => ret None
           end
       end.

(** Seeking the end of the table: [req_field_count], [last_type] and the iterator. *)
Fixpoint seek_end (n : nat) (it : pb_field_iter) : Z * Z * pb_field_iter :=
  let '(next, more) := pb_field_iter_next tables it in
  match more, n with
  | true, S n' => seek_end n' next
  | _, _ => (required_field_index it, f_type (pos tables it), next)
  end.

(** All the required fields were seen. *)
Definition required_seen (st : noinit) : bool :=
  let '(req_field_count, last_type, it) := seek_end (length (tables (it_start (n_iter st)))) (n_iter st) in
  let req_field_count :=
    if (PB_HTYPE last_type =? PB_HTYPE_REQUIRED) && negb (f_tag (pos tables it) =? 0)
    then u32 (req_field_count + 1) else req_field_count in
  let req_field_count := Z.min req_field_count PB_MAX_REQUIRED_FIELDS in
  let allbits := u32 (-1) in
  let words := Z.shiftr req_field_count 5 in
  forallb (fun i => znth (fields_seen st) i =? allbits) (zseq words) &&
  ((Z.land req_field_count 31 =? 0) ||
   (znth (fields_seen st) words =? Z.shiftr allbits (32 - Z.land req_field_count 31))).

(** The body of [pb_decode_noinit], with its local variable [fixed_count_size]. *)
Definition decode_message (fuel : nat) (fields dest_struct : Z) : D bool := fun s =>
  let it := fst (pb_field_iter_begin tables fields dest_struct) in
  let '(r, s') :=
    (let* left := stream_left in
     let* st := noinit_loop (Z.to_nat left) fuel (NoInit it [0; 0] 0 None) in
     match st with
     | None => ret false
     | Some st =>
         let* wrong := fixed_count_wrong st in
         if wrong : bool then return_error "wrong size for fixed count field"
         else if negb (required_seen st) then return_error "missing required field"
         else ret true
     end) (Dec (d_mem s) (d_blocks s) 0 (d_stream s)) in
  (r, Dec (d_mem s') (d_blocks s') (fixed_count_size s) (d_stream s')).

(** [pb_decode] around a [pb_decode_noinit]. *)
Definition decode_with (noinit : Z -> Z -> D bool) (fuel : nat) (fields dest_struct : Z) : D bool :=
  pb_message_set_to_defaults fuel fields dest_struct ;;
  let* status := noinit fields dest_struct in
  (if status : bool then ret tt else pb_release fuel fields dest_struct) ;;
  ret status.
End submessages.

(** [fuel]: how deep messages nest. *)
Fixpoint pb_decode_noinit (fuel : nat) (fields dest_struct : Z) : D bool :=
  match fuel with
  | O => fail
  | S fuel' =>
      decode_message (decode_with (pb_decode_noinit fuel') fuel') (pb_decode_noinit fuel') fuel fields dest_struct
  end.

Definition pb_decode (fuel : nat) (fields dest_struct : Z) : D bool :=
  decode_with (pb_decode_noinit fuel) fuel fields dest_struct.

Definition pb_decode_nullterminated := pb_decode.

(** The message in a substream. *)
Definition delimited (decode : Z -> Z -> D bool) (fields dest_struct : Z) : D bool :=
  or_false (on_stream (pb_make_string_substream user_read)) (fun substream =>
  let* '(status, substream) := with_stream substream (decode fields dest_struct) in
  and_then (succeeds (on_stream (pb_close_string_substream user_read substream))) (ret status)).

Definition pb_decode_delimited (fuel : nat) : Z -> Z -> D bool := delimited (pb_decode fuel).
Definition pb_decode_delimited_noinit (fuel : nat) : Z -> Z -> D bool := delimited (pb_decode_noinit fuel).
End decode.
