(* ===== verification/PbReads.v ===== *)
(** * nanopb: input streams stay in bounds.

    [reads k m P]: whatever the input, the call [m] reads no byte beyond the
    stream's own and beyond the buffer behind it; when it succeeds it consumed
    at least [k] bytes and its result satisfies [P]. *)

From stdpp Require Import strings.
From S2P Require Import Prelude PbStream.

Section reads.
Context {U : Type} (user_read : U -> Z -> option (list Z) * U).
#[local] Abbreviation istream := (@pb_istream U).

(** A user's callback delivers the number of bytes that it is asked for. *)
Definition reader_ok : Prop := forall u n, 0 <= n ->
  match user_read u n with (Some l, _) => zlen l = n /\ bytes_ok l | (None, _) => True end.

(** The memory of a buffer goes on for [r] bytes after those that are left: the
    rest of the stream that this one is a part of. *)
Definition istream_ok (r : Z) (s : istream) : Prop :=
  0 <= bytes_left s /\
  match is_callback s with IBuf l => bytes_left s + r <= zlen l /\ bytes_ok l | IUser _ => True end.

Definition reads {A} (k : Z) (m : M istream A) (P : A -> Prop) : Prop := forall r s, 0 <= r -> istream_ok r s ->
  istream_ok r (snd (m s)) /\ bytes_left (snd (m s)) <= bytes_left s /\
  forall a, fst (m s) = Some a -> P a /\ bytes_left (snd (m s)) + k <= bytes_left s.

Lemma reads_ret {A} (a : A) (P : A -> Prop) : P a -> reads 0 (ret a) P.
Proof. intros Ha r s Hr Hs. cbn. split_and!; [done|lia|]. intros ? [= <-]. split; [done|lia]. Qed.

Lemma reads_bind {A B} k (m : M istream A) (f : A -> M istream B) P Q :
  reads k m P -> (forall a, P a -> reads 0 (f a) Q) -> reads k (bind m f) Q.
Proof.
  intros Hm Hf r s Hr Hs. unfold bind. destruct (Hm r s Hr Hs) as (H1 & H2 & H3).
  destruct (m s) as [[a|] s1]; cbn [fst snd] in *; [|split_and!; done].
  destruct (H3 a eq_refl) as [Ha Hk]. destruct (Hf a Ha r s1 Hr H1) as (G1 & G2 & G3).
  split_and!; [done|lia|]. intros b Hb. destruct (G3 b Hb). split; [done|lia].
Qed.

Lemma reads_weaken {A} k k' (m : M istream A) (P Q : A -> Prop) : reads k m P -> k' <= k -> (forall a, P a -> Q a) -> reads k' m Q.
Proof.
  intros H Hk HPQ r s Hr Hs. destruct (H r s Hr Hs) as (H1 & H2 & H3). split_and!; [done..|].
  intros a Ha. destruct (H3 a Ha). split; [auto|lia].
Qed.

Lemma reads_at {A} k (m : istream -> M istream A) P : (forall s0, reads k (m s0) P) -> reads k (fun s => m s s) P.
Proof. intros H r s. apply (H s). Qed.

Lemma reads_error {A} k msg (P : A -> Prop) : reads k (is_error msg) P.
Proof. intros r s Hr [Hb Hs]. unfold is_error. cbn. split_and!; [split; done|lia|]. done. Qed.

Lemma reads_fail {A} k (P : A -> Prop) : reads k fail P.
Proof. intros r s Hr Hs. cbn. split_and!; [done|lia|done]. Qed.

Lemma reads_report msg : reads 0 (is_report (U := U) msg) (fun _ => True).
Proof. intros r s Hr [Hb Hs]. unfold is_report, is_error. cbn. split_and!; [split; done|lia|]. intros ? _. split; [done|lia]. Qed.

Hypothesis Hreader : reader_ok.

Lemma read_bytes_reads n : 0 <= n -> reads n (read_bytes user_read n) (fun l => zlen l = n /\ bytes_ok l).
Proof.
  intros Hn r s Hr [Hb Hs]. unfold read_bytes. destruct (Z.ltb_spec (bytes_left s) n); [by apply reads_error|].
  unfold call_read. destruct (is_callback s) as [l|u] eqn:E.
  - destruct Hs as [Hz Hok]. cbn -[ztake zdrop]. unfold istream_ok. cbn -[ztake zdrop]. rewrite zlen_zdrop.
    split_and!; [lia|lia|by apply Forall_zdrop|lia|]. intros ? [= <-].
    split; [|lia]. rewrite zlen_ztake. split; [lia|by apply Forall_ztake].
  - specialize (Hreader u n Hn). destruct (user_read u n) as [[l|] u']; unfold is_error, istream_ok; cbn;
      (split_and!; try lia; try done). intros ? [= <-]. split; [done|lia].
Qed.

Lemma skip_loop_reads k n : 0 <= n -> reads 0 (skip_loop user_read k n) (fun _ => True).
Proof.
  revert n. induction k as [|k IH]; intros n Hn; cbn [skip_loop]; rewrite Z.gtb_ltb; destruct (Z.ltb_spec 16 n).
  - apply reads_fail.
  - destruct (n =? 0); [by apply reads_ret|]. eapply reads_bind; [eapply reads_weaken; [by apply read_bytes_reads|lia|]|];
      [done|]. intros. by apply reads_ret.
  - eapply reads_bind; [eapply reads_weaken; [apply (read_bytes_reads 16); lia|lia|]|]; [done|]. intros. apply IH. lia.
  - destruct (n =? 0); [by apply reads_ret|]. eapply reads_bind; [eapply reads_weaken; [by apply read_bytes_reads|lia|]|];
      [done|]. intros. by apply reads_ret.
Qed.

(** The callback of a user may skip fewer bytes than asked only by failing, but
    nothing is said about the bytes skipped. *)
Lemma pb_read_reads n : 0 <= n -> reads n (pb_read user_read false n) (fun l => zlen l = n /\ bytes_ok l).
Proof.
  intros Hn r s Hr Hs. unfold pb_read. destruct (Z.eqb_spec n 0) as [->|].
  - apply (reads_ret [] (fun l => zlen l = 0 /\ bytes_ok l)); [|done..]. split; [done|constructor].
  - destruct (is_callback s); by apply read_bytes_reads.
Qed.

Lemma pb_skip_reads n : 0 <= n -> reads 0 (pb_read user_read true n) (fun _ => True).
Proof.
  intros Hn r s Hr Hs. unfold pb_read. destruct (n =? 0); [by apply (reads_ret [] (fun _ => True))|].
  destruct (is_callback s) as [l|u] eqn:E.
  - eapply (reads_weaken n 0); [by apply read_bytes_reads|lia| |done..]. done.
  - refine (reads_bind _ _ _ _ _ (skip_loop_reads _ n Hn) _ r s Hr Hs). intros. by apply reads_ret.
Qed.

Lemma readbyte_reads : reads 1 (pb_readbyte user_read) is_byte.
Proof.
  intros r s Hr Hs. pose proof (read_bytes_reads 1 ltac:(lia) r s Hr Hs) as (H1 & H2 & H3). unfold pb_readbyte, read_bytes in *.
  destruct Hs as [Hb _]. destruct (Z.eqb_spec (bytes_left s) 0) as [E|E].
  - rewrite E in *. split_and!; done.
  - destruct (Z.ltb_spec (bytes_left s) 1); [lia|].
    destruct (call_read user_read (is_callback s) 1) as [[l|] cb]; cbn [fst snd] in *; (split_and!; [done..|]).
    + intros ? [= <-]. destruct (H3 l eq_refl) as [[_ Hl] ?]. split; [by apply znth_byte|done].
    + done.
Qed.

Definition is_u32 (v : Z) : Prop := 0 <= v < 2 ^ 32.

Lemma varint32_loop_reads n result bitpos : is_u32 result ->
  reads 0 (varint32_loop user_read n result bitpos) (fun p => is_u32 p.1.1).
Proof.
  revert result bitpos. induction n as [|n IH]; intros result bitpos Hr; cbn [varint32_loop]; [apply reads_fail|].
  eapply reads_bind; [eapply reads_weaken; [apply readbyte_reads|lia|done]|]. intros b Hb.
  eapply (reads_bind 0 _ _ is_u32).
  - destruct (_ >=? _); [destruct (_ && _); [apply reads_error|by apply reads_ret]|]. apply reads_ret.
    apply lor_range; [lia|done|apply u32_range].
  - intros res Hres. cbv zeta. destruct (_ =? 0); [by apply reads_ret|by apply IH].
Qed.

(** [pb_decode_varint32_eof], which delivers [*eof] besides. *)
Lemma varint32_eof_reads : reads 1 (fun s => let '(v, _, s') := pb_decode_varint32_eof user_read s in (v, s')) is_u32.
Proof.
  intros r s Hr Hs. unfold pb_decode_varint32_eof. destruct (readbyte_reads r s Hr Hs) as (H1 & H2 & H3).
  destruct (pb_readbyte user_read s) as [[b|] s1]; cbn [fst snd] in *; [|split_and!; done].
  destruct (H3 b eq_refl) as [Hb Hk].
  destruct (Z.land b 128 =? 0); [cbn; split_and!; [done|lia|]|].
  { intros ? [= <-]. unfold is_u32, is_byte in *. lia. }
  destruct (varint32_loop_reads (S (Z.to_nat (bytes_left s1))) (Z.land b 127) 7) with (r := r) (s := s1) as (G1 & G2 & G3);
    [|done..|].
  { unfold is_u32. pose proof (land_range_l b 127). unfold is_byte in Hb. lia. }
  destruct (varint32_loop _ _ _ _ s1) as [[[[res bp] last]|] s2]; cbn [fst snd] in *; [|split_and!; [done|lia|done]].
  destruct (G3 _ eq_refl) as [Hres Hk2]. destruct (_ && _).
  - destruct (reads_error (A := Z) 0 "varint overflow" (fun _ => True) r s2 Hr G1) as (E1 & E2 & E3).
    destruct (is_error "varint overflow" s2) as [? s3]. cbn [fst snd] in *. split_and!; [done|lia|done].
  - cbn. split_and!; [done|lia|]. intros ? [= <-]. cbn in Hres. split; [done|lia].
Qed.

Lemma varint32_reads : reads 1 (pb_decode_varint32 user_read) is_u32.
Proof. exact varint32_eof_reads. Qed.

Lemma decode_tag_reads :
  reads 1 (fun s => let '(v, _, s') := pb_decode_tag user_read s in (v, s')) (fun p => 0 <= p.2 < 2 ^ 29).
Proof.
  intros r s Hr Hs. unfold pb_decode_tag. destruct (varint32_eof_reads r s Hr Hs) as (H1 & H2 & H3).
  destruct (pb_decode_varint32_eof user_read s) as [[[v|] e] s']; cbn [fst snd] in *; [|split_and!; done].
  destruct (H3 v eq_refl) as [Hv Hk]. destruct (v =? 0); cbn -[Z.shiftr]; (split_and!; [done|lia|]); [done|].
  intros ? [= <-]. split; [|lia]. unfold is_u32 in Hv. cbn -[Z.shiftr]. rewrite Z.shiftr_div_pow2 by lia. zarith.
Qed.

Lemma decode_varint_loop_reads n result bitpos : reads 0 (decode_varint_loop user_read n result bitpos) (fun _ => True).
Proof.
  revert result bitpos. induction n as [|n IH]; intros result bitpos; cbn [decode_varint_loop]; [apply reads_fail|].
  destruct (_ >=? _); [apply reads_error|].
  eapply reads_bind; [eapply reads_weaken; [apply readbyte_reads|lia|done]|]. intros b Hb. cbv zeta.
  destruct (_ =? 0); [by apply reads_ret|apply IH].
Qed.

Lemma varint_reads : reads 1 (pb_decode_varint user_read) (fun _ => True).
Proof.
  unfold pb_decode_varint. cbn [decode_varint_loop]. change (0 >=? 64) with false. cbv iota.
  eapply reads_bind; [apply readbyte_reads|]. intros b Hb. cbv zeta.
  destruct (_ =? 0); [by apply reads_ret|apply (decode_varint_loop_reads 10)].
Qed.

Lemma skip_varint_reads : reads 0 (pb_skip_varint user_read) (fun _ => True).
Proof.
  apply (reads_at 0 (fun s => skip_varint_loop user_read (S (Z.to_nat (bytes_left s))))). intros s0.
  generalize (S (Z.to_nat (bytes_left s0))). intros n. induction n as [|n IH]; cbn [skip_varint_loop]; [apply reads_fail|].
  eapply reads_bind; [eapply reads_weaken; [by apply (pb_read_reads 1)|lia|done]|]. intros l Hl.
  destruct (_ =? 0); [by apply reads_ret|done].
Qed.

Lemma skip_field_reads wt : reads 0 (pb_skip_field user_read wt) (fun _ => True).
Proof.
  unfold pb_skip_field, pb_skip_string.
  repeat match goal with |- context[if ?b then _ else _] => destruct b end; [apply skip_varint_reads| | | |apply reads_error].
  2: { eapply reads_bind; [eapply reads_weaken; [apply varint32_reads|lia|done]|]. intros n Hn.
       eapply reads_bind; [apply pb_skip_reads; unfold is_u32 in Hn; lia|]. intros. by apply reads_ret. }
  all: eapply reads_bind; [apply pb_skip_reads; lia|]; intros; by apply reads_ret.
Qed.

(** ** Scalars *)

(** The bytes that a decoder stores. *)
Definition stored (n : Z) (p : list Z * bool) : Prop := zlen p.1 = n /\ bytes_ok p.1.

Lemma check_clamped_reads c v n l : zlen l = n -> bytes_ok l -> reads 0 (check_clamped (U := U) c v l) (stored n).
Proof.
  intros Hz Hl. unfold check_clamped. destruct (negb _); [|by apply reads_ret].
  eapply reads_bind; [apply reads_report|]. intros. by apply reads_ret.
Qed.

Lemma int_size_nonneg n : int_size n = true -> 0 <= n.
Proof. unfold int_size. rewrite !orb_true_iff, !Z.eqb_eq. lia. Qed.

Lemma store_int_reads f c v : int_size (f_data_size f) = true ->
  reads 0 (check_clamped (U := U) c v (le_bytes (Z.to_nat (f_data_size f)) v)) (stored (f_data_size f)).
Proof.
  intros Hi. apply int_size_nonneg in Hi. apply check_clamped_reads; [rewrite zlen_le_bytes; lia|apply le_bytes_ok].
Qed.

(** The bytes that the scalar decoders of [PB_DECODERS] store. *)
Definition scalar_size (ltype ds : Z) : Z :=
  if ltype =? PB_LTYPE_BOOL then 1 else if ltype =? PB_LTYPE_FIXED32 then 4 else if ltype =? PB_LTYPE_FIXED64 then 8 else ds.

Lemma scalar_reads ltype f func : PB_DECODERS user_read ltype = Some func ->
  reads 1 (func f) (stored (scalar_size ltype (f_data_size f))).
Proof.
  unfold PB_DECODERS. intros H. 
  repeat (match type of H with context[ltype =? ?k] => destruct (Z.eqb_spec ltype k) as [->|_] end;
    [injection H as <-; cbn [scalar_size Z.eqb Pos.eqb]|]); [..|done].
  - unfold pb_dec_bool. eapply reads_bind; [apply varint32_reads|]. intros v Hv. apply reads_ret.
    split; [done|]. destruct (negb _); repeat constructor; lia.
  - unfold pb_dec_varint. eapply reads_bind; [apply varint_reads|]. intros v _. cbv zeta.
    destruct (int_size _) eqn:E; [by apply store_int_reads|apply reads_error].
  - unfold pb_dec_uvarint. eapply reads_bind; [apply varint_reads|]. intros v _. cbv zeta.
    destruct (int_size _) eqn:E; [by apply store_int_reads|apply reads_error].
  - unfold pb_dec_svarint, pb_decode_svarint.
    eapply (reads_bind 1 _ _ (fun _ => True)).
    { eapply reads_bind; [apply varint_reads|]. intros v _. by apply reads_ret. }
    intros v _. cbv zeta. destruct (int_size _) eqn:E; [by apply store_int_reads|apply reads_error].
  - unfold pb_dec_fixed32, pb_decode_fixed32. eapply (reads_bind 1 _ _ (fun l => zlen l = 4 /\ bytes_ok l)).
    { eapply reads_bind; [eapply reads_weaken; [by apply (pb_read_reads 4)|lia|done]|]. intros l _. apply reads_ret.
      split; [by rewrite zlen_le_bytes|apply le_bytes_ok]. }
    intros l Hl. by apply reads_ret.
  - unfold pb_dec_fixed64, pb_decode_fixed64. eapply (reads_bind 1 _ _ (fun l => zlen l = 8 /\ bytes_ok l)).
    { eapply reads_bind; [eapply reads_weaken; [by apply (pb_read_reads 8)|lia|done]|]. intros l _. apply reads_ret.
      split; [by rewrite zlen_le_bytes|apply le_bytes_ok]. }
    intros l Hl. by apply reads_ret.
Qed.

Lemma fixed_length_bytes_reads f : 0 <= f_data_size f ->
  reads 1 (pb_dec_fixed_length_bytes user_read f) (stored (f_data_size f)).
Proof.
  intros Hf. unfold pb_dec_fixed_length_bytes. eapply reads_bind; [apply varint32_reads|]. intros size _.
  destruct (_ >? _); [apply reads_error|]. destruct (size =? 0).
  - apply reads_ret. split; cbn; [rewrite zlen_replicate; lia|]. apply Forall_replicate. unfold is_byte. lia.
  - destruct (negb _); [apply reads_error|].
    eapply reads_bind; [eapply reads_weaken; [by apply pb_read_reads|lia|done]|]. intros l Hl. by apply reads_ret.
Qed.

(** ** Substreams *)

(** A substream has its own bytes; the bytes left of the stream follow them. *)
Lemma make_substream_reads r s : 0 <= r -> istream_ok r s ->
  let '(o, s') := pb_make_string_substream user_read s in
  istream_ok r s' /\ bytes_left s' <= bytes_left s /\
  forall sub, o = Some sub -> istream_ok (r + bytes_left s') sub /\ bytes_left s' + bytes_left sub + 1 <= bytes_left s.
Proof.
  intros Hr Hs. unfold pb_make_string_substream, bind, getst, putst, ret.
  destruct (varint32_reads r s Hr Hs) as (H1 & H2 & H3).
  destruct (pb_decode_varint32 user_read s) as [[n|] s1]; cbn [fst snd] in *; [|split_and!; done].
  destruct (H3 n eq_refl) as [Hn Hk]. unfold is_u32 in Hn. destruct (Z.ltb_spec (bytes_left s1) n).
  - unfold is_error. destruct H1. split_and!; [split; done|done|done].
  - destruct H1 as [Hb Hc]. cbn [bytes_left]. split_and!; [split; cbn; [lia|]|lia|].
    + destruct (is_callback s1); [|done]. destruct Hc. split; [lia|done].
    + intros ? [= <-]. cbn. split; [split; cbn; [lia|]|lia].
      destruct (is_callback s1); [|done]. destruct Hc. split; [lia|done].
Qed.

Lemma close_substream_reads r s sub : 0 <= r -> istream_ok r s -> istream_ok (r + bytes_left s) sub ->
  let '(o, s') := pb_close_string_substream user_read sub s in istream_ok r s' /\ bytes_left s' = bytes_left s.
Proof.
  intros Hr Hs Hsub. unfold pb_close_string_substream, bind, getst, putst, on. destruct Hs as [Hb Hs]. pose proof Hsub as [Hsb _].
  assert (K : forall sub' : istream, istream_ok (r + bytes_left s) sub' ->
    istream_ok r (IStream (is_callback sub') (bytes_left s) (is_errmsg sub'))).
  { intros sub' [Hb' Hc]. split; cbn; [done|]. destruct (is_callback sub'); [|done]. destruct Hc. split; [lia|done]. }
  destruct (negb _).
  - destruct (pb_skip_reads (bytes_left sub) Hsb (r + bytes_left s) sub ltac:(lia) Hsub) as (H1 & H2 & H3).
    destruct (pb_read user_read true (bytes_left sub) sub) as [[l|] sub']; cbn [fst snd] in *; [|split; [split; done|done]].
    split; [by apply K|done].
  - cbn. split; [by apply K|done].
Qed.
End reads.
