(* ===== verification/PbSafe.v ===== *)
(** * nanopb messages: the decoder is safe on every input.

    For the tables of messages whose fields are all inside the struct, a
    decidable condition on the table ([fits]), [pb_decode] returns, whatever the
    bytes of the stream and whatever the struct held before: it touches only the
    struct, reads only the stream and leaves the heap alone. *)

From stdpp Require Import strings.
From S2P Require Import Prelude PbMem PbStream PbIter PbReads PbDecode.

(** ** The members of a struct with the places of their counts *)

Fixpoint slots_after (prev : pb_field) (a z : Z) (l : list pb_field) : list (pb_field * Z * Z) :=
  match l with
  | [] => []
  | f :: l' =>
      if f_tag f =? 0 then []
      else
        let a' := next_data prev a f in
        let z' := if same_union prev f then z else a' + f_size_offset f in
        (f, a', z') :: slots_after f a' z' l'
  end.
Definition slots (l : list pb_field) (src : Z) : list (pb_field * Z * Z) :=
  match l with
  | [] => []
  | f :: l' => if f_tag f =? 0 then [] else let a := src + f_data_offset f in (f, a, a + f_size_offset f) :: slots_after f a (a + f_size_offset f) l'
  end.

Lemma slots_shift l src d : slots l (src + d) = (fun x => (x.1.1, x.1.2 + d, x.2 + d)) <$> slots l src.
Proof.
  assert (G : forall l prev a z, slots_after prev (a + d) (z + d) l =
    (fun x => (x.1.1, x.1.2 + d, x.2 + d)) <$> slots_after prev a z l).
  { clear. induction l as [|f l IH]; intros prev a z; [done|]. cbn [slots_after]. destruct (_ =? 0); [done|].
    cbn [fmap list_fmap fst snd]. assert (E : next_data prev (a + d) f = next_data prev a f + d).
    { unfold next_data. destruct (same_union _ _); lia. }
    assert (E2 : (if same_union prev f then z + d else next_data prev a f + d + f_size_offset f) =
                 (if same_union prev f then z else next_data prev a f + f_size_offset f) + d) by (destruct (same_union _ _); lia).
    rewrite E, E2, IH. done. }
  destruct l as [|f l]; [done|]. cbn [slots]. destruct (_ =? 0); [done|]. cbn [fmap list_fmap fst snd].
  rewrite <- G. replace (src + d + f_data_offset f) with (src + f_data_offset f + d) by lia.
  replace (src + f_data_offset f + d + f_size_offset f) with (src + f_data_offset f + f_size_offset f + d) by lia. done.
Qed.

(** ** Tables whose fields fit in the struct *)

(** A value of the field's type takes at most [room] bytes. *)
Definition item_fits (fits : Z -> Z -> bool) (f : pb_field) (room : Z) : bool :=
  let ltype := PB_LTYPE (f_type f) in
  if packable ltype then scalar_size ltype (f_data_size f) <=? room
  else if (ltype =? PB_LTYPE_BYTES) || (ltype =? PB_LTYPE_STRING) || (ltype =? PB_LTYPE_FIXED_LENGTH_BYTES) then f_data_size f <=? room
  else if ltype =? PB_LTYPE_SUBMESSAGE then negb (f_ptr f =? 0) && fits (f_ptr f) (f_data_size f) && (f_data_size f <=? room)
  else false.

(** A static field whose data, and whose flag, count or tag, are in [0, size). *)
Definition slot_fits (fits : Z -> Z -> bool) (size : Z) (x : pb_field * Z * Z) : bool :=
  let '(f, a, z) := x in
  let htype := PB_HTYPE (f_type f) in
  (PB_ATYPE (f_type f) =? PB_ATYPE_STATIC) && item_fits fits f (f_data_size f) && (0 <=? a) &&
  (a + f_data_size f * (if htype =? PB_HTYPE_REPEATED then f_array_size f else 1) <=? size) &&
  (if htype =? PB_HTYPE_REQUIRED then true
   else if htype =? PB_HTYPE_OPTIONAL then (z =? a) || ((0 <=? z) && (z + 1 <=? size))
   else (0 <=? z) && (z + 4 <=? size)).

Section fits.
Context (tables : Z -> list pb_field).

(** Tables end with their [PB_LAST_FIELD]; the struct of an empty message has a dummy
    byte. *)
Fixpoint fits (depth : nat) (fields size : Z) : bool :=
  match depth with
  | O => false
  | S depth' =>
      (1 <=? size) && forallb (fun f => negb (f_tag f =? 0)) (tables fields) &&
      forallb (slot_fits (fits depth') size) (slots (tables fields) 0)
  end.

Lemma fits_S depth fields size : fits depth fields size = true -> fits (S depth) fields size = true.
Proof.
  revert fields size. induction depth as [|depth IH]; intros fields size H; [done|]. cbn [fits] in H. change (fits (S (S depth)) fields size) with
    ((1 <=? size) && forallb (fun f => negb (f_tag f =? 0)) (tables fields) && forallb (slot_fits (fits (S depth)) size) (slots (tables fields) 0)).
  apply andb_true_iff in H as [-> H]. cbn [andb]. rewrite forallb_forall in H. apply forallb_forall. intros [[f a] z] Hx. specialize (H _ Hx).
  unfold slot_fits, item_fits in *. destruct (packable _); [done|]. destruct (_ || _ || _); [done|].
  destruct (_ =? PB_LTYPE_SUBMESSAGE); [|done]. destruct (fits depth (f_ptr f) (f_data_size f)) eqn:E.
  - rewrite (IH _ _ E). done.
  - rewrite !andb_false_r in H. done.
Qed.

Lemma fits_mono depth depth' fields size : (depth <= depth')%nat -> fits depth fields size = true -> fits depth' fields size = true.
Proof. induction 1; [done|]. intros. by apply fits_S, IHle. Qed.
End fits.

(** ** Iterators that stand on a member *)

Section iterators.
Context (tables : Z -> list pb_field).

Lemma slots_after_lookup l prev a z i f a' z' : slots_after prev a z l !! i = Some (f, a', z') ->
  l !! i = Some f /\ f_tag f <> 0 /\
  slots_after prev a z l !! S i = g ← l !! S i;
    if f_tag g =? 0 then None
    else Some (g, next_data f a' g, if same_union f g then z' else next_data f a' g + f_size_offset g).
Proof.
  revert prev a z i. induction l as [|h l IH]; intros prev a z i H; [done|]. cbn [slots_after] in *.
  destruct (Z.eqb_spec (f_tag h) 0); [done|]. destruct i as [|i].
  - injection H as <- <- <-. split_and!; [done..|]. cbn [lookup list_lookup]. destruct l as [|g l]; [done|].
    cbn [slots_after]. destruct (_ =? 0) eqn:E; cbn; rewrite E; done.
  - apply (IH _ _ _ i) in H as (H1 & H2 & H3). split_and!; done.
Qed.

Lemma slots_lookup l src i f a z : slots l src !! i = Some (f, a, z) ->
  l !! i = Some f /\ f_tag f <> 0 /\
  slots l src !! S i = g ← l !! S i;
    if f_tag g =? 0 then None
    else Some (g, next_data f a g, if same_union f g then z else next_data f a g + f_size_offset g).
Proof.
  destruct l as [|h l]; [done|]. cbn [slots]. destruct (Z.eqb_spec (f_tag h) 0); [done|]. destruct i as [|i].
  - intros [= <- <- <-]. split_and!; [done..|]. cbn [lookup list_lookup]. destruct l as [|g l]; [done|].
    cbn [slots_after]. destruct (_ =? 0) eqn:E; cbn; rewrite E; done.
  - intros H. apply slots_after_lookup in H as (H1 & H2 & H3). split_and!; done.
Qed.

(** The iterator of an empty table stands on [PB_LAST_FIELD]. *)
Definition it_at (fields dest : Z) (it : pb_field_iter) : Prop :=
  it_start it = fields /\ dest_struct it = dest /\
  if decide (tables fields = []) then it = fst (pb_field_iter_begin tables fields dest)
  else exists z, slots (tables fields) dest !! it_pos it = Some (pos tables it, pData it, z) /\
         (pSize it = InStruct z \/ pSize it = Local /\ PB_HTYPE (f_type (pos tables it)) = PB_HTYPE_REPEATED).

Definition no_end (fields : Z) : Prop := Forall (fun f => f_tag f <> 0) (tables fields).

Lemma field_at_lookup fields i f : tables fields !! i = Some f -> field_at tables fields i = f.
Proof. apply nth_lookup_Some. Qed.

Lemma begin_at fields dest : no_end fields -> it_at fields dest (fst (pb_field_iter_begin tables fields dest)).
Proof.
  intros Hn. unfold it_at. split_and!; [done..|]. destruct (decide (tables fields = [])) as [|Hne]; [done|].
  unfold no_end, pb_field_iter_begin, pos, field_at in *. cbn [fst it_start it_pos]. destruct (tables fields) as [|f l] eqn:Et; [done|]. cbn.
  apply Forall_cons in Hn as [Hf _]. destruct (Z.eqb_spec (f_tag f) 0); [done|].
  eexists. split; [reflexivity|by left].
Qed.

(** [next] steps to the next member or, after the last, back to the first. *)
Lemma next_at fields dest it : no_end fields -> it_at fields dest it ->
  let '(it', more) := pb_field_iter_next tables it in
  it_at fields dest it' /\ if more then it_pos it' = S (it_pos it) /\ (S (it_pos it) < length (tables fields))%nat else it_pos it' = 0%nat /\ (length (tables fields) <= S (it_pos it))%nat.
Proof.
  intros Hn (Hs & Hd & H). unfold pb_field_iter_next. destruct (decide (tables fields = [])) as [E|Hne].
  - assert (Ht : f_tag (pos tables it) = 0) by (subst it; unfold pos, field_at; cbn; by rewrite E).
    rewrite Ht. cbn [Z.eqb]. split; [|split; [by subst it|rewrite E; cbn; lia]]. split_and!; [done..|]. by rewrite decide_True.
  - destruct H as (z & Hz & Hp). pose proof (slots_lookup _ _ _ _ _ _ Hz) as (H1 & H2 & H3).
    destruct (Z.eqb_spec (f_tag (pos tables it)) 0); [done|]. rewrite Hs, Hd.
    unfold field_at. destruct (tables fields !! S (it_pos it)) as [g|] eqn:Eg.
    + rewrite (nth_lookup_Some _ _ _ _ Eg). pose proof (lookup_lt_Some _ _ _ Eg) as Hlt.
      pose proof (proj1 (Forall_lookup _ _) Hn _ _ Eg) as Hg. cbv beta in Hg. destruct (Z.eqb_spec (f_tag g) 0); [done|].
      cbn [mbind option_bind] in H3. destruct (Z.eqb_spec (f_tag g) 0); [done|]. unfold next_data, same_union in H3.
      destruct (_ && _ && _) eqn:Eu; (split; [|done]); unfold it_at; (split_and!; [done..|]); rewrite decide_False by done;
        unfold pos in *; cbn [it_start it_pos pData pSize dest_struct] in *;
        rewrite (field_at_lookup _ _ _ Eg) in *; [exists z|eexists]; (split; [exact H3|]).
      * destruct Hp as [Hp|[Hp Hr]]; [by left|]. rewrite Hr in Eu. done.
      * by left.
    + apply lookup_ge_None in Eg. rewrite nth_overflow by done. cbn [f_tag PB_LAST_FIELD Z.eqb]. split; [by apply begin_at|done].
Qed.

Lemma find_loop_at wanted fields dest n start it : no_end fields -> it_at fields dest it ->
  it_at fields dest (fst (find_loop tables n wanted start it)) /\
  (snd (find_loop tables n wanted start it) = true -> wanted (pos tables (fst (find_loop tables n wanted start it))) = true).
Proof.
  intros Hn. revert it. induction n as [|n IH]; intros it Hi; cbn [find_loop]; destruct (wanted (pos tables it)) eqn:E; try done;
    pose proof (next_at _ _ _ Hn Hi) as H; destruct (pb_field_iter_next tables it) as [it' more]; destruct H as [H _];
    cbn [fst]; destruct (_ =? start)%nat; [done..|by apply IH].
Qed.
End iterators.

(** ** Calls that stay in [lo, hi) *)

Section safe.
Context {U : Type} (user_read : U -> Z -> option (list Z) * U).
Context (tables : Z -> list pb_field).
Context (decode_cb : Z -> pb_field -> Z -> M (dec U) bool) (decode_ext : Z -> Z -> Z -> Z -> M (dec U) bool).
Context (alloc : mem -> gmap Z Z -> Z -> option (Z * list Z)).
#[local] Abbreviation istream := (@pb_istream U).
#[local] Abbreviation D := (M (dec U)).
Hypothesis Hreader : reader_ok user_read.
Hypothesis tables_ok : forall t, Forall field_ok (tables t).

(** The default values of the tables are in memory. *)
Definition defaults_ok (m : mem) : Prop := forall t f, f ∈ tables t -> f_ptr f <> 0 ->
  PB_LTYPE (f_type f) <> PB_LTYPE_SUBMESSAGE -> mapped m (f_ptr f) (f_ptr f + f_data_size f).

Record ok (lo hi r : Z) (s : dec U) : Prop := {
  ok_mapped : mapped (d_mem s) lo hi; ok_defaults : defaults_ok (d_mem s); ok_rest : 0 <= r;
  ok_stream : istream_ok r (d_stream s); ok_count : is_u32 (fixed_count_size s) }.

(** [left s]: the bytes of the stream that are left. *)
#[local] Abbreviation left s := (bytes_left (d_stream s)).

(** From every good state the call returns, in a good state, with only [lo, hi)
    changed; its result and the number of bytes it consumed satisfy [P]. *)
Definition runs_at {A} (lo hi r : Z) (s : dec U) (m : D A) (P : A -> Z -> Prop) : Prop :=
  exists a s', m s = (Some a, s') /\ within lo hi (d_mem s) (d_mem s') /\ d_blocks s' = d_blocks s /\
    left s' <= left s /\ ok lo hi r s' /\ P a (left s - left s').
Definition runs {A} (lo hi : Z) (m : D A) (P : A -> Z -> Prop) : Prop :=
  forall r s, ok lo hi r s -> runs_at lo hi r s m P.
#[local] Abbreviation any := (fun _ _ => True).

Lemma within_defaults lo hi m m' : within lo hi m m' -> defaults_ok m -> defaults_ok m'.
Proof. intros Hw H t f Hf Hp Hl. apply (within_mapped _ _ _ _ _ _ Hw). by apply (H t). Qed.

Lemma runs_ret {A} lo hi (a : A) (P : A -> Z -> Prop) : P a 0 -> runs lo hi (ret a) P.
Proof. intros Ha r s Hs. exists a, s. split_and!; [done..|lia|done|by rewrite Z.sub_diag]. Qed.

Lemma runs_at_bind {A B} lo hi r s (m : D A) (k : A -> D B) P Q : runs_at lo hi r s m P ->
  (forall a c s', P a c -> 0 <= c -> left s' = left s - c -> ok lo hi r s' -> runs_at lo hi r s' (k a) (fun b c' => Q b (c + c'))) ->
  runs_at lo hi r s (bind m k) Q.
Proof.
  intros (a & s1 & E & W & Hb & Hl & Hok & HP) Hk. destruct (Hk a _ s1 HP) as (b & s2 & E2 & W2 & Hb2 & Hl2 & Hok2 & HQ); [lia|lia|done|].
  exists b, s2. rewrite (bind_ok _ _ _ _ _ E). split_and!; [done|by etransitivity|congruence|lia|done|].
  replace (left s - left s2) with (left s - left s1 + (left s1 - left s2)) by lia. done.
Qed.

Lemma runs_bind {A B} lo hi (m : D A) (k : A -> D B) P Q : runs lo hi m P ->
  (forall a c, P a c -> 0 <= c -> runs lo hi (k a) (fun b c' => Q b (c + c'))) -> runs lo hi (bind m k) Q.
Proof.
  intros Hm Hk r s Hs. apply (runs_at_bind _ _ _ _ _ _ P _ (Hm r s Hs)). intros a c s' HP Hc _ Hs'. by apply (Hk a c).
Qed.

Lemma runs_mono {A} lo hi (m : D A) (P Q : A -> Z -> Prop) : runs lo hi m P -> (forall a c, 0 <= c -> P a c -> Q a c) -> runs lo hi m Q.
Proof.
  intros H HPQ r s Hs. destruct (H r s Hs) as (a & s' & E & W & Hb & Hl & Hok & HP). exists a, s'.
  split_and!; try done. apply HPQ; [lia|done].
Qed.

(** A part of the region is enough. *)
Lemma runs_part {A} lo hi lo' hi' (m : D A) P : lo' <= lo -> hi <= hi' -> runs lo hi m P -> runs lo' hi' m P.
Proof.
  intros Hlo Hhi H r s [Hm Hd Hr Hs Hc]. destruct (H r s) as (a & s' & E & W & Hb & Hl & [] & HP).
  { constructor; try done. by apply (mapped_mono _ _ _ _ _ Hm). }
  exists a, s'. split_and!; [done|by apply (within_mono _ _ _ _ _ _ W)|done..| |done].
  constructor; try done. by apply (within_mapped _ _ _ _ _ _ W).
Qed.

Lemma runs_load lo hi a n : lo <= a -> a + Z.of_nat n <= hi ->
  runs lo hi (load_bytes a n) (fun l c => zlen l = Z.of_nat n /\ bytes_ok l /\ c = 0).
Proof.
  intros H1 H2 r s Hs. destruct (load_ok (d_mem s) a n) as (l & E & Hz & Hl).
  { apply (mapped_mono _ lo hi); [apply Hs|lia..]. }
  exists l, s. unfold load_bytes. rewrite E. split_and!; try done; lia.
Qed.

Lemma runs_load_default lo hi f t : f ∈ tables t -> f_ptr f <> 0 -> PB_LTYPE (f_type f) <> PB_LTYPE_SUBMESSAGE ->
  runs lo hi (load_bytes (f_ptr f) (Z.to_nat (f_data_size f))) (fun l c => zlen l = f_data_size f /\ bytes_ok l /\ c = 0).
Proof.
  intros Hf Hp Hl r s Hs. assert (0 <= f_data_size f) by (apply (proj1 (Forall_forall _ _) (tables_ok t)) in Hf; apply Hf).
  destruct (load_ok (d_mem s) (f_ptr f) (Z.to_nat (f_data_size f))) as (l & E & Hz & Hok).
  { rewrite Z2Nat.id by done. apply (ok_defaults _ _ _ _ Hs t); done. }
  exists l, s. unfold load_bytes. rewrite E. split_and!; try done; lia.
Qed.

Lemma runs_store lo hi a l : lo <= a -> a + zlen l <= hi -> bytes_ok l -> runs lo hi (store_bytes a l) (fun _ c => c = 0).
Proof.
  intros H1 H2 Hl r s [Hm Hd Hr Hs Hc]. destruct (store_ok l (d_mem s) a) as (m' & E & W); [|done|].
  { apply (mapped_mono _ lo hi); [done|lia..]. }
  assert (W' : within lo hi (d_mem s) m') by (apply (within_mono _ _ _ _ _ _ W); lia).
  eexists tt, _. unfold store_bytes. rewrite E. split_and!; [reflexivity|done|done|cbn; lia| |cbn; lia].
  constructor; cbn; [by apply (within_mapped _ _ _ _ _ _ W')|by apply (within_defaults _ _ _ _ W')|done..].
Qed.

Lemma runs_zero lo hi a n : lo <= a -> 0 <= n -> a + n <= hi -> runs lo hi (memset_zero a n) (fun _ c => c = 0).
Proof.
  intros H1 Hn H2. apply runs_store; rewrite ?zlen_replicate; [lia..|]. apply Forall_replicate. unfold is_byte. lia.
Qed.

(** A count: in the struct or in the local variable. *)
Definition size_in (lo hi : Z) (p : size_loc) : Prop := match p with InStruct z => lo <= z /\ z + 4 <= hi | Local => True end.

Lemma runs_load_size lo hi p : size_in lo hi p -> runs lo hi (load_size p) (fun v c => is_u32 v /\ c = 0).
Proof.
  destruct p as [z|]; cbn [size_in load_size]; intros Hp.
  - eapply runs_bind; [apply (runs_load lo hi z 4); lia|]. intros l c (Hz & Hl & ->) _. apply runs_ret.
    pose proof (le_val_range l Hl) as Hr. rewrite Hz in Hr. split; [exact Hr|done].
  - intros r s Hs. exists (fixed_count_size s), s. split_and!; try done; try lia; apply Hs.
Qed.

Lemma runs_store_size lo hi p v : size_in lo hi p -> is_u32 v -> runs lo hi (store_size p v) (fun _ c => c = 0).
Proof.
  destruct p as [z|]; cbn [size_in store_size]; intros Hp Hv.
  - apply runs_store; [lia|rewrite zlen_le_bytes; lia|apply le_bytes_ok].
  - intros r s [Hm Hd Hr Hs Hc]. eexists tt, _. split_and!; [reflexivity|done|done|cbn; lia|by constructor|cbn; lia].
Qed.

(** A call of the stream. *)
Lemma runs_stream {A} lo hi k (m : M istream A) (P : A -> Prop) : reads k m P ->
  runs lo hi (on_stream m) (fun o c => forall a, o = Some a -> P a /\ k <= c).
Proof.
  intros H r s [Hm Hd Hr Hs Hc]. destruct (H r (d_stream s) Hr Hs) as (H1 & H2 & H3). unfold runs_at, on_stream.
  destruct (m (d_stream s)) as [o st]. cbn [fst snd] in *. eexists o, _. split_and!; [reflexivity|done|done|done|by constructor|].
  intros a Ha. cbn. destruct (H3 a Ha). split; [done|lia].
Qed.

Lemma runs_left lo hi : runs lo hi stream_left (fun l c => c = 0).
Proof. intros r s Hs. exists (left s), s. split_and!; try done; lia. Qed.

Lemma runs_or_false {A} lo hi (m : D (option A)) k P Q : runs lo hi m P -> (forall c, 0 <= c -> P None c -> Q false c) ->
  (forall a c, P (Some a) c -> 0 <= c -> runs lo hi (k a) (fun b c' => Q b (c + c'))) -> runs lo hi (or_false m k) Q.
Proof.
  intros Hm Hn Hk. unfold or_false. apply (runs_bind _ _ _ _ P); [done|]. intros [a|] c Ha Hc; [by apply Hk|].
  apply runs_ret. rewrite Z.add_0_r. by apply Hn.
Qed.

(** The result of a call that returns [bool]; [k] bytes were consumed if it is true. *)
#[local] Abbreviation consumes k := (fun (b : bool) c => b = true -> k <= c).

Lemma runs_error lo hi k msg : runs lo hi (return_error msg) (consumes k).
Proof.
  unfold return_error, succeeds. eapply runs_or_false; [apply (runs_stream _ _ 0 _ (fun _ => False))|done|].
  - intros r s Hr Hs. destruct (reads_error (A := unit) 0 msg (fun _ => True) r s Hr Hs) as (H1 & H2 & _).
    unfold is_error in *. cbn [fst snd] in *. split_and!; done.
  - intros a c Ha _. destruct (Ha a eq_refl) as [[] _].
Qed.

Lemma runs_succeeds {A} lo hi k (m : M istream A) P : reads k m P -> runs lo hi (succeeds (on_stream m)) (consumes k).
Proof.
  intros H. unfold succeeds. eapply runs_or_false; [by apply (runs_stream _ _ k)|done|].
  intros a c Ha _. destruct (Ha a eq_refl) as [_ Hk]. apply runs_ret. lia.
Qed.

(** ** Substreams

    The work on a substream, between the calls that make and close it. *)
Lemma runs_substream lo hi (k : istream -> D bool) :
  (forall r s sub, ok lo hi r s -> istream_ok (r + left s) sub -> runs_at lo hi r s (k sub) any) ->
  runs lo hi (or_false (on_stream (pb_make_string_substream user_read)) k) (consumes 1).
Proof.
  intros Hk r s [Hm Hd Hr Hs Hc]. pose proof (make_substream_reads user_read Hreader r (d_stream s) Hr Hs) as H.
  unfold runs_at, or_false, bind, on_stream. destruct (pb_make_string_substream user_read (d_stream s)) as [[sub|] st].
  - destruct H as (H1 & H2 & H3). destruct (H3 sub eq_refl) as [H4 H5].
    destruct (Hk r (Dec (d_mem s) (d_blocks s) (fixed_count_size s) st) sub) as (b & s' & E & W & Hb & Hl & Hok & _); [by constructor|done|].
    exists b, s'. cbn [d_mem d_blocks d_stream] in *. split_and!; [done..|lia|done|]. destruct H4 as [H4 _]. lia.
  - destruct H as (H1 & H2 & _). eexists false, _. split_and!; [reflexivity|done..|by constructor|done].
Qed.

(** A call on a substream, whose bytes are followed by those of the stream. *)
Lemma runs_with_stream {A B} lo hi r s sub (m : D A) (k : A * istream -> D B) P Q :
  ok lo hi r s -> istream_ok (r + left s) sub -> runs lo hi m P ->
  (forall a sub' s', P a (bytes_left sub - bytes_left sub') -> bytes_left sub' <= bytes_left sub -> left s' = left s ->
     ok lo hi r s' -> istream_ok (r + left s') sub' -> runs_at lo hi r s' (k (a, sub')) Q) ->
  runs_at lo hi r s (let* x := with_stream sub m in k x) Q.
Proof.
  intros [Hm Hd Hr [H0 Hs] Hc] Hsub Hrun Hk.
  destruct (Hrun (r + left s) (Dec (d_mem s) (d_blocks s) (fixed_count_size s) sub)) as (a & s' & E & W & Hb & Hl & [] & HP).
  { constructor; cbn; try done. lia. }
  destruct (Hk a (d_stream s') (Dec (d_mem s') (d_blocks s') (fixed_count_size s') (d_stream s))) as (b & s2 & E2 & W2 & Hb2 & Hl2 & Hok2 & HQ);
    [done..|by constructor|done|].
  exists b, s2. unfold bind, with_stream. rewrite E. cbn [d_mem d_blocks d_stream] in *.
  split_and!; [done|by etransitivity|congruence|lia|done|done].
Qed.

Lemma runs_close lo hi r s sub status : ok lo hi r s -> istream_ok (r + left s) sub ->
  runs_at lo hi r s (and_then (succeeds (on_stream (pb_close_string_substream user_read sub))) (ret status)) any.
Proof.
  intros [Hm Hd Hr Hs Hc] Hsub. pose proof (close_substream_reads user_read Hreader r (d_stream s) sub Hr Hs Hsub) as H.
  unfold runs_at, and_then, succeeds, or_false, on_stream, bind.
  destruct (pb_close_string_substream user_read sub (d_stream s)) as [[[]|] st]; destruct H as [H1 H2];
    (eexists _, _; split_and!; [reflexivity|done|done|cbn; lia|by constructor|done]).
Qed.

(** ** The member that an iterator stands on *)

(** [n]: how deep its submessages nest. *)
Record member_ok (n : nat) (lo hi : Z) (it : pb_field_iter) : Prop := {
  mb_static : PB_ATYPE (f_type (pos tables it)) = PB_ATYPE_STATIC;
  mb_lo : lo <= pData it;
  mb_item : exists room, item_fits (fits tables n) (pos tables it) room = true /\ f_data_size (pos tables it) <= room /\
    (PB_HTYPE (f_type (pos tables it)) <> PB_HTYPE_REPEATED -> pData it + room <= hi) /\
    (PB_HTYPE (f_type (pos tables it)) = PB_HTYPE_REPEATED ->
     room = f_data_size (pos tables it) /\ pData it + room * f_array_size (pos tables it) <= hi);
  mb_has : PB_HTYPE (f_type (pos tables it)) = PB_HTYPE_OPTIONAL ->
    exists z, pSize it = InStruct z /\ (z = pData it \/ lo <= z /\ z + 1 <= hi);
  mb_size : PB_HTYPE (f_type (pos tables it)) = PB_HTYPE_REPEATED \/ PB_HTYPE (f_type (pos tables it)) = PB_HTYPE_ONEOF ->
    size_in lo hi (pSize it);
  mb_field : field_ok (pos tables it);
  mb_default : f_ptr (pos tables it) <> 0 -> PB_LTYPE (f_type (pos tables it)) <> PB_LTYPE_SUBMESSAGE ->
    exists t, pos tables it ∈ tables t }.

Lemma fits_no_end n t size : fits tables n t size = true -> no_end tables t.
Proof.
  destruct n as [|n]; [done|]. cbn [fits]. intros H. bool_hyps. apply Forall_forall. intros f Hf.
  rewrite forallb_forall in *. apply list_elem_of_In in Hf. 
  match goal with H : forall x, In x (tables t) -> _ |- _ => specialize (H f Hf) end. by bool_hyps.
Qed.

Lemma it_member n t size dest it : fits tables (S n) t size = true -> it_at tables t dest it ->
  member_ok n dest (dest + size) it.
Proof.
  intros Hf (Hs & Hd & H). cbn [fits] in Hf. apply andb_prop in Hf as [Hf Hall]. apply andb_prop in Hf as [H1 _].
  apply Z.leb_le in H1. destruct (decide (tables t = [])) as [E|Hne].
  - assert (Hp : pos tables it = PB_LAST_FIELD).
    { subst it. unfold pos, pb_field_iter_begin, field_at. cbn. rewrite E. done. }
    assert (Hdata : pData it = dest) by (subst it; unfold pb_field_iter_begin, field_at; rewrite E; cbn; lia).
    constructor; rewrite ?Hp, ?Hdata; try done; try lia.
    + exists size. cbn. split_and!; try done; try lia. unfold item_fits. cbn. apply Z.leb_le. done.
    + by intros [|].
  - destruct H as (z & Hz & Hsz). destruct (slots_lookup _ _ _ _ _ _ Hz) as (Ht & _ & _).
    assert (Hfo : field_ok (pos tables it)) by (apply (proj1 (Forall_lookup _ _) (tables_ok t)) in Ht; done).
    pose proof Hfo as (_ & Hds & Has).
    replace dest with (0 + dest) in Hz by lia. rewrite slots_shift in Hz.
    apply list_lookup_fmap_Some in Hz as ([[f a] z0] & [= Hf Ha Hz] & Hl).
    rewrite forallb_forall in Hall. specialize (Hall _ (proj1 (list_elem_of_In _ _) (list_elem_of_lookup_2 _ _ _ Hl))). cbn [fst snd] in *.
    unfold slot_fits in Hall. rewrite <- Hf in Hall.
    apply andb_prop in Hall as [Hall Hsize]. apply andb_prop in Hall as [Hall Hhi]. apply andb_prop in Hall as [Hall Hlo].
    apply andb_prop in Hall as [Hst Hit]. apply Z.leb_le in Hhi, Hlo. apply Z.eqb_eq in Hst.
    constructor; try done; try lia.
    + exists (f_data_size (pos tables it)). split_and!; [done|lia| |]; intros Hr.
      * destruct (Z.eqb_spec (PB_HTYPE (f_type (pos tables it))) PB_HTYPE_REPEATED); [done|lia].
      * rewrite Hr in Hhi. rewrite Z.eqb_refl in Hhi. split; [done|lia].
    + intros Ho. rewrite Ho in Hsize, Hsz. cbn [Z.eqb Pos.eqb PB_HTYPE_REPEATED PB_HTYPE_REQUIRED PB_HTYPE_OPTIONAL PB_HTYPE_ONEOF] in Hsize. destruct Hsz as [->|[_ Hsz]]; [|done].
      exists z. split; [done|]. apply orb_true_iff in Hsize as [Hsize|Hsize]; bool_hyps; [left; lia|right; lia].
    + intros Hr. destruct Hsz as [->|[-> _]]; [|done]. cbn [size_in].
      destruct Hr as [Hr|Hr]; rewrite Hr in Hsize; cbn [Z.eqb Pos.eqb PB_HTYPE_REPEATED PB_HTYPE_REQUIRED PB_HTYPE_OPTIONAL PB_HTYPE_ONEOF] in Hsize; bool_hyps; lia.
    + intros _ _. exists t. by eapply list_elem_of_lookup_2.
Qed.

(** *** Loops over the members and over the items of an array *)

Lemma runs_fields_loop f n t dest lo hi : no_end tables t ->
  (forall it, it_at tables t dest it -> runs lo hi (f it) any) -> forall it,
  it_at tables t dest it -> (length (tables t) <= n + it_pos it)%nat -> runs lo hi (fields_loop tables f n it) any.
Proof.
  intros Hne Hf. induction n as [|n IH]; intros it Hi Hn; cbn [fields_loop];
    (eapply runs_bind; [by apply Hf|]); intros [] c _ _; pose proof (next_at tables _ _ _ Hne Hi) as H;
    destruct (pb_field_iter_next tables it) as [it' [|]]; destruct H as [Hi' H]; try (by apply runs_ret).
  - destruct H. lia.
  - apply IH; [done|]. destruct H. lia.
Qed.

Lemma runs_for_fields f t dest lo hi : no_end tables t ->
  (forall it, it_at tables t dest it -> runs lo hi (f it) any) -> runs lo hi (for_fields tables f t dest) any.
Proof.
  intros Hne Hf. unfold for_fields. pose proof (begin_at tables t dest Hne) as Hb.
  destruct (pb_field_iter_begin tables t dest) as [it [|]]; [|by apply runs_ret]. apply (runs_fields_loop f _ t dest); try done. lia.
Qed.

Lemma runs_each_item n f lo hi ds p : (forall i, 0 <= i < Z.of_nat n -> runs lo hi (f (p + ds * i)) any) ->
  runs lo hi (each_item n f ds p) any.
Proof.
  revert p. induction n as [|n IH]; intros p H; cbn [each_item]; [by apply runs_ret|].
  eapply runs_bind; [specialize (H 0); rewrite Z.mul_0_r, Z.add_0_r in H; apply H; lia|]. intros [] c _ _.
  eapply runs_mono; [apply IH|done]. intros i Hi. replace (p + ds + ds * i) with (p + ds * (i + 1)) by lia. apply H. lia.
Qed.

Lemma item_submessage n f room : item_fits (fits tables n) f room = true -> PB_LTYPE (f_type f) = PB_LTYPE_SUBMESSAGE ->
  f_ptr f <> 0 /\ fits tables n (f_ptr f) (f_data_size f) = true.
Proof. unfold item_fits. intros H E. rewrite E in H. cbn in H. bool_hyps. done. Qed.

(** *** Defaults *)

Lemma runs_default_field n lo hi it : member_ok n lo hi it ->
  (forall t size p, fits tables n t size = true -> runs p (p + size) (for_fields tables (pb_field_set_to_default tables n) t p) any) ->
  runs lo hi (pb_field_set_to_default tables (S n) it) any.
Proof.
  intros [Hst Hlo (room & Hit & Hds & Hr1 & Hr2) Hhas Hsz (_ & Hd0 & _) Hdef] IH. cbn [pb_field_set_to_default].
  set (f := pos tables it) in *. destruct (Z.eqb_spec (PB_LTYPE (f_type f)) PB_LTYPE_EXTENSION) as [E|_].
  { unfold item_fits in Hit. rewrite E in Hit. done. }
  rewrite Hst. cbn [Z.eqb PB_ATYPE_STATIC].
  assert (Hinit : runs lo hi
    (if (PB_HTYPE (f_type f) =? PB_HTYPE_OPTIONAL) && negb (size_is_data it) then store_has (pSize it) 0 ;; ret true
     else if (PB_HTYPE (f_type f) =? PB_HTYPE_REPEATED) || (PB_HTYPE (f_type f) =? PB_HTYPE_ONEOF) then
       store_size (pSize it) 0 ;; ret false
     else ret true) (fun b _ => b = true -> pData it + room <= hi)).
  { destruct (Z.eqb_spec (PB_HTYPE (f_type f)) PB_HTYPE_OPTIONAL) as [Eo|No]; cbn [andb].
    - assert (Hroom : pData it + room <= hi) by (apply Hr1; rewrite Eo; done).
      rewrite Eo. change ((PB_HTYPE_OPTIONAL =? PB_HTYPE_REPEATED) || (PB_HTYPE_OPTIONAL =? PB_HTYPE_ONEOF)) with false. cbv iota.
      destruct (Hhas Eo) as (z & Ez & Hz). unfold size_is_data. rewrite Ez. cbn [store_has].
      destruct (Z.eqb_spec z (pData it)); cbn [negb]; [by apply runs_ret|].
      eapply runs_bind; [apply (runs_store lo hi z [0]); [lia|rewrite zlen_cons, zlen_nil; lia|by repeat constructor]|].
      intros [] c _ _. by apply runs_ret.
    - destruct (Z.eqb_spec (PB_HTYPE (f_type f)) PB_HTYPE_REPEATED), (Z.eqb_spec (PB_HTYPE (f_type f)) PB_HTYPE_ONEOF); cbn [orb];
        try (eapply runs_bind; [apply runs_store_size; [apply Hsz; tauto|unfold is_u32; lia]|]; intros [] c _ _; by apply runs_ret).
      apply runs_ret. intros _. by apply Hr1. }
  eapply runs_bind; [exact Hinit|]. intros [] c Hb _; [|by apply runs_ret]. specialize (Hb eq_refl).
  destruct (Z.eqb_spec (PB_LTYPE (f_type f)) PB_LTYPE_SUBMESSAGE) as [E|Ne].
  - destruct (item_submessage _ _ _ Hit E) as [_ Hfit].
    eapply runs_part; [| |by apply (IH _ _ (pData it) Hfit)]; lia.
  - destruct (Z.eqb_spec (f_ptr f) 0) as [|Np]; cbn [negb].
    + eapply runs_mono; [apply (runs_zero lo hi (pData it)); lia|done].
    + destruct (Hdef Np Ne) as [t Ht]. eapply runs_bind; [by apply (runs_load_default lo hi f t)|].
      intros l c' (Hl & Hok & _) _. eapply runs_mono; [apply runs_store; [lia|lia|done]|done].
Qed.

Lemma runs_defaults n t size p : fits tables n t size = true ->
  runs p (p + size) (for_fields tables (pb_field_set_to_default tables n) t p) any.
Proof.
  revert t size p. induction n as [|n IH]; intros t size p Hf; [done|].
  apply runs_for_fields; [by eapply fits_no_end|]. intros it Hi. apply runs_default_field; [|exact IH].
  by apply (it_member n t).
Qed.

(** *** Release: static messages own nothing *)

Lemma runs_release_field n lo hi it : member_ok n lo hi it ->
  (forall t size p, fits tables n t size = true -> runs p (p + size) (for_fields tables (pb_release_single_field tables n) t p) any) ->
  runs lo hi (pb_release_single_field tables (S n) it) any.
Proof.
  intros [Hst Hlo (room & Hit & Hds & Hr1 & Hr2) Hhas Hsz (_ & Hd0 & Ha0) Hdef] IH. cbn [pb_release_single_field].
  set (f := pos tables it) in *.
  eapply (runs_bind _ _ _ _ any); [|intros cur c _ _].
  { destruct (Z.eqb_spec (PB_HTYPE (f_type f)) PB_HTYPE_ONEOF); [|by apply runs_ret].
    eapply runs_bind; [apply runs_load_size, Hsz; tauto|]. intros. by apply runs_ret. }
  destruct (negb cur); [by apply runs_ret|].
  eapply (runs_bind _ _ _ _ any); [|intros [] c' _ _; rewrite Hst; by apply runs_ret].
  destruct (Z.eqb_spec (PB_LTYPE (f_type f)) PB_LTYPE_EXTENSION) as [E|_]; [unfold item_fits in Hit; rewrite E in Hit; done|].
  destruct (Z.eqb_spec (PB_LTYPE (f_type f)) PB_LTYPE_SUBMESSAGE) as [E|_]; [|by apply runs_ret].
  destruct (item_submessage _ _ _ Hit E) as [_ Hfit]. rewrite Hst. cbn [Z.eqb PB_ATYPE_STATIC PB_ATYPE_CALLBACK PB_ATYPE_POINTER negb andb].
  eapply (runs_bind _ _ _ _ (fun p _ => p = pData it)); [by apply runs_ret|]. intros p c1 -> _.
  eapply (runs_bind _ _ _ _ (fun n _ => 0 <= n /\ pData it + f_data_size f * n <= hi)).
  - destruct (Z.eqb_spec (PB_HTYPE (f_type f)) PB_HTYPE_REPEATED) as [Er|Nr].
    + destruct (Hr2 Er) as [-> Hhi].
      eapply (runs_bind _ _ _ _ (fun n _ => 0 <= n)).
      * destruct (size_is_data it); [apply runs_ret; lia|].
        eapply runs_mono; [apply runs_load_size, Hsz; tauto|]. unfold is_u32. lia.
      * intros m c2 Hm _. apply runs_ret. rewrite Z.gtb_ltb. destruct (Z.ltb_spec (f_array_size f) m); [lia|nia].
    + apply runs_ret. specialize (Hr1 Nr). lia.
  - intros m c2 [Hm Hhi] _. destruct (negb _); [|by apply runs_ret]. eapply runs_mono; [apply runs_each_item|done].
    intros i Hi. destruct (_ =? 0); [by apply runs_ret|]. eapply runs_part; [| |by apply (IH _ (f_data_size f))]; nia.
Qed.

Lemma runs_release n t size p : fits tables n t size = true ->
  runs p (p + size) (for_fields tables (pb_release_single_field tables n) t p) any.
Proof.
  revert t size p. induction n as [|n IH]; intros t size p Hf; [done|].
  apply runs_for_fields; [by eapply fits_no_end|]. intros it Hi. apply runs_release_field; [|exact IH].
  by apply (it_member n t).
Qed.

(** ** Decoding values *)

(** The packable types are those with a scalar decoder. *)
Lemma scalar_packable t : (exists func, PB_DECODERS user_read (PB_LTYPE t) = Some func) <-> packable (PB_LTYPE t) = true.
Proof.
  pose proof (ltype_cases t). unfold PB_DECODERS, packable, PB_LTYPE_LAST_PACKABLE.
  unfold PB_LTYPE_BOOL, PB_LTYPE_VARINT, PB_LTYPE_UVARINT, PB_LTYPE_SVARINT, PB_LTYPE_FIXED32, PB_LTYPE_FIXED64.
  split; [intros [func E]|intros E]; repeat case_match; bool_hyps; simplify_eq; try (by eexists); try lia; apply Z.leb_le; lia.
Qed.

Lemma runs_and_then lo hi (m k : D bool) P : runs lo hi m P -> runs lo hi k any -> runs lo hi (and_then m k) any.
Proof. intros Hm Hk. eapply runs_bind; [done|]. intros [] c _ _; [done|by apply runs_ret]. Qed.

(** Reading [size] bytes and storing them at [p]. *)
Lemma runs_read_to lo hi p size : 0 <= size -> lo <= p -> p + size <= hi ->
  runs lo hi (or_false (on_stream (pb_read user_read false size)) (fun l => store_bytes p l ;; ret true)) any.
Proof.
  intros H0 H1 H2. eapply runs_or_false; [by apply (runs_stream _ _ _ _ _ (pb_read_reads _ Hreader size H0))|done|].
  intros l c Hl _. destruct (Hl l eq_refl) as [[Hz Hok] _].
  eapply runs_bind; [apply runs_store; [lia|lia|done]|]. intros. by apply runs_ret.
Qed.

Lemma runs_bytes lo hi f p : PB_ATYPE (f_type f) = PB_ATYPE_STATIC -> lo <= p -> p + f_data_size f <= hi ->
  runs lo hi (pb_dec_bytes user_read alloc f p) (consumes 1).
Proof.
  intros Hst Hlo Hhi. unfold pb_dec_bytes.
  eapply runs_or_false; [by apply (runs_stream _ _ _ _ _ (varint32_reads _ Hreader))|done|].
  intros size c Hl Hc. destruct (Hl size eq_refl) as [Hs Hk]. unfold is_u32 in Hs. cbv zeta.
  rewrite Hst. cbn [Z.eqb PB_ATYPE_STATIC PB_ATYPE_POINTER].
  unfold PB_BYTES_ARRAY_T_ALLOCSIZE, bytes_offset. rewrite !size_t_small, !Z.gtb_ltb by lia.
  eapply (runs_mono _ _ _ any); [|lia].
  destruct (_ <? _); [eapply runs_mono; [apply (runs_error lo hi 0)|done]|].
  destruct (_ <? _); [eapply runs_mono; [apply (runs_error lo hi 0)|done]|].
  destruct (Z.ltb_spec (f_data_size f) (size + 4)); [eapply runs_mono; [apply (runs_error lo hi 0)|done]|].
  eapply runs_bind; [apply runs_store; [lia|rewrite zlen_le_bytes; lia|apply le_bytes_ok]|]. intros [] c' _ _.
  eapply runs_mono; [apply runs_read_to; lia|done].
Qed.

Lemma runs_string lo hi f p : PB_ATYPE (f_type f) = PB_ATYPE_STATIC -> lo <= p -> p + f_data_size f <= hi ->
  runs lo hi (pb_dec_string user_read alloc f p) (consumes 1).
Proof.
  intros Hst Hlo Hhi. unfold pb_dec_string.
  eapply runs_or_false; [by apply (runs_stream _ _ _ _ _ (varint32_reads _ Hreader))|done|].
  intros size c Hl Hc. destruct (Hl size eq_refl) as [Hs Hk]. unfold is_u32 in Hs. cbv zeta.
  rewrite Hst. cbn [Z.eqb PB_ATYPE_STATIC PB_ATYPE_POINTER]. rewrite Z.gtb_ltb.
  eapply (runs_mono _ _ _ any); [|lia].
  destruct (Z.ltb_spec (u32 (size + 1)) size) as [|Hov]; [eapply runs_mono; [apply (runs_error lo hi 0)|done]|].
  assert (E : u32 (size + 1) = size + 1) by (unfold u32 in *; zarith). rewrite E in *.
  destruct (Z.ltb_spec (f_data_size f) (size + 1)); [eapply runs_mono; [apply (runs_error lo hi 0)|done]|].
  eapply runs_bind; [by apply (runs_stream _ _ _ _ _ (pb_read_reads _ Hreader size ltac:(lia)))|]. intros l c' Hl' _.
  eapply (runs_bind _ _ _ _ any).
  { destruct l as [l|]; [|by apply runs_ret]. destruct (Hl' l eq_refl) as [[Hz Hok] _].
    eapply runs_mono; [apply runs_store; [lia|lia|done]|done]. }
  intros [] c2 _ _. eapply runs_bind; [apply (runs_store lo hi (p + size) [0]); [lia|rewrite zlen_cons, zlen_nil; lia|by repeat constructor]|].
  intros [] c3 _ _. by apply runs_ret.
Qed.

Lemma runs_scalar lo hi f p n func : reads 1 (func f) (stored n) -> lo <= p -> p + n <= hi ->
  runs lo hi (dec_scalar func f p) (consumes 1).
Proof.
  intros Hf Hlo Hhi. unfold dec_scalar. eapply runs_or_false; [by apply (runs_stream _ _ _ _ _ Hf)|done|].
  intros [l b] c Hl Hc. destruct (Hl _ eq_refl) as [[Hz Hok] Hk]. cbn [fst] in *.
  eapply runs_bind; [apply runs_store; [lia|lia|done]|]. intros [] c' _ ?. apply runs_ret. lia.
Qed.

Section decoders.
Context (n : nat) (decode decode_noinit : Z -> Z -> D bool).
Hypothesis decode_runs : forall t size p, fits tables n t size = true -> runs p (p + size) (decode t p) any.
Hypothesis noinit_runs : forall t size p, fits tables n t size = true -> runs p (p + size) (decode_noinit t p) any.

Lemma runs_submessage lo hi f p : f_ptr f <> 0 -> fits tables n (f_ptr f) (f_data_size f) = true ->
  lo <= p -> p + f_data_size f <= hi -> runs lo hi (pb_dec_submessage user_read decode decode_noinit f p) (consumes 1).
Proof.
  intros Hp Hf Hlo Hhi. apply runs_substream. intros r s sub Hs Hsub. destruct (Z.eqb_spec (f_ptr f) 0); [done|].
  assert (Hrun : runs lo hi (if PB_HTYPE (f_type f) =? PB_HTYPE_REPEATED then decode (f_ptr f) p else decode_noinit (f_ptr f) p) any).
  { destruct (_ =? _); eapply runs_part; [| |by apply decode_runs| | |by apply noinit_runs]; lia. }
  eapply runs_with_stream; [done..|]. intros b sub' s' _ _ _ Hok Hsub'. by apply runs_close.
Qed.

Lemma runs_call lo hi f p room : PB_ATYPE (f_type f) = PB_ATYPE_STATIC -> item_fits (fits tables n) f room = true ->
  0 <= f_data_size f -> lo <= p -> p + room <= hi -> runs lo hi (call_decoder user_read alloc decode decode_noinit f p) (consumes 1).
Proof.
  intros Hst Hit H0 Hlo Hhi. unfold call_decoder, pb_decoder. unfold item_fits in Hit.
  destruct (PB_DECODERS user_read (PB_LTYPE (f_type f))) as [func|] eqn:E.
  - rewrite (proj1 (scalar_packable _) (ex_intro _ func E)) in Hit. bool_hyps.
    apply (runs_scalar lo hi f p _ func (scalar_reads _ Hreader _ f func E)); [done|lia].
  - destruct (packable _) eqn:Ep; [apply scalar_packable in Ep as [func Ef]; congruence|].
    repeat match type of Hit with context[PB_LTYPE (f_type f) =? ?k] =>
      destruct (Z.eqb_spec (PB_LTYPE (f_type f)) k) as [->|]; cbn [orb] in Hit end; bool_hyps;
      cbn [Z.eqb Pos.eqb PB_LTYPE_BYTES PB_LTYPE_STRING PB_LTYPE_SUBMESSAGE PB_LTYPE_FIXED_LENGTH_BYTES].
    + apply runs_bytes; [done..|lia].
    + apply runs_string; [done..|lia].
    + eapply runs_scalar; [by apply fixed_length_bytes_reads|lia..].
    + destruct (Z.eqb_spec (PB_LTYPE (f_type f)) PB_LTYPE_SUBMESSAGE); [|done].
      bool_hyps. apply runs_submessage; [done..|lia].
Qed.

(** ** Decoding fields *)

#[local] Abbreviation call := (call_decoder user_read alloc decode decode_noinit).

Lemma runs_call_item lo hi it size : member_ok n lo hi it -> PB_HTYPE (f_type (pos tables it)) = PB_HTYPE_REPEATED ->
  0 <= size < f_array_size (pos tables it) ->
  runs lo hi (call (pos tables it) (item_at (pos tables it) (pData it) size)) (consumes 1).
Proof.
  intros [Hst Hlo (room & Hit & Hds & Hr1 & Hr2) Hhas Hsz (_ & Hd0 & Ha0) Hdef] Hr Hs. destruct (Hr2 Hr) as [-> Hhi].
  unfold item_at. assert (0 <= u32 (f_data_size (pos tables it) * size) <= f_data_size (pos tables it) * size).
  { split; [apply u32_range|]. apply Z.mod_le; nia. }
  eapply runs_call; [done|exact Hit|lia|lia|nia].
Qed.

(** The loop ends: every item consumes a byte of the substream. *)
Lemma runs_packed_loop k lo hi r s it sub : member_ok n lo hi it -> PB_HTYPE (f_type (pos tables it)) = PB_HTYPE_REPEATED ->
  ok lo hi r s -> istream_ok (r + left s) sub -> bytes_left sub <= Z.of_nat k ->
  runs_at lo hi r s (static_packed_loop user_read tables alloc decode decode_noinit k it sub)
    (fun x c => c = 0 /\ istream_ok (r + left s) x.2).
Proof.
  intros Hmb Hr. pose proof (mb_size _ _ _ _ Hmb (or_introl Hr)) as Hsz.
  revert s sub. induction k as [|k IH]; intros s sub Hs Hsub Hk; cbn [static_packed_loop]; rewrite Z.gtb_ltb;
    (destruct (Z.ltb_spec 0 (bytes_left sub)) as [Hpos|_]; [|by apply runs_ret]); [lia|].
  eapply runs_at_bind; [by apply runs_load_size|]. intros size c s1 [Hu ->] _ Hl1 Hs1. rewrite Z.sub_0_r in Hl1.
  destruct (Z.ltb_spec size (f_array_size (pos tables it))) as [Hlt|_]; [|by apply runs_ret].
  eapply runs_with_stream; [done|by rewrite Hl1|apply runs_call_item; [done..|unfold is_u32 in Hu; lia]|].
  intros b sub' s2 Hb Hle Hl2 Hs2 Hsub2. destruct b; cbn [negb]; [|apply runs_ret; [|done]; split; [done|]; replace (left s) with (left s2) by congruence; done].
  eapply runs_at_bind; [by apply runs_load_size|]. intros size' c s3 [_ ->] _ Hl3 Hs3. rewrite Z.sub_0_r in Hl3.
  eapply runs_at_bind; [by apply runs_store_size; [done|apply u32_range|]|]. intros [] c s4 -> _ Hl4 Hs4. rewrite Z.sub_0_r in Hl4.
  specialize (Hb eq_refl). destruct (IH s4 sub' Hs4) as (x & s5 & E & W & Hbl & Hl5 & Hs5 & Hc & Hx); [congruence|lia|].
  exists x, s5. split_and!; [done..|lia|]. replace (left s) with (left s4) by congruence. done.
Qed.

Lemma runs_static_field lo hi wt it : member_ok n lo hi it ->
  runs lo hi (decode_static_field user_read tables alloc decode decode_noinit (S n) wt it) any.
Proof.
  intros Hmb. pose proof Hmb as [Hst Hlo (room & Hit & Hds & Hr1 & Hr2) Hhas Hsz (Htag & Hd0 & Ha0) Hdef].
  unfold decode_static_field. set (f := pos tables it) in *.
  assert (Hcall : PB_HTYPE (f_type f) <> PB_HTYPE_REPEATED -> runs lo hi (call f (pData it)) any).
  { intros Hn. eapply runs_mono; [by eapply runs_call; [done|exact Hit|lia|lia|apply Hr1]|done]. }
  destruct (Z.eqb_spec (PB_HTYPE (f_type f)) PB_HTYPE_REQUIRED) as [E|]; [apply Hcall; by rewrite E|].
  destruct (Z.eqb_spec (PB_HTYPE (f_type f)) PB_HTYPE_OPTIONAL) as [E|].
  { eapply (runs_bind _ _ _ _ any); [|intros [] c _ _; apply Hcall; by rewrite E].
    destruct (Hhas E) as (z & Ez & Hz). unfold size_is_data. rewrite Ez.
    destruct (Z.eqb_spec z (pData it)); cbn [negb store_has]; [by apply runs_ret|].
    eapply runs_mono; [apply (runs_store lo hi z [1]); [lia|rewrite zlen_cons, zlen_nil; lia|by repeat constructor]|done]. }
  destruct (Z.eqb_spec (PB_HTYPE (f_type f)) PB_HTYPE_REPEATED) as [E|Nr].
  - destruct (_ && _).
    + eapply runs_mono; [apply runs_substream|done]. intros r s sub Hs Hsub.
      eapply runs_at_bind; [apply runs_packed_loop; [done..|lia]|].
      intros [status sub'] c s1 [-> Hsub'] _ Hl1 Hs1. rewrite Z.sub_0_r in Hl1. cbn [snd] in Hsub'.
      destruct (negb _); [eapply runs_mono; [apply (runs_error lo hi 0)|done|done]|].
      apply runs_close; [done|]. by rewrite Hl1.
    + eapply runs_bind; [apply runs_load_size, Hsz; tauto|]. intros size c [Hu ->] _.
      eapply runs_bind; [apply runs_store_size; [apply Hsz; tauto|apply u32_range]|]. intros [] c _ _.
      rewrite Z.geb_leb. destruct (Z.leb_spec (f_array_size f) size); [eapply runs_mono; [apply (runs_error lo hi 0)|done]|].
      eapply runs_mono; [apply runs_call_item; [done..|fold f; unfold is_u32 in Hu; lia]|done].
  - specialize (Hr1 Nr). assert (Ho : PB_HTYPE (f_type f) = PB_HTYPE_ONEOF) by (destruct (htype_cases (f_type f)) as [?|[?|[?|?]]]; done).
    eapply runs_bind; [apply runs_load_size, Hsz; tauto|]. intros which c [Hu ->] _.
    eapply (runs_bind _ _ _ _ any); [|intros [] c _ _].
    { destruct (Z.eqb_spec (PB_LTYPE (f_type f)) PB_LTYPE_SUBMESSAGE) as [E|]; [|by apply runs_ret].
      destruct (item_submessage _ _ _ Hit E) as [_ Hfit]. destruct (_ && _); [|by apply runs_ret].
      eapply runs_bind; [apply runs_zero; lia|]. intros [] c _ _. eapply runs_part; [| |by apply (runs_defaults (S n)), fits_S]; lia. }
    eapply runs_bind; [apply runs_store_size; [apply Hsz; tauto|done]|]. intros [] c' _ _. by apply Hcall.
Qed.

Section message.
Context (t size dest : Z).
Hypothesis Hfits : fits tables (S n) t size = true.
#[local] Abbreviation at_member := (it_at tables t dest).
#[local] Abbreviation runs_here := (runs dest (dest + size)).

Lemma runs_union_field it : at_member it -> PB_HTYPE (f_type (pos tables it)) = PB_HTYPE_ONEOF ->
  runs_here (pb_release_union_field tables (S n) it) (fun x _ => at_member x.2).
Proof.
  intros Hi Ho. unfold pb_release_union_field. pose proof (it_member _ _ _ _ _ Hfits Hi) as Hmb.
  eapply runs_bind; [apply runs_load_size, (mb_size _ _ _ _ Hmb); tauto|]. intros old c [_ ->] _.
  destruct (_ || _); [by apply runs_ret|]. pose proof (fits_no_end _ _ _ Hfits) as Hn.
  assert (Hf : forall i tag, at_member i -> at_member (fst (pb_field_iter_find tables i tag))) by (intros; by apply find_loop_at).
  assert (He : forall i msg, at_member i ->
    runs_here (let* ok := return_error msg in ret (ok, i)) (fun x _ => at_member x.2)).
  { intros i msg Hi'. eapply runs_bind; [apply (runs_error _ _ 0)|]. intros. by apply runs_ret. }
  pose proof (Hf it old Hi) as Hi1. destruct (pb_field_iter_find tables it old) as [it1 [|]]; cbn [fst negb] in *; [|by apply He].
  eapply runs_bind; [apply runs_release_field; [by apply (it_member n t)|apply runs_release]|]. intros [] c _ _.
  pose proof (Hf it1 (f_tag (pos tables it)) Hi1) as Hi2.
  destruct (pb_field_iter_find tables it1 _) as [it2 [|]]; cbn [fst negb] in *; [|by apply He].
  rewrite (mb_static _ _ _ _ (it_member _ _ _ _ _ Hfits Hi2)). cbn [Z.eqb PB_ATYPE_STATIC PB_ATYPE_POINTER].
  eapply runs_bind; [by apply (runs_ret _ _ tt any)|]. intros. by apply runs_ret.
Qed.

Lemma runs_decode_field wt it : at_member it ->
  runs_here (decode_field user_read tables decode_cb alloc decode decode_noinit (S n) wt it) (fun x _ => at_member x.2).
Proof.
  intros Hi. unfold decode_field. eapply (runs_bind _ _ _ _ (fun x _ => at_member x.2)).
  - destruct (Z.eqb_spec (PB_HTYPE (f_type (pos tables it))) PB_HTYPE_ONEOF); [by apply runs_union_field|by apply runs_ret].
  - intros [b it'] c Hi' _. cbn [snd] in Hi'. destruct (negb b); [by apply runs_ret|].
    pose proof (it_member _ _ _ _ _ Hfits Hi') as Hmb. rewrite (mb_static _ _ _ _ Hmb). cbn [Z.eqb PB_ATYPE_STATIC].
    eapply runs_bind; [by apply runs_static_field|]. intros. by apply runs_ret.
Qed.

(** No member is an extension field. *)
Lemma find_extension_none it : at_member it ->
  at_member (fst (find_extension_field tables it)) /\ snd (find_extension_field tables it) = false.
Proof.
  intros Hi. unfold find_extension_field.
  destruct (find_loop_at tables (fun f => PB_LTYPE (f_type f) =? PB_LTYPE_EXTENSION) t dest (length (tables (it_start it)))
    (it_pos it) it (fits_no_end _ _ _ Hfits) Hi) as [H1 H2].
  destruct (find_loop _ _ _ _ _) as [it' [|]]; cbn [fst snd] in *; [|done]. specialize (H2 eq_refl). bool_hyps.
  destruct (it_member _ _ _ _ _ Hfits H1) as [_ _ (room & Hit & _) _ _ _ _]. unfold item_fits in Hit.
  match goal with H : PB_LTYPE _ = _ |- _ => rewrite H in Hit end. done.
Qed.

(** A pass of the loop: it goes on with a byte consumed. *)
Definition flow_ok (k : Z) (x : flow noinit) (c : Z) : Prop :=
  match x with Continue st => at_member (n_iter st) /\ k <= c | Break st => at_member (n_iter st) | ReturnFalse => True end.

Lemma runs_unknown_field tag wt st : 0 <= tag < 2 ^ 29 -> at_member (n_iter st) ->
  runs_here (unknown_field user_read tables decode_cb decode_ext alloc decode decode_noinit (S n) tag wt st) (flow_ok 0).
Proof.
  intros Ht Hi. unfold unknown_field. cbv zeta.
  assert (Hskip : forall st, at_member (n_iter st) -> runs_here
    (let* ok := succeeds (on_stream (pb_skip_field user_read wt)) in ret (if ok : bool then Continue st else ReturnFalse)) (flow_ok 0)).
  { intros st' Hi'. eapply runs_bind; [apply (runs_succeeds _ _ _ _ _ (skip_field_reads _ Hreader wt))|].
    intros [] c _ Hc; apply runs_ret; [split; [done|lia]|done]. }
  destruct (_ >=? _); [|by apply Hskip]. destruct (find_extension_none _ Hi) as [H1 H2].
  destruct (find_extension_field tables (n_iter st)) as [it' found]. cbn [fst snd] in *. subst found.
  rewrite Z.geb_leb. destruct (Z.leb_spec (u32 (-1)) tag) as [H|_]; [change (u32 (-1)) with (2 ^ 32 - 1) in H; lia|by apply Hskip].
Qed.

Lemma runs_wrong lo hi st : runs lo hi (fixed_count_wrong tables st) any.
Proof. intros r s Hs. eexists _, s. split_and!; [reflexivity|done..|lia|done|done]. Qed.

Lemma runs_use_fixed_count st : at_member (n_iter st) ->
  runs_here (use_fixed_count tables st) (fun o _ => forall st', o = Some st' -> at_member (n_iter st')).
Proof.
  intros Hi. unfold use_fixed_count.
  destruct (_ && _) eqn:Er; [|apply runs_ret; by intros ? [= <-]]. bool_hyps.
  assert (Hlocal : at_member (FieldIter (it_start (n_iter st)) (it_pos (n_iter st)) (required_field_index (n_iter st))
    (dest_struct (n_iter st)) (pData (n_iter st)) Local)).
  { destruct Hi as (Hs & Hd & Hi). split_and!; [done..|]. destruct (decide _) as [E|].
    - match goal with H : PB_HTYPE _ = _ |- _ => rewrite Hi in H; unfold pos, field_at in H; cbn in H; rewrite E in H end. done.
    - destruct Hi as (z & Hz & _). exists z. split; [exact Hz|]. right. done. }
  destruct (negb _); [|apply runs_ret; by intros ? [= <-]].
  eapply runs_bind; [apply runs_wrong|]. intros [] c _ _.
  - eapply runs_bind; [apply (runs_error _ _ 0)|]. intros. by apply runs_ret.
  - eapply runs_bind; [apply runs_store_size; [done|unfold is_u32; lia]|]. intros [] c' _ _. apply runs_ret. by intros ? [= <-].
Qed.

Lemma runs_decode_one st : at_member (n_iter st) ->
  runs_here (decode_one user_read tables decode_cb decode_ext alloc decode decode_noinit (S n) st) (flow_ok 1).
Proof.
  intros Hi r s [Hm Hd Hr Hs Hc]. unfold decode_one, runs_at.
  destruct (decode_tag_reads user_read Hreader r (d_stream s) Hr Hs) as (H1 & H2 & H3).
  destruct (pb_decode_tag user_read (d_stream s)) as [[[[wt tag]|] eof] st1]; cbn [fst snd] in *.
  2: { eexists _, _. split_and!; [reflexivity|done..|by constructor|destruct eof; done]. }
  destruct (H3 _ eq_refl) as [Htag Hk]. cbn [snd] in Htag.
  pose proof (proj1 (find_loop_at tables (fun f => (f_tag f =? tag) && negb (PB_LTYPE (f_type f) =? PB_LTYPE_EXTENSION)) t dest
    (length (tables (it_start (n_iter st)))) (it_pos (n_iter st)) (n_iter st) (fits_no_end _ _ _ Hfits) Hi)) as Hi'.
  unfold pb_field_iter_find. destruct (find_loop _ _ _ _ _) as [it' found]. cbn [fst] in Hi'.
  set (s1 := Dec (d_mem s) (d_blocks s) (fixed_count_size s) st1).
  match goal with |- context[if negb found then ?m1 s1 else ?m2 s1] =>
    assert (Hrun : runs_at dest (dest + size) r s1 (if negb found then m1 else m2) (flow_ok 0)) end.
  { assert (ok dest (dest + size) r s1) by by constructor. destruct (negb found); [by apply runs_unknown_field|].
    eapply runs_at_bind; [by apply runs_use_fixed_count|]. intros [st'|] c s2 Hst ? _ Hs2; [|by apply runs_ret].
    specialize (Hst _ eq_refl). assert (Hms : at_member (n_iter (mark_seen tables st'))) by (unfold mark_seen; destruct (_ && _); done).
    eapply runs_at_bind; [by apply runs_decode_field|]. intros [[] it2] c' s3 Hi2 ? _ Hs3; apply runs_ret; try done.
    split; [exact Hi2|lia]. }
  destruct Hrun as (x & s2 & E & W & Hb & Hl & Hok & HP). exists x, s2. split_and!; [destruct (negb found); exact E|done..| |done|].
  - cbn in Hl. lia.
  - destruct x; cbn in *; [|done..]. destruct HP. split; [done|lia].
Qed.

Lemma runs_noinit_loop k st r s : at_member (n_iter st) -> ok dest (dest + size) r s -> left s <= Z.of_nat k ->
  runs_at dest (dest + size) r s (noinit_loop user_read tables decode_cb decode_ext alloc decode decode_noinit k (S n) st) any.
Proof.
  revert st s. induction k as [|k IH]; intros st s Hi Hs Hk; cbn [noinit_loop];
    (eapply runs_at_bind with (P := fun l c => l = left s /\ c = 0);
      [exists (left s), s; split_and!; try done; lia|]; intros l c s1 [-> ->] _ Hl1 Hs1; rewrite Z.sub_0_r in Hl1);
    (destruct (Z.eqb_spec (left s) 0); [by apply runs_ret|]).
  - destruct Hs as [_ _ _ [] _]. lia.
  - eapply runs_at_bind; [by apply runs_decode_one|]. intros [st'|st'|] c s2 Hx _ Hl2 Hs2; [|by apply runs_ret..].
    destruct Hx. eapply (IH st' s2); [done..|lia].
Qed.

Lemma runs_message :
  runs_here (decode_message user_read tables decode_cb decode_ext alloc decode decode_noinit (S n) t dest) any.
Proof.
  intros r s Hs. unfold decode_message, runs_at.
  set (s0 := Dec (d_mem s) (d_blocks s) 0 (d_stream s)).
  assert (Hs0 : ok dest (dest + size) r s0) by (destruct Hs; by constructor).
  match goal with |- context[?m s0] => assert (Hrun : runs_at dest (dest + size) r s0 m any) end.
  - eapply runs_at_bind with (P := fun l c => l = left s0 /\ c = 0).
    { exists (left s0), s0. split_and!; try done; lia. }
    intros l c s1 [-> ->] _ Hl1 Hs1. rewrite Z.sub_0_r in Hl1.
    eapply runs_at_bind; [apply runs_noinit_loop; [apply begin_at; by eapply fits_no_end|done|destruct Hs1 as [_ _ _ [] _]; lia]|].
    intros [st|] c s2 _ _ _ Hs2; [|by apply runs_ret].
    eapply runs_at_bind; [by apply runs_wrong|].
    intros [] c' s3 _ _ _ Hs3; [eapply runs_mono; [apply (runs_error _ _ 0)|done|done]|].
    destruct (negb _); [eapply runs_mono; [apply (runs_error _ _ 0)|done|done]|by apply runs_ret].
  - destruct Hrun as (x & s2 & E & W & Hb & Hl & Hok & _). cbv beta in E. rewrite E. eexists _, _. cbn [d_mem d_blocks d_stream s0] in *.
    split_and!; [reflexivity|done..| |done]. destruct Hok, Hs. by constructor.
Qed.
End message.
End decoders.

(** ** Messages *)

Lemma runs_decode_with n noinit : (forall t size p, fits tables n t size = true -> runs p (p + size) (noinit t p) any) ->
  forall t size p, fits tables n t size = true -> runs p (p + size) (decode_with tables noinit n t p) any.
Proof.
  intros H t size p Hf. unfold decode_with. eapply runs_bind; [by apply runs_defaults|]. intros [] c _ _.
  eapply runs_bind; [by apply H|]. intros b c' _ _. eapply (runs_bind _ _ _ _ any); [|intros; by apply runs_ret].
  destruct b; [by apply runs_ret|]. unfold pb_release. destruct (p =? 0); [by apply runs_ret|]. by apply runs_release.
Qed.

Lemma runs_noinit n t size p : fits tables n t size = true ->
  runs p (p + size) (pb_decode_noinit user_read tables decode_cb decode_ext alloc n t p) any.
Proof.
  revert t size p. induction n as [|n IH]; intros t size p Hf; [done|]. cbn [pb_decode_noinit].
  apply (runs_message n); [|exact IH|done]. by apply runs_decode_with.
Qed.

Lemma runs_decode n t size p : fits tables n t size = true ->
  runs p (p + size) (pb_decode user_read tables decode_cb decode_ext alloc n t p) any.
Proof. apply runs_decode_with. apply runs_noinit. Qed.

Lemma runs_delimited decode t lo hi p : runs lo hi (decode t p) any -> runs lo hi (delimited user_read decode t p) any.
Proof.
  intros H. eapply runs_mono; [apply runs_substream|done]. intros r s sub Hs Hsub.
  eapply runs_with_stream; [done..|]. intros b sub' s' _ _ _ Hok Hsub'. by apply runs_close.
Qed.

End safe.

(** ** An example

    A struct with a flagged int64, an array of sint32, a submessage, and a union of
    a byte string and an int64. *)

Section example.
Definition safe_tables (t : Z) : list pb_field :=
  if t =? 1 then
    [PbField 1 0x11 8 (-8) 8 0 0; PbField 3 0x23 8 (-8) 4 2 0; PbField 4 0x18 0 0 4 0 2; PbField 5 0x36 8 (-4) 8 0 0;
     PbField 6 0x31 PB_SIZE_MAX 0 8 0 0]
  else if t =? 2 then [PbField 1 0x12 0 0 4 0 0]
  else [].
#[local] Abbreviation ur := (fun (u : unit) (_ : Z) => (@None (list Z), u)).
#[local] Abbreviation no_cb := (fun (_ : Z) (_ : pb_field) (_ : Z) => @fail (dec unit) bool).
#[local] Abbreviation no_ext := (fun _ _ _ _ : Z => @fail (dec unit) bool).
#[local] Abbreviation no_alloc := (fun (_ : mem) (_ : gmap Z Z) (_ : Z) => @None (Z * list Z)).

(** The array has three entries: one too many. *)
Definition safe_input : list Z := [8; 0xAC; 2; 0x30; 5; 0x1A; 3; 5; 10; 2; 0x22; 2; 8; 7].
Definition safe_state : dec unit :=
  Dec (mem_of 1000 (replicate 52 7)) ∅ 0 (pb_istream_from_buffer safe_input (zlen safe_input)).

Lemma safe_tables_ok t : Forall field_ok (safe_tables t).
Proof. unfold safe_tables. repeat case_match; repeat constructor; unfold field_ok; cbn; lia. Qed.

Lemma safe_tables_static t f : f ∈ safe_tables t -> f_ptr f <> 0 -> PB_LTYPE (f_type f) = PB_LTYPE_SUBMESSAGE.
Proof. unfold safe_tables. intros H Hf. repeat case_match; repeat (apply elem_of_cons in H as [->|H]; [done|]); by apply not_elem_of_nil in H. Qed.

Lemma safe_state_ok : ok safe_tables 1000 (1000 + 52) 0 safe_state.
Proof.
  constructor; [| |done| |done].
  - apply (mapped_mem_of 1000 (replicate 52 7)). by apply Forall_replicate.
  - intros t f Hf Hp Hn. by apply safe_tables_static in Hf.
  - split; [done|]. split; [done|]. repeat (constructor; [done|]). constructor.
Qed.

End example.
