(* ===== verification/PbContents.v ===== *)
(** * nanopb messages: what a static message struct contains.

    [msg_at] reads the value of a message out of memory, without regard to how it
    is encoded: fields that are absent, present or repeated, and nested messages.
    [tidy] is what the decoder relies on in tables beyond [fits]: distinct field
    numbers and members that do not overlap, save for the members of a union. *)

From S2P Require Import Prelude PbMem PbStream PbWire PbIter PbReads PbSafe.

(** ** Values *)

Lemma mapM_ext {A B} (f g : A -> option B) l : (forall x, x ∈ l -> f x = g x) -> mapM f l = mapM g l.
Proof.
  induction l as [|x l IH]; intros H; [done|]. cbn [mapM]. rewrite H by set_solver. rewrite IH; [done|]. intros y Hy. apply H. set_solver.
Qed.

Lemma elem_zseq i k : i ∈ zseq k -> 0 <= i < k.
Proof. unfold zseq. intros H. apply list_elem_of_fmap in H as (j & -> & Hj). apply elem_of_seq in Hj. lia. Qed.

(** A member of a message: absent, or the list of its values (one, if the field
    is not repeated). *)
Inductive value := VBytes (l : list Z) | VMsg (members : list (option (list value))).

(** The C string at [p], in at most [n] bytes with its terminator. *)
Fixpoint cstring (m : mem) (n : nat) (p : Z) : option (list Z) :=
  match n with
  | O => None
  | S n' => c ← m !! p; if c =? 0 then Some [] else l ← cstring m n' (p + 1); Some (c :: l)
  end.

(** The types of values, for case analysis. *)
Lemma item_kinds fits f room : item_fits fits f room = true -> let t := PB_LTYPE (f_type f) in
  t = PB_LTYPE_BOOL \/
  (packable t = true /\ (t =? PB_LTYPE_BOOL) = false /\ (t =? PB_LTYPE_BYTES) = false /\ (t =? PB_LTYPE_STRING) = false /\
   (t =? PB_LTYPE_SUBMESSAGE) = false /\ (t =? PB_LTYPE_FIXED_LENGTH_BYTES) = false) \/
  t = PB_LTYPE_BYTES \/ t = PB_LTYPE_STRING \/ t = PB_LTYPE_SUBMESSAGE \/ t = PB_LTYPE_FIXED_LENGTH_BYTES.
Proof.
  unfold item_fits. cbv zeta. set (t := PB_LTYPE (f_type f)). intros H.
  destruct (packable t) eqn:Ep.
  - unfold packable, PB_LTYPE_LAST_PACKABLE in Ep. apply Z.leb_le in Ep.
    destruct (Z.eqb_spec t PB_LTYPE_BOOL); [by left|]. right. left.
    unfold PB_LTYPE_BYTES, PB_LTYPE_STRING, PB_LTYPE_SUBMESSAGE, PB_LTYPE_FIXED_LENGTH_BYTES. rewrite !Z.eqb_neq. split_and!; (done || lia).
  - destruct (Z.eqb_spec t PB_LTYPE_BYTES), (Z.eqb_spec t PB_LTYPE_STRING), (Z.eqb_spec t PB_LTYPE_FIXED_LENGTH_BYTES),
      (Z.eqb_spec t PB_LTYPE_SUBMESSAGE); try tauto. done.
Qed.

Section contents.
Context (tables : Z -> list pb_field) (m : mem).

Section members.
Context (sub : Z -> Z -> option value).

Definition value_at (f : pb_field) (p : Z) : option value :=
  let ltype := PB_LTYPE (f_type f) in
  let ds := f_data_size f in
  if ltype =? PB_LTYPE_BOOL then l ← load m p 1; Some (VBytes [if znth l 0 =? 0 then 0 else 1])
  else if packable ltype then VBytes <$> load m p (Z.to_nat (scalar_size ltype ds))
  else if ltype =? PB_LTYPE_BYTES then
    if bytes_offset <=? ds then
      n ← load_u32 m p; if n + bytes_offset <=? ds then VBytes <$> load m (p + bytes_offset) (Z.to_nat n) else None
    else None
  else if ltype =? PB_LTYPE_STRING then VBytes <$> cstring m (Z.to_nat ds) p
  else if ltype =? PB_LTYPE_SUBMESSAGE then sub (f_ptr f) p
  else if ltype =? PB_LTYPE_FIXED_LENGTH_BYTES then VBytes <$> load m p (Z.to_nat ds)
  else None.

Definition values_at (f : pb_field) (a n : Z) : option (list value) :=
  mapM (fun i => value_at f (a + f_data_size f * i)) (zseq n).

(** A member with its data at [a] and its flag, count or tag at [z]. *)
Definition member_at (x : pb_field * Z * Z) : option (option (list value)) :=
  let '(f, a, z) := x in
  let one := v ← value_at f a; Some (Some [v]) in
  let htype := PB_HTYPE (f_type f) in
  if htype =? PB_HTYPE_REQUIRED then one
  else if htype =? PB_HTYPE_OPTIONAL then
    if z =? a then one else has ← load m z 1; if safe_read_bool has then one else Some None
  else if htype =? PB_HTYPE_REPEATED then
    n ← (if z =? a then Some (f_array_size f) else load_u32 m z);
    if n <=? f_array_size f then l ← values_at f a n; Some (Some l) else None
  else which ← load_u32 m z; if which =? f_tag f then one else Some None.
End members.

(** [depth]: how deep messages nest. *)
Fixpoint msg_at (depth : nat) (fields src : Z) : option value :=
  match depth with
  | O => None
  | S depth' => VMsg <$> mapM (member_at (msg_at depth')) (slots (tables fields) src)
  end.
End contents.

(** ** Tidy tables *)

(** The bytes of a member: its data, and its flag, count or tag. *)
Definition data_bytes (f : pb_field) : Z :=
  f_data_size f * (if PB_HTYPE (f_type f) =? PB_HTYPE_REPEATED then f_array_size f else 1).
Definition cell_bytes (x : pb_field * Z * Z) : Z :=
  let '(f, a, z) := x in
  let htype := PB_HTYPE (f_type f) in
  if htype =? PB_HTYPE_REQUIRED then 0
  else if htype =? PB_HTYPE_OPTIONAL then if z =? a then 0 else 1
  else 4.
Definition in_slot (x : pb_field * Z * Z) (p : Z) : Prop :=
  x.1.2 <= p < x.1.2 + data_bytes x.1.1 \/ x.2 <= p < x.2 + cell_bytes x.

Definition apart (a n b k : Z) : bool := (a + n <=? b) || (b + k <=? a).

(** Two members of the same union. *)
Definition same_oneof (x y : pb_field * Z * Z) : bool :=
  (PB_HTYPE (f_type x.1.1) =? PB_HTYPE_ONEOF) && (PB_HTYPE (f_type y.1.1) =? PB_HTYPE_ONEOF) && (x.2 =? y.2).
Definition slots_apart (x y : pb_field * Z * Z) : bool :=
  negb (f_tag x.1.1 =? f_tag y.1.1) &&
  (same_oneof x y ||
   apart x.1.2 (data_bytes x.1.1) y.1.2 (data_bytes y.1.1) && apart x.1.2 (data_bytes x.1.1) y.2 (cell_bytes y) &&
   apart x.2 (cell_bytes x) y.1.2 (data_bytes y.1.1) && apart x.2 (cell_bytes x) y.2 (cell_bytes y)).
Fixpoint all_apart (l : list (pb_field * Z * Z)) : bool :=
  match l with [] => true | x :: l' => forallb (slots_apart x) l' && all_apart l' end.

Definition scalar_exact (ltype ds : Z) : bool :=
  if ltype =? PB_LTYPE_BOOL then ds =? 1
  else if ltype =? PB_LTYPE_FIXED32 then ds =? 4
  else if ltype =? PB_LTYPE_FIXED64 then ds =? 8
  else int_size ds.

(** A count that is not in the struct ([z = a]) needs a fixed-count array of four
    bytes; an optional field without a flag has no default value but zero. *)
Definition tidy_slot (sub : Z -> bool) (x : pb_field * Z * Z) : bool :=
  let '(f, a, z) := x in
  let ltype := PB_LTYPE (f_type f) in
  let htype := PB_HTYPE (f_type f) in
  (1 <=? f_tag f) && (f_tag f <? 2 ^ 29) && (z =? a + f_size_offset f) &&
  (if packable ltype then scalar_exact ltype (f_data_size f)
   else if ltype =? PB_LTYPE_SUBMESSAGE then sub (f_ptr f) else true) &&
  (if htype =? PB_HTYPE_REQUIRED then true
   else if htype =? PB_HTYPE_OPTIONAL then
     if z =? a then (f_ptr f =? 0) || (ltype =? PB_LTYPE_SUBMESSAGE) else apart a (data_bytes f) z 1
   else if htype =? PB_HTYPE_REPEATED then
     (data_bytes f <? 2 ^ 32) && (if z =? a then 4 <=? data_bytes f else apart a (data_bytes f) z 4)
   else negb (z =? a) && apart a (data_bytes f) z 4).

Section tidy.
Context (tables : Z -> list pb_field).

Fixpoint tidy (depth : nat) (fields : Z) : bool :=
  match depth with
  | O => false
  | S depth' =>
      (zlen (tables fields) <? 2 ^ 32) && forallb (tidy_slot (tidy depth')) (slots (tables fields) 0) &&
      all_apart (slots (tables fields) 0)
  end.

(** ** The state that [pb_message_set_to_defaults] leaves *)

Section default_members.
Context (m : mem) (sub : Z -> Z -> Prop).

Definition default_data (f : pb_field) (a : Z) : Prop :=
  if PB_LTYPE (f_type f) =? PB_LTYPE_SUBMESSAGE then sub (f_ptr f) a
  else load m a (Z.to_nat (f_data_size f)) = Some (replicate (Z.to_nat (f_data_size f)) 0).

Definition default_slot (x : pb_field * Z * Z) : Prop :=
  let '(f, a, z) := x in
  let submessage := PB_LTYPE (f_type f) = PB_LTYPE_SUBMESSAGE -> sub (f_ptr f) a in
  let htype := PB_HTYPE (f_type f) in
  if htype =? PB_HTYPE_REQUIRED then submessage
  else if htype =? PB_HTYPE_OPTIONAL then
    if z =? a then default_data f a else load m z 1 = Some [0] /\ submessage
  else if htype =? PB_HTYPE_REPEATED then
    if z =? a then True else load_u32 m z = Some 0
  else load_u32 m z = Some 0.
End default_members.

Fixpoint default_msg (m : mem) (depth : nat) (fields dest : Z) : Prop :=
  match depth with
  | O => False
  | S depth' => Forall (default_slot m (default_msg m depth')) (slots (tables fields) dest)
  end.

(** ** What is read depends only on the bytes of the member *)

Definition same_on (P : Z -> Prop) (m m' : mem) : Prop := forall p, P p -> m' !! p = m !! p.

Lemma load_same m m' a n : same_on (fun p => a <= p < a + Z.of_nat n) m m' -> load m' a n = load m a n.
Proof.
  revert a. induction n as [|n IH]; intros a H; [done|]. cbn [load]. rewrite (H a) by lia.
  destruct (m !! a); [|done]. cbn. rewrite IH; [done|]. intros p Hp. apply H. lia.
Qed.

Lemma load_u32_same m m' a : same_on (fun p => a <= p < a + 4) m m' -> load_u32 m' a = load_u32 m a.
Proof. intros H. unfold load_u32. by rewrite (load_same m m' a 4). Qed.

Lemma cstring_same m m' n p : same_on (fun q => p <= q < p + Z.of_nat n) m m' -> cstring m' n p = cstring m n p.
Proof.
  revert p. induction n as [|n IH]; intros p H; [done|]. cbn [cstring]. rewrite (H p) by lia.
  destruct (m !! p) as [c|]; [|done]. cbn. destruct (c =? 0); [done|]. rewrite IH; [done|]. intros q Hq. apply H. lia.
Qed.

Section frame.
Context (n : nat) (m m' : mem).
Context (sub sub' : Z -> Z -> option value) (dsub dsub' : Z -> Z -> Prop).
Hypothesis sub_same : forall t size p, fits tables n t size = true -> same_on (fun q => p <= q < p + size) m m' -> sub' t p = sub t p.
Hypothesis dsub_same : forall t size p, fits tables n t size = true -> same_on (fun q => p <= q < p + size) m m' -> dsub t p -> dsub' t p.

Lemma value_same f p room : field_ok f -> item_fits (fits tables n) f room = true ->
  same_on (fun q => p <= q < p + room) m m' -> value_at m' sub' f p = value_at m sub f p.
Proof.
  intros (_ & Hd & _) Hit H. unfold value_at, item_fits in *.
  destruct (Z.eqb_spec (PB_LTYPE (f_type f)) PB_LTYPE_BOOL) as [E|].
  { rewrite E in Hit. cbn in Hit. apply Z.leb_le in Hit. rewrite (load_same m m' p 1); [done|]. intros q Hq. apply H. lia. }
  destruct (packable _); [apply Z.leb_le in Hit; rewrite (load_same m m'); [done|]; intros q Hq; apply H; lia|].
  destruct (Z.eqb_spec (PB_LTYPE (f_type f)) PB_LTYPE_BYTES); cbn [orb] in Hit.
  { apply Z.leb_le in Hit. unfold bytes_offset. destruct (Z.leb_spec 4 (f_data_size f)); [|done].
    rewrite (load_u32_same m m') by (intros q Hq; apply H; lia). destruct (load_u32 m p) as [k|]; [|done]. cbn.
    destruct (Z.leb_spec (k + 4) (f_data_size f)); [|done].
    rewrite (load_same m m'); [done|]. intros q Hq. apply H. lia. }
  destruct (Z.eqb_spec (PB_LTYPE (f_type f)) PB_LTYPE_STRING); cbn [orb] in Hit.
  { apply Z.leb_le in Hit. rewrite (cstring_same m m'); [done|]. intros q Hq. apply H. lia. }
  destruct (Z.eqb_spec (PB_LTYPE (f_type f)) PB_LTYPE_FIXED_LENGTH_BYTES) as [E|]; cbn [orb] in Hit.
  { apply Z.leb_le in Hit. rewrite E. change (_ =? PB_LTYPE_SUBMESSAGE) with false. cbv iota.
    rewrite (load_same m m'); [done|]. intros q Hq. apply H. lia. }
  destruct (_ =? PB_LTYPE_SUBMESSAGE); [|done]. bool_hyps. eapply sub_same; [done|]. intros q Hq. apply H. lia.
Qed.

(** A member that fits in [0, size), relocated. *)
Definition member_fits (x : pb_field * Z * Z) : Prop :=
  field_ok x.1.1 /\ PB_ATYPE (f_type x.1.1) = PB_ATYPE_STATIC /\ item_fits (fits tables n) x.1.1 (f_data_size x.1.1) = true.

Lemma member_same x : member_fits x -> same_on (in_slot x) m m' -> member_at m' sub' x = member_at m sub x.
Proof.
  destruct x as [[f a] z]. intros (Hok & Hst & Hit) H. cbn [fst snd] in *. pose proof Hok as (_ & Hd & Ha).
  unfold same_on, in_slot, data_bytes, cell_bytes in H. cbn [fst snd] in H. unfold member_at.
  destruct (Z.eqb_spec (PB_HTYPE (f_type f)) PB_HTYPE_REQUIRED) as [Er|_].
  { rewrite (value_same f a (f_data_size f)); [done..|]. intros q Hq. apply H. rewrite Er. left. cbn. lia. }
  destruct (Z.eqb_spec (PB_HTYPE (f_type f)) PB_HTYPE_OPTIONAL) as [Eo|_].
  { rewrite (value_same f a (f_data_size f)); [|done..|intros q Hq; apply H; rewrite Eo; left; cbn; lia].
    destruct (z =? a); [done|]. rewrite (load_same m m' z 1); [done|]. intros q Hq. apply H. right. lia. }
  destruct (Z.eqb_spec (PB_HTYPE (f_type f)) PB_HTYPE_REPEATED) as [Ep|_].
  - assert (En : (if z =? a then Some (f_array_size f) else load_u32 m' z) = (if z =? a then Some (f_array_size f) else load_u32 m z)).
    { destruct (z =? a); [done|]. apply load_u32_same. intros q Hq. apply H. right. lia. }
    rewrite En. destruct (if z =? a then Some (f_array_size f) else load_u32 m z) as [k|]; [|done]. cbn. destruct (Z.leb_spec k (f_array_size f)); [|done].
    unfold values_at. erewrite mapM_ext; [done|]. intros i Hi. apply elem_zseq in Hi.
    apply (value_same f _ (f_data_size f)); [done..|]. intros q Hq. apply H. left. nia.
  - rewrite (load_u32_same m m') by (intros q Hq; apply H; right; lia).
    rewrite (value_same f a (f_data_size f)); [done..|]. intros q Hq. apply H. left. lia.
Qed.

Lemma default_data_same f a : member_fits (f, a, a) -> same_on (fun q => a <= q < a + f_data_size f) m m' ->
  default_data m dsub f a -> default_data m' dsub' f a.
Proof.
  intros (Hok & Hst & Hit) H. cbn [fst snd] in *. unfold default_data. destruct (Z.eqb_spec (PB_LTYPE (f_type f)) PB_LTYPE_SUBMESSAGE) as [E|].
  - intros Hs. eapply dsub_same; [|exact H|exact Hs]. unfold item_fits in Hit. rewrite E in Hit. cbn in Hit. by bool_hyps.
  - rewrite (load_same m m'); [done|]. destruct Hok as (_ & Hd & _). intros q Hq. apply H. lia.
Qed.

Lemma default_same x : member_fits x -> same_on (in_slot x) m m' -> default_slot m dsub x -> default_slot m' dsub' x.
Proof.
  destruct x as [[f a] z]. intros Hf H. pose proof Hf as (Hok & Hst & Hit). cbn [fst snd] in *. pose proof Hok as (_ & Hd & Ha).
  unfold same_on, in_slot, data_bytes, cell_bytes in H. cbn [fst snd] in H. unfold default_slot.
  assert (Hdata : PB_HTYPE (f_type f) <> PB_HTYPE_REPEATED -> same_on (fun q => a <= q < a + f_data_size f) m m').
  { intros Hr q Hq. apply H. left. destruct (Z.eqb_spec (PB_HTYPE (f_type f)) PB_HTYPE_REPEATED); [done|lia]. }
  assert (Hsub : PB_HTYPE (f_type f) <> PB_HTYPE_REPEATED -> (PB_LTYPE (f_type f) = PB_LTYPE_SUBMESSAGE -> dsub (f_ptr f) a) ->
    PB_LTYPE (f_type f) = PB_LTYPE_SUBMESSAGE -> dsub' (f_ptr f) a).
  { intros Hr Hs E. eapply dsub_same; [|by apply Hdata|by apply Hs]. unfold item_fits in Hit. rewrite E in Hit. cbn in Hit. by bool_hyps. }
  destruct (Z.eqb_spec (PB_HTYPE (f_type f)) PB_HTYPE_REQUIRED) as [Er|_]; [apply Hsub; rewrite Er; done|].
  destruct (Z.eqb_spec (PB_HTYPE (f_type f)) PB_HTYPE_OPTIONAL) as [Eo|_].
  { destruct (z =? a).
    - intros Hx. eapply default_data_same; [exact Hf|apply Hdata; rewrite Eo; done|exact Hx].
    - intros [Hl Hx]. split; [|apply Hsub; [rewrite Eo; done|done]]. rewrite (load_same m m'); [done|]. intros q Hq. apply H. right. lia. }
  destruct (Z.eqb_spec (PB_HTYPE (f_type f)) PB_HTYPE_REPEATED) as [Ep|_]; [destruct (z =? a); [done|]|];
    (rewrite (load_u32_same m m'); [done|]); intros q Hq; apply H; right; lia.
Qed.
End frame.

(** ** Members of a struct at [dest] *)

Hypothesis tables_ok : forall t, Forall field_ok (tables t).

Definition shift (d : Z) (x : pb_field * Z * Z) : pb_field * Z * Z := (x.1.1, x.1.2 + d, x.2 + d).

Lemma slots_at t dest k x : slots (tables t) dest !! k = Some x -> exists y, slots (tables t) 0 !! k = Some y /\ x = shift dest y.
Proof.
  replace dest with (0 + dest) at 1 by lia. rewrite slots_shift. intros H. apply list_lookup_fmap_Some in H as (y & -> & H). by exists y.
Qed.

Lemma slots_move t p q : slots (tables t) q = shift (q - p) <$> slots (tables t) p.
Proof. replace q with (p + (q - p)) at 1 by lia. apply slots_shift. Qed.

Lemma slots_field t dest k x : slots (tables t) dest !! k = Some x -> tables t !! k = Some x.1.1 /\ field_ok x.1.1.
Proof.
  destruct x as [[f a] z]. intros H. apply slots_lookup in H as (H & _ & _). split; [done|].
  by apply (proj1 (Forall_lookup _ _) (tables_ok t) k).
Qed.

Lemma slot_of_field t dest k f : no_end tables t -> tables t !! k = Some f -> exists a z, slots (tables t) dest !! k = Some (f, a, z).
Proof.
  unfold no_end. intros Hn.
  assert (G : forall l prev a z k, Forall (fun f => f_tag f <> 0) l -> l !! k = Some f -> exists b w, slots_after prev a z l !! k = Some (f, b, w)).
  { clear. induction l as [|g l IH]; intros prev a z k Hn Hk; [done|]. apply Forall_cons in Hn as [Hg Hn]. cbn [slots_after].
    destruct (Z.eqb_spec (f_tag g) 0); [done|]. destruct k as [|k]; [|by apply IH]. injection Hk as ->. eauto. }
  destruct (tables t) as [|g l]; [done|]. apply Forall_cons in Hn as [Hg Hn]. cbn [slots]. destruct (Z.eqb_spec (f_tag g) 0); [done|].
  destruct k as [|k]; [intros [= ->]; eauto|]. cbn [lookup list_lookup]. intros. by apply G.
Qed.

Lemma slots_length t dest : no_end tables t -> length (slots (tables t) dest) = length (tables t).
Proof.
  unfold no_end. assert (G : forall l prev a z, Forall (fun f => f_tag f <> 0) l -> length (slots_after prev a z l) = length l).
  { clear. induction l as [|g l IH]; intros prev a z Hn; [done|]. apply Forall_cons in Hn as [Hg Hn]. cbn [slots_after].
    destruct (Z.eqb_spec (f_tag g) 0); [done|]. cbn [length]. f_equal. by apply IH. }
  destruct (tables t) as [|g l]; [done|]. intros Hn. apply Forall_cons in Hn as [Hg Hn]. cbn [slots].
  destruct (Z.eqb_spec (f_tag g) 0); [done|]. cbn [length]. f_equal. by apply G.
Qed.

Lemma slot_fits_at n t size dest k x : fits tables (S n) t size = true -> slots (tables t) dest !! k = Some x ->
  member_fits n x /\ (forall p, in_slot x p -> dest <= p < dest + size).
Proof.
  intros Hf Hx. destruct (slots_field _ _ _ _ Hx) as [_ Hok]. apply slots_at in Hx as ([[f a] z] & Hy & ->). unfold shift in *. cbn [fst snd] in *.
  cbn [fits] in Hf. apply andb_prop in Hf as [_ Hall]. rewrite forallb_forall in Hall.
  specialize (Hall _ (proj1 (list_elem_of_In _ _) (list_elem_of_lookup_2 _ _ _ Hy))). unfold slot_fits in Hall.
  apply andb_prop in Hall as [Hall Hz]. apply andb_prop in Hall as [Hall Hhi]. apply andb_prop in Hall as [Hall Hlo].
  apply andb_prop in Hall as [Hst Hit]. apply Z.leb_le in Hhi, Hlo. apply Z.eqb_eq in Hst.
  split; [done|]. unfold in_slot, data_bytes, cell_bytes. cbn [fst snd]. intros p [Hp|Hp]; [lia|].
  destruct (_ =? PB_HTYPE_REQUIRED); [lia|]. destruct (_ =? PB_HTYPE_OPTIONAL).
  - destruct (Z.eqb_spec (z + dest) (a + dest)); [lia|]. apply orb_true_iff in Hz as [Hz|Hz]; bool_hyps; lia.
  - bool_hyps. lia.
Qed.

Lemma msg_same n t size p m m' : fits tables n t size = true -> same_on (fun q => p <= q < p + size) m m' ->
  msg_at tables m' n t p = msg_at tables m n t p.
Proof.
  revert t size p. induction n as [|n IH]; intros t size p Hf H; [done|]. cbn [msg_at]. f_equal. apply mapM_ext.
  intros x Hx. apply list_elem_of_lookup in Hx as [k Hk]. destruct (slot_fits_at _ _ _ _ _ _ Hf Hk) as [Hm Hin].
  apply (member_same n m m'); [|done|]; [intros; by eapply IH|]. intros q Hq. apply H. by apply Hin.
Qed.

Lemma default_msg_same n t size p m m' : fits tables n t size = true -> same_on (fun q => p <= q < p + size) m m' ->
  default_msg m n t p -> default_msg m' n t p.
Proof.
  revert t size p. induction n as [|n IH]; intros t size p Hf H; [done|]. cbn [default_msg]. rewrite !Forall_lookup.
  intros Hd k x Hk. destruct (slot_fits_at _ _ _ _ _ _ Hf Hk) as [Hm Hin].
  apply (default_same n m m' (default_msg m n)); [|done| |by eapply Hd]; [intros; by eapply IH|]. intros q Hq. apply H. by apply Hin.
Qed.

(** More depth than the message has changes nothing. *)
Lemma tidy_S n t : tidy n t = true -> tidy (S n) t = true.
Proof.
  revert t. induction n as [|n IH]; intros t H; [done|]. cbn [tidy] in H. change (tidy (S (S n)) t) with
    ((zlen (tables t) <? 2 ^ 32) && forallb (tidy_slot (tidy (S n))) (slots (tables t) 0) && all_apart (slots (tables t) 0)).
  apply andb_true_iff in H as [H ->]. apply andb_true_iff in H as [-> H]. rewrite andb_true_r. cbn [andb].
  rewrite forallb_forall in H. apply forallb_forall. intros [[f a] z] Hx. specialize (H _ Hx).
  unfold tidy_slot in *. apply andb_true_iff in H as [H Hh]. rewrite Hh, andb_true_r. apply andb_true_iff in H as [-> H]. cbn [andb].
  destruct (packable _); [done|]. destruct (_ =? _); [by apply IH|done].
Qed.

Lemma default_slot_mono m x (sub sub' : Z -> Z -> Prop) :
  (PB_LTYPE (f_type x.1.1) = PB_LTYPE_SUBMESSAGE -> sub (f_ptr x.1.1) x.1.2 -> sub' (f_ptr x.1.1) x.1.2) ->
  default_slot m sub x -> default_slot m sub' x.
Proof.
  destruct x as [[f a] z]. cbn [fst snd]. intros H. unfold default_slot, default_data.
  destruct (Z.eqb_spec (PB_LTYPE (f_type f)) PB_LTYPE_SUBMESSAGE) as [E|]; repeat case_match; try tauto.
Qed.

Lemma default_msg_S m n t size p : fits tables n t size = true -> default_msg m (S n) t p -> default_msg m n t p.
Proof.
  revert t size p. induction n as [|n IH]; intros t size p Hf H; [done|]. cbn [default_msg] in H |- *. rewrite Forall_lookup in H |- *.
  intros k x Hk. apply (default_slot_mono m x (default_msg m (S n))); [|by apply (H k)]. intros E.
  destruct (slot_fits_at _ _ _ _ _ _ Hf Hk) as [(_ & _ & Hit) _]. unfold item_fits in Hit. rewrite E in Hit. cbn in Hit. bool_hyps.
  by eapply IH.
Qed.

(** What [tidy] says of a member. *)
Record tidy_at (n : nat) (x : pb_field * Z * Z) : Prop := {
  ta_tag : 1 <= f_tag x.1.1 < 2 ^ 29;
  ta_cell : x.2 = x.1.2 + f_size_offset x.1.1;
  ta_scalar : packable (PB_LTYPE (f_type x.1.1)) = true -> scalar_exact (PB_LTYPE (f_type x.1.1)) (f_data_size x.1.1) = true;
  ta_sub : PB_LTYPE (f_type x.1.1) = PB_LTYPE_SUBMESSAGE -> tidy n (f_ptr x.1.1) = true;
  ta_optional : PB_HTYPE (f_type x.1.1) = PB_HTYPE_OPTIONAL -> x.2 = x.1.2 ->
    f_ptr x.1.1 = 0 \/ PB_LTYPE (f_type x.1.1) = PB_LTYPE_SUBMESSAGE;
  ta_repeated : PB_HTYPE (f_type x.1.1) = PB_HTYPE_REPEATED -> data_bytes x.1.1 < 2 ^ 32 /\ (x.2 = x.1.2 -> 4 <= data_bytes x.1.1);
  ta_oneof : PB_HTYPE (f_type x.1.1) = PB_HTYPE_ONEOF -> x.2 <> x.1.2;
  ta_apart : x.2 <> x.1.2 -> forall p, x.1.2 <= p < x.1.2 + data_bytes x.1.1 -> x.2 <= p < x.2 + cell_bytes x -> False }.

Lemma tidy_slot_at n t dest k x : tidy (S n) t = true -> slots (tables t) dest !! k = Some x -> tidy_at n x.
Proof.
  intros Ht Hx. apply slots_at in Hx as ([[f a] z] & Hy & ->). cbn [tidy] in Ht. apply andb_prop in Ht as [Ht _].
  apply andb_prop in Ht as [_ Hall]. rewrite forallb_forall in Hall.
  specialize (Hall _ (proj1 (list_elem_of_In _ _) (list_elem_of_lookup_2 _ _ _ Hy))). unfold tidy_slot in Hall.
  apply andb_prop in Hall as [Hall Hh]. apply andb_prop in Hall as [Hall Hl]. apply andb_prop in Hall as [Hall Hz].
  apply andb_prop in Hall as [Hall Htag2]. apply Z.ltb_lt in Htag2. apply Z.leb_le in Hall. apply Z.eqb_eq in Hz.
  unfold shift, cell_bytes. constructor; cbn [fst snd].
  - done.
  - lia.
  - intros Hp. by rewrite Hp in Hl.
  - intros Es. rewrite Es in Hl. cbn in Hl. done.
  - intros Eo Ez. rewrite Eo in Hh. cbn [Z.eqb Pos.eqb PB_HTYPE_REQUIRED PB_HTYPE_OPTIONAL] in Hh.
    destruct (Z.eqb_spec z a); [|lia]. apply orb_true_iff in Hh as [Hh|Hh]; apply Z.eqb_eq in Hh; [by left|by right].
  - intros Eo. rewrite Eo in Hh. cbn [Z.eqb Pos.eqb PB_HTYPE_REQUIRED PB_HTYPE_OPTIONAL PB_HTYPE_REPEATED] in Hh.
    apply andb_prop in Hh as [Hh1 Hh2]. apply Z.ltb_lt in Hh1. split; [done|]. intros Ez.
    destruct (Z.eqb_spec z a); [by apply Z.leb_le|lia].
  - intros Eo. rewrite Eo in Hh. cbn [Z.eqb Pos.eqb PB_HTYPE_REQUIRED PB_HTYPE_OPTIONAL PB_HTYPE_REPEATED PB_HTYPE_ONEOF] in Hh.
    bool_hyps. lia.
  - intros Ez p Hp Hc. unfold cell_bytes in Hc. assert (Hza : z <> a) by lia. apply Z.eqb_neq in Hza. rewrite Hza in Hh.
    destruct (_ =? PB_HTYPE_REQUIRED); [lia|]. destruct (_ =? PB_HTYPE_OPTIONAL).
    + unfold apart in Hh. apply orb_true_iff in Hh as [Hh|Hh]; apply Z.leb_le in Hh; destruct (_ =? _) in Hc; lia.
    + destruct (_ =? PB_HTYPE_REPEATED); apply andb_prop in Hh as [_ Hh]; unfold apart in Hh;
        apply orb_true_iff in Hh as [Hh|Hh]; apply Z.leb_le in Hh; lia.
Qed.

(** Members are apart, or share the tag of their union. *)
Definition disjoint_slots (x y : pb_field * Z * Z) : Prop := forall p, in_slot x p -> in_slot y p -> False.

Lemma slots_apart_spec x y : slots_apart x y = true ->
  f_tag x.1.1 <> f_tag y.1.1 /\ (same_oneof x y = true \/ disjoint_slots x y).
Proof.
  unfold slots_apart, apart, disjoint_slots, in_slot. intros H. apply andb_prop in H as [H1 H2]. split; [by bool_hyps|].
  destruct (same_oneof x y); [by left|]. right. cbn [orb] in H2. rewrite !andb_true_iff, !orb_true_iff, !Z.leb_le in H2. intros p Hx Hy. lia.
Qed.

Lemma all_apart_lookup l i j x y : all_apart l = true -> l !! i = Some x -> l !! j = Some y -> (i < j)%nat -> slots_apart x y = true.
Proof.
  revert i j. induction l as [|h l IH]; intros i j H Hi Hj Hlt; [done|]. cbn [all_apart] in H. apply andb_prop in H as [H1 H2].
  destruct j as [|j]; [lia|]. destruct i as [|i]; [|apply (IH i j); [done..|lia]]. injection Hi as ->. cbn [lookup list_lookup] in Hj.
  rewrite forallb_forall in H1. apply H1. apply list_elem_of_In. by eapply list_elem_of_lookup_2.
Qed.

Lemma same_oneof_sym x y : same_oneof x y = same_oneof y x.
Proof. unfold same_oneof. rewrite (Z.eqb_sym x.2). destruct (_ =? PB_HTYPE_ONEOF), (_ =? PB_HTYPE_ONEOF); done. Qed.

Lemma tidy_apart n t dest i j x y : tidy (S n) t = true -> slots (tables t) dest !! i = Some x -> slots (tables t) dest !! j = Some y ->
  i <> j -> f_tag x.1.1 <> f_tag y.1.1 /\ (same_oneof x y = true \/ disjoint_slots x y).
Proof.
  intros Ht Hx Hy Hne. cbn [tidy] in Ht. apply andb_prop in Ht as [_ Ht].
  apply slots_at in Hx as (x0 & Hx & ->), Hy as (y0 & Hy & ->).
  assert (G : forall x0 y0, slots_apart x0 y0 = true ->
    f_tag (shift dest x0).1.1 <> f_tag (shift dest y0).1.1 /\
    (same_oneof (shift dest x0) (shift dest y0) = true \/ disjoint_slots (shift dest x0) (shift dest y0))).
  { intros u v Huv. apply slots_apart_spec in Huv as [Hu Hv]. split; [done|]. destruct Hv as [Hv|Hv]; [left|right].
    - unfold same_oneof, shift in *. cbn [fst snd] in *. bool_hyps. rewrite !andb_true_iff, !Z.eqb_eq. split_and!; [done..|lia].
    - assert (E : forall w p, in_slot (shift dest w) p -> in_slot w (p - dest)).
      { intros [[f a] z] p. unfold in_slot, shift, cell_bytes. cbn [fst snd].
        replace (z + dest =? a + dest) with (z =? a) by (destruct (Z.eqb_spec z a), (Z.eqb_spec (z + dest) (a + dest)); (done || lia)). lia. }
      intros p Hp Hq. apply (Hv (p - dest)); by apply E. }
  destruct (decide (i < j)%nat).
  - by apply G, (all_apart_lookup _ i j _ _ Ht).
  - destruct (G y0 x0) as [G1 G2]; [apply (all_apart_lookup _ j i _ _ Ht); [done..|lia]|]. split; [congruence|].
    destruct G2 as [G2|G2]; [left; by rewrite same_oneof_sym|right]. intros p Hp Hq. by apply (G2 p).
Qed.

Lemma members_slots l src : members l src = (fun x => (x.1.1, x.1.2)) <$> slots l src.
Proof.
  assert (G : forall l prev a z, members_after prev a l = (fun x => (x.1.1, x.1.2)) <$> slots_after prev a z l).
  { clear. induction l as [|f l IH]; intros prev a z; [done|]. cbn [members_after slots_after]. destruct (_ =? 0); [done|].
    cbn [fmap list_fmap fst snd]. f_equal. apply IH. }
  destruct l as [|f l]; [done|]. cbn [members slots]. destruct (_ =? 0); [done|]. cbn [fmap list_fmap fst snd]. f_equal. apply G.
Qed.
End tidy.
