(* ===== verification/PbDefaults.v ===== *)
(** * nanopb messages: defaults.

    [pb_message_set_to_defaults] leaves a struct in its default state, and a
    value that the encoder takes for the proto3 default, and so does not write,
    is the value of that state. *)

From S2P Require Import Prelude PbMem PbStream PbWire PbIter PbReads PbMessage PbDecode PbSafe PbContents.

(** ** What a call changes *)

(** Inclusion of ranges of bytes. *)
Ltac in_bytes := let p := fresh "p" in let H := fresh "H" in intros p H; cbv beta in *; lia.

(** Memory is the same but for the bytes [P], and no byte is lost. *)
Definition frame (P : Z -> Prop) (m m' : mem) : Prop :=
  (forall p, ~ P p -> m' !! p = m !! p) /\
  (forall p, (exists b, m !! p = Some b /\ is_byte b) -> exists b, m' !! p = Some b /\ is_byte b).

#[export] Instance frame_refl P : Reflexive (frame P).
Proof. intros m. split; auto. Qed.
#[export] Instance frame_trans P : Transitive (frame P).
Proof. intros m1 m2 m3 [H1 B1] [H2 B2]. split; [intros p Hp; rewrite H2, H1; done|auto]. Qed.

Lemma frame_mono (P Q : Z -> Prop) m m' : frame P m m' -> (forall p, P p -> Q p) -> frame Q m m'.
Proof. intros [H B] HPQ. split; [intros p Hp; apply H; auto|done]. Qed.

Lemma frame_same (P Q : Z -> Prop) m m' : frame P m m' -> (forall p, Q p -> P p -> False) -> same_on Q m m'.
Proof. intros [H _] HPQ p Hp. apply H. intros HP. by apply (HPQ p). Qed.

Lemma frame_mapped P m m' lo hi : frame P m m' -> mapped m lo hi -> mapped m' lo hi.
Proof. intros [_ B] H p Hp. apply B, H, Hp. Qed.

Lemma within_frame lo hi m m' : mapped m lo hi -> within lo hi m m' -> frame (fun p => lo <= p < hi) m m'.
Proof.
  intros Hm H. split; intros p Hp; destruct (H p) as [HO HI]; [apply HO; lia|].
  destruct (decide (lo <= p < hi)); [auto|]. rewrite HO by lia. done.
Qed.

Lemma store_load l : forall m a m', store m a l = Some m' ->
  load m' a (length l) = Some l /\ forall p, p < a -> m' !! p = m !! p.
Proof.
  induction l as [|b l IH]; intros m a m' H; cbn [store load length] in *; [simplify_eq; done|].
  destruct (m !! a); [|done]. destruct (IH _ _ _ H) as [IH1 IH2]. split.
  - rewrite IH2, lookup_insert_eq by lia. cbn. rewrite IH1. done.
  - intros p Hp. rewrite IH2, lookup_insert_ne by lia. done.
Qed.

Lemma load_take m a n k l : load m a n = Some l -> (k <= n)%nat -> load m a k = Some (take k l).
Proof.
  revert a k l. induction n as [|n IH]; intros a k l H Hk; cbn [load] in H.
  - assert (k = O) as -> by lia. simplify_eq. done.
  - destruct (m !! a) as [b|] eqn:E; [|done]. cbn in H. destruct (load m (a + 1) n) as [l'|] eqn:El; [|done]. cbn in H. simplify_eq.
    destruct k as [|k]; [done|]. cbn [load]. rewrite E. cbn. rewrite (IH _ k _ El) by lia. done.
Qed.

Lemma load_u32_zeros m a n : (4 <= n)%nat -> load m a n = Some (replicate n 0) -> load_u32 m a = Some 0.
Proof. intros Hn H. unfold load_u32. rewrite (load_take _ _ _ 4 _ H Hn), take_replicate, Nat.min_l by done. done. Qed.

Lemma cstring_zero m p n : (0 < n)%nat -> m !! p = Some 0 -> cstring m n p = Some [].
Proof. intros Hn H. destruct n; [lia|]. cbn [cstring]. rewrite H. done. Qed.

Lemma load_head m p n l : (0 < n)%nat -> load m p n = Some l -> exists b l', l = b :: l' /\ m !! p = Some b.
Proof.
  destruct n as [|n]; [lia|]. cbn [load]. intros _ H. destruct (m !! p) as [b|]; [|done]. cbn in H.
  destruct (load m (p + 1) n) as [l'|]; [|done]. cbn in H. simplify_eq. eauto.
Qed.

Lemma all_zero_replicate l : all_zero l = true -> l = replicate (length l) 0.
Proof.
  induction l as [|b l IH]; [done|]. cbn [all_zero forallb length replicate]. intros H. apply andb_prop in H as [H1 H2]. apply Z.eqb_eq in H1 as ->.
  f_equal. by apply IH.
Qed.

Lemma load_length m a n l : load m a n = Some l -> length l = n.
Proof.
  revert a l. induction n as [|n IH]; intros a l H; cbn [load] in H; [by simplify_eq|]. destruct (m !! a); [|done]. cbn in H.
  destruct (load m (a + 1) n) eqn:E; [|done]. cbn in H. simplify_eq/=. f_equal. by eapply IH.
Qed.

Section defaults.
Context (tables : Z -> list pb_field).
Hypothesis tables_ok : forall t, Forall field_ok (tables t).

(** ** A value that is the proto3 default *)

Section check.
Context (m m' : mem).

(** The loop of [pb_check_proto3_default_value] looks at every member. *)
Lemma default_loop_all check k t p it : no_end tables t -> it_at tables t p it ->
  default_loop tables check k it = Some true -> forall i x, (it_pos it <= i)%nat -> slots (tables t) p !! i = Some x ->
  check x.1.1 x.1.2 = Some true.
Proof.
  intros Hn. revert it. induction k as [|k IH]; intros it Hi Hd i x Hle Hx; cbn [default_loop] in Hd;
    destruct (check (pos tables it) (pData it)) as [b|] eqn:Eb; try done; cbn in Hd; (destruct b; [|done]); cbn [negb] in Hd;
    pose proof (next_at tables t p it Hn Hi) as Hnx; destruct (pb_field_iter_next tables it) as [it' more]; destruct Hnx as [Hi' Hm];
    (assert (Hne : tables t <> []) by (intros E; rewrite E in Hx; done));
    destruct Hi as (_ & _ & Hi); rewrite decide_False in Hi by done; destruct Hi as (z & Hz & _);
    (destruct (decide (it_pos it = i)) as [<-|]; [rewrite Hx in Hz; simplify_eq; exact Eb|]).
  all: destruct (slots_field tables tables_ok _ _ _ _ Hx) as [Ht _]; apply lookup_lt_Some in Ht.
  - destruct more; [done|]. lia.
  - destruct more; [|lia]. destruct Hm as [Hp Hm]. apply (IH it' Hi' Hd i x); [lia|done].
Qed.

(** The check of a static optional field without a flag. *)
Lemma check_static fc f a : PB_ATYPE (f_type f) = PB_ATYPE_STATIC -> PB_HTYPE (f_type f) = PB_HTYPE_OPTIONAL -> f_size_offset f = 0 ->
  pb_check_proto3_default_value tables m fc f a =
    let ltype := PB_LTYPE (f_type f) in
    if ltype =? PB_LTYPE_BYTES then n ← load_u32 m a; Some (n =? 0)
    else if ltype =? PB_LTYPE_STRING then c ← load m a 1; Some (znth c 0 =? 0)
    else if ltype =? PB_LTYPE_FIXED_LENGTH_BYTES then Some (f_data_size f =? 0)
    else if ltype =? PB_LTYPE_SUBMESSAGE then
      match fc with
      | O => None
      | S fc' =>
          let '(it, ok) := pb_field_iter_begin tables (f_ptr f) a in
          if ok then default_loop tables (pb_check_proto3_default_value tables m fc') (length (tables (f_ptr f))) it else Some true
      end
    else l ← load m a (Z.to_nat (f_data_size f)); Some (all_zero l).
Proof. intros Hst Ho Hz. destruct fc; cbn [pb_check_proto3_default_value]; rewrite Hst, Ho, Hz; reflexivity. Qed.

(** The other static fields that count as default. *)
Lemma check_other fc f a : PB_ATYPE (f_type f) = PB_ATYPE_STATIC ->
  (PB_HTYPE (f_type f) = PB_HTYPE_OPTIONAL -> f_size_offset f <> 0) ->
  pb_check_proto3_default_value tables m fc f a = Some true ->
  (PB_HTYPE (f_type f) = PB_HTYPE_OPTIONAL /\ exists l, load m (a + f_size_offset f) 1 = Some l /\ safe_read_bool l = false) \/
  (PB_HTYPE (f_type f) = PB_HTYPE_REPEATED /\ f_size_offset f <> 0 /\ load_u32 m (a + f_size_offset f) = Some 0) \/
  (PB_HTYPE (f_type f) = PB_HTYPE_ONEOF /\ load_u32 m (a + f_size_offset f) = Some 0).
Proof.
  intros Hst Ho Hc.
  destruct (htype_cases (f_type f)) as [H|[H|[H|H]]]; (destruct fc; cbn [pb_check_proto3_default_value] in Hc; rewrite H in Hc);
    try (specialize (Ho H)); cbn [Z.eqb Pos.eqb PB_HTYPE_OPTIONAL PB_HTYPE_REQUIRED PB_HTYPE_REPEATED PB_HTYPE_ONEOF] in Hc; try done;
    rewrite ?Hst in Hc.
  1-2: left; split; [done|]; destruct (Z.eqb_spec (f_size_offset f) 0); [done|]; cbn [negb] in Hc;
    destruct (load m _ 1) as [l|]; [|done]; exists l; split; [done|]; injection Hc as Hc; by apply negb_true_iff.
  all: right; destruct (Z.eqb_spec (f_size_offset f) 0); [try done|]; cbn [negb] in Hc.
  all: destruct (load_u32 m _) as [w|]; [|done]; cbn in Hc; injection Hc as Hc; apply Z.eqb_eq in Hc as ->; tauto.
Qed.

(** The value of a static optional field without a flag. *)
Lemma check_value n fc f a b : member_fits tables n (f, a, a) ->
  (packable (PB_LTYPE (f_type f)) = true -> scalar_exact (PB_LTYPE (f_type f)) (f_data_size f) = true) ->
  (forall t size fc p q v, fits tables n t size = true -> t = f_ptr f -> PB_LTYPE (f_type f) = PB_LTYPE_SUBMESSAGE ->
     default_loop tables (pb_check_proto3_default_value tables m fc) (length (tables t)) (fst (pb_field_iter_begin tables t p)) = Some true ->
     msg_at tables m n t p = Some v -> default_msg tables m' n t q -> msg_at tables m' n t q = Some v) ->
  PB_HTYPE (f_type f) = PB_HTYPE_OPTIONAL -> f_size_offset f = 0 ->
  pb_check_proto3_default_value tables m fc f a = Some true ->
  default_data m' (default_msg tables m' n) f b ->
  forall v, value_at m (msg_at tables m n) f a = Some v -> value_at m' (msg_at tables m' n) f b = Some v.
Proof.
  intros ((_ & Hds & _) & Hst & Hit) Hex Hsub Ho Hz Hc Hd v Hv. cbn [fst snd] in *.
  rewrite (check_static _ _ _ Hst Ho Hz) in Hc. cbv zeta in Hc. unfold value_at, default_data in *.
  destruct (item_kinds _ _ _ Hit) as [E|[(Hp & E1 & E2 & E3 & E4 & E5)|[E|[E|[E|E]]]]]; cbv zeta in *.
  - rewrite E in *. cbn -[load Z.to_nat] in *. specialize (Hex eq_refl). apply Z.eqb_eq in Hex as Eds. rewrite Eds in *.
    change (Z.to_nat 1) with 1%nat in *.
    destruct (load m a 1) as [l|] eqn:El; [|done]. cbn in Hc, Hv. injection Hc as Hc. apply all_zero_replicate in Hc.
    rewrite (load_length _ _ _ _ El) in Hc. subst l. rewrite Hd. exact Hv.
  - rewrite Hp, E1, E2, E3, E4, E5 in *. specialize (Hex eq_refl).
    assert (Es : scalar_size (PB_LTYPE (f_type f)) (f_data_size f) = f_data_size f).
    { unfold scalar_exact, scalar_size in *. rewrite E1 in *. destruct (_ =? PB_LTYPE_FIXED32); [bool_hyps; lia|].
      destruct (_ =? PB_LTYPE_FIXED64); [bool_hyps; lia|done]. }
    rewrite Es in *. destruct (load m a _) as [l|] eqn:El; [|done]. cbn in Hc, Hv. injection Hc as Hc. apply all_zero_replicate in Hc.
    rewrite (load_length _ _ _ _ El) in Hc. subst l. rewrite Hd. exact Hv.
  - rewrite E in *. unfold bytes_offset in *. cbn -[load load_u32 Z.to_nat] in *. destruct (Z.leb_spec 4 (f_data_size f)) as [H4|]; [|done].
    destruct (load_u32 m a) as [k|]; [|done]. cbn -[load Z.to_nat] in *. injection Hc as Hc. apply Z.eqb_eq in Hc as ->.
    rewrite (load_u32_zeros m' b (Z.to_nat (f_data_size f)) ltac:(lia) Hd). exact Hv.
  - rewrite E in *. cbn -[load cstring Z.to_nat] in *. destruct (Z.to_nat (f_data_size f)) as [|k] eqn:Ek; [done|].
    destruct (load m a 1) as [l|] eqn:El; [|done]. cbn in Hc. injection Hc as Hc. apply Z.eqb_eq in Hc.
    destruct (load_head m a 1 _ ltac:(lia) El) as (c & l' & -> & Hm). change (znth (c :: l') 0) with c in Hc. subst c.
    rewrite (cstring_zero m a) in Hv by (done || lia). destruct (load_head m' b (S k) _ ltac:(lia) Hd) as (c & l2 & [= <- _] & Hm').
    rewrite (cstring_zero m' b) by (done || lia). exact Hv.
  - rewrite E in *. destruct (item_submessage tables _ _ _ Hit E) as [_ Hf]. cbn -[pb_field_iter_begin] in *. destruct fc as [|fc]; [done|].
    destruct (pb_field_iter_begin tables (f_ptr f) a) as [it ok] eqn:Eb. destruct ok.
    + eapply Hsub; [exact Hf|done|done| |exact Hv|exact Hd]. rewrite Eb. exact Hc.
    + pose proof (fits_no_end tables _ _ _ Hf) as Hne. pose proof (begin_at tables _ a Hne) as Hat. rewrite Eb in Hat.
      assert (Hnil : tables (f_ptr f) = []).
      { destruct (tables (f_ptr f)) as [|g l] eqn:Et; [done|]. unfold pb_field_iter_begin, field_at in Eb. rewrite Et in Eb.
        unfold no_end in Hne. rewrite Et in Hne. apply Forall_cons in Hne as [Hg _]. injection Eb as _ Eb. apply negb_false_iff, Z.eqb_eq in Eb. done. }
      destruct n as [|n']; [done|]. cbn [msg_at] in *. rewrite Hnil in *. exact Hv.
  - rewrite E in *. cbn -[load Z.to_nat] in *. injection Hc as Hc. apply Z.eqb_eq in Hc. rewrite Hc in *. exact Hv.
Qed.

Lemma check_slot n fc x y c : member_fits tables n x -> tidy_at tables n x -> x.1.1 = y.1.1 -> y.2 = y.1.2 + f_size_offset y.1.1 ->
  (forall t size fc p q v, fits tables n t size = true -> tidy tables n t = true ->
     default_loop tables (pb_check_proto3_default_value tables m fc) (length (tables t)) (fst (pb_field_iter_begin tables t p)) = Some true ->
     msg_at tables m n t p = Some v -> default_msg tables m' n t q -> msg_at tables m' n t q = Some v) ->
  pb_check_proto3_default_value tables m fc x.1.1 x.1.2 = Some true ->
  member_at m (msg_at tables m n) x = Some c -> default_slot m' (default_msg tables m' n) y -> member_at m' (msg_at tables m' n) y = Some c.
Proof.
  destruct x as [[f a] z], y as [[f' b] z']. cbn [fst snd]. intros Hf [Ht Hz Hex Hsb Hop Hrep Hone _] <- Hz' Hsub Hc Hm Hd. cbn [fst snd] in *.
  assert (Hva : (z =? a) = (f_size_offset f =? 0)) by (destruct (Z.eqb_spec z a), (Z.eqb_spec (f_size_offset f) 0); (done || lia)).
  assert (Hvb : (z' =? b) = (f_size_offset f =? 0)) by (destruct (Z.eqb_spec z' b), (Z.eqb_spec (f_size_offset f) 0); (done || lia)).
  unfold member_at, default_slot in *. rewrite Hva in Hm. rewrite Hvb in Hd |- *.
  destruct (decide (PB_HTYPE (f_type f) = PB_HTYPE_OPTIONAL /\ f_size_offset f = 0)) as [[Ho E0]|Hno].
  - rewrite Ho, E0 in *. cbn [Z.eqb Pos.eqb PB_HTYPE_OPTIONAL PB_HTYPE_REQUIRED] in *.
    destruct (value_at m _ f a) as [v|] eqn:Ev; [|done].
    erewrite (check_value n fc f a b); [exact Hm| | | | | |exact Hc|exact Hd|exact Ev]; try done.
    intros t size fc' p q v' Hft -> Es. eapply Hsub; [exact Hft|by apply Hsb].
  - destruct (check_other fc f a (proj1 (proj2 Hf)) (fun Ho E0 => Hno (conj Ho E0)) Hc) as [(H & l & Hl & Hb)|[(H & Hne & Hl)|(H & Hl)]];
      rewrite H in *; rewrite <- Hz in Hl; cbn [Z.eqb Pos.eqb PB_HTYPE_OPTIONAL PB_HTYPE_REQUIRED PB_HTYPE_REPEATED PB_HTYPE_ONEOF] in *.
    + destruct (Z.eqb_spec (f_size_offset f) 0); [naive_solver|]. destruct Hd as [Hd _].
      rewrite Hl in Hm. cbn [mbind option_bind] in Hm. rewrite Hb in Hm. rewrite Hd. exact Hm.
    + destruct (Z.eqb_spec (f_size_offset f) 0); [done|]. rewrite Hl in Hm. rewrite Hd. exact Hm.
    + rewrite Hl in Hm. rewrite Hd. cbn [mbind option_bind] in *. destruct (Z.eqb_spec 0 (f_tag f)); [lia|exact Hm].
Qed.

(** A submessage that the encoder leaves out. *)
Lemma check_msg n : forall t size fc p q v, fits tables n t size = true -> tidy tables n t = true ->
  default_loop tables (pb_check_proto3_default_value tables m fc) (length (tables t)) (fst (pb_field_iter_begin tables t p)) = Some true ->
  msg_at tables m n t p = Some v -> default_msg tables m' n t q -> msg_at tables m' n t q = Some v.
Proof.
  induction n as [|n IH]; intros t size fc p q v Hf Ht Hd Hv Hq; [done|]. cbn [msg_at default_msg] in *.
  apply fmap_Some in Hv as (l & Hl & ->). apply fmap_Some. exists l. split; [|done].
  assert (Hn : no_end tables t) by by eapply fits_no_end.
  apply mapM_Some in Hl. apply mapM_Some. rewrite Forall_lookup in Hq. rewrite (slots_move tables t p q) in Hq |- *.
  apply Forall2_fmap_l, Forall2_lookup. intros i. pose proof (proj1 (Forall2_lookup _ _ _) Hl i) as Hi.
  inversion Hi as [x c Hc Ex Ec|Ex Ec]; constructor. symmetry in Ex.
  destruct (slot_fits_at tables tables_ok _ _ _ _ _ _ Hf Ex) as [Hmf _].
  pose proof (tidy_slot_at tables _ _ _ _ _ Ht Ex) as Hta.
  apply (check_slot n fc x _ c); [done..| |exact IH| |exact Hc|].
  - unfold shift. cbn [fst snd]. rewrite (ta_cell _ _ _ Hta). lia.
  - eapply default_loop_all; [exact Hn|by apply begin_at|exact Hd| |exact Ex]. cbn. lia.
  - apply (Hq i). rewrite list_lookup_fmap, Ex. done.
Qed.
End check.

(** ** Setting a struct to its defaults *)

Section set.
Context {U : Type}.
#[local] Abbreviation D := (M (dec U)).

(** A call that changes memory only in [P], and nothing of the heap, the local
    variable and the stream. *)
Definition quiet (P : Z -> Prop) (s s' : dec U) : Prop :=
  frame P (d_mem s) (d_mem s') /\ d_blocks s' = d_blocks s /\ fixed_count_size s' = fixed_count_size s /\ d_stream s' = d_stream s.

#[export] Instance quiet_refl P : Reflexive (quiet P).
Proof. intros s. done. Qed.
#[export] Instance quiet_trans P : Transitive (quiet P).
Proof. intros s1 s2 s3 (F1 & B1 & C1 & S1) (F2 & B2 & C2 & S2). split; [by etransitivity|]. split_and!; congruence. Qed.
Lemma quiet_mono (P Q : Z -> Prop) s s' : quiet P s s' -> (forall p, P p -> Q p) -> quiet Q s s'.
Proof. intros (F & H) HPQ. split; [by eapply frame_mono|done]. Qed.

Lemma store_wp a l s : mapped (d_mem s) a (a + zlen l) -> bytes_ok l ->
  wp (store_bytes a l) (fun _ s' => quiet (fun p => a <= p < a + zlen l) s s' /\ load (d_mem s') a (length l) = Some l) s.
Proof.
  intros Hm Hl. destruct (store_ok l (d_mem s) a Hm Hl) as (m' & E & W). unfold store_bytes, wp. rewrite E. eexists _, _. split; [reflexivity|].
  split; [|by eapply store_load]. split; [by apply within_frame|done].
Qed.

Lemma store_size_wp z v s : 0 <= v < 2 ^ 32 -> mapped (d_mem s) z (z + 4) ->
  wp (store_size (InStruct z) v) (fun _ s' => quiet (fun p => z <= p < z + 4) s s' /\ load_u32 (d_mem s') z = Some v) s.
Proof.
  intros Hv Hm. cbn [store_size]. eapply wp_mono; [apply store_wp; [by rewrite zlen_le_bytes|apply le_bytes_ok]|].
  rewrite zlen_le_bytes. intros _ s' [Hq Hl]. split; [exact Hq|]. unfold load_u32. rewrite length_le_bytes in Hl. rewrite Hl. cbn [fmap option_fmap option_map].
  f_equal. rewrite le_val_le_bytes. change (256 ^ Z.of_nat 4) with (2 ^ 32). by apply Z.mod_small.
Qed.

(** The memory that a member needs. *)
Definition slot_mapped (m : mem) (x : pb_field * Z * Z) : Prop := forall p, in_slot x p -> exists b, m !! p = Some b /\ is_byte b.

(** Defaults of a submessage. *)
Definition sets_defaults (n : nat) : Prop := forall t size p s, fits tables n t size = true -> tidy tables n t = true ->
  mapped (d_mem s) p (p + size) -> defaults_ok tables (d_mem s) ->
  wp (for_fields tables (pb_field_set_to_default tables n) t p)
    (fun _ s' => quiet (fun q => p <= q < p + size) s s' /\ default_msg tables (d_mem s') n t p) s.

Lemma init_data_wp n f a s : sets_defaults n -> field_ok f -> item_fits (fits tables n) f (f_data_size f) = true ->
  (PB_LTYPE (f_type f) = PB_LTYPE_SUBMESSAGE -> tidy tables n (f_ptr f) = true) -> (exists t, f ∈ tables t) ->
  mapped (d_mem s) a (a + f_data_size f) -> defaults_ok tables (d_mem s) ->
  wp (if PB_LTYPE (f_type f) =? PB_LTYPE_SUBMESSAGE then for_fields tables (pb_field_set_to_default tables n) (f_ptr f) a
      else if negb (f_ptr f =? 0) then let* l := load_bytes (f_ptr f) (Z.to_nat (f_data_size f)) in store_bytes a l
      else memset_zero a (f_data_size f))
    (fun _ s' => quiet (fun p => a <= p < a + f_data_size f) s s' /\
       (PB_LTYPE (f_type f) = PB_LTYPE_SUBMESSAGE -> default_msg tables (d_mem s') n (f_ptr f) a) /\
       (f_ptr f = 0 \/ PB_LTYPE (f_type f) = PB_LTYPE_SUBMESSAGE -> default_data (d_mem s') (default_msg tables (d_mem s') n) f a)) s.
Proof.
  intros IH (_ & Hds & _) Hit Hsub [t Ht] Hm Hd. unfold default_data.
  destruct (Z.eqb_spec (PB_LTYPE (f_type f)) PB_LTYPE_SUBMESSAGE) as [E|Ne].
  - destruct (item_submessage tables _ _ _ Hit E) as [_ Hf].
    eapply wp_mono; [apply (IH _ _ a _ Hf); [by apply Hsub|done|done]|]. intros [] s' [Hq Hdm]. done.
  - destruct (Z.eqb_spec (f_ptr f) 0) as [E0|N0]; cbn [negb].
    + eapply wp_mono; [apply store_wp|]; rewrite ?zlen_replicate, ?Z2Nat.id by lia; [done| |].
      * apply Forall_replicate. unfold is_byte. lia.
      * intros [] s' [Hq Hl]. rewrite length_replicate in Hl. split_and!; [exact Hq|done|]. intros _. exact Hl.
    + destruct (load_ok (d_mem s) (f_ptr f) (Z.to_nat (f_data_size f))) as (l & El & Hz & Hok).
      { rewrite Z2Nat.id by lia. by apply (Hd t). }
      apply wp_bind. exists l, s. unfold load_bytes. rewrite El. split; [done|]. rewrite Z2Nat.id in Hz by lia.
      eapply wp_mono; [apply store_wp; [by rewrite Hz|done]|]. rewrite Hz. intros [] s' [Hq _].
      split_and!; [exact Hq|done|]. intros [?|?]; done.
Qed.

Lemma defaults_frame P m m' : frame P m m' -> defaults_ok tables m -> defaults_ok tables m'.
Proof. intros Hfr H t f Hf Hp Hl. eapply frame_mapped; [exact Hfr|]. by apply (H t). Qed.

Lemma default_field_wp n it z s : let x := (pos tables it, pData it, z) in pSize it = InStruct z ->
  member_fits tables n x -> tidy_at tables n x -> slot_mapped (d_mem s) x -> defaults_ok tables (d_mem s) ->
  (exists t, pos tables it ∈ tables t) -> sets_defaults n ->
  wp (pb_field_set_to_default tables (S n) it)
    (fun _ s' => quiet (in_slot x) s s' /\ default_slot (d_mem s') (default_msg tables (d_mem s') n) x) s.
Proof.
  intros x Hz (Hok & Hst & Hit) Hta Hm Hdef Ht IH. unfold x in *. cbn [fst snd] in *. cbn [pb_field_set_to_default].
  set (f := pos tables it) in *. set (a := pData it) in *. pose proof Hok as (_ & Hds & Has).
  destruct (Z.eqb_spec (PB_LTYPE (f_type f)) PB_LTYPE_EXTENSION) as [E|_]; [unfold item_fits in Hit; rewrite E in Hit; done|].
  rewrite Hst. cbn [Z.eqb PB_ATYPE_STATIC]. unfold default_slot, size_is_data. rewrite Hz. fold a.
  unfold slot_mapped, in_slot, data_bytes, cell_bytes in *. cbn [fst snd] in *.
  assert (Hinit : forall s', frame (fun p => z <= p < z + cell_bytes (f, a, z)) (d_mem s) (d_mem s') -> PB_HTYPE (f_type f) <> PB_HTYPE_REPEATED ->
    wp (if PB_LTYPE (f_type f) =? PB_LTYPE_SUBMESSAGE then for_fields tables (pb_field_set_to_default tables n) (f_ptr f) a
      else if negb (f_ptr f =? 0) then let* l := load_bytes (f_ptr f) (Z.to_nat (f_data_size f)) in store_bytes a l
      else memset_zero a (f_data_size f))
    (fun _ s2 => quiet (fun p => a <= p < a + f_data_size f) s' s2 /\
       (PB_LTYPE (f_type f) = PB_LTYPE_SUBMESSAGE -> default_msg tables (d_mem s2) n (f_ptr f) a) /\
       (f_ptr f = 0 \/ PB_LTYPE (f_type f) = PB_LTYPE_SUBMESSAGE -> default_data (d_mem s2) (default_msg tables (d_mem s2) n) f a)) s').
  { intros s' Hfr Hnr. apply init_data_wp; try done; [apply (ta_sub _ _ _ Hta)| |by eapply defaults_frame].
    eapply frame_mapped; [exact Hfr|]. intros p Hp. apply Hm. left. apply Z.eqb_neq in Hnr. rewrite Hnr. lia. }
  destruct (htype_cases (f_type f)) as [H|[H|[H|H]]]; rewrite H in *;
    cbn [Z.eqb Pos.eqb PB_HTYPE_OPTIONAL PB_HTYPE_REQUIRED PB_HTYPE_REPEATED PB_HTYPE_ONEOF andb orb] in *.
  - apply (wp_bind (ret true)), wp_ret. eapply wp_mono; [by apply Hinit|]. intros [] s' (Hq & Hs & _). split; [|exact Hs].
    eapply quiet_mono; [exact Hq|]. in_bytes.
  - destruct (Z.eqb_spec z a) as [Ez|Nz]; cbn [negb].
    + apply (wp_bind (ret true)), wp_ret. eapply wp_mono; [by apply Hinit|]. intros [] s' (Hq & _ & Hs).
      split; [eapply quiet_mono; [exact Hq|]; in_bytes|]. apply Hs. apply (ta_optional _ _ _ Hta H Ez).
    + assert (Hzm : mapped (d_mem s) z (z + zlen [0])) by (intros p Hp; apply Hm; right; exact Hp).
      eapply wp_seq; [eapply wp_seq; [apply store_wp; [exact Hzm|by repeat constructor]|]|].
      { intros [] s1 H1. apply wp_ret with (Q := fun b s1 => b = true /\ quiet (fun p => z <= p < z + 1) s s1 /\ load (d_mem s1) z 1 = Some [0]). done. }
      intros b s1 (-> & Hq1 & Hl1). eapply wp_mono; [apply Hinit; [|done]|].
      { unfold cell_bytes. rewrite H. cbn [Z.eqb Pos.eqb PB_HTYPE_OPTIONAL PB_HTYPE_REQUIRED].
        destruct (Z.eqb_spec z a); [done|]. apply Hq1. }
      intros [] s2 (Hq2 & Hs & _). split_and!; [| |exact Hs].
      * etransitivity; (eapply quiet_mono; [first [exact Hq1|exact Hq2]|]); in_bytes.
      * rewrite (load_same (d_mem s1)); [exact Hl1|]. eapply frame_same; [apply Hq2|]. intros p Hp Hp'. cbv beta in *. eapply (ta_apart _ _ _ Hta Nz p).
        -- cbn [fst snd]. unfold data_bytes. rewrite H. cbn. lia.
        -- cbn [fst snd]. unfold cell_bytes. rewrite H. cbn. destruct (Z.eqb_spec z a); [done|lia].
  - eapply wp_seq; [eapply wp_seq; [apply store_size_wp; [lia|intros p Hp; apply Hm; by right]|]|].
    { intros [] s1 H1. apply wp_ret with (Q := fun b s1 => b = false /\ quiet (fun p => z <= p < z + 4) s s1 /\ load_u32 (d_mem s1) z = Some 0). done. }
    intros b s1 (-> & Hq1 & Hl1). apply wp_ret. split; [|by destruct (z =? a)]. eapply quiet_mono; [exact Hq1|]. in_bytes.
  - eapply wp_seq; [eapply wp_seq; [apply store_size_wp; [lia|intros p Hp; apply Hm; by right]|]|].
    { intros [] s1 H1. apply wp_ret with (Q := fun b s1 => b = false /\ quiet (fun p => z <= p < z + 4) s s1 /\ load_u32 (d_mem s1) z = Some 0). done. }
    intros b s1 (-> & Hq1 & Hl1). apply wp_ret. split; [|done]. eapply quiet_mono; [exact Hq1|]. in_bytes.
Qed.

(** A member in its default state stays so when another one is set: two members
    of a union have the same tag. *)
Lemma default_kept n t size dest i j x y m m' : fits tables (S n) t size = true -> tidy tables (S n) t = true ->
  slots (tables t) dest !! i = Some x -> slots (tables t) dest !! j = Some y -> i <> j -> frame (in_slot y) m m' ->
  default_slot m' (default_msg tables m' n) y -> default_slot m (default_msg tables m n) x -> default_slot m' (default_msg tables m' n) x.
Proof.
  intros Hf Ht Hx Hy Hij Hfr Hdy Hdx. destruct (tidy_apart tables _ _ _ _ _ _ _ Ht Hx Hy Hij) as [_ [Hs|Hs]].
  - destruct x as [[f a] z], y as [[g b] z']. unfold same_oneof in Hs. cbn [fst snd] in Hs. bool_hyps. subst z'.
    unfold default_slot in *. repeat match goal with H : PB_HTYPE _ = _ |- _ => rewrite H in * end. exact Hdy.
  - destruct (slot_fits_at tables tables_ok _ _ _ _ _ _ Hf Hx) as [Hmx _].
    eapply (default_same tables n m); [|exact Hmx| |exact Hdx].
    + intros. by eapply default_msg_same.
    + eapply frame_same; [exact Hfr|exact Hs].
Qed.

Lemma next_in_struct it : pSize it <> Local -> pSize (fst (pb_field_iter_next tables it)) <> Local.
Proof.
  intros H. unfold pb_field_iter_next. destruct (f_tag (pos tables it) =? 0); [done|]. destruct (_ =? 0); [done|].
  destruct (_ && _ && _); done.
Qed.

Definition defaults_up_to (n : nat) (m : mem) (t dest : Z) (k : nat) : Prop := forall j x, (j < k)%nat ->
  slots (tables t) dest !! j = Some x -> default_slot m (default_msg tables m n) x.

(** Setting the member under the iterator. *)
Lemma set_one_wp n t size dest it s : fits tables (S n) t size = true -> tidy tables (S n) t = true -> tables t <> [] -> sets_defaults n ->
  it_at tables t dest it -> pSize it <> Local -> mapped (d_mem s) dest (dest + size) -> defaults_ok tables (d_mem s) ->
  defaults_up_to n (d_mem s) t dest (it_pos it) ->
  wp (pb_field_set_to_default tables (S n) it)
    (fun _ s' => quiet (fun p => dest <= p < dest + size) s s' /\ defaults_up_to n (d_mem s') t dest (S (it_pos it))) s.
Proof.
  intros Hf Ht Hne IH Hi Hl Hm Hd Hdone. destruct Hi as (_ & _ & Hz). rewrite decide_False in Hz by done.
  destruct Hz as (z & Hz & [Hsz|[Hsz _]]); [|done]. destruct (slot_fits_at tables tables_ok _ _ _ _ _ _ Hf Hz) as [Hmf Hin].
  eapply wp_mono; [apply (default_field_wp n it z)|]; try done.
  - by eapply tidy_slot_at.
  - intros p Hp. apply Hm. by apply Hin.
  - exists t. apply (slots_field tables tables_ok) in Hz as [Hz _]. by eapply list_elem_of_lookup_2.
  - intros [] s' [Hq Hdef]. split; [by eapply quiet_mono|]. intros j x Hj Hx.
    destruct (decide (j = it_pos it)) as [->|]; [rewrite Hx in Hz; by simplify_eq|].
    eapply (default_kept n t size dest j (it_pos it)); [exact Hf|exact Ht|exact Hx|exact Hz|done|apply Hq|exact Hdef|].
    apply (Hdone j); [lia|done].
Qed.

Lemma set_loop_wp n t size dest : fits tables (S n) t size = true -> tidy tables (S n) t = true -> tables t <> [] -> sets_defaults n ->
  forall k it s, it_at tables t dest it -> pSize it <> Local -> (length (tables t) <= k + it_pos it)%nat ->
  mapped (d_mem s) dest (dest + size) -> defaults_ok tables (d_mem s) -> defaults_up_to n (d_mem s) t dest (it_pos it) ->
  wp (fields_loop tables (pb_field_set_to_default tables (S n)) k it)
    (fun _ s' => quiet (fun p => dest <= p < dest + size) s s' /\ defaults_up_to n (d_mem s') t dest (length (tables t))) s.
Proof.
  intros Hf Ht Hne IH. induction k as [|k IHk]; intros it s Hi Hl Hk Hm Hd Hdone; cbn [fields_loop];
    (eapply wp_seq; [by apply (set_one_wp n t size dest)|]); intros [] s1 [Hq Hdone1];
    pose proof (next_at tables t dest it ltac:(by eapply fits_no_end) Hi) as Hnx; pose proof (next_in_struct it Hl) as Hl';
    destruct (pb_field_iter_next tables it) as [it' more]; destruct Hnx as [Hi' Hmore]; cbn [fst] in Hl'; (destruct more; [destruct Hmore as [Hp Hlt]|]).
  - lia.
  - apply wp_ret. split; [done|]. intros j x Hj. apply Hdone1. lia.
  - eapply wp_mono; [apply (IHk it' s1); [done|done|lia|by eapply frame_mapped; [apply Hq|]|by eapply defaults_frame; [apply Hq|]|by rewrite Hp]|].
    intros [] s2 [Hq2 Hall]. split; [by etransitivity|exact Hall].
  - apply wp_ret. split; [done|]. intros j x Hj. apply Hdone1. lia.
Qed.

Lemma sets_defaults_all n : sets_defaults n.
Proof.
  induction n as [|n IH]; intros t size p s Hf Ht Hm Hd; [done|].
  assert (Hn : no_end tables t) by by eapply fits_no_end. pose proof (begin_at tables t p Hn) as Hi. unfold for_fields.
  destruct (pb_field_iter_begin tables t p) as [it ok] eqn:Eb. cbn [fst] in Hi. injection Eb as <- Eok.
  destruct (decide (tables t = [])) as [E|Hne].
  - unfold field_at in Eok. rewrite E in Eok. cbn in Eok. subst ok. apply wp_ret. split; [done|]. cbn [default_msg]. rewrite E. constructor.
  - assert (ok = true) as ->.
    { subst ok. unfold field_at, no_end in *. destruct (tables t) as [|f l]; [done|]. apply Forall_cons in Hn as [Hn _]. cbn.
      by destruct (Z.eqb_spec (f_tag f) 0). }
    eapply wp_mono; [apply (set_loop_wp n t size p); try done; [cbn; lia|]|].
    + intros j x Hj. cbn in Hj. lia.
    + intros [] s' [Hq Hall]. split; [done|]. cbn [default_msg]. apply Forall_lookup. intros j x Hx. apply (Hall j); [|done].
      apply (slots_field tables tables_ok) in Hx as [Hx _]. by eapply lookup_lt_Some.
Qed.
End set.
End defaults.
