(* ===== verification/PbValue.v ===== *)
(** * nanopb messages: a value comes back.

    What the encoder writes for one value of a field ([payload]), decoded into
    any place that is large enough, is the same value there ([value_at]). The
    values of submessages are a hypothesis here. *)

From stdpp Require Import strings.
From S2P Require Import Prelude PbMem PbStream PbWire PbIter PbReads PbMessage PbEncode PbDecode PbSafe PbContents PbDefaults.

(** A payload as it stands in a record or in a packed array. *)
Definition prefixed (ltype : Z) (l : list Z) : list Z := if packable ltype then l else varint (zlen l) ++ l.

Lemma zlen_varint v : 1 <= zlen (varint v).
Proof. unfold varint. pose proof (zlen_leb 9 v). lia. Qed.

(** The size of a scalar in a tidy table. *)
Section exact.
Context (lt : Z) (f : pb_field).
Hypothesis Hbool : (lt =? PB_LTYPE_BOOL) = false.
Hypothesis Hexact : scalar_exact lt (f_data_size f) = true.

Lemma exact_size : scalar_size lt (f_data_size f) = f_data_size f.
Proof.
  unfold scalar_exact, scalar_size in *. rewrite Hbool in *. destruct (_ =? PB_LTYPE_FIXED32); [bool_hyps; lia|].
  destruct (_ =? PB_LTYPE_FIXED64); [bool_hyps; lia|done].
Qed.
Lemma exact_extent : scalar_extent lt f = f_data_size f.
Proof.
  unfold scalar_exact, scalar_extent in *. rewrite Hbool in *. destruct (_ =? PB_LTYPE_FIXED32); [bool_hyps; lia|].
  destruct (_ =? PB_LTYPE_FIXED64); [bool_hyps; lia|by rewrite Hexact].
Qed.
Lemma exact_pos : 0 < f_data_size f.
Proof.
  unfold scalar_exact in *. rewrite Hbool in *. destruct (_ =? PB_LTYPE_FIXED32); [bool_hyps; lia|].
  destruct (_ =? PB_LTYPE_FIXED64); [bool_hyps; lia|]. destruct (int_sizes _ Hexact); lia.
Qed.
End exact.

(** ** Strings *)

(** The loop of the encoder stops at the terminator. *)
Lemma cstring_loop m fuel i mx : forall k p s l, cstring m k p = Some l -> s + Z.of_nat k = mx ->
  string_loop m fuel p s mx = Some i -> i = s + zlen l /\ load m p (length l) = Some l.
Proof.
  induction fuel as [|fuel IH]; intros k p s l Hc Hk Hl; (destruct k as [|k]; [done|]); cbn [cstring string_loop] in *;
    (destruct (Z.ltb_spec s mx); [|lia]); destruct (m !! p) as [c|] eqn:Ec; try done; cbn [mbind option_bind] in *;
    destruct (c =? 0); try done; try (simplify_eq; rewrite zlen_nil; split; [lia|done]).
  destruct (cstring m k (p + 1)) as [l'|] eqn:E; [|done]. cbn [mbind option_bind] in Hc. simplify_eq.
  destruct (IH k (p + 1) (s + 1) l' E ltac:(lia) Hl) as [-> Hl']. rewrite zlen_cons. split; [lia|].
  cbn [length load]. rewrite Ec. cbn. rewrite Hl'. done.
Qed.

Lemma cstring_loaded m k p l : cstring m k p = Some l -> load m p (length l) = Some l.
Proof.
  revert p l. induction k as [|k IH]; intros p l H; cbn [cstring] in H; [done|]. destruct (m !! p) as [c|] eqn:E; [|done]. cbn in H.
  destruct (c =? 0); [by simplify_eq|]. destruct (cstring m k (p + 1)) as [l'|] eqn:El; [|done]. cbn in H. simplify_eq. cbn [length load].
  rewrite E. cbn. by rewrite (IH _ _ El).
Qed.

Lemma cstring_chars m k p l : cstring m k p = Some l -> Forall (fun c => c <> 0) l /\ (length l < k)%nat.
Proof.
  revert p l. induction k as [|k IH]; intros p l H; cbn [cstring] in H; [done|]. destruct (m !! p) as [c|]; [|done]. cbn in H.
  destruct (Z.eqb_spec c 0); [simplify_eq; split; [constructor|cbn; lia]|]. destruct (cstring m k (p + 1)) as [l'|] eqn:E; [|done].
  cbn in H. simplify_eq. destruct (IH _ _ E). cbn [length]. split; [by constructor|lia].
Qed.

Lemma cstring_load m k p l : load m p (length l) = Some l -> m !! (p + zlen l) = Some 0 -> Forall (fun c => c <> 0) l ->
  (length l < k)%nat -> cstring m k p = Some l.
Proof.
  revert p k. induction l as [|c l IH]; intros p k Hl H0 Hn Hk; (destruct k as [|k]; [lia|]); cbn [cstring].
  - rewrite zlen_nil, Z.add_0_r in H0. rewrite H0. done.
  - cbn [length load] in *. destruct (m !! p) as [c'|] eqn:Ec; [|done]. cbn in Hl. destruct (load m (p + 1) (length l)) as [l'|] eqn:E; [|done].
    cbn in Hl. simplify_eq. apply Forall_cons in Hn as [Hc Hn]. cbn. destruct (Z.eqb_spec c 0); [done|].
    rewrite (IH (p + 1) k E); [done| |done|lia]. rewrite zlen_cons in H0. rewrite <- H0. f_equal. lia.
Qed.

(** ** Running decoders *)

Section values.
Context {U : Type} (user_read : U -> Z -> option (list Z) * U).
Context (tables : Z -> list pb_field).
Context (alloc : mem -> gmap Z Z -> Z -> option (Z * list Z)).
#[local] Abbreviation istream := (@pb_istream U).
#[local] Abbreviation D := (M (dec U)).
Hypothesis tables_ok : forall t, Forall field_ok (tables t).

(** A call that changes memory only in [P], and nothing of the heap and the
    local variable; the bytes [rest] of the stream are left. *)
Definition calm (P : Z -> Prop) (s s' : dec U) : Prop :=
  frame P (d_mem s) (d_mem s') /\ d_blocks s' = d_blocks s /\ fixed_count_size s' = fixed_count_size s.

#[export] Instance calm_refl P : Reflexive (calm P).
Proof. intros s. done. Qed.
#[export] Instance calm_trans P : Transitive (calm P).
Proof. intros s1 s2 s3 (F1 & B1 & C1) (F2 & B2 & C2). split; [by etransitivity|]. split; congruence. Qed.
Lemma calm_mono (P Q : Z -> Prop) s s' : calm P s s' -> (forall p, P p -> Q p) -> calm Q s s'.
Proof. intros (F & H) HPQ. split; [by eapply frame_mono|done]. Qed.
Lemma quiet_calm P s s' : quiet P s s' -> calm P s s'.
Proof. intros (F & B & C & _). done. Qed.

Lemma on_stream_wp {A} (m : M istream A) (o : option A) st (Q : option A -> dec U -> Prop) s : m (d_stream s) = (o, st) ->
  Q o (Dec (d_mem s) (d_blocks s) (fixed_count_size s) st) -> wp (on_stream m) Q s.
Proof. intros E H. unfold wp, on_stream. rewrite E. eexists _, _. split; [reflexivity|done]. Qed.

(** [if (!m) return false; k(a)] when [m] delivers [a]. *)
Lemma or_false_wp {A} (m : M istream A) (a : A) st (k : A -> D bool) Q s : m (d_stream s) = (Some a, st) ->
  wp (k a) Q (Dec (d_mem s) (d_blocks s) (fixed_count_size s) st) -> wp (or_false (on_stream m) k) Q s.
Proof. intros E H. unfold or_false. apply wp_bind. eapply on_stream_wp; [exact E|]. exact H. Qed.

Lemma with_stream_wp {A} sub (m : D A) (Q : A * istream -> dec U -> Prop) s :
  wp m (fun a s' => Q (a, d_stream s') (Dec (d_mem s') (d_blocks s') (fixed_count_size s') (d_stream s)))
    (Dec (d_mem s) (d_blocks s) (fixed_count_size s) sub) -> wp (with_stream sub m) Q s.
Proof. intros (a & s' & E & H). unfold wp, with_stream. rewrite E. eexists _, _. split; [reflexivity|done]. Qed.

(** Substreams of a buffer. *)
Definition parent (d rest tail : list Z) e : istream := IStream (IBuf (d ++ rest ++ tail)) (zlen rest) e.

Lemma make_substream d rest tail e : zlen d < 2 ^ 32 ->
  pb_make_string_substream user_read (buf_in ((varint (zlen d) ++ d) ++ rest) tail e) =
    (Some (buf_in d (rest ++ tail) e), parent d rest tail e).
Proof.
  intros Hd. pose proof (zlen_nonneg d). pose proof (zlen_nonneg rest). unfold pb_make_string_substream, bind, getst, putst, ret.
  rewrite <- app_assoc, decode_varint32_varint by done. unfold buf_in. cbn [bytes_left is_callback is_errmsg]. rewrite zlen_app.
  destruct (Z.ltb_spec (zlen d + zlen rest) (zlen d)); [lia|]. unfold parent. rewrite <- app_assoc. do 2 f_equal. lia.
Qed.

Lemma close_substream d rest tail e : pb_close_string_substream user_read (buf_in [] (rest ++ tail) e) (parent d rest tail e) =
  (Some tt, buf_in rest tail e).
Proof. reflexivity. Qed.

(** Work on a length-delimited value that reads all of it. *)
Lemma substream_wp d rest tail e (m : D bool) P Q s : zlen d < 2 ^ 32 ->
  d_stream s = buf_in ((varint (zlen d) ++ d) ++ rest) tail e ->
  wp m (fun b s' => b = true /\ d_stream s' = buf_in [] (rest ++ tail) e /\ calm P s s' /\ Q (d_mem s'))
    (Dec (d_mem s) (d_blocks s) (fixed_count_size s) (buf_in d (rest ++ tail) e)) ->
  wp (or_false (on_stream (pb_make_string_substream user_read)) (fun sub =>
        let* '(status, sub) := with_stream sub m in
        and_then (succeeds (on_stream (pb_close_string_substream user_read sub))) (ret status)))
     (fun b s' => b = true /\ d_stream s' = buf_in rest tail e /\ calm P s s' /\ Q (d_mem s')) s.
Proof.
  intros Hd Hs (b & s1 & E & -> & Hs1 & Hc & HQ). eapply or_false_wp; [rewrite Hs; by apply make_substream|].
  apply wp_bind, with_stream_wp. cbn [d_mem d_blocks fixed_count_size d_stream]. exists true, s1. split; [exact E|].
  rewrite Hs1. unfold and_then, succeeds. apply wp_bind. eapply or_false_wp; [apply (close_substream d)|].
  apply wp_ret, wp_ret. cbn [d_mem d_blocks fixed_count_size d_stream]. done.
Qed.

(** ** One value *)

Section one.
Context (n : nat) (m : mem) (decode decode_noinit : Z -> Z -> D bool).
Context (sub_wire : Z -> Z -> outcome (list Z)) (sub_val : Z -> Z -> option value).
Hypothesis bytes_in_mem : mem_ok m.

(** A submessage comes back; [pre]: what the struct is before. *)
Definition sub_decodes (pre : mem -> Z -> Z -> Prop) (dec : Z -> Z -> D bool) : Prop := forall t size p q v d tail e s,
  fits tables n t size = true -> tidy tables n t = true -> 0 < p -> sub_wire t p = Done d -> sub_val t p = Some v -> zlen d < 2 ^ 32 ->
  mapped (d_mem s) q (q + size) -> defaults_ok tables (d_mem s) -> pre (d_mem s) t q -> d_stream s = buf_in d tail e ->
  wp (dec t q) (fun b s' => b = true /\ d_stream s' = buf_in [] tail e /\ calm (fun x => q <= x < q + size) s s' /\
    msg_at tables (d_mem s') n t q = Some v) s.
Hypothesis noinit_decodes : sub_decodes (fun m' t q => default_msg tables m' n t q) decode_noinit.
Hypothesis decode_decodes : sub_decodes (fun _ _ _ => True) decode.

#[local] Abbreviation call := (call_decoder user_read alloc decode decode_noinit).
#[local] Abbreviation val m' := (value_at m' (msg_at tables m' n)).

(** The value [v] of a field of type [f] is read into [q]; the bytes [rest] stay. *)
Definition value_read (f : pb_field) (q : Z) (rest tail : list Z) e (v : value) (s : dec U) (b : bool) (s' : dec U) : Prop :=
  b = true /\ d_stream s' = buf_in rest tail e /\ calm (fun x => q <= x < q + f_data_size f) s s' /\ val (d_mem s') f q = Some v.

Lemma store_mapped_wp q ds l (s : dec U) : mapped (d_mem s) q (q + ds) -> zlen l <= ds -> bytes_ok l ->
  wp (store_bytes q l) (fun _ s' => quiet (fun x => q <= x < q + ds) s s' /\ load (d_mem s') q (length l) = Some l) s.
Proof.
  intros Hm Hl Hb. eapply wp_mono; [apply store_wp; [|done]|].
  - eapply mapped_mono; [exact Hm|lia..].
  - intros [] s' [Hq Hld]. split; [|done]. eapply quiet_mono; [exact Hq|]. in_bytes.
Qed.

Lemma scalar_read func f q src rest tail e wire_src v s : func f (buf_in (wire_src ++ rest) tail e) = (Some (src, true), buf_in rest tail e) ->
  d_stream s = buf_in (wire_src ++ rest) tail e -> mapped (d_mem s) q (q + f_data_size f) -> zlen src <= f_data_size f -> bytes_ok src ->
  (forall m', load m' q (length src) = Some src -> val m' f q = Some v) ->
  wp (dec_scalar func f q) (value_read f q rest tail e v s) s.
Proof.
  intros Hf Hs Hm Hz Hb Hv. unfold dec_scalar. eapply or_false_wp; [rewrite Hs; exact Hf|]. cbv beta iota.
  eapply wp_seq; [by eapply store_mapped_wp|]. intros [] s1 [Hq Hl]. apply wp_ret. split; [done|].
  destruct Hq as (Hfr & Hb1 & Hc1 & Hs1). split; [exact Hs1|]. split; [done|by apply Hv].
Qed.

Lemma call_scalar f q : packable (PB_LTYPE (f_type f)) = true ->
  exists func, PB_DECODERS user_read (PB_LTYPE (f_type f)) = Some func /\ call f q = dec_scalar func f q.
Proof.
  intros Hp. apply (scalar_packable user_read) in Hp as [func E]. exists func. split; [done|]. unfold call_decoder, pb_decoder. rewrite E. done.
Qed.

Lemma call_other f : packable (PB_LTYPE (f_type f)) = false -> PB_DECODERS user_read (PB_LTYPE (f_type f)) = None.
Proof.
  intros Hp. destruct (PB_DECODERS user_read (PB_LTYPE (f_type f))) as [func|] eqn:E; [|done].
  assert (packable (PB_LTYPE (f_type f)) = true) by (apply (scalar_packable user_read); by exists func). congruence.
Qed.

Lemma read_bool f p q l v rest tail e s : PB_LTYPE (f_type f) = PB_LTYPE_BOOL -> f_data_size f = 1 ->
  payload m sub_wire f p = Done l -> value_at m sub_val f p = Some v ->
  d_stream s = buf_in (l ++ rest) tail e -> mapped (d_mem s) q (q + f_data_size f) ->
  wp (call f q) (value_read f q rest tail e v s) s.
Proof.
  intros E Hds Hl Hv Hs Hm. destruct (call_scalar f q) as (func & Ef & ->); [by rewrite E|]. unfold payload, value_at in Hl, Hv.
  rewrite E in *. unfold scalar_extent in Hl. cbn -[load Z.to_nat] in Hl, Hv. change (Z.to_nat 1) with 1%nat in Hl.
  destruct (load m p 1) as [l0|] eqn:El; [|done]. cbn in Hl, Hv. rewrite (proj2 (PbEncode.load_bytes _ _ _ _ bytes_in_mem El)) in Hl.
  change (Z.of_nat 1 =? 0) with false in Hl. cbv iota in Hl. simplify_eq. set (b := if znth l0 0 =? 0 then 0 else 1) in *.
  assert (Hb : b = 0 \/ b = 1) by (unfold b; destruct (_ =? 0); auto).
  assert (Hbok : bytes_ok [b]) by (repeat constructor; lia).
  assert (Hw : [b] = scalar_wire PB_LTYPE_BOOL [b]) by (destruct Hb as [-> | ->]; done).
  eapply (scalar_read func f q [b]); [|exact Hs|done|rewrite Hds; done|done|].
  - pose proof (fun H => scalar_decodes user_read PB_LTYPE_BOOL f [b] func rest tail e H Ef) as G. rewrite <- Hw in G. apply G.
    split; [done|]. split; [by rewrite Hds|]. left. split; [done|]. destruct Hb as [-> | ->]; auto.
  - intros m' Hl'. unfold value_at. rewrite E. change (length [b]) with 1%nat in Hl'. cbn -[load]. rewrite Hl'. cbn.
    destruct Hb as [-> | ->]; done.
Qed.

Lemma read_int_field f p q l v rest tail e s : let ltype := PB_LTYPE (f_type f) in packable ltype = true -> (ltype =? PB_LTYPE_BOOL) = false ->
  field_ok f -> scalar_exact ltype (f_data_size f) = true -> payload m sub_wire f p = Done l -> value_at m sub_val f p = Some v ->
  d_stream s = buf_in (l ++ rest) tail e -> mapped (d_mem s) q (q + f_data_size f) ->
  wp (call f q) (value_read f q rest tail e v s) s.
Proof.
  intros ltype Hp Eb (_ & Hds & _) Hex Hl Hv Hs Hm. destruct (call_scalar f q Hp) as (func & Ef & ->). unfold payload, value_at in Hl, Hv.
  fold ltype in Hl, Hv, Ef. rewrite Hp in Hl. rewrite Eb, Hp in Hv.
  pose proof (exact_size _ _ Eb Hex) as Es1. pose proof (exact_extent _ _ Eb Hex) as Es2. pose proof (exact_pos _ _ Eb Hex) as Hpos.
  rewrite Es1 in Hv. rewrite Es2 in Hl. destruct (load m p _) as [src|] eqn:El; [|done]. cbn in Hl, Hv. simplify_eq.
  destruct (PbEncode.load_bytes _ _ _ _ bytes_in_mem El) as [Hb Hz]. rewrite Z2Nat.id in Hz by lia.
  rewrite Hz in Hl. destruct (Z.eqb_spec (f_data_size f) 0); [lia|]. simplify_eq. unfold scalar_payload in *. rewrite Eb in *.
  eapply (scalar_read func f q src); [|exact Hs|done|by rewrite Hz|done|].
  - apply (scalar_decodes user_read ltype); [|done]. split; [done|]. split; [done|]. right.
    unfold PB_DECODERS in Ef. unfold scalar_exact in Hex. rewrite Eb in Ef, Hex. rewrite Hz.
    destruct (Z.eqb_spec ltype PB_LTYPE_FIXED32) as [->|_]; [right; left; bool_hyps; done|].
    destruct (Z.eqb_spec ltype PB_LTYPE_FIXED64) as [->|_]; [right; right; bool_hyps; done|]. left. split; [|done].
    repeat case_match; bool_hyps; tauto || done.
  - intros m' Hl'. unfold value_at. fold ltype. rewrite Eb, Hp, Es1. replace (Z.to_nat (f_data_size f)) with (length src) by (unfold zlen in Hz; lia).
    rewrite Hl'. done.
Qed.

Lemma read_fixed_bytes f p q l v rest tail e s : PB_LTYPE (f_type f) = PB_LTYPE_FIXED_LENGTH_BYTES -> field_ok f ->
  payload m sub_wire f p = Done l -> value_at m sub_val f p = Some v ->
  d_stream s = buf_in ((varint (zlen l) ++ l) ++ rest) tail e -> mapped (d_mem s) q (q + f_data_size f) ->
  wp (call f q) (value_read f q rest tail e v s) s.
Proof.
  intros E (_ & Hds & _) Hl Hv Hs Hm. unfold call_decoder, pb_decoder. rewrite (call_other f) by (by rewrite E).
  unfold payload, value_at in Hl, Hv. rewrite E in *. cbn -[load Z.to_nat] in Hl, Hv |- *.
  destruct (load m p _) as [src|] eqn:El; [|done]. cbn in Hl, Hv. simplify_eq.
  destruct (PbEncode.load_bytes _ _ _ _ bytes_in_mem El) as [Hb Hz]. rewrite Z2Nat.id in Hz by lia.
  eapply (scalar_read _ f q l); [|exact Hs|done|by rewrite Hz|done|].
  - unfold pb_dec_fixed_length_bytes, bind. rewrite <- app_assoc, decode_varint32_varint by lia. rewrite Z.gtb_ltb.
    destruct (Z.ltb_spec PB_SIZE_MAX (zlen l)); [unfold PB_SIZE_MAX in *; lia|]. destruct (Z.eqb_spec (zlen l) 0) as [E0|].
    + rewrite <- Hz, E0. apply zlen_zero in E0 as ->. done.
    + rewrite Hz, Z.eqb_refl. cbn [negb]. rewrite (read_app user_read) by done. done.
  - intros m' Hl'. unfold value_at. rewrite E. cbn -[load Z.to_nat]. replace (Z.to_nat (f_data_size f)) with (length l) by (unfold zlen in Hz; lia).
    rewrite Hl'. done.
Qed.

Lemma read_bytes_field f p q l v rest tail e s : PB_LTYPE (f_type f) = PB_LTYPE_BYTES -> PB_ATYPE (f_type f) = PB_ATYPE_STATIC ->
  field_ok f -> 0 < p -> payload m sub_wire f p = Done l -> value_at m sub_val f p = Some v ->
  d_stream s = buf_in ((varint (zlen l) ++ l) ++ rest) tail e -> mapped (d_mem s) q (q + f_data_size f) ->
  wp (call f q) (value_read f q rest tail e v s) s.
Proof.
  intros E Hst (_ & Hds & _) H0 Hl Hv Hs Hm. unfold call_decoder, pb_decoder. rewrite (call_other f) by (by rewrite E).
  unfold payload, value_at in Hl, Hv. rewrite E in *. cbn -[load load_u32 Z.to_nat] in Hl, Hv |- *.
  destruct (Z.eqb_spec p 0); [lia|]. unfold bytes_offset in *. destruct (Z.leb_spec 4 (f_data_size f)); [|done].
  destruct (load_u32 m p) as [k|] eqn:Ek; [|done]. cbn -[load Z.to_nat] in Hl, Hv. pose proof (load_u32_range _ _ _ bytes_in_mem Ek).
  destruct (Z.leb_spec (k + 4) (f_data_size f)); [|done]. rewrite Z.gtb_ltb in Hl.
  destruct (Z.ltb_spec (f_data_size f) (k + 4)); [lia|]. rewrite andb_false_r in Hl.
  destruct (load m (p + 4) _) as [src|] eqn:El; [|done]. cbn in Hl, Hv. simplify_eq.
  destruct (PbEncode.load_bytes _ _ _ _ bytes_in_mem El) as [Hb Hz]. rewrite Z2Nat.id in Hz by lia.
  unfold pb_dec_bytes. eapply or_false_wp; [rewrite Hs, <- app_assoc; by apply decode_varint32_varint; lia|].
  unfold PB_BYTES_ARRAY_T_ALLOCSIZE, bytes_offset. rewrite size_t_small, !Z.gtb_ltb by lia. rewrite Hst. cbn [Z.eqb PB_ATYPE_STATIC PB_ATYPE_POINTER].
  destruct (Z.ltb_spec PB_SIZE_MAX (zlen l)); [unfold PB_SIZE_MAX in *; lia|]. destruct (Z.ltb_spec (zlen l + 4) (zlen l)); [lia|].
  destruct (Z.ltb_spec (f_data_size f) (zlen l + 4)); [lia|].
  eapply wp_seq; [apply (store_mapped_wp q (f_data_size f)); [exact Hm|rewrite zlen_le_bytes; lia|apply le_bytes_ok]|].
  intros [] s1 ((Hf1 & Hb1 & Hc1 & Hs1) & Hl1). cbn [d_mem d_blocks fixed_count_size d_stream] in *.
  eapply or_false_wp; [rewrite Hs1; by apply read_app|].
  eapply wp_seq; [apply store_wp; [|done]|].
  { cbn [d_mem]. eapply mapped_mono; [eapply frame_mapped; [exact Hf1|exact Hm]|lia..]. }
  intros [] s2 ((Hf2 & Hb2 & Hc2 & Hs2) & Hl2). apply wp_ret. cbn [d_mem d_blocks fixed_count_size d_stream] in *.
  split; [done|]. split; [exact Hs2|]. split; [split|].
  - etransitivity; [exact Hf1|]. eapply frame_mono; [exact Hf2|]. in_bytes.
  - split; congruence.
  - unfold value_at. rewrite E. cbn -[load load_u32 Z.to_nat]. unfold bytes_offset. destruct (Z.leb_spec 4 (f_data_size f)); [|lia].
    rewrite length_le_bytes in Hl1. unfold load_u32. rewrite (load_same (d_mem s1) (d_mem s2) q 4), Hl1 by (eapply frame_same; [exact Hf2|in_bytes]).
    cbn -[load Z.to_nat le_bytes le_val]. rewrite le_val_le_bytes, Z.mod_small by (change (256 ^ Z.of_nat 4) with (2 ^ 32); lia).
    destruct (Z.leb_spec (zlen l + 4) (f_data_size f)); [|lia]. replace (Z.to_nat (zlen l)) with (length l) by (unfold zlen; lia). rewrite Hl2. done.
Qed.

Lemma read_string_field f p q l v rest tail e s : PB_LTYPE (f_type f) = PB_LTYPE_STRING -> PB_ATYPE (f_type f) = PB_ATYPE_STATIC ->
  field_ok f -> 0 < p -> payload m sub_wire f p = Done l -> value_at m sub_val f p = Some v ->
  d_stream s = buf_in ((varint (zlen l) ++ l) ++ rest) tail e -> mapped (d_mem s) q (q + f_data_size f) ->
  wp (call f q) (value_read f q rest tail e v s) s.
Proof.
  intros E Hst (_ & Hds & _) H0 Hl Hv Hs Hm. unfold call_decoder, pb_decoder. rewrite (call_other f) by (by rewrite E).
  unfold payload, value_at in Hl, Hv. rewrite E, ?Hst in *. cbn -[load cstring string_loop Z.to_nat size] in Hl, Hv |- *.
  destruct (Z.eqb_spec p 0); [lia|]. destruct (cstring m _ p) as [c|] eqn:Ec; [|done]. cbn in Hv. simplify_eq.
  destruct (string_loop _ _ _ _ _) as [k|] eqn:Ek; [|done]. cbn -[load Z.to_nat] in Hl.
  destruct (cstring_loop m _ k (f_data_size f) _ p 0 c Ec ltac:(lia) Ek) as [-> El]. destruct (cstring_chars _ _ _ _ Ec) as [Hc0 Hcn].
  replace (Z.to_nat (0 + zlen c)) with (length c) in Hl by (unfold zlen; lia). rewrite El in Hl. cbn in Hl. simplify_eq.
  destruct (PbEncode.load_bytes _ _ _ _ bytes_in_mem El) as [Hb _]. assert (Hz : zlen l + 1 <= f_data_size f) by (unfold zlen; lia).
  pose proof (zlen_nonneg l).
  unfold pb_dec_string. eapply or_false_wp; [rewrite Hs, <- app_assoc; by apply decode_varint32_varint; lia|].
  rewrite Hst. cbn [Z.eqb PB_ATYPE_STATIC PB_ATYPE_POINTER]. rewrite Z.gtb_ltb.
  rewrite (u32_small (zlen l + 1)) by lia. destruct (Z.ltb_spec (zlen l + 1) (zlen l)); [lia|].
  destruct (Z.ltb_spec (f_data_size f) (zlen l + 1)); [lia|].
  apply wp_bind. eapply on_stream_wp; [apply read_app; done|]. cbn [d_mem d_blocks fixed_count_size d_stream].
  eapply wp_seq; [apply (store_mapped_wp q (f_data_size f)); [exact Hm|lia|done]|].
  intros [] s1 ((Hf1 & Hb1 & Hc1 & Hs1) & Hl1). cbn [d_mem d_blocks fixed_count_size d_stream] in *.
  eapply wp_seq; [apply (store_wp (q + zlen l) [0]); [|by repeat constructor]|].
  { rewrite zlen_cons, zlen_nil. eapply mapped_mono; [eapply frame_mapped; [exact Hf1|exact Hm]|lia..]. }
  intros [] s2 ((Hf2 & Hb2 & Hc2 & Hs2) & Hl2). apply wp_ret. cbn [d_mem d_blocks fixed_count_size d_stream] in *.
  rewrite zlen_cons, zlen_nil in Hf2. split; [done|]. split; [by rewrite Hs2|]. split; [split|].
  - etransitivity; [exact Hf1|]. eapply frame_mono; [exact Hf2|]. in_bytes.
  - split; congruence.
  - unfold value_at. rewrite E. cbn -[cstring Z.to_nat]. rewrite (cstring_load _ _ _ l); [done| | |done|unfold zlen in Hz; lia].
    + rewrite (load_same (d_mem s1)); [exact Hl1|]. eapply frame_same; [exact Hf2|]. unfold zlen. in_bytes.
    + apply (load_head _ _ 1) in Hl2 as (b & l' & [= <- _] & Hb'); [done|lia].
Qed.

Lemma read_submessage f p q l v rest tail e s : PB_LTYPE (f_type f) = PB_LTYPE_SUBMESSAGE ->
  item_fits (fits tables n) f (f_data_size f) = true -> tidy tables n (f_ptr f) = true -> 0 < p -> zlen l < 2 ^ 32 ->
  payload m sub_wire f p = Done l -> value_at m sub_val f p = Some v ->
  (PB_HTYPE (f_type f) <> PB_HTYPE_REPEATED -> default_msg tables (d_mem s) n (f_ptr f) q) -> defaults_ok tables (d_mem s) ->
  d_stream s = buf_in ((varint (zlen l) ++ l) ++ rest) tail e -> mapped (d_mem s) q (q + f_data_size f) ->
  wp (call f q) (value_read f q rest tail e v s) s.
Proof.
  intros E Hit Ht H0 Hz Hl Hv Hpre Hdef Hs Hm. destruct (item_submessage tables _ _ _ Hit E) as [Hp Hf].
  unfold call_decoder, pb_decoder. rewrite (call_other f) by (by rewrite E).
  unfold payload, value_at in Hl, Hv. rewrite E in *. cbn in Hl, Hv |- *.
  apply Z.eqb_neq in Hp. rewrite Hp in Hl. unfold pb_dec_submessage. rewrite Hp.
  eapply wp_mono; [eapply (substream_wp l rest tail e _ (fun x => q <= x < q + f_data_size f)
    (fun m' => msg_at tables m' n (f_ptr f) q = Some v)); [done|exact Hs|]|].
  - eapply wp_mono; [|intros b s' H; exact H].
    assert (Hstep : forall pre dec, sub_decodes pre dec -> pre (d_mem s) (f_ptr f) q -> wp (dec (f_ptr f) q)
      (fun b s' => b = true /\ d_stream s' = buf_in [] (rest ++ tail) e /\
        calm (fun x => q <= x < q + f_data_size f) s s' /\ msg_at tables (d_mem s') n (f_ptr f) q = Some v)
      (Dec (d_mem s) (d_blocks s) (fixed_count_size s) (buf_in l (rest ++ tail) e))).
    { intros pre dec Hd Hpr. exact (Hd _ _ p q v l (rest ++ tail) e (Dec _ _ _ _) Hf Ht H0 Hl Hv Hz Hm Hdef Hpr eq_refl). }
    destruct (Z.eqb_spec (PB_HTYPE (f_type f)) PB_HTYPE_REPEATED) as [|Hn];
      [exact (Hstep _ _ decode_decodes I)|exact (Hstep _ _ noinit_decodes (Hpre Hn))].
  - intros b s' (Hb & Hst & Hc & Hval). split; [done|]. split; [done|]. split; [done|].
    unfold value_at. rewrite E. cbn. exact Hval.
Qed.

(** A value is read back. *)
Lemma call_reads f p q l v rest tail e s : member_fits tables n (f, p, p) ->
  (packable (PB_LTYPE (f_type f)) = true -> scalar_exact (PB_LTYPE (f_type f)) (f_data_size f) = true) ->
  (PB_LTYPE (f_type f) = PB_LTYPE_SUBMESSAGE -> tidy tables n (f_ptr f) = true) ->
  0 < p -> zlen l < 2 ^ 32 -> payload m sub_wire f p = Done l -> value_at m sub_val f p = Some v ->
  (PB_LTYPE (f_type f) = PB_LTYPE_SUBMESSAGE -> PB_HTYPE (f_type f) <> PB_HTYPE_REPEATED -> default_msg tables (d_mem s) n (f_ptr f) q) ->
  defaults_ok tables (d_mem s) -> d_stream s = buf_in (prefixed (PB_LTYPE (f_type f)) l ++ rest) tail e ->
  mapped (d_mem s) q (q + f_data_size f) -> wp (call f q) (value_read f q rest tail e v s) s.
Proof.
  intros (Hok & Hst & Hit) Hex Hsub H0 Hz Hl Hv Hpre Hdef Hs Hm. cbn [fst snd] in *. unfold prefixed in Hs.
  destruct (item_kinds _ _ _ Hit) as [E|[(Hp & Eb & _)|[E|[E|[E|E]]]]]; cbv zeta in *.
  - rewrite E in *. change (packable PB_LTYPE_BOOL) with true in *. specialize (Hex eq_refl). apply Z.eqb_eq in Hex.
    by eapply read_bool.
  - rewrite Hp in Hs. eapply read_int_field; try done. by apply Hex.
  - rewrite E in Hs. by eapply read_bytes_field.
  - rewrite E in Hs. by eapply read_string_field.
  - rewrite E in Hs. eapply read_submessage; try done; [by apply Hsub|by apply Hpre].
  - rewrite E in Hs. by eapply read_fixed_bytes.
Qed.
End one.
End values.
