(* ===== verification/PbFind.v ===== *)
(** * nanopb messages: finding a field, and the count of required fields.

    The iterator finds the only field with a tag from wherever it stands, and its
    index counts the required fields before it; with every required field marked,
    the check at the end of [pb_decode_noinit] passes. *)

From S2P Require Import Prelude PbMem PbStream PbIter PbReads PbDecode PbSafe.

Section find.
Context (tables : Z -> list pb_field) (t dest : Z).
Hypothesis Hne : no_end tables t.
Hypothesis Hlen : zlen (tables t) < 2 ^ 32.

Definition required (f : pb_field) : bool := PB_HTYPE (f_type f) =? PB_HTYPE_REQUIRED.
(** The number of required fields. *)
Definition reqs (l : list pb_field) : Z := zlen (List.filter required l).

Lemma reqs_app l1 l2 : reqs (l1 ++ l2) = reqs l1 + reqs l2.
Proof. unfold reqs. by rewrite List.filter_app, zlen_app. Qed.
Lemma reqs_range l : 0 <= reqs l <= zlen l.
Proof. unfold reqs. split; [apply zlen_nonneg|]. unfold zlen. pose proof (List.filter_length_le required l). lia. Qed.
Lemma reqs_step l i f : l !! i = Some f -> reqs (take (S i) l) = reqs (take i l) + (if required f then 1 else 0).
Proof.
  intros H. rewrite (take_S_r _ _ _ H), reqs_app. f_equal. unfold reqs. cbn [List.filter]. destruct (required f); done.
Qed.
Lemma reqs_take i : 0 <= reqs (take i (tables t)) < 2 ^ 32.
Proof. pose proof (reqs_range (take i (tables t))). unfold zlen in *. rewrite length_take in *. lia. Qed.

(** The iterator stands on a member, and has counted the required fields before. *)
Record stands (it : pb_field_iter) : Prop := {
  st_at : it_at tables t dest it; st_index : required_field_index it = reqs (take (it_pos it) (tables t)) }.

Lemma begin_stands : stands (fst (pb_field_iter_begin tables t dest)).
Proof. split; [by apply begin_at|]. done. Qed.

Lemma at_pos it : it_at tables t dest it -> tables t <> [] -> tables t !! it_pos it = Some (pos tables it).
Proof.
  intros (_ & _ & H) Hn. rewrite decide_False in H by done. destruct H as (z & Hz & _). by apply slots_lookup in Hz as (H & _ & _).
Qed.

Lemma next_stands it : stands it -> tables t <> [] ->
  let '(it', more) := pb_field_iter_next tables it in
  stands it' /\ pSize it' <> Local /\
  if more then it_pos it' = S (it_pos it) /\ (S (it_pos it) < length (tables t))%nat
  else it_pos it' = 0%nat /\ (length (tables t) <= S (it_pos it))%nat.
Proof.
  intros [Ha Hi] Hn. pose proof (next_at tables t dest it Hne Ha) as Hx. pose proof (at_pos it Ha Hn) as Hp.
  pose proof (reqs_step _ _ _ Hp) as Hr. pose proof (reqs_take (it_pos it)). pose proof (reqs_take (S (it_pos it))).
  assert (Hg : f_tag (pos tables it) <> 0) by exact (proj1 (Forall_lookup _ _) Hne _ _ Hp).
  destruct Ha as (Hs & Hd & Ha). rewrite decide_False in Ha by done. destruct Ha as (z & _ & Hloc).
  unfold pb_field_iter_next in *. destruct (Z.eqb_spec (f_tag (pos tables it)) 0); [done|].
  destruct (f_tag (field_at _ _ _) =? 0).
  - destruct Hx as [Hx1 Hx2]. split; [split; [exact Hx1|done]|]. done.
  - destruct (_ && _ && _) eqn:Eu; destruct Hx as [Hx1 Hx2]; (split; [split; [exact Hx1|]|split; [|exact Hx2]]); cbn [required_field_index it_pos pSize].
    + bool_hyps. rewrite Hr, Hi. unfold required. match goal with H : PB_HTYPE _ = PB_HTYPE_ONEOF |- _ => rewrite H end. cbn. lia.
    + destruct Hloc as [-> | [-> Hl]]; [done|]. rewrite Hl in Eu. done.
    + rewrite Hr in *. rewrite Hi. unfold required in *.
      destruct (PB_HTYPE (f_type (pos tables it)) =? PB_HTYPE_REQUIRED); [apply u32_small; lia|lia].
    + done.
Qed.

(** ** Finding *)

Section wanted.
Context (wanted : pb_field -> bool) (j : nat) (f : pb_field).
Hypothesis Hj : tables t !! j = Some f.
Hypothesis Hf : wanted f = true.
Hypothesis Hunique : forall i g, tables t !! i = Some g -> wanted g = true -> i = j.

Definition found_at (it it' : pb_field_iter) : Prop := stands it' /\ it_pos it' = j /\ (it' = it \/ pSize it' <> Local).

Lemma found_step it it1 it' : pSize it1 <> Local -> found_at it1 it' -> found_at it it'.
Proof. intros Hl (H1 & H2 & [->|H3]); split_and!; auto. Qed.

Lemma wanted_here it : stands it -> wanted (pos tables it) = true <-> it_pos it = j.
Proof.
  intros [Ha _]. assert (Hn : tables t <> []) by (intros E; by rewrite E in Hj). pose proof (at_pos it Ha Hn) as Hp. split.
  - by apply Hunique.
  - intros E. rewrite E, Hj in Hp. by simplify_eq.
Qed.

Lemma find_up start n : forall it, stands it -> (it_pos it <= j)%nat -> (start <= it_pos it \/ j < start)%nat -> (j <= n + it_pos it)%nat ->
  exists it', find_loop tables n wanted start it = (it', true) /\ found_at it it'.
Proof.
  assert (Hn : tables t <> []) by (intros E; by rewrite E in Hj). pose proof (lookup_lt_Some _ _ _ Hj) as Hlt.
  induction n as [|n IH]; intros it Hi Hle Hst Hk; cbn [find_loop]; pose proof (wanted_here it Hi) as Hw;
    destruct (wanted (pos tables it)) eqn:Ew; try (exists it; split; [done|]; split_and!; [done|by apply Hw|by left]);
    (assert (it_pos it <> j) by (intros E; apply Hw in E; congruence)); [lia|].
  pose proof (next_stands it Hi Hn) as Hx. destruct (pb_field_iter_next tables it) as [it1 more]. cbn [fst].
  destruct Hx as (Hi1 & Hl1 & Hm). destruct more; [|lia]. destruct Hm as [Hp _].
  destruct (Nat.eqb_spec (it_pos it1) start); [lia|].
  destruct (IH it1 Hi1 ltac:(lia) ltac:(lia) ltac:(lia)) as (it' & E & Hf'). exists it'. split; [done|]. by eapply found_step.
Qed.

Lemma find_wrap start n : forall it, stands it -> (start <= it_pos it)%nat -> (j < start)%nat ->
  (length (tables t) + j <= n + it_pos it)%nat ->
  exists it', find_loop tables n wanted start it = (it', true) /\ found_at it it'.
Proof.
  assert (Hn : tables t <> []) by (intros E; by rewrite E in Hj). pose proof (lookup_lt_Some _ _ _ Hj) as Hlt.
  induction n as [|n IH]; intros it Hi Hle Hst Hk; cbn [find_loop]; pose proof (wanted_here it Hi) as Hw;
    pose proof (lookup_lt_Some _ _ _ (at_pos it (st_at _ Hi) Hn)); [lia|].
  destruct (wanted (pos tables it)) eqn:Ew; [destruct Hw as [Hw _]; specialize (Hw eq_refl); lia|].
  pose proof (next_stands it Hi Hn) as Hx. destruct (pb_field_iter_next tables it) as [it1 more]. cbn [fst].
  destruct Hx as (Hi1 & Hl1 & Hm). destruct (Nat.eqb_spec (it_pos it1) start); [destruct more; lia|].
  assert (G : exists it', find_loop tables n wanted start it1 = (it', true) /\ found_at it1 it').
  { destruct more; [apply IH; [done|lia..]|]. apply find_up; [done|lia..]. }
  destruct G as (it' & E & Hf'). exists it'. split; [done|]. by eapply found_step.
Qed.
End wanted.

Lemma find_stands it j f : stands it -> tables t !! j = Some f -> PB_LTYPE (f_type f) <> PB_LTYPE_EXTENSION ->
  (forall i g, tables t !! i = Some g -> f_tag g = f_tag f -> i = j) ->
  exists it', pb_field_iter_find tables it (f_tag f) = (it', true) /\ found_at j it it'.
Proof.
  intros Hi Hj He Hu. unfold pb_field_iter_find. pose proof (lookup_lt_Some _ _ _ Hj).
  assert (Hw : (f_tag f =? f_tag f) && negb (PB_LTYPE (f_type f) =? PB_LTYPE_EXTENSION) = true).
  { rewrite Z.eqb_refl. apply Z.eqb_neq in He. by rewrite He. }
  assert (Hu' : forall i g, tables t !! i = Some g -> (f_tag g =? f_tag f) && negb (PB_LTYPE (f_type g) =? PB_LTYPE_EXTENSION) = true -> i = j).
  { intros i g Hg H'. bool_hyps. by apply (Hu i g). }
  assert (Hs : it_start it = t) by apply (st_at _ Hi). rewrite Hs.
  destruct (decide (it_pos it <= j)%nat).
  - eapply (find_up _ j f); [done..|lia|lia].
  - eapply (find_wrap _ j f); [done..|lia|lia|lia].
Qed.

(** ** The required fields *)

(** The words of [fields_seen] when the first [r] required fields were seen. *)
Definition seen_words (r : Z) : list Z := [2 ^ Z.min r 32 - 1; 2 ^ Z.min (Z.max 0 (r - 32)) 32 - 1].

Lemma seen_saturates r : 64 <= r -> seen_words r = seen_words 64.
Proof. intros H. unfold seen_words. rewrite !(Z.min_r _ 32) by lia. done. Qed.

Lemma zseq_all (P : Z -> bool) n i : forallb P (zseq n) = true -> 0 <= i < n -> P i = true.
Proof.
  intros H Hi. rewrite forallb_forall in H. apply H. unfold zseq. apply in_map_iff. exists (Z.to_nat i). split; [lia|]. apply in_seq. lia.
Qed.

Lemma mark_word r : 0 <= r < 64 ->
  <[Z.to_nat (Z.shiftr r 5) := Z.lor (znth (seen_words r) (Z.shiftr r 5)) (u32 (Z.shiftl 1 (Z.land r 31)))]> (seen_words r) = seen_words (r + 1).
Proof.
  intros Hr. apply (bool_decide_eq_true (_ = _)).
  exact (zseq_all (fun r => bool_decide (<[Z.to_nat (Z.shiftr r 5) := Z.lor (znth (seen_words r) (Z.shiftr r 5)) (u32 (Z.shiftl 1 (Z.land r 31)))]> (seen_words r)
    = seen_words (r + 1))) 64 r eq_refl Hr).
Qed.

Lemma mark_seen_words st : stands (n_iter st) -> tables t <> [] ->
  fields_seen st = seen_words (reqs (take (it_pos (n_iter st)) (tables t))) ->
  mark_seen tables st = NoInit (n_iter st) (seen_words (reqs (take (S (it_pos (n_iter st))) (tables t))))
    (extension_range_start st) (fixed_count_field st).
Proof.
  intros [Ha Hi] Hn Hs. pose proof (at_pos _ Ha Hn) as Hp. rewrite (reqs_step _ _ _ Hp). unfold mark_seen. rewrite Hi.
  pose proof (reqs_take (it_pos (n_iter st))). set (r := reqs (take _ (tables t))) in *.
  unfold required. destruct (_ =? PB_HTYPE_REQUIRED); cbn [andb].
  - unfold PB_MAX_REQUIRED_FIELDS. destruct (Z.ltb_spec r 64).
    + rewrite Hs, mark_word by lia. done.
    + rewrite (seen_saturates (r + 1)), <- (seen_saturates r), <- Hs by lia. by destruct st.
  - rewrite Z.add_0_r, <- Hs. by destruct st.
Qed.

(** Seeking the end counts all the required fields. *)
Lemma seek_end_stands n : forall it, stands it -> tables t <> [] -> (length (tables t) <= n + it_pos it)%nat ->
  exists f r, seek_end tables n it = (r, f_type f, fst (pb_field_iter_begin tables t dest)) /\
    reqs (tables t) = r + (if required f then 1 else 0).
Proof.
  induction n as [|n IH]; intros it Hi Hn Hk; cbn [seek_end]; pose proof (at_pos it (st_at _ Hi) Hn) as Hp;
    pose proof (lookup_lt_Some _ _ _ Hp); [lia|]. pose proof (next_stands it Hi Hn) as Hx.
  destruct (pb_field_iter_next tables it) as [it' more] eqn:En. destruct Hx as (Hi' & Hl' & Hm). destruct more.
  - destruct Hm. apply IH; [done|done|lia].
  - destruct Hm as [Hm1 Hm2]. exists (pos tables it), (required_field_index it). split.
    + f_equal. unfold pb_field_iter_next in En. assert (Hg : f_tag (pos tables it) <> 0) by exact (proj1 (Forall_lookup _ _) Hne _ _ Hp).
      destruct (Z.eqb_spec (f_tag (pos tables it)) 0); [done|]. destruct (_ =? 0); [|destruct (_ && _ && _); done].
      destruct (st_at _ Hi) as (Hst & Hd & _). rewrite Hst, Hd in En. by simplify_eq.
    + rewrite (st_index _ Hi), <- (reqs_step _ _ _ Hp). rewrite take_ge by lia. done.
Qed.

Lemma words_seen r : 0 <= r <= 64 ->
  forallb (fun i => znth (seen_words r) i =? u32 (-1)) (zseq (Z.shiftr r 5)) &&
  ((Z.land r 31 =? 0) || (znth (seen_words r) (Z.shiftr r 5) =? Z.shiftr (u32 (-1)) (32 - Z.land r 31))) = true.
Proof.
  intros Hr. exact (zseq_all (fun r => forallb (fun i => znth (seen_words r) i =? u32 (-1)) (zseq (Z.shiftr r 5)) &&
  ((Z.land r 31 =? 0) || (znth (seen_words r) (Z.shiftr r 5) =? Z.shiftr (u32 (-1)) (32 - Z.land r 31)))) 65 r eq_refl ltac:(lia)).
Qed.

Lemma all_required_seen st : stands (n_iter st) -> fields_seen st = seen_words (reqs (tables t)) -> required_seen tables st = true.
Proof.
  intros Hi Hs. unfold required_seen. assert (Hst : it_start (n_iter st) = t) by apply (st_at _ Hi). rewrite Hst.
  assert (Hr : exists r last it, seek_end tables (length (tables t)) (n_iter st) = (r, last, it) /\
    (if (PB_HTYPE last =? PB_HTYPE_REQUIRED) && negb (f_tag (pos tables it) =? 0) then u32 (r + 1) else r) = reqs (tables t)).
  { destruct (decide (tables t = [])) as [E|Hn].
    - destruct (st_at _ Hi) as (_ & _ & Ha). rewrite decide_True in Ha by done. rewrite E. cbn [length seek_end]. rewrite Ha.
      assert (Hp : pos tables (fst (pb_field_iter_begin tables t dest)) = PB_LAST_FIELD) by (unfold pos, field_at; cbn; by rewrite E).
      unfold pb_field_iter_next. rewrite Hp. cbn. eexists _, _, _. split; [reflexivity|]. unfold pos, field_at. cbn. rewrite E. done.
    - destruct (seek_end_stands (length (tables t)) (n_iter st) Hi Hn ltac:(lia)) as (f & r & -> & Hr). eexists _, _, _. split; [reflexivity|].
      unfold required in Hr. pose proof (reqs_range (tables t)).
      assert (Hb : f_tag (pos tables (fst (pb_field_iter_begin tables t dest))) =? 0 = false).
      { pose proof (at_pos _ (st_at _ begin_stands) Hn) as Hp. apply Z.eqb_neq. exact (proj1 (Forall_lookup _ _) Hne _ _ Hp). }
      rewrite Hb. cbn [negb]. rewrite andb_true_r. destruct (_ =? _); [rewrite u32_small; lia|lia]. }
  destruct Hr as (r & last & it & -> & Hr). rewrite Hr, Hs. pose proof (reqs_range (tables t)). unfold PB_MAX_REQUIRED_FIELDS.
  replace (seen_words (reqs (tables t))) with (seen_words (Z.min (reqs (tables t)) 64)).
  - apply words_seen. lia.
  - destruct (decide (reqs (tables t) <= 64)); [by rewrite Z.min_l by lia|]. rewrite Z.min_r by lia. symmetry. apply seen_saturates. lia.
Qed.
End find.
