(* ===== verification/PbMember.v ===== *)
(** * nanopb messages: a member comes back.

    The records of one member, decoded into a struct whose earlier members are
    decoded and whose other members are in their default state, give the member
    of the source. *)

From stdpp Require Import strings.
From S2P Require Import Prelude PbMem PbStream PbWire PbIter PbReads PbMessage PbEncode PbDecode PbSafe PbContents PbDefaults PbValue PbFind.

(** The items of an array, one by one. *)
Lemma entries_lookup {A} n (g : Z -> outcome A) size : forall p l, entries n g size p = Done l ->
  length l = n /\ forall i y, l !! i = Some y -> g (p + size * Z.of_nat i) = Done y.
Proof.
  induction n as [|n IH]; intros p l; cbn [entries]; [by intros [= <-]|].
  destruct (g p) as [x| |] eqn:Ex; try done. cbn [mbind outcome_bind]. destruct (entries n g size (p + size)) as [l'| |] eqn:El; try done.
  cbn [mbind outcome_bind]. intros [= <-]. destruct (IH _ _ El) as [Hn Hl]. cbn [length]. split; [lia|]. intros [|i] y Hy.
  - rewrite Z.mul_0_r, Z.add_0_r. cbn in Hy. congruence.
  - specialize (Hl i y Hy). replace (p + size * Z.of_nat (S i)) with (p + size + size * Z.of_nat i) by lia. done.
Qed.

Lemma lookup_zseq n i j : zseq n !! i = Some j -> j = Z.of_nat i.
Proof. unfold zseq. intros H. apply list_lookup_fmap_Some in H as (k & -> & H). apply lookup_seq in H as [-> _]. lia. Qed.

Lemma length_zseq n : length (zseq n) = Z.to_nat n.
Proof. unfold zseq. by rewrite length_fmap, length_seq. Qed.

Lemma values_at_lookup m sub f a n vs : 0 <= n -> values_at m sub f a n = Some vs ->
  Z.of_nat (length vs) = n /\ forall i v, vs !! i = Some v -> value_at m sub f (a + f_data_size f * Z.of_nat i) = Some v.
Proof.
  intros Hn H. apply mapM_Some in H. pose proof (Forall2_length _ _ _ H) as Hl. rewrite length_zseq in Hl. split; [lia|].
  intros i v Hv. destruct (Forall2_lookup_r _ _ _ _ _ H Hv) as (j & Hj & Hvj). apply lookup_zseq in Hj as ->. done.
Qed.

Lemma values_at_intro m sub f a n vs : Z.of_nat (length vs) = n ->
  (forall i v, vs !! i = Some v -> value_at m sub f (a + f_data_size f * Z.of_nat i) = Some v) -> values_at m sub f a n = Some vs.
Proof.
  intros <- H. apply mapM_Some, Forall2_same_length_lookup_2; [rewrite length_zseq; lia|]. intros i j v Hj Hv. apply lookup_zseq in Hj as ->. by apply H.
Qed.

Section member.
Context {U : Type} (user_read : U -> Z -> option (list Z) * U).
Context (tables : Z -> list pb_field).
Context (decode_cb : Z -> pb_field -> Z -> M (dec U) bool) (decode_ext : Z -> Z -> Z -> Z -> M (dec U) bool).
Context (alloc : mem -> gmap Z Z -> Z -> option (Z * list Z)).
#[local] Abbreviation D := (M (dec U)).
Hypothesis tables_ok : forall t, Forall field_ok (tables t).

(** The source: memory [m], and what the encoder writes for its submessages. *)
Context (n : nat) (m : mem) (sub_wire : Z -> Z -> outcome (list Z)).
Hypothesis bytes_in_mem : mem_ok m.
(** The decoders of submessages. *)
Context (decode decode_noinit : Z -> Z -> D bool).
Hypothesis noinit_decodes : sub_decodes tables n sub_wire (msg_at tables m n) (fun m' t q => default_msg tables m' n t q) decode_noinit.
Hypothesis decode_decodes : sub_decodes tables n sub_wire (msg_at tables m n) (fun _ _ _ => True) decode.

(** The two structs. *)
Context (t size src dest : Z).
Hypothesis Hfits : fits tables (S n) t size = true.
Hypothesis Htidy : tidy tables (S n) t = true.
Hypothesis Hsrc : 0 < src.

#[local] Abbreviation sub m' := (msg_at tables m' n).
#[local] Abbreviation dsub m' := (default_msg tables m' n).
#[local] Abbreviation moved := (shift (dest - src)).
#[local] Abbreviation htype x := (PB_HTYPE (f_type x.1.1)).
#[local] Abbreviation ltype x := (PB_LTYPE (f_type x.1.1)).

Lemma table_no_end : no_end tables t.
Proof. by eapply fits_no_end. Qed.
Lemma table_length : zlen (tables t) < 2 ^ 32.
Proof. cbn [tidy] in Htidy. apply andb_prop in Htidy as [H _]. apply andb_prop in H as [H _]. by apply Z.ltb_lt. Qed.

Lemma dest_slot k x : slots (tables t) src !! k = Some x -> slots (tables t) dest !! k = Some (moved x).
Proof. intros H. rewrite (slots_move tables t src dest), list_lookup_fmap, H. done. Qed.

(** What is known of a member and of its place in the struct. *)
Record place (k : nat) (x : pb_field * Z * Z) : Prop := {
  pl_slot : slots (tables t) dest !! k = Some (moved x);
  pl_field : tables t !! k = Some x.1.1;
  pl_fits : member_fits tables n x;
  pl_inside : forall p, in_slot (moved x) p -> dest <= p < dest + size;
  pl_tidy : tidy_at tables n x;
  pl_tidy' : tidy_at tables n (moved x);
  pl_address : 0 < x.1.2 }.

Lemma placed k x : slots (tables t) src !! k = Some x -> place k x.
Proof.
  intros H. pose proof (dest_slot _ _ H) as Hd. constructor; [done| | | | | |].
  - by apply (slots_field tables tables_ok) in H as [H _].
  - by apply (slot_fits_at tables tables_ok _ _ _ _ _ _ Hfits) in H as [H _].
  - by apply (slot_fits_at tables tables_ok _ _ _ _ _ _ Hfits) in Hd as [_ Hd].
  - by eapply tidy_slot_at.
  - by eapply tidy_slot_at.
  - apply slots_at in H as ([[f a] z] & Hy & ->). cbn [shift fst snd]. cbn [fits] in Hfits.
    apply andb_prop in Hfits as [_ Hall]. rewrite forallb_forall in Hall.
    specialize (Hall _ (proj1 (list_elem_of_In _ _) (list_elem_of_lookup_2 _ _ _ Hy))). unfold slot_fits in Hall. bool_hyps. lia.
Qed.

(** The count, flag or tag of a moved member is with its data or not, as before. *)
Lemma moved_cell (x : pb_field * Z * Z) : (x.2 + (dest - src) =? x.1.2 + (dest - src)) = (x.2 =? x.1.2).
Proof. destruct (Z.eqb_spec x.2 x.1.2), (Z.eqb_spec (x.2 + (dest - src)) (x.1.2 + (dest - src))); (done || lia). Qed.

(** ** Structs that are decoded in part *)

(** A member to come is in its default state, or its union holds another member. *)
Definition pending (m' : mem) (x : pb_field * Z * Z) : Prop :=
  default_slot m' (dsub m') (moved x) \/
  htype x = PB_HTYPE_ONEOF /\ exists w, load_u32 m x.2 = Some w /\ load_u32 m' (moved x).2 = Some w /\ w <> f_tag x.1.1.

Definition member_done (m' : mem) (x : pb_field * Z * Z) : Prop := forall c,
  member_at m (sub m) x = Some c -> member_at m' (sub m') (moved x) = Some c.

Definition halfway (m' : mem) (k : nat) : Prop := forall j x, slots (tables t) src !! j = Some x ->
  if decide (j < k)%nat then member_done m' x else pending m' x.

Lemma member_kept j x P m1 m2 : slots (tables t) src !! j = Some x -> frame P m1 m2 -> (forall p, in_slot (moved x) p -> P p -> False) ->
  member_at m2 (sub m2) (moved x) = member_at m1 (sub m1) (moved x) /\
  (default_slot m1 (dsub m1) (moved x) -> default_slot m2 (dsub m2) (moved x)).
Proof.
  intros Hx Hfr Hp. destruct (slot_fits_at tables tables_ok _ _ _ _ _ _ Hfits (dest_slot _ _ Hx)) as [Hm _].
  pose proof (frame_same P (in_slot (moved x)) m1 m2 Hfr Hp) as Hs. split.
  - apply (member_same tables n m1 m2); [|done|done]. intros. by eapply msg_same.
  - intros Hd. apply (default_same tables n m1 m2 (dsub m1)); [|done..]. intros. by eapply default_msg_same.
Qed.

Lemma oneof_cell (x : pb_field * Z * Z) p : htype x = PB_HTYPE_ONEOF -> x.2 <= p < x.2 + 4 -> in_slot x p.
Proof. destruct x as [[f a] z]. cbn [fst snd]. intros E Hp. right. unfold cell_bytes. cbn [fst snd]. rewrite E. cbn. lia. Qed.

(** One member more. *)
Lemma advance k x c m1 m2 : halfway m1 k -> slots (tables t) src !! k = Some x -> frame (in_slot (moved x)) m1 m2 ->
  member_at m (sub m) x = Some c -> member_at m2 (sub m2) (moved x) = Some c ->
  (m2 = m1 \/ (htype x = PB_HTYPE_ONEOF -> load_u32 m x.2 = Some (f_tag x.1.1) /\ load_u32 m2 (moved x).2 = Some (f_tag x.1.1))) ->
  halfway m2 (S k).
Proof.
  intros Hh Hx Hfr Hc Hc2 Ho j y Hy. destruct (decide (j = k)) as [->|Hne].
  { rewrite Hx in Hy. simplify_eq. rewrite decide_True by lia. intros c' Hc'. congruence. }
  assert (G : if decide (j < k)%nat then member_done m2 y else pending m2 y);
    [|destruct (decide (j < k)%nat), (decide (j < S k)%nat); (done || lia)].
  specialize (Hh j y Hy). destruct Ho as [->|Ho]; [exact Hh|].
  destruct (tidy_apart tables _ _ _ _ _ _ _ Htidy (dest_slot _ _ Hy) (dest_slot _ _ Hx) Hne) as [Htag [Hs|Hdis]].
  - unfold same_oneof, shift in Hs. cbn [fst snd] in Hs. bool_hyps. assert (Ez : y.2 = x.2) by lia. assert (Ez' : (moved y).2 = (moved x).2) by done.
    destruct Ho as [Hw Hw2]; [done|]. assert (Hpend : htype y = PB_HTYPE_ONEOF /\ exists w, load_u32 m y.2 = Some w /\ load_u32 m2 (moved y).2 = Some w /\ w <> f_tag y.1.1).
    { split; [done|]. exists (f_tag x.1.1). rewrite Ez, Ez'. cbn [shift fst snd] in Htag. done. }
    destruct (decide (j < k)%nat); [|by right]. destruct Hpend as (Eo & w & W1 & W2 & Hn).
    destruct y as [[g b] z]. unfold member_done, member_at. cbn [fst snd shift] in *. rewrite Eo, W1. unfold shift in W2. cbn [fst snd] in W2. rewrite W2. cbn.
    apply Z.eqb_neq in Hn. rewrite Hn. done.
  - destruct (member_kept j y _ m1 m2 Hy Hfr Hdis) as [Hm Hd]. destruct (decide (j < k)%nat).
    + intros c' Hc'. rewrite Hm. by apply Hh.
    + destruct Hh as [Hh|(Eo & w & W1 & W2 & Hn)]; [left; by apply Hd|]. right. split; [done|]. exists w. split_and!; [done| |done].
      rewrite (load_u32_same m1 m2); [done|]. eapply frame_same; [exact Hfr|]. intros p Hp. apply Hdis. by apply oneof_cell.
Qed.

(** ** A member without records *)

#[local] Ltac htypes E := rewrite E in *; cbn [Z.eqb Pos.eqb PB_HTYPE_OPTIONAL PB_HTYPE_REQUIRED PB_HTYPE_REPEATED PB_HTYPE_ONEOF] in *.

Lemma absent_oneof x w : htype x = PB_HTYPE_ONEOF -> 1 <= f_tag x.1.1 -> load_u32 m x.2 = Some w -> w <> f_tag x.1.1 ->
  forall m', pending m' x -> member_done m' x.
Proof.
  destruct x as [[f a] z]. cbn [fst snd shift]. intros E Ht Hw Hn m' Hp c Hc. unfold member_at, shift in *. cbn [fst snd] in *. htypes E.
  rewrite Hw in Hc. cbn in Hc. assert (Hn' := Hn). apply Z.eqb_neq in Hn'. rewrite Hn' in Hc. simplify_eq.
  destruct Hp as [Hp|(_ & w' & H1 & H2 & H3)].
  - unfold default_slot, shift in Hp. cbn [fst snd] in Hp. htypes E. rewrite Hp. cbn [mbind option_bind].
    destruct (Z.eqb_spec 0 (f_tag f)); [lia|done].
  - unfold shift in H2. cbn [fst snd] in *. rewrite H2. cbn. apply Z.eqb_neq in H3. rewrite H3. done.
Qed.

Lemma absent_optional x : member_fits tables n x -> tidy_at tables n x ->
  htype x = PB_HTYPE_OPTIONAL -> present tables m (S n) x.1.1 x.1.2 = Done false ->
  forall m', pending m' x -> member_done m' x.
Proof.
  intros Hf Ht E Hp m' [Hd|[E' _]] c Hc; [|rewrite E in E'; done].
  assert (Hst : PB_ATYPE (f_type x.1.1) = PB_ATYPE_STATIC) by apply Hf.
  unfold present in Hp. rewrite Hst in Hp. cbn [Z.eqb PB_ATYPE_STATIC PB_ATYPE_POINTER] in Hp. pose proof (ta_cell _ _ _ Ht) as Hcell.
  destruct (Z.eqb_spec (f_size_offset x.1.1) 0) as [E0|N0]; cbn [negb] in Hp.
  - destruct (pb_check_proto3_default_value tables m (S n) x.1.1 x.1.2) as [b|] eqn:Ec; [|done]. cbn in Hp. injection Hp as Hp.
    apply negb_false_iff in Hp as ->.
    eapply (check_slot tables m m' n (S n) x (moved x)); [exact Hf|exact Ht|done| | |exact Ec|exact Hc|exact Hd].
    + cbn [shift fst snd]. lia.
    + intros. by eapply (check_msg tables tables_ok m m' n).
  - destruct x as [[f a] z]. cbn [fst snd] in *. destruct (load m (a + f_size_offset f) 1) as [l|] eqn:El; [|done]. cbn in Hp. injection Hp as Hp.
    unfold member_at, default_slot, shift in *. cbn [fst snd] in *. htypes E. 
    pose proof (moved_cell (f, a, z)) as Hmc. cbn [fst snd] in Hmc. rewrite Hmc in *.
    destruct (Z.eqb_spec z a); [lia|]. destruct Hd as [Hd _]. rewrite <- Hcell in El. rewrite El in Hc. cbn in Hc. rewrite Hp in Hc.
    rewrite Hd. exact Hc.
Qed.

(** ** One record *)

#[local] Abbreviation stands := (stands tables t dest).
#[local] Abbreviation call := (call_decoder user_read alloc decode decode_noinit).
#[local] Abbreviation one := (decode_one user_read tables decode_cb decode_ext alloc decode decode_noinit (S n)).
#[local] Abbreviation field_step := (decode_field user_read tables decode_cb alloc decode decode_noinit (S n)).

(** A fixed-count array, which the decoder counts in its local variable. *)
Definition fixed (x : pb_field * Z * Z) : bool := (htype x =? PB_HTYPE_REPEATED) && (x.2 =? x.1.2).

Lemma fixed_moved x : fixed (moved x) = fixed x.
Proof. unfold fixed. cbn [shift fst snd]. by rewrite moved_cell. Qed.

(** The fixed-count array that was decoded last, among the first [k] members, is complete. *)
Definition fixed_done (k : nat) (st : noinit) (s : dec U) : Prop := forall j, fixed_count_field st = Some j ->
  (j < k)%nat /\ fixed_count_size s = f_array_size (field_at tables t j).

(** The next record of member [k] will be the value number [i]. *)
Definition ready (k : nat) (y : pb_field * Z * Z) (i : Z) (st : noinit) (s : dec U) : Prop :=
  if fixed y then fixed_count_field st = Some k /\ fixed_count_size s = i \/ i = 0 /\ fixed_done k st s
  else fixed_done k st s /\ (htype y = PB_HTYPE_REPEATED -> load_u32 (d_mem s) y.2 = Some i).

Record looking (k : nat) (st : noinit) : Prop := {
  lk_stands : stands (n_iter st);
  lk_local : pSize (n_iter st) = Local -> fixed_count_field st = Some (it_pos (n_iter st));
  lk_seen : fields_seen st = seen_words (reqs (take k (tables t))) }.

(** After the key of a record of member [k]: the iterator stands on the member. *)
Record found (k : nat) (y : pb_field * Z * Z) (i : Z) (rest tail : list Z) e (st : noinit) (s : dec U) (st1 : noinit) (s1 : dec U) : Prop := {
  fd_stands : stands (n_iter st1);
  fd_pos : it_pos (n_iter st1) = k;
  fd_field : pos tables (n_iter st1) = y.1.1;
  fd_data : pData (n_iter st1) = y.1.2;
  fd_size : if fixed y then pSize (n_iter st1) = Local /\ fixed_count_field st1 = Some k /\ fixed_count_size s1 = i
    else pSize (n_iter st1) = InStruct y.2 /\ fixed_count_field st1 = fixed_count_field st /\ fixed_count_size s1 = fixed_count_size s;
  fd_seen : fields_seen st1 = seen_words (reqs (take (S k) (tables t)));
  fd_mem : d_mem s1 = d_mem s;
  fd_blocks : d_blocks s1 = d_blocks s;
  fd_stream : d_stream s1 = buf_in rest tail e }.

Lemma tag_decodes tag wt rest tail e : 1 <= tag < 2 ^ 29 -> 0 <= wt < 8 ->
  pb_decode_tag user_read (buf_in (varint (tag * 8 + wt) ++ rest) tail e) = (Some (wt, tag), false, buf_in rest tail e).
Proof.
  intros Ht Hw. unfold pb_decode_tag. rewrite varint32_varint by lia. destruct (Z.eqb_spec (tag * 8 + wt) 0); [lia|].
  change 7 with (2 ^ 3 - 1). rewrite land_mask, Z.shiftr_div_pow2 by lia.
  replace ((tag * 8 + wt) mod 2 ^ 3) with wt by zarith. replace ((tag * 8 + wt) / 2 ^ 3) with tag by zarith. done.
Qed.

Lemma at_member it k x z : stands it -> it_pos it = k -> slots (tables t) dest !! k = Some x -> x.2 = z ->
  pos tables it = x.1.1 /\ pData it = x.1.2 /\ (pSize it = InStruct z \/ pSize it = Local).
Proof.
  intros [(_ & _ & H) _] <- Hx <-. rewrite decide_False in H by (intros E; rewrite E in Hx; done). destruct H as (z & Hz & Hl).
  rewrite Hx in Hz. simplify_eq. cbn [fst snd]. split_and!; [done..|]. destruct Hl as [->|[-> _]]; auto.
Qed.

(** The bookkeeping of fixed-count arrays. *)
Lemma fixed_count_step k x i st s : place k x -> stands (n_iter st) -> it_pos (n_iter st) = k ->
  (pSize (n_iter st) = Local -> fixed_count_field st = Some k) -> ready k (moved x) i st s ->
  exists st1 c, use_fixed_count tables st s = (Some (Some st1), Dec (d_mem s) (d_blocks s) c (d_stream s)) /\
    stands (n_iter st1) /\ it_pos (n_iter st1) = k /\ fields_seen st1 = fields_seen st /\
    (if fixed (moved x) then pSize (n_iter st1) = Local /\ fixed_count_field st1 = Some k /\ c = i
     else pSize (n_iter st1) = InStruct (moved x).2 /\ fixed_count_field st1 = fixed_count_field st /\ c = fixed_count_size s).
Proof.
  intros Hp Hi Hk Hl Hr. destruct (at_member _ _ _ _ Hi Hk (pl_slot _ _ Hp) eq_refl) as (Hf & Hd & Hs). unfold use_fixed_count, ready in *.
  rewrite Hf. assert (Hone : fixed (moved x) = false -> pSize (n_iter st) = InStruct (moved x).2).
  { intros Efx. destruct Hs as [Hs|Hs]; [done|]. rewrite Efx in Hr. destruct Hr as [Hr _]. destruct (Hr k (Hl Hs)). lia. }
  assert (Hsd : fixed (moved x) = true -> pSize (n_iter st) = InStruct (moved x).2 -> size_is_data (n_iter st) = true).
  { intros Efx E. unfold size_is_data. rewrite E, Hd. unfold fixed in Efx. by apply andb_prop in Efx as [_ Efx]. }
  assert (Eta : s = Dec (d_mem s) (d_blocks s) (fixed_count_size s) (d_stream s)) by (by destruct s).
  destruct (fixed (moved x)) eqn:Efx.
  - destruct Hs as [Hs|Hs].
    + rewrite (Hsd eq_refl Hs). unfold fixed in Efx. apply andb_prop in Efx as [Eh Ez]. rewrite Eh. cbn [andb]. rewrite Hk.
      assert (Hloc : stands (FieldIter (it_start (n_iter st)) (it_pos (n_iter st)) (required_field_index (n_iter st)) (dest_struct (n_iter st)) (pData (n_iter st)) Local)).
      { destruct Hi as [(H1 & H2 & H3) H4]. split; [|exact H4]. split_and!; [done..|].
        rewrite decide_False in H3 |- * by (intros E; pose proof (pl_slot _ _ Hp) as Hx; rewrite E in Hx; done).
        destruct H3 as (z & Hz & _). exists z. split; [exact Hz|]. right. split; [done|]. apply Z.eqb_eq in Eh. unfold pos in *. cbn [it_start it_pos]. by rewrite Hf. }
      rewrite Hk in Hloc. destruct (bool_decide_reflect (fixed_count_field st = Some k)) as [Ef|Nf]; cbn [negb].
      * destruct Hr as [[_ Hc]|[_ Hr]]; [|destruct (Hr k Ef); lia].
        eexists _, (fixed_count_size s). split; [rewrite <- Eta; reflexivity|]. split_and!; done.
      * destruct Hr as [[? _]|[-> Hr]]; [done|]. assert (Est : it_start (n_iter st) = t) by apply Hi.
        assert (Hw : fixed_count_wrong tables st s = (Some false, s)).
        { unfold fixed_count_wrong. rewrite Est. destruct (fixed_count_field st) as [j|] eqn:Ej; [|done].
          destruct (Hr j Ej) as [_ ->]. rewrite Z.eqb_refl. done. }
        eexists _, 0. unfold bind at 1. rewrite Hw. split; [reflexivity|]. split_and!; done.
    + assert (Hsz : size_is_data (n_iter st) = false) by (unfold size_is_data; by rewrite Hs).
      rewrite Hsz, andb_false_r. specialize (Hl Hs). destruct Hr as [[_ Hc]|[_ Hr]]; [|destruct (Hr k Hl); lia].
      eexists _, (fixed_count_size s). split; [rewrite <- Eta; reflexivity|]. split_and!; done.
  - specialize (Hone eq_refl). assert (Hb : (PB_HTYPE (f_type (moved x).1.1) =? PB_HTYPE_REPEATED) && size_is_data (n_iter st) = false).
    { unfold size_is_data. rewrite Hone, Hd. exact Efx. }
    rewrite Hb. eexists _, (fixed_count_size s). split; [rewrite <- Eta; reflexivity|]. split_and!; done.
Qed.

Lemma one_found k x i wt rest tail e st s : place k x -> looking k st -> ready k (moved x) i st s -> 0 <= wt < 8 ->
  d_stream s = buf_in (varint (f_tag x.1.1 * 8 + wt) ++ rest) tail e ->
  exists st1 s1, found k (moved x) i rest tail e st s st1 s1 /\
    one st s = (let* '(ok, it) := field_step wt (n_iter st1) in
                ret (if ok : bool then Continue (NoInit it (fields_seen st1) (extension_range_start st1) (fixed_count_field st1)) else ReturnFalse)) s1.
Proof.
  intros Hp [Hi Hl Hseen] Hr Hwt Hs. pose proof table_no_end as Hne. pose proof table_length as Hlen.
  assert (Hnil : tables t <> []) by (intros E; pose proof (pl_field _ _ Hp) as Hx; rewrite E in Hx; done).
  unfold decode_one. rewrite Hs, tag_decodes by (apply (ta_tag _ _ _ (pl_tidy _ _ Hp)) || done).
  assert (He : PB_LTYPE (f_type x.1.1) <> PB_LTYPE_EXTENSION).
  { intros E. destruct (pl_fits _ _ Hp) as (_ & _ & Hit). unfold item_fits in Hit. rewrite E in Hit. done. }
  assert (Hu : forall i g, tables t !! i = Some g -> f_tag g = f_tag x.1.1 -> i = k).
  { intros j g Hg Etag. destruct (decide (j = k)) as [|Hne']; [done|]. destruct (slot_of_field tables t dest j g Hne Hg) as (a & z & Hj).
    destruct (tidy_apart tables _ _ _ _ _ _ _ Htidy Hj (pl_slot _ _ Hp) Hne') as [Ht _]. done. }
  destruct (find_stands tables t dest Hne Hlen (n_iter st) k _ Hi (pl_field _ _ Hp) He Hu) as (it' & -> & Hi' & Hk' & Hor). cbn [negb].
  set (st' := NoInit it' _ _ _).
  destruct (fixed_count_step k x i st' (Dec (d_mem s) (d_blocks s) (fixed_count_size s) (buf_in rest tail e))) as (st2 & c & E2 & Hi2 & Hk2 & Hseen2 & Hsz2); try done.
  { cbn. intros Hloc. destruct Hor as [->|Hor]; [|done]. rewrite (Hl Hloc). by f_equal. }
  unfold bind at 1. rewrite E2. cbn [d_mem d_blocks d_stream].
  pose proof (mark_seen_words tables t dest Hlen st2 Hi2 Hnil) as Hm. rewrite Hk2 in Hm. rewrite Hm; [|rewrite Hseen2; exact Hseen].
  destruct (at_member _ _ _ _ Hi2 Hk2 (pl_slot _ _ Hp) eq_refl) as (Hf & Hd & _).
  eexists (NoInit _ _ _ _), _. split; [|reflexivity]. cbn [d_mem d_blocks fixed_count_size d_stream n_iter fixed_count_field fields_seen] in *.
  constructor; cbn [n_iter fixed_count_field fields_seen d_mem d_blocks fixed_count_size d_stream]; try done.
Qed.

(** ** The loop over the records *)

#[local] Abbreviation loop k := (noinit_loop user_read tables decode_cb decode_ext alloc decode decode_noinit k (S n)).

(** From here on the loop ends in [Q], whatever fuel covers the bytes left. *)
Definition continues (Q : option noinit -> dec U -> Prop) (st : noinit) (s : dec U) : Prop := forall k,
  (Z.to_nat (bytes_left (d_stream s)) <= k)%nat -> wp (loop k st) Q s.

Lemma record_continues Q k x i wt rest tail e st s : place k x -> looking k st -> ready k (moved x) i st s -> 0 <= wt < 8 ->
  d_stream s = buf_in (varint (f_tag x.1.1 * 8 + wt) ++ rest) tail e ->
  (forall st1 s1, found k (moved x) i rest tail e st s st1 s1 ->
    wp (field_step wt (n_iter st1)) (fun r s2 => r = (true, n_iter st1) /\ bytes_left (d_stream s2) <= zlen rest /\ continues Q st1 s2) s1) ->
  continues Q st s.
Proof.
  intros Hp Hl Hr Hw Hs Hk j Hj. destruct (one_found k x i wt rest tail e st s Hp Hl Hr Hw Hs) as (st1 & s1 & Hf & E).
  destruct (Hk st1 s1 Hf) as (r & s2 & E2 & -> & Hz & Hc). pose proof (zlen_varint (f_tag x.1.1 * 8 + wt)). pose proof (zlen_nonneg rest).
  assert (Hleft : bytes_left (d_stream s) = zlen (varint (f_tag x.1.1 * 8 + wt)) + zlen rest) by (rewrite Hs; cbn [bytes_left buf_in]; apply zlen_app).
  destruct j as [|j]; [lia|]. cbn [noinit_loop]. apply wp_bind. eexists _, s. split; [reflexivity|].
  destruct (Z.eqb_spec (bytes_left (d_stream s)) 0); [lia|]. apply wp_bind. rewrite (bind_ok _ _ _ _ _ E2) in E.
  eexists _, s2. split; [exact E|]. cbv beta iota. destruct st1. cbn in Hc |- *. apply Hc. lia.
Qed.

(** The state of the loop when the first [k] members are decoded. *)
Context (s0 : dec U).
Hypothesis dest_mapped : mapped (d_mem s0) dest (dest + size).
Hypothesis defaults_mapped : defaults_ok tables (d_mem s0).

Record inv (k : nat) (st : noinit) (s : dec U) : Prop := {
  inv_looking : looking k st;
  inv_fixed : fixed_done k st s;
  inv_mem : halfway (d_mem s) k;
  inv_frame : frame (fun p => dest <= p < dest + size) (d_mem s0) (d_mem s);
  inv_blocks : d_blocks s = d_blocks s0 }.

(** *** Members with one value *)

(** The member with its value, and the tag of its union. *)
Definition holds (x : pb_field * Z * Z) (v : value) (m' : mem) : Prop :=
  member_at m' (sub m') (moved x) = Some (Some [v]) /\ (htype x = PB_HTYPE_ONEOF -> load_u32 m' (moved x).2 = Some (f_tag x.1.1)).

Lemma calm_frame P (s s' : dec U) : calm P s s' -> frame P (d_mem s) (d_mem s').
Proof. by intros [H _]. Qed.

Lemma load_size_wp z v s : load_u32 (d_mem s) z = Some v -> wp (load_size (InStruct z)) (fun w s' => w = v /\ s' = s) (s : dec U).
Proof.
  unfold load_u32. intros H. apply fmap_Some in H as (l & El & ->). cbn [load_size]. apply wp_bind. unfold load_bytes.
  eexists l, s. rewrite El. split; [done|]. by apply wp_ret.
Qed.

Section single.
Context (k : nat) (x : pb_field * Z * Z) (l rest tail : list Z) (e : option string) (v : value).
Hypothesis Hplace : place k x.
Hypothesis Hlen : zlen l < 2 ^ 32.
Hypothesis Hpay : payload m sub_wire x.1.1 x.1.2 = Done l.
Hypothesis Hval : value_at m (sub m) x.1.1 x.1.2 = Some v.
Hypothesis Hone : htype x <> PB_HTYPE_REPEATED.

(** The state in which the value of [x] is decoded. *)
Record before (s : dec U) : Prop := {
  bf_mapped : mapped (d_mem s) dest (dest + size);
  bf_defaults : defaults_ok tables (d_mem s);
  bf_stream : d_stream s = buf_in (prefixed (ltype x) l ++ rest) tail e }.

Lemma data_inside p : (moved x).1.2 <= p < (moved x).1.2 + f_data_size x.1.1 -> in_slot (moved x) p.
Proof. left. unfold data_bytes. cbn [shift fst snd] in *. destruct (Z.eqb_spec (htype x) PB_HTYPE_REPEATED); [done|lia]. Qed.

Lemma before_quiet P s s' : before s -> quiet P s s' -> (forall p, P p -> in_slot (moved x) p) -> before s'.
Proof.
  intros [Hm Hd Hs] (Hf & _ & _ & Hst) HP. constructor; [by eapply frame_mapped|by eapply defaults_frame|congruence].
Qed.

Lemma value_wp s : before s -> (ltype x = PB_LTYPE_SUBMESSAGE -> dsub (d_mem s) (f_ptr x.1.1) (moved x).1.2) ->
  wp (call x.1.1 (moved x).1.2) (fun b s' => b = true /\ d_stream s' = buf_in rest tail e /\
    calm (fun p => (moved x).1.2 <= p < (moved x).1.2 + f_data_size x.1.1) s s' /\
    value_at (d_mem s') (sub (d_mem s')) x.1.1 (moved x).1.2 = Some v) s.
Proof.
  intros [Hm Hd Hs] Hsub. pose proof (pl_fits _ _ Hplace) as (Hok & Hst & Hit). pose proof (pl_tidy _ _ Hplace) as Ht.
  eapply call_reads with (m := m) (sub_wire := sub_wire) (sub_val := sub m) (p := x.1.2); try done.
  - apply (ta_scalar _ _ _ Ht).
  - apply (ta_sub _ _ _ Ht).
  - apply Hplace.
  - intros. by apply Hsub.
  - intros p Hp. apply Hm. by apply (pl_inside _ _ Hplace), data_inside.
Qed.

Lemma default_sub m' : default_slot m' (dsub m') (moved x) -> htype x <> PB_HTYPE_ONEOF ->
  ltype x = PB_LTYPE_SUBMESSAGE -> dsub m' (f_ptr x.1.1) (moved x).1.2.
Proof.
  unfold default_slot, default_data. destruct x as [[f a] z]. cbn [shift fst snd] in *. intros Hd Ho E.
  destruct (htype_cases (f_type f)) as [H|[H|[H|H]]]; try done; rewrite H, ?E in Hd;
    cbn [Z.eqb Pos.eqb PB_HTYPE_OPTIONAL PB_HTYPE_REQUIRED PB_LTYPE_SUBMESSAGE] in Hd; [by apply Hd|].
  destruct (_ =? _); [done|]. by apply Hd.
Qed.

Lemma holds_intro m' : value_at m' (sub m') x.1.1 (moved x).1.2 = Some v ->
  (htype x = PB_HTYPE_OPTIONAL -> (moved x).2 = (moved x).1.2 \/ load m' (moved x).2 1 = Some [1]) ->
  (htype x = PB_HTYPE_ONEOF -> load_u32 m' (moved x).2 = Some (f_tag x.1.1)) -> holds x v m'.
Proof.
  intros Hv Ho Hu. split; [|exact Hu]. unfold member_at. destruct x as [[f a] z]. cbn [shift fst snd] in *.
  destruct (htype_cases (f_type f)) as [H|[H|[H|H]]]; try done; rewrite H; rewrite H in Ho, Hu;
    cbn [Z.eqb Pos.eqb PB_HTYPE_OPTIONAL PB_HTYPE_REQUIRED PB_HTYPE_REPEATED PB_HTYPE_ONEOF]; [by rewrite Hv| |].
  - destruct (Z.eqb_spec (z + (dest - src)) (a + (dest - src))); [by rewrite Hv|]. destruct (Ho eq_refl) as [|Hl]; [done|]. rewrite Hl, Hv. done.
  - rewrite Hu by done. cbn [mbind option_bind]. rewrite Z.eqb_refl, Hv. done.
Qed.

(** The field is decoded, from state [s]. *)
Definition decoded {A} (r0 : A) (s : dec U) (r : A) (s' : dec U) : Prop :=
  r = r0 /\ d_stream s' = buf_in rest tail e /\ calm (in_slot (moved x)) s s' /\ holds x v (d_mem s').

(** The call of the decoder ends it: what was stored at [(moved x).2] stays. *)
Lemma finish_wp s s1 : before s1 -> calm (in_slot (moved x)) s s1 ->
  (ltype x = PB_LTYPE_SUBMESSAGE -> dsub (d_mem s1) (f_ptr x.1.1) (moved x).1.2) ->
  (htype x = PB_HTYPE_OPTIONAL -> (moved x).2 = (moved x).1.2 \/ load (d_mem s1) (moved x).2 1 = Some [1]) ->
  (htype x = PB_HTYPE_ONEOF -> load_u32 (d_mem s1) (moved x).2 = Some (f_tag x.1.1)) ->
  wp (call x.1.1 (moved x).1.2) (decoded true s) s1.
Proof.
  intros Hb Hc Hsub Ho Hu. pose proof (pl_tidy' _ _ Hplace) as Ht. eapply wp_mono; [by apply value_wp|].
  intros b s2 (-> & H2 & H3 & H4). split; [done|]. split; [done|]. split.
  { etransitivity; [exact Hc|]. eapply calm_mono; [exact H3|exact data_inside]. }
  assert (Hkeep : forall p, (moved x).2 <> (moved x).1.2 -> (moved x).2 <= p < (moved x).2 + cell_bytes (moved x) ->
    (moved x).1.2 <= p < (moved x).1.2 + f_data_size x.1.1 -> False).
  { intros p Hne Hp1 Hp2. eapply (ta_apart _ _ _ Ht Hne p); [|exact Hp1]. unfold data_bytes. cbn [shift fst snd] in *.
    destruct (Z.eqb_spec (htype x) PB_HTYPE_REPEATED); [done|lia]. }
  apply holds_intro; [done| |]; intros E; unfold cell_bytes in Hkeep; cbn [shift fst snd] in *; rewrite E in Hkeep;
    cbn [Z.eqb Pos.eqb PB_HTYPE_OPTIONAL PB_HTYPE_REQUIRED PB_HTYPE_REPEATED PB_HTYPE_ONEOF] in Hkeep.
  - destruct (decide (x.2 + (dest - src) = x.1.2 + (dest - src))) as [|Hne]; [by left|]. right.
    destruct (Ho E) as [|Hl]; [done|]. rewrite (load_same (d_mem s1)); [exact Hl|]. eapply frame_same; [apply H3|].
    intros p Hp. apply (Hkeep p Hne). apply Z.eqb_neq in Hne. rewrite Hne. lia.
  - rewrite (load_u32_same (d_mem s1)); [by apply Hu|]. eapply frame_same; [apply H3|]. intros p Hp. apply Hkeep; [|done].
    pose proof (ta_oneof _ _ _ (pl_tidy _ _ Hplace) E). lia.
Qed.

Lemma optional_cell p : htype x = PB_HTYPE_OPTIONAL -> (moved x).2 <> (moved x).1.2 -> (moved x).2 <= p < (moved x).2 + 1 -> in_slot (moved x) p.
Proof.
  intros E Hne Hp. right. unfold cell_bytes. destruct x as [[f a] z]. cbn [shift fst snd] in *. rewrite E.
  cbn [Z.eqb Pos.eqb PB_HTYPE_OPTIONAL PB_HTYPE_REQUIRED]. apply Z.eqb_neq in Hne. rewrite Hne. lia.
Qed.

Lemma optional_wp it s : pData it = (moved x).1.2 -> pSize it = InStruct (moved x).2 -> before s ->
  htype x = PB_HTYPE_OPTIONAL -> (ltype x = PB_LTYPE_SUBMESSAGE -> dsub (d_mem s) (f_ptr x.1.1) (moved x).1.2) ->
  wp ((if negb (size_is_data it) then store_has (pSize it) 1 else ret tt) ;; call x.1.1 (moved x).1.2) (decoded true s) s.
Proof.
  intros Hd Hz Hb E Hsub. unfold size_is_data. rewrite Hz, Hd. destruct (Z.eqb_spec (moved x).2 (moved x).1.2) as [Ez|Nz]; cbn [negb store_has].
  - apply (wp_bind (ret _)), wp_ret. apply finish_wp; try done; [by left|by rewrite E].
  - eapply wp_seq; [apply (store_wp (moved x).2 [1]); [|by repeat constructor]|].
    { rewrite zlen_cons, zlen_nil. intros p Hp. apply (bf_mapped _ Hb). apply (pl_inside _ _ Hplace). apply optional_cell; [done..|lia]. }
    rewrite zlen_cons, zlen_nil. intros [] s1 [Hq Hl].
    assert (Hcell : forall p, (moved x).2 <= p < (moved x).2 + (1 + 0) -> in_slot (moved x) p) by (intros; apply optional_cell; (done || lia)).
    apply finish_wp.
    + by eapply before_quiet.
    + eapply calm_mono; [by apply quiet_calm|exact Hcell].
    + intros Es. pose proof (pl_fits _ _ Hplace) as (_ & _ & Hit). destruct (item_submessage tables _ _ _ Hit Es) as [_ Hf].
      eapply default_msg_same; [done|exact Hf| |by apply Hsub]. eapply frame_same; [apply Hq|]. intros p Hp1 Hp2.
      eapply (ta_apart _ _ _ (pl_tidy' _ _ Hplace) Nz p); [unfold data_bytes; cbn [shift fst snd] in *; rewrite E; cbn; lia|].
      unfold cell_bytes. destruct x as [[f a] z]. cbn [shift fst snd] in *. rewrite E. cbn [Z.eqb Pos.eqb PB_HTYPE_OPTIONAL PB_HTYPE_REQUIRED].
      apply Z.eqb_neq in Nz. rewrite Nz. lia.
    + intros _. by right.
    + rewrite E. done.
Qed.

Lemma oneof_cell_moved p : htype x = PB_HTYPE_ONEOF -> (moved x).2 <= p < (moved x).2 + 4 -> in_slot (moved x) p.
Proof. intros E. apply oneof_cell. exact E. Qed.

(** A submessage of a union is set to its defaults first. *)
Lemma oneof_init_wp s : before s -> htype x = PB_HTYPE_ONEOF ->
  wp (if (ltype x =? PB_LTYPE_SUBMESSAGE) && negb (0 =? f_tag x.1.1) then
        memset_zero (moved x).1.2 (f_data_size x.1.1) ;; pb_message_set_to_defaults tables (S n) (f_ptr x.1.1) (moved x).1.2
      else ret tt)
    (fun _ s' => quiet (fun p => (moved x).1.2 <= p < (moved x).1.2 + f_data_size x.1.1) s s' /\
       (ltype x = PB_LTYPE_SUBMESSAGE -> dsub (d_mem s') (f_ptr x.1.1) (moved x).1.2)) s.
Proof.
  intros Hb E. pose proof (pl_fits _ _ Hplace) as ((_ & Hds & _) & _ & Hit). pose proof (ta_tag _ _ _ (pl_tidy _ _ Hplace)) as Ht.
  destruct (Z.eqb_spec 0 (f_tag x.1.1)); [lia|]. cbn [negb]. rewrite andb_true_r.
  destruct (Z.eqb_spec (ltype x) PB_LTYPE_SUBMESSAGE) as [Es|Ns]; [|by apply wp_ret].
  destruct (item_submessage tables _ _ _ Hit Es) as [_ Hf]. pose proof (ta_sub _ _ _ (pl_tidy _ _ Hplace) Es) as Htd.
  assert (Hm : mapped (d_mem s) (moved x).1.2 ((moved x).1.2 + f_data_size x.1.1)).
  { intros p Hp. apply (bf_mapped _ Hb). apply (pl_inside _ _ Hplace). by apply data_inside. }
  eapply wp_seq; [apply store_wp|]; rewrite ?zlen_replicate, ?Z2Nat.id by lia; [exact Hm|apply Forall_replicate; unfold is_byte; lia|].
  intros [] s1 [Hq1 _]. unfold pb_message_set_to_defaults.
  eapply wp_mono; [apply (sets_defaults_all tables tables_ok (S n) _ (f_data_size x.1.1) (moved x).1.2 s1); [by apply fits_S|by apply tidy_S| |]|].
  - eapply frame_mapped; [apply Hq1|exact Hm].
  - eapply defaults_frame; [apply Hq1|apply Hb].
  - intros [] s2 [Hq2 Hd]. split; [by etransitivity|]. intros _. by eapply default_msg_S.
Qed.

Lemma oneof_wp wt it s : pos tables it = x.1.1 -> pData it = (moved x).1.2 -> pSize it = InStruct (moved x).2 -> before s ->
  htype x = PB_HTYPE_ONEOF -> load_u32 (d_mem s) (moved x).2 = Some 0 ->
  wp (decode_static_field user_read tables alloc decode decode_noinit (S n) wt it) (decoded true s) s.
Proof.
  intros Hf Hd Hz Hb E Hw. unfold decode_static_field. rewrite Hf, Hd, Hz, E.
  cbn [Z.eqb Pos.eqb PB_HTYPE_OPTIONAL PB_HTYPE_REQUIRED PB_HTYPE_REPEATED PB_HTYPE_ONEOF].
  eapply wp_seq; [by apply load_size_wp|]. intros w s' [-> ->].
  eapply wp_seq; [by apply oneof_init_wp|]. intros [] s1 [Hq1 Hsub]. pose proof (pl_tidy' _ _ Hplace) as Ht.
  assert (Hne : (moved x).2 <> (moved x).1.2) by (by apply (ta_oneof _ _ _ Ht)).
  assert (Hb1 : before s1) by (eapply before_quiet; [exact Hb|exact Hq1|exact data_inside]).
  eapply wp_seq; [apply store_size_wp|].
  - pose proof (ta_tag _ _ _ Ht). cbn [shift fst snd] in *. lia.
  - intros p Hp. apply (bf_mapped _ Hb1). apply (pl_inside _ _ Hplace). by apply oneof_cell_moved.
  - intros [] s2 [Hq2 Hl2].
    assert (Hcell : forall p, (moved x).2 <= p < (moved x).2 + 4 -> in_slot (moved x) p) by (intros; by apply oneof_cell_moved).
    apply finish_wp; [by eapply before_quiet| | |by rewrite E|done].
    + etransitivity; (eapply calm_mono; [apply quiet_calm; eassumption|]); [exact data_inside|exact Hcell].
    + intros Es. pose proof (pl_fits _ _ Hplace) as (_ & _ & Hit). destruct (item_submessage tables _ _ _ Hit Es) as [_ Hft].
      eapply default_msg_same; [done|exact Hft| |by apply Hsub]. eapply frame_same; [apply Hq2|]. intros p Hp1 Hp2.
      eapply (ta_apart _ _ _ Ht Hne p); [unfold data_bytes; cbn [shift fst snd] in *; rewrite E; cbn; lia|].
      unfold cell_bytes. destruct x as [[f a] z]. cbn [shift fst snd] in *. rewrite E. cbn. lia.
Qed.

Lemma single_wp it wt s : pos tables it = x.1.1 -> pData it = (moved x).1.2 -> pSize it = InStruct (moved x).2 ->
  before s -> default_slot (d_mem s) (dsub (d_mem s)) (moved x) -> wp (field_step wt it) (decoded (true, it) s) s.
Proof.
  intros Hf Hd Hz Hb Hdef. pose proof (pl_fits _ _ Hplace) as (_ & Hst & _). unfold decode_field. rewrite Hf.
  assert (Hdone : forall mm : D bool, wp mm (decoded true s) s -> wp (let* ok := mm in ret (ok, it)) (decoded (true, it) s) s).
  { intros mm H. eapply wp_seq; [exact H|]. intros b s' (-> & H2). by apply wp_ret. }
  destruct (Z.eqb_spec (htype x) PB_HTYPE_ONEOF) as [E|Ne].
  - assert (Hw : load_u32 (d_mem s) (moved x).2 = Some 0).
    { unfold default_slot in Hdef. destruct x as [[f a] z]. cbn [shift fst snd] in *. rewrite E in Hdef.
      cbn [Z.eqb Pos.eqb PB_HTYPE_OPTIONAL PB_HTYPE_REQUIRED PB_HTYPE_REPEATED PB_HTYPE_ONEOF] in Hdef. exact Hdef. }
    apply wp_bind. unfold pb_release_union_field. rewrite Hz. eapply wp_seq; [by apply load_size_wp|]. intros w s' [-> ->].
    cbn [Z.eqb orb]. apply wp_ret. cbn [negb]. rewrite Hf, Hst. cbn [Z.eqb PB_ATYPE_STATIC]. apply Hdone. by apply oneof_wp.
  - pose proof (default_sub _ Hdef Ne) as Hsub. apply (wp_bind (ret _)), wp_ret. cbn [negb]. rewrite Hf, Hst. cbn [Z.eqb PB_ATYPE_STATIC].
    apply Hdone. unfold decode_static_field. rewrite Hf, Hd.
    destruct (htype_cases (f_type x.1.1)) as [E|[E|[E|E]]]; try done; rewrite E;
      cbn [Z.eqb Pos.eqb PB_HTYPE_OPTIONAL PB_HTYPE_REQUIRED].
    + apply finish_wp; try done; by rewrite E.
    + by apply optional_wp.
Qed.
End single.

Lemma wire_record tag wt lt l rest : 0 <= lt < 16 -> wire_type_of lt = Some wt ->
  wire [Rec tag wt l] ++ rest = varint (tag * 8 + wt) ++ prefixed lt l ++ rest.
Proof.
  intros Hl Hw. unfold wire, prefixed. cbn [fmap list_fmap concat wire_item map]. rewrite app_nil_r, (wire_type_packable _ _ Hl Hw).
  destruct (packable lt); cbn [negb]; by rewrite <- app_assoc.
Qed.

Lemma inv_mapped k st s : inv k st s -> mapped (d_mem s) dest (dest + size) /\ defaults_ok tables (d_mem s).
Proof. intros H. split; [eapply frame_mapped; [apply H|done]|eapply defaults_frame; [apply H|done]]. Qed.

Lemma inv_pending k x st s : inv k st s -> slots (tables t) src !! k = Some x -> pending (d_mem s) x.
Proof. intros H Hx. pose proof (inv_mem _ _ _ H k x Hx) as Hp. rewrite decide_False in Hp by lia. exact Hp. Qed.

Lemma not_fixed k x i rest tail e st s st1 s1 : found k (moved x) i rest tail e st s st1 s1 -> htype x <> PB_HTYPE_REPEATED ->
  pSize (n_iter st1) = InStruct (moved x).2 /\ fixed_count_field st1 = fixed_count_field st /\ fixed_count_size s1 = fixed_count_size s.
Proof.
  intros Hf Hn. pose proof (fd_size _ _ _ _ _ _ _ _ _ _ Hf) as H. rewrite fixed_moved in H. unfold fixed in H.
  apply Z.eqb_neq in Hn. rewrite Hn in H. exact H.
Qed.

Lemma single_step Q k x l wt rest tail e v st s : slots (tables t) src !! k = Some x -> inv k st s ->
  wire_type_of (ltype x) = Some wt -> payload m sub_wire x.1.1 x.1.2 = Done l -> zlen l < 2 ^ 32 ->
  value_at m (sub m) x.1.1 x.1.2 = Some v -> htype x <> PB_HTYPE_REPEATED -> member_at m (sub m) x = Some (Some [v]) ->
  (htype x = PB_HTYPE_ONEOF -> load_u32 m x.2 = Some (f_tag x.1.1)) ->
  d_stream s = buf_in (wire [Rec (f_tag x.1.1) wt l] ++ rest) tail e ->
  (forall st1 s1, inv (S k) st1 s1 -> d_stream s1 = buf_in rest tail e -> continues Q st1 s1) -> continues Q st s.
Proof.
  intros Hx Hinv Hwt Hpay Hlen Hval Hone Hc Hu Hs Hk. pose proof (placed _ _ Hx) as Hp. pose proof (inv_mapped _ _ _ Hinv) as [Hm Hd].
  assert (Hdef : default_slot (d_mem s) (dsub (d_mem s)) (moved x)).
  { destruct (inv_pending _ _ _ _ Hinv Hx) as [H|(E & w & H1 & _ & H2)]; [done|]. rewrite (Hu E) in H1. congruence. }
  rewrite (wire_record _ _ _ _ _ (ltype_cases _) Hwt) in Hs.
  eapply (record_continues Q k x 0 wt); [done|apply Hinv| |by eapply wire_type_range|exact Hs|].
  { unfold ready. rewrite fixed_moved. unfold fixed. assert (Hone' := Hone). apply Z.eqb_neq in Hone'. rewrite Hone'. split; [apply Hinv|done]. }
  intros st1 s1 Hf. destruct (not_fixed _ _ _ _ _ _ _ _ _ _ Hf Hone) as (Hsz & Hfc & Hcs). destruct Hf as [Hst Hpos Hfld Hdata _ Hseen Hmem Hbl Hstr].
  rewrite <- Hmem in Hdef, Hm, Hd. eapply wp_mono; [eapply (single_wp k x l rest tail e v); try done; by constructor|].
  intros r s2 (-> & Hstr2 & (Hfr & Hbl2 & Hcs2) & Hh & Hu2). split; [done|]. split.
  { rewrite Hstr2, zlen_app. pose proof (zlen_nonneg (prefixed (ltype x) l)). cbn [bytes_left buf_in]. lia. }
  apply Hk; [|done].
  constructor; [constructor; [done| |done]| | | |].
  - rewrite Hsz. done.
  - intros j Hj. rewrite Hfc in Hj. destruct (inv_fixed _ _ _ Hinv j Hj) as [H1 H2]. split; [lia|congruence].
  - eapply (advance k x (Some [v]) (d_mem s)); [apply Hinv|exact Hx|by rewrite <- Hmem|exact Hc|exact Hh|]. right. intros E. split; [by apply Hu|by apply Hu2].
  - etransitivity; [apply (inv_frame _ _ _ Hinv)|]. rewrite <- Hmem. eapply frame_mono; [exact Hfr|]. apply (pl_inside _ _ Hp).
  - rewrite Hbl2, Hbl. apply Hinv.
Qed.

(** *** Arrays *)

Section array.
Context (k : nat) (x : pb_field * Z * Z) (ls : list (list Z)) (vs : list value).
Hypothesis Hplace : place k x.
Hypothesis Hrep : htype x = PB_HTYPE_REPEATED.
(** The payloads and the values of the items in the source. *)
Hypothesis Hpays : forall i l, ls !! i = Some l -> payload m sub_wire x.1.1 (x.1.2 + f_data_size x.1.1 * Z.of_nat i) = Done l /\ zlen l < 2 ^ 32.
Hypothesis Hvals : forall i v, vs !! i = Some v -> value_at m (sub m) x.1.1 (x.1.2 + f_data_size x.1.1 * Z.of_nat i) = Some v.
Hypothesis Hlength : length vs = length ls.
Hypothesis Hroom : Z.of_nat (length ls) <= f_array_size x.1.1.

#[local] Abbreviation f := (x.1.1).
#[local] Abbreviation ds := (f_data_size x.1.1).
#[local] Abbreviation base := ((moved x).1.2).

(** The first [i] items are decoded. *)
Definition filled (m' : mem) (i : nat) : Prop := forall j v, (j < i)%nat -> vs !! j = Some v ->
  value_at m' (sub m') f (base + ds * Z.of_nat j) = Some v.

(** Where the decoder counts them. *)
Definition counter (p : size_loc) : Prop := match p with InStruct z => fixed x = false /\ z = (moved x).2 | Local => True end.
Definition count_is (p : size_loc) (s : dec U) (c : Z) : Prop :=
  match p with InStruct z => load_u32 (d_mem s) z = Some c | Local => fixed_count_size s = c end.

(** The state, since [sb], with [i] items decoded and the count [c]. *)
Record items (p : size_loc) (sb s : dec U) (i : nat) (c : Z) : Prop := {
  ar_mapped : mapped (d_mem s) dest (dest + size);
  ar_defaults : defaults_ok tables (d_mem s);
  ar_filled : filled (d_mem s) i;
  ar_count : count_is p s c;
  ar_frame : frame (in_slot (moved x)) (d_mem sb) (d_mem s);
  ar_blocks : d_blocks s = d_blocks sb;
  ar_local : p <> Local -> fixed_count_size s = fixed_count_size sb }.

Lemma items_room i : (i < length ls)%nat -> 0 <= ds /\ 0 <= ds * Z.of_nat i /\ ds * Z.of_nat i + ds <= data_bytes f < 2 ^ 32.
Proof.
  intros Hi. pose proof (pl_fits _ _ Hplace) as ((_ & Hds & Has) & _). destruct (ta_repeated _ _ _ (pl_tidy _ _ Hplace) Hrep) as [Hb _].
  unfold data_bytes in *. rewrite Hrep in *. rewrite Z.eqb_refl in *. nia.
Qed.

Lemma item_inside i p : (i < length ls)%nat -> base + ds * Z.of_nat i <= p < base + ds * Z.of_nat i + ds -> in_slot (moved x) p.
Proof. intros Hi Hp. destruct (items_room i Hi) as (H1 & H2 & H3). left. cbn [shift fst snd] in *. lia. Qed.

(** The count is not among the data. *)
Lemma counter_apart z p : fixed x = false -> z = (moved x).2 -> z <= p < z + 4 ->
  in_slot (moved x) p /\ (base <= p < base + data_bytes f -> False).
Proof.
  intros Hf -> Hp. assert (Hne : (moved x).2 <> base).
  { intros E. rewrite <- fixed_moved in Hf. unfold fixed in Hf. change (htype (moved x)) with (htype x) in Hf. rewrite Hrep, E, !Z.eqb_refl in Hf. done. }
  assert (Hc : cell_bytes (moved x) = 4).
  { unfold cell_bytes. destruct x as [[g a] z]. cbn [shift fst snd] in *. rewrite Hrep. done. }
  split; [right; rewrite Hc; lia|]. intros Hd. eapply (ta_apart _ _ _ (pl_tidy' _ _ Hplace) Hne p); [exact Hd|rewrite Hc; lia].
Qed.

Lemma filled_frame P m1 m2 i : frame P m1 m2 -> (i <= length ls)%nat ->
  (forall j p, (j < i)%nat -> base + ds * Z.of_nat j <= p < base + ds * Z.of_nat j + ds -> P p -> False) -> filled m1 i -> filled m2 i.
Proof.
  intros Hfr Hi HP Hf j v Hj Hv. pose proof (pl_fits _ _ Hplace) as (Hok & _ & Hit).
  rewrite (value_same tables n m1 m2 (sub m1) (sub m2)) with (room := ds); [by apply Hf|intros; by eapply msg_same|done|done|].
  eapply frame_same; [exact Hfr|]. intros p. by apply HP.
Qed.

Lemma load_count_wp p sb s i c : items p sb s i c -> wp (load_size p) (fun w s' => w = c /\ s' = s) s.
Proof.
  intros H. pose proof (ar_count _ _ _ _ _ H) as Hc. destruct p as [z|]; cbn [count_is] in Hc; [by apply load_size_wp|].
  unfold wp. cbn [load_size]. eexists _, s. by rewrite Hc.
Qed.

Lemma store_count_wp p sb s i c v : counter p -> items p sb s i c -> (i <= length ls)%nat -> 0 <= v < 2 ^ 32 ->
  wp (store_size p v) (fun _ s' => items p sb s' i v /\ d_stream s' = d_stream s) s.
Proof.
  intros Hp [Hm Hd Hf Hc Hfr Hb Hl] Hi Hv. destruct p as [z|].
  - destruct Hp as [Hfx ->].
    assert (Hin : forall q, (moved x).2 <= q < (moved x).2 + 4 -> in_slot (moved x) q) by (intros q Hq; by eapply counter_apart).
    eapply wp_mono; [apply store_size_wp; [done|]|].
    { intros q Hq. apply Hm, (pl_inside _ _ Hplace), Hin, Hq. }
    intros [] s' [(Hfr' & Hb' & Hc' & Hs') Hl']. split; [|done]. constructor; try congruence.
    + by eapply frame_mapped.
    + by eapply defaults_frame.
    + eapply filled_frame; [exact Hfr'|done| |done]. intros j q Hj Hq Hz. destruct (items_room j ltac:(lia)) as (H1 & H2 & H3).
      eapply (proj2 (counter_apart _ q Hfx eq_refl Hz)). lia.
    + etransitivity; [exact Hfr|]. by eapply frame_mono.
    + intros _. rewrite Hc'. by apply Hl.
  - unfold wp. cbn [store_size]. eexists tt, _. split; [reflexivity|]. split; [|done]. by constructor.
Qed.

(** An item. *)
Lemma item_wp p sb s i c l rest tail e : counter p -> items p sb s i c -> ls !! i = Some l ->
  d_stream s = buf_in (prefixed (ltype x) l ++ rest) tail e ->
  wp (call f (item_at f base (Z.of_nat i))) (fun b s' => b = true /\ items p sb s' (S i) c /\ d_stream s' = buf_in rest tail e) s.
Proof.
  intros Hp [Hm Hd Hf Hc Hfr Hb Hl] Hi Hs. pose proof (lookup_lt_Some _ _ _ Hi) as Hlt. destruct (items_room i Hlt) as (H1 & H2 & H3).
  destruct (Hpays i l Hi) as [Hpay Hz]. destruct (lookup_lt_is_Some_2 vs i ltac:(lia)) as [v Hv].
  pose proof (pl_fits _ _ Hplace) as (Hok & Hst & Hit). pose proof (pl_tidy _ _ Hplace) as Ht. pose proof (pl_address _ _ Hplace).
  unfold item_at. rewrite u32_small by lia.
  eapply wp_mono; [eapply call_reads with (m := m) (sub_wire := sub_wire) (sub_val := sub m) (p := x.1.2 + ds * Z.of_nat i) (v := v); try done|].
  - apply (ta_scalar _ _ _ Ht).
  - apply (ta_sub _ _ _ Ht).
  - lia.
  - by apply Hvals.
  - intros q Hq. apply Hm, (pl_inside _ _ Hplace). by eapply item_inside.
  - intros b s' (-> & Hs' & (Hfr' & Hb' & Hc') & Hval). split; [done|]. split; [|done]. constructor; try congruence.
    + by eapply frame_mapped.
    + by eapply defaults_frame.
    + intros j w Hj Hw. destruct (decide (j = i)) as [->|]; [by simplify_eq|].
      apply (filled_frame _ _ _ i Hfr' ltac:(lia)); [|done|lia|done]. intros j' q Hj' Hq1 Hq2. nia.
    + destruct p as [z|]; cbn [count_is] in *; [|congruence]. destruct Hp as [Hfx ->]. rewrite (load_u32_same (d_mem s)); [done|].
      eapply frame_same; [exact Hfr'|]. intros q Hq1 Hq2. cbv beta in *. eapply (proj2 (counter_apart _ q Hfx eq_refl Hq1)). lia.
    + etransitivity; [exact Hfr|]. eapply frame_mono; [exact Hfr'|]. intros q Hq. by eapply item_inside.
    + intros Hn. rewrite Hc'. by apply Hl.
Qed.

#[local] Abbreviation total := (length ls).

Lemma packed_loop_wp it p sb par tail e : packable (ltype x) = true -> (forall l, l ∈ ls -> 1 <= zlen l) ->
  pos tables it = f -> pData it = base -> pSize it = p -> counter p ->
  forall rest i k' s, (i <= total)%nat -> drop i ls = rest -> items p sb s i (Z.of_nat i) -> (length rest <= k')%nat -> d_stream s = par ->
  wp (static_packed_loop user_read tables alloc decode decode_noinit k' it (buf_in (concat rest) tail e))
    (fun r s' => r = (true, buf_in [] tail e) /\ items p sb s' total (Z.of_nat total) /\ d_stream s' = par) s.
Proof.
  intros Hpk Hpos Hf Hd Hz Hp. induction rest as [|l rest IH]; intros i k' s Hle Hdrop Hs Hk Hpar.
  - assert (Hi : (total <= i)%nat) by (apply (f_equal length) in Hdrop; rewrite length_drop in Hdrop; cbn in Hdrop; lia).
    assert (E : static_packed_loop user_read tables alloc decode decode_noinit k' it (buf_in (concat []) tail e) = ret (true, buf_in [] tail e)) by (by destruct k').
    rewrite E. apply wp_ret. split; [done|]. split; [|done]. assert (i = total) as <- by lia. done.
  - assert (Hi : ls !! i = Some l) by (rewrite <- (Nat.add_0_r i), <- lookup_drop, Hdrop; done).
    pose proof (lookup_lt_Some _ _ _ Hi) as Hlt. destruct k' as [|k']; [cbn in Hk; lia|]. cbn [static_packed_loop].
    pose proof (Hpos l (list_elem_of_lookup_2 _ _ _ Hi)). pose proof (zlen_nonneg (concat rest)).
    assert (Hleft : bytes_left (buf_in (U := U) (concat (l :: rest)) tail e) = zlen l + zlen (concat rest)) by (cbn [bytes_left buf_in concat]; apply zlen_app).
    rewrite Hleft, Z.gtb_ltb. destruct (Z.ltb_spec 0 (zlen l + zlen (concat rest))); [|lia]. rewrite Hf, Hd, Hz.
    eapply wp_seq; [by eapply load_count_wp|]. intros w s1 [-> ->]. destruct (Z.ltb_spec (Z.of_nat i) (f_array_size f)); [|lia].
    apply wp_bind, with_stream_wp. eapply wp_mono; [eapply (item_wp p sb _ i (Z.of_nat i) l (concat rest) tail e); [exact Hp| |exact Hi|]|].
    + destruct Hs. by constructor.
    + cbn [d_stream]. unfold prefixed. rewrite Hpk. done.
    + intros b s1 (-> & Hs1 & Hst1). cbn [negb]. rewrite Hst1.
      set (s2 := Dec (d_mem s1) (d_blocks s1) (fixed_count_size s1) (d_stream s)).
      assert (Hs2 : items p sb s2 (S i) (Z.of_nat i)) by (destruct Hs1; by constructor).
      eapply wp_seq; [by eapply load_count_wp|]. intros w s3 [-> ->]. rewrite u32_small by (destruct Hplace as [_ _ [(_ & _ & ?) _] _ _ _ _]; lia).
      eapply wp_seq; [eapply (store_count_wp p sb s2 (S i) _ (Z.of_nat i + 1)); [done|exact Hs2|lia|]|].
      { destruct Hplace as [_ _ [(_ & _ & ?) _] _ _ _ _]. lia. }
      intros [] s3 [Hs3 Hst3]. apply (IH (S i)); [lia|by apply (drop_S_next _ _ _ _ Hdrop)| |cbn in Hk; lia|by rewrite Hst3].
      replace (Z.of_nat (S i)) with (Z.of_nat i + 1) by lia. done.
Qed.

#[local] Abbreviation static_field := (decode_static_field user_read tables alloc decode decode_noinit (S n)).

Lemma items_state p sb s i c stream : items p sb s i c -> items p sb (Dec (d_mem s) (d_blocks s) (fixed_count_size s) stream) i c.
Proof. intros []. by constructor. Qed.

Lemma length_concat (l : list (list Z)) : (forall y, y ∈ l -> 1 <= zlen y) -> Z.of_nat (length l) <= zlen (concat l).
Proof.
  induction l as [|y l IH]; intros H; [done|]. cbn [length concat]. rewrite zlen_app. pose proof (H y ltac:(set_solver)).
  specialize (IH ltac:(set_solver)). lia.
Qed.

(** A packed array. *)
Lemma packed_wp it p sb rest tail e s : packable (ltype x) = true -> (forall l, l ∈ ls -> 1 <= zlen l) -> zlen (concat ls) < 2 ^ 32 ->
  pos tables it = f -> pData it = base -> pSize it = p -> counter p -> items p sb s 0 0 ->
  d_stream s = buf_in ((varint (zlen (concat ls)) ++ concat ls) ++ rest) tail e ->
  wp (static_field PB_WT_STRING it) (fun b s' => b = true /\ items p sb s' total (Z.of_nat total) /\ d_stream s' = buf_in rest tail e) s.
Proof.
  intros Hpk Hpos Hlen Hf Hd Hz Hp Hs Hst. unfold decode_static_field. rewrite Hf, Hrep, Hpk.
  cbn [Z.eqb Pos.eqb PB_HTYPE_OPTIONAL PB_HTYPE_REQUIRED PB_HTYPE_REPEATED PB_WT_STRING andb].
  eapply or_false_wp; [rewrite Hst; by apply make_substream|].
  eapply wp_seq; [eapply packed_loop_wp with (i := 0%nat) (sb := sb); try done; [lia|by apply items_state|]|].
  { cbn [bytes_left buf_in]. pose proof (length_concat ls Hpos). lia. }
  intros r s1 (-> & Hs1 & Hst1). cbn [bytes_left buf_in]. rewrite zlen_nil. cbn [Z.eqb negb]. unfold and_then, succeeds.
  apply wp_bind. eapply or_false_wp; [rewrite Hst1; apply (close_substream user_read (concat ls))|].
  apply wp_ret, wp_ret. split; [done|]. split; [by apply items_state|done].
Qed.

(** An item in a record of its own. *)
Lemma unpacked_wp it p sb i l rest tail e wt s : packable (ltype x) = false ->
  pos tables it = f -> pData it = base -> pSize it = p -> counter p -> items p sb s i (Z.of_nat i) -> ls !! i = Some l ->
  d_stream s = buf_in (prefixed (ltype x) l ++ rest) tail e ->
  wp (static_field wt it) (fun b s' => b = true /\ items p sb s' (S i) (Z.of_nat (S i)) /\ d_stream s' = buf_in rest tail e) s.
Proof.
  intros Hpk Hf Hd Hz Hp Hs Hi Hst. pose proof (lookup_lt_Some _ _ _ Hi). destruct (pl_fits _ _ Hplace) as ((_ & _ & Has) & _).
  unfold decode_static_field. rewrite Hf, Hrep, Hpk, andb_false_r, Hz, Hd.
  cbn [Z.eqb Pos.eqb PB_HTYPE_OPTIONAL PB_HTYPE_REQUIRED PB_HTYPE_REPEATED].
  eapply wp_seq; [by eapply load_count_wp|]. intros w s1 [-> ->]. rewrite u32_small by lia.
  eapply wp_seq; [eapply (store_count_wp p sb s i _ (Z.of_nat i + 1)); [done|exact Hs|lia|lia]|].
  intros [] s1 [Hs1 Hst1]. rewrite Z.geb_leb. destruct (Z.leb_spec (f_array_size f) (Z.of_nat i)); [lia|].
  replace (Z.of_nat (S i)) with (Z.of_nat i + 1) by lia. eapply item_wp; [done|exact Hs1|exact Hi|]. by rewrite Hst1.
Qed.

(** The state of the loop in the middle of the array, since [s1]. *)
Record middle (s1 : dec U) (i : nat) (st : noinit) (s : dec U) : Prop := {
  md_looking : looking k st;
  md_ready : ready k (moved x) (Z.of_nat i) st s;
  md_filled : filled (d_mem s) i;
  md_frame : frame (in_slot (moved x)) (d_mem s1) (d_mem s);
  md_blocks : d_blocks s = d_blocks s1 }.

Lemma found_items s1 i rest tail e st s st1 s2 : mapped (d_mem s1) dest (dest + size) -> defaults_ok tables (d_mem s1) ->
  middle s1 i st s -> found k (moved x) (Z.of_nat i) rest tail e st s st1 s2 ->
  counter (pSize (n_iter st1)) /\ items (pSize (n_iter st1)) (Dec (d_mem s1) (d_blocks s1) (fixed_count_size s2) (d_stream s1)) s2 i (Z.of_nat i).
Proof.
  intros Hm Hd [Hl Hr Hf Hfr Hb] [_ _ _ _ Hsz _ Hmem Hbl _]. rewrite fixed_moved in Hsz. unfold ready in Hr. rewrite fixed_moved in Hr.
  assert (Hp : counter (pSize (n_iter st1)) /\ count_is (pSize (n_iter st1)) s2 (Z.of_nat i)).
  { destruct (fixed x) eqn:Efx.
    - destruct Hsz as (-> & _ & Hc). done.
    - destruct Hsz as (-> & _ & _). cbn. split; [done|]. rewrite Hmem. by apply Hr. }
  destruct Hp as [Hp Hc]. split; [done|]. constructor; try done; rewrite ?Hmem.
  - by eapply frame_mapped.
  - by eapply defaults_frame.
  - done.
  - exact Hfr.
  - cbn. congruence.
Qed.

Lemma not_required : reqs (take (S k) (tables t)) = reqs (take k (tables t)).
Proof. rewrite (reqs_step _ _ _ (pl_field _ _ Hplace)). unfold required. rewrite Hrep. cbn. lia. Qed.

Lemma found_middle s1 i j rest tail e st s st1 s2 s3 : middle s1 i st s -> found k (moved x) (Z.of_nat i) rest tail e st s st1 s2 ->
  items (pSize (n_iter st1)) (Dec (d_mem s1) (d_blocks s1) (fixed_count_size s2) (d_stream s1)) s3 j (Z.of_nat j) -> middle s1 j st1 s3.
Proof.
  intros [Hl Hr Hf Hfr Hb] [Hst Hpos _ _ Hsz Hseen Hmem Hbl _] [Hm3 Hd3 Hf3 Hc3 Hfr3 Hb3 Hl3].
  rewrite fixed_moved in Hsz. unfold ready in *. rewrite fixed_moved in *. cbn [d_mem d_blocks fixed_count_size] in *.
  constructor; try done.
  - constructor; [done| |].
    + intros E. destruct (fixed x); destruct Hsz as (E1 & E2 & _); [by rewrite Hpos, E2|congruence].
    + by rewrite Hseen, not_required.
  - unfold ready. rewrite fixed_moved. destruct (fixed x).
    + destruct Hsz as (E1 & E2 & _). rewrite E1 in Hc3. left. done.
    + destruct Hsz as (E1 & E2 & E3). rewrite E1 in Hc3, Hl3. destruct Hr as [Hr _]. split; [|intros _; exact Hc3].
      intros j' Hj'. rewrite E2 in Hj'. destruct (Hr j' Hj') as [H1 H2]. split; [done|]. rewrite Hl3, E3 by done. exact H2.
Qed.

Lemma field_items_wp p sb s wt it j rest tail e : p = pSize it -> pos tables it = f -> 
  wp (static_field wt it) (fun b s' => b = true /\ items p sb s' j (Z.of_nat j) /\ d_stream s' = buf_in rest tail e) s ->
  wp (field_step wt it) (fun r s' => r = (true, it) /\ items (pSize it) sb s' j (Z.of_nat j) /\ d_stream s' = buf_in rest tail e) s.
Proof.
  intros -> Hf H. pose proof (pl_fits _ _ Hplace) as (_ & Hst & _). unfold decode_field. rewrite Hf, Hrep.
  change (PB_HTYPE_REPEATED =? PB_HTYPE_ONEOF) with false. cbv iota. apply (wp_bind (ret _)), wp_ret. cbn [negb]. rewrite Hf, Hst. cbn [Z.eqb PB_ATYPE_STATIC].
  eapply wp_seq; [exact H|]. intros b s' (-> & H2 & H3). by apply wp_ret.
Qed.

Section steps.
Context (Q : option noinit -> dec U -> Prop) (s1 : dec U) (rest tail : list Z) (e : option string).
Hypothesis Hmap : mapped (d_mem s1) dest (dest + size).
Hypothesis Hdef : defaults_ok tables (d_mem s1).
Hypothesis Hnext : forall st' s', middle s1 total st' s' -> d_stream s' = buf_in rest tail e -> continues Q st' s'.

Lemma packed_continues st s : packable (ltype x) = true -> (forall l, l ∈ ls -> 1 <= zlen l) -> zlen (concat ls) < 2 ^ 32 ->
  middle s1 0 st s -> d_stream s = buf_in (wire [Rec (f_tag f) PB_WT_STRING (concat ls)] ++ rest) tail e -> continues Q st s.
Proof.
  intros Hpk Hpos Hlen Hmid Hst.
  assert (Ew : wire [Rec (f_tag f) PB_WT_STRING (concat ls)] ++ rest =
    varint (f_tag f * 8 + PB_WT_STRING) ++ ((varint (zlen (concat ls)) ++ concat ls) ++ rest)).
  { unfold wire. cbn [fmap list_fmap concat wire_item map]. rewrite app_nil_r, <- app_assoc. done. }
  rewrite Ew in Hst. eapply (record_continues Q k x 0 PB_WT_STRING); [done|apply Hmid|apply Hmid|done|exact Hst|]. intros st1 s2 Hf.
  destruct (found_items _ 0 _ _ _ _ _ _ _ Hmap Hdef Hmid Hf) as [Hp Hit].
  eapply wp_mono; [eapply field_items_wp; [done|apply Hf|eapply packed_wp; try done; apply Hf]|].
  intros r s3 (-> & Hs3 & Hst3). split; [done|]. split.
  - rewrite Hst3, zlen_app. pose proof (zlen_nonneg (varint (zlen (concat ls)) ++ concat ls)). cbn [bytes_left buf_in]. lia.
  - apply Hnext; [|done]. by eapply found_middle.
Qed.

Lemma unpacked_continues wt : packable (ltype x) = false -> wire_type_of (ltype x) = Some wt ->
  forall lrest i st s, drop i ls = lrest -> (i <= total)%nat -> middle s1 i st s ->
  d_stream s = buf_in (wire (Rec (f_tag f) wt <$> lrest) ++ rest) tail e -> continues Q st s.
Proof.
  intros Hpk Hwt. induction lrest as [|l lrest IH]; intros i st s Hdrop Hle Hmid Hst.
  - apply (f_equal length) in Hdrop. rewrite length_drop in Hdrop. cbn in Hdrop. assert (i = total) as -> by lia. by apply Hnext.
  - assert (Hi : ls !! i = Some l) by (rewrite <- (Nat.add_0_r i), <- lookup_drop, Hdrop; done). pose proof (lookup_lt_Some _ _ _ Hi).
    assert (Ew : wire (Rec (f_tag f) wt <$> (l :: lrest)) ++ rest =
      varint (f_tag f * 8 + wt) ++ prefixed (ltype x) l ++ (wire (Rec (f_tag f) wt <$> lrest) ++ rest)).
    { change (Rec (f_tag f) wt <$> (l :: lrest)) with ([Rec (f_tag f) wt l] ++ (Rec (f_tag f) wt <$> lrest)).
      rewrite wire_app, <- app_assoc. apply wire_record; [apply ltype_cases|done]. }
    rewrite Ew in Hst. eapply record_continues; [done|apply Hmid|apply Hmid|by eapply wire_type_range|exact Hst|]. intros st1 s2 Hf.
    destruct (found_items _ i _ _ _ _ _ _ _ Hmap Hdef Hmid Hf) as [Hp Hit].
    eapply wp_mono; [eapply field_items_wp; [done|apply Hf|eapply unpacked_wp; try done; apply Hf]|].
    intros r s3 (-> & Hs3 & Hst3). split; [done|]. split.
    + rewrite Hst3, zlen_app. pose proof (zlen_nonneg (prefixed (ltype x) l)). cbn [bytes_left buf_in]. lia.
    + apply (IH (S i)); [by apply (drop_S_next _ _ _ _ Hdrop)|lia| |exact Hst3]. by eapply found_middle.
Qed.
End steps.

(** The array at its end is the member. *)
Lemma array_done s1 st0 st s : slots (tables t) src !! k = Some x -> inv k st0 s1 -> middle s1 total st s ->
  (if x.2 =? x.1.2 then Some (f_array_size f) else load_u32 m x.2) = Some (Z.of_nat total) ->
  member_at m (sub m) x = Some (Some vs) -> inv (S k) st s.
Proof.
  intros Hx Hinv [Hl Hr Hf Hfr Hb] Hcount Hc. unfold ready in Hr. rewrite fixed_moved in Hr. unfold fixed in Hr. rewrite Hrep in Hr. cbn [Z.eqb Pos.eqb PB_HTYPE_REPEATED andb] in Hr.
  constructor.
  - destruct Hl as [H1 H2 H3]. constructor; [done..|]. by rewrite not_required.
  - intros j Hj. destruct (Z.eqb_spec x.2 x.1.2).
    + destruct Hr as [[Hr1 Hr2]|[_ Hr]]; [|destruct (Hr j Hj); split; [lia|done]]. rewrite Hr1 in Hj. simplify_eq. split; [lia|].
      rewrite (field_at_lookup tables t j _ (pl_field _ _ Hplace)). congruence.
    + destruct Hr as [Hr _]. destruct (Hr j Hj). split; [lia|done].
  - eapply (advance k x (Some vs) (d_mem s1)); [apply Hinv|done|done|done| |right; by rewrite Hrep].
    assert (Hvs : values_at (d_mem s) (sub (d_mem s)) f base (Z.of_nat total) = Some vs).
    { apply values_at_intro; [lia|]. intros j v Hv. apply Hf; [|done]. apply lookup_lt_Some in Hv. lia. }
    assert (Hn : (if (moved x).2 =? base then Some (f_array_size f) else load_u32 (d_mem s) (moved x).2) = Some (Z.of_nat total)).
    { change ((moved x).2 =? base) with (x.2 + (dest - src) =? x.1.2 + (dest - src)). rewrite moved_cell. destruct (x.2 =? x.1.2); [done|].
      destruct Hr as [_ Hr]. by apply Hr. }
    unfold member_at. destruct x as [[g a] z]. cbn [shift fst snd] in *. rewrite Hrep. cbn [Z.eqb Pos.eqb PB_HTYPE_OPTIONAL PB_HTYPE_REQUIRED PB_HTYPE_REPEATED].
    rewrite Hn. cbn [mbind option_bind]. destruct (Z.leb_spec (Z.of_nat total) (f_array_size g)); [|lia]. rewrite Hvs. done.
  - etransitivity; [apply (inv_frame _ _ _ Hinv)|]. eapply frame_mono; [exact Hfr|]. apply (pl_inside _ _ Hplace).
  - rewrite Hb. apply Hinv.
Qed.

Lemma array_begins s1 st0 : slots (tables t) src !! k = Some x -> inv k st0 s1 -> middle s1 0 st0 s1.
Proof.
  intros Hx Hinv. constructor; [apply Hinv| |intros j v Hj; lia|done..]. unfold ready. rewrite fixed_moved.
  destruct (fixed x) eqn:Efx; [right; split; [done|apply Hinv]|]. split; [apply Hinv|]. intros _.
  destruct (inv_pending _ _ _ _ Hinv Hx) as [Hd|[E _]]; [|rewrite Hrep in E; done].
  assert (Hne : (x.2 =? x.1.2) = false) by (unfold fixed in Efx; rewrite Hrep in Efx; exact Efx).
  unfold default_slot in Hd. pose proof (moved_cell x) as Hmc. destruct x as [[g a] z]. cbn [shift fst snd] in *. rewrite Hrep in Hd.
  cbn [Z.eqb Pos.eqb PB_HTYPE_OPTIONAL PB_HTYPE_REQUIRED PB_HTYPE_REPEATED] in Hd. rewrite Hmc, Hne in Hd. exact Hd.
Qed.
End array.

(** *** Any member *)

Lemma payload_packed f p l : packable (PB_LTYPE (f_type f)) = true -> payload m sub_wire f p = Done l -> 1 <= zlen l.
Proof.
  intros Hp. unfold payload. rewrite Hp. destruct (load m p _) as [l0|]; [|done]. cbn [mbind outcome_bind get].
  destruct (Z.eqb_spec (zlen l0) 0); [done|]. intros [= <-]. pose proof (zlen_nonneg l0). unfold scalar_payload, scalar_wire.
  repeat (case_match; [try done; try apply zlen_varint; cbv zeta; try apply zlen_varint|]); lia.
Qed.

Lemma record_payload f wt p : wire_type_of (PB_LTYPE (f_type f)) = Some wt ->
  record m sub_wire f p = (l ← payload m sub_wire f p; Done [Rec (f_tag f) wt l]).
Proof. intros H. unfold record. by rewrite H. Qed.

(** The payloads of the records of an array. *)
Lemma records_payloads f wt n' size' : wire_type_of (PB_LTYPE (f_type f)) = Some wt -> forall p l,
  entries n' (fun p => q ← Done p; record m sub_wire f q) size' p = Done l ->
  exists ls, l = (fun y => [Rec (f_tag f) wt y]) <$> ls /\ entries n' (payload m sub_wire f) size' p = Done ls.
Proof.
  intros Hw. induction n' as [|n' IH]; intros p l; cbn [entries]; [intros [= <-]; by exists []|].
  cbn [mbind outcome_bind]. rewrite (record_payload f wt p Hw). destruct (payload m sub_wire f p) as [y| |]; try done. cbn [mbind outcome_bind].
  destruct (entries n' _ size' (p + size')) as [l'| |] eqn:El; try done. cbn [mbind outcome_bind]. intros [= <-].
  destruct (IH _ _ El) as (ls & -> & ->). exists (y :: ls). done.
Qed.

Lemma concat_records f wt (ls : list (list Z)) : concat ((fun y => [Rec (f_tag f) wt y]) <$> ls) = Rec (f_tag f) wt <$> ls.
Proof. induction ls as [|y ls IH]; [done|]. cbn. f_equal. exact IH. Qed.

Lemma concat_elem (ls : list (list Z)) l : l ∈ ls -> zlen l <= zlen (concat ls).
Proof.
  induction 1 as [l ls|l y ls _ IH]; cbn [concat]; rewrite zlen_app; [pose proof (zlen_nonneg (concat ls))|pose proof (zlen_nonneg y)]; lia.
Qed.

Lemma wire_elem tag wt ls l : wt = PB_WT_STRING -> l ∈ ls -> zlen l <= zlen (wire (Rec tag wt <$> ls)).
Proof.
  intros -> H. unfold wire. assert (Hi : wire_item (Rec tag PB_WT_STRING l) ∈ wire_item <$> (Rec tag PB_WT_STRING <$> ls)).
  { apply list_elem_of_fmap. eexists. split; [done|]. apply list_elem_of_fmap. eauto. }
  apply concat_elem in Hi. cbn [wire_item Z.eqb Pos.eqb PB_WT_STRING] in Hi. rewrite !zlen_app in Hi.
  pose proof (zlen_nonneg (varint (tag * 8 + PB_WT_STRING))). pose proof (zlen_nonneg (varint (zlen l))). unfold PB_WT_STRING in *. lia.
Qed.

Lemma wire_string tag l : zlen l <= zlen (wire [Rec tag PB_WT_STRING l]).
Proof. apply (wire_elem tag PB_WT_STRING [l]); [done|set_solver]. Qed.

Lemma kind_wire_type f room : item_fits (fits tables n) f room = true -> exists wt, wire_type_of (PB_LTYPE (f_type f)) = Some wt.
Proof.
  intros H. destruct (item_kinds _ _ _ H) as [E|[(Hp & _)|[E|[E|[E|E]]]]]; cbv zeta in *; rewrite ?E; try (eexists; reflexivity).
  pose proof (ltype_cases (f_type f)) as Hl. unfold packable, PB_LTYPE_LAST_PACKABLE in Hp. apply Z.leb_le in Hp.
  unfold wire_type_of, PB_LTYPE_BOOL, PB_LTYPE_VARINT, PB_LTYPE_UVARINT, PB_LTYPE_SVARINT, PB_LTYPE_FIXED32, PB_LTYPE_FIXED64.
  repeat case_match; eauto; bool_hyps; exfalso; rewrite ?orb_false_iff, ?Z.eqb_neq in *; lia.
Qed.

Lemma array_step Q k x cnt vs l rest tail e st s : slots (tables t) src !! k = Some x -> inv k st s -> htype x = PB_HTYPE_REPEATED ->
  0 <= cnt -> (if x.2 =? x.1.2 then Some (f_array_size x.1.1) else load_u32 m x.2) = Some cnt ->
  array_items m sub_wire x.1.1 x.1.2 cnt = Done l -> member_at m (sub m) x = Some (Some vs) -> zlen (wire l) < 2 ^ 32 ->
  d_stream s = buf_in (wire l ++ rest) tail e ->
  (forall st1 s1, inv (S k) st1 s1 -> d_stream s1 = buf_in rest tail e -> continues Q st1 s1) -> continues Q st s.
Proof.
  intros Hx Hinv Hrep Hcnt Hcell Hl Hc Hlen Hst Hk. pose proof (placed _ _ Hx) as Hp. pose proof (inv_mapped _ _ _ Hinv) as [Hm Hd].
  pose proof (pl_fits _ _ Hp) as (_ & Hstat & Hit). destruct (kind_wire_type _ _ Hit) as [wt Hwt].
  assert (Hvs : cnt <= f_array_size x.1.1 /\ values_at m (sub m) x.1.1 x.1.2 cnt = Some vs).
  { unfold member_at in Hc. destruct x as [[f a] z]. cbn [fst snd] in *. rewrite Hrep in Hc.
    cbn [Z.eqb Pos.eqb PB_HTYPE_OPTIONAL PB_HTYPE_REQUIRED PB_HTYPE_REPEATED] in Hc. rewrite Hcell in Hc. cbn [mbind option_bind] in Hc.
    destruct (Z.leb_spec cnt (f_array_size f)); [|done]. destruct (values_at m (sub m) f a cnt); [|done]. by simplify_eq/=. }
  destruct Hvs as [Hroom Hvs]. destruct (values_at_lookup _ _ _ _ _ _ Hcnt Hvs) as [Hlv Hv].
  assert (Hitems : exists ls, entries (Z.to_nat cnt) (payload m sub_wire x.1.1) (f_data_size x.1.1) x.1.2 = Done ls /\
    (forall y, y ∈ ls -> zlen y < 2 ^ 32) /\
    l = if packable (ltype x) then (if cnt =? 0 then [] else [Rec (f_tag x.1.1) PB_WT_STRING (concat ls)]) else Rec (f_tag x.1.1) wt <$> ls).
  { unfold array_items in Hl. destruct (Z.eqb_spec cnt 0) as [->|Hne]; [injection Hl as <-; exists []; split; [done|]; split; [set_solver|by destruct (packable _)]|].
    rewrite Hstat in Hl. cbn [Z.eqb PB_ATYPE_STATIC PB_ATYPE_POINTER negb andb] in Hl. rewrite Z.gtb_ltb in Hl.
    destruct (Z.ltb_spec (f_array_size x.1.1) cnt); [lia|]. pose proof (wire_type_packable _ _ (ltype_cases (f_type x.1.1)) Hwt) as Hws.
    destruct (packable (ltype x)) eqn:Hpk.
    - destruct (entries _ _ _ _) as [ls| |]; try done. injection Hl as <-. exists ls. split; [done|]. split; [|done].
      intros y Hy. apply concat_elem in Hy. pose proof (wire_string (f_tag x.1.1) (concat ls)). lia.
    - destruct (entries _ _ _ _) as [l'| |] eqn:El; try done. cbn in Hl. injection Hl as <-. destruct (records_payloads _ _ _ _ Hwt _ _ El) as (ls & -> & E).
      rewrite concat_records in *. exists ls. split; [done|]. split; [|done]. intros y Hy. apply (wire_elem (f_tag x.1.1) wt) in Hy; [lia|]. cbn in Hws. by apply Z.eqb_eq. }
  destruct Hitems as (ls & El & Hsmall & ->). destruct (entries_lookup _ _ _ _ _ El) as [Hll Hls].
  assert (Hpays : forall i y, ls !! i = Some y -> payload m sub_wire x.1.1 (x.1.2 + f_data_size x.1.1 * Z.of_nat i) = Done y /\ zlen y < 2 ^ 32).
  { intros i y Hy. split; [by apply Hls|]. apply Hsmall. by eapply list_elem_of_lookup_2. }
  assert (Htotal : Z.of_nat (length ls) = cnt) by lia.
  assert (Hmid : middle k x vs s 0 st s) by (apply (array_begins k x ls vs); try done; lia).
  assert (Hnext : forall st' s', middle k x vs s (length ls) st' s' -> d_stream s' = buf_in rest tail e -> continues Q st' s').
  { intros st' s' Hmid' Hst'. apply Hk; [|done]. eapply (array_done k x ls vs); try done; [lia|lia|by rewrite Htotal]. }
  destruct (packable (ltype x)) eqn:Hpk.
  - destruct (Z.eqb_spec cnt 0) as [E0|Hne].
    + apply Hnext; [|exact Hst]. replace (length ls) with 0%nat by lia. exact Hmid.
    + eapply (packed_continues k x ls vs); try done; [lia|lia| |].
      * intros y Hy. apply list_elem_of_lookup in Hy as [i Hy]. eapply payload_packed; [exact Hpk|by apply Hls].
      * pose proof (wire_string (f_tag x.1.1) (concat ls)). lia.
  - eapply (unpacked_continues k x ls vs) with (i := 0%nat); try done; lia.
Qed.

Lemma absent_step k x c st s : slots (tables t) src !! k = Some x -> inv k st s -> htype x <> PB_HTYPE_REQUIRED ->
  member_done (d_mem s) x -> member_at m (sub m) x = Some c -> inv (S k) st s.
Proof.
  intros Hx Hinv Hr Hd Hc. pose proof (placed _ _ Hx) as Hp. destruct (Hinv) as [[H1 H2 H3] Hf Hm Hfr Hb]. constructor; try done.
  - constructor; [done..|]. rewrite (reqs_step _ _ _ (pl_field _ _ Hp)), H3. unfold required. apply Z.eqb_neq in Hr. rewrite Hr. f_equal. lia.
  - intros j Hj. destruct (Hf j Hj). split; [lia|done].
  - eapply (advance k x c (d_mem s)); try done; [by apply Hd|by left].
Qed.

(** A record with one value. *)
Lemma record_step Q k x v l rest tail e st s : slots (tables t) src !! k = Some x -> inv k st s -> htype x <> PB_HTYPE_REPEATED ->
  record m sub_wire x.1.1 x.1.2 = Done l -> value_at m (sub m) x.1.1 x.1.2 = Some v -> member_at m (sub m) x = Some (Some [v]) ->
  (htype x = PB_HTYPE_ONEOF -> load_u32 m x.2 = Some (f_tag x.1.1)) -> zlen (wire l) < 2 ^ 32 -> d_stream s = buf_in (wire l ++ rest) tail e ->
  (forall st1 s1, inv (S k) st1 s1 -> d_stream s1 = buf_in rest tail e -> continues Q st1 s1) -> continues Q st s.
Proof.
  intros Hx Hinv Hone Hr Hv Hc Hu Hlen Hst Hk. pose proof (placed _ _ Hx) as Hp. destruct (pl_fits _ _ Hp) as (_ & _ & Hit).
  destruct (kind_wire_type _ _ Hit) as [wt Hwt]. rewrite (record_payload _ _ _ Hwt) in Hr. destruct (payload m sub_wire x.1.1 x.1.2) as [d| |] eqn:Ed; try done.
  cbn in Hr. injection Hr as <-. eapply (single_step Q k x d wt rest tail e v); try done.
  unfold wire in Hlen. cbn [fmap list_fmap concat wire_item map] in Hlen. rewrite app_nil_r, zlen_app in Hlen.
  pose proof (zlen_nonneg (varint (f_tag x.1.1 * 8 + wt))). destruct (_ =? _); [rewrite zlen_app in Hlen; pose proof (zlen_nonneg (varint (zlen d)))|]; lia.
Qed.

(** The member of the source, by the kind of field. *)
Lemma member_present x c : member_at m (sub m) x = Some c ->
  htype x = PB_HTYPE_REQUIRED \/
  htype x = PB_HTYPE_OPTIONAL /\ (x.2 = x.1.2 \/ x.2 <> x.1.2 /\ exists l, load m x.2 1 = Some l /\ safe_read_bool l = true) \/
  htype x = PB_HTYPE_ONEOF /\ load_u32 m x.2 = Some (f_tag x.1.1) ->
  exists v, c = Some [v] /\ value_at m (sub m) x.1.1 x.1.2 = Some v.
Proof.
  destruct x as [[f a] z]. unfold member_at. cbn [fst snd]. intros Hc H.
  assert (G : (v ← value_at m (sub m) f a; Some (Some [v])) = Some c -> exists v, c = Some [v] /\ value_at m (sub m) f a = Some v).
  { destruct (value_at m (sub m) f a) as [v|]; [|done]. cbn. intros [= <-]. eauto. }
  apply G. destruct H as [E|[[E H]|[E H]]]; rewrite E in Hc; cbn [Z.eqb Pos.eqb PB_HTYPE_OPTIONAL PB_HTYPE_REQUIRED PB_HTYPE_REPEATED PB_HTYPE_ONEOF] in Hc; [done| |].
  - destruct (Z.eqb_spec z a); [done|]. destruct H as [?|(_ & l & Hl & Hb)]; [done|]. rewrite Hl in Hc. cbn [mbind option_bind] in Hc. by rewrite Hb in Hc.
  - rewrite H in Hc. cbn [mbind option_bind] in Hc. by rewrite Z.eqb_refl in Hc.
Qed.

Lemma optional_step Q k x c l rest tail e st s : slots (tables t) src !! k = Some x -> inv k st s -> htype x = PB_HTYPE_OPTIONAL ->
  (has ← present tables m (S n) x.1.1 x.1.2; if has : bool then record m sub_wire x.1.1 x.1.2 else Done []) = Done l ->
  member_at m (sub m) x = Some c -> zlen (wire l) < 2 ^ 32 -> d_stream s = buf_in (wire l ++ rest) tail e ->
  (forall st1 s1, inv (S k) st1 s1 -> d_stream s1 = buf_in rest tail e -> continues Q st1 s1) -> continues Q st s.
Proof.
  intros Hx Hinv E Hl Hc Hlen Hst Hk. pose proof (placed _ _ Hx) as Hp. pose proof (pl_tidy _ _ Hp) as Ht.
  destruct (present tables m (S n) x.1.1 x.1.2) as [[|]| |] eqn:Ep; try done; cbn [mbind outcome_bind] in Hl.
  - destruct (member_present x c Hc) as (v & -> & Hv).
    { right. left. split; [done|]. destruct (decide (x.2 = x.1.2)) as [|Hne]; [by left|]. right. split; [done|].
      unfold present in Ep. pose proof (ta_cell _ _ _ Ht) as Hcell. destruct (Z.eqb_spec (f_size_offset x.1.1) 0); [lia|]. cbn [negb] in Ep.
      destruct (pl_fits _ _ Hp) as (_ & Hstat & _). rewrite Hstat in Ep. cbn [Z.eqb PB_ATYPE_STATIC PB_ATYPE_POINTER mbind outcome_bind] in Ep.
      rewrite <- Hcell in Ep. destruct (load m x.2 1) as [lb|]; [|done]. cbn in Ep. injection Ep as Ep. eauto. }
    eapply (record_step Q k x v l); try done; by rewrite E.
  - injection Hl as <-. apply Hk; [|exact Hst]. eapply absent_step; [done|done|by rewrite E| |exact Hc].
    eapply absent_optional; [apply Hp|apply Hp|done|done|by eapply inv_pending].
Qed.

Lemma oneof_step Q k x c w l rest tail e st s : slots (tables t) src !! k = Some x -> inv k st s -> htype x = PB_HTYPE_ONEOF ->
  load_u32 m x.2 = Some w -> (if w =? f_tag x.1.1 then record m sub_wire x.1.1 x.1.2 else Done []) = Done l ->
  member_at m (sub m) x = Some c -> zlen (wire l) < 2 ^ 32 -> d_stream s = buf_in (wire l ++ rest) tail e ->
  (forall st1 s1, inv (S k) st1 s1 -> d_stream s1 = buf_in rest tail e -> continues Q st1 s1) -> continues Q st s.
Proof.
  intros Hx Hinv E Hw Hl Hc Hlen Hst Hk. pose proof (placed _ _ Hx) as Hp. destruct (Z.eqb_spec w (f_tag x.1.1)) as [->|Hne].
  - destruct (member_present x c Hc) as (v & -> & Hv); [by right; right|]. eapply (record_step Q k x v l); try done. by rewrite E.
  - injection Hl as <-. apply Hk; [|exact Hst]. eapply absent_step; [done|done|by rewrite E| |exact Hc].
    eapply absent_oneof; [done|apply (ta_tag _ _ _ (pl_tidy _ _ Hp))|done|done|by eapply inv_pending].
Qed.

Lemma member_step Q k x c l rest tail e st s : slots (tables t) src !! k = Some x -> inv k st s ->
  field_items tables m sub_wire (S n) x.1.1 x.1.2 = Done l -> member_at m (sub m) x = Some c -> zlen (wire l) < 2 ^ 32 ->
  d_stream s = buf_in (wire l ++ rest) tail e ->
  (forall st1 s1, inv (S k) st1 s1 -> d_stream s1 = buf_in rest tail e -> continues Q st1 s1) -> continues Q st s.
Proof.
  intros Hx Hinv Hl Hc Hlen Hst Hk. pose proof (placed _ _ Hx) as Hp. destruct (pl_fits _ _ Hp) as (_ & Hstat & _).
  pose proof (pl_tidy _ _ Hp) as Ht. pose proof (ta_cell _ _ _ Ht) as Hcell. unfold field_items in Hl. rewrite Hstat in Hl.
  change (PB_ATYPE_STATIC =? PB_ATYPE_POINTER) with false in Hl. cbv iota in Hl.
  destruct (htype_cases (f_type x.1.1)) as [E|[E|[E|E]]]; rewrite E in Hl;
    cbn [Z.eqb Pos.eqb PB_HTYPE_OPTIONAL PB_HTYPE_REQUIRED PB_HTYPE_REPEATED PB_HTYPE_ONEOF mbind outcome_bind] in Hl.
  - destruct (Z.eqb_spec x.1.2 0); [pose proof (pl_address _ _ Hp); lia|]. destruct (member_present x c Hc) as (v & -> & Hv); [by left|].
    eapply (record_step Q k x v l); try done; by rewrite E.
  - by eapply optional_step.
  - assert (Hcount : exists cnt, 0 <= cnt /\ (if x.2 =? x.1.2 then Some (f_array_size x.1.1) else load_u32 m x.2) = Some cnt /\
      array_items m sub_wire x.1.1 x.1.2 cnt = Done l).
    { rewrite <- Hcell in Hl. destruct (Z.eqb_spec (f_size_offset x.1.1) 0), (Z.eqb_spec x.2 x.1.2); try lia; cbn [negb mbind outcome_bind] in Hl.
      - eexists. split; [|split; [done|exact Hl]]. destruct (pl_fits _ _ Hp) as ((_ & _ & ?) & _). lia.
      - destruct (load_u32 m x.2) as [w|] eqn:Ew; [|done]. cbn in Hl. exists w. split; [|done]. by eapply load_u32_range. }
    destruct Hcount as (cnt & Hcnt & Hcc & Hl'). destruct c as [vs|].
    + by eapply (array_step Q k x cnt vs l).
    + exfalso. unfold member_at in Hc. destruct x as [[f a] z]. cbn [fst snd] in *. rewrite E in Hc.
      cbn [Z.eqb Pos.eqb PB_HTYPE_OPTIONAL PB_HTYPE_REQUIRED PB_HTYPE_REPEATED] in Hc. rewrite Hcc in Hc. cbn [mbind option_bind] in Hc.
      destruct (_ <=? _); [|done]. by destruct (values_at m (sub m) f a cnt).
  - pose proof (ta_oneof _ _ _ Ht E). destruct (Z.eqb_spec (f_size_offset x.1.1) 0); [lia|]. cbn [negb] in Hl. rewrite <- Hcell in Hl.
    destruct (load_u32 m x.2) as [w|] eqn:Ew; [|done]. cbn [mbind outcome_bind get] in Hl. by eapply (oneof_step Q k x c w l).
Qed.
End member.
