(* ===== verification/PbRound.v ===== *)
(** * nanopb messages: the round trip.

    A message that is encoded into a buffer and decoded from it into another
    struct has the same contents there. *)

From stdpp Require Import strings.
From S2P Require Import Prelude PbMem PbStream PbWire PbIter PbReads PbMessage PbEncode PbDecode PbSafe PbContents PbDefaults PbValue PbFind PbMember.

(** ** A message can be encoded *)

Lemma mem_of_below a l x : x < a -> mem_of a l !! x = None.
Proof.
  revert a. induction l as [|b l IH]; intros a H; cbn [mem_of]; [apply lookup_empty|]. rewrite lookup_insert_ne by lia. apply IH. lia.
Qed.

Lemma load_fuel m n : forall p l, load m p n = Some l -> mem_of p l ⊆ m /\ size (mem_of p l) = n.
Proof.
  induction n as [|n IH]; intros p l H; cbn [load] in H; [simplify_eq; split; [apply map_empty_subseteq|apply map_size_empty]|].
  destruct (m !! p) as [b|] eqn:E; [|done]. cbn in H. destruct (load m (p + 1) n) as [l'|] eqn:El; [|done]. cbn in H. simplify_eq.
  destruct (IH _ _ El) as [Hs Hn]. cbn [mem_of]. split; [by apply insert_subseteq_l|].
  rewrite map_size_insert_None, Hn; [done|]. apply mem_of_below. lia.
Qed.

(** The loop over a string ends within the memory. *)
Lemma string_loop_total m mx : forall l k p s fuel, cstring m k p = Some l -> s + Z.of_nat k = mx -> (length l <= fuel)%nat ->
  exists i, string_loop m fuel p s mx = Some i.
Proof.
  induction l as [|b l IH]; intros k p s fuel Hc Hk Hf; (destruct k as [|k]; [done|]); cbn [cstring] in Hc;
    (destruct (m !! p) as [c|] eqn:Em; [|done]); cbn [mbind option_bind] in Hc; destruct (Z.eqb_spec c 0) as [E0|N0];
    try (destruct (cstring m k (p + 1)) as [l'|] eqn:El; [|done]); cbn in Hc; simplify_eq;
    (destruct fuel as [|fuel]; [cbn in Hf; try lia|]); cbn [string_loop]; (destruct (Z.ltb_spec s (s + Z.of_nat (S k))); [|lia]);
    rewrite Em; cbn [mbind option_bind]; try (by eexists).
  apply Z.eqb_neq in N0. rewrite N0. apply (IH k); [done|lia|cbn in Hf; lia].
Qed.

Section total.
Context (tables : Z -> list pb_field) (m : mem).
Hypothesis tables_ok : forall t, Forall field_ok (tables t).
Hypothesis bytes_in_mem : mem_ok m.

Lemma default_loop_total check k t p it : no_end tables t -> tables t <> [] -> it_at tables t p it -> (length (tables t) <= k + it_pos it)%nat ->
  (forall i x, slots (tables t) p !! i = Some x -> exists b, check x.1.1 x.1.2 = Some b) ->
  exists b, default_loop tables check k it = Some b.
Proof.
  intros Hn Hne Hi Hk Hc. revert it Hi Hk. induction k as [|k IH]; intros it Hi Hk; cbn [default_loop];
    (assert (Hx : exists b, check (pos tables it) (pData it) = Some b);
      [destruct Hi as (_ & _ & Hz); rewrite decide_False in Hz by done; destruct Hz as (z & Hz & _); by apply (Hc _ _ Hz)|]);
    destruct Hx as [b ->]; cbn [mbind option_bind]; (destruct b; [|by eexists]); cbn [negb];
    pose proof (next_at tables t p it Hn Hi) as Hx; destruct (pb_field_iter_next tables it) as [it' more]; destruct Hx as [Hi' Hm];
    (destruct more; [destruct Hm as [Hp Hlt]|by eexists]); [lia|].
  apply IH; [done|lia].
Qed.

(** The check for the proto3 default has a result: for a flag, a count or a tag... *)
Lemma check_total_other fc n x c : member_fits tables n x -> tidy_at tables n x ->
  (PB_HTYPE (f_type x.1.1) = PB_HTYPE_OPTIONAL -> f_size_offset x.1.1 <> 0) ->
  member_at m (msg_at tables m n) x = Some c -> exists b, pb_check_proto3_default_value tables m fc x.1.1 x.1.2 = Some b.
Proof.
  destruct x as [[f a] z]. intros (Hok & Hst & Hit) Ht Hno Hc. pose proof (ta_cell _ _ _ Ht) as Hz. cbn [fst snd] in *. unfold member_at in Hc.
  destruct (htype_cases (f_type f)) as [H|[H|[H|H]]]; rewrite H in *;
    (destruct fc; cbn [pb_check_proto3_default_value]; rewrite H); rewrite <- Hz;
    cbn [Z.eqb Pos.eqb PB_HTYPE_OPTIONAL PB_HTYPE_REQUIRED PB_HTYPE_REPEATED PB_HTYPE_ONEOF negb] in *; try (by eexists);
    destruct (Z.eqb_spec (f_size_offset f) 0); try (exfalso; by apply Hno); cbn [negb]; rewrite ?Hst; try (by eexists);
    try (destruct (Z.eqb_spec z a); [lia|]);
    try (destruct (load m z 1) as [l|]; [|done]; by eexists); (destruct (load_u32 m z) as [w|]; [|done]; by eexists).
Qed.

(** ... and for a value. *)
Lemma check_total_value fc n f a v : member_fits tables n (f, a, a) ->
  (packable (PB_LTYPE (f_type f)) = true -> scalar_exact (PB_LTYPE (f_type f)) (f_data_size f) = true) ->
  PB_HTYPE (f_type f) = PB_HTYPE_OPTIONAL -> f_size_offset f = 0 -> value_at m (msg_at tables m n) f a = Some v ->
  (PB_LTYPE (f_type f) = PB_LTYPE_SUBMESSAGE -> exists fc' b, fc = S fc' /\ 
    default_loop tables (pb_check_proto3_default_value tables m fc') (length (tables (f_ptr f))) (fst (pb_field_iter_begin tables (f_ptr f) a)) = Some b \/
    fc = S fc' /\ tables (f_ptr f) = []) ->
  exists b, pb_check_proto3_default_value tables m fc f a = Some b.
Proof.
  intros (Hok & Hst & Hit) Hex Ho E0 Hv Hsub. cbn [fst snd] in *. rewrite (check_static tables m _ _ _ Hst Ho E0). cbv zeta. unfold value_at in Hv.
  destruct (item_kinds _ _ _ Hit) as [E|[(Hp & E1 & E2 & E3 & E4 & E5)|[E|[E|[E|E]]]]]; cbv zeta in *.
  - rewrite E in *. cbn -[load Z.to_nat] in *. specialize (Hex eq_refl). apply Z.eqb_eq in Hex as ->. change (Z.to_nat 1) with 1%nat.
    destruct (load m a 1); [by eexists|done].
  - rewrite Hp, E1, E2, E3, E4, E5 in *. specialize (Hex eq_refl). rewrite exact_size in Hv by done.
    destruct (load m a _); [by eexists|done].
  - rewrite E in *. cbn -[load_u32] in *. destruct (_ <=? _); [|done]. destruct (load_u32 m a); [by eexists|done].
  - rewrite E in *. cbn -[load cstring Z.to_nat] in *. destruct (Z.to_nat (f_data_size f)) as [|k]; [done|]. cbn [cstring] in Hv.
    cbn [load]. destruct (m !! a); [by eexists|done].
  - rewrite E in *. cbn -[pb_field_iter_begin] in *. destruct (Hsub eq_refl) as (fc' & b & [[-> Hb]|[-> Hnil]]).
    + destruct (pb_field_iter_begin tables (f_ptr f) a) as [it [|]]; [by exists b|by eexists].
    + unfold pb_field_iter_begin, field_at. rewrite Hnil. cbn. by eexists.
  - rewrite E in *. cbn. by eexists.
Qed.

Lemma optional_value (sub : Z -> Z -> option value) x c : PB_HTYPE (f_type x.1.1) = PB_HTYPE_OPTIONAL -> x.2 = x.1.2 ->
  member_at m sub x = Some c -> exists v, value_at m sub x.1.1 x.1.2 = Some v.
Proof.
  destruct x as [[f a] z]. unfold member_at. cbn [fst snd]. intros E -> H. rewrite E, (Z.eqb_refl a) in H.
  cbn [Z.eqb Pos.eqb PB_HTYPE_OPTIONAL PB_HTYPE_REQUIRED] in H. destruct (value_at m sub f a) as [v|]; [by exists v|done].
Qed.

Lemma check_total n : forall fc x c, (n <= fc)%nat -> member_fits tables n x -> tidy_at tables n x ->
  member_at m (msg_at tables m n) x = Some c -> exists b, pb_check_proto3_default_value tables m fc x.1.1 x.1.2 = Some b.
Proof.
  induction n as [n IH] using lt_wf_ind. intros fc x c Hfc Hf Ht Hc.
  destruct (decide (PB_HTYPE (f_type x.1.1) = PB_HTYPE_OPTIONAL /\ f_size_offset x.1.1 = 0)) as [[Ho E0]|Hno];
    [|eapply check_total_other; [exact Hf|exact Ht|naive_solver|exact Hc]].
  destruct (optional_value _ x c Ho ltac:(rewrite (ta_cell _ _ _ Ht); lia) Hc) as [v Hv].
  eapply check_total_value; [exact Hf|apply (ta_scalar _ _ _ Ht)|done|done|exact Hv|]. intros E.
  destruct Hf as (_ & _ & Hit). destruct (item_submessage tables _ _ _ Hit E) as [_ Hfs]. destruct n as [|n]; [done|]. destruct fc as [|fc]; [lia|].
  pose proof (ta_sub _ _ _ Ht E) as Hsub. pose proof (fits_no_end tables _ _ _ Hfs) as Hn. exists fc.
  set (t := f_ptr x.1.1) in *. set (a := x.1.2) in *. destruct (decide (tables t = [])) as [Hnil|Hne]; [exists true; by right|].
  destruct (default_loop_total (pb_check_proto3_default_value tables m fc) (length (tables t)) t a
    (fst (pb_field_iter_begin tables t a)) Hn Hne (begin_at tables _ _ Hn)) as [b Hb]; [lia| |by exists b; left].
  intros i y Hy. unfold value_at in Hv. rewrite E in Hv. cbn in Hv. apply fmap_Some in Hv as (cs & Hcs & _). apply mapM_Some in Hcs.
  destruct (Forall2_lookup_l _ _ _ _ _ Hcs Hy) as (c' & _ & Hc').
  destruct (slot_fits_at tables tables_ok _ _ _ _ _ _ Hfs Hy) as [Hmf _]. eapply (IH n); [lia|lia|exact Hmf|by eapply tidy_slot_at|exact Hc'].
Qed.

(** A value has a payload. *)
Lemma payload_total n (sub_wire : Z -> Z -> outcome (list Z)) f p v : member_fits tables n (f, p, p) ->
  (packable (PB_LTYPE (f_type f)) = true -> scalar_exact (PB_LTYPE (f_type f)) (f_data_size f) = true) ->
  (PB_LTYPE (f_type f) = PB_LTYPE_SUBMESSAGE -> forall v, msg_at tables m n (f_ptr f) p = Some v -> exists d, sub_wire (f_ptr f) p = Done d) ->
  0 < p -> value_at m (msg_at tables m n) f p = Some v -> exists l, payload m sub_wire f p = Done l.
Proof.
  intros (Hok & Hst & Hit) Hex Hsub H0 Hv. cbn [fst snd] in *. unfold value_at, payload in *.
  destruct (item_kinds _ _ _ Hit) as [E|[(Hp & E1 & E2 & E3 & E4 & E5)|[E|[E|[E|E]]]]]; cbv zeta in *.
  - rewrite E in *. cbn -[load Z.to_nat] in *. change (Z.to_nat 1) with 1%nat in *. destruct (load m p 1) as [l|] eqn:El; [|done]. cbn.
    rewrite (proj2 (PbEncode.load_bytes _ _ _ _ bytes_in_mem El)). by eexists.
  - rewrite Hp, E1 in *. specialize (Hex eq_refl). rewrite exact_size in Hv by done. rewrite exact_extent by done.
    destruct (load m p _) as [l|] eqn:El; [|done]. cbn. rewrite (proj2 (PbEncode.load_bytes _ _ _ _ bytes_in_mem El)).
    pose proof (exact_pos _ _ E1 Hex). destruct (Z.eqb_spec (Z.of_nat (Z.to_nat (f_data_size f))) 0); [lia|by eexists].
  - rewrite E in *. cbn -[load load_u32 Z.to_nat] in *. destruct (Z.eqb_spec p 0); [lia|]. destruct (_ <=? _); [|done].
    destruct (load_u32 m p) as [k|]; [|done]. cbn -[load Z.to_nat] in *. destruct (Z.leb_spec (k + bytes_offset) (f_data_size f)); [|done].
    rewrite Z.gtb_ltb. destruct (Z.ltb_spec (f_data_size f) (k + bytes_offset)); [lia|]. rewrite andb_false_r. destruct (load m _ _); [by eexists|done].
  - rewrite E, ?Hst in *. cbn -[load cstring string_loop Z.to_nat size] in *. destruct (Z.eqb_spec p 0); [lia|].
    destruct (cstring m _ p) as [c|] eqn:Ec; [|done]. destruct Hok as (_ & Hds & _).
    destruct (string_loop_total m (f_data_size f) c _ p 0 (size m) Ec) as [i Hi]; [lia| |].
    { pose proof (cstring_loaded m _ p c Ec) as Hl. destruct (load_fuel m _ _ _ Hl) as [Hs Hn]. rewrite <- Hn. by apply map_subseteq_size. }
    rewrite Hi. cbn -[load Z.to_nat]. destruct (cstring_loop m _ i (f_data_size f) _ p 0 c Ec ltac:(lia) Hi) as [-> Hl].
    replace (Z.to_nat (0 + zlen c)) with (length c) by (unfold zlen; lia). rewrite Hl. by eexists.
  - rewrite E in *. cbn in *. destruct (item_submessage tables _ _ _ Hit E) as [Hp _]. apply Z.eqb_neq in Hp. rewrite Hp. by eapply Hsub.
  - rewrite E in *. cbn -[load Z.to_nat] in *. destruct (load m p _); [by eexists|done].
Qed.

(** The records of a member. *)
Section member.
Context (n : nat) (sub_wire : Z -> Z -> outcome (list Z)).
Hypothesis sub_total : forall t size p v, fits tables n t size = true -> tidy tables n t = true -> 0 < p ->
  msg_at tables m n t p = Some v -> exists d, sub_wire t p = Done d.

Lemma record_total f p v : member_fits tables n (f, p, p) ->
  (packable (PB_LTYPE (f_type f)) = true -> scalar_exact (PB_LTYPE (f_type f)) (f_data_size f) = true) ->
  (PB_LTYPE (f_type f) = PB_LTYPE_SUBMESSAGE -> tidy tables n (f_ptr f) = true) ->
  0 < p -> value_at m (msg_at tables m n) f p = Some v ->
  (exists l, payload m sub_wire f p = Done l) /\ exists l, record m sub_wire f p = Done l.
Proof.
  intros Hf Hex Hsub H0 Hv. destruct (payload_total n sub_wire f p v Hf Hex) as [l Hl]; [|done|done|].
  { intros E v' Hv'. destruct Hf as (_ & _ & Hit). destruct (item_submessage tables _ _ _ Hit E) as [_ Hfs]. eapply sub_total; try done. by apply Hsub. }
  split; [by exists l|]. unfold record. destruct Hf as (_ & _ & Hit). destruct (kind_wire_type tables n f _ Hit) as [wt ->]. rewrite Hl. by eexists.
Qed.

Lemma entries_total {A} k (g : Z -> outcome A) ds p : (forall i, (i < k)%nat -> exists y, g (p + ds * Z.of_nat i) = Done y) -> exists l, entries k g ds p = Done l.
Proof.
  revert p. induction k as [|k IH]; intros p H; cbn [entries]; [by eexists|]. destruct (H 0%nat ltac:(lia)) as [y Hy].
  rewrite Z.mul_0_r, Z.add_0_r in Hy. rewrite Hy. cbn [mbind outcome_bind]. destruct (IH (p + ds)) as [l Hl]; [|rewrite Hl; by eexists].
  intros i Hi. destruct (H (S i) ltac:(lia)) as [y' Hy']. exists y'. replace (p + ds + ds * Z.of_nat i) with (p + ds * Z.of_nat (S i)) by lia. done.
Qed.

Lemma array_total f a cnt vs : field_ok f -> PB_ATYPE (f_type f) = PB_ATYPE_STATIC -> item_fits (fits tables n) f (f_data_size f) = true ->
  (packable (PB_LTYPE (f_type f)) = true -> scalar_exact (PB_LTYPE (f_type f)) (f_data_size f) = true) ->
  (PB_LTYPE (f_type f) = PB_LTYPE_SUBMESSAGE -> tidy tables n (f_ptr f) = true) -> 0 < a ->
  0 <= cnt <= f_array_size f -> values_at m (msg_at tables m n) f a cnt = Some vs -> exists l, array_items m sub_wire f a cnt = Done l.
Proof.
  intros Hok Hst Hit Hex Hsub H0 Hc Hvs. destruct (values_at_lookup _ _ _ _ _ _ (proj1 Hc) Hvs) as [Hl Hv].
  assert (Hone : forall i, (i < Z.to_nat cnt)%nat -> let p := a + f_data_size f * Z.of_nat i in
    (exists l, payload m sub_wire f p = Done l) /\ exists l, record m sub_wire f p = Done l).
  { intros i Hi p. destruct (lookup_lt_is_Some_2 vs i ltac:(lia)) as [v Hvi]. destruct Hok as (H1 & H2 & H3). eapply record_total; try done; [unfold p; lia|by apply Hv]. }
  unfold array_items. destruct (cnt =? 0); [by eexists|]. rewrite Hst. cbn [Z.eqb PB_ATYPE_STATIC PB_ATYPE_POINTER negb andb]. rewrite Z.gtb_ltb.
  destruct (Z.ltb_spec (f_array_size f) cnt); [lia|]. destruct (packable _).
  - destruct (entries_total (Z.to_nat cnt) (payload m sub_wire f) (f_data_size f) a) as [l ->]; [|by eexists]. intros i Hi. by apply Hone.
  - destruct (entries_total (Z.to_nat cnt) (fun p => q ← Done p; record m sub_wire f q) (f_data_size f) a) as [l ->]; [|by eexists]. intros i Hi. by apply Hone.
Qed.

Lemma present_total x c : member_fits tables n x -> tidy_at tables n x -> PB_HTYPE (f_type x.1.1) = PB_HTYPE_OPTIONAL ->
  member_at m (msg_at tables m n) x = Some c ->
  exists b, present tables m (S n) x.1.1 x.1.2 = Done b /\ (b = true -> exists v, value_at m (msg_at tables m n) x.1.1 x.1.2 = Some v).
Proof.
  intros Hf Ht E Hc. pose proof (ta_cell _ _ _ Ht) as Hz. destruct Hf as (Hok & Hst & Hit). unfold present. rewrite Hst.
  cbn [Z.eqb PB_ATYPE_STATIC PB_ATYPE_POINTER mbind outcome_bind]. destruct (Z.eqb_spec (f_size_offset x.1.1) 0); cbn [negb].
  - destruct (check_total n (S n) x c ltac:(lia) (conj Hok (conj Hst Hit)) Ht Hc) as [b Hb]. rewrite Hb. cbn. eexists. split; [done|].
    intros _. eapply optional_value; [done|lia|exact Hc].
  - destruct x as [[f a] z]. unfold member_at in Hc. cbn [fst snd] in *. rewrite E in Hc. cbn [Z.eqb Pos.eqb PB_HTYPE_OPTIONAL PB_HTYPE_REQUIRED] in Hc.
    destruct (Z.eqb_spec z a); [lia|]. rewrite <- Hz. destruct (load m z 1) as [l|]; [|done]. cbn [mbind option_bind] in Hc. cbn [get]. eexists. split; [done|].
    intros Hb. rewrite Hb in Hc. destruct (value_at m _ f a) as [v|]; [by exists v|done].
Qed.

Lemma field_total x c : member_fits tables n x -> tidy_at tables n x -> 0 < x.1.2 -> member_at m (msg_at tables m n) x = Some c ->
  exists l, field_items tables m sub_wire (S n) x.1.1 x.1.2 = Done l.
Proof.
  intros Hf Ht H0 Hc. pose proof (ta_cell _ _ _ Ht) as Hz. pose proof (ta_scalar _ _ _ Ht) as Hex. pose proof (ta_sub _ _ _ Ht) as Hsub.
  pose proof Hf as (Hok & Hst & Hit). pose proof (fun v => record_total x.1.1 x.1.2 v Hf Hex Hsub H0) as Hr. unfold field_items. rewrite Hst.
  change (PB_ATYPE_STATIC =? PB_ATYPE_POINTER) with false. cbv iota.
  destruct (htype_cases (f_type x.1.1)) as [E|[E|[E|E]]]; rewrite E;
    cbn [Z.eqb Pos.eqb PB_HTYPE_OPTIONAL PB_HTYPE_REQUIRED PB_HTYPE_REPEATED PB_HTYPE_ONEOF mbind outcome_bind].
  - destruct (member_present tables n m x c Hc ltac:(by left)) as (v & _ & Hv). destruct (Z.eqb_spec x.1.2 0); [lia|]. by eapply Hr.
  - destruct (present_total x c Hf Ht E Hc) as (b & -> & Hb). cbn [mbind outcome_bind]. destruct b; [|by eexists]. destruct (Hb eq_refl) as [v Hv]. by eapply Hr.
  - destruct x as [[f a] z]. unfold member_at in Hc. cbn [fst snd] in *. rewrite E in Hc.
    cbn [Z.eqb Pos.eqb PB_HTYPE_OPTIONAL PB_HTYPE_REQUIRED PB_HTYPE_REPEATED] in Hc. rewrite <- Hz.
    destruct (Z.eqb_spec (f_size_offset f) 0), (Z.eqb_spec z a); try lia; cbn [negb mbind outcome_bind option_bind] in *.
    + destruct (f_array_size f <=? f_array_size f); [|done]. destruct (values_at m _ f a _) as [vs|] eqn:Ev; [|done].
      destruct Hok as (H1 & H2 & H3). by eapply array_total; [done|done|done|done|done|done| |exact Ev]; lia.
    + destruct (load_u32 m z) as [w|] eqn:Ew; [|done]. cbn [mbind option_bind outcome_bind get] in *. destruct (Z.leb_spec w (f_array_size f)); [|done].
      destruct (values_at m _ f a _) as [vs|] eqn:Ev; [|done]. pose proof (load_u32_range _ _ _ bytes_in_mem Ew).
      eapply array_total; [done|done|done|done|done|done| |exact Ev]; lia.
  - pose proof (ta_oneof _ _ _ Ht E). destruct (Z.eqb_spec (f_size_offset x.1.1) 0); [lia|]. cbn [negb]. rewrite <- Hz.
    destruct (load_u32 m x.2) as [w|] eqn:Ew; cbn [mbind outcome_bind get].
    + destruct (Z.eqb_spec w (f_tag x.1.1)) as [->|]; [|by eexists].
      destruct (member_present tables n m x c Hc ltac:(by right; right)) as (v & _ & Hv). by eapply Hr.
    + exfalso. destruct x as [[f a] z]. unfold member_at in Hc. cbn [fst snd] in *. rewrite E in Hc.
      cbn [Z.eqb Pos.eqb PB_HTYPE_OPTIONAL PB_HTYPE_REQUIRED PB_HTYPE_REPEATED PB_HTYPE_ONEOF] in Hc. by rewrite Ew in Hc.
Qed.
End member.
End total.

Section round.
Context {U : Type} (user_read : U -> Z -> option (list Z) * U).
Context (tables : Z -> list pb_field).
Context (decode_cb : Z -> pb_field -> Z -> M (dec U) bool) (decode_ext : Z -> Z -> Z -> Z -> M (dec U) bool).
Context (alloc : mem -> gmap Z Z -> Z -> option (Z * list Z)).
#[local] Abbreviation D := (M (dec U)).
Hypothesis tables_ok : forall t, Forall field_ok (tables t).
Context (m : mem).
Hypothesis bytes_in_mem : mem_ok m.
Context (cb_wire : Z -> pb_field -> Z -> outcome (list Z)) (ext_wire : Z -> Z -> outcome (list Z)).
#[local] Abbreviation sub_wire n := (fun t p => wire <$> msg_items tables m cb_wire ext_wire n t p).

(** ** The members of a message *)

Section message.
Context (n : nat) (decode decode_noinit : Z -> Z -> D bool).
Hypothesis noinit_decodes : sub_decodes tables n (sub_wire n) (msg_at tables m n) (fun m' t q => default_msg tables m' n t q) decode_noinit.
Hypothesis decode_decodes : sub_decodes tables n (sub_wire n) (msg_at tables m n) (fun _ _ _ => True) decode.
Context (t size src dest : Z).
Hypothesis Hfits : fits tables (S n) t size = true.
Hypothesis Htidy : tidy tables (S n) t = true.
Hypothesis Hsrc : 0 < src.
Context (s0 : dec U).
Hypothesis dest_mapped : mapped (d_mem s0) dest (dest + size).
Hypothesis defaults_mapped : defaults_ok tables (d_mem s0).

#[local] Abbreviation invariant := (inv tables n m t size src dest s0).
#[local] Abbreviation goes_on := (continues user_read tables decode_cb decode_ext alloc n decode decode_noinit).
#[local] Abbreviation member_list := ((fun x => (x.1.1, x.1.2)) <$> slots (tables t) src).
#[local] Abbreviation records := (items_of tables m cb_wire ext_wire (sub_wire n) (S n)).

Lemma items_of_static f a : PB_ATYPE (f_type f) = PB_ATYPE_STATIC -> PB_LTYPE (f_type f) <> PB_LTYPE_EXTENSION ->
  records (f, a) = field_items tables m (sub_wire n) (S n) f a.
Proof.
  intros Hs He. unfold items_of, member_items. cbn [fst snd]. apply Z.eqb_neq in He. rewrite He, Hs. done.
Qed.

Lemma fits_kind (x : pb_field * Z * Z) : member_fits tables n x -> PB_LTYPE (f_type x.1.1) <> PB_LTYPE_EXTENSION.
Proof. intros (_ & _ & Hit) E. unfold item_fits in Hit. rewrite E in Hit. done. Qed.

Lemma members_step Q tail e : (forall st s, invariant (length (tables t)) st s -> d_stream s = buf_in [] tail e -> goes_on Q st s) ->
  forall rest k l st s, drop k (slots (tables t) src) = rest -> (k <= length (tables t))%nat ->
  items_all records ((fun x => (x.1.1, x.1.2)) <$> rest) = Done l -> Forall (fun x => is_Some (member_at m (msg_at tables m n) x)) rest ->
  invariant k st s -> zlen (wire l) < 2 ^ 32 -> d_stream s = buf_in (wire l) tail e -> goes_on Q st s.
Proof.
  intros Hend. pose proof (fits_no_end tables _ _ _ Hfits) as Hne. induction rest as [|x rest IH]; intros k l st s Hdrop Hk Hl Hc Hinv Hlen Hst.
  - injection Hl as <-. apply Hend; [|exact Hst]. apply (f_equal length) in Hdrop. rewrite length_drop, slots_length in Hdrop by done. cbn in Hdrop.
    replace (length (tables t)) with k by lia. exact Hinv.
  - assert (Hx : slots (tables t) src !! k = Some x) by (rewrite <- (Nat.add_0_r k), <- lookup_drop, Hdrop; done).
    pose proof (lookup_lt_Some _ _ _ Hx) as Hlt. rewrite slots_length in Hlt by done.
    apply Forall_cons in Hc as [[c Hc] Hcs]. cbn [fmap list_fmap items_all] in Hl.
    destruct (slot_fits_at tables tables_ok _ _ _ _ _ _ Hfits Hx) as [Hmf _].
    change (list_fmap _ _ _ _) with ((fun x => (x.1.1, x.1.2)) <$> rest) in Hl.
    rewrite items_of_static in Hl; [|apply Hmf|by apply fits_kind].
    destruct (field_items _ _ _ _ _ _) as [l1| |] eqn:E1; try done. cbn [mbind outcome_bind] in Hl.
    destruct (items_all records _) as [l2| |] eqn:E2; try done. cbn [mbind outcome_bind] in Hl. injection Hl as <-.
    rewrite wire_app in Hst, Hlen. rewrite zlen_app in Hlen. pose proof (zlen_nonneg (wire l1)). pose proof (zlen_nonneg (wire l2)).
    eapply (member_step user_read tables decode_cb decode_ext alloc tables_ok n m (sub_wire n)); try done; [lia|].
    intros st1 s1 Hinv1 Hst1. eapply (IH (S k)); try done; [by apply (drop_S_next _ _ _ _ Hdrop)|lia].
Qed.

Lemma first_state st : default_msg tables (d_mem s0) (S n) t dest -> fixed_count_size s0 = 0 ->
  st = NoInit (fst (pb_field_iter_begin tables t dest)) [0; 0] 0 None -> invariant 0 st s0.
Proof.
  intros Hdef Hz ->. pose proof (fits_no_end tables _ _ _ Hfits) as Hne. constructor; try done.
  - constructor; [by apply begin_stands|done|done].
  - intros j x Hx. rewrite decide_False by lia. left. cbn [default_msg] in Hdef. rewrite Forall_lookup in Hdef. apply (Hdef j). by apply dest_slot.
Qed.

Lemma last_state v st s : msg_at tables m (S n) t src = Some v -> invariant (length (tables t)) st s -> msg_at tables (d_mem s) (S n) t dest = Some v.
Proof.
  intros Hv Hinv. pose proof (fits_no_end tables _ _ _ Hfits) as Hne. cbn [msg_at] in *. apply fmap_Some in Hv as (cs & Hcs & ->). apply fmap_Some. exists cs. split; [|done].
  apply mapM_Some in Hcs. apply mapM_Some. rewrite (slots_move tables t src dest). apply Forall2_fmap_l, Forall2_lookup. intros i.
  pose proof (proj1 (Forall2_lookup _ _ _) Hcs i) as Hi. inversion Hi as [x c Hc Ex Ec|Ex Ec]; constructor. symmetry in Ex.
  pose proof (inv_mem _ _ _ _ _ _ _ _ _ _ _ Hinv i x Ex) as Hd. pose proof (lookup_lt_Some _ _ _ Ex) as Hlt. rewrite slots_length in Hlt by done.
  rewrite decide_True in Hd by done. by apply Hd.
Qed.

Lemma message_wp v l tail e : default_msg tables (d_mem s0) (S n) t dest -> fixed_count_size s0 = 0 ->
  msg_items tables m cb_wire ext_wire (S n) t src = Done l -> msg_at tables m (S n) t src = Some v -> zlen (wire l) < 2 ^ 32 ->
  d_stream s0 = buf_in (wire l) tail e ->
  wp (let* left := stream_left in
      let* st := noinit_loop user_read tables decode_cb decode_ext alloc decode decode_noinit (Z.to_nat left) (S n)
        (NoInit (fst (pb_field_iter_begin tables t dest)) [0; 0] 0 None) in
      match st with
      | None => ret false
      | Some st =>
          let* wrong := fixed_count_wrong tables st in
          if wrong : bool then return_error "wrong size for fixed count field"
          else if negb (required_seen tables st) then return_error "missing required field"
          else ret true
      end)
    (fun b s' => b = true /\ d_stream s' = buf_in [] tail e /\ frame (fun x => dest <= x < dest + size) (d_mem s0) (d_mem s') /\
       d_blocks s' = d_blocks s0 /\ msg_at tables (d_mem s') (S n) t dest = Some v) s0.
Proof.
  intros Hdef Hz Hl Hv Hlen Hst. pose proof (fits_no_end tables _ _ _ Hfits) as Hne. pose proof (first_state _ Hdef Hz eq_refl) as H0.
  apply wp_bind. eexists _, s0. split; [reflexivity|]. apply wp_bind.
  set (Q := fun o s' => exists st', o = Some st' /\ invariant (length (tables t)) st' s' /\ d_stream s' = buf_in [] tail e).
  assert (Hloop : goes_on Q (NoInit (fst (pb_field_iter_begin tables t dest)) [0; 0] 0 None) s0).
  { cbn [msg_items] in Hl. rewrite members_slots in Hl. eapply (members_step Q tail e) with (k := 0%nat); [|reflexivity|lia|exact Hl| |exact H0|done|exact Hst].
    - intros st s Hinv Hs k Hk. assert (E : bytes_left (d_stream s) =? 0 = true) by by rewrite Hs.
      destruct k; cbn [noinit_loop]; (apply wp_bind; eexists _, s; split; [reflexivity|]); rewrite E; apply wp_ret; by exists st.
    - cbn [msg_at] in Hv. apply fmap_Some in Hv as (cs & Hcs & _). rewrite drop_0. apply Forall_lookup. intros i x Hx.
      apply mapM_Some in Hcs. destruct (Forall2_lookup_l _ _ _ _ _ Hcs Hx) as (c & _ & Hc). by exists c. }
  eapply wp_mono; [apply Hloop; lia|]. intros o s' (st' & -> & Hinv & Hs'). cbv beta iota.
  apply wp_bind. exists false, s'. split.
  - unfold fixed_count_wrong. assert (Hstart : it_start (n_iter st') = t) by apply Hinv. rewrite Hstart.
    destruct (fixed_count_field st') as [j|] eqn:Ej; [|done]. destruct (inv_fixed _ _ _ _ _ _ _ _ _ _ _ Hinv j Ej) as [_ ->]. by rewrite Z.eqb_refl.
  - destruct (inv_looking _ _ _ _ _ _ _ _ _ _ _ Hinv) as [H1 _ H3]. rewrite take_ge in H3 by lia.
    rewrite (all_required_seen tables t dest Hne (table_length tables n t Htidy) st' H1 H3). cbn [negb]. apply wp_ret.
    split_and!; [done|done|apply Hinv|apply Hinv|by eapply last_state].
Qed.
End message.

(** ** Messages, by the depth of nesting *)

Lemma message_decodes n decode decode_noinit :
  sub_decodes tables n (sub_wire n) (msg_at tables m n) (fun m' t q => default_msg tables m' n t q) decode_noinit ->
  sub_decodes tables n (sub_wire n) (msg_at tables m n) (fun _ _ _ => True) decode ->
  sub_decodes tables (S n) (sub_wire (S n)) (msg_at tables m (S n)) (fun m' t q => default_msg tables m' (S n) t q)
    (decode_message user_read tables decode_cb decode_ext alloc decode decode_noinit (S n)).
Proof.
  intros Hn Hd t size p q v d tail e s Hf Ht H0 Hw Hv Hlen Hm Hdef Hpre Hst.
  destruct (msg_items tables m cb_wire ext_wire (S n) t p) as [l| |] eqn:El; try done. cbn in Hw. injection Hw as <-.
  destruct (message_wp n decode decode_noinit Hn Hd t size p q Hf Ht H0 (Dec (d_mem s) (d_blocks s) 0 (d_stream s)) Hm Hdef v l tail e)
    as (b & s' & E & -> & Hs' & Hfr & Hb & Hval); try done.
  unfold wp, decode_message. cbv zeta in *. rewrite E. eexists _, _. split; [reflexivity|]. split; [done|]. split; [exact Hs'|]. split; [|exact Hval].
  split; [exact Hfr|]. split; [exact Hb|done].
Qed.

Lemma with_decodes n (noinit : Z -> Z -> D bool) :
  sub_decodes tables n (sub_wire n) (msg_at tables m n) (fun m' t q => default_msg tables m' n t q) noinit ->
  sub_decodes tables n (sub_wire n) (msg_at tables m n) (fun _ _ _ => True) (decode_with tables noinit n).
Proof.
  intros Hn t size p q v d tail e s Hf Ht H0 Hw Hv Hlen Hm Hdef _ Hst. unfold decode_with, pb_message_set_to_defaults.
  eapply wp_seq; [by eapply sets_defaults_all|]. intros [] s1 [(Hfr & Hb & Hc & Hs) Hd].
  eapply wp_seq; [eapply (Hn t size p q v d tail e); try done; [by eapply frame_mapped|by eapply defaults_frame|congruence]|].
  intros b s2 (-> & Hs2 & (Hfr2 & Hb2 & Hc2) & Hval). apply wp_bind, wp_ret, wp_ret. split; [done|]. split; [done|]. split; [|done].
  split; [by etransitivity|]. split; congruence.
Qed.

Lemma noinit_decodes_all n :
  sub_decodes tables n (sub_wire n) (msg_at tables m n) (fun m' t q => default_msg tables m' n t q)
    (pb_decode_noinit user_read tables decode_cb decode_ext alloc n).
Proof.
  induction n as [|n IH]; [done|]. cbn [pb_decode_noinit]. apply message_decodes; [exact IH|by apply with_decodes].
Qed.

(** ** Every message can be encoded *)

Lemma items_all_total {A} (g : A -> outcome (list item)) l : (forall i x, l !! i = Some x -> exists y, g x = Done y) -> exists y, items_all g l = Done y.
Proof.
  induction l as [|x l IH]; intros H; cbn [items_all]; [by eexists|]. destruct (H 0%nat x eq_refl) as [y ->]. cbn [mbind outcome_bind].
  destruct IH as [z ->]; [|by eexists]. intros i. apply (H (S i)).
Qed.

Lemma msg_total n : forall t size p v, fits tables n t size = true -> tidy tables n t = true -> 0 < p -> msg_at tables m n t p = Some v ->
  exists l, msg_items tables m cb_wire ext_wire n t p = Done l.
Proof.
  induction n as [|n IH]; intros t size p v Hf Ht H0 Hv; [done|]. cbn [msg_items]. rewrite members_slots. apply items_all_total.
  intros i y Hy. apply list_lookup_fmap_Some in Hy as (x & -> & Hx). cbn [msg_at] in Hv. apply fmap_Some in Hv as (cs & Hcs & _). apply mapM_Some in Hcs.
  destruct (Forall2_lookup_l _ _ _ _ _ Hcs Hx) as (c & _ & Hc).
  destruct (placed tables tables_ok n t size p p Hf Ht H0 i x Hx) as [_ _ Hmf _ Hta _ Hpos].
  rewrite items_of_static; [|apply Hmf|by eapply fits_kind]. eapply field_total; try done.
  intros t' size' p' v' Hf' Ht' H0' Hv'. destruct (IH t' size' p' v' Hf' Ht' H0' Hv') as [l ->]. by eexists.
Qed.
End round.

(** ** The round trip *)

Section theorem.
Context {U : Type} (user_write : U -> list Z -> bool * U) (user_read : U -> Z -> option (list Z) * U).
Context (tables : Z -> list pb_field).
Context (encode_cb : Z -> pb_field -> Z -> M (@pb_ostream U) unit) (encode_ext : Z -> Z -> M (@pb_ostream U) unit).
Context (decode_cb : Z -> pb_field -> Z -> M (dec U) bool) (decode_ext : Z -> Z -> Z -> Z -> M (dec U) bool).
Context (alloc : mem -> gmap Z Z -> Z -> option (Z * list Z)).
Context (cb_wire : Z -> pb_field -> Z -> outcome (list Z)) (ext_wire : Z -> Z -> outcome (list Z)).
Context {callbacks : EncodeCallbacks encode_cb encode_ext cb_wire ext_wire}.
Hypothesis tables_ok : forall t, Forall field_ok (tables t).

End theorem.

(** ** An example

    A struct with a flagged int64, an array of sint32 with a count, a submessage,
    a union of a byte string and an int64, an array of strings, a fixed-count
    array of fixed32, and a required bool. *)

Section example.
Definition trip_tables (t : Z) : list pb_field :=
  if t =? 1 then
    [PbField 1 0x11 8 (-8) 8 0 0; PbField 3 0x23 8 (-8) 4 2 0; PbField 4 0x18 0 0 4 0 2; PbField 5 0x36 8 (-4) 8 0 0;
     PbField 6 0x31 PB_SIZE_MAX (-4) 8 0 0; PbField 7 0x27 8 (-4) 4 2 0; PbField 8 0x24 0 0 4 2 0; PbField 9 0x00 0 0 1 0 0]
  else if t =? 2 then [PbField 1 0x12 0 0 4 0 0]
  else [].
Definition trip_mem : mem :=
  mem_of 1000 ([1; 0; 0; 0; 0; 0; 0; 0] ++ le_bytes 8 300 ++ le_bytes 8 2 ++ le_bytes 4 (-3) ++ le_bytes 4 5 ++ le_bytes 4 7 ++
    le_bytes 4 0 ++ le_bytes 4 5 ++ le_bytes 4 2 ++ [0xAA; 0xBB; 0; 0] ++ le_bytes 4 0 ++ le_bytes 4 2 ++ [97; 98; 0; 9] ++ [0; 9; 9; 9] ++
    le_bytes 4 1 ++ le_bytes 4 2 ++ [3]).
Definition trip_value : value :=
  VMsg [Some [VBytes (le_bytes 8 300)]; Some [VBytes (le_bytes 4 (-3)); VBytes (le_bytes 4 5)]; Some [VMsg [Some [VBytes (le_bytes 4 7)]]];
        Some [VBytes [0xAA; 0xBB]]; None; Some [VBytes [97; 98]; VBytes []]; Some [VBytes (le_bytes 4 1); VBytes (le_bytes 4 2)]; Some [VBytes [1]]].
Definition trip_wire : list Z :=
  [8; 0xAC; 2; 0x1A; 2; 5; 10; 0x22; 2; 8; 7; 0x2A; 2; 0xAA; 0xBB; 0x3A; 2; 97; 98; 0x3A; 0; 0x42; 8; 1; 0; 0; 0; 2; 0; 0; 0; 0x48; 1].
#[local] Abbreviation uw := (fun (u : unit) (_ : list Z) => (true, u)).
#[local] Abbreviation ur := (fun (u : unit) (_ : Z) => (@None (list Z), u)).
#[local] Abbreviation no_encode := (fun (_ : Z) (_ : pb_field) (_ : Z) => @fail (@pb_ostream unit) unit).
#[local] Abbreviation no_encode_ext := (fun (_ _ : Z) => @fail (@pb_ostream unit) unit).
#[local] Abbreviation no_decode := (fun (_ : Z) (_ : pb_field) (_ : Z) => @fail (dec unit) bool).
#[local] Abbreviation no_decode_ext := (fun _ _ _ _ : Z => @fail (dec unit) bool).
#[local] Abbreviation no_alloc := (fun (_ : mem) (_ : gmap Z Z) (_ : Z) => @None (Z * list Z)).

#[local] Instance trip_callbacks : EncodeCallbacks no_encode no_encode_ext (fun _ _ _ => Error) (fun _ _ => Error).
Proof. constructor; done. Qed.

Lemma trip_tables_ok t : Forall field_ok (trip_tables t).
Proof. unfold trip_tables. repeat case_match; repeat constructor; unfold field_ok; cbn; lia. Qed.

Lemma trip_mem_ok : mem_ok trip_mem.
Proof.
  apply mem_of_ok; match goal with |- Forall _ ?l => let l' := eval vm_compute in l in change l with l' end;
    repeat (constructor; [unfold is_byte; lia|]); constructor.
Qed.

Lemma trip_defaults m : defaults_ok trip_tables m.
Proof.
  intros t f. unfold trip_tables. intros H Hf Hl. exfalso. repeat case_match; repeat (apply elem_of_cons in H as [->|H]; [by cbn in *|]); by apply not_elem_of_nil in H.
Qed.

(** Decoded over a struct that is full of nines. *)
Definition trip_state : dec unit := Dec (mem_of 2000 (replicate 77 9)) ∅ 0 (pb_istream_from_buffer [] 0).

End example.
