(* ===== verification/Unicode.v ===== *)
(** * crypto/bytestring/unicode.c: code points in UTF-8, Latin-1, UCS-2 and UTF-32.

    The readers work on a CBS, the writers on a CBB. What a pair of them promises
    to a client that transcodes text is the class [TextCodec]; the four encodings
    are its instances. *)

From S2P Require Import Prelude Mem DerSpec CBS CBB.

Definition is_valid_code_point (v : Z) : bool :=
  negb ((v >? 0x10ffff) || (Z.land v 0xfffe =? 0xfffe) ||
        ((v >=? 0xfdd0) && (v <=? 0xfdef)) || ((v >=? 0xd800) && (v <=? 0xdfff))).

Definition BOTTOM_BITS (n : Z) : Z := u8 (Z.shiftl 1 n - 1).

Definition TOP_BITS (n : Z) : Z := u8 (Z.lnot (BOTTOM_BITS (8 - n))).

(** ** Readers *)

(** The loop over the [n] continuation bytes. *)
Fixpoint utf8_cont (n : nat) (v : Z) : M cbs Z :=
  match n with
  | O => ret v
  | S n' =>
      let* c := CBS_get_u8 in
      if negb (Z.land c (TOP_BITS 2) =? TOP_BITS 1) then fail
      else utf8_cont n' (Z.lor (u32 (Z.shiftl v 6)) (Z.land c (BOTTOM_BITS 6)))
  end.

Definition cbs_get_utf8 : M cbs Z :=
  let* c := CBS_get_u8 in
  if c <=? 0x7f then ret c
  else
    let* '(v, len, lower_bound) :=
      if Z.land c (TOP_BITS 3) =? TOP_BITS 2 then ret (Z.land c (BOTTOM_BITS 5), 1%nat, 0x80)
      else if Z.land c (TOP_BITS 4) =? TOP_BITS 3 then ret (Z.land c (BOTTOM_BITS 4), 2%nat, 0x800)
      else if Z.land c (TOP_BITS 5) =? TOP_BITS 4 then ret (Z.land c (BOTTOM_BITS 3), 3%nat, 0x10000)
      else fail in
    let* v := utf8_cont len v in
    if negb (is_valid_code_point v) || (v <? lower_bound) then fail else ret v.

Definition cbs_get_latin1 : M cbs Z := CBS_get_u8.

Definition cbs_get_ucs2_be : M cbs Z :=
  let* c := CBS_get_u16 in
  if negb (is_valid_code_point c) then fail else ret c.

Definition cbs_get_utf32_be : M cbs Z :=
  let* c := CBS_get_u32 in
  if is_valid_code_point c then ret c else fail.

(** ** Writers *)

Definition cbb_get_utf8_len (u : Z) : Z :=
  if u <=? 0x7f then 1 else if u <=? 0x7ff then 2 else if u <=? 0xffff then 3 else 4.

Section writers.
Context (malloc_ok : Z -> bool) (uninit : nat -> Z).
#[local] Abbreviation add_u8 := (CBB_add_u8 malloc_ok uninit).

Definition cbb_add_utf8 (h : positive) (u : Z) : M store unit :=
  if negb (is_valid_code_point u) then fail
  else if u <=? 0x7f then add_u8 h (u8 u)
  else if u <=? 0x7ff then
    add_u8 h (u8 (Z.lor (TOP_BITS 2) (Z.shiftr u 6))) ;;
    add_u8 h (u8 (Z.lor (TOP_BITS 1) (Z.land u (BOTTOM_BITS 6))))
  else if u <=? 0xffff then
    add_u8 h (u8 (Z.lor (TOP_BITS 3) (Z.shiftr u 12))) ;;
    add_u8 h (u8 (Z.lor (TOP_BITS 1) (Z.land (Z.shiftr u 6) (BOTTOM_BITS 6)))) ;;
    add_u8 h (u8 (Z.lor (TOP_BITS 1) (Z.land u (BOTTOM_BITS 6))))
  else if u <=? 0x10ffff then
    add_u8 h (u8 (Z.lor (TOP_BITS 4) (Z.shiftr u 18))) ;;
    add_u8 h (u8 (Z.lor (TOP_BITS 1) (Z.land (Z.shiftr u 12) (BOTTOM_BITS 6)))) ;;
    add_u8 h (u8 (Z.lor (TOP_BITS 1) (Z.land (Z.shiftr u 6) (BOTTOM_BITS 6)))) ;;
    add_u8 h (u8 (Z.lor (TOP_BITS 1) (Z.land u (BOTTOM_BITS 6))))
  else fail.

Definition cbb_add_latin1 (h : positive) (u : Z) : M store unit :=
  if u <=? 0xff then add_u8 h (u8 u) else fail.

Definition cbb_add_ucs2_be (h : positive) (u : Z) : M store unit :=
  if (u <=? 0xffff) && is_valid_code_point u then CBB_add_u16 malloc_ok uninit h (u16 u) else fail.

Definition cbb_add_utf32_be (h : positive) (u : Z) : M store unit :=
  if is_valid_code_point u then CBB_add_u32 malloc_ok uninit h u else fail.
End writers.

(** ** Specification of UTF-8 (Unicode 9.0, table 3-6) *)

Definition utf8_octets (u : Z) : list Z :=
  if u <=? 0x7f then [u]
  else if u <=? 0x7ff then [192 + u / 64; 128 + u mod 64]
  else if u <=? 0xffff then [224 + u / 4096; 128 + u / 64 mod 64; 128 + u mod 64]
  else [240 + u / 262144; 128 + u / 4096 mod 64; 128 + u / 64 mod 64; 128 + u mod 64].

Example utf8_euro : cbs_get_utf8 [0xe2; 0x82; 0xac; 0x41] = (Some 0x20ac, [0x41]).
Proof. reflexivity. Qed.
Example utf8_overlong : fst (cbs_get_utf8 [0xc0; 0x80]) = None.
Proof. reflexivity. Qed.

(** ** Lemmas *)

Lemma valid_range u : 0 <= u -> is_valid_code_point u = true -> 0 <= u <= 0x10ffff.
Proof.
  unfold is_valid_code_point. rewrite Z.gtb_ltb. intros H0 H.
  apply negb_true_iff in H. bool_hyps. lia.
Qed.

Lemma latin1_valid u : is_byte u -> is_valid_code_point u = true.
Proof. unfold is_byte. intros H. byte_check is_valid_code_point u as E; done. Qed.

(** The bits of a continuation byte. *)
Lemma cont_byte c : is_byte c ->
  (Z.land c (TOP_BITS 2) =? TOP_BITS 1) = (128 <=? c) && (c <? 192) /\
  Z.land c (BOTTOM_BITS 6) = c mod 64.
Proof.
  unfold is_byte. intros Hc.
  byte_check (fun c => Bool.eqb (Z.land c (TOP_BITS 2) =? TOP_BITS 1) ((128 <=? c) && (c <? 192))
    && (Z.land c (BOTTOM_BITS 6) =? c mod 64)) c as H.
  bool_hyps. split; [by apply Bool.eqb_prop|done].
Qed.

(** The bits of the first byte. *)
Lemma lead_byte c : is_byte c ->
  (Z.land c (TOP_BITS 3) =? TOP_BITS 2) = (192 <=? c) && (c <? 224) /\
  (Z.land c (TOP_BITS 4) =? TOP_BITS 3) = (224 <=? c) && (c <? 240) /\
  (Z.land c (TOP_BITS 5) =? TOP_BITS 4) = (240 <=? c) && (c <? 248) /\
  Z.land c (BOTTOM_BITS 5) = c mod 32 /\ Z.land c (BOTTOM_BITS 4) = c mod 16 /\
  Z.land c (BOTTOM_BITS 3) = c mod 8.
Proof.
  unfold is_byte. intros Hc.
  byte_check (fun c =>
    Bool.eqb (Z.land c (TOP_BITS 3) =? TOP_BITS 2) ((192 <=? c) && (c <? 224)) &&
    Bool.eqb (Z.land c (TOP_BITS 4) =? TOP_BITS 3) ((224 <=? c) && (c <? 240)) &&
    Bool.eqb (Z.land c (TOP_BITS 5) =? TOP_BITS 4) ((240 <=? c) && (c <? 248)) &&
    (Z.land c (BOTTOM_BITS 5) =? c mod 32) && (Z.land c (BOTTOM_BITS 4) =? c mod 16) &&
    (Z.land c (BOTTOM_BITS 3) =? c mod 8)) c as H.
  rewrite !andb_true_iff in H. destruct H as [[[[[H1 H2] H3] H4] H5] H6].
  apply Bool.eqb_prop in H1, H2, H3. bool_hyps. done.
Qed.

Lemma utf8_cont_cons n v c l : is_byte c -> 0 <= v < 2 ^ 26 ->
  utf8_cont (S n) v (c :: l) =
    if (128 <=? c) && (c <? 192) then utf8_cont n (v * 64 + c mod 64) l else (None, l).
Proof.
  intros Hc Hv. cbn [utf8_cont]. unfold bind at 1. rewrite CBS_get_u8_cons.
  destruct (cont_byte c Hc) as [-> ->].
  destruct ((128 <=? c) && (c <? 192)); cbn [negb]; [|done].
  rewrite u32_small, lor_add by (rewrite ?Z.shiftl_mul_pow2; zarith). done.
Qed.

Lemma utf8_cont_step n v d l : 0 <= d < 64 -> 0 <= v < 2 ^ 26 ->
  utf8_cont (S n) v (128 + d :: l) = utf8_cont n (v * 64 + d) l.
Proof.
  intros Hd Hv. rewrite utf8_cont_cons by (done || unfold is_byte; lia).
  destruct (Z.leb_spec 128 (128 + d)), (Z.ltb_spec (128 + d) 192); try lia. cbn [andb].
  do 2 f_equal. zarith.
Qed.

Lemma utf8_cont_inv n v c u rest : bytes_ok c -> 0 <= v < 2 ^ 26 ->
  utf8_cont (S n) v c = (Some u, rest) ->
  exists d c', c = 128 + d :: c' /\ 0 <= d < 64 /\ bytes_ok c' /\
    utf8_cont n (v * 64 + d) c' = (Some u, rest).
Proof.
  intros Hc Hv H. destruct c as [|b c]; [done|]. apply Forall_cons in Hc as [Hb Hc].
  rewrite utf8_cont_cons in H by done. destruct ((128 <=? b) && (b <? 192)) eqn:Eb; [|done].
  bool_hyps. exists (b mod 64), c. split_and!; try done; try zarith. f_equal. zarith.
Qed.

(** The first byte, split into the length marker and the top bits. *)
Inductive lead : Z -> Z -> nat -> Z -> Prop :=
  | lead2 d : 0 <= d < 32 -> lead (192 + d) d 1 0x80
  | lead3 d : 0 <= d < 16 -> lead (224 + d) d 2 0x800
  | lead4 d : 0 <= d < 8 -> lead (240 + d) d 3 0x10000.

Definition utf8_tail (v : Z) (len : nat) (lower_bound : Z) : M cbs Z :=
  let* v := utf8_cont len v in
  if negb (is_valid_code_point v) || (v <? lower_bound) then fail else ret v.

Lemma utf8_get_lead c d n lo l : lead c d n lo -> cbs_get_utf8 (c :: l) = utf8_tail d n lo l.
Proof.
  intros Hl. assert (Hc : is_byte c /\ 128 <= c) by (destruct Hl; unfold is_byte; lia).
  destruct Hc as [Hc H128]. destruct (lead_byte c Hc) as (H3 & H4 & H5 & E3 & E4 & E5).
  unfold cbs_get_utf8, bind at 1. rewrite CBS_get_u8_cons, H3, H4, H5, E3, E4, E5.
  destruct Hl; decide_cmp; cbn [andb]; unfold bind at 1, ret at 1;
    [replace ((192 + d) mod 32) with d by zarith|replace ((224 + d) mod 16) with d by zarith|
     replace ((240 + d) mod 8) with d by zarith]; done.
Qed.

Lemma utf8_get_inv c u rest : bytes_ok c -> cbs_get_utf8 c = (Some u, rest) ->
  c = u :: rest /\ 0 <= u < 128 \/
  exists b d n lo l, c = b :: l /\ bytes_ok l /\ lead b d n lo /\ utf8_tail d n lo l = (Some u, rest).
Proof.
  intros Hc H. destruct c as [|b l]; [done|]. apply Forall_cons in Hc as [Hb Hl].
  destruct (lead_byte b Hb) as (H3 & H4 & H5 & _). unfold is_byte in Hb.
  destruct (Z.leb_spec b 0x7f) as [|Hgt].
  - unfold cbs_get_utf8, bind in H. rewrite CBS_get_u8_cons in H.
    destruct (Z.leb_spec b 0x7f); [|lia]. unfold ret in H. simp_eq. left. split; [done|lia].
  - right. assert (G : forall d n lo, lead b d n lo -> exists b0 d n lo l0,
      b :: l = b0 :: l0 /\ bytes_ok l0 /\ lead b0 d n lo /\ utf8_tail d n lo l0 = (Some u, rest)).
    { intros d n lo Hd. exists b, d, n, lo, l. rewrite <- (utf8_get_lead b d n lo) by done. done. }
    unfold cbs_get_utf8, bind in H. rewrite CBS_get_u8_cons, H3, H4, H5 in H.
    destruct (Z.leb_spec b 0x7f); [lia|].
    destruct ((192 <=? b) && (b <? 224)) eqn:E3; [|destruct ((224 <=? b) && (b <? 240)) eqn:E4;
      [|destruct ((240 <=? b) && (b <? 248)) eqn:E5; [|done]]]; bool_hyps.
    + replace b with (192 + (b - 192)) in G |- * by lia. eapply G. constructor. lia.
    + replace b with (224 + (b - 224)) in G |- * by lia. eapply G. constructor. lia.
    + replace b with (240 + (b - 240)) in G |- * by lia. eapply G. constructor. lia.
Qed.

Lemma utf8_tail_inv d n lo l u rest : bytes_ok l -> 0 <= d < 32 ->
  utf8_tail d n lo l = (Some u, rest) ->
  utf8_cont n d l = (Some u, rest) /\ is_valid_code_point u = true /\ lo <= u.
Proof.
  intros Hl Hd H. unfold utf8_tail, bind in H. destruct (utf8_cont n d l) as [[v|] r]; [|done].
  destruct (is_valid_code_point v) eqn:Ev, (Z.ltb_spec v lo); cbn in H; unfold fail, ret in H; simp_eq. done.
Qed.

Lemma utf8_sound c u rest : bytes_ok c -> cbs_get_utf8 c = (Some u, rest) ->
  0 <= u /\ is_valid_code_point u = true /\ c = utf8_octets u ++ rest.
Proof.
  intros Hc H. apply utf8_get_inv in H as [[-> Hu]|(b & d & n & lo & l & -> & Hl & Hd & H)]; [| |done].
  - unfold utf8_octets. decide_cmp. rewrite latin1_valid by (unfold is_byte; lia). split; [lia|done].
  - assert (0 <= d < 32) by (destruct Hd; lia).
    apply utf8_tail_inv in H as (H & Hv & Hlo); [|done..]. unfold utf8_octets.
    destruct Hd as [d Hd|d Hd|d Hd];
    repeat match goal with
    | H : utf8_cont (S _) _ _ = _ |- _ =>
        apply utf8_cont_inv in H as (? & ? & -> & ? & ? & H); [|done|lia]
    end; cbn [utf8_cont] in H; unfold ret in H; simp_eq;
    apply valid_range in Hv as Hr; try lia; (split; [lia|split; [done|]]);
    decide_cmp; cbn [app]; repeat f_equal; zarith.
Qed.

Lemma utf8_complete u rest : 0 <= u -> is_valid_code_point u = true ->
  cbs_get_utf8 (utf8_octets u ++ rest) = (Some u, rest).
Proof.
  intros H0 Hv. pose proof (valid_range u H0 Hv) as Hr.
  assert (G : forall d n lo l, utf8_cont n d l = (Some u, rest) -> lo <= u ->
    utf8_tail d n lo l = (Some u, rest)).
  { intros d n lo l H Hlo. unfold utf8_tail, bind. rewrite H, Hv.
    destruct (Z.ltb_spec u lo); [lia|done]. }
  unfold utf8_octets.
  destruct (Z.leb_spec u 0x7f); [|destruct (Z.leb_spec u 0x7ff); [|destruct (Z.leb_spec u 0xffff)]];
    cbn [app].
  - unfold cbs_get_utf8, bind. rewrite CBS_get_u8_cons. destruct (Z.leb_spec u 0x7f); [done|lia].
  - rewrite (utf8_get_lead _ (u / 64) 1 0x80) by (constructor; zarith). apply G; [|lia].
    rewrite utf8_cont_step by zarith. cbn [utf8_cont]. unfold ret. do 2 f_equal. zarith.
  - rewrite (utf8_get_lead _ (u / 4096) 2 0x800) by (constructor; zarith). apply G; [|lia].
    rewrite !utf8_cont_step by zarith. cbn [utf8_cont]. unfold ret. do 2 f_equal. zarith.
  - rewrite (utf8_get_lead _ (u / 262144) 3 0x10000) by (constructor; zarith). apply G; [|lia].
    rewrite !utf8_cont_step by zarith. cbn [utf8_cont]. unfold ret. do 2 f_equal. zarith.
Qed.

(** ** The interface to clients that transcode text *)

(** An encoding: its reader, its writer, and the octets of the characters it can
    represent. *)
Record codec := Codec {
  decode : M cbs Z;
  encode : positive -> Z -> M store unit;
  octets : Z -> list Z;
  max_char : Z }.

(** The characters of a codec. *)
Definition repertoire (k : codec) (u : Z) : bool :=
  (0 <=? u) && is_valid_code_point u && (u <=? max_char k).

(** What a codec promises: it reads exactly the octets of its characters, and
    writes them. *)
Class TextCodec (k : codec) : Prop := {
  codec_sound c u rest : bytes_ok c -> decode k c = (Some u, rest) ->
    repertoire k u = true /\ c = octets k u ++ rest;
  codec_complete u rest : repertoire k u = true -> bytes_ok rest ->
    decode k (octets k u ++ rest) = (Some u, rest);
  codec_encode h u : repertoire k u = true -> appends h (encode k h u) (octets k u);
  codec_length u : repertoire k u = true -> 1 <= zlen (octets k u) <= 4 }.

Section codecs.
Context (malloc_ok : Z -> bool) (uninit : nat -> Z).
Context (Hmalloc : forall n, 0 <= n < 2 ^ 63 -> malloc_ok n = true).

Definition utf8 : codec := Codec cbs_get_utf8 (cbb_add_utf8 malloc_ok uninit) utf8_octets 0x10ffff.
Definition latin1 : codec := Codec cbs_get_latin1 (cbb_add_latin1 malloc_ok uninit) (be_bytes 1) 0xff.
Definition ucs2 : codec := Codec cbs_get_ucs2_be (cbb_add_ucs2_be malloc_ok uninit) (be_bytes 2) 0xffff.
Definition utf32 : codec := Codec cbs_get_utf32_be (cbb_add_utf32_be malloc_ok uninit) (be_bytes 4) 0x10ffff.

Lemma repertoire_inv k u : repertoire k u = true ->
  0 <= u <= max_char k /\ is_valid_code_point u = true /\ u <= 0x10ffff.
Proof.
  unfold repertoire. rewrite !andb_true_iff. intros [[H1 H2] H3]. bool_hyps.
  pose proof (valid_range u H1 H2). split_and!; done || lia.
Qed.

Lemma cont_octet x : u8 (Z.lor (TOP_BITS 1) (Z.land x (BOTTOM_BITS 6))) = 128 + x mod 64.
Proof.
  change (BOTTOM_BITS 6) with (2 ^ 6 - 1). change (TOP_BITS 1) with (2 * 64).
  rewrite land_mask by lia. change (2 ^ 6) with 64.
  rewrite (lor_add_mul 6) by (done || zarith). rewrite u8_small; [lia|zarith].
Qed.

Lemma lead_octet k n x : 0 <= n <= 8 -> 2 ^ n * k + 2 ^ n <= 256 -> 0 <= k -> 0 <= x < 2 ^ n ->
  u8 (Z.lor (k * 2 ^ n) x) = k * 2 ^ n + x.
Proof. intros. rewrite (lor_add_mul n) by (done || lia). apply u8_small. lia. Qed.

#[local] Instance utf8_codec : TextCodec utf8.
Proof using Hmalloc.
  constructor.
  - intros c u rest Hc H. apply utf8_sound in H as (H0 & Hv & ->); [|done].
    split; [|done]. unfold repertoire. rewrite Hv. cbn. pose proof (valid_range u H0 Hv).
    decide_cmp; done.
  - intros u rest Hu _. apply repertoire_inv in Hu as (Hr & Hv & _). apply utf8_complete; done || lia.
  - intros h u Hu. apply repertoire_inv in Hu as (Hr & Hv & Hm). cbn [encode octets utf8].
    unfold cbb_add_utf8, utf8_octets. rewrite Hv. cbn [negb].
    rewrite !cont_octet, !Z.shiftr_div_pow2 by lia.
    change (2 ^ 6) with 64. change (2 ^ 12) with 4096. change (2 ^ 18) with 262144.
    destruct (Z.leb_spec u 0x7f); [|destruct (Z.leb_spec u 0x7ff); [|destruct (Z.leb_spec u 0xffff);
      [|destruct (Z.leb_spec u 0x10ffff); [|lia]]]].
    + rewrite u8_small by lia. apply appends_u8; [done|unfold is_byte; lia].
    + change (TOP_BITS 2) with (6 * 2 ^ 5). rewrite (lead_octet 6 5) by zarith.
      eapply (appends_seq h _ _ [_]); apply appends_u8; done || (unfold is_byte; zarith).
    + change (TOP_BITS 3) with (14 * 2 ^ 4). rewrite (lead_octet 14 4) by zarith.
      eapply (appends_seq h _ _ [_]); [|eapply (appends_seq h _ _ [_])];
        apply appends_u8; done || (unfold is_byte; zarith).
    + change (TOP_BITS 4) with (30 * 2 ^ 3). rewrite (lead_octet 30 3) by zarith.
      eapply (appends_seq h _ _ [_]); [|eapply (appends_seq h _ _ [_]); [|eapply (appends_seq h _ _ [_])]];
        apply appends_u8; done || (unfold is_byte; zarith).
  - intros u Hu. cbn [octets utf8]. unfold utf8_octets.
    destruct (u <=? 0x7f), (u <=? 0x7ff), (u <=? 0xffff); zlia.
Qed.

(** The three fixed-width codecs read and write one big-endian integer. *)
Lemma fixed_width_codec n k : (1 <= n <= 4)%nat -> max_char k < 256 ^ Z.of_nat n ->
  octets k = be_bytes n ->
  (forall c, bytes_ok c -> decode k c =
     match cbs_get_u (Z.of_nat n) c with
     | (Some u, rest) => (if repertoire k u then Some u else None, rest)
     | (None, rest) => (None, rest)
     end) ->
  (forall h u, repertoire k u = true ->
     encode k h u = cbb_add_u malloc_ok uninit h u (Z.of_nat n)) ->
  TextCodec k.
Proof using Hmalloc.
  intros Hn Hmax Ho Hd He. constructor; rewrite ?Ho.
  - intros c u rest Hc H. rewrite Hd in H by done.
    destruct (cbs_get_u (Z.of_nat n) c) as [[v|] r] eqn:E; [|done].
    apply cbs_get_u_inv in E as (l & -> & Hl & ->); [|done|lia].
    destruct (repertoire k (be_val l)) eqn:Er; [|done]. simp_eq. split; [done|].
    apply Forall_app in Hc as [Hok _].
    rewrite be_bytes_be_val; [done|done|unfold zlen in Hl; lia].
  - intros u rest Hu Hok. apply repertoire_inv in Hu as Hr. destruct Hr as (Hr & _).
    rewrite Hd by (apply Forall_app; auto with bytes).
    rewrite cbs_get_u_app by (rewrite ?zlen_be_bytes; auto with bytes; lia).
    rewrite be_val_be_bytes, Z.mod_small, Hu by lia. done.
  - intros h u Hu. rewrite He by done. apply repertoire_inv in Hu as (Hr & _).
    apply appends_u; [done|lia].
  - intros u _. rewrite zlen_be_bytes. lia.
Qed.

Lemma get_u_range n c u rest : bytes_ok c -> 0 <= n <= 8 -> cbs_get_u n c = (Some u, rest) ->
  0 <= u < 256 ^ n.
Proof.
  intros Hc Hn H. apply cbs_get_u_inv in H as (l & -> & <- & ->); [|done..].
  apply Forall_app in Hc as [Hl _]. by apply be_val_range.
Qed.

#[local] Instance ucs2_codec : TextCodec ucs2.
Proof using Hmalloc.
  apply (fixed_width_codec 2); [lia|done|done| |].
  - intros c Hc. cbn [decode ucs2]. unfold cbs_get_ucs2_be, CBS_get_u16, bind.
    change (Z.of_nat 2) with 2. destruct (cbs_get_u 2 c) as [[u|] r] eqn:E; [|done].
    apply get_u_range in E; [|done..]. change (256 ^ 2) with (2 ^ 16) in E.
    unfold ret, repertoire. rewrite u16_small by done. cbn [max_char ucs2]. decide_cmp.
    destruct (is_valid_code_point u); done.
  - intros h u Hu. apply repertoire_inv in Hu as (Hr & Hv & _). cbn [max_char ucs2] in Hr.
    cbn [encode ucs2]. unfold cbb_add_ucs2_be. rewrite Hv, u16_small by lia. decide_cmp; done.
Qed.

#[local] Instance utf32_codec : TextCodec utf32.
Proof using Hmalloc.
  apply (fixed_width_codec 4); [lia|done|done| |].
  - intros c Hc. cbn [decode utf32]. unfold cbs_get_utf32_be, CBS_get_u32, bind.
    change (Z.of_nat 4) with 4. destruct (cbs_get_u 4 c) as [[u|] r] eqn:E; [|done].
    apply get_u_range in E; [|done..]. change (256 ^ 4) with (2 ^ 32) in E.
    unfold ret, repertoire. rewrite u32_small by done. cbn [max_char utf32].
    destruct (is_valid_code_point u) eqn:Ev; [|rewrite !andb_false_r; done].
    apply valid_range in Ev; [|lia]. decide_cmp; done.
  - intros h u Hu. apply repertoire_inv in Hu as (Hr & Hv & _).
    cbn [encode utf32]. unfold cbb_add_utf32_be. rewrite Hv. done.
Qed.

#[local] Instance latin1_codec : TextCodec latin1.
Proof using Hmalloc.
  apply (fixed_width_codec 1); [lia|done|done| |].
  - intros c Hc. cbn [decode latin1]. unfold cbs_get_latin1.
    destruct c as [|b c]; [done|]. rewrite CBS_get_u8_cons.
    apply Forall_cons in Hc as [Hb Hc].
    change (Z.of_nat 1) with 1. change (b :: c) with ([b] ++ c).
    rewrite (cbs_get_u_app 1 [b] c) by (repeat constructor; done || apply Hb).
    change (be_val [b]) with (0 * 256 + b). rewrite Z.add_0_l.
    unfold repertoire. rewrite latin1_valid by done. unfold is_byte in Hb.
    cbn [max_char latin1]. decide_cmp; done.
  - intros h u Hu. apply repertoire_inv in Hu as (Hr & Hv & _). cbn [max_char latin1] in Hr.
    cbn [encode latin1]. unfold cbb_add_latin1. rewrite u8_small by lia. decide_cmp; done.
Qed.
End codecs.

Create HintDb codecs.
#[export] Hint Resolve utf8_codec ucs2_codec utf32_codec latin1_codec : codecs.


