(* ===== verification/Asn1String.v ===== *)
(** * crypto/asn1/a_mbstr.c and the string objects of crypto/asn1/asn1_lib.c.

    [ASN1_mbstring_ncopy] transcodes text into the smallest permitted ASN.1
    string type. Its decoder and encoder are two of the codecs of [Unicode]; the
    theorems use only their [TextCodec] interface. *)

From S2P Require Import Prelude Mem DerSpec CBS CBB Unicode.

(** ** Constants (include/openssl/asn1.h) *)

Definition V_ASN1_OCTET_STRING : Z := 4.
Definition V_ASN1_UTF8STRING : Z := 12.
Definition V_ASN1_PRINTABLESTRING : Z := 19.
Definition V_ASN1_T61STRING : Z := 20.
Definition V_ASN1_IA5STRING : Z := 22.
Definition V_ASN1_UNIVERSALSTRING : Z := 28.
Definition V_ASN1_BMPSTRING : Z := 30.
Definition B_ASN1_PRINTABLESTRING : Z := 0x0002.
Definition B_ASN1_T61STRING : Z := 0x0004.
Definition B_ASN1_IA5STRING : Z := 0x0010.
Definition B_ASN1_UNIVERSALSTRING : Z := 0x0100.
Definition B_ASN1_BMPSTRING : Z := 0x0800.
Definition B_ASN1_UTF8STRING : Z := 0x2000.
Definition MBSTRING_FLAG : Z := 0x1000.
Definition MBSTRING_UTF8 : Z := MBSTRING_FLAG.
Definition MBSTRING_ASC : Z := Z.lor MBSTRING_FLAG 1.
Definition MBSTRING_BMP : Z := Z.lor MBSTRING_FLAG 2.
Definition MBSTRING_UNIV : Z := Z.lor MBSTRING_FLAG 4.
Definition DIRSTRING_TYPE : Z :=
  Z.lor (Z.lor (Z.lor B_ASN1_PRINTABLESTRING B_ASN1_T61STRING) B_ASN1_BMPSTRING) B_ASN1_UTF8STRING.

(** ** Objects *)

(** [struct asn1_string_st]; [as_data] is the whole block, [None] for NULL. *)
Record asn1_string := Asn1String {
  as_length : Z; as_type : Z; as_data : option (list Z); as_flags : Z }.

(** An [ASN1_STRING *]: NULL, a live object, or one that was freed. *)
Inductive string_ptr := PNull | PLive (s : asn1_string) | PFreed.

(** The reasons for which [-1] is returned. *)
Inductive mb_error :=
  | UNKNOWN_FORMAT | INVALID_INPUT | ILLEGAL_CHARACTERS | STRING_TOO_SHORT | STRING_TOO_LONG
  | MALLOC_FAILURE | INTERNAL_ERROR.

Definition asn1_is_printable (value : Z) : bool :=
  if value >? 0x7f then false
  else ((97 <=? value) && (value <=? 122)) || ((65 <=? value) && (value <=? 90)) ||
       ((48 <=? value) && (value <=? 57)) ||
       (value =? 32) || (value =? 39) || (value =? 40) || (value =? 41) ||
       (value =? 43) || (value =? 44) || (value =? 45) || (value =? 46) ||
       (value =? 47) || (value =? 58) || (value =? 61) || (value =? 63).

Section asn1_string.
Context (malloc_ok : Z -> bool) (uninit : nat -> Z).

Definition ASN1_STRING_type_new (type : Z) : option asn1_string :=
  if OPENSSL_malloc_ok malloc_ok 24 then Some (Asn1String 0 type None 0) else None.

Definition ASN1_STRING_new : option asn1_string := ASN1_STRING_type_new V_ASN1_OCTET_STRING.

(** [data] is [None] for NULL. On failure [str] is unchanged. *)
Definition ASN1_STRING_set (str : asn1_string) (data : option (list Z)) (len : Z) : option asn1_string :=
  let len' :=
    if len <? 0 then match data with None => None | Some d => Some (OPENSSL_strnlen d) end
    else Some len in
  match len' with
  | None => None
  | Some len =>
      let grown :=
        match as_data str with
        | None => if OPENSSL_malloc_ok malloc_ok (len + 1) then Some (fresh_block uninit (len + 1)) else None
        | Some c =>
            if as_length str <=? len
            then OPENSSL_realloc malloc_ok c (len + 1) (fresh_block uninit (len + 1)) else Some c
        end in
      match grown with
      | None => None
      | Some block =>
          let block := match data with
                       | None => block
                       | Some d => zwrite 0 (ztake len d ++ [0]) block
                       end in
          Some (Asn1String len (as_type str) (Some block) (as_flags str))
      end
  end.

Definition ASN1_STRING_copy (dst str : asn1_string) : option asn1_string :=
  match ASN1_STRING_set dst (as_data str) (as_length str) with
  | None => None
  | Some dst => Some (Asn1String (as_length dst) (as_type str) (as_data dst) (as_flags str))
  end.

Definition ASN1_STRING_dup (str : option asn1_string) : option asn1_string :=
  match str with
  | None => None
  | Some str =>
      match ASN1_STRING_new with
      | None => None
      | Some r => ASN1_STRING_copy r str
      end
  end.

(** ** [ASN1_mbstring_ncopy] *)

Definition decode_func (inform : Z) : option (M cbs Z) :=
  if inform =? MBSTRING_BMP then Some cbs_get_ucs2_be
  else if inform =? MBSTRING_UNIV then Some cbs_get_utf32_be
  else if inform =? MBSTRING_UTF8 then Some cbs_get_utf8
  else if inform =? MBSTRING_ASC then Some cbs_get_latin1
  else None.

(** [if ((mask & bit) && bad) mask &= ~bit;] *)
Definition drop_type (bit : Z) (bad : bool) (mask : Z) : Z :=
  if negb (Z.land mask bit =? 0) && bad then Z.ldiff mask bit else mask.

(** "Update which output formats are still possible." *)
Definition update_mask (mask c : Z) : Z :=
  drop_type B_ASN1_BMPSTRING (c >? 0xffff)
    (drop_type B_ASN1_T61STRING (c >? 0xff)
      (drop_type B_ASN1_IA5STRING (c >? 127)
        (drop_type B_ASN1_PRINTABLESTRING (negb (asn1_is_printable c)) mask))).

(** The loop that checks the characters; [n] bounds its iterations. It returns
    [mask], [nchar] and [utf8_len]. *)
Fixpoint mb_scan (n : nat) (decode_func : M cbs Z) (inform : Z) (c : cbs)
    (mask nchar utf8_len : Z) : mb_error + Z * Z * Z :=
  if CBS_len c =? 0 then inr (mask, nchar, utf8_len)
  else
    match n with
    | O => inl INTERNAL_ERROR
    | S n' =>
        match decode_func c with
        | (None, _) => inl INVALID_INPUT
        | (Some u, c') =>
            if (nchar =? 0) && ((inform =? MBSTRING_BMP) || (inform =? MBSTRING_UNIV)) && (u =? 0xfeff)
            then inl ILLEGAL_CHARACTERS
            else
              let mask := update_mask mask u in
              if mask =? 0 then inl ILLEGAL_CHARACTERS
              else mb_scan n' decode_func inform c' mask (size_t (nchar + 1))
                     (size_t (utf8_len + cbb_get_utf8_len u))
        end
    end.

(** [str_type], [outform], [encode_func] and [size_estimate]. *)
Definition output_type (mask nchar utf8_len : Z) :
    option (Z * Z * (positive -> Z -> M store unit) * Z) :=
  let has bit := negb (Z.land mask bit =? 0) in
  if has B_ASN1_PRINTABLESTRING then
    Some (V_ASN1_PRINTABLESTRING, MBSTRING_ASC, cbb_add_latin1 malloc_ok uninit, nchar)
  else if has B_ASN1_IA5STRING then
    Some (V_ASN1_IA5STRING, MBSTRING_ASC, cbb_add_latin1 malloc_ok uninit, nchar)
  else if has B_ASN1_T61STRING then
    Some (V_ASN1_T61STRING, MBSTRING_ASC, cbb_add_latin1 malloc_ok uninit, nchar)
  else if has B_ASN1_BMPSTRING then
    Some (V_ASN1_BMPSTRING, MBSTRING_BMP, cbb_add_ucs2_be malloc_ok uninit, size_t (2 * nchar))
  else if has B_ASN1_UNIVERSALSTRING then
    Some (V_ASN1_UNIVERSALSTRING, MBSTRING_UNIV, cbb_add_utf32_be malloc_ok uninit, size_t (4 * nchar))
  else if has B_ASN1_UTF8STRING then
    Some (V_ASN1_UTF8STRING, MBSTRING_UTF8, cbb_add_utf8 malloc_ok uninit, utf8_len)
  else None.

(** The loop that decodes and encodes each character. *)
Fixpoint mb_transcode (n : nat) (decode_func : M cbs Z) (encode_func : positive -> Z -> M store unit)
    (h : positive) (c : cbs) : M store unit :=
  if CBS_len c =? 0 then ret tt
  else
    match n with
    | O => fail
    | S n' =>
        let* '(u, c') := on c decode_func in
        encode_func h u ;;
        mb_transcode n' decode_func encode_func h c'
    end.

(** The bytes in the local CBB after the loop and the NUL. *)
Definition mb_convert (decode_func : M cbs Z) (encode_func : positive -> Z -> M store unit)
    (inn : list Z) : M store (list Z) :=
  mb_transcode (length inn) decode_func encode_func 1 inn ;;
  CBB_add_u8 malloc_ok uninit 1 0 ;;
  let* data := CBB_finish malloc_ok uninit 1 false in
  if (zlen data <? 1) || (zlen data >? INT_MAX) then fail else ret data.

(** The destination: [*out] reset, or a new object ([free_out]). *)
Definition mb_dest (out : string_ptr) (str_type : Z) : option (asn1_string * bool) :=
  match out with
  | PLive d =>
      let d := match as_data d with
               | Some _ => Asn1String 0 str_type None (as_flags d)
               | None => Asn1String (as_length d) str_type None (as_flags d)
               end in
      Some (d, false)
  | PNull => option_map (fun d => (d, true)) (ASN1_STRING_type_new str_type)
  | PFreed => None
  end.

(** [out] is [None] when the pointer is NULL, and otherwise what it points to;
    the result is the type returned, or the reason for -1, and the new [*out].
    [inn] holds the [len] bytes of [in]. *)
Definition ASN1_mbstring_ncopy (out : option string_ptr) (inn : list Z) (inform mask minsize maxsize : Z) :
    (mb_error + Z) * option string_ptr :=
  let mask := if mask =? 0 then DIRSTRING_TYPE else mask in
  match decode_func inform with
  | None => (inl UNKNOWN_FORMAT, out)
  | Some decode_func =>
      match mb_scan (length inn) decode_func inform (CBS_init inn) mask 0 0 with
      | inl e => (inl e, out)
      | inr (mask, nchar, utf8_len) =>
          if (minsize >? 0) && (nchar <? minsize) then (inl STRING_TOO_SHORT, out)
          else if (maxsize >? 0) && (nchar >? maxsize) then (inl STRING_TOO_LONG, out)
          else
            match output_type mask nchar utf8_len with
            | None => (inl ILLEGAL_CHARACTERS, out)
            | Some (str_type, outform, encode_func, size_estimate) =>
                match out with
                | None => (inr str_type, None)
                | Some p =>
                    match mb_dest p str_type with
                    | None => (inl MALLOC_FAILURE, out)
                    | Some (dest, free_out) =>
                        let err e := (inl e, Some (if free_out then PFreed else PLive dest)) in
                        if inform =? outform then
                          match ASN1_STRING_set dest (Some inn) (zlen inn) with
                          | None => (inl MALLOC_FAILURE, Some (PLive dest))
                          | Some dest => (inr str_type, Some (PLive dest))
                          end
                        else
                          match CBB_init malloc_ok uninit 1 (size_t (size_estimate + 1)) (Store None ∅) with
                          | (None, _) => err MALLOC_FAILURE
                          | (Some _, s) =>
                              match mb_convert decode_func encode_func inn s with
                              | (None, _) => err INTERNAL_ERROR
                              | (Some data, _) =>
                                  (inr str_type,
                                   Some (PLive (Asn1String (zlen data - 1) (as_type dest) (Some data)
                                                  (as_flags dest))))
                              end
                          end
                    end
                end
            end
      end
  end.

Definition ASN1_mbstring_copy (out : option string_ptr) (inn : list Z) (inform mask : Z) :=
  ASN1_mbstring_ncopy out inn inform mask 0 0.
End asn1_string.

(** "aé" in UTF-8 becomes a T61String of two Latin-1 bytes. *)
Example mbstring_t61 :
  ASN1_mbstring_copy (fun _ => true) (fun _ => 0) (Some PNull) [0x61; 0xc3; 0xa9] MBSTRING_UTF8 0 =
  (inr V_ASN1_T61STRING, Some (PLive (Asn1String 2 V_ASN1_T61STRING (Some [0x61; 0xe9; 0]) 0))).
Proof. vm_compute. reflexivity. Qed.

(** ** Specification *)

(** The string types in the order of preference: the type, the bit of the mask,
    the characters it can represent. *)
Definition type_table : list (Z * Z * (Z -> bool)) :=
  [(V_ASN1_PRINTABLESTRING, 1, asn1_is_printable); (V_ASN1_IA5STRING, 4, fun u => u <=? 127);
   (V_ASN1_T61STRING, 2, fun u => u <=? 0xff); (V_ASN1_BMPSTRING, 11, fun u => u <=? 0xffff);
   (V_ASN1_UNIVERSALSTRING, 8, fun _ => true); (V_ASN1_UTF8STRING, 13, fun _ => true)].

(** The first type of the table that the mask permits and that represents [us]. *)
Fixpoint select (table : list (Z * Z * (Z -> bool))) (mask : Z) (us : list Z) : option Z :=
  match table with
  | [] => None
  | (t, i, ok) :: table' =>
      if Z.testbit mask i && forallb ok us then Some t else select table' mask us
  end.

Definition effective_mask (mask : Z) : Z := if mask =? 0 then DIRSTRING_TYPE else mask.

(** The octets of a text. *)
Definition text (k : codec) (us : list Z) : list Z := concat (octets k <$> us).

(** The text starts with a byte-order mark that [inform] forbids. *)
Definition has_bom (inform : Z) (us : list Z) : bool :=
  match us with
  | [] => false
  | u :: _ => ((inform =? MBSTRING_BMP) || (inform =? MBSTRING_UNIV)) && (u =? 0xfeff)
  end.

(** ** The mask *)

Lemma testbit_pow2_land mask i : 0 <= i -> negb (Z.land mask (2 ^ i) =? 0) = Z.testbit mask i.
Proof.
  intros Hi. destruct (Z.testbit mask i) eqn:E.
  - apply negb_true_iff, Z.eqb_neq. intros H. apply (f_equal (fun z => Z.testbit z i)) in H.
    rewrite Z.land_spec, E, Z.pow2_bits_true, Z.bits_0 in H by done. done.
  - apply negb_false_iff, Z.eqb_eq, Z.bits_inj'. intros j Hj.
    rewrite Z.land_spec, Z.bits_0, Z.pow2_bits_eqb by done.
    destruct (Z.eqb_spec i j) as [<-|]; [rewrite E; done|apply andb_false_r].
Qed.

Lemma drop_type_spec i bad mask j : 0 <= i -> 0 <= j ->
  Z.testbit (drop_type (2 ^ i) bad mask) j = Z.testbit mask j && negb ((i =? j) && bad).
Proof.
  intros Hi Hj. unfold drop_type. rewrite testbit_pow2_land by done.
  destruct (Z.testbit mask i) eqn:E, bad; cbn [andb]; rewrite ?andb_false_r, ?andb_true_r; try done.
  - rewrite Z.ldiff_spec, Z.pow2_bits_eqb by done. done.
  - destruct (Z.eqb_spec i j) as [<-|]; [rewrite E; done|symmetry; apply andb_true_r].
Qed.

(** What the character [u] leaves of the bit [i] of the mask. *)
Definition survives (i u : Z) : bool :=
  if i =? 1 then asn1_is_printable u else if i =? 4 then u <=? 127
  else if i =? 2 then u <=? 0xff else if i =? 11 then u <=? 0xffff else true.

Lemma update_mask_spec mask u j : 0 <= j ->
  Z.testbit (update_mask mask u) j = Z.testbit mask j && survives j u.
Proof.
  intros Hj. unfold update_mask, survives.
  change B_ASN1_BMPSTRING with (2 ^ 11). change B_ASN1_T61STRING with (2 ^ 2).
  change B_ASN1_IA5STRING with (2 ^ 4). change B_ASN1_PRINTABLESTRING with (2 ^ 1).
  rewrite !drop_type_spec by lia. rewrite !Z.gtb_ltb, !(Z.eqb_sym _ j).
  destruct (Z.eqb_spec j 1) as [->|]; [cbn; rewrite negb_involutive, !andb_true_r; done|].
  destruct (Z.eqb_spec j 4) as [->|]; [cbn; rewrite !andb_true_r, Z.leb_antisym; done|].
  destruct (Z.eqb_spec j 2) as [->|]; [cbn; rewrite !andb_true_r, Z.leb_antisym; done|].
  destruct (Z.eqb_spec j 11) as [->|]; cbn; rewrite !andb_true_r, ?Z.leb_antisym; done.
Qed.

Lemma fold_mask_spec us mask j : 0 <= j ->
  Z.testbit (fold_left update_mask us mask) j = Z.testbit mask j && forallb (survives j) us.
Proof.
  intros Hj. revert mask. induction us as [|u us IH]; intros mask; cbn [fold_left forallb].
  - rewrite andb_true_r. done.
  - rewrite IH, update_mask_spec by done. rewrite andb_assoc. done.
Qed.

Lemma forallb_const_true (us : list Z) : forallb (fun _ => true) us = true.
Proof. induction us; done. Qed.

Section select.
Context (malloc_ok : Z -> bool) (uninit : nat -> Z).

Definition codec_of (form : Z) : option codec :=
  if form =? MBSTRING_BMP then Some (ucs2 malloc_ok uninit)
  else if form =? MBSTRING_UNIV then Some (utf32 malloc_ok uninit)
  else if form =? MBSTRING_UTF8 then Some (utf8 malloc_ok uninit)
  else if form =? MBSTRING_ASC then Some (latin1 malloc_ok uninit)
  else None.

Definition out_form (t : Z) : Z :=
  if t =? V_ASN1_BMPSTRING then MBSTRING_BMP
  else if t =? V_ASN1_UNIVERSALSTRING then MBSTRING_UNIV
  else if t =? V_ASN1_UTF8STRING then MBSTRING_UTF8 else MBSTRING_ASC.

Lemma decode_func_codec inform : decode_func inform = option_map decode (codec_of inform).
Proof. unfold decode_func, codec_of. repeat case_match; done. Qed.

Lemma output_type_select us mask nchar utf8_len :
  match output_type malloc_ok uninit (fold_left update_mask us mask) nchar utf8_len with
  | Some (t, outform, encode_func, est) =>
      select type_table mask us = Some t /\ outform = out_form t /\
      (exists k, codec_of (out_form t) = Some k /\ encode_func = encode k) /\
      (est = nchar \/ est = size_t (2 * nchar) \/ est = size_t (4 * nchar) \/ est = utf8_len)
  | None => select type_table mask us = None
  end.
Proof.
  unfold output_type. cbn [select type_table].
  change B_ASN1_BMPSTRING with (2 ^ 11). change B_ASN1_T61STRING with (2 ^ 2).
  change B_ASN1_IA5STRING with (2 ^ 4). change B_ASN1_PRINTABLESTRING with (2 ^ 1).
  change B_ASN1_UNIVERSALSTRING with (2 ^ 8). change B_ASN1_UTF8STRING with (2 ^ 13).
  rewrite !testbit_pow2_land, !fold_mask_spec by lia.
  change (survives 1) with asn1_is_printable. change (survives 4) with (fun u => u <=? 127).
  change (survives 2) with (fun u => u <=? 0xff). change (survives 11) with (fun u => u <=? 0xffff).
  change (survives 8) with (fun _ : Z => true). change (survives 13) with (fun _ : Z => true).
  repeat (mcase; [split_and!; eauto 6; eexists; split; reflexivity|]). done.
Qed.

(** ** The two loops *)

Section loops.
Context (k : codec) {Hk : TextCodec k}.

Lemma text_cons u us : text k (u :: us) = octets k u ++ text k us.
Proof. done. Qed.

Lemma octets_nonempty u l : repertoire k u = true -> octets k u ++ l <> [].
Proof using Hk.
  intros Hu E. apply app_eq_nil in E as [E _]. pose proof (codec_length u Hu) as Hl.
  rewrite E, zlen_nil in Hl. lia.
Qed.

Lemma text_length us : Forall (fun u => repertoire k u = true) us ->
  zlen us <= zlen (text k us) <= 4 * zlen us.
Proof using Hk.
  induction 1 as [|u us Hu _ IH]; [done|]. rewrite text_cons, zlen_cons, zlen_app.
  pose proof (codec_length u Hu). lia.
Qed.

Lemma fold_mask_0 us : fold_left update_mask us 0 = 0.
Proof. induction us; done. Qed.

Lemma mb_scan_nonempty n inform c mask nchar ul : c <> [] ->
  mb_scan (S n) (decode k) inform c mask nchar ul =
    match decode k c with
    | (None, _) => inl INVALID_INPUT
    | (Some u, c') =>
        if (nchar =? 0) && ((inform =? MBSTRING_BMP) || (inform =? MBSTRING_UNIV)) && (u =? 0xfeff)
        then inl ILLEGAL_CHARACTERS
        else
          let mask := update_mask mask u in
          if mask =? 0 then inl ILLEGAL_CHARACTERS
          else mb_scan n (decode k) inform c' mask (size_t (nchar + 1))
                 (size_t (ul + cbb_get_utf8_len u))
    end.
Proof. intros Hc. cbn [mb_scan]. unfold CBS_len. destruct (Z.eqb_spec (zlen c) 0) as [E|]; [|done].
  apply zlen_zero in E. done. Qed.

(** The scan of a text: a byte-order mark and an empty mask stop it. *)
Lemma mb_scan_text inform us n mask nchar ul : Forall (fun u => repertoire k u = true) us ->
  bytes_ok (text k us) -> (length us <= n)%nat -> 0 <= nchar -> nchar + zlen us < 2 ^ 60 ->
  0 <= ul -> ul + 4 * zlen us < 2 ^ 60 ->
  exists ul', 0 <= ul' <= ul + 4 * zlen us /\ mb_scan n (decode k) inform (text k us) mask nchar ul =
    if (nchar =? 0) && has_bom inform us then inl ILLEGAL_CHARACTERS
    else if negb (zlen us =? 0) && (fold_left update_mask us mask =? 0) then inl ILLEGAL_CHARACTERS
    else inr (fold_left update_mask us mask, nchar + zlen us, ul').
Proof using Hk.
  intros Hus. revert n mask nchar ul.
  induction Hus as [|u us Hu Hus IH]; intros n mask nchar ul Hok Hn H0 Hlen Hul Hul4.
  - exists ul. split; [unfold zlen; simpl; lia|]. destruct n; cbn; rewrite andb_false_r, Z.add_0_r; done.
  - destruct n as [|n]; [simpl in Hn; lia|]. rewrite text_cons in Hok |- *.
    apply Forall_app in Hok as [_ Hok]. pose proof (codec_length u Hu) as Hl.
    rewrite mb_scan_nonempty by (by apply octets_nonempty).
    rewrite codec_complete by done. rewrite zlen_cons in *. pose proof (zlen_nonneg us).
    assert (Hg : 1 <= cbb_get_utf8_len u <= 4) by (unfold cbb_get_utf8_len; repeat case_match; lia).
    rewrite !size_t_small by lia.
    destruct (IH n (update_mask mask u) (nchar + 1) (ul + cbb_get_utf8_len u)) as (ul' & Hul' & E);
      [done|simpl in Hn; lia|lia..|].
    exists ul'. split; [lia|]. cbn [fold_left has_bom]. rewrite andb_assoc.
    destruct ((nchar =? 0) && _ && _); [done|]. rewrite E.
    rewrite (proj2 (Z.eqb_neq (nchar + 1) 0)), (proj2 (Z.eqb_neq (1 + zlen us) 0)) by lia.
    cbn [andb negb].
    destruct (Z.eqb_spec (update_mask mask u) 0) as [->|].
    + rewrite fold_mask_0. done.
    + replace (nchar + 1 + zlen us) with (nchar + (1 + zlen us)) by lia.
      destruct us as [|u' us]; [cbn; destruct (Z.eqb_spec (update_mask mask u) 0); done|].
      rewrite zlen_cons in *. rewrite (proj2 (Z.eqb_neq (1 + zlen us) 0)) by (pose proof (zlen_nonneg us); lia).
      done.
Qed.

(** Only texts pass the scan. *)
Lemma mb_scan_sound inform n c mask nchar ul r : bytes_ok c ->
  mb_scan n (decode k) inform c mask nchar ul = inr r ->
  exists us, Forall (fun u => repertoire k u = true) us /\ c = text k us.
Proof using Hk.
  revert c mask nchar ul. induction n as [|n IH]; intros c mask nchar ul Hc H.
  - cbn in H. destruct (Z.eqb_spec (CBS_len c) 0) as [E|]; [|done]. apply zlen_zero in E as ->.
    exists []. done.
  - destruct (decide (c = [])) as [->|Hne]; [exists []; done|].
    rewrite mb_scan_nonempty in H by done. destruct (decode k c) as [[u|] c'] eqn:E; [|done].
    apply codec_sound in E as [Hu ->]; [|done]. apply Forall_app in Hc as [_ Hc].
    destruct (_ && _); [done|]. cbv zeta in H. destruct (_ =? 0); [done|].
    apply IH in H as (us & Hus & ->); [|done]. exists (u :: us). split; [by constructor|done].
Qed.

Lemma mb_scan_errors inform n c mask nchar ul e : bytes_ok c -> (length c <= n)%nat ->
  mb_scan n (decode k) inform c mask nchar ul = inl e -> e = INVALID_INPUT \/ e = ILLEGAL_CHARACTERS.
Proof using Hk.
  revert c mask nchar ul. induction n as [|n IH]; intros c mask nchar ul Hc Hn H.
  - destruct c; [done|simpl in Hn; lia].
  - destruct (decide (c = [])) as [->|Hne]; [done|].
    rewrite mb_scan_nonempty in H by done. destruct (decode k c) as [[u|] c'] eqn:E; [|simp_eq; auto].
    apply codec_sound in E as [Hu ->]; [|done]. apply Forall_app in Hc as [_ Hc].
    destruct (_ && _); [simp_eq; auto|]. cbv zeta in H. destruct (_ =? 0); [simp_eq; auto|].
    apply IH in H; [done..|]. rewrite length_app in Hn. pose proof (codec_length u Hu). unfold zlen in *. lia.
Qed.

(** Characters of both codecs are transcoded without failure. *)
Lemma mb_transcode_text k' {Hk' : TextCodec k'} h us n :
  Forall (fun u => repertoire k u = true) us -> Forall (fun u => repertoire k' u = true) us ->
  bytes_ok (text k us) -> (length us <= n)%nat ->
  appends h (mb_transcode n (decode k) (encode k') h (text k us)) (text k' us).
Proof using Hk.
  intros Hus. revert n. induction Hus as [|u us Hu Hus IH]; intros n Hus' Hok Hn.
  - destruct n; apply appends_nil.
  - destruct n as [|n]; [simpl in Hn; lia|]. rewrite text_cons in Hok |- *.
    apply Forall_app in Hok as [_ Hok]. apply Forall_cons in Hus' as [Hu' Hus'].
    pose proof (codec_length u Hu). unfold text at 2. cbn [fmap list_fmap concat].
    eapply appends_ext; [|apply appends_seq; [apply codec_encode; done|apply (IH n); [done..|simpl in Hn; lia]]].
    intros s. cbn [mb_transcode]. unfold CBS_len. rewrite zlen_app.
    pose proof (zlen_nonneg (text k us)). decide_cmp.
    unfold bind at 1, on. rewrite codec_complete by done. done.
Qed.
End loops.
End select.

(** ** Correctness *)

Section theorems.
Context (malloc_ok : Z -> bool) (uninit : nat -> Z).
Context (Hmalloc : forall n, 0 <= n < 2 ^ 63 -> malloc_ok n = true).

Lemma codec_of_codec form k : codec_of malloc_ok uninit form = Some k -> TextCodec k.
Proof using Hmalloc. unfold codec_of. repeat case_match; intros; simplify_eq; auto with codecs. Qed.

Lemma printable_ascii u : asn1_is_printable u = true -> u <= 0x7f.
Proof. unfold asn1_is_printable. rewrite Z.gtb_ltb. destruct (Z.ltb_spec 0x7f u); done. Qed.

(** The selected type can represent the text. *)
Lemma select_repertoire k k' mask us t : Forall (fun u => repertoire k u = true) us ->
  select type_table mask us = Some t -> codec_of malloc_ok uninit (out_form t) = Some k' ->
  Forall (fun u => repertoire k' u = true) us.
Proof.
  intros Hus Hsel Hk.
  assert (G : forall ok m, forallb ok us = true -> max_char k' = m ->
    (forall u, ok u = true -> u <= 0x10ffff -> u <= m) -> Forall (fun u => repertoire k' u = true) us).
  { intros ok m Hok Hm Hle. rewrite forallb_forall in Hok. rewrite Forall_forall in Hus |- *.
    intros u Hu. specialize (Hus u Hu). apply repertoire_inv in Hus as (Hr & Hv & H10).
    unfold repertoire. rewrite Hv, Hm. pose proof (Hle u (Hok u (proj1 (list_elem_of_In us u) Hu)) H10).
    decide_cmp; done. }
  cbn [select type_table] in Hsel.
  repeat match type of Hsel with
  | (if ?b then _ else _) = _ => destruct b eqn:?
  end; try discriminate Hsel; injection Hsel as <-; injection Hk as <-;
  match goal with H : (_ && _)%bool = true |- _ => apply andb_prop in H as [_ H]; eapply G; [exact H|reflexivity|] end;
  intros u Hu Hm; cbn [max_char ucs2 utf32 utf8 latin1]; try lia;
  first [apply printable_ascii in Hu | apply Z.leb_le in Hu]; lia.
Qed.

(** The scan of a text that permits an output type. *)
Lemma scan_text k inform us mask : TextCodec k -> Forall (fun u => repertoire k u = true) us ->
  bytes_ok (text k us) -> zlen (text k us) < 2 ^ 28 ->
  exists ul, 0 <= ul < 2 ^ 32 /\ mb_scan (length (text k us)) (decode k) inform (text k us) mask 0 0 =
    if has_bom inform us then inl ILLEGAL_CHARACTERS
    else if negb (zlen us =? 0) && (fold_left update_mask us mask =? 0) then inl ILLEGAL_CHARACTERS
    else inr (fold_left update_mask us mask, zlen us, ul).
Proof.
  intros Hk Hus Hok Hlen. pose proof (text_length k us Hus).
  destruct (mb_scan_text k inform us (length (text k us)) mask 0 0) as (ul & Hul & E);
    [done|done|unfold zlen in *; lia|lia..|]. exists ul. split; [lia|exact E].
Qed.

Lemma select_empty us : select type_table 0 us = None.
Proof. done. Qed.

Lemma fold_zero_select us mask : fold_left update_mask us mask = 0 -> select type_table mask us = None.
Proof.
  intros H. assert (G : forall i, 0 <= i -> Z.testbit mask i && forallb (survives i) us = false).
  { intros i Hi. rewrite <- fold_mask_spec, H, Z.bits_0 by done. done. }
  pose proof (G 1 ltac:(lia)) as G1. pose proof (G 4 ltac:(lia)) as G4. pose proof (G 2 ltac:(lia)) as G2.
  pose proof (G 11 ltac:(lia)) as G11. pose proof (G 8 ltac:(lia)) as G8. pose proof (G 13 ltac:(lia)) as G13.
  cbn [select type_table].
  change (survives 1) with asn1_is_printable in G1. change (survives 4) with (fun u => u <=? 127) in G4.
  change (survives 2) with (fun u => u <=? 0xff) in G2. change (survives 11) with (fun u => u <=? 0xffff) in G11.
  change (survives 8) with (fun _ : Z => true) in G8. change (survives 13) with (fun _ : Z => true) in G13.
  rewrite G1, G4, G2, G11, G8, G13. done.
Qed.

(** C32. Which string type [ASN1_mbstring_copy] chooses for a well-formed text:
    the first of PrintableString, IA5String, T61String, BMPString,
    UniversalString and UTF8String that the mask permits and that can represent
    every character; a byte-order mark, or the absence of such a type, is
    refused. *)
Theorem mbstring_selects k us inform mask : codec_of malloc_ok uninit inform = Some k ->
  Forall (fun u => repertoire k u = true) us -> bytes_ok (text k us) -> zlen (text k us) < 2 ^ 28 ->
  fst (ASN1_mbstring_copy malloc_ok uninit None (text k us) inform mask) =
    if has_bom inform us then inl ILLEGAL_CHARACTERS
    else match select type_table (effective_mask mask) us with
         | Some t => inr t
         | None => inl ILLEGAL_CHARACTERS
         end.
Proof using Hmalloc.
  intros Hk Hus Hok Hlen. pose proof (codec_of_codec _ _ Hk) as Hc.
  unfold ASN1_mbstring_copy, ASN1_mbstring_ncopy. rewrite (decode_func_codec malloc_ok uninit).
  rewrite Hk. cbn [option_map]. unfold CBS_init. fold (effective_mask mask).
  destruct (scan_text k inform us (effective_mask mask) Hc Hus Hok Hlen) as (ul & _ & ->).
  destruct (has_bom inform us); [done|]. destruct (negb (zlen us =? 0) && _) eqn:E0.
  - apply andb_prop in E0 as [_ E0]. apply Z.eqb_eq in E0. rewrite fold_zero_select; done.
  - cbn [andb Z.gtb Z.compare]. pose proof (output_type_select malloc_ok uninit us (effective_mask mask) (zlen us) ul) as Ho.
    destruct (output_type _ _ _ _ _) as [[[[t f] ef] est]|]; [destruct Ho as [-> _]|rewrite Ho]; done.
Qed.

(** A new object takes the bytes as they are, NUL-terminated. *)
Lemma string_set_new t inn : zlen inn < 2 ^ 31 ->
  ASN1_STRING_set malloc_ok uninit (Asn1String 0 t None 0) (Some inn) (zlen inn) =
    Some (Asn1String (zlen inn) t (Some (inn ++ [0])) 0).
Proof using Hmalloc.
  intros Hlen. pose proof (zlen_nonneg inn). unfold ASN1_STRING_set. cbn [as_data]. decide_cmp.
  rewrite OPENSSL_malloc_small by (done || lia). cbn [as_type as_flags].
  rewrite ztake_all by done. do 2 f_equal. f_equal.
  pose proof (zwrite_mid 0 (inn ++ [0]) [] (fresh_block uninit (zlen inn + 1)) []) as Hw.
  rewrite !app_nil_r in Hw. apply Hw; [done|].
  rewrite zlen_fresh_block, zlen_app by lia. done.
Qed.

(** Converting a text that both codecs represent. *)
Lemma convert_text k k' us est : TextCodec k -> TextCodec k' ->
  Forall (fun u => repertoire k u = true) us -> Forall (fun u => repertoire k' u = true) us ->
  bytes_ok (text k us) -> zlen (text k us) < 2 ^ 28 -> 0 <= est < 2 ^ 60 ->
  exists s, CBB_init malloc_ok uninit 1 est (Store None ∅) = (Some tt, s) /\
    fst (mb_convert malloc_ok uninit (decode k) (encode k') (text k us) s) = Some (text k' us ++ [0]).
Proof using Hmalloc.
  intros Hk Hk' Hus Hus' Hok Hlen Hest. pose proof (text_length k us Hus) as L1.
  pose proof (text_length k' us Hus') as L2.
  destruct (init_ok malloc_ok uninit Hmalloc 1 est (Store None ∅) Hest) as (s & E & Hw).
  exists s. split; [done|]. unfold mb_convert.
  assert (Happ : appends 1 (mb_transcode (length (text k us)) (decode k) (encode k') 1 (text k us) ;;
                            CBB_add_u8 malloc_ok uninit 1 0) (text k' us ++ [0])).
  { apply appends_seq; [apply mb_transcode_text; done || (unfold zlen in *; lia)|].
    apply appends_u8; done. }
  destruct (Happ s _ _ Hw) as (s1 & E1 & Hw1 & _); [zlia|].
  destruct (finish_ok malloc_ok uninit 1 _ _ _ Hw1 eq_refl) as (s2 & E2).
  unfold bind in E1 |- *. destruct (mb_transcode _ _ _ _ _ s) as [[[]|] s0]; [|done].
  rewrite E1, E2. cbn [app]. rewrite zlen_app. change (zlen [0]) with 1.
  pose proof (zlen_nonneg (text k' us)). unfold INT_MAX. rewrite Z.gtb_ltb. decide_cmp. done.
Qed.

(** C31. Whatever [ASN1_mbstring_ncopy] accepts is a well-formed text in the
    input encoding, and the new object holds the same characters in the
    encoding of the selected type, with a NUL that is not counted. When it
    refuses, the reason is the text or the limits: once a type is selected,
    transcoding never fails, and [*out] is untouched. *)
Theorem mbstring_transcodes k inn inform mask minsize maxsize :
  codec_of malloc_ok uninit inform = Some k -> bytes_ok inn -> zlen inn < 2 ^ 28 ->
  match ASN1_mbstring_ncopy malloc_ok uninit (Some PNull) inn inform mask minsize maxsize with
  | (inr t, Some (PLive s)) =>
      exists us k', Forall (fun u => repertoire k u = true) us /\ inn = text k us /\
        select type_table (effective_mask mask) us = Some t /\
        codec_of malloc_ok uninit (out_form t) = Some k' /\
        s = Asn1String (zlen (text k' us)) t (Some (text k' us ++ [0])) 0
  | (inl e, Some PNull) =>
      e = INVALID_INPUT \/ e = ILLEGAL_CHARACTERS \/ e = STRING_TOO_SHORT \/ e = STRING_TOO_LONG
  | _ => False
  end.
Proof using Hmalloc.
  intros Hk Hok Hlen. pose proof (codec_of_codec _ _ Hk) as Hc.
  unfold ASN1_mbstring_ncopy. rewrite (decode_func_codec malloc_ok uninit), Hk. cbn [option_map].
  unfold CBS_init. fold (effective_mask mask).
  destruct (mb_scan (length inn) (decode k) inform inn (effective_mask mask) 0 0) as [e|[[m nchar] ul]] eqn:Es.
  { apply mb_scan_errors in Es; [tauto|done..]. }
  destruct (mb_scan_sound k _ _ _ _ _ _ _ Hok Es) as (us & Hus & ->).
  destruct (scan_text k inform us (effective_mask mask) Hc Hus Hok Hlen) as (ul' & Hul & Es').
  rewrite Es in Es'. destruct (has_bom inform us); [done|]. destruct (negb _ && _); [done|].
  injection Es' as -> -> ->. destruct ((minsize >? 0) && _); [tauto|]. destruct ((maxsize >? 0) && _); [tauto|].
  pose proof (output_type_select malloc_ok uninit us (effective_mask mask) (zlen us) ul') as Ho.
  destruct (output_type _ _ _ _ _) as [[[[t f] ef] est]|]; [|tauto].
  destruct Ho as (Hsel & -> & (k' & Hk' & ->) & Hest).
  cbn [mb_dest]. unfold ASN1_STRING_type_new. rewrite OPENSSL_malloc_small by (done || lia). cbn [option_map].
  destruct (Z.eqb_spec inform (out_form t)) as [->|Hne].
  - rewrite string_set_new by lia. exists us, k. rewrite Hk. done.
  - pose proof (codec_of_codec _ _ Hk') as Hc'.
    pose proof (select_repertoire k k' _ us t Hus Hsel Hk') as Hus'.
    destruct (convert_text k k' us (size_t (est + 1)) Hc Hc' Hus Hus' Hok Hlen) as (s & -> & E).
    { pose proof (text_length k us Hus). rewrite size_t_small; destruct Hest as [->|[->|[->| ->]]]; rewrite ?size_t_small; lia. }
    destruct (mb_convert _ _ _ _ _ _) as [[d|] s']; cbn in E; [|done]. injection E as ->.
    exists us, k'. rewrite zlen_app. change (zlen [0]) with 1. split_and!; try done.
    cbn [as_type as_flags]. do 2 f_equal. lia.
Qed.
End theorems.

Lemma mbstring_selects_witness :
  fst (ASN1_mbstring_copy (fun _ => true) (fun _ => 0) None
         (text (utf8 (fun _ => true) (fun _ => 0)) [0x61; 0x20ac]) MBSTRING_UTF8 0) = inr V_ASN1_BMPSTRING.
Proof.
  rewrite (mbstring_selects (fun _ => true) (fun _ => 0) (fun _ _ => eq_refl)
    (utf8 (fun _ => true) (fun _ => 0)) [0x61; 0x20ac] MBSTRING_UTF8 0).
  - vm_compute. reflexivity.
  - reflexivity.
  - repeat constructor.
  - repeat constructor; discriminate.
  - reflexivity.
Defined.

Lemma mbstring_transcodes_witness :
  let r := ASN1_mbstring_ncopy (fun _ => true) (fun _ => 0) (Some PNull) [0x61; 0xc3; 0xa9] MBSTRING_UTF8 0 1 9 in
  match r with
  | (inr t, Some (PLive s)) =>
      exists us k', Forall (fun u => repertoire (utf8 (fun _ => true) (fun _ => 0)) u = true) us /\
        [0x61; 0xc3; 0xa9] = text (utf8 (fun _ => true) (fun _ => 0)) us /\
        select type_table (effective_mask 0) us = Some t /\
        codec_of (fun _ => true) (fun _ => 0) (out_form t) = Some k' /\
        s = Asn1String (zlen (text k' us)) t (Some (text k' us ++ [0])) 0
  | (inl e, Some PNull) =>
      e = INVALID_INPUT \/ e = ILLEGAL_CHARACTERS \/ e = STRING_TOO_SHORT \/ e = STRING_TOO_LONG
  | _ => False
  end.
Proof.
  apply (mbstring_transcodes (fun _ => true) (fun _ => 0) (fun _ _ => eq_refl)
    (utf8 (fun _ => true) (fun _ => 0)) [0x61; 0xc3; 0xa9] MBSTRING_UTF8 0 1 9).
  - reflexivity.
  - repeat constructor; discriminate.
  - reflexivity.
Defined.
